(* ===== verification/_CoqProject ===== *)
-Q . S2P
Prelude.v
Bytes.v
Errors.v
Checksum.v
ApiTypes.v
Clock.v
Allocator.v
FaultFS.v
StorageErrors.v
WalCodec.v
WalScan.v
WalLog.v
OrderedKeys.v
History.v
Expiry.v
Watch.v
Engine.v
Writer.v
Commands.v
Replay.v
WriterFacts.v
EngineInv.v
WalEngine.v
DueExpiry.v
EngineRun.v
Restart.v
Base64.v
Cursor.v
Scan.v
Storage.v
Identity.v
Sha256.v
Snapshot.v
Json.v
GoTime.v
GoJson.v
Manifest.v
Frame.v
RecoverySnapshot.v
Envelope.v
Requests.v
ReadMany.v
AdminResults.v
WireErrors.v
ClientErrors.v
Responses.v
ResultCodec.v
ResponseCodec.v
ClientCodec.v
ClientAccept.v
Client.v
ClientFacts.v
Server.v
ServerFacts.v
FileFrames.v
FaultFree.v
Recovery.v
Generation.v
CrashRestart.v
Compaction.v
Reopen.v
Initialize.v
Lifecycle.v
Database.v
Refusals.v
Session.v
