(* ===== verification/Prelude.v ===== *)
(** * Gapdb: a verification library

    Gapdb is an embedded key-value database with one owner process: every
    mutation is a batch that one writer goroutine checks, logs, makes durable on
    request and installs in memory; readers see the installed state; watches
    receive the changes of every commit; records expire.  Clients
    talk to the owner over a socket in framed JSON.  This library models the
    storage format, the engine, the wire protocol and both of its ends, and
    proves them correct.

    ** The parts, and the files that model them

    - [Prelude], [Bytes], [Base64], [Checksum], [Sha256], [Json], [GoTime],
      [GoJson]: Go results and integers, byte strings, the order of strings,
      UTF-8, base64, CRC-32C, SHA-256, RFC 3339 times and encoding/json on
      structs, as the standard library defines them.
    - [Errors], [ApiTypes] (src/gapdb/types.go, options.go): the error type and
      its catalog, limits, records, batches, and their validation.
    - [Clock] (src/internal/clock), [Allocator] (src/internal/engine/revision.go).
    - [FaultFS] (src/internal/faultfs/fs.go): files, directories and system
      calls with hooks; [crash_inode] and [crash_file] say what a restart finds.
    - [StorageErrors], [WalCodec], [WalLog] (src/internal/persist/wal.go) and
      [WalScan] (recovery.go): the formats of the log, the log as an open file
      behind a buffered writer, and its recovery scan.
    - [OrderedKeys], [History], [Expiry], [Watch]
      (src/internal/engine/writer.go, history.go, expiry.go, watch.go): the
      sorted key index, the bounded change history, the expiry heap, the
      registry of watches and the pump of each.
    - [Engine] (state.go, mutation.go), [Writer] (writer.go, expiry.go),
      [Commands] (writer.go, snapshot.go, admin.go): the state of the database,
      its construction, the execution of a batch and of an expiry round, and the
      queue of commands that the writer goroutine serves.
    - [Cursor], [Scan] (scan.go): pages of a prefix scan and their cursors.
    - [Storage]: a monad for code on files, and the protocol by which identity,
      manifest, snapshots and logs are put in place (temporary file, sync,
      rename, directory sync); [Identity], [Snapshot], [Manifest]
      (src/internal/persist/identity.go, snapshot.go, manifest.go): the three
      file formats, their readers and writers.
    - [Recovery] (recovery.go): recovery of a database from its files;
      [Generation] (snapshot.go): the installation of a snapshot and its log;
      [Compaction] (compaction.go): the deletion of the files behind it;
      [FileFrames], [FaultFree]: which files a step leaves alone, and runs
      without faults.
    - [Replay], [Reopen], [Initialize] (src/internal/server/owner.go): the
      records after a list of commits, the specification state of the engine;
      opening a database again; creating a new one.
    - [Frame] (src/internal/protocol/frame.go, errors.go, src/gapdb/client.go):
      length-prefixed frames; [RecoverySnapshot]
      (src/gapdb/recovery_snapshot.go, state.go): the bounded export of the
      records under a prefix; [Envelope], [Requests]
      (src/internal/protocol/envelope.go): requests as JSON, and what the
      codec guarantees.
    - [ReadMany] (src/gapdb/read_many.go, state.go): batched reads.
    - [AdminResults], [WireErrors], [Responses] (envelope.go,
      src/gapdb/client.go, types.go): the results of administration, errors with
      their evidence, and responses as JSON; [ResultCodec], [ResponseCodec]: what
      that codec guarantees.
    - [ClientErrors], [ClientCodec] (src/gapdb/client_codec.go): the client's own
      validation of errors and responses; [ClientAccept]: what it accepts.
    - [Client] (src/gapdb/client.go): the calls of the client over a network
      interface; [ClientFacts]: its requests and what it reads.
    - [Server] (src/internal/server/server.go, handler.go, and the running view
      of src/internal/admin): the rounds of a connection, from a frame to the
      engine and back; [ServerFacts]: the frame limit of responses; [Refusals]:
      the errors of a batch that its own predicates refuse, that a response
      carries them, and that no failure reads as a success.
    - [Session]: a client and a server over a connection.

    The engine is generic in its clock, allocator, log and hooks, which are
    classes ([Clock], [RevisionAllocator], [CommitLog], [Faults]); calls through
    them may fail, and the allocator and the append and barrier of the log may
    also panic; the hooks and the query for the durable revision do not.  The
    laws the engine needs are [LogSpec] and [AllocatorSpec] ([EngineInv]);
    [WalEngine] proves that the write-ahead log and the range allocator satisfy
    them in every environment whose failing system calls return errors of their
    own ([PlainOS]).

    ** What is proved

    - Formats: the codecs of the log's header and frames, of snapshots, of the
      identity and manifest files and of scan cursors are exact, the decoder
      accepts the encoder's output and nothing else.
    - The log: after any run with failing or short writes and a crash, the scan
      of the file succeeds, returns a prefix of the appended commits and every
      commit that was reported durable ([WalLog], [WalScan]).
    - Components: the key index, history, expiry heap and allocator refine their
      abstract counterparts; watches deliver without gaps and never block the
      writer.
    - The engine: [WriterFacts] gives weakest preconditions for the writer's
      steps, [EngineInv] the invariant and that [execute] preserves it on every
      path, [DueExpiry] the same for an expiry round and what it deletes,
      [EngineRun] for every command and step of the owner, [Restart] that [New]
      establishes it from recovered data.
    - The database: [Database] composes them.  Every run is a trace of commits,
      replies tell the truth, the writer makes progress, and what a client was
      told is durable is found after a crash.  Its module [SampleDB] is a
      concrete database on the modelled file system on which the hypotheses of
      the theorems hold.
    - Storage: replacing a file is atomic in every environment ([Storage]);
      revisions are not reused across crashes ([Identity]); [CrashRestart] and
      [Lifecycle] follow a database over the crash of its process, while it
      runs, while it installs a snapshot or behind its creation, to the engine
      that the next process opens; compaction deletes exactly the files of
      superseded generations ([Compaction]).
    - Reads: pages of a scan are exact, and following the cursors visits every
      record once; a recovery export is exact and so is its frame.
    - The wire: frames arrive as they were sent ([Frame]); a decoded request is
      within the limits whatever bytes arrived, and a request is received as it
      was sent or refused on both sides ([Requests]).  A response is encoded
      exactly when it is coherent and is then decoded as it was
      ([ResponseCodec]); the server always answers within its frame limit
      ([ServerFacts]); the client's independent checks agree with those of the
      protocol ([ClientErrors], [ClientAccept]).
    - Both ends: over a connection that loses nothing, a read through the client
      is a read of the engine, and what a client is told of a batch is what
      happened to the log, whether the engine commits it, refuses it or fails
      ([Session]).

    ** Bounds and fuel

    Integers are [Z] with wrap-around written out where the code's arithmetic
    can wrap; lengths of slices in memory are assumed below [2 ^ 63]
    ([physical], [fits]).  Loops that are not structural carry fuel that is
    proved sufficient: one unit per byte for the scan ([scan_terminates]) and
    for [writeFull] ([writeFull_total]), one per element for the binary search
    and the heap loops, whose specifications are proved for the fuel used.

    A directory is flat, and a crash exposes it as it was at its last sync or
    behind one of the changes since; a file has its synced bytes and any
    number of those written after them.  The log and the allocator of a running
    engine each have a view of the disk of their own: they write to different
    files.  A process that restarts is followed in an environment without
    faults ([FaultFree]); the one that stopped runs in an arbitrary one.

    ** Not modelled

    The owner lock (flock and file modes), backups, the audit trail, and online
    and offline verification and recovery: they are system calls, or reports
    over the files whose readers are modelled.  In the engine, a snapshot
    installer is an argument with the law [installer_ok]; in the server, the
    administrative commands are the interface [Administration], and what a
    subscription delivers is an argument of the stream of a watch.  Sockets,
    deadlines and the concurrency of connections: the server serves one frame
    at a time and the client makes one call at a time.  The command-line tool,
    which parses arguments and prints.  The texts of errors of encoding/json.
    The publication of a commit to the watches, and the hand-over of an event by
    a pump together with its count, are single steps of [Watch].  The theorems of
    [Session] are about calls without a reused connection, by a client that has
    the limits of the server. *)

From stdpp Require Import base gmap list fin_maps sorting strings.
From Stdlib Require Import ZArith Lia.

Local Open Scope Z_scope.

(** ** Results of Go functions

    A Go function with results [(A, error)] is a [result E A]; a Go function
    whose only result is an [error] returns an [option E], [None] being [nil]. *)

Inductive result (E A : Type) : Type :=
| Ok (a : A)
| Err (e : E).
Arguments Ok {E A} a.
Arguments Err {E A} e.

Definition is_ok {E A} (r : result E A) : bool :=
  match r with Ok _ => true | Err _ => false end.

Definition or_default {E A} (default : A) (r : result E A) : A :=
  match r with Ok a => a | Err _ => default end.

Global Instance result_ret {E} : MRet (result E) := fun A a => Ok a.
Global Instance result_bind {E} : MBind (result E) := fun A B k m =>
  match m with Ok a => k a | Err e => Err e end.

(** A call through a Go interface returns or panics; the engine's writer
    recovers from both. *)
Inductive outcome (A : Type) : Type :=
| Returned (a : A)
| Panicked (v : string).
Arguments Returned {A} a.
Arguments Panicked {A} v.

Declare Scope go_scope.
Delimit Scope go_scope with go.

(** [if err := e; err != nil { return err }] in a function returning [error]. *)
Notation "'try' e ;; k" := (match e with Some err => Some err | None => k end)
  (at level 100, e at level 99, k at level 200, right associativity) : go_scope.
(** The same guard in a function returning [(A, error)]. *)
Notation "'check' e ;; k" := (match e with Some err => Err err | None => k end)
  (at level 100, e at level 99, k at level 200, right associativity) : go_scope.
(** [if c { return Err e }]. *)
Notation "'reject' c 'with' e ;; k" := (if c then Err e else k)
  (at level 100, c at level 99, e at level 99, k at level 200, right associativity) : go_scope.

(** ** Machine integers

    A w-bit integer is a [Z]; the wrap-around of Go's arithmetic is written
    out with the two functions below. *)

Definition max_uint64 : Z := 2 ^ 64 - 1.
Definition u64 (z : Z) : Prop := 0 <= z <= max_uint64.
Definition max_uint32 : Z := 2 ^ 32 - 1.
Definition max_int64 : Z := 2 ^ 63 - 1.
Definition wrap_u64 (z : Z) : Z := z mod 2 ^ 64.
Definition wrap_i64 (z : Z) : Z :=
  let u := z mod 2 ^ 64 in if u <? 2 ^ 63 then u else u - 2 ^ 64.

(** [len(s)] of a slice, string or map literal: an [int]. *)
Definition len {A} (l : list A) : Z := Z.of_nat (length l).

(** ** Tactics of the development *)

Create HintDb gapdb discriminated.
Create Rewrite HintDb gapdb.

(** Case analysis on every [if] and [match] of the goal or of a hypothesis,
    clearing the impossible branches. *)
Ltac go_destruct t := let E := fresh "E" in destruct t eqn:E.

Ltac go_case H :=
  repeat (match type of H with
          | context [if ?c then _ else _] => go_destruct c
          | context [match ?x with _ => _ end] => go_destruct x
          end; try discriminate H).

Ltac go_bool :=
  repeat match goal with
  | H : _ && _ = true |- _ => apply andb_true_iff in H; destruct H
  | H : _ || _ = false |- _ => apply orb_false_iff in H; destruct H
  | H : negb _ = true |- _ => apply negb_true_iff in H
  | H : negb _ = false |- _ => apply negb_false_iff in H
  | H : bool_decide _ = true |- _ => apply bool_decide_eq_true in H
  | H : bool_decide _ = false |- _ => apply bool_decide_eq_false in H
  end.

(** Unfolds [len] and normalises list lengths, for [lia]. *)
Ltac len_simpl :=
  unfold len in *;
  rewrite ?length_app, ?length_take, ?length_drop, ?length_fmap, ?length_replicate,
    ?length_cons in *.
Ltac len_lia := len_simpl; simpl in *; lia.

(** Passes the guard at the head of the goal: [tac] proves that its condition
    is false. *)
Tactic Notation "pass" "by" tactic3(tac) :=
  match goal with
  | |- context [if ?c then Err ?e else ?k] =>
      replace c with false by (symmetry; tac); cbv beta iota zeta
  end.

(** ** Machine-integer lemmas *)

Lemma wrap_u64_small z : 0 <= z <= max_uint64 -> wrap_u64 z = z.
Proof. unfold wrap_u64, max_uint64. intros. apply Z.mod_small. lia. Qed.

Lemma wrap_u64_range z : 0 <= wrap_u64 z <= max_uint64.
Proof. unfold wrap_u64, max_uint64. pose proof (Z.mod_pos_bound z (2 ^ 64)). lia. Qed.

Lemma wrap_i64_range z : - 2 ^ 63 <= wrap_i64 z < 2 ^ 63.
Proof.
  unfold wrap_i64. pose proof (Z.mod_pos_bound z (2 ^ 64)).
  destruct (Z.ltb_spec (z mod 2 ^ 64) (2 ^ 63)); lia.
Qed.

(** A signed 64-bit value survives the conversion to [uint64] and back. *)
Lemma wrap_i64_wrap_u64 z : wrap_i64 (wrap_u64 z) = wrap_i64 z.
Proof. unfold wrap_i64, wrap_u64. rewrite Z.mod_mod by lia. done. Qed.

Lemma wrap_i64_small z : - 2 ^ 63 <= z < 2 ^ 63 -> wrap_i64 z = z.
Proof.
  intros Hz. unfold wrap_i64. destruct (decide (0 <= z)) as [Hp|Hn].
  - rewrite Z.mod_small by lia. destruct (Z.ltb_spec z (2 ^ 63)); lia.
  - replace (z mod 2 ^ 64) with (z + 2 ^ 64)
      by (symmetry; rewrite <- (Z_mod_plus_full z 1); apply Z.mod_small; lia).
    destruct (Z.ltb_spec (z + 2 ^ 64) (2 ^ 63)); lia.
Qed.

Lemma wrap_i64_fixpoint z : wrap_i64 z = z <-> - 2 ^ 63 <= z < 2 ^ 63.
Proof.
  split; [|apply wrap_i64_small].
  intros <-. apply wrap_i64_range.
Qed.

#[export] Hint Resolve wrap_u64_range wrap_i64_range : gapdb.
#[export] Hint Rewrite wrap_i64_wrap_u64 : gapdb.

(** ** List lemmas *)

Section lists.
Context {A : Type}.
Implicit Types l k : list A.

Lemma len_nonneg l : 0 <= len l.
Proof. unfold len. lia. Qed.

Lemma len_app l k : len (l ++ k) = len l + len k.
Proof. unfold len. rewrite length_app. lia. Qed.

Lemma len_cons x l : len (x :: l) = 1 + len l.
Proof. unfold len. simpl. lia. Qed.

Lemma len_nil_iff l : len l = 0 <-> l = [].
Proof. destruct l; unfold len; simpl; split; intros; try done; lia. Qed.
End lists.

Lemma len_fmap {A B} (f : A -> B) (l : list A) : len (f <$> l) = len l.
Proof. unfold len. by rewrite length_fmap. Qed.

#[export] Hint Resolve len_nonneg : gapdb.
#[export] Hint Rewrite @len_app @len_cons @len_fmap : gapdb.

(** ** Maps of keys already seen *)

(** Recording [k] as seen leaves the keys unseen that differ from it. *)
Lemma Forall_unseen_insert `{Countable K} {V} (seen : gmap K V) k v keys :
  Forall (fun k' => <[k:=v]> seen !! k' = None) keys <->
  Forall (fun k' => seen !! k' = None) keys /\ k ∉ keys.
Proof.
  induction keys as [|k' keys IH].
  - split; [split; [constructor|apply not_elem_of_nil]|constructor].
  - rewrite !Forall_cons, IH, lookup_insert_None, not_elem_of_cons. intuition.
Qed.

(** ** Filters that keep or drop everything *)

Lemma filter_all {A} (P : A -> Prop) `{!forall x, Decision (P x)} l : Forall P l -> filter P l = l.
Proof. induction 1 as [|x l Hx _ IH]; [done|]. by rewrite filter_cons_True, IH. Qed.

Lemma filter_none {A} (P : A -> Prop) `{!forall x, Decision (P x)} l :
  Forall (fun x => ~ P x) l -> filter P l = [].
Proof. induction 1 as [|x l Hx _ IH]; [done|]. by rewrite filter_cons_False. Qed.
