(* ===== verification/Bytes.v ===== *)
(** * Go byte strings

    Go's [string] and [[]byte] as lists of bytes: the big-endian encodings of
    [encoding/binary], slicing, the lexicographic order of Go strings,
    [strings.HasPrefix] and [unicode/utf8.ValidString]. *)

From stdpp Require Import base gmap list fin_maps sorting strings.
From Stdlib Require Import ZArith Lia.
From Stdlib Require Strings.Byte.
From S2P Require Import Prelude.

Local Open Scope Z_scope.

Abbreviation byte := Init.Byte.byte.
Abbreviation bytes := (list byte).

(** An ASCII literal of the source as the bytes Go stores. *)
Definition lit (s : string) : bytes := String.list_byte_of_string s.

Global Instance byte_eq_dec : EqDecision byte := Byte.byte_eq_dec.

Definition b2z (b : byte) : Z := Z.of_N (Byte.to_N b).
Definition z2b (z : Z) : byte :=
  match Byte.of_N (Z.to_N (z mod 256)) with Some b => b | None => Init.Byte.x00 end.

(** ** Big-endian integers ([binary.BigEndian.PutUint16/32/64] and back) *)

Fixpoint be_encode (n : nat) (z : Z) : bytes :=
  match n with
  | O => []
  | S n' => z2b (z / 256 ^ Z.of_nat n') :: be_encode n' z
  end.

Fixpoint be_decode (l : bytes) : Z :=
  match l with
  | [] => 0
  | b :: l' => b2z b * 256 ^ len l' + be_decode l'
  end.

(** [s[a:b]]; the code only slices within bounds it has checked. *)
Definition slice (l : bytes) (a b : Z) : bytes :=
  take (Z.to_nat (b - a)) (drop (Z.to_nat a) l).

(** [s[i]]. *)
Definition byte_at (l : bytes) (i : Z) : Z :=
  match l !! Z.to_nat i with Some b => b2z b | None => 0 end.

(** [n] zero bytes, as [make] leaves them. *)
Definition zeros (n : nat) : bytes := replicate n (z2b 0).

(** ** Order, prefixes, suffixes *)

Fixpoint bytes_ltb (a b : bytes) : bool :=
  match a, b with
  | _, [] => false
  | [], _ :: _ => true
  | x :: a', y :: b' => (b2z x <? b2z y) || ((b2z x =? b2z y) && bytes_ltb a' b')
  end.
Definition bytes_leb (a b : bytes) : bool := negb (bytes_ltb b a).

Definition bytes_lt (a b : bytes) : Prop := bytes_ltb a b = true.
Definition bytes_le (a b : bytes) : Prop := bytes_leb a b = true.

Fixpoint has_prefix (s p : bytes) : bool :=
  match p, s with
  | [], _ => true
  | _ :: _, [] => false
  | y :: p', x :: s' => bool_decide (x = y) && has_prefix s' p'
  end.

Definition has_suffix (s p : bytes) : bool := has_prefix (rev s) (rev p).

(** ** [utf8.ValidString]

    The acceptance ranges of the Go decoder: two-byte sequences start at
    [0xC2], surrogates and code points above [0x10FFFF] are rejected. *)

Definition in_range (lo hi : Z) (b : byte) : bool := (lo <=? b2z b) && (b2z b <=? hi).
Definition is_cont (b : byte) : bool := in_range 128 191 b.

Fixpoint utf8_valid (s : bytes) : bool :=
  match s with
  | [] => true
  | b0 :: r0 =>
      if b2z b0 <? 128 then utf8_valid r0
      else match r0 with
      | [] => false
      | b1 :: r1 =>
          if in_range 194 223 b0 then is_cont b1 && utf8_valid r1
          else match r1 with
          | [] => false
          | b2 :: r2 =>
              if in_range 224 239 b0 then
                in_range (if b2z b0 =? 224 then 160 else 128)
                         (if b2z b0 =? 237 then 159 else 191) b1
                && is_cont b2 && utf8_valid r2
              else match r2 with
              | [] => false
              | b3 :: r3 =>
                  in_range 240 244 b0
                  && in_range (if b2z b0 =? 240 then 144 else 128)
                              (if b2z b0 =? 244 then 143 else 191) b1
                  && is_cont b2 && is_cont b3 && utf8_valid r3
              end
          end
      end
  end.

(** The decimal digits of a number, twenty at most. *)
Fixpoint decimal_go (fuel : nat) (z : Z) (acc : bytes) : bytes :=
  match fuel with
  | O => acc
  | S fuel => if z <? 10 then z2b (48 + z) :: acc else decimal_go fuel (z / 10) (z2b (48 + z mod 10) :: acc)
  end.
(** [strconv.FormatUint(z, 10)]. *)
Definition FormatUint (z : Z) : bytes := decimal_go 20 z [].

Definition all_zero (l : bytes) : bool := forallb (fun b => b2z b =? 0) l.

(** ** Bytes and integers *)

Lemma b2z_range b : 0 <= b2z b < 256.
Proof.
  unfold b2z. pose proof (Byte.to_N_bounded b) as H. lia.
Qed.

Lemma z2b_b2z b : z2b (b2z b) = b.
Proof.
  unfold z2b. pose proof (b2z_range b). rewrite Z.mod_small by lia.
  unfold b2z. rewrite N2Z.id, Byte.of_to_N. done.
Qed.

Lemma b2z_z2b z : b2z (z2b z) = z mod 256.
Proof.
  unfold z2b, b2z. pose proof (Z.mod_pos_bound z 256 ltac:(lia)) as Hm.
  destruct (Byte.of_N (Z.to_N (z mod 256))) as [b|] eqn:E.
  - apply Byte.to_of_N in E. rewrite E. lia.
  - apply Byte.of_N_None_iff in E. lia.
Qed.

Global Instance b2z_inj : Inj (=) (=) b2z.
Proof. intros x y H. by rewrite <- (z2b_b2z x), H, z2b_b2z. Qed.

Global Instance byte_countable : Countable byte :=
  inj_countable Byte.to_N Byte.of_N Byte.of_to_N.

Lemma pow256_pos n : 0 < 256 ^ Z.of_nat n.
Proof. apply Z.pow_pos_nonneg; lia. Qed.

Lemma length_be_encode n z : length (be_encode n z) = n.
Proof. induction n; simpl; auto. Qed.

Lemma len_be_encode n z : len (be_encode n z) = Z.of_nat n.
Proof. unfold len. by rewrite length_be_encode. Qed.

Lemma be_decode_range l : 0 <= be_decode l < 256 ^ len l.
Proof.
  induction l as [|b l IH]; [unfold len; simpl; lia|].
  cbn [be_decode]. rewrite len_cons. pose proof (b2z_range b). pose proof (len_nonneg l).
  rewrite Z.pow_add_r by lia. nia.
Qed.

Lemma be_decode_app l k : be_decode (l ++ k) = be_decode l * 256 ^ len k + be_decode k.
Proof.
  induction l as [|b l IH]; [simpl; lia|].
  cbn [be_decode app]. rewrite IH, len_app.
  rewrite Z.pow_add_r by apply len_nonneg. lia.
Qed.

Lemma be_decode_encode n z : be_decode (be_encode n z) = z mod 256 ^ Z.of_nat n.
Proof.
  induction n as [|n IH]; [simpl; rewrite Z.mod_1_r; done|].
  cbn [be_encode be_decode]. rewrite len_be_encode, IH, b2z_z2b.
  replace (Z.of_nat (S n)) with (Z.of_nat n + 1) by lia.
  pose proof (pow256_pos n). rewrite Z.pow_add_r by lia.
  rewrite (Z.rem_mul_r z) by lia. rewrite Z.pow_1_r. lia.
Qed.

Lemma be_encode_decode l n : length l = n -> be_encode n (be_decode l) = l.
Proof.
  intros <-. induction l as [|b l IH]; [done|].
  cbn [length be_encode be_decode].
  assert (Hmod : forall m k, be_encode m (k * 256 ^ Z.of_nat m + be_decode l) = be_encode m (be_decode l)).
  { induction m as [|m IHm]; intros k; [done|]. cbn [be_encode].
    replace (Z.of_nat (S m)) with (Z.of_nat m + 1) by lia. rewrite Z.pow_add_r by lia.
    pose proof (pow256_pos m). f_equal.
    - unfold z2b.
      replace (k * (256 ^ Z.of_nat m * 256 ^ 1) + be_decode l)
        with (be_decode l + (k * 256) * 256 ^ Z.of_nat m) by lia.
      rewrite Z.div_add by lia. by rewrite Z_mod_plus_full.
    - rewrite <- (IHm (k * 256)). f_equal. lia. }
  f_equal.
  - pose proof (be_decode_range l) as Hl. pose proof (pow256_pos (length l)). unfold len in *.
    rewrite Z.div_add_l by lia. rewrite Z.div_small by lia.
    rewrite Z.add_0_r. apply z2b_b2z.
  - unfold len. rewrite Hmod. exact IH.
Qed.

Lemma be_decode_encode_small n z :
  0 <= z < 256 ^ Z.of_nat n -> be_decode (be_encode n z) = z.
Proof. intros. rewrite be_decode_encode. by apply Z.mod_small. Qed.

Lemma be8_roundtrip z : 0 <= z <= max_uint64 -> be_decode (be_encode 8 z) = z.
Proof. unfold max_uint64. intros. apply be_decode_encode_small. simpl. lia. Qed.

Lemma be4_roundtrip z : 0 <= z <= max_uint32 -> be_decode (be_encode 4 z) = z.
Proof. unfold max_uint32. intros. apply be_decode_encode_small. simpl. lia. Qed.

(** ** Slices *)

Lemma slice_app_l l k a b : 0 <= a -> b <= len l -> slice (l ++ k) a b = slice l a b.
Proof.
  intros Ha Hb. unfold slice, len in *.
  destruct (decide (b <= a)).
  { replace (Z.to_nat (b - a)) with O by lia. by rewrite !take_0. }
  rewrite drop_app_le by lia. rewrite take_app_le; [done|]. rewrite length_drop. lia.
Qed.

Lemma slice_app_r l k a b : len l <= a -> slice (l ++ k) a b = slice k (a - len l) (b - len l).
Proof.
  intros Ha. unfold slice, len in *. rewrite drop_app_ge by lia.
  f_equal; [lia|]. f_equal. lia.
Qed.

Lemma slice_full l : slice l 0 (len l) = l.
Proof. unfold slice, len. rewrite drop_0, take_ge by lia. done. Qed.

Lemma slice_full' l n : n = len l -> slice l 0 n = l.
Proof. intros ->. apply slice_full. Qed.

Lemma len_slice l a b : 0 <= a <= b -> b <= len l -> len (slice l a b) = b - a.
Proof. intros. unfold slice, len in *. rewrite length_take, length_drop. lia. Qed.

Lemma slice_split l a b c :
  0 <= a <= b -> b <= c -> slice l a c = slice l a b ++ slice l b c.
Proof.
  intros Hab Hbc. unfold slice.
  replace (Z.to_nat (c - a)) with (Z.to_nat (b - a) + Z.to_nat (c - b))%nat by lia.
  replace (Z.to_nat b) with (Z.to_nat a + Z.to_nat (b - a))%nat by lia.
  rewrite <- drop_drop. by rewrite take_take_drop.
Qed.

Lemma slice_0_app l a : 0 <= a <= len l -> slice l 0 a ++ slice l a (len l) = l.
Proof. intros H. rewrite <- slice_split by (unfold len in *; lia). apply slice_full. Qed.

Lemma slice_empty l a b : b <= a -> slice l a b = [].
Proof. intros. unfold slice. replace (Z.to_nat (b - a)) with O by lia. done. Qed.

(** A slice of a slice. *)
Lemma slice_slice l n a b :
  0 <= a <= b -> 0 <= n <= len l -> b <= len l - n ->
  slice (slice l n (len l)) a b = slice l (a + n) (b + n).
Proof.
  intros Ha Hn Hb. unfold slice, len in *.
  rewrite skipn_firstn_comm, drop_drop, take_take. f_equal; [lia|]. f_equal. lia.
Qed.

(** A slice within a prefix. *)
Lemma slice_prefix_of l n a b :
  0 <= a -> b <= n -> 0 <= n <= len l -> slice (slice l 0 n) a b = slice l a b.
Proof.
  intros Ha Hb Hn. pose proof (len_slice l 0 n ltac:(lia) ltac:(lia)) as Hl.
  rewrite <- (slice_0_app l n) at 2 by lia. rewrite slice_app_l by lia. done.
Qed.

Lemma byte_at_slice l i : 0 <= i < len l -> be_decode (slice l i (i + 1)) = byte_at l i.
Proof.
  intros H. unfold slice, byte_at, len in *.
  destruct (lookup_lt_is_Some_2 l (Z.to_nat i)) as [b Hb]; [lia|].
  rewrite Hb, (drop_S _ _ _ Hb). replace (Z.to_nat (i + 1 - i)) with 1%nat by lia.
  simpl. unfold len. simpl. lia.
Qed.

Lemma byte_at_range l i : 0 <= byte_at l i < 256.
Proof. unfold byte_at. destruct (l !! _) as [b|]; [apply b2z_range|lia]. Qed.

Lemma all_zero_replicate n : all_zero (replicate n (z2b 0)) = true.
Proof. unfold all_zero. induction n; [done|]. simpl. by rewrite IHn. Qed.

Lemma all_zero_eq l : all_zero l = true -> l = replicate (length l) (z2b 0).
Proof.
  induction l as [|b l IH]; [done|]. unfold all_zero in *. simpl. intros H. go_bool.
  rewrite <- IH by done. f_equal. apply (inj b2z). rewrite b2z_z2b.
  apply Z.eqb_eq in H. rewrite H. done.
Qed.

Lemma len_zeros n : len (zeros n) = Z.of_nat n.
Proof. unfold len, zeros. by rewrite length_replicate. Qed.

Lemma be_decode_zeros n : be_decode (zeros n) = 0.
Proof. induction n as [|n IH]; [done|]. simpl. unfold zeros in IH. rewrite IH. done. Qed.

Global Arguments be_encode : simpl never.
Global Arguments be_decode : simpl never.
Global Arguments slice : simpl never.
Global Arguments lit : simpl never.
Global Arguments zeros : simpl never.

(** Re-encoding what was decoded from a slice gives the slice back. *)
Lemma be_encode_slice n l a b :
  0 <= a -> a + Z.of_nat n = b -> b <= len l -> be_encode n (be_decode (slice l a b)) = slice l a b.
Proof.
  intros Ha Hb Hl. apply be_encode_decode.
  pose proof (len_slice l a b) as Hs. unfold len in *. lia.
Qed.

Lemma zeros_slice n l a b :
  0 <= a -> a + Z.of_nat n = b -> b <= len l -> all_zero (slice l a b) = true ->
  zeros n = slice l a b.
Proof.
  intros Ha Hb Hl Hz. rewrite (all_zero_eq _ Hz). unfold zeros. f_equal.
  pose proof (len_slice l a b) as Hs. unfold len in *. lia.
Qed.

Lemma all_zero_decode l : be_decode l = 0 -> all_zero l = true.
Proof.
  unfold all_zero. induction l as [|b l IH]; [done|]. unfold be_decode; fold be_decode. intros H.
  pose proof (be_decode_range l) as Hr. pose proof (b2z_range b). pose proof (pow256_pos (length l)) as Hp.
  unfold len in *. simpl. rewrite IH by nia. rewrite (proj2 (Z.eqb_eq _ _)); [done|]. nia.
Qed.

(** Reading a field of a concatenation: skip the fields before it, then take
    it.  [slice_fields] does this for every slice of the goal, given the length
    of each field. *)
Lemma slice_skip k x y a b : len x = k -> k <= a -> slice (x ++ y) a b = slice y (a - k) (b - k).
Proof. intros <-. apply slice_app_r. Qed.

Lemma slice_here k x y a b : len x = k -> a = 0 -> b = k -> slice (x ++ y) a b = x.
Proof. intros <- -> ->. rewrite slice_app_l by lia. apply slice_full. Qed.

Lemma slice_all k x a b : len x = k -> a = 0 -> b = k -> slice x a b = x.
Proof. intros <- -> ->. apply slice_full. Qed.

(** A slice that ends at the end of a field leaves out what follows. *)
Lemma slice_prefix k x y b : len x = k -> b = k -> slice (x ++ y) 0 b = x.
Proof. intros. by apply (slice_here k). Qed.

Lemma byte_at_decode l i : 0 <= i < len l -> byte_at l i = be_decode (slice l i (i + 1)).
Proof. intros. symmetry. by apply byte_at_slice. Qed.

Ltac byte_len x :=
  lazymatch x with
  | be_encode ?n _ => let k := eval cbv in (Z.of_nat n) in constr:(k)
  | zeros ?n => let k := eval cbv in (Z.of_nat n) in constr:(k)
  | lit ?s => let k := eval vm_compute in (len (lit s)) in constr:(k)
  | _ =>
      match goal with
      | H : len x = ?k |- _ => constr:(k)
      | H : length x = ?n |- _ => let k := eval cbn in (Z.of_nat n) in constr:(k)
      | _ => constr:(len x)
      end
  end.

Ltac solve_len :=
  solve [reflexivity | assumption | rewrite len_be_encode; reflexivity
        | rewrite len_zeros; reflexivity | unfold len; lia].

Ltac slice_step :=
  match goal with
  | |- context [slice (?x ++ ?y) ?a ?b] =>
      let k := byte_len x in
      first [ rewrite (slice_here k x y a b) by (first [lia | solve_len])
            | rewrite (slice_skip k x y a b) by (first [lia | solve_len]) ]
  | |- context [slice ?x ?a ?b] =>
      let k := byte_len x in rewrite (slice_all k x a b) by (first [lia | solve_len])
  end.

Ltac slice_fields := repeat slice_step.

(** ** The order of Go strings *)

Lemma bytes_ltb_irrefl a : bytes_ltb a a = false.
Proof. induction a as [|x a IH]; [done|]. simpl. rewrite IH. lia. Qed.

Lemma bytes_ltb_trans a b c : bytes_ltb a b = true -> bytes_ltb b c = true -> bytes_ltb a c = true.
Proof.
  revert b c. induction a as [|x a IH]; intros [|y b] [|z c]; simpl; try done.
  intros H1 H2. apply orb_true_iff in H1, H2. apply orb_true_iff.
  destruct H1 as [H1|[H1 H1']%andb_true_iff], H2 as [H2|[H2 H2']%andb_true_iff];
    try (left; lia).
  right. apply andb_true_iff; split; [lia|]; eauto.
Qed.

Lemma bytes_ltb_total a b : bytes_ltb a b = false -> bytes_ltb b a = false -> a = b.
Proof.
  revert b. induction a as [|x a IH]; intros [|y b]; simpl; try done.
  intros H1 H2. apply orb_false_iff in H1 as [H1 H1'], H2 as [H2 H2'].
  assert (b2z x = b2z y) as Heq by lia.
  rewrite Heq, Z.eqb_refl in *. simpl in *. f_equal; [by apply (inj b2z)|eauto].
Qed.

Lemma bytes_ltb_asym a b : bytes_ltb a b = true -> bytes_ltb b a = false.
Proof.
  intros H. destruct (bytes_ltb b a) eqn:E; [|done].
  pose proof (bytes_ltb_trans _ _ _ H E) as Hc. by rewrite bytes_ltb_irrefl in Hc.
Qed.

Global Instance bytes_lt_dec : RelDecision bytes_lt.
Proof. intros a b. unfold bytes_lt. apply _. Defined.
Global Instance bytes_le_dec : RelDecision bytes_le.
Proof. intros a b. unfold bytes_le. apply _. Defined.
Lemma bytes_leb_false a b : bytes_leb a b = false <-> bytes_lt b a.
Proof. unfold bytes_leb, bytes_lt. by rewrite negb_false_iff. Qed.

Global Instance bytes_lt_trans : Transitive bytes_lt.
Proof. intros a b c. apply bytes_ltb_trans. Qed.
Global Instance bytes_lt_irrefl : Irreflexive bytes_lt.
Proof. intros a H. unfold bytes_lt in H. by rewrite bytes_ltb_irrefl in H. Qed.

Lemma bytes_le_lt a b : bytes_le a b <-> bytes_lt a b \/ a = b.
Proof.
  unfold bytes_le, bytes_leb, bytes_lt. rewrite negb_true_iff. split.
  - intros H. destruct (bytes_ltb a b) eqn:E; [by left|right]. by apply bytes_ltb_total.
  - intros [H| ->]; [by apply bytes_ltb_asym|apply bytes_ltb_irrefl].
Qed.

Global Instance bytes_le_total : Total bytes_le.
Proof.
  intros a b. rewrite !bytes_le_lt. unfold bytes_lt.
  destruct (bytes_ltb a b) eqn:E1; [auto|]. destruct (bytes_ltb b a) eqn:E2; [auto|].
  left; right. by apply bytes_ltb_total.
Qed.
Global Instance bytes_le_trans : Transitive bytes_le.
Proof.
  intros a b c. rewrite !bytes_le_lt. intros [H1| ->] [H2| ->]; auto.
  left. by trans b.
Qed.
Global Instance bytes_le_antisymm : AntiSymm (=) bytes_le.
Proof.
  intros a b. rewrite !bytes_le_lt. intros [H1|?] [H2|?]; auto.
  unfold bytes_lt in *. apply bytes_ltb_asym in H1. congruence.
Qed.

Lemma bytes_not_lt a b : ~ bytes_lt a b <-> bytes_le b a.
Proof. unfold bytes_lt, bytes_le, bytes_leb. rewrite negb_true_iff. destruct (bytes_ltb a b); naive_solver. Qed.

Lemma bytes_lt_le a b : bytes_lt a b -> bytes_le a b.
Proof. rewrite bytes_le_lt. auto. Qed.

Lemma bytes_lt_le_trans a b c : bytes_lt a b -> bytes_le b c -> bytes_lt a c.
Proof. rewrite bytes_le_lt. intros H [H'| ->]; [by trans b|done]. Qed.

Lemma bytes_le_lt_trans a b c : bytes_le a b -> bytes_lt b c -> bytes_lt a c.
Proof. rewrite bytes_le_lt. intros [H'| ->] H; [by trans b|done]. Qed.

Lemma bytes_le_nil a : bytes_le [] a.
Proof. apply bytes_le_lt. destruct a; [by right|by left]. Qed.

#[export] Hint Resolve bytes_lt_le bytes_le_nil : gapdb.

(** ** Prefixes and the order: the keys with one prefix are contiguous *)

Lemma has_prefix_app p s : has_prefix (p ++ s) p = true.
Proof. induction p as [|x p IH]; [by destruct s|]. simpl. rewrite IH. by rewrite bool_decide_true. Qed.

Lemma has_prefix_spec s p : has_prefix s p = true <-> exists r, s = p ++ r.
Proof.
  split; [|intros [r ->]; apply has_prefix_app].
  revert s. induction p as [|y p IH]; intros [|x s]; simpl; try done; eauto.
  intros H. go_bool. subst. destruct (IH _ H0) as [r ->]. eauto.
Qed.

Lemma has_suffix_spec s p : has_suffix s p = true <-> exists r, s = r ++ p.
Proof.
  unfold has_suffix. rewrite has_prefix_spec. split; intros [r Hr].
  - exists (rev r). apply (f_equal (@rev byte)) in Hr. by rewrite rev_app_distr, !rev_involutive in Hr.
  - exists (rev r). by rewrite Hr, rev_app_distr.
Qed.

Lemma has_prefix_le s p : has_prefix s p = true -> bytes_le p s.
Proof.
  revert s. induction p as [|y p IH]; intros s H; [apply bytes_le_nil|].
  destruct s as [|x s]; [done|]. simpl in H. go_bool. subst.
  specialize (IH _ H0). unfold bytes_le, bytes_leb in *. simpl.
  rewrite negb_true_iff in *. rewrite IH. lia.
Qed.

(** A scan may stop at the first key at or after [p] that lacks the prefix. *)
Lemma has_prefix_break p k k' :
  bytes_le p k -> has_prefix k p = false -> bytes_le k k' -> has_prefix k' p = false.
Proof.
  revert k k'. induction p as [|y p IH]; intros k k' Hpk Hk Hkk'; [by destruct k|].
  destruct k as [|x k].
  { unfold bytes_le, bytes_leb in Hpk. simpl in Hpk. done. }
  destruct k' as [|x' k']; [done|].
  unfold bytes_le, bytes_leb in *. simpl in *.
  rewrite negb_true_iff in Hpk, Hkk'. apply orb_false_iff in Hpk as [Hp1 Hp2], Hkk' as [Hk1 Hk2].
  destruct (bool_decide (x' = y)) eqn:Hxy; [|done]. go_bool. subst x'. simpl.
  destruct (b2z x =? b2z y) eqn:Exy.
  - apply Z.eqb_eq, (inj b2z) in Exy as ->. rewrite bool_decide_true in Hk by done.
    rewrite Z.eqb_refl in *. simpl in *.
    apply (IH k); [|done|]; by rewrite negb_true_iff.
  - lia.
Qed.
