(* ===== verification/Errors.v ===== *)
(** * The structured error surface

    [gapdb.Error] of gapdb/types.go with its stable codes, retry classes and
    safe actions, the catalog [ErrorDefinitions], Go's [error] values with
    [errors.As], and the injected-fault events of internal/faultfs/inject.go.

    The optional fields of [gapdb.Error] are omitted from the wire when they
    are absent; they are modelled as a list of evidence items, one constructor
    [EvX] per struct field [X].  The two fields that hold a formatted instant
    ([SuppliedExpiry], [EffectiveTime]) hold the instant itself. *)

From stdpp Require Import base gmap list strings.
From Stdlib Require Import ZArith Lia.
From S2P Require Import Prelude.
From S2P Require Import Bytes.

Local Open Scope Z_scope.

Abbreviation Revision := Z (only parsing).

Inductive ErrorCode :=
| CodeInvalidRequest | CodeUnsupportedVersion | CodeFrameTooLarge | CodeKeyTooLarge
| CodeValueTooLarge | CodeBatchTooLarge | CodeDuplicateKey | CodeExpiryNotFuture
| CodeInvalidCursor | CodeNotFound | CodeAlreadyExists | CodeRevisionMismatch
| CodeConditionFailed | CodeScanStale | CodeRevisionAhead | CodeRevisionCompacted
| CodeWatchLagged | CodeOwnerExists | CodeServerBusy | CodeServerShuttingDown
| CodeDeadlineExceeded | CodeServerUnavailable | CodePermissionDenied | CodeStorageDegraded
| CodeCorruptIdentity | CodeCorruptManifest | CodeCorruptSnapshot | CodeCorruptWAL
| CodeUnknownFormat | CodeDatabaseIDMismatch | CodeRevisionRangeExhausted | CodeIOError
| CodeAdminPreconditionFailed | CodeSnapshotInProgress | CodeCompactionNotSafe
| CodeBackupDestinationExists | CodeBackupInvalid | CodeRecoveryRequired
| CodeRecoveryActionMismatch | CodeAuditFailedAfterApply | CodeInternal.

Inductive RetryClass :=
| RetryNever | RetryImmediate | RetryAfterReconcile | RetryAfterRescan | RetryAfterRestart
| RetryAfterOperator.

Inductive SafeAction :=
| ActionAbort | ActionFixRequest | ActionUseSupportedVersion | ActionUpgradeClient
| ActionReduceRequest | ActionReduceKey | ActionReduceValue | ActionSplitBatch
| ActionDeduplicateBatch | ActionChooseFutureExpiry | ActionRestartScan | ActionGet
| ActionPutIfAbsent | ActionCompareAndSwap | ActionRetryWithNewCondition
| ActionRebuildBatch | ActionScanPrefix | ActionRestartWatch | ActionStatus | ActionWait
| ActionRetryWithBackoff | ActionWaitForRestart | ActionReconcile | ActionStatusOffline
| ActionStartServer | ActionFixPermissions | ActionVerify | ActionRestartAfterRecovery
| ActionInspectOffline | ActionRestoreBackup | ActionRecoverPropose | ActionUpgradeGapdb
| ActionUseCompatibleBinary | ActionSelectCorrectDatabase | ActionVerifyStorage
| ActionCheckStorage | ActionRebuildRequest | ActionCreateSnapshot
| ActionChooseNewDestination | ActionVerifyBackup | ActionChooseOtherBackup
| ActionRepairAuditStorage.

Inductive ConditionKind :=
| ConditionAny | ConditionAbsent | ConditionRevision | ConditionUnknown (text : string).

Inductive LifecycleState :=
| LifecycleReady | LifecycleDegradedReadOnly | LifecycleDraining | LifecycleInspectionOnly.

(** ** Injected faults (internal/faultfs/inject.go) *)

Inductive Phase := Before | After.

Record Event := MkEvent { EventPoint : string; EventPhase : Phase }.

(** ** Evidence and errors *)

Inductive Evidence :=
| EvField (s : string) | EvPath (s : string) | EvReason (s : string) | EvKey (k : bytes)
| EvOperation (s : string) | EvOSErrorCategory (s : string)
| EvExpectedRevision (r : Revision) | EvActualRevision (r : Revision) | EvCurrentRevision (r : Revision)
| EvRequestedRevision (r : Revision) | EvCursorRevision (r : Revision) | EvEarliestRevision (r : Revision)
| EvLastDeliveredRevision (r : Revision) | EvDurableThroughRevision (r : Revision)
| EvReservedRevisionEnd (r : Revision)
| EvMutationIndex (i : Z) | EvMutationIndexes (l : list Z) | EvAssertionIndex (i : Z)
| EvReceivedVersion (v : Z) | EvSupportedVersions (l : list Z) | EvOffset (o : Z)
| EvActiveClients (n : Z) | EvMaximumClients (n : Z) | EvQueueDepth (n : Z)
| EvReceivedBytes (n : Z) | EvMaximumBytes (n : Z)
| EvReceivedOperations (n : Z) | EvMaximumOperations (n : Z)
| EvExpectedDatabaseID (id : bytes) | EvActualDatabaseID (id : bytes)
| EvCondition (k : ConditionKind) | EvActualState (s : string)
| EvLifecycle (l : LifecycleState) | EvFailedStage (s : string) | EvFile (s : string)
| EvCorrelationID (s : string) | EvSuppliedExpiry (t : Z) | EvEffectiveTime (t : Z)
| EvDetectedCorruption (s : string) | EvProposalAvailable (b : bool)
| EvDeadline (s : string) | EvThroughRevision (r : Revision) | EvActiveSnapshotRevision (r : Revision)
| EvExpectedManifestGeneration (g : Z) | EvActualManifestGeneration (g : Z)
| EvSocketPath (s : string) | EvConnectionReason (s : string) | EvOperationID (s : string) | EvStartedAt (s : string)
| EvDestination (s : string) | EvBackupPath (s : string) | EvProposalID (s : string).

Record ErrorOf (C : Type) := MkError {
  Code : ErrorCode;
  Message : string;
  Retry : RetryClass;
  Evidences : list Evidence;
  OperationApplied : bool;
  SafeActions : list SafeAction;
  Cause : option C
}.
Arguments MkError {C}.
Arguments Code {C}.
Arguments Message {C}.
Arguments Retry {C}.
Arguments Evidences {C}.
Arguments OperationApplied {C}.
Arguments SafeActions {C}.
Arguments Cause {C}.

(** The sentinel errors of the standard library and of the operating system
    that the code tests for with [errors.Is]. *)
Inductive SysError :=
| SysPermission | SysNotExist | SysExist | SysNoSpace | SysReadOnly | SysWouldBlock
| SysEOF | SysUnexpectedEOF | SysShortWrite | SysClosed
| SysCanceled | SysDeadlineExceeded.

(** Go's [error] values: a [*gapdb.Error], a [*faultfs.HookError], a
    [fmt.Errorf("...: %w", err)], a sentinel and an opaque error known by its
    text. *)
Inductive goerror :=
| ErrSys (e : SysError)
| ErrGap (e : ErrorOf goerror)
| ErrHook (ev : Event) (err : goerror)
| ErrWrap (text : string) (err : goerror)
| ErrText (text : string).

Abbreviation Error := (ErrorOf goerror).
Abbreviation error := (option goerror).

(** A literal [&gapdb.Error{...}] with no cause and [OperationApplied] false. *)
Definition newError (code : ErrorCode) (msg : string) (retry : RetryClass)
    (ev : list Evidence) (actions : list SafeAction) : Error :=
  MkError code msg retry ev false actions None.

Definition withCause (c : error) (e : Error) : Error :=
  MkError (Code e) (Message e) (Retry e) (Evidences e) (OperationApplied e) (SafeActions e) c.
Definition withApplied (b : bool) (e : Error) : Error :=
  MkError (Code e) (Message e) (Retry e) (Evidences e) b (SafeActions e) (Cause e).
Definition withEvidence (ev : list Evidence) (e : Error) : Error :=
  MkError (Code e) (Message e) (Retry e) ev (OperationApplied e) (SafeActions e) (Cause e).

(** The text field [FailedStage] of an error, [""] when absent. *)
Fixpoint failedStage (ev : list Evidence) : string :=
  match ev with
  | [] => ""
  | EvFailedStage s :: _ => s
  | _ :: r => failedStage r
  end.

(** ** [errors.As] for the two target types the code uses *)

Fixpoint asError (err : goerror) : option Error :=
  match err with
  | ErrGap e => Some e
  | ErrHook _ inner => asError inner
  | ErrWrap _ inner => asError inner
  | ErrSys _ | ErrText _ => None
  end.

Fixpoint asHook (err : goerror) : option Event :=
  match err with
  | ErrHook ev _ => Some ev
  | ErrGap e => match Cause e with Some c => asHook c | None => None end
  | ErrWrap _ inner => asHook inner
  | ErrSys _ | ErrText _ => None
  end.

Global Instance SysError_eq_dec : EqDecision SysError.
Proof. solve_decision. Defined.

(** [errors.Is(err, target)] for a sentinel target. *)
Fixpoint errors_Is (err : goerror) (target : SysError) : bool :=
  match err with
  | ErrSys e => bool_decide (e = target)
  | ErrHook _ inner => errors_Is inner target
  | ErrGap e => match Cause e with Some c => errors_Is c target | None => false end
  | ErrWrap _ inner => errors_Is inner target
  | ErrText _ => false
  end.

Definition FailedAfter (err : goerror) : bool :=
  match asHook err with
  | Some ev => match EventPhase ev with After => true | Before => false end
  | None => false
  end.

(** Whether an error tells the client that the operation may be applied. *)
Definition claims_applied (e : goerror) : bool :=
  match asError e with Some e => OperationApplied e | None => false end.

(** ** The catalog *)

Definition ErrorDefinitions : list (ErrorCode * RetryClass * list SafeAction) :=
  [(CodeInvalidRequest, RetryNever, [ActionFixRequest; ActionAbort]);
   (CodeUnsupportedVersion, RetryNever, [ActionUseSupportedVersion; ActionUpgradeClient; ActionAbort]);
   (CodeFrameTooLarge, RetryNever, [ActionReduceRequest; ActionAbort]);
   (CodeKeyTooLarge, RetryNever, [ActionReduceKey; ActionAbort]);
   (CodeValueTooLarge, RetryNever, [ActionReduceValue; ActionAbort]);
   (CodeBatchTooLarge, RetryNever, [ActionSplitBatch; ActionAbort]);
   (CodeDuplicateKey, RetryNever, [ActionDeduplicateBatch; ActionAbort]);
   (CodeExpiryNotFuture, RetryAfterReconcile, [ActionChooseFutureExpiry; ActionAbort]);
   (CodeInvalidCursor, RetryNever, [ActionRestartScan; ActionAbort]);
   (CodeNotFound, RetryAfterReconcile, [ActionGet; ActionPutIfAbsent; ActionAbort]);
   (CodeAlreadyExists, RetryAfterReconcile, [ActionGet; ActionCompareAndSwap; ActionAbort]);
   (CodeRevisionMismatch, RetryAfterReconcile, [ActionGet; ActionRetryWithNewCondition; ActionAbort]);
   (CodeConditionFailed, RetryAfterReconcile, [ActionGet; ActionRebuildBatch; ActionAbort]);
   (CodeScanStale, RetryAfterRescan, [ActionRestartScan; ActionAbort]);
   (CodeRevisionAhead, RetryAfterRescan, [ActionScanPrefix; ActionRestartWatch; ActionAbort]);
   (CodeRevisionCompacted, RetryAfterRescan, [ActionScanPrefix; ActionRestartWatch; ActionAbort]);
   (CodeWatchLagged, RetryAfterRescan, [ActionScanPrefix; ActionRestartWatch; ActionAbort]);
   (CodeOwnerExists, RetryAfterOperator, [ActionStatus; ActionWait; ActionAbort]);
   (CodeServerBusy, RetryImmediate, [ActionRetryWithBackoff; ActionAbort]);
   (CodeServerShuttingDown, RetryAfterRestart, [ActionWaitForRestart; ActionAbort]);
   (CodeDeadlineExceeded, RetryAfterReconcile, [ActionStatus; ActionReconcile; ActionAbort]);
   (CodeServerUnavailable, RetryAfterRestart, [ActionStatusOffline; ActionStartServer; ActionAbort]);
   (CodePermissionDenied, RetryAfterOperator, [ActionFixPermissions; ActionAbort]);
   (CodeStorageDegraded, RetryAfterRestart, [ActionStatus; ActionVerify; ActionRestartAfterRecovery; ActionAbort]);
   (CodeCorruptIdentity, RetryAfterOperator, [ActionInspectOffline; ActionRestoreBackup; ActionAbort]);
   (CodeCorruptManifest, RetryAfterOperator, [ActionInspectOffline; ActionRecoverPropose; ActionRestoreBackup; ActionAbort]);
   (CodeCorruptSnapshot, RetryAfterOperator, [ActionInspectOffline; ActionRecoverPropose; ActionRestoreBackup; ActionAbort]);
   (CodeCorruptWAL, RetryAfterOperator, [ActionInspectOffline; ActionRecoverPropose; ActionRestoreBackup; ActionAbort]);
   (CodeUnknownFormat, RetryNever, [ActionUpgradeGapdb; ActionUseCompatibleBinary; ActionAbort]);
   (CodeDatabaseIDMismatch, RetryNever, [ActionSelectCorrectDatabase; ActionAbort]);
   (CodeRevisionRangeExhausted, RetryAfterRestart, [ActionVerifyStorage; ActionRestartAfterRecovery; ActionAbort]);
   (CodeIOError, RetryAfterOperator, [ActionCheckStorage; ActionVerify; ActionAbort]);
   (CodeAdminPreconditionFailed, RetryAfterReconcile, [ActionStatus; ActionRebuildRequest; ActionAbort]);
   (CodeSnapshotInProgress, RetryImmediate, [ActionStatus; ActionWait; ActionAbort]);
   (CodeCompactionNotSafe, RetryAfterReconcile, [ActionStatus; ActionCreateSnapshot; ActionAbort]);
   (CodeBackupDestinationExists, RetryNever, [ActionChooseNewDestination; ActionAbort]);
   (CodeBackupInvalid, RetryAfterOperator, [ActionVerifyBackup; ActionChooseOtherBackup; ActionAbort]);
   (CodeRecoveryRequired, RetryAfterOperator, [ActionRecoverPropose; ActionRestoreBackup; ActionAbort]);
   (CodeRecoveryActionMismatch, RetryAfterReconcile, [ActionRecoverPropose; ActionAbort]);
   (CodeAuditFailedAfterApply, RetryAfterReconcile, [ActionStatus; ActionVerify; ActionRepairAuditStorage; ActionAbort]);
   (CodeInternal, RetryAfterOperator, [ActionStatus; ActionVerify; ActionAbort])].

Global Instance ErrorCode_eq_dec : EqDecision ErrorCode.
Proof. solve_decision. Defined.
Global Instance RetryClass_eq_dec : EqDecision RetryClass.
Proof. solve_decision. Defined.
Global Instance SafeAction_eq_dec : EqDecision SafeAction.
Proof. solve_decision. Defined.
Global Instance ConditionKind_eq_dec : EqDecision ConditionKind.
Proof. solve_decision. Defined.
Global Instance LifecycleState_eq_dec : EqDecision LifecycleState.
Proof. solve_decision. Defined.
Global Instance Phase_eq_dec : EqDecision Phase.
Proof. solve_decision. Defined.

(** The definition the catalog gives for a code. *)
Definition errorDefinition (c : ErrorCode) : option (RetryClass * list SafeAction) :=
  match filter (fun d => d.1.1 = c) ErrorDefinitions with
  | [(_, r, a)] => Some (r, a)
  | _ => None
  end.

(** An error whose retry class and safe actions are the catalog's. *)
Definition conforms (e : Error) : Prop :=
  errorDefinition (Code e) = Some (Retry e, SafeActions e).

Definition conforms_err (err : goerror) : Prop :=
  match err with ErrGap e => conforms e | _ => True end.

(** Every code has exactly one definition, and every definition ends in [abort]. *)
Lemma errorDefinition_total c :
  exists r a, errorDefinition c = Some (r, a ++ [ActionAbort]).
Proof.
  destruct c; vm_compute;
    match goal with
    | |- exists r a, Some (?r', ?l) = _ =>
        exists r', (take (length l - 1) l); vm_compute; reflexivity
    end.
Qed.

Lemma conforms_withCause c e : conforms (withCause c e) <-> conforms e.
Proof. done. Qed.
Lemma conforms_withApplied b e : conforms (withApplied b e) <-> conforms e.
Proof. done. Qed.
Lemma conforms_withEvidence ev e : conforms (withEvidence ev e) <-> conforms e.
Proof. done. Qed.

(** ** Properties *)

(** The catalog is total and unambiguous: every error code has exactly one
    definition in [ErrorDefinitions], and its safe actions end in [abort]. *)
Theorem error_catalog_total c :
  exists r a, filter (fun d => d.1.1 = c) ErrorDefinitions = [(c, r, a ++ [ActionAbort])].
Proof.
  destruct c; vm_compute;
    match goal with
    | |- exists r a, [(_, ?r', ?l)] = _ =>
        exists r', (take (length l - 1) l); vm_compute; reflexivity
    end.
Qed.
