(* ===== verification/Checksum.v ===== *)
(** * CRC32C

    [hash/crc32] with the Castagnoli polynomial, as the storage formats and the
    scan cursor use it: the reflected bit-by-bit algorithm on a 32-bit register. *)

From stdpp Require Import base list strings.
From Stdlib Require Import ZArith Lia.
From S2P Require Import Prelude.
From S2P Require Import Bytes.

Local Open Scope Z_scope.

(** The reversed Castagnoli polynomial. *)
Definition castagnoli : Z := 2197175160.

Definition crc_bit (crc : Z) : Z :=
  if Z.odd crc then Z.lxor (Z.shiftr crc 1) castagnoli else Z.shiftr crc 1.

Definition crc_byte (crc : Z) (b : byte) : Z :=
  Nat.iter 8 crc_bit (Z.lxor crc (b2z b)).

(** [crc32.Checksum(data, castagnoli)]. *)
Definition crc32c (data : bytes) : Z :=
  Z.lxor (fold_left crc_byte data max_uint32) max_uint32.

(** The check value of the CRC-32C standard. *)
Lemma crc32c_check : crc32c (lit "123456789") = 3808858755.
Proof. vm_compute. reflexivity. Qed.

Lemma lxor_range n a b : 0 <= n -> 0 <= a < 2 ^ n -> 0 <= b < 2 ^ n -> 0 <= Z.lxor a b < 2 ^ n.
Proof.
  intros Hn Ha Hb. assert (0 <= Z.lxor a b) by (apply Z.lxor_nonneg; lia). split; [done|].
  destruct (decide (Z.lxor a b = 0)) as [->|Hne]; [lia|].
  apply Z.log2_lt_pow2; [lia|].
  destruct (decide (a = 0)) as [->|]; [rewrite Z.lxor_0_l in *; apply Z.log2_lt_pow2; lia|].
  destruct (decide (b = 0)) as [->|]; [rewrite Z.lxor_0_r in *; apply Z.log2_lt_pow2; lia|].
  eapply Z.le_lt_trans; [apply Z.log2_lxor; lia|].
  apply Z.max_lub_lt; apply Z.log2_lt_pow2; lia.
Qed.

Lemma crc_bit_range c : 0 <= c < 2 ^ 32 -> 0 <= crc_bit c < 2 ^ 32.
Proof.
  intros Hc. assert (0 <= Z.shiftr c 1 < 2 ^ 32).
  { rewrite Z.shiftr_div_pow2 by lia. change (2 ^ 1) with 2.
    pose proof (Z.div_pos c 2). pose proof (Z.div_le_upper_bound c 2 c). lia. }
  unfold crc_bit. destruct (Z.odd c); [|done].
  apply lxor_range; [lia|done|]. unfold castagnoli. lia.
Qed.

Lemma crc_byte_range c b : 0 <= c < 2 ^ 32 -> 0 <= crc_byte c b < 2 ^ 32.
Proof.
  intros Hc. unfold crc_byte. pose proof (b2z_range b).
  generalize 8%nat. intros n. induction n as [|n IH]; simpl.
  - apply lxor_range; lia.
  - by apply crc_bit_range.
Qed.

Lemma crc32c_range data : 0 <= crc32c data < 2 ^ 32.
Proof.
  unfold crc32c. apply lxor_range; [lia| |unfold max_uint32; lia].
  assert (0 <= max_uint32 < 2 ^ 32) as Hi by (unfold max_uint32; lia).
  revert Hi. generalize max_uint32. induction data as [|b data IH]; intros c Hc; [done|].
  simpl. apply IH. by apply crc_byte_range.
Qed.

#[export] Hint Resolve crc32c_range : gapdb.
#[global] Opaque crc32c.
