(* ===== verification/ApiTypes.v ===== *)
(** * The public value model

    gapdb/types.go and gapdb/options.go: records, conditions, mutations,
    assertions, batches, change events, scan pages and resource limits, with
    their validation.

    A [time.Time] is the instant in nanoseconds since the Unix epoch; the code
    normalises every instant to UTC, so no zone is kept.  A Go slice whose
    [nil]-ness is observed ([Mutation.Value]) is an [option bytes]; other byte
    slices are [bytes].  Records and mutations are values: the deep copies of
    the [Clone] methods, which keep a caller from aliasing them, are identities. *)

From stdpp Require Import base gmap list strings pretty.
From Stdlib Require Import ZArith Lia.
From S2P Require Import Prelude.
From S2P Require Import Bytes.
From S2P Require Import Errors.

Local Open Scope Z_scope.
Local Open Scope go_scope.

Abbreviation Time := Z (only parsing).

Definition time_After (a b : Time) : bool := b <? a.
Definition time_Before (a b : Time) : bool := a <? b.
(** [t.UnixNano()] and [time.Unix(0, n)]: the 64-bit nanosecond count. *)
Definition UnixNano (t : Time) : Z := wrap_i64 t.
Definition time_Unix0 (n : Z) : Time := n.

(** ** Limits (options.go) *)

Record Limits := MkLimits {
  MaxKeyBytes : Z;
  MaxValueBytes : Z;
  MaxFrameBytes : Z;
  MaxBatchBytes : Z;
  MaxBatchOperations : Z;
  MaxScanRecords : Z;
  MaxScanBytes : Z;
  WatchBufferEvents : Z;
  MaxWatchClients : Z;
  MaxConcurrentClients : Z;
  MaxHistoryEvents : Z;
  MaxHistoryBytes : Z
}.

Definition MinimumMaxFrameBytes : Z := Z.shiftl 2 10.

Definition DefaultOptions : Limits := {|
  MaxKeyBytes := Z.shiftl 4 10;
  MaxValueBytes := Z.shiftl 8 20;
  MaxFrameBytes := Z.shiftl 16 20;
  MaxBatchBytes := Z.shiftl 16 20;
  MaxBatchOperations := 1024;
  MaxScanRecords := 1000;
  MaxScanBytes := Z.shiftl 16 20;
  WatchBufferEvents := 256;
  MaxWatchClients := 256;
  MaxConcurrentClients := 256;
  MaxHistoryEvents := 100000;
  MaxHistoryBytes := Z.shiftl 64 20
|}.

(** The hard ceilings, in the order of the fields of [Limits]. *)
Definition HardLimits : Limits := {|
  MaxKeyBytes := Z.shiftl 64 10;
  MaxValueBytes := Z.shiftl 64 20;
  MaxFrameBytes := Z.shiftl 64 20;
  MaxBatchBytes := Z.shiftl 64 20;
  MaxBatchOperations := 65536;
  MaxScanRecords := 10000;
  MaxScanBytes := Z.shiftl 64 20;
  WatchBufferEvents := 8192;
  MaxWatchClients := 4096;
  MaxConcurrentClients := 4096;
  MaxHistoryEvents := 1000000;
  MaxHistoryBytes := Z.shiftl 1 30
|}.

Definition invalidField (field reason : string) : goerror :=
  ErrGap (newError CodeInvalidRequest "Request validation failed." RetryNever
    [EvField field; EvReason reason] [ActionFixRequest; ActionAbort]).

(** The [checks] table of [Options.Validate]. *)
Definition limitChecks (l : Limits) : list (string * Z * Z) :=
  [("limits.max_key_bytes", MaxKeyBytes l, MaxKeyBytes HardLimits);
   ("limits.max_value_bytes", MaxValueBytes l, MaxValueBytes HardLimits);
   ("limits.max_frame_bytes", MaxFrameBytes l, MaxFrameBytes HardLimits);
   ("limits.max_batch_bytes", MaxBatchBytes l, MaxBatchBytes HardLimits);
   ("limits.max_batch_operations", MaxBatchOperations l, MaxBatchOperations HardLimits);
   ("limits.max_scan_records", MaxScanRecords l, MaxScanRecords HardLimits);
   ("limits.max_scan_bytes", MaxScanBytes l, MaxScanBytes HardLimits);
   ("limits.watch_buffer_events", WatchBufferEvents l, WatchBufferEvents HardLimits);
   ("limits.max_watch_clients", MaxWatchClients l, MaxWatchClients HardLimits);
   ("limits.max_concurrent_clients", MaxConcurrentClients l, MaxConcurrentClients HardLimits);
   ("limits.max_history_events", MaxHistoryEvents l, MaxHistoryEvents HardLimits);
   ("limits.max_history_bytes", MaxHistoryBytes l, MaxHistoryBytes HardLimits)]%string.

Fixpoint runLimitChecks (checks : list (string * Z * Z)) : error :=
  match checks with
  | [] => None
  | (name, value, ceiling) :: rest =>
      if (value <=? 0) || (ceiling <? value)
      then Some (invalidField name ("must be between 1 and " +:+ pretty ceiling))
      else runLimitChecks rest
  end.

Definition Options_Validate (l : Limits) : error :=
  try runLimitChecks (limitChecks l) ;;
  if MaxFrameBytes l <? MinimumMaxFrameBytes then
    Some (invalidField "limits.max_frame_bytes"
      ("must be at least " +:+ pretty MinimumMaxFrameBytes
        +:+ " bytes so correlated protocol errors always fit"))
  else if MaxFrameBytes l <? MaxBatchBytes l then
    Some (invalidField "limits.max_batch_bytes" "must not exceed max_frame_bytes")
  else if MaxFrameBytes l <? MaxScanBytes l then
    Some (invalidField "limits.max_scan_bytes" "must not exceed max_frame_bytes")
  else if MaxHistoryEvents l <? WatchBufferEvents l then
    Some (invalidField "limits.max_history_events" "must be at least watch_buffer_events")
  else if MaxConcurrentClients l <? MaxWatchClients l then
    Some (invalidField "limits.max_watch_clients" "must not exceed max_concurrent_clients")
  else None.

(** ** Records, conditions, mutations (types.go) *)

Inductive AckMode := AckMemory | AckDurable | AckUnknown (text : string).

Definition AckMode_Valid (a : AckMode) : bool :=
  match a with AckMemory | AckDurable => true | AckUnknown _ => false end.

Inductive MutationKind := MutationPut | MutationDelete | MutationUnknown (text : string).
Inductive ChangeKind := ChangePut | ChangeDelete | ChangeExpire | ChangeUnknown (text : string).

Record DBRecord := MkRecord {
  RecKey : bytes;
  RecValue : bytes;
  RecRevision : Revision;
  RecExpiresAt : option Time
}.

(** [append([]byte{}, value...)]: never [nil]. *)
Definition cloneOpaqueBytes (value : option bytes) : bytes :=
  match value with Some v => v | None => [] end.

Definition NewRecord (key : bytes) (value : option bytes) (revision : Revision)
    (expiresAt : option Time) : DBRecord :=
  MkRecord key (cloneOpaqueBytes value) revision expiresAt.

Record Condition := MkCondition { CondKind : ConditionKind; CondExpected : Revision }.

Definition Condition_Validate (c : Condition) : error :=
  match CondKind c with
  | ConditionAny | ConditionAbsent =>
      if CondExpected c =? 0 then None
      else Some (invalidField "condition.expected_revision" "is valid only for revision conditions")
  | ConditionRevision =>
      if CondExpected c =? 0
      then Some (invalidField "condition.expected_revision" "must be greater than zero") else None
  | ConditionUnknown _ =>
      Some (invalidField "condition.kind" "must be any, absent, or revision")
  end.

Record Mutation := MkMutation {
  MutKind : MutationKind;
  MutKey : bytes;
  MutCondition : Condition;
  MutValue : option bytes;
  MutExpiresAt : option Time
}.

Record Assertion := MkAssertion { AssKey : bytes; AssCondition : Condition }.

Definition keyTooLarge (field : string) (msg : string) (received maximum : Z) : goerror :=
  ErrGap (newError CodeKeyTooLarge msg RetryNever
    [EvField field; EvReceivedBytes received; EvMaximumBytes maximum]
    [ActionReduceKey; ActionAbort]).

Definition valueTooLarge (received maximum : Z) : goerror :=
  ErrGap (newError CodeValueTooLarge "Value exceeds the configured limit." RetryNever
    [EvField "value_base64"; EvReceivedBytes received; EvMaximumBytes maximum]
    [ActionReduceValue; ActionAbort]).

Definition validateKey (key : bytes) (limits : Limits) : error :=
  if bool_decide (key = []) then Some (invalidField "key" "must not be empty")
  else if negb (utf8_valid key) then Some (invalidField "key" "must be valid UTF-8")
  else if MaxKeyBytes limits <? len key then
    Some (keyTooLarge "key" "Key exceeds the configured limit." (len key) (MaxKeyBytes limits))
  else None.

Definition Assertion_Validate (limits : Limits) (a : Assertion) : error :=
  try validateKey (AssKey a) limits ;;
  match CondKind (AssCondition a) with
  | ConditionAbsent =>
      if CondExpected (AssCondition a) =? 0 then None
      else Some (invalidField "condition.expected_revision" "is valid only for revision assertions")
  | ConditionRevision =>
      if CondExpected (AssCondition a) =? 0
      then Some (invalidField "condition.expected_revision" "must be greater than zero") else None
  | _ => Some (invalidField "condition.kind" "assertions require absent or revision")
  end.

Definition NewPutMutation (key : bytes) (value : option bytes) (condition : Condition)
    (expiresAt : option Time) : Mutation :=
  MkMutation MutationPut key condition (Some (cloneOpaqueBytes value)) expiresAt.

Definition NewDeleteMutation (key : bytes) (expectedRevision : Revision) : Mutation :=
  MkMutation MutationDelete key (MkCondition ConditionRevision expectedRevision) None None.

(** [len(m.Value)]; the length of a [nil] slice is 0. *)
Definition value_len (v : option bytes) : Z := len (cloneOpaqueBytes v).

(** [Mutation.Clone]: a put's value becomes non-[nil], a delete's stays as it is. *)
Definition Mutation_Clone (m : Mutation) : Mutation :=
  match MutKind m with
  | MutationPut =>
      MkMutation (MutKind m) (MutKey m) (MutCondition m)
        (Some (cloneOpaqueBytes (MutValue m))) (MutExpiresAt m)
  | _ => m
  end.

Definition Mutation_Validate (limits : Limits) (m : Mutation) : error :=
  try validateKey (MutKey m) limits ;;
  try Condition_Validate (MutCondition m) ;;
  match MutKind m with
  | MutationPut =>
      if MaxValueBytes limits <? value_len (MutValue m)
      then Some (valueTooLarge (value_len (MutValue m)) (MaxValueBytes limits)) else None
  | MutationDelete =>
      if negb (bool_decide (CondKind (MutCondition m) = ConditionRevision))
      then Some (invalidField "condition.kind" "delete requires a revision condition")
      else match MutValue m, MutExpiresAt m with
           | None, None => None
           | _, _ => Some (invalidField "mutation" "delete cannot carry a value or expiry")
           end
  | MutationUnknown _ => Some (invalidField "mutation.kind" "must be put or delete")
  end.

Definition expiryNotFuture (supplied effective : Time) : goerror :=
  ErrGap (newError CodeExpiryNotFuture "Expiry must be later than the effective current time."
    RetryAfterReconcile [EvSuppliedExpiry supplied; EvEffectiveTime effective]
    [ActionChooseFutureExpiry; ActionAbort]).

Definition Mutation_ValidateAt (limits : Limits) (effectiveNow : Time) (m : Mutation) : error :=
  try Mutation_Validate limits m ;;
  match MutExpiresAt m with
  | Some e => if time_After e effectiveNow then None else Some (expiryNotFuture e effectiveNow)
  | None => None
  end.

(** ** Batches *)

Record Batch := MkBatch {
  BatchAck : AckMode;
  BatchAssertions : list Assertion;
  BatchMutations : list Mutation
}.

Definition batchBaseBytes : Z := 32.
Definition batchOperationBytes : Z := 20.
Definition maxDiagnosticKeyBytes : nat := 256.

(** [for end > 0 && !utf8.ValidString(key[:end]) { end-- }]. *)
Fixpoint trimToValid (key : bytes) (end_ : nat) : nat :=
  match end_ with
  | O => O
  | S e => if utf8_valid (take end_ key) then end_ else trimToValid key e
  end.

Definition diagnosticKey (key : bytes) : bytes :=
  if bool_decide (length key <= maxDiagnosticKeyBytes)%nat then key
  else take (trimToValid key maxDiagnosticKeyBytes) key.

Definition Batch_Clone (b : Batch) : Batch :=
  MkBatch (BatchAck b) (BatchAssertions b) (Mutation_Clone <$> BatchMutations b).

Definition duplicateKey (key : bytes) (ev : list Evidence) : goerror :=
  ErrGap (newError CodeDuplicateKey "A key occurs more than once in the batch." RetryNever
    (EvKey (diagnosticKey key) :: ev) [ActionDeduplicateBatch; ActionAbort]).

Definition batchBytesError (received maximum : Z) : goerror :=
  ErrGap (newError CodeBatchTooLarge "Batch exceeds the configured byte limit." RetryNever
    [EvReceivedBytes received; EvMaximumBytes maximum] [ActionSplitBatch; ActionAbort]).

Definition batchOperationsError (received maximum : Z) : goerror :=
  ErrGap (newError CodeBatchTooLarge "Batch exceeds the configured operation limit." RetryNever
    [EvReceivedOperations received; EvMaximumOperations maximum] [ActionSplitBatch; ActionAbort]).

(** [batchKey]: whether the first use of the key is an assertion, and its index. *)
Abbreviation seenKeys := (gmap bytes (bool * Z)).

(** The byte budget shared by the two loops of [Batch.Validate]. *)
Definition chargeBytes (limits : Limits) (approximateBytes addition : Z) : result goerror Z :=
  if (MaxBatchBytes limits <? approximateBytes)
     || (MaxBatchBytes limits - approximateBytes <? addition)
  then Err (batchBytesError (approximateBytes + addition) (MaxBatchBytes limits))
  else Ok (approximateBytes + addition).

Fixpoint validateAssertions (limits : Limits) (l : list Assertion) (i : Z) (seen : seenKeys)
    (approximateBytes : Z) : result goerror (seenKeys * Z) :=
  match l with
  | [] => Ok (seen, approximateBytes)
  | a :: rest =>
      match (seen !! AssKey a : option (bool * Z)) with
      | Some (assertion, index) =>
          Err (duplicateKey (AssKey a)
            (EvAssertionIndex i :: if assertion then [] else [EvMutationIndex index]))
      | None =>
          check Assertion_Validate limits a ;;
          match chargeBytes limits approximateBytes (batchOperationBytes + len (AssKey a)) with
          | Err e => Err e
          | Ok approximateBytes' =>
              validateAssertions limits rest (i + 1) (<[AssKey a := (true, i)]> seen)
                approximateBytes'
          end
      end
  end.

Fixpoint validateMutations (limits : Limits) (l : list Mutation) (i : Z) (seen : seenKeys)
    (approximateBytes : Z) : error :=
  match l with
  | [] => None
  | m :: rest =>
      match (seen !! MutKey m : option (bool * Z)) with
      | Some (assertion, index) =>
          Some (duplicateKey (MutKey m)
            (EvMutationIndex i
              :: if assertion then [EvAssertionIndex index] else [EvMutationIndexes [index; i]]))
      | None =>
          try Mutation_Validate limits m ;;
          match chargeBytes limits approximateBytes
                  (batchOperationBytes + len (MutKey m) + value_len (MutValue m)) with
          | Err e => Some e
          | Ok approximateBytes' =>
              validateMutations limits rest (i + 1) (<[MutKey m := (false, i)]> seen)
                approximateBytes'
          end
      end
  end.

Definition Batch_Validate (limits : Limits) (b : Batch) : error :=
  if negb (AckMode_Valid (BatchAck b)) then Some (invalidField "ack" "must be memory or durable")
  else if len (BatchMutations b) =? 0 then
    Some (invalidField "mutations" "must contain at least one mutation")
  else
    let operationCount := wrap_i64 (len (BatchAssertions b) + len (BatchMutations b)) in
    if (operationCount <? len (BatchAssertions b)) || (MaxBatchOperations limits <? operationCount)
    then Some (batchOperationsError operationCount (MaxBatchOperations limits))
    else
      match validateAssertions limits (BatchAssertions b) 0 ∅ batchBaseBytes with
      | Err e => Some e
      | Ok (seen, approximateBytes) =>
          validateMutations limits (BatchMutations b) 0 seen approximateBytes
      end.

Fixpoint validateMutationsAt (limits : Limits) (now : Time) (l : list Mutation) : error :=
  match l with
  | [] => None
  | m :: rest => try Mutation_ValidateAt limits now m ;; validateMutationsAt limits now rest
  end.

Definition Batch_ValidateAt (limits : Limits) (now : Time) (b : Batch) : error :=
  try Batch_Validate limits b ;; validateMutationsAt limits now (BatchMutations b).

(** ** Results, pages and events *)

Record MutationResult := MkMutationResult {
  ResRevision : Revision;
  ResAck : AckMode;
  ResDurableThrough : Revision;
  ResMutationCount : Z;
  ResAssertionCount : Z
}.

Record ScanPage := MkScanPage {
  PageObserved : Revision;
  PageAsOf : Time;
  PageRecords : list DBRecord;
  PageCursor : bytes;
  PageTruncated : bool
}.

Record ChangeEvent := MkChangeEvent {
  EvtRevision : Revision;
  EvtOrder : Z;
  EvtKind : ChangeKind;
  EvtKey : bytes;
  EvtRecord : option DBRecord
}.

Inductive WatchEndReason := WatchEndedByClient | WatchEndedByShutdown | WatchEndedByError.

Record WatchTermination := MkWatchTermination {
  TermReason : WatchEndReason;
  TermLastDelivered : Revision;
  TermError : option Error
}.

Record ReadManyEntry := MkReadManyEntry {
  EntryKey : bytes;
  EntryFound : bool;
  EntryRecord : option DBRecord
}.

Record ReadManyResult := MkReadManyResult {
  ManyObserved : Revision;
  ManyAsOf : Time;
  ManyEntries : list ReadManyEntry
}.

(** ** Well-formed batches

    The declarative reading of [Batch.Validate]. *)

Definition key_wf (limits : Limits) (k : bytes) : Prop :=
  k <> [] /\ utf8_valid k = true /\ len k <= MaxKeyBytes limits.

Definition assertion_wf (limits : Limits) (a : Assertion) : Prop :=
  key_wf limits (AssKey a) /\
  match CondKind (AssCondition a) with
  | ConditionAbsent => CondExpected (AssCondition a) = 0
  | ConditionRevision => CondExpected (AssCondition a) <> 0
  | _ => False
  end.

Definition condition_wf (c : Condition) : Prop :=
  match CondKind c with
  | ConditionAny | ConditionAbsent => CondExpected c = 0
  | ConditionRevision => CondExpected c <> 0
  | ConditionUnknown _ => False
  end.

Definition mutation_wf (limits : Limits) (m : Mutation) : Prop :=
  key_wf limits (MutKey m) /\ condition_wf (MutCondition m) /\
  match MutKind m with
  | MutationPut => value_len (MutValue m) <= MaxValueBytes limits
  | MutationDelete =>
      CondKind (MutCondition m) = ConditionRevision /\ MutValue m = None /\ MutExpiresAt m = None
  | MutationUnknown _ => False
  end.

Definition assertions_bytes (l : list Assertion) : Z :=
  foldr (fun a n => batchOperationBytes + len (AssKey a) + n) 0 l.
Definition mutations_bytes (l : list Mutation) : Z :=
  foldr (fun m n => batchOperationBytes + len (MutKey m) + value_len (MutValue m) + n) 0 l.

Definition batch_keys (b : Batch) : list bytes :=
  (AssKey <$> BatchAssertions b) ++ (MutKey <$> BatchMutations b).

Record batch_wf (limits : Limits) (b : Batch) : Prop := {
  bwf_ack : AckMode_Valid (BatchAck b) = true;
  bwf_nonempty : BatchMutations b <> [];
  bwf_count : len (BatchAssertions b) + len (BatchMutations b) <= MaxBatchOperations limits;
  bwf_keys : NoDup (batch_keys b);
  bwf_assertions : Forall (assertion_wf limits) (BatchAssertions b);
  bwf_mutations : Forall (mutation_wf limits) (BatchMutations b);
  bwf_bytes : batchBaseBytes + assertions_bytes (BatchAssertions b)
                + mutations_bytes (BatchMutations b) <= MaxBatchBytes limits
}.

(** The limits [Options.Validate] accepts. *)
Record limits_ok (l : Limits) : Prop := {
  lo_range : Forall (fun '(_, value, ceiling) => 1 <= value <= ceiling) (limitChecks l);
  lo_frame_min : MinimumMaxFrameBytes <= MaxFrameBytes l;
  lo_batch_frame : MaxBatchBytes l <= MaxFrameBytes l;
  lo_scan_frame : MaxScanBytes l <= MaxFrameBytes l;
  lo_watch_history : WatchBufferEvents l <= MaxHistoryEvents l;
  lo_watch_clients : MaxWatchClients l <= MaxConcurrentClients l
}.

(** ** Validation lemmas *)

Lemma runLimitChecks_None checks :
  runLimitChecks checks = None <-> Forall (fun '(_, value, ceiling) => 1 <= value <= ceiling) checks.
Proof.
  induction checks as [|[[name value] ceiling] checks IH]; simpl; [split; auto|].
  rewrite Forall_cons, <- IH.
  destruct (Z.leb_spec value 0), (Z.ltb_spec ceiling value); simpl;
    split; intros H'; try done; try (split; [lia|done]); destruct H'; (done || lia).
Qed.

Lemma Options_Validate_iff l : Options_Validate l = None <-> limits_ok l.
Proof.
  unfold Options_Validate. split.
  - destruct (runLimitChecks _) eqn:Hr; [done|]. apply runLimitChecks_None in Hr.
    repeat (match goal with |- context [?a <? ?b] => destruct (Z.ltb_spec a b) end; [done|]).
    by split.
  - intros [Hr ?????]. rewrite (proj2 (runLimitChecks_None _) Hr).
    repeat (match goal with |- context [?a <? ?b] => destruct (Z.ltb_spec a b) end; [lia|]).
    done.
Qed.

(** The ranges of the single fields. *)
Lemma limits_ok_fields l : limits_ok l ->
  (1 <= MaxKeyBytes l <= 65536 /\ 1 <= MaxValueBytes l <= 67108864 /\
   2048 <= MaxFrameBytes l <= 67108864 /\ 1 <= MaxBatchBytes l <= 67108864 /\
   1 <= MaxBatchOperations l <= 65536) /\
  (1 <= MaxScanRecords l <= 10000 /\ 1 <= MaxScanBytes l <= 67108864 /\
   1 <= WatchBufferEvents l <= 8192 /\ 1 <= MaxWatchClients l <= 4096 /\
   1 <= MaxConcurrentClients l <= 4096 /\
   1 <= MaxHistoryEvents l <= 1000000 /\ 1 <= MaxHistoryBytes l <= 1073741824).
Proof.
  intros [Hr Hmin _ _ _ _]. unfold limitChecks in Hr. rewrite !Forall_cons in Hr.
  unfold MinimumMaxFrameBytes in Hmin. simpl in *. intuition.
Qed.

Lemma expiryRepresentable_iff t : UnixNano t = t <-> - 2 ^ 63 <= t < 2 ^ 63.
Proof. apply wrap_i64_fixpoint. Qed.

Lemma validateKey_None limits k : validateKey k limits = None <-> key_wf limits k.
Proof.
  unfold validateKey, key_wf. case_bool_decide; [naive_solver|].
  destruct (utf8_valid k); simpl; [|naive_solver].
  destruct (Z.ltb_spec (MaxKeyBytes limits) (len k)); naive_solver lia.
Qed.

Lemma Assertion_Validate_None limits a : Assertion_Validate limits a = None <-> assertion_wf limits a.
Proof.
  unfold Assertion_Validate, assertion_wf. rewrite <- validateKey_None.
  destruct (validateKey _ _); [naive_solver|].
  destruct (CondKind _); try naive_solver;
    destruct (Z.eqb_spec (CondExpected (AssCondition a)) 0); naive_solver.
Qed.

Lemma Condition_Validate_None c : Condition_Validate c = None <-> condition_wf c.
Proof.
  unfold Condition_Validate, condition_wf.
  destruct (CondKind c); try naive_solver; destruct (Z.eqb_spec (CondExpected c) 0); naive_solver.
Qed.

Lemma Mutation_Validate_None limits m : Mutation_Validate limits m = None <-> mutation_wf limits m.
Proof.
  unfold Mutation_Validate, mutation_wf. rewrite <- validateKey_None, <- Condition_Validate_None.
  destruct (validateKey _ _); [naive_solver|]. destruct (Condition_Validate _); [naive_solver|].
  destruct (MutKind m).
  - destruct (Z.ltb_spec (MaxValueBytes limits) (value_len (MutValue m))); naive_solver lia.
  - case_bool_decide; simpl; [|naive_solver]. destruct (MutValue m), (MutExpiresAt m); naive_solver.
  - naive_solver.
Qed.

Lemma value_len_nonneg v : 0 <= value_len v.
Proof. apply len_nonneg. Qed.

Lemma assertions_bytes_nonneg l : 0 <= assertions_bytes l.
Proof.
  induction l as [|a l IH]; simpl; [lia|].
  pose proof (len_nonneg (AssKey a)). unfold batchOperationBytes. lia.
Qed.
Lemma mutations_bytes_nonneg l : 0 <= mutations_bytes l.
Proof.
  induction l as [|m l IH]; simpl; [lia|].
  pose proof (len_nonneg (MutKey m)). pose proof (value_len_nonneg (MutValue m)).
  unfold batchOperationBytes. lia.
Qed.

Lemma chargeBytes_Ok limits a b c :
  0 <= b -> chargeBytes limits a b = Ok c <-> c = a + b /\ a + b <= MaxBatchBytes limits.
Proof.
  intros Hb. unfold chargeBytes.
  destruct (Z.ltb_spec (MaxBatchBytes limits) a); simpl; [naive_solver lia|].
  destruct (Z.ltb_spec (MaxBatchBytes limits - a) b); simpl; [naive_solver lia|].
  split; [intros [= <-]; lia|intros [-> _]; done].
Qed.

(** What the first loop establishes: the [seen] map then holds the old keys
    and the keys of the assertions. *)
Definition unseen (seen : seenKeys) (keys : list bytes) : Prop :=
  Forall (fun k => seen !! k = None) keys.

Lemma unseen_insert seen k v keys :
  unseen (<[k:=v]> seen) keys <-> unseen seen keys /\ k ∉ keys.
Proof. apply Forall_unseen_insert. Qed.

Lemma validateAssertions_Ok limits l i seen n seen' n' :
  validateAssertions limits l i seen n = Ok (seen', n') ->
  Forall (assertion_wf limits) l /\ NoDup (AssKey <$> l) /\ unseen seen (AssKey <$> l) /\
  (l = [] \/ n' <= MaxBatchBytes limits) /\ n' = n + assertions_bytes l /\
  forall k, seen' !! k = None <-> seen !! k = None /\ k ∉ AssKey <$> l.
Proof.
  revert i seen n. induction l as [|a l IH]; simpl; intros i seen n H.
  { simplify_eq. repeat split; try constructor; try done; [lia|apply not_elem_of_nil|tauto]. }
  destruct (seen !! AssKey a) as [[??]|] eqn:Hseen; [done|].
  destruct (Assertion_Validate limits a) eqn:Hv; [done|]. apply Assertion_Validate_None in Hv.
  destruct (chargeBytes _ _ _) as [c|] eqn:Hc; [|done].
  apply chargeBytes_Ok in Hc as [-> Hle];
    [|pose proof (len_nonneg (AssKey a)); unfold batchOperationBytes; lia].
  apply IH in H as (Hwf & Hnd & [Hun Hni]%unseen_insert & Hmax & Hn & Hdom).
  split; [by constructor|]. split; [by constructor|]. split; [by constructor|].
  split; [|split; [lia|]].
  - right. destruct Hmax as [->|]; [simpl in *; lia|done].
  - intros k. rewrite Hdom, lookup_insert_None, not_elem_of_cons. intuition congruence.
Qed.

Lemma validateAssertions_complete limits l i seen n :
  Forall (assertion_wf limits) l -> NoDup (AssKey <$> l) -> unseen seen (AssKey <$> l) ->
  (l = [] \/ n + assertions_bytes l <= MaxBatchBytes limits) ->
  is_ok (validateAssertions limits l i seen n).
Proof.
  revert i seen n. induction l as [|a l IH]; simpl; intros i seen n Hwf Hnd Hdisj Hmax; [done|].
  apply Forall_cons in Hwf as [Ha Hwf]. apply NoDup_cons in Hnd as [Hni Hnd].
  apply Forall_cons in Hdisj as [-> Hun]. destruct Hmax as [|Hmax]; [done|].
  rewrite (proj2 (Assertion_Validate_None _ _) Ha).
  pose proof (len_nonneg (AssKey a)). pose proof (assertions_bytes_nonneg l).
  assert (0 <= batchOperationBytes + len (AssKey a)) as Hop by (unfold batchOperationBytes; lia).
  rewrite (proj2 (chargeBytes_Ok limits n _ _ Hop)) by (split; [done|lia]).
  apply IH; [done|done| |right; lia]. by apply unseen_insert.
Qed.

Lemma validateMutations_None limits l i seen n :
  validateMutations limits l i seen n = None <->
  Forall (mutation_wf limits) l /\ NoDup (MutKey <$> l) /\ unseen seen (MutKey <$> l) /\
  (l = [] \/ n + mutations_bytes l <= MaxBatchBytes limits).
Proof.
  revert i seen n. induction l as [|m l IH]; simpl; intros i seen n.
  { split; [|done]. intros _. repeat split; try constructor. done. }
  pose proof (len_nonneg (MutKey m)) as Hk. pose proof (value_len_nonneg (MutValue m)) as Hv.
  pose proof (mutations_bytes_nonneg l) as Hl. unfold unseen.
  rewrite !Forall_cons, NoDup_cons, <- Mutation_Validate_None.
  destruct (seen !! MutKey m) as [[??]|] eqn:Hseen.
  { split; [done|]. by intros (_ & _ & (? & _) & _). }
  destruct (Mutation_Validate limits m); [split; [done|intros ((? & _) & _); done]|].
  assert (0 <= batchOperationBytes + len (MutKey m) + value_len (MutValue m)) as Hop
    by (unfold batchOperationBytes; lia).
  destruct (chargeBytes _ _ _) as [c|] eqn:Hc.
  - apply chargeBytes_Ok in Hc as [-> Hle]; [|done].
    rewrite IH, unseen_insert. split.
    + intros (Hwf & Hnd & [Hun Hni] & Hmax). repeat split; try done.
      right. destruct Hmax as [->|]; simpl in *; lia.
    + intros ((_ & Hwf) & (Hni & Hnd) & (_ & Hun) & [?|Hmax]); [done|].
      repeat split; try done. right; lia.
  - split; [done|]. intros (_ & _ & _ & [?|Hmax]); [done|].
    pose proof (proj2 (chargeBytes_Ok limits n _ _ Hop) ltac:(split; [reflexivity|lia])).
    congruence.
Qed.

Lemma validateMutationsAt_None limits now l :
  validateMutationsAt limits now l = None <-> Forall (fun m => Mutation_ValidateAt limits now m = None) l.
Proof.
  induction l as [|m l IH]; simpl; [split; auto|].
  rewrite Forall_cons, <- IH. destruct (Mutation_ValidateAt limits now m); naive_solver.
Qed.

Lemma NoDup_batch_keys b :
  NoDup (batch_keys b) <->
  NoDup (AssKey <$> BatchAssertions b) /\ NoDup (MutKey <$> BatchMutations b) /\
  (forall k, k ∈ MutKey <$> BatchMutations b -> k ∉ AssKey <$> BatchAssertions b).
Proof.
  unfold batch_keys. rewrite NoDup_app. split.
  - intros (? & Hd & ?). repeat split; try done. intros k Hm Ha. by apply (Hd k).
  - intros (? & ? & Hd). repeat split; try done. intros k Ha Hm. by apply (Hd k).
Qed.

(** The operation count does not wrap for batches whose lengths an [int] holds. *)
Definition batch_fits_int (b : Batch) : Prop :=
  len (BatchAssertions b) + len (BatchMutations b) < 2 ^ 63.

(** The two loops together, started as [Batch.Validate] starts them. *)
Lemma validate_loops_None limits b :
  BatchMutations b <> [] ->
  match validateAssertions limits (BatchAssertions b) 0 ∅ batchBaseBytes with
  | Err e => Some e
  | Ok (seen, n) => validateMutations limits (BatchMutations b) 0 seen n
  end = None <->
  NoDup (batch_keys b) /\ Forall (assertion_wf limits) (BatchAssertions b) /\
  Forall (mutation_wf limits) (BatchMutations b) /\
  batchBaseBytes + assertions_bytes (BatchAssertions b) + mutations_bytes (BatchMutations b)
    <= MaxBatchBytes limits.
Proof.
  intros Hne. pose proof (mutations_bytes_nonneg (BatchMutations b)) as Hmb.
  rewrite NoDup_batch_keys.
  destruct (validateAssertions _ _ _ _ _) as [[seen n]|e] eqn:Ha.
  - apply validateAssertions_Ok in Ha as (Hawf & Hand & _ & _ & -> & Hseen).
    rewrite validateMutations_None. unfold unseen.
    split.
    + intros (Hmwf & Hmnd & Hdisj & Hmax). repeat split; try done; [|destruct Hmax; [done|lia]].
      intros k Hk. apply Hseen. by apply (proj1 (Forall_forall _ _) Hdisj).
    + intros ((_ & Hmnd & Hdisj) & _ & Hmwf & Hb). repeat split; try done; [|by right].
      apply Forall_forall. intros k Hk. apply Hseen. split; [apply lookup_empty|]. by apply Hdisj.
  - split; [done|]. intros ((Hand & _ & _) & Hawf & _ & Hb).
    pose proof (validateAssertions_complete limits (BatchAssertions b) 0 ∅ batchBaseBytes) as Hok.
    rewrite Ha in Hok. destruct Hok; try done; [|right; lia].
    apply Forall_true. intros k. apply lookup_empty.
Qed.

Lemma Batch_Validate_None limits b :
  batch_fits_int b -> Batch_Validate limits b = None <-> batch_wf limits b.
Proof.
  intros Hfit. unfold Batch_Validate, batch_fits_int in *.
  pose proof (len_nonneg (BatchAssertions b)). pose proof (len_nonneg (BatchMutations b)).
  rewrite wrap_i64_small by lia.
  destruct (AckMode_Valid (BatchAck b)) eqn:Hack; simpl; [|split; [done|intros []; congruence]].
  destruct (Z.eqb_spec (len (BatchMutations b)) 0) as [Hz|Hz].
  { split; [done|]. intros []. apply len_nil_iff in Hz. done. }
  assert (BatchMutations b <> []) as Hne by (intros Hn; apply len_nil_iff in Hn; done).
  destruct (Z.ltb_spec (len (BatchAssertions b) + len (BatchMutations b))
              (len (BatchAssertions b))); [lia|]. simpl.
  destruct (Z.ltb_spec (MaxBatchOperations limits)
              (len (BatchAssertions b) + len (BatchMutations b))); [split; [done|intros []; lia]|].
  rewrite validate_loops_None by done. split.
  - intros (? & ? & ? & ?). by split.
  - intros []. done.
Qed.

Lemma DefaultOptions_ok : limits_ok DefaultOptions.
Proof. apply Options_Validate_iff. by vm_compute. Qed.

(** ** Properties *)

(** [Options.Validate] accepts exactly the limits that lie between one and
    the hard ceilings and are consistent with each other: a batch and a scan
    page fit a frame, a frame has its minimum size, the watch buffer fits the
    history and the watch clients the clients. *)
Theorem options_validate_exact l : Options_Validate l = None <-> limits_ok l.
Proof. apply Options_Validate_iff. Qed.

(** C37: [Batch.Validate] accepts exactly the well-formed batches: a known
    acknowledgement mode, at least one mutation, no more operations than
    allowed, no key in two operations, valid assertions and mutations, and the
    charged bytes (computed in the loop with early exits) within the limit. *)
Theorem batch_validate_exact limits b :
  batch_fits_int b -> Batch_Validate limits b = None <-> batch_wf limits b.
Proof. apply Batch_Validate_None. Qed.

Module SampleBatch.
Definition unconditional : Condition := MkCondition ConditionAny 0.
Definition batch : Batch := MkBatch AckDurable
  [MkAssertion (lit "jobs/owner") (MkCondition ConditionRevision 3)]
  [NewPutMutation (lit "jobs/1") (Some (lit "queued")) unconditional None;
   NewDeleteMutation (lit "jobs/2") 7].
End SampleBatch.

Lemma batch_validate_exact_witness :
  Batch_Validate DefaultOptions SampleBatch.batch = None <-> batch_wf DefaultOptions SampleBatch.batch.
Proof. apply batch_validate_exact. by vm_compute. Defined.
