(* ===== verification/Clock.v ===== *)
(** * Clock: the clocks of internal/clock

    [Clock] is the Go interface; [Nondecreasing] the wrapper every expiry
    decision goes through; [Manual] the settable clock.  A clock reading
    changes the clock, so [Now] returns the clock after the reading.  The real
    clock is the operating system's: it enters as an arbitrary instance of
    [Clock]. *)

From stdpp Require Import base list sorting.
From Stdlib Require Import ZArith Lia.
From S2P Require Import Prelude.
From S2P Require Import ApiTypes.

Local Open Scope Z_scope.

Class Clock (C : Type) := clock_Now : C -> Time * C.

Record Nondecreasing (C : Type) := MkNondecreasing {
  nd_source : C;
  nd_initialized : bool;
  nd_latest : Time
}.
Arguments MkNondecreasing {C}.
Arguments nd_source {C}.
Arguments nd_initialized {C}.
Arguments nd_latest {C}.

(** A fresh wrapper: [latest] is Go's zero time, which no reading returns. *)
Definition zero_time : Time := -62135596800 * 1000000000.

Definition NewNondecreasing {C} (source : C) : Nondecreasing C :=
  MkNondecreasing source false zero_time.

Definition Nondecreasing_Now `{Clock C} (c : Nondecreasing C) : Time * Nondecreasing C :=
  let (now, source) := clock_Now (nd_source c) in
  let c :=
    if negb (nd_initialized c) || time_After now (nd_latest c)
    then MkNondecreasing source true now
    else MkNondecreasing source (nd_initialized c) (nd_latest c) in
  (nd_latest c, c).

Global Instance Nondecreasing_Clock `{Clock C} : Clock (Nondecreasing C) := Nondecreasing_Now.

Definition IsExpired (expiresAt effectiveNow : Time) : bool :=
  negb (time_Before effectiveNow expiresAt).

(** The manual clock of manual.go; [Set] may move it backwards. *)
Record Manual := MkManual { manual_now : Time }.

Definition NewManual (initial : Time) : Manual := MkManual initial.

Definition Manual_Now (c : Manual) : Time * Manual := (manual_now c, c).

Definition Manual_Set (value : Time) (c : Manual) : Manual := MkManual value.

Definition Manual_Advance (delta : Z) (c : Manual) : Manual := MkManual (manual_now c + delta).

Global Instance Manual_Clock : Clock Manual := Manual_Now.

(** A clock that plays back a list of readings and then repeats the last one. *)
Record Playback := MkPlayback { play_rest : list Time; play_last : Time }.

Global Instance Playback_Clock : Clock Playback := fun c =>
  match play_rest c with
  | [] => (play_last c, c)
  | t :: rest => (t, MkPlayback rest t)
  end.

(** [n] successive readings of a clock. *)
Fixpoint readings `{Clock C} (n : nat) (c : C) : list Time :=
  match n with
  | O => []
  | S n => let (t, c) := clock_Now c in t :: readings n c
  end.

(** The reference: the running maximum of a list of readings. *)
Fixpoint running_max (m : Time) (l : list Time) : list Time :=
  match l with [] => [] | t :: rest => Z.max m t :: running_max (Z.max m t) rest end.

(** ** Lemmas *)

Section nondecreasing.
Context `{Clock C}.

Lemma Nondecreasing_Now_latest (c : Nondecreasing C) t c' :
  Nondecreasing_Now c = (t, c') -> nd_initialized c' = true /\ nd_latest c' = t.
Proof.
  unfold Nondecreasing_Now. destruct (clock_Now _) as [now source]. intros Hn.
  destruct (nd_initialized c) eqn:Hi; simpl in Hn; [|by simplify_eq].
  destruct (time_After now (nd_latest c)); by simplify_eq/=.
Qed.

Lemma Nondecreasing_Now_max (c : Nondecreasing C) t c' :
  Nondecreasing_Now c = (t, c') -> nd_initialized c = true ->
  t = Z.max (nd_latest c) (clock_Now (nd_source c)).1 /\
  nd_source c' = (clock_Now (nd_source c)).2.
Proof.
  unfold Nondecreasing_Now, time_After. destruct (clock_Now _) as [now source]. intros Hn Hi.
  rewrite Hi in Hn; simpl in Hn. destruct (Z.ltb_spec (nd_latest c) now); simplify_eq/=;
    split; (done || lia).
Qed.

Lemma Nondecreasing_Now_mono (c : Nondecreasing C) t c' :
  Nondecreasing_Now c = (t, c') -> nd_initialized c = true -> nd_latest c <= t.
Proof. intros Hn Hi. destruct (Nondecreasing_Now_max c t c' Hn Hi); lia. Qed.

Lemma readings_running_max n (c : Nondecreasing C) :
  nd_initialized c = true ->
  readings n c = running_max (nd_latest c) (readings n (nd_source c)).
Proof.
  revert c. induction n as [|n IH]; intros c Hi; simpl; [done|].
  unfold clock_Now at 1, Nondecreasing_Clock. destruct (Nondecreasing_Now c) as [t c'] eqn:Hn.
  destruct (Nondecreasing_Now_max c t c' Hn Hi) as [Ht Hs].
  destruct (Nondecreasing_Now_latest c t c' Hn) as [Hi' Hl].
  destruct (clock_Now (nd_source c)) as [now source]. simpl in *.
  rewrite IH, Hs, Hl, Ht by done. done.
Qed.

Lemma readings_fresh n (source : C) :
  readings n (NewNondecreasing source) =
  match readings n source with [] => [] | t :: rest => t :: running_max t rest end.
Proof.
  destruct n as [|n]; [done|]. simpl. unfold clock_Now at 1, Nondecreasing_Clock.
  unfold Nondecreasing_Now; simpl. destruct (clock_Now source) as [t source'] eqn:Hs.
  by rewrite (readings_running_max n).
Qed.
End nondecreasing.

Lemma running_max_sorted m l : StronglySorted Z.le (m :: running_max m l).
Proof.
  revert m. induction l as [|t l IH]; intros m; simpl; [repeat constructor|].
  specialize (IH (Z.max m t)). constructor; [done|].
  apply StronglySorted_inv in IH as [_ IH]. constructor; [lia|].
  eapply Forall_impl; [done|]. simpl. lia.
Qed.

Lemma running_max_lookup m l i t :
  l !! i = Some t -> exists r, running_max m l !! i = Some r /\ t <= r /\ m <= r.
Proof.
  revert m i. induction l as [|u l IH]; intros m [|i] Hi; simplify_eq/=.
  - eexists; split; [done|]. lia.
  - destruct (IH (Z.max m u) i Hi) as (r & ? & ? & ?). exists r. split; [done|lia].
Qed.

Lemma IsExpired_iff expiresAt now : IsExpired expiresAt now = true <-> expiresAt <= now.
Proof.
  unfold IsExpired, time_Before. rewrite negb_true_iff. rewrite Z.ltb_ge. done.
Qed.

Lemma IsExpired_mono expiresAt now now' :
  now <= now' -> IsExpired expiresAt now = true -> IsExpired expiresAt now' = true.
Proof. rewrite !IsExpired_iff. lia. Qed.

#[export] Hint Resolve IsExpired_mono : gapdb.

Lemma running_max_in m l i r :
  running_max m l !! i = Some r -> r = m \/ r ∈ take (S i) l.
Proof.
  revert m i. induction l as [|t l IH]; intros m [|i]; simpl; try done.
  - intros [= <-]. destruct (Z.max_spec m t) as [[_ ->]|[_ ->]]; [right|by left]. apply elem_of_cons. by left.
  - intros [->|Hin]%IH; [|right; apply elem_of_cons; by right].
    destruct (Z.max_spec m t) as [[_ ->]|[_ ->]]; [right|by left]. apply elem_of_cons. by left.
Qed.

(** ** Properties *)

(** The clock the engine reads never goes back, whatever its source does:
    its successive readings are nondecreasing, no reading is before the
    source's at the same point, and each is one the source has already given. *)
Theorem clock_nondecreasing `{Clock C} n (source : C) :
  StronglySorted Z.le (readings n (NewNondecreasing source)) /\
  forall i t, readings n source !! i = Some t ->
    exists r, readings n (NewNondecreasing source) !! i = Some r /\ t <= r /\
      r ∈ take (S i) (readings n source).
Proof.
  rewrite readings_fresh. destruct (readings n source) as [|t0 rest]; [by split; [constructor|]|].
  split; [apply running_max_sorted|]. intros [|i] t; simpl.
  - intros [= ->]. exists t. split_and!; [done|lia|apply elem_of_cons; by left].
  - intros Hi. destruct (running_max_lookup t0 rest i t Hi) as (r & Hr & Ht & _).
    exists r. split_and!; [done|done|]. apply elem_of_cons.
    by destruct (running_max_in _ _ _ _ Hr); [left|right].
Qed.
