(* ===== verification/Allocator.v ===== *)
(** * Allocator: the revision allocator of internal/engine/revision.go

    [RevisionAllocator] is the Go interface; [RangeAllocator] hands out
    revisions from storage-reserved ranges.  [reserve] is the callback into
    storage: it has its own state [R] and may fail, in which case nothing
    is handed out.  [None] is the nil callback. *)

From stdpp Require Import base list sorting strings.
From Stdlib Require Import ZArith Lia.
From S2P Require Import Prelude.
From S2P Require Import Bytes.
From S2P Require Import Errors.
From S2P Require Import ApiTypes.

Local Open Scope Z_scope.
Local Open Scope go_scope.

Class RevisionAllocator (A : Type) := 
  alloc_Next : A -> outcome (result goerror Revision) * A.

(** [persist.RevisionRange]. *)
Record RevisionRange := MkRevisionRange { RangeFirst : Revision; RangeEnd : Revision }.

Definition revisionRangeExhausted (endRev : Revision) (reason : string) (cause : error) : goerror :=
  ErrGap (withCause cause
    (newError CodeRevisionRangeExhausted "A safe revision range could not be reserved."
      RetryAfterRestart [EvReason reason; EvReservedRevisionEnd endRev]
      [ActionVerifyStorage; ActionRestartAfterRecovery; ActionAbort])).

Definition validateRange (allocation : RevisionRange) (after : Revision) : error :=
  if (RangeFirst allocation =? 0) || (RangeFirst allocation <=? after)
     || (RangeEnd allocation <? RangeFirst allocation)
  then Some (revisionRangeExhausted after
         "the supplied revision range is not strictly after the committed revision" None)
  else None.

Section allocator.
Context {R : Type}.

(** [ReserveFunc]; the state of the storage behind the closure is threaded. *)
Definition ReserveFunc : Type := R -> Revision -> result goerror RevisionRange * R.

Record RangeAllocator := MkRangeAllocator {
  ra_next : Revision;
  ra_end : Revision;
  ra_exhausted : bool;
  ra_reserve : option ReserveFunc;
  ra_storage : R
}.

Definition NewRangeAllocator (current : Revision) (allocation : RevisionRange)
    (reserve : option ReserveFunc) (storage : R) : result goerror RangeAllocator :=
  check validateRange allocation current ;;
  Ok (MkRangeAllocator (RangeFirst allocation) (RangeEnd allocation) false reserve storage).

(** The tail of [Next]: hand out [next] and step past it, or mark the whole
    revision space as used up when [next] is the last revision. *)
Definition takeNext (a : RangeAllocator) : result goerror Revision * RangeAllocator :=
  let revision := ra_next a in
  if revision =? max_uint64
  then (Ok revision,
        MkRangeAllocator (ra_next a) (ra_end a) true (ra_reserve a) (ra_storage a))
  else (Ok revision,
        MkRangeAllocator (wrap_u64 (ra_next a + 1)) (ra_end a) (ra_exhausted a)
          (ra_reserve a) (ra_storage a)).

Definition RangeAllocator_Next (a : RangeAllocator) : result goerror Revision * RangeAllocator :=
  if ra_exhausted a then
    (Err (revisionRangeExhausted (ra_end a) "the durable revision space is exhausted" None), a)
  else if ra_end a <? ra_next a then
    match ra_reserve a with
    | None =>
        (Err (revisionRangeExhausted (ra_end a)
                "the durable revision reservation is exhausted" None), a)
    | Some reserve =>
        let (r, storage) := reserve (ra_storage a) (ra_end a) in
        let a := MkRangeAllocator (ra_next a) (ra_end a) (ra_exhausted a) (ra_reserve a) storage in
        match r with
        | Err e => (Err e, a)
        | Ok allocation =>
            match validateRange allocation (ra_end a) with
            | Some e => (Err e, a)
            | None =>
                takeNext (MkRangeAllocator (RangeFirst allocation) (RangeEnd allocation)
                            (ra_exhausted a) (ra_reserve a) storage)
            end
        end
    end
  else takeNext a.

Global Instance RangeAllocator_RevisionAllocator : RevisionAllocator RangeAllocator :=
  fun a => let (r, a) := RangeAllocator_Next a in (Returned r, a).
End allocator.
Arguments ReserveFunc : clear implicits.
Arguments RangeAllocator : clear implicits.

(** The revisions handed out by [n] calls, errors skipped. *)
Fixpoint allocated `{RevisionAllocator A} (n : nat) (a : A) : list Revision :=
  match n with
  | O => []
  | S n =>
      let (r, a) := alloc_Next a in
      match r with Returned (Ok rev) => rev :: allocated n a | _ => allocated n a end
  end.

(** ** The allocator invariant *)


Definition range_u64 (r : RevisionRange) : Prop := u64 (RangeFirst r) /\ u64 (RangeEnd r).

Section invariant.
Context {R : Type}.
Implicit Types a : RangeAllocator R.

(** The callback returns 64-bit numbers: what its Go type says of it. *)
Definition reserve_u64 (reserve : option (ReserveFunc R)) : Prop :=
  forall f s after r s', reserve = Some f -> f s after = (Ok r, s') -> range_u64 r.

(** Everything handed out so far is at most [floor]; [next] lies above it,
    and the counter never runs further than one past the end of its range. *)
Record alloc_inv (floor : Revision) a : Prop := {
  ai_next : u64 (ra_next a);
  ai_end : u64 (ra_end a);
  ai_floor : u64 floor;
  ai_above : ra_exhausted a = false -> floor < ra_next a;
  ai_span : ra_next a <= ra_end a + 1;
  ai_reserve : reserve_u64 (ra_reserve a)
}.

Lemma validateRange_None r after :
  validateRange r after = None <->
  RangeFirst r <> 0 /\ after < RangeFirst r /\ RangeFirst r <= RangeEnd r.
Proof.
  unfold validateRange.
  destruct (Z.eqb_spec (RangeFirst r) 0), (Z.leb_spec (RangeFirst r) after),
    (Z.ltb_spec (RangeEnd r) (RangeFirst r)); simpl; split; try done; lia.
Qed.

Lemma alloc_inv_new current r f s a :
  u64 current -> range_u64 r -> reserve_u64 f ->
  NewRangeAllocator current r f s = Ok a -> alloc_inv current a.
Proof.
  unfold NewRangeAllocator. intros Hc [Hf He] Hr.
  destruct (validateRange r current) eqn:Hv; [done|].
  apply validateRange_None in Hv. intros [= <-]. split; simpl; auto; lia.
Qed.

Lemma takeNext_spec floor a rev a' :
  alloc_inv floor a -> ra_exhausted a = false -> ra_next a <= ra_end a ->
  takeNext a = (rev, a') ->
  rev = Ok (ra_next a) /\ floor < ra_next a /\ alloc_inv (ra_next a) a' /\ ra_end a' = ra_end a.
Proof.
  intros [Hn He Hf Ha Hs Hr] Hx Hle. unfold takeNext, u64, max_uint64 in *.
  specialize (Ha Hx).
  destruct (Z.eqb_spec (ra_next a) (2 ^ 64 - 1)); intros [= <- <-];
    split_and!; try done; split; simpl; try done; try lia;
    rewrite ?wrap_u64_small; unfold u64, max_uint64; lia.
Qed.

(** One call: an error hands out nothing and keeps the invariant, a success
    hands out a revision above everything before it, inside its range. *)
Lemma Next_spec floor a res a' :
  alloc_inv floor a -> RangeAllocator_Next a = (res, a') ->
  match res with
  | Ok rev => floor < rev /\ rev <> 0 /\ rev <= ra_end a' /\ alloc_inv rev a'
  | Err _ => alloc_inv floor a'
  end.
Proof.
  intros Hinv Hnext. unfold RangeAllocator_Next in Hnext. pose proof Hinv as [Hn He Hf Ha Hs Hr].
  destruct (ra_exhausted a) eqn:Hx; [by simplify_eq|]. specialize (Ha eq_refl).
  destruct (Z.ltb_spec (ra_end a) (ra_next a)) as [Hlt|Hge].
  2:{ eapply takeNext_spec in Hnext as (-> & ? & ? & ->); try done.
      unfold u64 in *. split_and!; try done; lia. }
  destruct (ra_reserve a) as [f|] eqn:Hres; [|by simplify_eq].
  destruct (f (ra_storage a) (ra_end a)) as [[r|e] s'] eqn:Hcall;
    [|simplify_eq; split; simpl; try done; congruence].
  destruct (Hr f _ _ _ _ eq_refl Hcall) as [Hrf Hre].
  destruct (validateRange _ _) eqn:Hv; [simplify_eq; split; simpl; try done; congruence|].
  apply validateRange_None in Hv as (? & ? & ?); simpl in *.
  assert (alloc_inv floor (MkRangeAllocator (RangeFirst r) (RangeEnd r) false (Some f) s'))
    as Hinv' by (split; simpl; (done || lia)).
  apply (takeNext_spec floor) in Hnext as (-> & ? & ? & ->); try done.
Qed.

Lemma allocated_above n a floor :
  alloc_inv floor a -> StronglySorted Z.lt (floor :: allocated n a).
Proof.
  revert a floor. induction n as [|n IH]; intros a floor Hinv; simpl; [repeat constructor|].
  unfold alloc_Next, RangeAllocator_RevisionAllocator.
  destruct (RangeAllocator_Next a) as [[rev|e] a'] eqn:Hnext; simpl;
    pose proof (Next_spec floor a _ _ Hinv Hnext) as Hspec.
  - destruct Hspec as (Hlt & _ & _ & Hinv'). specialize (IH a' rev Hinv').
    constructor; [done|]. constructor; [done|].
    apply StronglySorted_inv in IH as [_ IH]. eapply Forall_impl; [done|]. simpl; lia.
  - by apply IH.
Qed.
End invariant.

(** ** Properties *)

(** C36: Revisions are never reused.  From any accepted start, with any source
    of further reservations (which may refuse, or return ranges that overlap or
    go back), the revisions [Next] hands out increase strictly and all exceed
    the revision the allocator was opened at. *)
Theorem allocator_increasing {R} current r f (s : R) a n :
  u64 current -> range_u64 r -> reserve_u64 f ->
  NewRangeAllocator current r f s = Ok a -> StronglySorted Z.lt (current :: allocated n a).
Proof. intros Hc Hr Hf Hnew. apply allocated_above. by eapply alloc_inv_new. Qed.

(** Two revisions from the first range, a stale range refused, the next one used. *)
Lemma allocator_increasing_witness :
  StronglySorted Z.lt [10; 11; 12; 13; 14].
Proof.
  apply (allocator_increasing 10 (MkRevisionRange 11 12)
    (Some (fun n after => (Ok (if n =? 0 then MkRevisionRange 5 12 else MkRevisionRange 13 14), n + 1)))
    0 (MkRangeAllocator 11 12 false
         (Some (fun n after => (Ok (if n =? 0 then MkRevisionRange 5 12 else MkRevisionRange 13 14), n + 1))) 0) 5).
  - by vm_compute.
  - by vm_compute.
  - intros g s after r' s' [= <-]. destruct (s =? 0); intros [= <- _]; by vm_compute.
  - reflexivity.
Defined.
