(* ===== verification/FaultFS.v ===== *)
(** * FaultFS: the filesystem seam of internal/faultfs

    Every storage call of the program goes through [faultfs.FS], whose
    implementation [OS] visits a hook before and after the operating-system
    call.  The hook and the operating system are outside the program: they are
    an [OSEnv], an arbitrary state machine that decides the outcome of every
    hook visit and of every system call.  What the calls do to the files is
    modelled here: an inode has its bytes and the length a successful fsync
    has made durable; a directory change is durable once the directory is
    synced.  [crash] says which files a restart may find. *)

From stdpp Require Import base gmap list strings sorting.
From Stdlib Require Import ZArith Lia.
From S2P Require Import Prelude.
From S2P Require Import Bytes.
From S2P Require Import Errors.

Local Open Scope Z_scope.

(** ** The environment *)

Inductive Syscall :=
| SysOpen | SysWrite | SysRead | SysFsync | SysRename | SysSyncDir | SysTruncate | SysRemove
| SysStat | SysReadDir | SysSeek | SysClose.

Class OSEnv (E : Type) := {
  (** The verdict of the configured hook ([None] also when there is none). *)
  env_visit : E -> Event -> error * E;
  (** Whether a system call fails, and how. *)
  env_fail : E -> Syscall -> error * E;
  (** How many of [n] bytes a write (or a read) transfers. *)
  env_transfer : E -> Z -> Z * E
}.

(** ** Files and directories *)

Record Inode := MkInode { ino_data : bytes; ino_synced : Z }.

Abbreviation Directory := (gmap string positive).

(** [fs_dirs] is the history of the directory since it was last synced, newest
    first; a crash may expose any entry of it. *)
Record FSState (E : Type) := MkFS {
  fs_env : E;
  fs_inodes : gmap positive Inode;
  fs_dir : Directory;
  fs_pending : list Directory
}.
Arguments MkFS {E}.
Arguments fs_env {E}.
Arguments fs_inodes {E}.
Arguments fs_dir {E}.
Arguments fs_pending {E}.

Section faultfs.
Context {E : Type} `{OSEnv E}.
Implicit Types s : FSState E.

Definition setEnv (e : E) s : FSState E := MkFS e (fs_inodes s) (fs_dir s) (fs_pending s).
Definition setInode (i : positive) (n : Inode) s : FSState E :=
  MkFS (fs_env s) (<[i := n]> (fs_inodes s)) (fs_dir s) (fs_pending s).
Definition setDir (d : Directory) s : FSState E :=
  MkFS (fs_env s) (fs_inodes s) d (fs_dir s :: fs_pending s).

Definition inode (i : positive) s : Inode := default (MkInode [] 0) (fs_inodes s !! i).

Definition os_fail (c : Syscall) s : error * FSState E :=
  let (r, e) := env_fail (fs_env s) c in (r, setEnv e s).

(** [OS.visit]: the hook's error, wrapped with its event. *)
Definition visit (point : string) (phase : Phase) s : error * FSState E :=
  let event := MkEvent point phase in
  let (r, e) := env_visit (fs_env s) event in
  (match r with Some err => Some (ErrHook event err) | None => None end, setEnv e s).

Definition Checkpoint (point : string) (phase : Phase) s : error * FSState E :=
  visit point phase s.

(** The three-part shape of the [OS] methods: visit, call, visit. *)
Definition hooked (point : string) (call : FSState E -> error * FSState E) s
    : error * FSState E :=
  let (e, s) := visit point Before s in
  match e with
  | Some err => (Some err, s)
  | None =>
      let (e, s) := call s in
      match e with
      | Some err => (Some err, s)
      | None => visit point After s
      end
  end.

(** *** System calls *)

Record OpenFlags := MkFlags { o_create : bool; o_excl : bool }.

Definition os_open (flags : OpenFlags) (name : string) s : result goerror positive * FSState E :=
  let (e, s) := os_fail SysOpen s in
  match e with
  | Some err => (Err err, s)
  | None =>
      match (fs_dir s !! name : option positive) with
      | Some i => if o_create flags && o_excl flags then (Err (ErrSys SysExist), s) else (Ok i, s)
      | None =>
          if o_create flags then
            let i := fresh (dom (fs_inodes s)) in
            (Ok i, setDir (<[name := i]> (fs_dir s)) (setInode i (MkInode [] 0) s))
          else (Err (ErrSys SysNotExist), s)
      end
  end.

(** [os.File.Write] at the end of the file: the bytes the kernel took, and
    [io.ErrShortWrite] if a write without an error took too few. *)
Definition file_Write (i : positive) (value : bytes) s : Z * error * FSState E :=
  let (e, s) := os_fail SysWrite s in
  let (k, env) := env_transfer (fs_env s) (len value) in
  let s := setEnv env s in
  let written := match e with
                 | None => if k <? len value then Z.max 0 k else len value
                 | Some _ => Z.min (len value) (Z.max 0 k)
                 end in
  let n := inode i s in
  let s := setInode i (MkInode (ino_data n ++ slice value 0 written) (ino_synced n)) s in
  (written,
   match e with
   | Some err => Some err
   | None => if written <? len value then Some (ErrSys SysShortWrite) else None
   end, s).

Definition file_Sync (i : positive) s : error * FSState E :=
  let (e, s) := os_fail SysFsync s in
  match e with
  | Some err => (Some err, s)
  | None =>
      let n := inode i s in
      (None, setInode i (MkInode (ino_data n) (len (ino_data n))) s)
  end.

Definition file_Truncate (i : positive) (size : Z) s : error * FSState E :=
  let (e, s) := os_fail SysTruncate s in
  match e with
  | Some err => (Some err, s)
  | None =>
      let n := inode i s in
      (None, setInode i (MkInode (slice (ino_data n) 0 size) (Z.min (ino_synced n) size)) s)
  end.

Definition file_Close (i : positive) s : error * FSState E := os_fail SysClose s.

Definition os_rename (oldName newName : string) s : error * FSState E :=
  let (e, s) := os_fail SysRename s in
  match e with
  | Some err => (Some err, s)
  | None =>
      match (fs_dir s !! oldName : option positive) with
      | Some i => (None, setDir (<[newName := i]> (delete oldName (fs_dir s))) s)
      | None => (Some (ErrSys SysNotExist), s)
      end
  end.

Definition os_syncdir s : error * FSState E :=
  let (e, s) := os_fail SysSyncDir s in
  match e with
  | Some err => (Some err, s)
  | None => (None, MkFS (fs_env s) (fs_inodes s) (fs_dir s) [])
  end.

Definition os_remove (name : string) s : error * FSState E :=
  let (e, s) := os_fail SysRemove s in
  match e with
  | Some err => (Some err, s)
  | None =>
      match (fs_dir s !! name : option positive) with
      | Some _ => (None, setDir (delete name (fs_dir s)) s)
      | None => (Some (ErrSys SysNotExist), s)
      end
  end.

Definition os_stat (name : string) s : result goerror Inode * FSState E :=
  let (e, s) := os_fail SysStat s in
  match e with
  | Some err => (Err err, s)
  | None =>
      match (fs_dir s !! name : option positive) with
      | Some i => (Ok (inode i s), s)
      | None => (Err (ErrSys SysNotExist), s)
      end
  end.

(** The names of the directory in order; it holds regular files only. *)
Definition os_readdir s : result goerror (list string) * FSState E :=
  let (e, s) := os_fail SysReadDir s in
  match e with
  | Some err => (Err err, s)
  | None => (Ok (merge_sort String.le (map_to_list (fs_dir s)).*1), s)
  end.

(** *** The methods of [OS] *)

Definition OpenFile (point name : string) (flags : OpenFlags) s
    : result goerror positive * FSState E :=
  let (e, s) := visit point Before s in
  match e with
  | Some err => (Err err, s)
  | None =>
      let (r, s) := os_open flags name s in
      match r with
      | Err err => (Err err, s)
      | Ok i =>
          let (e, s) := visit point After s in
          match e with
          | Some err => let (_, s) := file_Close i s in (Err err, s)
          | None => (Ok i, s)
          end
      end
  end.

(** [OS.Write], for any writer: the writer's state is [W]. *)
Definition Write {W : Type} (point : string)
    (write : bytes -> W * FSState E -> Z * error * (W * FSState E))
    (value : bytes) (ws : W * FSState E) : Z * error * (W * FSState E) :=
  let '(w, s) := ws in
  let (e, s) := visit point Before s in
  match e with
  | Some err => (0, Some err, (w, s))
  | None =>
      let '(written, e, (w, s)) := write value (w, s) in
      match e with
      | Some err => (written, Some err, (w, s))
      | None => let (e, s) := visit point After s in (written, e, (w, s))
      end
  end.

Definition Sync (point : string) (i : positive) : FSState E -> error * FSState E :=
  hooked point (file_Sync i).
Definition Rename (point oldName newName : string) : FSState E -> error * FSState E :=
  hooked point (os_rename oldName newName).
Definition SyncDir (point : string) : FSState E -> error * FSState E := hooked point os_syncdir.
Definition Truncate (point : string) (i : positive) (size : Z) : FSState E -> error * FSState E :=
  hooked point (file_Truncate i size).
Definition Remove (point name : string) : FSState E -> error * FSState E :=
  hooked point (os_remove name).

(** The methods that return a value. *)
Definition hooked_value {V} (point : string) (call : FSState E -> result goerror V * FSState E) s
    : result goerror V * FSState E :=
  let (e, s) := visit point Before s in
  match e with
  | Some err => (Err err, s)
  | None =>
      let (r, s) := call s in
      match r with
      | Err err => (Err err, s)
      | Ok v =>
          let (e, s) := visit point After s in
          match e with Some err => (Err err, s) | None => (Ok v, s) end
      end
  end.

Definition Stat (point name : string) : FSState E -> result goerror Inode * FSState E :=
  hooked_value point (os_stat name).
Definition ReadDir (point : string) : FSState E -> result goerror (list string) * FSState E :=
  hooked_value point os_readdir.

(** *** [writeFull] (internal/persist/identity.go) *)

Fixpoint writeFull_loop {W : Type} (fuel : nat) (point : string)
    (write : bytes -> W * FSState E -> Z * error * (W * FSState E))
    (value : bytes) (ws : W * FSState E) : option (error * (W * FSState E)) :=
  if len value =? 0 then Some (None, ws) else
  match fuel with
  | O => None
  | S fuel =>
      let '(written, e, ws) := Write point write value ws in
      if (written <? 0) || (len value <? written) then Some (Some (ErrSys SysShortWrite), ws)
      else
        let value := slice value written (len value) in
        match e with
        | Some err => Some (Some err, ws)
        | None =>
            if written =? 0 then Some (Some (ErrSys SysShortWrite), ws)
            else writeFull_loop fuel point write value ws
        end
  end.

(** One unit of fuel per byte suffices: [writeFull_total]. *)
Definition writeFull {W : Type} (point : string)
    (write : bytes -> W * FSState E -> Z * error * (W * FSState E))
    (value : bytes) (ws : W * FSState E) : error * (W * FSState E) :=
  default (Some (ErrSys SysShortWrite), ws)
    (writeFull_loop (length value) point write value ws).

(** A file as a writer. *)
Definition fileWriter (i : positive) (value : bytes) (ws : unit * FSState E)
    : Z * error * (unit * FSState E) :=
  let '(n, e, s) := file_Write i value ws.2 in (n, e, (tt, s)).

(** ** What a restart finds *)

(** A file after a crash: a prefix of its bytes that has the durable ones. *)
Definition crash_inode (n : Inode) (found : bytes) : Prop :=
  exists k, ino_synced n <= k <= len (ino_data n) /\ found = slice (ino_data n) 0 k.

Definition crash_dir s (d : Directory) : Prop := d = fs_dir s \/ d ∈ fs_pending s.

(** [found] is a possible content of the file called [name] after a crash;
    [None] if there is no such file. *)
Definition crash_file s (name : string) (found : option bytes) : Prop :=
  exists d, crash_dir s d /\
    match (d !! name : option positive), found with
    | Some i, Some b => crash_inode (inode i s) b
    | None, None => True
    | _, _ => False
    end.
End faultfs.

(** An environment without faults: the hook is silent, every call succeeds and
    transfers all bytes. *)
Definition quiet : OSEnv unit :=
  {| env_visit _ _ := (None, tt); env_fail _ _ := (None, tt); env_transfer _ n := (n, tt) |}.

Definition empty_fs : FSState unit := MkFS tt ∅ ∅ [].

(** ** Lemmas *)

Section writeFull.
Context {E W : Type} `{OSEnv E}.
Variable point : string.
Variable write : bytes -> W * FSState E -> Z * error * (W * FSState E).

Lemma writeFull_total fuel value ws :
  (length value <= fuel)%nat -> exists r, writeFull_loop fuel point write value ws = Some r.
Proof.
  revert value ws. induction fuel as [|fuel IH]; intros value ws Hf; simpl;
    destruct (Z.eqb_spec (len value) 0) as [Hz|Hz]; eauto.
  { unfold len in Hz. lia. }
  destruct (Write point write value ws) as [[written e] ws'].
  destruct (Z.ltb_spec written 0); simpl; eauto. destruct (Z.ltb_spec (len value) written); eauto.
  destruct e; eauto. destruct (Z.eqb_spec written 0); eauto. apply IH.
  unfold slice, len in *. rewrite length_take, length_drop. lia.
Qed.
End writeFull.

(** What [writeFull] does to a writer whose [Write] appends what it reports:
    [I ws x] says that [x] has been written so far. *)
Section writeFull_stream.
Context {E W : Type} `{OSEnv E}.
Variable point : string.
Variable write : bytes -> W * FSState E -> Z * error * (W * FSState E).
Variable I : W * FSState E -> bytes -> Prop.
Hypothesis I_env : forall w s x e, I (w, s) x -> I (w, setEnv e s) x.
Hypothesis I_write : forall ws x v n e ws',
  I ws x -> write v ws = (n, e, ws') ->
  0 <= n <= len v /\ I ws' (x ++ slice v 0 n) /\ (e = None -> n = len v).

Lemma I_visit p ph w s x r s' : I (w, s) x -> visit p ph s = (r, s') -> I (w, s') x.
Proof.
  unfold visit. destruct (env_visit _ _) as [v e]. intros HI [= <- <-]. by apply I_env.
Qed.

Lemma Write_stream ws x v n e ws' :
  I ws x -> Write point write v ws = (n, e, ws') ->
  0 <= n <= len v /\ I ws' (x ++ slice v 0 n) /\ (e = None -> n = len v).
Proof.
  intros HI. unfold Write. destruct ws as [w s]. pose proof (len_nonneg v).
  destruct (visit point Before s) as [[err|] s1] eqn:H1; pose proof (I_visit _ _ _ _ _ _ _ HI H1).
  { intros [= <- <- <-]. split_and!; [lia|lia| |done].
    replace (slice v 0 0) with (@nil byte) by done. by rewrite app_nil_r. }
  destruct (write v (w, s1)) as [[n1 [err|]] [w2 s2]] eqn:Hw.
  { intros [= <- <- <-]. by apply (I_write _ _ _ _ _ _ ltac:(eassumption) Hw). }
  destruct (visit point After s2) as [r s3] eqn:H3. intros [= <- <- <-].
  destruct (I_write _ _ _ _ _ _ ltac:(eassumption) Hw) as (? & ? & Hn).
  split_and!; try lia; [by eapply I_visit|]. intros _. by apply Hn.
Qed.

Lemma writeFull_loop_stream fuel v ws x e ws' :
  I ws x -> writeFull_loop fuel point write v ws = Some (e, ws') ->
  exists k, 0 <= k <= len v /\ I ws' (x ++ slice v 0 k) /\ (e = None -> k = len v).
Proof.
  revert v ws x. induction fuel as [|fuel IH]; intros v ws x HI; simpl;
    destruct (Z.eqb_spec (len v) 0) as [Hz|Hz]; try done;
    try (intros [= <- <-]; exists 0; apply len_nil_iff in Hz as ->;
         split_and!; try done; by rewrite app_nil_r).
  destruct (Write point write v ws) as [[n e1] ws1] eqn:Hw.
  apply (Write_stream ws x) in Hw as (Hn & HI1 & He); [|done].
  rewrite (proj2 (Z.ltb_ge n 0)), (proj2 (Z.ltb_ge (len v) n)) by lia. simpl.
  destruct e1 as [err|]; [intros [= <- <-]; by exists n|].
  specialize (He eq_refl). rewrite (proj2 (Z.eqb_neq n 0)) by lia. intros Hl.
  apply (IH _ _ _ HI1) in Hl as (k & Hk & HI2 & He2).
  rewrite len_slice in Hk by lia. assert (k = 0) as -> by lia.
  exists n. split_and!; try lia; try done. by rewrite app_nil_r in HI2.
Qed.

Lemma writeFull_stream v ws x e ws' :
  I ws x -> writeFull point write v ws = (e, ws') ->
  exists k, 0 <= k <= len v /\ I ws' (x ++ slice v 0 k) /\ (e = None -> k = len v).
Proof.
  intros HI. unfold writeFull.
  destruct (writeFull_total point write (length v) v ws ltac:(lia)) as [[e1 ws1] Hl].
  rewrite Hl. simpl. intros [= <- <-]. by eapply writeFull_loop_stream.
Qed.
End writeFull_stream.
