(* ===== verification/StorageErrors.v ===== *)
(** * StorageErrors: the error constructors of internal/persist

    The constructors shared by the codecs, the log, the recovery and the
    publication code, with the standard-library helpers they use
    ([filepath.Base], [hex.EncodeToString]). *)

From stdpp Require Import base list strings.
From Stdlib Require Import ZArith Lia Ascii String.
From S2P Require Import Prelude.
From S2P Require Import Bytes.
From S2P Require Import Errors.

Local Open Scope Z_scope.

(** ** Standard-library helpers *)

Definition is_slash (c : ascii) : bool := Ascii.eqb c "/".

Fixpoint drop_while {A} (p : A -> bool) (l : list A) : list A :=
  match l with [] => [] | x :: r => if p x then drop_while p r else l end.

Fixpoint take_while {A} (p : A -> bool) (l : list A) : list A :=
  match l with [] => [] | x :: r => if p x then x :: take_while p r else [] end.

Definition filepath_Base (path : string) : string :=
  match list_ascii_of_string path with
  | [] => "."
  | l =>
      match take_while (fun c => negb (is_slash c)) (drop_while is_slash (rev l)) with
      | [] => "/"
      | base => string_of_list_ascii (rev base)
      end
  end.

Definition hex_digit (z : Z) : byte := z2b (if z <? 10 then 48 + z else 87 + z).

Definition hex_EncodeToString (l : bytes) : bytes :=
  l ≫= (fun b => [hex_digit (b2z b / 16); hex_digit (b2z b mod 16)]).

Definition hex_value (b : byte) : option Z :=
  let c := b2z b in
  if (48 <=? c) && (c <=? 57) then Some (c - 48)
  else if (97 <=? c) && (c <=? 102) then Some (c - 87)
  else if (65 <=? c) && (c <=? 70) then Some (c - 55)
  else None.

(** [hex.DecodeString]; both cases are accepted. *)
Fixpoint hex_DecodeString (l : bytes) : option bytes :=
  match l with
  | [] => Some []
  | a :: b :: rest =>
      match hex_value a, hex_value b with
      | Some x, Some y => cons (z2b (16 * x + y)) <$> hex_DecodeString rest
      | _, _ => None
      end
  | [_] => None
  end.

(** [fmt.Sprintf("%020d", revision)] and the names of the generation's files. *)
Definition padRevision (rev : Revision) : bytes :=
  let digits := FormatUint rev in replicate (20 - Datatypes.length digits) (z2b 48) ++ digits.
Definition snapshotFileName (rev : Revision) : string :=
  String.string_of_list_byte (lit "snapshot-" ++ padRevision rev ++ lit ".gdb").
Definition walFileName (rev : Revision) : string :=
  String.string_of_list_byte (lit "wal-" ++ padRevision rev ++ lit ".gdb").

(** ** Constructors *)

Definition storageVersion : Z := 1.

(** [persist.DatabaseID], a [16]byte array. *)
Abbreviation DatabaseID := bytes (only parsing).

Definition DatabaseID_IsZero (id : DatabaseID) : bool := all_zero id.
Definition DatabaseID_String (id : DatabaseID) : bytes := hex_EncodeToString id.

Definition corruptWAL (reason file : string) (offset : Z) (cause : error) : goerror :=
  let file := if String.eqb file "" then "WAL"%string else file in
  ErrGap (withCause cause
    (newError CodeCorruptWAL "WAL is corrupt." RetryAfterOperator
      [EvReason reason; EvOffset offset; EvFile (filepath_Base file)]
      [ActionInspectOffline; ActionRecoverPropose; ActionRestoreBackup; ActionAbort])).

Definition corruptSnapshot (reason file : string) (offset : Z) (cause : error) : goerror :=
  ErrGap (withCause cause
    (newError CodeCorruptSnapshot "Snapshot is corrupt." RetryAfterOperator
      [EvReason reason; EvOffset offset; EvFile (filepath_Base file)]
      [ActionInspectOffline; ActionRecoverPropose; ActionRestoreBackup; ActionAbort])).

Definition corruptIdentity (reason : string) (cause : error) : goerror :=
  ErrGap (withCause cause
    (newError CodeCorruptIdentity "Identity file is corrupt." RetryAfterOperator
      [EvReason reason; EvFile "IDENTITY"]
      [ActionInspectOffline; ActionRestoreBackup; ActionAbort])).

Definition unknownStorageFormat (file : string) (received : Z) : goerror :=
  ErrGap (newError CodeUnknownFormat "Storage format is not supported." RetryNever
    [EvReceivedVersion received; EvSupportedVersions [storageVersion]; EvFile file]
    [ActionUpgradeGapdb; ActionUseCompatibleBinary; ActionAbort]).

Definition revisionRangeError (endRev : Revision) (reason : string) (cause : error) : goerror :=
  ErrGap (withCause cause
    (newError CodeRevisionRangeExhausted "A safe revision range could not be reserved."
      RetryAfterRestart [EvReason reason; EvReservedRevisionEnd endRev]
      [ActionVerifyStorage; ActionRestartAfterRecovery; ActionAbort])).

Definition databaseIDMismatch (expected actual : DatabaseID) (file : string) : goerror :=
  ErrGap (newError CodeDatabaseIDMismatch "Database identity does not match." RetryNever
    [EvExpectedDatabaseID (DatabaseID_String expected); EvActualDatabaseID (DatabaseID_String actual);
     EvFile (filepath_Base file)]
    [ActionSelectCorrectDatabase; ActionAbort]).

(** The category of an operating-system error. *)
Definition ioCategory (cause : goerror) : string :=
  if errors_Is cause SysPermission then "permission"
  else if errors_Is cause SysNotExist then "not_exist"
  else if errors_Is cause SysExist then "already_exists"
  else if errors_Is cause SysNoSpace then "no_space"
  else if errors_Is cause SysReadOnly then "read_only"
  else "other".

Definition ioFailure (operation file : string) (cause : goerror) : goerror :=
  ErrGap (withCause (Some cause)
    (newError CodeIOError "A storage operation failed." RetryAfterOperator
      [EvPath file; EvOperation operation; EvOSErrorCategory (ioCategory cause)]
      [ActionCheckStorage; ActionVerify; ActionAbort])).

Definition ioFailureApplied (operation file : string) (cause : goerror) : goerror :=
  match ioFailure operation file cause with
  | ErrGap e => ErrGap (withApplied true e)
  | err => err
  end.

(** [persist.storageDegraded]: the log's own degraded error. *)
Definition walStorageDegraded (stage : string) (current durable : Revision) (cause : error) : goerror :=
  ErrGap (withCause cause
    (newError CodeStorageDegraded "Storage can no longer accept mutations safely." RetryAfterRestart
      [EvCurrentRevision current; EvDurableThroughRevision durable; EvFailedStage stage]
      [ActionStatus; ActionVerify; ActionRestartAfterRecovery; ActionAbort])).

Definition auditAfterApplyError (operation reason : string) (current : Revision) (cause : error) : goerror :=
  ErrGap (withCause cause (withApplied true
    (newError CodeAuditFailedAfterApply "Audit failed after a storage change was applied."
      RetryAfterReconcile [EvReason reason; EvOperation operation; EvCurrentRevision current]
      [ActionStatus; ActionVerify; ActionRepairAuditStorage; ActionAbort]))).

(** ** Context added on the way out *)

Definition isFile (e : Evidence) : bool := match e with EvFile _ => true | _ => false end.

Definition setFile (file : string) (ev : list Evidence) : list Evidence :=
  if existsb isFile ev
  then (fun e => match e with EvFile _ => EvFile file | e => e end) <$> ev
  else ev ++ [EvFile file].

Definition addOffset (base : Z) (ev : list Evidence) : list Evidence :=
  (fun e => match e with EvOffset o => EvOffset (base + o) | e => e end) <$> ev.

Definition withWALContext (err : goerror) (file : string) (baseOffset : Z) : goerror :=
  match asError err with
  | None => err
  | Some e =>
      match Code e with
      | CodeCorruptWAL =>
          ErrGap (withEvidence (addOffset baseOffset (setFile (filepath_Base file) (Evidences e))) e)
      | CodeUnknownFormat => ErrGap (withEvidence (setFile (filepath_Base file) (Evidences e)) e)
      | _ => ErrGap e
      end
  end.

Definition withRecoveryAppliedState (err : goerror) (operationApplied : bool) : goerror :=
  if operationApplied then
    match asError err with Some e => ErrGap (withApplied true e) | None => err end
  else err.

(** Each constructor conforms to the catalog by computation. *)
#[export] Hint Extern 1 (conforms_err _) => reflexivity : gapdb.
