(* ===== verification/WalCodec.v ===== *)
(** * WalCodec: the write-ahead-log formats of internal/persist/wal.go

    The 64-byte WAL header and the variable-length commit frame.  The encoders
    build the buffer field by field in offset order (the Go code fills a zeroed
    buffer at the same offsets); the decoders read it by offset, as the code
    does.  [Effect.Value] is [bytes]: a nil and an empty slice encode alike. *)

From stdpp Require Import base gmap list strings.
From Stdlib Require Import ZArith Lia.
From S2P Require Import Prelude.
From S2P Require Import Bytes.
From S2P Require Import Errors.
From S2P Require Import Checksum.
From S2P Require Import ApiTypes.
From S2P Require Import StorageErrors.

Local Open Scope Z_scope.
Local Open Scope go_scope.

Definition WALHeaderSize : Z := 64.
Definition frameHeaderSize : Z := 28.
Definition frameTrailer : Z := 4.
Definition effectHeader : Z := 20.

Record WALHeader := MkWALHeader {
  WhDatabaseID : DatabaseID;
  WhFirstRevision : Revision;
  WhGeneration : Z
}.

Record Effect := MkEffect {
  EffKind : ChangeKind;
  EffKey : bytes;
  EffValue : bytes;
  EffExpiresAt : option Time
}.

Record CommitFrame := MkCommitFrame {
  FrRevision : Revision;
  FrEffects : list Effect
}.

(** ** The header *)

Definition walHeaderBody (h : WALHeader) : bytes :=
  lit "GAPWAL01" ++ be_encode 2 storageVersion ++ be_encode 2 WALHeaderSize
  ++ WhDatabaseID h ++ be_encode 8 (WhFirstRevision h) ++ be_encode 8 (WhGeneration h) ++ zeros 16.

Definition EncodeWALHeader (h : WALHeader) : result goerror bytes :=
  reject DatabaseID_IsZero (WhDatabaseID h) || (WhFirstRevision h =? 0) || (WhGeneration h =? 0)
    with corruptWAL "WAL header fields must be nonzero" "" 0 None ;;
  Ok (walHeaderBody h ++ be_encode 4 (crc32c (walHeaderBody h))).

Definition DecodeWALHeader (encoded : bytes) (expectedID : DatabaseID) : result goerror WALHeader :=
  reject negb (len encoded =? WALHeaderSize)
    with corruptWAL "WAL header size is not 64" "" 0 None ;;
  reject negb (bool_decide (slice encoded 0 8 = lit "GAPWAL01"))
    with corruptWAL "WAL magic does not match GAPWAL01" "" 0 None ;;
  let version := be_decode (slice encoded 8 10) in
  reject negb (version =? storageVersion) with unknownStorageFormat "WAL" version ;;
  reject negb (be_decode (slice encoded 10 12) =? WALHeaderSize) || negb (all_zero (slice encoded 44 60))
    with corruptWAL "WAL header length or reserved bytes are invalid" "" 0 None ;;
  reject negb (crc32c (slice encoded 0 60) =? be_decode (slice encoded 60 64))
    with corruptWAL "WAL header CRC32C mismatch" "" 0 None ;;
  let id := slice encoded 12 28 in
  reject negb (bool_decide (id = expectedID)) with databaseIDMismatch expectedID id "WAL" ;;
  let h := MkWALHeader id (be_decode (slice encoded 28 36)) (be_decode (slice encoded 36 44)) in
  reject (WhFirstRevision h =? 0) || (WhGeneration h =? 0)
    with corruptWAL "WAL first revision and generation must be nonzero" "" 0 None ;;
  Ok h.

(** ** Commit validation *)

Definition walBatchOperations (received maximum : Z) : goerror :=
  ErrGap (newError CodeBatchTooLarge "WAL commit exceeds the configured operation limit." RetryNever
    [EvReceivedOperations received; EvMaximumOperations maximum] [ActionSplitBatch; ActionAbort]).

Definition walBatchBytes (received maximum : Z) : goerror :=
  ErrGap (newError CodeBatchTooLarge "WAL commit frame exceeds the configured byte limit." RetryNever
    [EvReceivedBytes received; EvMaximumBytes maximum] [ActionSplitBatch; ActionAbort]).

Definition walDuplicateKey (key : bytes) (previous index : Z) : goerror :=
  ErrGap (newError CodeDuplicateKey "A key occurs more than once in the commit." RetryNever
    [EvKey key; EvMutationIndexes [previous; index]] [ActionDeduplicateBatch; ActionAbort]).

(** The [switch effect.Kind] of the validation loop. *)
Definition validateEffectKind (limits : Limits) (e : Effect) : error :=
  match EffKind e with
  | ChangePut =>
      if MaxValueBytes limits <? len (EffValue e)
      then Some (valueTooLarge (len (EffValue e)) (MaxValueBytes limits))
      else match EffExpiresAt e with
           | Some t =>
               if negb (time_Unix0 (UnixNano t) =? t)
               then Some (corruptWAL "put expiry cannot be represented as Unix nanoseconds" "" 0 None)
               else None
           | None => None
           end
  | ChangeDelete | ChangeExpire =>
      if negb (len (EffValue e) =? 0) || bool_decide (EffExpiresAt e <> None)
      then Some (corruptWAL "delete/expire cannot carry value or expiry" "" 0 None)
      else None
  | ChangeUnknown _ => Some (corruptWAL "effect kind is unknown" "" 0 None)
  end.

Fixpoint validateEffects (limits : Limits) (effects : list Effect) (index : Z)
    (seen : gmap bytes Z) : error :=
  match effects with
  | [] => None
  | e :: rest =>
      if bool_decide (EffKey e = []) || negb (utf8_valid (EffKey e))
      then Some (corruptWAL "effect key is empty or invalid UTF-8" "" 0 None)
      else if MaxKeyBytes limits <? len (EffKey e)
      then Some (keyTooLarge "key" "Key exceeds the configured limit." (len (EffKey e)) (MaxKeyBytes limits))
      else match (seen !! EffKey e : option Z) with
           | Some previous => Some (walDuplicateKey (EffKey e) previous index)
           | None =>
               try validateEffectKind limits e ;;
               validateEffects limits rest (index + 1) (<[EffKey e := index]> seen)
           end
  end.

Definition validateCommit (commit : CommitFrame) (limits : Limits) : error :=
  if FrRevision commit =? 0 then Some (corruptWAL "commit revision must be nonzero" "" 0 None)
  else if len (FrEffects commit) =? 0
  then Some (corruptWAL "commit must contain at least one mutation" "" 0 None)
  else if MaxBatchOperations limits <? len (FrEffects commit)
  then Some (walBatchOperations (len (FrEffects commit)) (MaxBatchOperations limits))
  else validateEffects limits (FrEffects commit) 0 ∅.

(** ** The commit frame *)

Definition saturatedInt (value : Z) : Z := if max_int64 <? value then max_int64 else value.

Fixpoint effectPayloadLength_from (total : Z) (effects : list Effect) : result goerror Z :=
  match effects with
  | [] => Ok total
  | e :: rest =>
      let item := wrap_u64 (effectHeader + len (EffKey e) + len (EffValue e)) in
      reject wrap_u64 (max_uint64 - item) <? total
        with corruptWAL "mutation payload length overflows" "" 0 None ;;
      effectPayloadLength_from (wrap_u64 (total + item)) rest
  end.

Definition effectPayloadLength (effects : list Effect) : result goerror Z :=
  effectPayloadLength_from 0 effects.

Definition kindByte (k : ChangeKind) : Z :=
  match k with ChangePut => 1 | ChangeDelete => 2 | ChangeExpire => 3 | ChangeUnknown _ => 0 end.

Definition encodeEffect (e : Effect) : bytes :=
  be_encode 1 (kindByte (EffKind e))
  ++ be_encode 1 (if EffExpiresAt e then 1 else 0)
  ++ zeros 2
  ++ be_encode 4 (len (EffKey e)) ++ be_encode 4 (len (EffValue e))
  ++ match EffExpiresAt e with Some t => be_encode 8 (wrap_u64 (UnixNano t)) | None => zeros 8 end
  ++ EffKey e ++ EffValue e.

Definition encodeEffects (effects : list Effect) : bytes := effects ≫= encodeEffect.

(** The smaller of the two byte limits. *)
Definition frameMaximum (limits : Limits) : Z :=
  if MaxFrameBytes limits <? MaxBatchBytes limits then MaxFrameBytes limits else MaxBatchBytes limits.

Definition frameHead (commit : CommitFrame) (total payloadLength : Z) : bytes :=
  lit "CMIT" ++ be_encode 2 storageVersion ++ zeros 2 ++ be_encode 4 total
  ++ be_encode 8 (FrRevision commit) ++ be_encode 4 (len (FrEffects commit))
  ++ be_encode 4 payloadLength.

Definition frameBody (commit : CommitFrame) (total payloadLength : Z) : bytes :=
  frameHead commit total payloadLength ++ encodeEffects (FrEffects commit).

Definition EncodeCommitFrame (commit : CommitFrame) (limits : Limits) : result goerror bytes :=
  check validateCommit commit limits ;;
  match effectPayloadLength (FrEffects commit) with
  | Err e => Err e
  | Ok payloadLength =>
      let total := wrap_u64 (frameHeaderSize + frameTrailer + payloadLength) in
      reject (wrap_u64 (frameMaximum limits) <? total) || (max_uint32 <? total)
        with walBatchBytes (saturatedInt total) (frameMaximum limits) ;;
      let body := frameBody commit total payloadLength in
      Ok (body ++ be_encode 4 (crc32c body))
  end.

(** One iteration of the decoding loop: the effect and the offset after it. *)
Definition decodeEffect (encoded : bytes) (payloadEnd offset : Z) (limits : Limits)
    : result goerror (Effect * Z) :=
  reject payloadEnd - effectHeader <? offset
    with corruptWAL "mutation header exceeds the payload" "" offset None ;;
  let kind := byte_at encoded offset in
  let flags := byte_at encoded (offset + 1) in
  reject negb (Z.ldiff flags 1 =? 0) || negb (all_zero (slice encoded (offset + 2) (offset + 4)))
    with corruptWAL "mutation flags or reserved bytes are invalid" "" offset None ;;
  let keyLength := be_decode (slice encoded (offset + 4) (offset + 8)) in
  let valueLength := be_decode (slice encoded (offset + 8) (offset + 12)) in
  let expiryNanos := wrap_i64 (be_decode (slice encoded (offset + 12) (offset + 20))) in
  let offset := offset + effectHeader in
  let remaining := wrap_u64 (payloadEnd - offset) in
  reject (wrap_u64 (MaxKeyBytes limits) <? keyLength)
         || (wrap_u64 (MaxValueBytes limits) <? valueLength)
         || (remaining <? keyLength) || (wrap_u64 (remaining - keyLength) <? valueLength)
    with corruptWAL "mutation key/value lengths exceed bounds" "" offset None ;;
  let keyEnd := offset + keyLength in
  let valueEnd := keyEnd + valueLength in
  let key := slice encoded offset keyEnd in
  reject bool_decide (key = []) || negb (utf8_valid key)
    with corruptWAL "mutation key is empty or invalid UTF-8" "" offset None ;;
  if kind =? 1 then
    if negb (Z.land flags 1 =? 0) then
      Ok (MkEffect ChangePut key (slice encoded keyEnd valueEnd) (Some (time_Unix0 expiryNanos)), valueEnd)
    else
      reject negb (expiryNanos =? 0)
        with corruptWAL "put expiry value is nonzero without its flag" "" offset None ;;
      Ok (MkEffect ChangePut key (slice encoded keyEnd valueEnd) None, valueEnd)
  else if (kind =? 2) || (kind =? 3) then
    reject negb (valueLength =? 0) || negb (flags =? 0) || negb (expiryNanos =? 0)
      with corruptWAL "delete/expire carries a value or expiry" "" offset None ;;
    Ok (MkEffect (if kind =? 2 then ChangeDelete else ChangeExpire) key [] None, valueEnd)
  else Err (corruptWAL "mutation kind is unknown" "" offset None).

Fixpoint decodeEffects (count : nat) (encoded : bytes) (payloadEnd offset : Z) (limits : Limits)
    : result goerror (list Effect * Z) :=
  match count with
  | O => Ok ([], offset)
  | S count =>
      match decodeEffect encoded payloadEnd offset limits with
      | Err e => Err e
      | Ok (effect, offset) =>
          match decodeEffects count encoded payloadEnd offset limits with
          | Err e => Err e
          | Ok (effects, offset) => Ok (effect :: effects, offset)
          end
      end
  end.

Definition DecodeCommitFrame (encoded : bytes) (limits : Limits) : result goerror CommitFrame :=
  reject len encoded <? frameHeaderSize + frameTrailer
    with corruptWAL "commit frame is shorter than its fixed fields" "" 0 None ;;
  reject negb (bool_decide (slice encoded 0 4 = lit "CMIT"))
    with corruptWAL "commit magic does not match CMIT" "" 0 None ;;
  let version := be_decode (slice encoded 4 6) in
  reject negb (version =? storageVersion) with unknownStorageFormat "WAL" version ;;
  reject negb (be_decode (slice encoded 6 8) =? 0)
    with corruptWAL "commit flags are nonzero" "" 0 None ;;
  let total := be_decode (slice encoded 8 12) in
  let payloadLength := be_decode (slice encoded 24 28) in
  reject negb (total =? len encoded)
         || negb (total =? frameHeaderSize + frameTrailer + payloadLength)
         || (wrap_u64 (frameMaximum limits) <? total)
    with corruptWAL "commit frame lengths are inconsistent or exceed limits" "" 0 None ;;
  let count := be_decode (slice encoded 20 24) in
  reject (count =? 0) || (wrap_u64 (MaxBatchOperations limits) <? count) || (payloadLength / effectHeader <? count)
    with corruptWAL "mutation count is outside limits or impossible for payload" "" 0 None ;;
  reject negb (crc32c (slice encoded 0 (len encoded - 4))
                 =? be_decode (slice encoded (len encoded - 4) (len encoded)))
    with corruptWAL "commit frame CRC32C mismatch" "" 0 None ;;
  let payloadEnd := len encoded - frameTrailer in
  match decodeEffects (Z.to_nat count) encoded payloadEnd frameHeaderSize limits with
  | Err e => Err e
  | Ok (effects, offset) =>
      reject negb (offset =? payloadEnd)
        with corruptWAL "mutation payload has trailing bytes" "" offset None ;;
      let commit := MkCommitFrame (be_decode (slice encoded 12 20)) effects in
      match validateCommit commit limits with
      | Some err => Err (corruptWAL "decoded commit violates mutation invariants" "" 0 (Some err))
      | None => Ok commit
      end
  end.

(** ** Well-formed values: what the Go types say of their fields *)

Definition header_wf (h : WALHeader) : Prop :=
  length (WhDatabaseID h) = 16%nat /\ 0 <= WhFirstRevision h <= max_uint64 /\
  0 <= WhGeneration h <= max_uint64.

Definition commit_typed (c : CommitFrame) : Prop := 0 <= FrRevision c <= max_uint64.

(** ** Validation, declaratively *)

Definition effect_wf (limits : Limits) (e : Effect) : Prop :=
  EffKey e <> [] /\ utf8_valid (EffKey e) = true /\ len (EffKey e) <= MaxKeyBytes limits /\
  match EffKind e with
  | ChangePut =>
      len (EffValue e) <= MaxValueBytes limits /\
      match EffExpiresAt e with Some t => - 2 ^ 63 <= t < 2 ^ 63 | None => True end
  | ChangeDelete | ChangeExpire => EffValue e = [] /\ EffExpiresAt e = None
  | ChangeUnknown _ => False
  end.

Record commit_wf (limits : Limits) (c : CommitFrame) : Prop := {
  cw_revision : FrRevision c <> 0;
  cw_nonempty : FrEffects c <> [];
  cw_count : len (FrEffects c) <= MaxBatchOperations limits;
  cw_effects : Forall (effect_wf limits) (FrEffects c);
  cw_keys : NoDup (EffKey <$> FrEffects c)
}.

(** The size of a commit in the log. *)
Fixpoint payload_bytes (effects : list Effect) : Z :=
  match effects with
  | [] => 0
  | e :: rest => effectHeader + len (EffKey e) + len (EffValue e) + payload_bytes rest
  end.

Definition frame_bytes (c : CommitFrame) : Z :=
  frameHeaderSize + payload_bytes (FrEffects c) + frameTrailer.

Lemma validateEffectKind_None limits e :
  EffKey e <> [] -> utf8_valid (EffKey e) = true -> len (EffKey e) <= MaxKeyBytes limits ->
  validateEffectKind limits e = None <-> effect_wf limits e.
Proof.
  intros Hne Hu Hk. unfold validateEffectKind, effect_wf, time_Unix0.
  destruct (EffKind e); [| | |naive_solver].
  - destruct (Z.ltb_spec (MaxValueBytes limits) (len (EffValue e))) as [Hlt|Hge].
    { split; [done|]. intros (_ & _ & _ & ? & _). lia. }
    destruct (EffExpiresAt e) as [t|]; [|naive_solver].
    rewrite <- expiryRepresentable_iff. destruct (Z.eqb_spec (UnixNano t) t); naive_solver.
  - destruct (Z.eqb_spec (len (EffValue e)) 0) as [Hv|Hv]; rewrite len_nil_iff in Hv;
      case_bool_decide as He; simpl; destruct (EffExpiresAt e); naive_solver.
  - destruct (Z.eqb_spec (len (EffValue e)) 0) as [Hv|Hv]; rewrite len_nil_iff in Hv;
      case_bool_decide as He; simpl; destruct (EffExpiresAt e); naive_solver.
Qed.

Lemma validateEffects_None limits effects index seen :
  validateEffects limits effects index seen = None <->
  Forall (effect_wf limits) effects /\ NoDup (EffKey <$> effects) /\
  Forall (fun k => seen !! k = None) (EffKey <$> effects).
Proof.
  revert index seen. induction effects as [|e effects IH]; intros index seen; simpl.
  { split; [intros _; repeat split; constructor|done]. }
  rewrite Forall_cons, NoDup_cons, Forall_cons.
  destruct (decide (EffKey e = [])) as [Hn|Hn].
  { rewrite bool_decide_eq_true_2 by done. split; [done|]. intros ((Hw & _) & _). by destruct Hw. }
  rewrite bool_decide_eq_false_2 by done.
  destruct (utf8_valid (EffKey e)) eqn:Hu; simpl;
    [|split; [done|]; intros ((Hw & _) & _); destruct Hw as (_ & ? & _); congruence].
  destruct (Z.ltb_spec (MaxKeyBytes limits) (len (EffKey e))) as [Hlt|Hge].
  { split; [done|]. intros ((Hw & _) & _). destruct Hw as (_ & _ & ? & _); lia. }
  destruct (seen !! EffKey e) as [p|] eqn:Hs; [split; [done|]; by intros (_ & _ & (? & _))|].
  rewrite <- (validateEffectKind_None limits e) by done.
  destruct (validateEffectKind limits e); [split; [done|]; by intros ((? & _) & _)|].
  rewrite IH, Forall_unseen_insert. tauto.
Qed.

Lemma validateCommit_None limits c : validateCommit c limits = None <-> commit_wf limits c.
Proof.
  unfold validateCommit.
  destruct (Z.eqb_spec (FrRevision c) 0); [split; [done|by intros []]|].
  destruct (Z.eqb_spec (len (FrEffects c)) 0) as [Hn|Hn]; rewrite len_nil_iff in Hn;
    [split; [done|by intros []]|].
  destruct (Z.ltb_spec (MaxBatchOperations limits) (len (FrEffects c)));
    [split; [done|intros []; lia]|].
  rewrite validateEffects_None. split.
  - intros (? & ? & _). by split.
  - intros []. repeat split; try done. apply Forall_true. intros k. apply lookup_empty.
Qed.

(** ** Lengths *)

Lemma payload_bytes_nonneg effects : 0 <= payload_bytes effects.
Proof.
  induction effects as [|e effects IH]; simpl; [lia|].
  pose proof (len_nonneg (EffKey e)). pose proof (len_nonneg (EffValue e)).
  unfold effectHeader. lia.
Qed.

Lemma len_encodeEffect e :
  len (encodeEffect e) = effectHeader + len (EffKey e) + len (EffValue e).
Proof.
  unfold encodeEffect, effectHeader. rewrite !len_app, !len_be_encode, len_zeros.
  destruct (EffExpiresAt e); rewrite ?len_be_encode, ?len_zeros; lia.
Qed.

Lemma len_encodeEffects effects : len (encodeEffects effects) = payload_bytes effects.
Proof.
  induction effects as [|e effects IH]; [done|]. unfold encodeEffects in *.
  rewrite bind_cons, len_app, len_encodeEffect, IH. simpl. lia.
Qed.

Lemma effectPayloadLength_Ok effects :
  payload_bytes effects <= max_uint64 -> effectPayloadLength effects = Ok (payload_bytes effects).
Proof.
  unfold effectPayloadLength. intros Hb.
  enough (forall total, 0 <= total -> total + payload_bytes effects <= max_uint64 ->
    effectPayloadLength_from total effects = Ok (total + payload_bytes effects)) as He
    by (rewrite He by lia; f_equal; lia).
  clear Hb. induction effects as [|e effects IH]; intros total Ht Hb; simpl in *; [f_equal; lia|].
  pose proof (len_nonneg (EffKey e)). pose proof (len_nonneg (EffValue e)).
  pose proof (payload_bytes_nonneg effects). unfold effectHeader in *.
  rewrite (wrap_u64_small (20 + _ + _)) by lia. rewrite wrap_u64_small by lia.
  destruct (Z.ltb_spec (max_uint64 - (20 + len (EffKey e) + len (EffValue e))) total); [lia|].
  rewrite wrap_u64_small by lia. rewrite IH by lia. f_equal. lia.
Qed.

(** ** The header round trip *)

Lemma DecodeWALHeader_encode h encoded :
  header_wf h -> EncodeWALHeader h = Ok encoded ->
  DecodeWALHeader encoded (WhDatabaseID h) = Ok h /\ len encoded = WALHeaderSize.
Proof.
  intros (Hid & Hfirst & Hgen) Henc. unfold EncodeWALHeader in Henc.
  destruct (_ || _) eqn:Hnz; [done|]. go_bool.
  assert (encoded = walHeaderBody h ++ be_encode 4 (crc32c (walHeaderBody h))) as -> by congruence.
  clear Henc.
  assert (len (walHeaderBody h) = 60) as Hbody.
  { unfold walHeaderBody. rewrite !len_app, !len_be_encode, len_zeros.
    unfold len at 2. rewrite Hid. reflexivity. }
  assert (len (walHeaderBody h ++ be_encode 4 (crc32c (walHeaderBody h))) = 64) as Hlen
    by (rewrite len_app, len_be_encode, Hbody; reflexivity).
  split; [|done]. unfold DecodeWALHeader.
  set (body := walHeaderBody h) in *. set (crc := be_encode 4 (crc32c body)) in *.
  assert (slice (body ++ crc) 60 64 = crc) as Hcrc by (subst crc; slice_fields; done).
  assert (slice (body ++ crc) 0 60 = body) as Hhead by (slice_fields; done).
  pass by (rewrite Hlen; done).
  pose proof (fun a b Ha Hb => slice_app_l body crc a b Ha Hb) as Hsl. rewrite Hbody in Hsl.
  rewrite Hcrc, Hhead. rewrite !Hsl by lia. subst body crc. unfold walHeaderBody. slice_fields.
  pass by done. pass by done. pass by done.
  pass by (pose proof (crc32c_range (walHeaderBody h)); unfold walHeaderBody in *;
           rewrite be4_roundtrip, Z.eqb_refl by (unfold max_uint32; lia); done).
  pass by (rewrite bool_decide_eq_true_2 by done; done).
  rewrite !be8_roundtrip by done. pass by (simpl; apply orb_false_iff; done).
  by destruct h.
Qed.

(** The decoder accepts nothing but the encoder's output. *)
Lemma EncodeWALHeader_decode encoded id h :
  DatabaseID_IsZero id = false -> DecodeWALHeader encoded id = Ok h ->
  EncodeWALHeader h = Ok encoded.
Proof.
  intros Hnz Hd. unfold DecodeWALHeader in Hd.
  destruct (Z.eqb_spec (len encoded) WALHeaderSize) as [Hlen|]; [|done]. unfold WALHeaderSize in *.
  repeat match type of Hd with
  | (if ?c then Err _ else _) = Ok _ => destruct c eqn:?; [discriminate Hd|]
  end.
  injection Hd as <-. go_bool. rewrite ?Z.eqb_eq in *. simpl in *. subst id.
  unfold EncodeWALHeader, walHeaderBody. cbn [WhDatabaseID WhFirstRevision WhGeneration].
  pass by (by rewrite Hnz, H, H0).
  rewrite (zeros_slice 16 encoded 44 60) by (done || lia).
  rewrite <- Heqb0, <- Heqb1. replace WALHeaderSize with (be_decode (slice encoded 10 12)).
  rewrite !be_encode_slice by lia. rewrite <- !slice_split by lia.
  rewrite Heqb3, be_encode_slice, <- slice_split by lia.
  by rewrite (slice_all 64) by lia.
Qed.

Lemma DecodeWALHeader_wf encoded id h :
  DecodeWALHeader encoded id = Ok h -> header_wf h /\ WhDatabaseID h = id.
Proof.
  intros Hd. unfold DecodeWALHeader in Hd.
  destruct (Z.eqb_spec (len encoded) WALHeaderSize) as [Hlen|]; [|done]. unfold WALHeaderSize in *.
  repeat match type of Hd with
  | (if ?c then Err _ else _) = Ok _ => destruct c eqn:?; [discriminate Hd|]
  end.
  injection Hd as <-. go_bool. simpl. split; [|done]. unfold header_wf. cbn [WhDatabaseID WhFirstRevision WhGeneration].
  pose proof (len_slice encoded 12 28 ltac:(lia)) as Hl.
  pose proof (be_decode_range (slice encoded 28 36)) as Hr1.
  pose proof (be_decode_range (slice encoded 36 44)) as Hr2.
  rewrite len_slice in Hr1, Hr2 by lia. specialize (Hl ltac:(lia)). unfold len in Hl. unfold max_uint64 in *. lia.
Qed.

(** ** The frame round trip *)

Section frames.
Variable limits : Limits.
Hypothesis limits_fine : limits_ok limits.

Lemma effect_wf_sizes e : effect_wf limits e ->
  len (EffKey e) <= 65536 /\ len (EffValue e) <= 67108864.
Proof.
  intros (_ & _ & Hk & Hv). destruct (limits_ok_fields limits limits_fine) as [(? & ? & _) _].
  split; [lia|]. destruct (EffKind e); [lia| | |done]; destruct Hv as [-> _]; done.
Qed.

(** The fixed fields of an encoded effect, read back at its offset. *)
Lemma effect_fields e pre post :
  effect_wf limits e ->
  let encoded := pre ++ encodeEffect e ++ post in
  byte_at encoded (len pre) = kindByte (EffKind e) /\
  byte_at encoded (len pre + 1) = (if EffExpiresAt e then 1 else 0) /\
  all_zero (slice encoded (len pre + 2) (len pre + 4)) = true /\
  be_decode (slice encoded (len pre + 4) (len pre + 8)) = len (EffKey e) /\
  be_decode (slice encoded (len pre + 8) (len pre + 12)) = len (EffValue e) /\
  wrap_i64 (be_decode (slice encoded (len pre + 12) (len pre + 20))) = default 0 (EffExpiresAt e) /\
  slice encoded (len pre + 20) (len pre + 20 + len (EffKey e)) = EffKey e /\
  slice encoded (len pre + 20 + len (EffKey e)) (len pre + 20 + len (EffKey e) + len (EffValue e))
    = EffValue e.
Proof.
  intros Hwf encoded. destruct (effect_wf_sizes e Hwf) as [Hk Hv].
  pose proof (len_nonneg (EffKey e)). pose proof (len_nonneg (EffValue e)).
  pose proof (len_nonneg pre). pose proof (len_nonneg post).
  assert (len encoded = len pre + 20 + len (EffKey e) + len (EffValue e) + len post) as Hlen.
  { unfold encoded. rewrite !len_app, len_encodeEffect. unfold effectHeader. lia. }
  rewrite !byte_at_decode by lia. unfold encoded, encodeEffect. rewrite <- !app_assoc.
  assert (len (match EffExpiresAt e with
               | Some t => be_encode 8 (wrap_u64 (UnixNano t)) | None => zeros 8 end) = 8) as Hex
    by (destruct (EffExpiresAt e); rewrite ?len_be_encode, ?len_zeros; done).
  slice_fields.
  assert (0 <= kindByte (EffKind e) < 256) by (destruct (EffKind e); simpl; lia).
  rewrite !be4_roundtrip by (unfold max_uint32; lia).
  rewrite !be_decode_encode_small by (simpl; destruct (EffExpiresAt e); lia).
  split_and!; try done.
  destruct (EffExpiresAt e) as [t|] eqn:Ht; simpl; [|by rewrite be_decode_zeros].
  rewrite be8_roundtrip by apply wrap_u64_range. rewrite wrap_i64_wrap_u64. unfold UnixNano.
  destruct Hwf as (_ & _ & _ & Hkind). destruct (EffKind e); [|naive_solver..].
  destruct Hkind as [_ Hrange]. rewrite Ht in Hrange. rewrite (wrap_i64_small t) by done.
  by apply wrap_i64_small.
Qed.

Lemma decodeEffect_encode e pre post payloadEnd :
  effect_wf limits e ->
  len pre + len (encodeEffect e) <= payloadEnd -> payloadEnd < 2 ^ 63 ->
  decodeEffect (pre ++ encodeEffect e ++ post) payloadEnd (len pre) limits =
  Ok (e, len pre + len (encodeEffect e)).
Proof.
  intros Hwf Hend Hint. pose proof (effect_wf_sizes e Hwf) as [Hk Hv].
  destruct (limits_ok_fields limits limits_fine) as [(Hmk & Hmv & _) _].
  pose proof (effect_fields e pre post Hwf) as Hf. cbv zeta in Hf.
  rewrite len_encodeEffect in *. unfold decodeEffect, effectHeader in *.
  destruct Hf as (-> & -> & -> & -> & -> & -> & -> & ->).
  pose proof (len_nonneg (EffKey e)). pose proof (len_nonneg (EffValue e)).
  pose proof (len_nonneg pre).
  destruct Hwf as (Hne & Hu & Hkl & Hkind).
  pass by (apply Z.ltb_ge; lia).
  pass by (destruct (EffExpiresAt e); done).
  assert (len (EffValue e) <= MaxValueBytes limits) as Hvl.
  { destruct (EffKind e); [apply Hkind| | |done]; destruct Hkind as [-> _]; change (len []) with 0; lia. }
  pass by (rewrite !wrap_u64_small by (unfold max_uint64; lia);
           repeat (apply orb_false_iff; split); apply Z.ltb_ge;
           rewrite ?wrap_u64_small by (unfold max_uint64; lia); lia).
  pass by (by rewrite bool_decide_eq_false_2, Hu).
  replace (len pre + 20 + len (EffKey e) + len (EffValue e))
    with (len pre + (20 + len (EffKey e) + len (EffValue e))) by lia.
  destruct e as [kind key value expires]; simpl in *.
  destruct kind; simpl; try done; destruct expires; try naive_solver.
Qed.

Lemma decodeEffects_encode effects pre post payloadEnd :
  Forall (effect_wf limits) effects ->
  len pre + payload_bytes effects <= payloadEnd -> payloadEnd < 2 ^ 63 ->
  decodeEffects (length effects) (pre ++ encodeEffects effects ++ post) payloadEnd (len pre) limits =
  Ok (effects, len pre + payload_bytes effects).
Proof.
  intros Hwf. revert pre. induction Hwf as [|e effects He Hwf IH]; intros pre Hend Hint.
  { simpl. f_equal. f_equal. lia. }
  unfold encodeEffects. rewrite bind_cons, <- app_assoc. fold (encodeEffects effects).
  cbn [decodeEffects length payload_bytes].
  pose proof (payload_bytes_nonneg effects).
  rewrite decodeEffect_encode; [|done|rewrite len_encodeEffect; simpl in Hend; lia|done].
  replace (len pre + len (encodeEffect e)) with (len (pre ++ encodeEffect e)) by (by rewrite len_app).
  rewrite (app_assoc pre (encodeEffect e)), IH.
  - f_equal. f_equal. rewrite len_app, len_encodeEffect. lia.
  - rewrite len_app, len_encodeEffect. simpl in Hend. lia.
  - done.
Qed.

Lemma frameMaximum_batch : frameMaximum limits = MaxBatchBytes limits.
Proof.
  unfold frameMaximum. destruct limits_fine as [_ _ Hb _ _ _].
  destruct (Z.ltb_spec (MaxFrameBytes limits) (MaxBatchBytes limits)); lia.
Qed.

Lemma payload_bytes_bound effects :
  Forall (effect_wf limits) effects -> payload_bytes effects <= len effects * 67174420.
Proof.
  induction 1 as [|e effects He _ IH]; simpl; [done|].
  destruct (effect_wf_sizes e He). rewrite len_cons. unfold effectHeader. lia.
Qed.

(** The frame the encoder produces for a commit it accepts. *)
Definition encodedFrame (c : CommitFrame) : bytes :=
  let body := frameBody c (frame_bytes c) (payload_bytes (FrEffects c)) in
  body ++ be_encode 4 (crc32c body).

Lemma len_frameBody c total payload :
  len (frameBody c total payload) = frameHeaderSize + payload_bytes (FrEffects c).
Proof.
  unfold frameBody, frameHead. rewrite !len_app, !len_be_encode, len_zeros, len_encodeEffects.
  unfold frameHeaderSize. change (len (lit "CMIT")) with 4. lia.
Qed.

Lemma len_encodedFrame c : len (encodedFrame c) = frame_bytes c.
Proof.
  unfold encodedFrame. cbv zeta. rewrite len_app, len_frameBody, len_be_encode.
  unfold frame_bytes, frameTrailer. lia.
Qed.

Lemma EncodeCommitFrame_Ok c encoded :
  EncodeCommitFrame c limits = Ok encoded <->
  commit_wf limits c /\ frame_bytes c <= MaxBatchBytes limits /\ encoded = encodedFrame c.
Proof.
  unfold EncodeCommitFrame. rewrite <- validateCommit_None.
  destruct (validateCommit c limits) eqn:Hv; [naive_solver|].
  apply validateCommit_None in Hv as [_ _ Hcount Heff _].
  pose proof (payload_bytes_bound _ Heff). pose proof (payload_bytes_nonneg (FrEffects c)).
  pose proof (len_nonneg (FrEffects c)).
  destruct (limits_ok_fields limits limits_fine) as [(_ & _ & _ & Hmb & Hmo) _].
  rewrite effectPayloadLength_Ok by (unfold max_uint64; nia).
  rewrite (wrap_u64_small (_ + _ + _)) by (unfold frameHeaderSize, frameTrailer, max_uint64; nia).
  replace (frameHeaderSize + frameTrailer + payload_bytes (FrEffects c)) with (frame_bytes c)
    by (unfold frame_bytes; lia).
  rewrite frameMaximum_batch, wrap_u64_small by (unfold max_uint64; lia).
  destruct (Z.ltb_spec (MaxBatchBytes limits) (frame_bytes c)); simpl.
  { split; [done|]. intros (_ & ? & _). lia. }
  destruct (Z.ltb_spec max_uint32 (frame_bytes c)); [unfold max_uint32 in *; lia|].
  unfold encodedFrame. naive_solver.
Qed.

(** The fixed fields of an encoded frame. *)
Lemma frame_fields c :
  commit_typed c -> len (FrEffects c) <= MaxBatchOperations limits ->
  frame_bytes c <= MaxBatchBytes limits ->
  let encoded := encodedFrame c in
  slice encoded 0 4 = lit "CMIT" /\ be_decode (slice encoded 4 6) = storageVersion /\
  be_decode (slice encoded 6 8) = 0 /\ be_decode (slice encoded 8 12) = frame_bytes c /\
  be_decode (slice encoded 12 20) = FrRevision c /\
  be_decode (slice encoded 20 24) = len (FrEffects c) /\
  be_decode (slice encoded 24 28) = payload_bytes (FrEffects c).
Proof.
  intros Hrev Hops Hbytes encoded. unfold commit_typed in Hrev.
  destruct (limits_ok_fields limits limits_fine) as [(_ & _ & _ & Hmb & Hmo) _].
  pose proof (payload_bytes_nonneg (FrEffects c)). pose proof (len_nonneg (FrEffects c)).
  subst encoded. unfold encodedFrame, frameBody, frameHead. cbv zeta. rewrite <- !app_assoc. slice_fields.
  unfold frame_bytes, frameHeaderSize, frameTrailer in *.
  rewrite be8_roundtrip by done. rewrite !be4_roundtrip by (unfold max_uint32; lia).
  done.
Qed.

Lemma frame_crc c :
  let encoded := encodedFrame c in
  crc32c (slice encoded 0 (len encoded - 4)) = be_decode (slice encoded (len encoded - 4) (len encoded)).
Proof.
  cbv zeta. rewrite len_encodedFrame. unfold encodedFrame. cbv zeta.
  set (body := frameBody _ _ _).
  assert (len body = frame_bytes c - 4) as Hb
    by (unfold body; rewrite len_frameBody; unfold frame_bytes, frameTrailer; lia).
  slice_fields. pose proof (crc32c_range body). rewrite be4_roundtrip; [done|].
  unfold max_uint32. lia.
Qed.

Lemma encodedFrame_split c :
  exists pre crc, len pre = frameHeaderSize /\
    encodedFrame c = pre ++ encodeEffects (FrEffects c) ++ crc.
Proof.
  unfold encodedFrame, frameBody. cbv zeta. rewrite <- !app_assoc. eexists _, _.
  split; [|reflexivity]. unfold frameHead. rewrite !len_app, !len_be_encode, len_zeros. reflexivity.
Qed.

Lemma payload_bytes_min effects : effectHeader * len effects <= payload_bytes effects.
Proof.
  induction effects as [|e effects IH]; simpl; [done|]. rewrite len_cons.
  pose proof (len_nonneg (EffKey e)). pose proof (len_nonneg (EffValue e)). lia.
Qed.

Lemma DecodeCommitFrame_encode c encoded :
  commit_typed c -> EncodeCommitFrame c limits = Ok encoded ->
  DecodeCommitFrame encoded limits = Ok c.
Proof.
  intros Hrev (Hwf & Hbytes & ->)%EncodeCommitFrame_Ok.
  destruct (limits_ok_fields limits limits_fine) as [(_ & _ & _ & Hmb & Hmo) _].
  pose proof Hwf as [Hnz Hne Hcount Heff _]. pose proof (len_nonneg (FrEffects c)).
  pose proof (payload_bytes_nonneg (FrEffects c)) as Hpb.
  pose proof (frame_fields c Hrev Hcount Hbytes) as Hf. pose proof (frame_crc c) as Hcrc.
  cbv zeta in Hf, Hcrc. destruct Hf as (H1 & H2 & H3 & H4 & H5 & H6 & H7).
  unfold DecodeCommitFrame. rewrite H1, H2, H3, H4, H5, H6, H7, Hcrc, len_encodedFrame.
  unfold frame_bytes, frameHeaderSize, frameTrailer, effectHeader in *.
  pass by (apply Z.ltb_ge; lia).
  pass by (by rewrite bool_decide_eq_true_2). pass by done. pass by done.
  pass by (rewrite frameMaximum_batch, wrap_u64_small by (unfold max_uint64; lia);
           rewrite Z.eqb_refl; simpl;
           apply orb_false_iff; split; [apply negb_false_iff, Z.eqb_eq|apply Z.ltb_ge]; lia).
  pass by (rewrite wrap_u64_small by (unfold max_uint64; lia);
           repeat (apply orb_false_iff; split);
           [apply Z.eqb_neq; by rewrite len_nil_iff|apply Z.ltb_ge; lia|];
           pose proof (payload_bytes_min (FrEffects c)); unfold effectHeader in *;
           apply Z.ltb_ge, Z.div_le_lower_bound; lia).
  pass by (by rewrite Z.eqb_refl).
  destruct (encodedFrame_split c) as (pre & crc & Hpre & ->).
  unfold frameHeaderSize in Hpre. replace (Z.to_nat (len (FrEffects c))) with (length (FrEffects c))
    by (unfold len; lia).
  rewrite <- Hpre at 2. rewrite decodeEffects_encode by (done || lia).
  pass by (apply negb_false_iff, Z.eqb_eq; lia).
  destruct c as [rev effects]; simpl in *. by rewrite (proj2 (validateCommit_None _ _) Hwf).
Qed.

(** *** Canonicity: the decoder accepts nothing but the encoder's output *)

Lemma be_encode_byte_at l i :
  0 <= i < len l -> be_encode 1 (byte_at l i) = slice l i (i + 1).
Proof. intros. rewrite byte_at_decode by done. apply be_encode_slice; simpl; lia. Qed.

Lemma flag_byte flags : 0 <= flags < 256 -> Z.ldiff flags 1 = 0 ->
  flags = (if Z.land flags 1 =? 0 then 0 else 1).
Proof.
  intros Hr Hd. apply Z.ldiff_le in Hd; [|lia].
  assert (flags = 0 \/ flags = 1) as [-> | ->] by lia; done.
Qed.

Lemma wrap_i64_decode_zero l a : 0 <= a -> a + 8 <= len l ->
  wrap_i64 (be_decode (slice l a (a + 8))) = 0 -> zeros 8 = slice l a (a + 8).
Proof.
  intros Ha Hl Hz. pose proof (be_decode_range (slice l a (a + 8))) as Hr.
  rewrite len_slice in Hr by lia. replace (a + 8 - a) with 8 in Hr by lia.
  assert (be_decode (slice l a (a + 8)) = 0) as H0.
  { unfold wrap_i64 in Hz. rewrite Z.mod_small in Hz by lia.
    destruct (Z.ltb_spec (be_decode (slice l a (a + 8))) (2 ^ 63)); lia. }
  rewrite <- (be_encode_slice 8 l a (a + 8)), H0 by (simpl; lia). reflexivity.
Qed.

Lemma wrap_u64_wrap_i64_decode l a : 0 <= a -> a + 8 <= len l ->
  wrap_u64 (UnixNano (wrap_i64 (be_decode (slice l a (a + 8))))) = be_decode (slice l a (a + 8)).
Proof.
  intros Ha Hl. pose proof (be_decode_range (slice l a (a + 8))) as Hr.
  rewrite len_slice in Hr by lia. replace (a + 8 - a) with 8 in Hr by lia.
  set (u := be_decode _) in *. unfold UnixNano. rewrite (wrap_i64_small (wrap_i64 u)) by apply wrap_i64_range.
  unfold wrap_u64, wrap_i64. rewrite (Z.mod_small u) by lia.
  destruct (Z.ltb_spec u (2 ^ 63)); [apply Z.mod_small; lia|].
  rewrite <- (Z_mod_plus_full _ 1). rewrite Z.mod_small; lia.
Qed.

Lemma decodeEffect_canonical encoded payloadEnd offset e offset' :
  0 <= offset -> payloadEnd <= len encoded -> payloadEnd < 2 ^ 63 ->
  decodeEffect encoded payloadEnd offset limits = Ok (e, offset') ->
  offset <= offset' <= payloadEnd /\ slice encoded offset offset' = encodeEffect e.
Proof.
  intros Hoff Hpe Hint Hd. unfold decodeEffect, effectHeader in Hd.
  destruct (Z.ltb_spec (payloadEnd - 20) offset); [done|].
  destruct (negb _ || _) eqn:Hg1 in Hd; [done|]. go_bool.
  destruct (_ || _) eqn:Hg2 in Hd; [done|]. go_bool.
  destruct (_ || _) eqn:Hg3 in Hd; [done|]. go_bool.
  rewrite Z.ltb_ge, Z.eqb_eq in *.
  set (kl := be_decode (slice encoded (offset + 4) (offset + 8))) in *.
  set (vl := be_decode (slice encoded (offset + 8) (offset + 12))) in *.
  assert (0 <= kl /\ 0 <= vl) as [Hkl Hvl]
    by (split; apply be_decode_range).
  rewrite (wrap_u64_small (payloadEnd - _)) in * by (unfold max_uint64; lia).
  rewrite (wrap_u64_small (payloadEnd - _ - _)) in * by (unfold max_uint64; lia).
  assert (slice encoded offset (offset + 20 + kl + vl) =
    be_encode 1 (byte_at encoded offset) ++ be_encode 1 (byte_at encoded (offset + 1)) ++ zeros 2
    ++ be_encode 4 (len (slice encoded (offset + 20) (offset + 20 + kl)))
    ++ be_encode 4 (len (slice encoded (offset + 20 + kl) (offset + 20 + kl + vl)))
    ++ slice encoded (offset + 12) (offset + 20)
    ++ slice encoded (offset + 20) (offset + 20 + kl)
    ++ slice encoded (offset + 20 + kl) (offset + 20 + kl + vl)) as Hslice.
  { rewrite !len_slice by lia.
    replace (offset + 20 + kl - (offset + 20)) with kl by lia.
    replace (offset + 20 + kl + vl - (offset + 20 + kl)) with vl by lia.
    rewrite !be_encode_byte_at by lia.
    rewrite (zeros_slice 2 encoded (offset + 2) (offset + 4)) by (done || lia).
    assert (be_encode 4 kl = slice encoded (offset + 4) (offset + 8)) as ->
      by (apply be_encode_slice; simpl; lia).
    assert (be_encode 4 vl = slice encoded (offset + 8) (offset + 12)) as ->
      by (apply be_encode_slice; simpl; lia).
    replace (offset + 1 + 1) with (offset + 2) by lia. by rewrite <- !slice_split by lia. }
  pose proof (flag_byte _ (byte_at_range encoded (offset + 1)) H0) as Hflag.
  pose proof (wrap_i64_decode_zero encoded (offset + 12) ltac:(lia) ltac:(lia)) as Hzero.
  pose proof (wrap_u64_wrap_i64_decode encoded (offset + 12) ltac:(lia) ltac:(lia)) as Hnanos.
  pose proof (be_encode_slice 8 encoded (offset + 12) (offset + 20) ltac:(lia) ltac:(lia) ltac:(lia))
    as Hexp.
  replace (offset + 12 + 8) with (offset + 20) in * by lia.
  destruct (Z.eqb_spec (byte_at encoded offset) 1) as [Hk|Hk].
  { destruct (Z.land (byte_at encoded (offset + 1)) 1 =? 0) eqn:Hl; simpl in Hd.
    - destruct (Z.eqb_spec (wrap_i64 (be_decode (slice encoded (offset + 12) (offset + 20)))) 0);
        [|done]. simplify_eq/=. split; [lia|].
      rewrite Hslice, Hk, Hflag. unfold encodeEffect. cbn [EffKind EffKey EffValue EffExpiresAt kindByte].
      by rewrite Hzero.
    - simplify_eq/=. split; [lia|]. rewrite Hslice, Hk, Hflag. unfold encodeEffect, time_Unix0.
      cbn [EffKind EffKey EffValue EffExpiresAt kindByte]. by rewrite Hnanos, Hexp. }
  destruct (_ || _) eqn:Hk23 in Hd; [|done]. destruct (_ || _) eqn:Hg4 in Hd; [done|].
  go_bool. rewrite Z.eqb_eq in *. injection Hd as <- <-. split; [lia|].
  rewrite Hslice. unfold encodeEffect. cbn [EffKind EffKey EffValue EffExpiresAt].
  replace (slice encoded (offset + 20 + kl) (offset + 20 + kl + vl)) with (@nil byte)
    by (symmetry; apply len_nil_iff; rewrite len_slice; lia).
  rewrite Hzero by done. f_equal; [|by f_equal; congruence].
  apply orb_true_iff in Hk23 as [Hk2%Z.eqb_eq|Hk3%Z.eqb_eq]; [by rewrite Hk2|by rewrite Hk3].
Qed.

Lemma decodeEffects_canonical count encoded payloadEnd offset effects offset' :
  0 <= offset <= payloadEnd -> payloadEnd <= len encoded -> payloadEnd < 2 ^ 63 ->
  decodeEffects count encoded payloadEnd offset limits = Ok (effects, offset') ->
  length effects = count /\ offset <= offset' <= payloadEnd /\
  slice encoded offset offset' = encodeEffects effects.
Proof.
  intros Hoff Hpe Hint. revert offset effects offset' Hoff.
  induction count as [|count IH]; intros offset effects offset' Hoff Hd; simpl in Hd.
  { simplify_eq. split_and!; [done|lia|lia|]. unfold slice. rewrite Z.sub_diag. done. }
  destruct (decodeEffect _ _ _ _) as [[e mid]|] eqn:He; [|done].
  destruct (decodeEffects _ _ _ _ _) as [[rest fin]|] eqn:Hr; [|done]. simplify_eq.
  apply decodeEffect_canonical in He as [Hmid Hs]; [|lia|lia|lia].
  apply IH in Hr as (<- & Hfin & Hs'); [|lia].
  split_and!; [done|lia|lia|]. rewrite (slice_split _ _ mid) by lia. by rewrite Hs, Hs'.
Qed.

Lemma EncodeCommitFrame_decode encoded c :
  DecodeCommitFrame encoded limits = Ok c ->
  commit_typed c /\ EncodeCommitFrame c limits = Ok encoded.
Proof.
  intros Hd. unfold DecodeCommitFrame, frameHeaderSize, frameTrailer in Hd.
  destruct (Z.ltb_spec (len encoded) (28 + 4)) as [|Hlen]; [done|].
  repeat match type of Hd with
  | (if ?c then Err _ else _) = Ok _ => destruct c eqn:?; [discriminate Hd|]
  end.
  go_bool. rewrite ?Z.eqb_eq, ?Z.ltb_ge in *.
  destruct (limits_ok_fields limits limits_fine) as [(_ & _ & _ & Hmb & Hmo) _].
  rewrite frameMaximum_batch, wrap_u64_small in * by (unfold max_uint64; lia).
  destruct (decodeEffects _ _ _ _ _) as [[effects fin]|] eqn:He; [|done].
  destruct (Z.eqb_spec fin (len encoded - 4)) as [-> |]; [|done]. simpl in Hd.
  destruct (validateCommit _ _) eqn:Hv; [done|]. apply validateCommit_None in Hv. simplify_eq.
  apply decodeEffects_canonical in He as (Hcount & _ & Hs); [|lia|lia|lia].
  pose proof (be_decode_range (slice encoded 20 24)) as Hcr.
  assert (len effects = be_decode (slice encoded 20 24)) as Hle by (unfold len; lia).
  assert (payload_bytes effects = len encoded - 32) as Hpay.
  { rewrite <- len_encodeEffects, <- Hs, len_slice; lia. }
  assert (frame_bytes (MkCommitFrame (be_decode (slice encoded 12 20)) effects) = len encoded) as Hfb
    by (unfold frame_bytes, frameHeaderSize, frameTrailer; simpl; lia).
  split.
  { pose proof (be_decode_range (slice encoded 12 20)) as Hr. unfold commit_typed. simpl.
    rewrite len_slice in Hr by lia. unfold max_uint64. simpl in Hr. lia. }
  apply EncodeCommitFrame_Ok. split; [done|]. split; [lia|].
  unfold encodedFrame, frameBody, frameHead. cbv zeta. cbn [FrRevision FrEffects].
  rewrite Hfb, Hpay, Hle, <- Hs, <- Heqb, <- Heqb0.
  rewrite (zeros_slice 2 encoded 6 8) by (try lia; by apply all_zero_decode).
  replace (len encoded - 32) with (be_decode (slice encoded 24 28)) by lia.
  replace (be_encode 4 (len encoded)) with (slice encoded 8 12)
    by (rewrite <- H2; symmetry; apply be_encode_slice; simpl; lia).
  rewrite !be_encode_slice by lia. rewrite <- !app_assoc, <- !slice_split by lia.
  rewrite Heqb4, be_encode_slice, <- !slice_split by lia. symmetry. apply slice_full.
Qed.
End frames.

Lemma encode_accepted limits c :
  limits_ok limits ->
  is_ok (EncodeCommitFrame c limits) = true <->
  commit_wf limits c /\ frame_bytes c <= MaxBatchBytes limits.
Proof.
  intros Hl. pose proof (EncodeCommitFrame_Ok limits Hl c) as Hok. split.
  - destruct (EncodeCommitFrame c limits) as [b|e]; [|done]. intros _.
    destruct (proj1 (Hok b) eq_refl) as (? & ? & _). done.
  - intros [Hwf Hb]. by rewrite (proj2 (Hok (encodedFrame c))).
Qed.

(** ** Sample data *)

Module Sample.
Definition id : DatabaseID := z2b <$> [1; 2; 3; 4; 5; 6; 7; 8; 9; 10; 11; 12; 13; 14; 15; 16].
Definition header : WALHeader := MkWALHeader id 1 1.
Definition put : Effect := MkEffect ChangePut (lit "jobs/1") (lit "queued") (Some 1700000000000000000).
Definition put2 : Effect := MkEffect ChangePut (lit "jobs/2") (lit "done") None.
Definition delete1 : Effect := MkEffect ChangeDelete (lit "jobs/1") [] None.
Definition commit1 : CommitFrame := MkCommitFrame 1 [put; put2].
Definition commit2 : CommitFrame := MkCommitFrame 2 [delete1].

Lemma header_fine : header_wf header.
Proof. by vm_compute. Qed.

Lemma commit1_typed : commit_typed commit1.
Proof. by vm_compute. Qed.

Lemma commit2_typed : commit_typed commit2.
Proof. by vm_compute. Qed.
End Sample.

(** ** Properties *)

(** A header decodes to what was encoded, and only headers the encoder
    wrote decode: for a database id that is not zero, [DecodeWALHeader] accepts
    exactly the encodings of well-formed headers of that database. *)
Theorem header_codec encoded id h :
  length id = 16%nat -> DatabaseID_IsZero id = false ->
  DecodeWALHeader encoded id = Ok h <->
  header_wf h /\ WhDatabaseID h = id /\ EncodeWALHeader h = Ok encoded.
Proof.
  intros Hl Hz. split.
  - intros Hd. split_and!; [| |by eapply EncodeWALHeader_decode].
    + by eapply DecodeWALHeader_wf.
    + by eapply DecodeWALHeader_wf.
  - intros (Hwf & <- & He). by eapply DecodeWALHeader_encode.
Qed.

Lemma header_codec_witness :
  exists encoded, EncodeWALHeader Sample.header = Ok encoded /\
    (DecodeWALHeader encoded Sample.id = Ok Sample.header <->
     header_wf Sample.header /\ WhDatabaseID Sample.header = Sample.id /\
     EncodeWALHeader Sample.header = Ok encoded).
Proof. eexists. split; [reflexivity|]. by apply header_codec. Defined.

(** C30: The commit-frame codec is exact under any valid limits:
    [DecodeCommitFrame] accepts a byte string as the frame of a commit if and
    only if [EncodeCommitFrame] produces that byte string for that commit.
    Decoding is the inverse of encoding, and no other byte string (padding,
    trailing bytes, another order, a different checksum) is accepted. *)
Theorem frame_codec limits encoded c :
  limits_ok limits ->
  DecodeCommitFrame encoded limits = Ok c <->
  commit_typed c /\ EncodeCommitFrame c limits = Ok encoded.
Proof.
  intros Hl. split.
  - by apply EncodeCommitFrame_decode.
  - intros [Hty He]. by eapply DecodeCommitFrame_encode.
Qed.

Lemma frame_codec_witness :
  DecodeCommitFrame (encodedFrame Sample.commit1) DefaultOptions = Ok Sample.commit1 <->
  commit_typed Sample.commit1 /\
  EncodeCommitFrame Sample.commit1 DefaultOptions = Ok (encodedFrame Sample.commit1).
Proof. apply frame_codec. apply DefaultOptions_ok. Defined.

(** A commit is encoded if and only if it is well formed (revision and
    effect count in range, valid distinct keys, values within the limits,
    representable expiries) and its frame fits the batch limit. *)
Theorem encode_accepts limits c :
  limits_ok limits ->
  is_ok (EncodeCommitFrame c limits) = true <->
  commit_wf limits c /\ frame_bytes c <= MaxBatchBytes limits.
Proof. apply encode_accepted. Qed.

Lemma encode_accepts_witness :
  is_ok (EncodeCommitFrame Sample.commit1 DefaultOptions) = true <->
  commit_wf DefaultOptions Sample.commit1 /\
  frame_bytes Sample.commit1 <= MaxBatchBytes DefaultOptions.
Proof. apply encode_accepts. apply DefaultOptions_ok. Defined.
