(* ===== verification/WalScan.v ===== *)
(** * WalScan: reading a log back (internal/persist/recovery.go)

    [ScanWAL] and [validateFramePrefix].  An [io.Reader] is the bytes it still
    delivers and the error it ends with ([None] is the end of the file). *)

From stdpp Require Import base list strings sorting.
From Stdlib Require Import ZArith Lia.
From S2P Require Import Prelude.
From S2P Require Import Bytes.
From S2P Require Import Errors.
From S2P Require Import Checksum.
From S2P Require Import ApiTypes.
From S2P Require Import StorageErrors.
From S2P Require Import WalCodec.

Local Open Scope Z_scope.
Local Open Scope go_scope.

(** ** Readers *)

Record Reader := MkReader { rd_data : bytes; rd_fail : error }.

(** [io.ReadFull(reader, buf)] with [len(buf) = n]: the bytes read, the error
    and the reader after. *)
Definition ReadFull (n : Z) (r : Reader) : bytes * error * Reader :=
  if n <=? len (rd_data r)
  then (slice (rd_data r) 0 n, None,
        MkReader (slice (rd_data r) n (len (rd_data r))) (rd_fail r))
  else (rd_data r,
        Some match rd_fail r with
             | Some e => e
             | None => ErrSys (if len (rd_data r) =? 0 then SysEOF else SysUnexpectedEOF)
             end,
        MkReader [] (rd_fail r)).

(** ** The scan *)

Record TailTruncation := MkTail {
  TailCode : string;
  TailFile : string;
  TailOldSize : Z;
  TailNewSize : Z;
  TailLastComplete : Revision
}.

Record WALReplay := MkReplay {
  RpHeader : WALHeader;
  RpCommits : list CommitFrame;
  RpRecovered : Revision;
  RpCompleteOffset : Z;
  RpTail : option TailTruncation
}.

(** The bytes of a frame header that are there must be those of a frame. *)
Definition validateFramePrefix (prefix : bytes) (maximum maximumOperations : Z) : error :=
  if (4 <=? len prefix) && negb (bool_decide (slice prefix 0 4 = lit "CMIT"))
  then Some (corruptWAL "commit magic does not match CMIT" "WAL" 0 None)
  else if (6 <=? len prefix) && negb (be_decode (slice prefix 4 6) =? storageVersion)
  then Some (unknownStorageFormat "WAL" (be_decode (slice prefix 4 6)))
  else if (8 <=? len prefix) && negb (be_decode (slice prefix 6 8) =? 0)
  then Some (corruptWAL "commit flags are nonzero" "WAL" 0 None)
  else
    let total := be_decode (slice prefix 8 12) in
    if (12 <=? len prefix)
       && ((total <? frameHeaderSize + frameTrailer) || (wrap_u64 maximum <? total))
    then Some (corruptWAL "declared commit frame size is outside bounds" "WAL" 0 None)
    else
      let count := be_decode (slice prefix 20 24) in
      if (24 <=? len prefix) && (be_decode (slice prefix 12 20) =? 0)
      then Some (corruptWAL "commit revision is zero" "WAL" 0 None)
      else if (24 <=? len prefix) && ((count =? 0) || (wrap_u64 maximumOperations <? count))
      then Some (corruptWAL "declared mutation count is outside configured bounds" "WAL" 0 None)
      else
        let payload := be_decode (slice prefix 24 28) in
        if (28 <=? len prefix) && negb (total =? frameHeaderSize + frameTrailer + payload)
        then Some (corruptWAL "declared commit and payload lengths disagree" "WAL" 0 None)
        else if (28 <=? len prefix) && (payload / effectHeader <? count)
        then Some (corruptWAL "mutation count cannot fit in declared payload" "WAL" 0 None)
        else None.

Definition isEOF (e : goerror) : bool := errors_Is e SysEOF.
Definition isUnexpectedEOF (e : goerror) : bool := errors_Is e SysUnexpectedEOF.

Definition replayTail (result : WALReplay) (physicalSize offset : Z) : WALReplay :=
  MkReplay (RpHeader result) (RpCommits result) (RpRecovered result) (RpCompleteOffset result)
    (Some (MkTail "TAIL_TRUNCATED" "WAL" physicalSize offset (RpRecovered result))).

(** One iteration of the loop of [ScanWAL]: it returns, or goes round again
    with a new result, reader and offset. *)
Definition scan_step (physicalSize reservedEnd : Z) (limits : Limits)
    (result : WALReplay) (reader : Reader) (offset : Z)
    : goerror + WALReplay + (WALReplay * Reader * Z) :=
  let '(prefix, readErr, reader) := ReadFull frameHeaderSize reader in
  match readErr with
  | Some e =>
      if (len prefix =? 0) && isEOF e then inl (inr result)
      else if negb (isEOF e) && negb (isUnexpectedEOF e)
      then inl (inl (ioFailure "wal_read_frame_header" "WAL" e))
      else match validateFramePrefix prefix (frameMaximum limits) (MaxBatchOperations limits) with
           | Some err => inl (inl (withWALContext err "WAL" offset))
           | None => inl (inr (replayTail result physicalSize offset))
           end
  | None =>
      match validateFramePrefix prefix (frameMaximum limits) (MaxBatchOperations limits) with
      | Some err => inl (inl (withWALContext err "WAL" offset))
      | None =>
          let total := be_decode (slice prefix 8 12) in
          let '(rest, readErr, reader) := ReadFull (total - frameHeaderSize) reader in
          match readErr with
          | Some e =>
              if negb (isEOF e) && negb (isUnexpectedEOF e)
              then inl (inl (ioFailure "wal_read_frame" "WAL" e))
              else inl (inr (replayTail result physicalSize offset))
          | None =>
              match DecodeCommitFrame (prefix ++ rest) limits with
              | Err err => inl (inl (withWALContext err "WAL" offset))
              | Ok commit =>
                  if FrRevision commit <=? RpRecovered result
                  then inl (inl (corruptWAL "commit revisions are not strictly increasing" "WAL" offset None))
                  else if reservedEnd <? FrRevision commit
                  then inl (inl (revisionRangeError reservedEnd
                         "WAL commit exceeds the durable revision reservation" None))
                  else inr (MkReplay (RpHeader result) (RpCommits result ++ [commit])
                              (FrRevision commit) (offset + total) None, reader, offset + total)
              end
          end
      end
  end.

(** The loop, with fuel; [scan_loop_enough] shows that one unit per byte left
    is more than enough. *)
Fixpoint scan_loop (fuel : nat) (physicalSize reservedEnd : Z) (limits : Limits)
    (replay : WALReplay) (reader : Reader) (offset : Z) : option (result goerror WALReplay) :=
  match fuel with
  | O => None
  | S fuel =>
      match scan_step physicalSize reservedEnd limits replay reader offset with
      | inl (inl e) => Some (Err e)
      | inl (inr r) => Some (Ok r)
      | inr (replay, reader, offset) =>
          scan_loop fuel physicalSize reservedEnd limits replay reader offset
      end
  end.

Definition ScanWAL (reader : Reader) (physicalSize : Z) (expectedID : DatabaseID)
    (afterRevision reservedEnd : Revision) (limits : Limits) : result goerror WALReplay :=
  let '(headerBytes, readErr, reader) := ReadFull WALHeaderSize reader in
  match readErr with
  | Some e => Err (corruptWAL "WAL header is incomplete" "WAL" 0 (Some e))
  | None =>
      match DecodeWALHeader headerBytes expectedID with
      | Err e => Err e
      | Ok header =>
          reject (afterRevision =? max_uint64)
                 || negb (WhFirstRevision header =? wrap_u64 (afterRevision + 1))
            with corruptWAL "WAL first revision does not immediately follow the snapshot" "WAL" 0 None ;;
          let initial := MkReplay header [] afterRevision WALHeaderSize None in
          match scan_loop (S (length (rd_data reader))) physicalSize reservedEnd limits
                  initial reader WALHeaderSize with
          | Some r => r
          | None => Err (ErrText "unreachable")
          end
      end
  end.

(** ** Lemmas on readers *)

Lemma ReadFull_app x y n e :
  len x = n -> ReadFull n (MkReader (x ++ y) e) = (x, None, MkReader y e).
Proof.
  intros Hx. unfold ReadFull. simpl. pose proof (len_nonneg y).
  destruct (Z.leb_spec n (len (x ++ y))); [|rewrite len_app in *; lia].
  rewrite (slice_here n) by (done || lia). rewrite (slice_skip n) by (done || lia).
  rewrite len_app, (slice_all (len y)); [done|done|lia|lia].
Qed.

Lemma ReadFull_short x n :
  len x < n -> x <> [] ->
  ReadFull n (MkReader x None) = (x, Some (ErrSys SysUnexpectedEOF), MkReader [] None).
Proof.
  intros Hx Hne. unfold ReadFull. simpl. destruct (Z.leb_spec n (len x)); [lia|].
  destruct (Z.eqb_spec (len x) 0) as [Hz|]; [|done]. by apply len_nil_iff in Hz.
Qed.

Lemma ReadFull_eof n : 0 < n -> ReadFull n (MkReader [] None) = ([], Some (ErrSys SysEOF), MkReader [] None).
Proof. intros. unfold ReadFull. simpl. destruct (Z.leb_spec n (len (@nil byte))); [|done].
  unfold len in *. simpl in *. lia. Qed.

Lemma ReadFull_Ok n r x r' :
  0 <= n -> ReadFull n r = (x, None, r') -> rd_data r = x ++ rd_data r' /\ len x = n /\ rd_fail r' = rd_fail r.
Proof.
  intros Hn. unfold ReadFull. destruct (Z.leb_spec n (len (rd_data r))); [|done].
  intros [= <- <-]. simpl. rewrite slice_0_app by lia. rewrite len_slice by lia.
  split_and!; [done|lia|done].
Qed.

(** ** The loop terminates *)

Lemma scan_step_progress physicalSize reservedEnd limits result reader offset result' reader' offset' :
  scan_step physicalSize reservedEnd limits result reader offset = inr (result', reader', offset') ->
  (length (rd_data reader') < length (rd_data reader))%nat.
Proof.
  unfold scan_step. destruct (ReadFull frameHeaderSize reader) as [[prefix [e|]] r1] eqn:H1.
  { destruct (_ && _); [done|]. destruct (_ && _); [done|].
    destruct (validateFramePrefix _ _ _); done. }
  destruct (validateFramePrefix _ _ _); [done|].
  destruct (ReadFull (be_decode (slice prefix 8 12) - frameHeaderSize) r1)
    as [[rest [e|]] r2] eqn:H2; [destruct (_ && _); done|].
  destruct (DecodeCommitFrame _ _); [|done].
  destruct (_ <=? _); [done|]. destruct (_ <? _); [done|]. intros [= <- <- <-].
  apply ReadFull_Ok in H1 as (Hd1 & Hl1 & _); [|done].
  assert (length (rd_data r2) <= length (rd_data r1))%nat.
  { unfold ReadFull in H2. destruct (_ <=? _); [|done]. injection H2 as <- <-. simpl.
    unfold slice. rewrite length_take, length_drop. lia. }
  rewrite Hd1, length_app. unfold len, frameHeaderSize in Hl1. lia.
Qed.

Lemma scan_loop_enough physicalSize reservedEnd limits fuel result reader offset :
  (length (rd_data reader) < fuel)%nat ->
  exists r, scan_loop fuel physicalSize reservedEnd limits result reader offset = Some r.
Proof.
  revert result reader offset. induction fuel as [|fuel IH]; intros result reader offset Hf; [lia|].
  simpl. destruct (scan_step _ _ _ _ _ _) as [[e|r]|[[result' reader'] offset']] eqn:Hs; eauto.
  apply IH. apply scan_step_progress in Hs. lia.
Qed.

(** ** What a log file holds *)

(** The frames of the commits, one after the other. *)
Definition encodedFrames (commits : list CommitFrame) : bytes := commits ≫= encodedFrame.

(** A commit that [Append] can have written. *)
Definition loggable (limits : Limits) (c : CommitFrame) : Prop :=
  commit_typed c /\ commit_wf limits c /\ frame_bytes c <= MaxBatchBytes limits.

(** Revisions increase strictly from [after] and stay within the reservation. *)
Fixpoint revisions_from (after reservedEnd : Revision) (commits : list CommitFrame) : Prop :=
  match commits with
  | [] => True
  | c :: rest =>
      after < FrRevision c <= reservedEnd /\ revisions_from (FrRevision c) reservedEnd rest
  end.

(** The revision after the last commit. *)
Definition last_revision (after : Revision) (commits : list CommitFrame) : Revision :=
  foldl (fun _ c => FrRevision c) after commits.

Lemma revisions_from_app after reservedEnd l k :
  revisions_from after reservedEnd (l ++ k) <->
  revisions_from after reservedEnd l /\ revisions_from (last_revision after l) reservedEnd k.
Proof.
  revert after. induction l as [|c l IH]; intros after; simpl; [tauto|].
  rewrite IH. unfold last_revision. simpl. tauto.
Qed.

Lemma last_revision_snoc after l c : last_revision after (l ++ [c]) = FrRevision c.
Proof. unfold last_revision. by rewrite foldl_app. Qed.

Lemma revisions_from_ge after reservedEnd l : revisions_from after reservedEnd l ->
  after <= last_revision after l /\ forall c, c ∈ l -> after < FrRevision c <= last_revision after l.
Proof.
  revert after. induction l as [|c l IH]; intros after; simpl.
  { intros _. split; [done|]. by intros c []%elem_of_nil. }
  intros [Hc Hl]. destruct (IH _ Hl) as [Hge Hin]. unfold last_revision in *. simpl. split; [lia|].
  intros c' [->|Hc']%elem_of_cons; [lia|]. specialize (Hin c' Hc'). lia.
Qed.

Lemma revisions_from_mono after bound bound' cs : bound <= bound' ->
  revisions_from after bound cs -> revisions_from after bound' cs.
Proof.
  intros Hle. revert after. induction cs as [|c cs IH]; intros after; [done|]. intros [Hc Hcs]. split; [lia|by apply IH].
Qed.

Lemma revisions_from_tight after bound cs :
  revisions_from after bound cs -> revisions_from after (last_revision after cs) cs.
Proof.
  revert after. induction cs as [|c cs IH]; intros after; [done|]. intros [Hc Hcs]. split; [|by apply IH].
  destruct (revisions_from_ge _ _ _ Hcs) as [? _]. unfold last_revision in *. simpl. lia.
Qed.

Lemma last_revision_bound after reservedEnd cs : revisions_from after reservedEnd cs -> after <= reservedEnd ->
  last_revision after cs <= reservedEnd.
Proof.
  revert after. induction cs as [|c cs IH]; intros after; simpl; [done|]. intros [Hc Hcs] Ha.
  unfold last_revision in *. simpl. apply IH; [done|lia].
Qed.

(** A proper prefix of the frame of some loggable commit. *)
Definition torn_frame (limits : Limits) (partial : bytes) : Prop :=
  exists c rest, loggable limits c /\ encodedFrame c = partial ++ rest /\ rest <> [].

Definition tail_of (physicalSize offset : Z) (last : Revision) (partial : bytes) : option TailTruncation :=
  if len partial =? 0 then None
  else Some (MkTail "TAIL_TRUNCATED" "WAL" physicalSize offset last).

(** What is left of a log once its torn tail is cut off. *)
Definition cut_tail (data : bytes) (tail : option TailTruncation) : bytes :=
  match tail with None => data | Some t => slice data 0 (TailNewSize t) end.

Section scan.
Variable limits : Limits.
Hypothesis limits_fine : limits_ok limits.

Lemma loggable_encode c : loggable limits c -> EncodeCommitFrame c limits = Ok (encodedFrame c).
Proof. intros (_ & Hwf & Hb). by apply EncodeCommitFrame_Ok. Qed.

Lemma frame_bytes_min c : frameHeaderSize + frameTrailer <= frame_bytes c.
Proof. pose proof (payload_bytes_nonneg (FrEffects c)). unfold frame_bytes. lia. Qed.

(** The bytes that are there of a frame header pass the prefix check. *)
Lemma validateFramePrefix_frame c x y :
  loggable limits c -> encodedFrame c = x ++ y ->
  validateFramePrefix x (frameMaximum limits) (MaxBatchOperations limits) = None.
Proof.
  intros (Hty & Hwf & Hb) Hx. pose proof Hwf as [Hnz Hne Hcount _ _].
  pose proof (frame_fields limits limits_fine c Hty Hcount Hb) as Hf. cbv zeta in Hf.
  destruct Hf as (F1 & F2 & F3 & F4 & F5 & F6 & F7). rewrite Hx in *.
  destruct (limits_ok_fields limits limits_fine) as [(_ & _ & _ & Hmb & Hmo) _].
  pose proof (frame_bytes_min c). pose proof (payload_bytes_min (FrEffects c)).
  assert (len (FrEffects c) <> 0) by (by rewrite len_nil_iff). pose proof (len_nonneg (FrEffects c)).
  assert (forall a b, 0 <= a -> b <= len x -> slice x a b = slice (x ++ y) a b) as Hs
    by (intros; symmetry; by apply slice_app_l).
  unfold validateFramePrefix. rewrite frameMaximum_batch by done.
  rewrite !wrap_u64_small by (unfold max_uint64; lia).
  destruct (Z.leb_spec 4 (len x)); simpl;
    [rewrite Hs, F1, bool_decide_eq_true_2 by (done || lia); simpl|];
  (destruct (Z.leb_spec 6 (len x)); simpl; [rewrite Hs, F2 by lia; simpl|]);
  (destruct (Z.leb_spec 8 (len x)); simpl; [rewrite Hs, F3 by lia; simpl|]);
  (destruct (Z.leb_spec 12 (len x)); simpl;
     [rewrite (Hs 8 12), F4 by lia;
      rewrite (proj2 (Z.ltb_ge (frame_bytes c) _)), (proj2 (Z.ltb_ge (MaxBatchBytes limits) _)) by lia;
      simpl|]);
  (destruct (Z.leb_spec 24 (len x)); simpl;
     [rewrite (Hs 12 20), F5, (Hs 20 24), F6 by lia;
      rewrite (proj2 (Z.eqb_neq (FrRevision c) 0)), (proj2 (Z.eqb_neq (len (FrEffects c)) 0)),
        (proj2 (Z.ltb_ge (MaxBatchOperations limits) _)) by (done || lia); simpl|]);
  (destruct (Z.leb_spec 28 (len x)); simpl;
     [rewrite (Hs 24 28), F7 by lia|]); try lia; try done.
  rewrite (proj2 (Z.eqb_eq (frame_bytes c) _)) by (unfold frame_bytes; lia). simpl.
  rewrite (proj2 (Z.ltb_ge _ _)); [done|].
  unfold effectHeader in *. apply Z.div_le_lower_bound; lia.
Qed.

(** One complete frame is read, decoded and recorded. *)
Lemma scan_step_frame physicalSize reservedEnd result c rest offset :
  loggable limits c -> RpRecovered result < FrRevision c <= reservedEnd ->
  scan_step physicalSize reservedEnd limits result (MkReader (encodedFrame c ++ rest) None) offset =
  inr (MkReplay (RpHeader result) (RpCommits result ++ [c]) (FrRevision c)
         (offset + frame_bytes c) None, MkReader rest None, offset + frame_bytes c).
Proof.
  intros Hlog Hrev. pose proof Hlog as (Hty & Hwf & Hb). pose proof (frame_bytes_min c) as Hmin.
  set (f := encodedFrame c).
  assert (len f = frame_bytes c) as Hlen by apply len_encodedFrame.
  unfold frameHeaderSize, frameTrailer in Hmin.
  assert (f = slice f 0 28 ++ slice f 28 (len f)) as Hsplit by (symmetry; apply slice_0_app; lia).
  assert (len (slice f 0 28) = 28) as Hl1 by (apply len_slice; lia).
  assert (len (slice f 28 (len f)) = frame_bytes c - 28) as Hl2 by (rewrite len_slice; lia).
  assert (be_decode (slice (slice f 0 28) 8 12) = frame_bytes c) as Htotal.
  { destruct Hwf. destruct (frame_fields limits limits_fine c Hty) as (_ & _ & _ & F4 & _); [done..|].
    rewrite <- F4. fold f. by rewrite slice_prefix_of by lia. }
  unfold scan_step, frameHeaderSize. replace (f ++ rest) with (slice f 0 28 ++ slice f 28 (len f) ++ rest)
    by (by rewrite app_assoc, <- Hsplit).
  rewrite ReadFull_app by done. rewrite (validateFramePrefix_frame c _ _ Hlog Hsplit).
  rewrite Htotal, ReadFull_app by done. rewrite <- Hsplit.
  rewrite (DecodeCommitFrame_encode limits limits_fine c) by (done || by apply loggable_encode).
  rewrite (proj2 (Z.leb_gt _ _)), (proj2 (Z.ltb_ge _ _)) by lia. done.
Qed.

Lemma scan_step_torn physicalSize reservedEnd result partial offset :
  torn_frame limits partial \/ partial = [] ->
  scan_step physicalSize reservedEnd limits result (MkReader partial None) offset =
  inl (inr (if len partial =? 0 then result else replayTail result physicalSize offset)).
Proof.
  intros [(c & rest & Hlog & Hsplit & Hrest)| ->]; [|done].
  destruct (decide (partial = [])) as [->|Hne]; [done|].
  assert (len partial <> 0) by (by rewrite len_nil_iff).
  assert (len rest <> 0) by (by rewrite len_nil_iff).
  pose proof (len_nonneg partial). pose proof (len_nonneg rest).
  rewrite (proj2 (Z.eqb_neq (len partial) 0)) by done.
  pose proof (validateFramePrefix_frame c _ _ Hlog Hsplit) as Hv.
  assert (len partial + len rest = frame_bytes c) as Hlen
    by (rewrite <- len_app, <- Hsplit; apply len_encodedFrame).
  unfold scan_step. destruct (Z.ltb_spec (len partial) frameHeaderSize) as [Hlt|Hge].
  { rewrite ReadFull_short by done.
    rewrite (proj2 (Z.eqb_neq (len partial) 0)) by done. simpl. by rewrite Hv. }
  unfold frameHeaderSize in *. pose proof Hlog as (Hty & Hwf & Hb).
  rewrite <- (slice_0_app partial 28) by lia.
  assert (len (slice partial 0 28) = 28) as Hl1 by (apply len_slice; lia).
  assert (len (slice partial 28 (len partial)) = len partial - 28) as Hl2 by (rewrite len_slice; lia).
  rewrite ReadFull_app by done.
  rewrite (validateFramePrefix_frame c (slice partial 0 28) (slice partial 28 (len partial) ++ rest) Hlog)
    by (rewrite Hsplit, app_assoc, slice_0_app by lia; done).
  assert (be_decode (slice (slice partial 0 28) 8 12) = frame_bytes c) as ->.
  { destruct Hwf. destruct (frame_fields limits limits_fine c Hty) as (_ & _ & _ & F4 & _); [done..|].
    rewrite <- F4, Hsplit, slice_app_l by lia. f_equal. apply slice_prefix_of; lia. }
  unfold ReadFull. simpl. rewrite Hl2.
  destruct (Z.leb_spec (frame_bytes c - 28) (len partial - 28)); [lia|].
  destruct (len partial - 28 =? 0); done.
Qed.

Lemma scan_loop_log physicalSize reservedEnd commits partial fuel result offset :
  Forall (loggable limits) commits -> revisions_from (RpRecovered result) reservedEnd commits ->
  torn_frame limits partial \/ partial = [] -> RpTail result = None ->
  (length (encodedFrames commits ++ partial) < fuel)%nat -> RpCompleteOffset result = offset ->
  scan_loop fuel physicalSize reservedEnd limits result
    (MkReader (encodedFrames commits ++ partial) None) offset =
  let last := last_revision (RpRecovered result) commits in
  let fin := offset + len (encodedFrames commits) in
  Some (Ok (MkReplay (RpHeader result) (RpCommits result ++ commits) last fin
              (tail_of physicalSize fin last partial))).
Proof.
  intros Hlog. revert fuel result offset.
  induction Hlog as [|c commits Hc Hlog IH]; intros fuel result offset Hrev Htorn Htail Hfuel Hoff.
  - destruct fuel as [|fuel]; [lia|]. simpl. rewrite scan_step_torn by done.
    unfold tail_of. rewrite app_nil_r, Z.add_0_r. subst offset.
    destruct result; simpl in *. subst. by destruct (len partial =? 0).
  - destruct fuel as [|fuel]; [lia|]. destruct Hrev as [Hr Hrev].
    assert (encodedFrames (c :: commits) = encodedFrame c ++ encodedFrames commits) as Hcons by done.
    rewrite Hcons in *. rewrite <- !app_assoc in *. cbn [scan_loop]. rewrite scan_step_frame by done.
    rewrite IH; [|done|done|done| |done].
    + cbv zeta. rewrite len_app, len_encodedFrame, Z.add_assoc.
      cbn [RpHeader RpCommits RpRecovered]. by rewrite <- app_assoc.
    + rewrite length_app in Hfuel. pose proof (frame_bytes_min c) as Hmin.
      pose proof (len_encodedFrame c) as Hl. unfold len, frameHeaderSize, frameTrailer in *. lia.
Qed.

(** Cutting a log anywhere leaves whole frames and at most one torn one;
    every frame that ends before the cut is among the whole ones. *)
Lemma cut_frames commits n :
  Forall (loggable limits) commits -> 0 <= n <= len (encodedFrames commits) ->
  exists k partial,
    slice (encodedFrames commits) 0 n = encodedFrames (take k commits) ++ partial /\
    (torn_frame limits partial \/ partial = []) /\
    forall j, len (encodedFrames (take j commits)) <= n -> take j commits `prefix_of` take k commits.
Proof.
  intros Hlog. revert n. induction Hlog as [|c commits Hc Hlog IH]; intros n Hn.
  { exists O, []. simpl. split_and!; [|by right|intros [|j] _; done].
    change (len (encodedFrames [])) with 0 in Hn. replace n with 0 by lia. done. }
  assert (forall l, encodedFrames (c :: l) = encodedFrame c ++ encodedFrames l) as Hcons by done.
  rewrite Hcons in *. set (f := encodedFrame c) in *. rewrite len_app in Hn.
  pose proof (frame_bytes_min c) as Hmin. pose proof (len_encodedFrame c) as Hlf. fold f in Hlf.
  unfold frameHeaderSize, frameTrailer in Hmin. pose proof (len_nonneg (encodedFrames commits)).
  destruct (Z.ltb_spec n (len f)) as [Hlt|Hge].
  - exists O, (slice f 0 n). rewrite slice_app_l by lia. split_and!; [done| |].
    + left. exists c, (slice f n (len f)). split_and!; [done|by rewrite slice_0_app by lia|].
      intros Hnil. apply (f_equal len) in Hnil. rewrite len_slice in Hnil by lia.
      change (len []) with 0 in Hnil. lia.
    + intros [|j] Hj; [done|]. exfalso. change (take (S j) (c :: commits)) with (c :: take j commits) in Hj.
      rewrite Hcons, len_app in Hj. fold f in Hj.
      pose proof (len_nonneg (encodedFrames (take j commits))). lia.
  - destruct (IH (n - len f)) as (k & partial & Hs & Ht & Hk); [lia|].
    exists (S k), partial. split_and!; [|done|].
    + rewrite (slice_split _ 0 (len f)), (slice_here (len f)) by lia.
      rewrite (slice_skip (len f)), Z.sub_diag, Hs by lia.
      change (take (S k) (c :: commits)) with (c :: take k commits).
      rewrite Hcons. by rewrite <- app_assoc.
    + intros [|j] Hj; [apply prefix_nil|].
      change (take (S j) (c :: commits)) with (c :: take j commits) in *.
      change (take (S k) (c :: commits)) with (c :: take k commits).
      rewrite Hcons, len_app in Hj. fold f in Hj. apply prefix_cons, Hk. lia.
Qed.

Lemma revisions_from_take after reservedEnd commits k :
  revisions_from after reservedEnd commits -> revisions_from after reservedEnd (take k commits).
Proof.
  revert after k. induction commits as [|c commits IH]; intros after [|k]; simpl; try done.
  intros [? ?]. split; [done|]. by apply IH.
Qed.

(** A log image: the header and the frames of the commits. *)
Definition log_image (header : bytes) (commits : list CommitFrame) : bytes :=
  header ++ encodedFrames commits.

Section image.
Variables (h : WALHeader) (header : bytes).
Variables (physicalSize : Z) (reservedEnd : Revision).
Hypothesis h_wf : header_wf h.
Hypothesis h_encoded : EncodeWALHeader h = Ok header.

Lemma ScanWAL_image commits partial :
  Forall (loggable limits) commits ->
  revisions_from (WhFirstRevision h - 1) reservedEnd commits ->
  torn_frame limits partial \/ partial = [] ->
  ScanWAL (MkReader (log_image header commits ++ partial) None) physicalSize (WhDatabaseID h)
    (WhFirstRevision h - 1) reservedEnd limits =
  let last := last_revision (WhFirstRevision h - 1) commits in
  let fin := WALHeaderSize + len (encodedFrames commits) in
  Ok (MkReplay h commits last fin (tail_of physicalSize fin last partial)).
Proof.
  intros Hlog Hrev Htorn. destruct (DecodeWALHeader_encode h header h_wf h_encoded) as [Hdec Hlen].
  unfold ScanWAL, log_image. rewrite <- app_assoc, ReadFull_app, Hdec by done.
  destruct h_wf as (_ & Hfirst & _).
  assert (WhFirstRevision h <> 0) as Hnz.
  { unfold EncodeWALHeader in h_encoded. destruct (_ || _) eqn:Hg in h_encoded; [done|].
    go_bool. by apply Z.eqb_neq. }
  replace (WhFirstRevision h - 1 + 1) with (WhFirstRevision h) by lia.
  rewrite wrap_u64_small by done.
  pass by (rewrite Z.eqb_refl, (proj2 (Z.eqb_neq _ _)) by lia; done).
  rewrite scan_loop_log by (done || simpl; lia). done.
Qed.

Lemma ScanWAL_cut commits n :
  Forall (loggable limits) commits ->
  revisions_from (WhFirstRevision h - 1) reservedEnd commits ->
  WALHeaderSize <= n <= len (log_image header commits) ->
  exists k tail,
    ScanWAL (MkReader (slice (log_image header commits) 0 n) None) physicalSize (WhDatabaseID h)
      (WhFirstRevision h - 1) reservedEnd limits =
    Ok (MkReplay h (take k commits) (last_revision (WhFirstRevision h - 1) (take k commits))
          (len (log_image header (take k commits))) tail) /\
    cut_tail (slice (log_image header commits) 0 n) tail = log_image header (take k commits) /\
    forall j, len (log_image header (take j commits)) <= n -> take j commits `prefix_of` take k commits.
Proof.
  intros Hlog Hrev Hn. destruct (DecodeWALHeader_encode h header h_wf h_encoded) as [_ Hlen].
  unfold log_image in *. rewrite len_app in Hn.
  destruct (cut_frames commits (n - WALHeaderSize)) as (k & partial & Hs & Ht & Hk); [done|lia|].
  assert (slice (header ++ encodedFrames commits) 0 n = (header ++ encodedFrames (take k commits)) ++ partial) as ->.
  { rewrite (slice_split _ 0 WALHeaderSize), (slice_here WALHeaderSize) by (done || unfold WALHeaderSize in *; lia).
    by rewrite (slice_skip WALHeaderSize), Z.sub_diag, Hs, app_assoc by (done || lia). }
  exists k. eexists. split_and!.
  - rewrite len_app, Hlen.
    apply (ScanWAL_image (take k commits) partial); [by apply Forall_take| |done].
    by apply revisions_from_take.
  - unfold tail_of, cut_tail. destruct (Z.eqb_spec (len partial) 0) as [Hz|]; simpl.
    + apply len_nil_iff in Hz as ->. by rewrite app_nil_r.
    + apply (slice_here (WALHeaderSize + len (encodedFrames (take k commits)))); [rewrite len_app; lia|done|done].
  - intros j Hj. apply Hk. rewrite len_app, Hlen in Hj. lia.
Qed.
End image.

(** *** Soundness: what the scan returns is what the file holds *)

Lemma loggable_decode encoded c :
  DecodeCommitFrame encoded limits = Ok c -> loggable limits c /\ encoded = encodedFrame c.
Proof.
  intros Hd. destruct (EncodeCommitFrame_decode limits limits_fine encoded c Hd) as [Hty He].
  apply EncodeCommitFrame_Ok in He as (Hwf & Hb & ->); [|done]. done.
Qed.

Lemma scan_step_inr physicalSize reservedEnd result reader offset result' reader' offset' :
  scan_step physicalSize reservedEnd limits result reader offset = inr (result', reader', offset') ->
  exists c, loggable limits c /\ RpRecovered result < FrRevision c <= reservedEnd /\
    rd_data reader = encodedFrame c ++ rd_data reader' /\ offset' = offset + frame_bytes c /\
    result' = MkReplay (RpHeader result) (RpCommits result ++ [c]) (FrRevision c) offset' None.
Proof.
  unfold scan_step. destruct (ReadFull frameHeaderSize reader) as [[prefix [e|]] r1] eqn:H1.
  { destruct (_ && _); [done|]. destruct (_ && _); [done|].
    destruct (validateFramePrefix _ _ _); done. }
  destruct (validateFramePrefix _ _ _) eqn:Hv; [done|].
  destruct (ReadFull (be_decode (slice prefix 8 12) - frameHeaderSize) r1)
    as [[rest [e|]] r2] eqn:H2; [destruct (_ && _); done|].
  destruct (DecodeCommitFrame _ _) as [c|] eqn:Hd; [|done].
  destruct (Z.leb_spec (FrRevision c) (RpRecovered result)); [done|].
  destruct (Z.ltb_spec reservedEnd (FrRevision c)); [done|]. intros [= <- <- <-].
  apply ReadFull_Ok in H1 as (Hd1 & Hl1 & _); [|done].
  apply loggable_decode in Hd as [Hlog Heq].
  pose proof Hlog as (Hty & Hwf & Hb). destruct Hwf.
  destruct (frame_fields limits limits_fine c Hty) as (_ & _ & _ & F4 & _); [done..|].
  rewrite <- Heq, slice_app_l in F4 by (unfold frameHeaderSize in Hl1; lia).
  pose proof (frame_bytes_min c). rewrite F4 in *.
  apply ReadFull_Ok in H2 as (Hd2 & _ & _); [|unfold frameHeaderSize, frameTrailer in *; lia].
  exists c. split_and!; try done. by rewrite <- Heq, Hd1, Hd2, app_assoc.
Qed.

Lemma scan_step_inl physicalSize reservedEnd result reader offset r :
  RpTail result = None ->
  scan_step physicalSize reservedEnd limits result reader offset = inl (inr r) ->
  (rd_data reader = [] /\ r = result) \/
  (exists tail, r = MkReplay (RpHeader result) (RpCommits result) (RpRecovered result)
     (RpCompleteOffset result) (Some tail) /\ TailNewSize tail = offset).
Proof.
  intros Ht. unfold scan_step.
  destruct (ReadFull frameHeaderSize reader) as [[prefix [e|]] r1] eqn:H1.
  - destruct ((len prefix =? 0) && isEOF e) eqn:Hz.
    { intros [= <-]. left. split; [|done]. go_bool. unfold ReadFull in H1.
      destruct (_ <=? _); simplify_eq. by apply len_nil_iff, Z.eqb_eq. }
    clear Hz. destruct (_ && _); [done|]. destruct (validateFramePrefix _ _ _); [done|].
    intros [= <-]. right. by eexists.
  - destruct (validateFramePrefix _ _ _); [done|].
    destruct (ReadFull (be_decode (slice prefix 8 12) - frameHeaderSize) r1)
      as [[rest [e|]] r2] eqn:H2.
    + destruct (_ && _); [done|]. intros [= <-]. right. by eexists.
    + destruct (DecodeCommitFrame _ _); [|done]. destruct (_ <=? _); [done|].
      by destruct (_ <? _).
Qed.

Lemma scan_loop_sound physicalSize reservedEnd fuel result reader offset r :
  RpTail result = None -> RpCompleteOffset result = offset ->
  scan_loop fuel physicalSize reservedEnd limits result reader offset = Some (Ok r) ->
  exists commits rest,
    rd_data reader = encodedFrames commits ++ rest /\ Forall (loggable limits) commits /\
    revisions_from (RpRecovered result) reservedEnd commits /\
    RpHeader r = RpHeader result /\ RpCommits r = RpCommits result ++ commits /\
    RpRecovered r = last_revision (RpRecovered result) commits /\
    RpCompleteOffset r = offset + len (encodedFrames commits) /\
    match RpTail r with
    | None => rest = []
    | Some tail => TailNewSize tail = RpCompleteOffset r
    end.
Proof.
  revert result reader offset. induction fuel as [|fuel IH]; intros result reader offset Ht Ho; [done|].
  simpl. destruct (scan_step _ _ _ _ _ _) as [[e|r']|[[result' reader'] offset']] eqn:Hs; [done| |].
  - intros [= ->]. exists [], (rd_data reader).
    apply scan_step_inl in Hs as [[Hd ->]|(tail & -> & Hn)]; [| |done];
      rewrite ?app_nil_r; simpl; rewrite ?app_nil_r, ?Z.add_0_r.
    + rewrite Ht. split_and!; done.
    + split_and!; try done. congruence.
  - intros Hl. apply scan_step_inr in Hs as (c & Hlog & Hr & Hd & -> & ->).
    apply IH in Hl as (commits & rest & Hd' & Hlogs & Hrev & Hh & Hc & Hl' & Ho' & Htail); [|done|done].
    exists (c :: commits), rest. unfold encodedFrames. rewrite bind_cons. fold (encodedFrames commits).
    cbn [RpHeader RpCommits RpRecovered RpCompleteOffset RpTail] in *. rewrite len_app, len_encodedFrame. split_and!; try done.
    + by rewrite <- app_assoc, <- Hd', <- Hd.
    + by constructor.
    + by rewrite Hc, <- app_assoc.
    + lia.
Qed.

Lemma ScanWAL_sound reader physicalSize id after reservedEnd r :
  DatabaseID_IsZero id = false ->
  ScanWAL reader physicalSize id after reservedEnd limits = Ok r ->
  exists header rest,
    EncodeWALHeader (RpHeader r) = Ok header /\
    rd_data reader = log_image header (RpCommits r) ++ rest /\
    WhFirstRevision (RpHeader r) = wrap_u64 (after + 1) /\
    Forall (loggable limits) (RpCommits r) /\
    revisions_from after reservedEnd (RpCommits r) /\
    RpRecovered r = last_revision after (RpCommits r) /\
    RpCompleteOffset r = len (log_image header (RpCommits r)) /\
    match RpTail r with
    | None => rest = []
    | Some tail => TailNewSize tail = RpCompleteOffset r
    end.
Proof.
  intros Hnz. unfold ScanWAL. destruct (ReadFull WALHeaderSize reader) as [[hb [e|]] r1] eqn:H1; [done|].
  destruct (DecodeWALHeader hb id) as [h|] eqn:Hdec; [|done].
  destruct (_ || _) eqn:Hg; [done|]. go_bool. rewrite Z.eqb_eq in *.
  destruct (scan_loop _ _ _ _ _ _ _) as [[r'|]|] eqn:Hl; [|done|done]. intros [= ->].
  apply scan_loop_sound in Hl as (commits & rest & Hd & Hlog & Hrev & Hh & Hc & Hrec & Ho & Ht); [|done|done].
  apply ReadFull_Ok in H1 as (Hd1 & Hl1 & _); [|done]. simpl in *.
  exists hb, rest. rewrite Hh, Hc. unfold log_image. rewrite len_app, Hl1, <- app_assoc, <- Hd.
  split_and!; try done. by eapply EncodeWALHeader_decode.
Qed.
End scan.

(** ** Properties *)

(** C31: What a scan accepts is a log.  If [ScanWAL] succeeds on any input, the
    input starts with the canonical image of the header and of the recovered
    commits, each of which is valid under the limits; their revisions increase
    strictly from the snapshot's and stay within the reservation; the complete
    offset is where that image ends, and without a reported tail nothing
    follows it. *)
Theorem scan_sound limits reader physicalSize id after reservedEnd r :
  limits_ok limits -> DatabaseID_IsZero id = false ->
  ScanWAL reader physicalSize id after reservedEnd limits = Ok r ->
  exists header rest,
    EncodeWALHeader (RpHeader r) = Ok header /\
    rd_data reader = log_image header (RpCommits r) ++ rest /\
    WhFirstRevision (RpHeader r) = wrap_u64 (after + 1) /\
    Forall (loggable limits) (RpCommits r) /\
    revisions_from after reservedEnd (RpCommits r) /\
    RpRecovered r = last_revision after (RpCommits r) /\
    RpCompleteOffset r = len (log_image header (RpCommits r)) /\
    match RpTail r with
    | None => rest = []
    | Some tail => TailNewSize tail = RpCompleteOffset r
    end.
Proof. intros Hl. by apply ScanWAL_sound. Qed.

Module SampleImage.
Definition bytes_of : bytes :=
  match EncodeWALHeader Sample.header with
  | Ok header => log_image header [Sample.commit1; Sample.commit2]
  | Err _ => []
  end.
Definition replay : WALReplay :=
  MkReplay Sample.header [Sample.commit1] 1 158 (Some (MkTail "TAIL_TRUNCATED" "WAL" 200 158 1)).

Lemma commits_loggable : Forall (loggable DefaultOptions) [Sample.commit1; Sample.commit2].
Proof.
  assert (forall c, commit_typed c -> is_ok (EncodeCommitFrame c DefaultOptions) = true ->
    loggable DefaultOptions c) as Hc.
  { intros c Hty Hok. split; [done|]. by apply (encode_accepted _ _ DefaultOptions_ok). }
  apply Forall_cons; split; [|apply Forall_singleton]; by apply Hc; vm_compute.
Qed.
End SampleImage.

Lemma scan_sound_witness :
  exists header rest,
    EncodeWALHeader (RpHeader SampleImage.replay) = Ok header /\
    slice SampleImage.bytes_of 0 200 = log_image header (RpCommits SampleImage.replay) ++ rest /\
    WhFirstRevision (RpHeader SampleImage.replay) = wrap_u64 (0 + 1) /\
    Forall (loggable DefaultOptions) (RpCommits SampleImage.replay) /\
    revisions_from 0 1000 (RpCommits SampleImage.replay) /\
    RpRecovered SampleImage.replay = last_revision 0 (RpCommits SampleImage.replay) /\
    RpCompleteOffset SampleImage.replay = len (log_image header (RpCommits SampleImage.replay)) /\
    match RpTail SampleImage.replay with
    | None => rest = []
    | Some tail => TailNewSize tail = RpCompleteOffset SampleImage.replay
    end.
Proof.
  apply (scan_sound DefaultOptions (MkReader (slice SampleImage.bytes_of 0 200) None) 200 Sample.id 0 1000).
  - apply DefaultOptions_ok.
  - reflexivity.
  - vm_compute. reflexivity.
Defined.

(** C32: A log cut anywhere after its header is still a log: the scan of any
    such prefix of the image of valid commits succeeds and recovers a prefix of
    them that includes every commit whose frame lies wholly before the cut. *)
Theorem scan_cut limits h header physicalSize reservedEnd commits n :
  limits_ok limits -> header_wf h -> EncodeWALHeader h = Ok header ->
  Forall (loggable limits) commits ->
  revisions_from (WhFirstRevision h - 1) reservedEnd commits ->
  WALHeaderSize <= n <= len (log_image header commits) ->
  exists k tail,
    ScanWAL (MkReader (slice (log_image header commits) 0 n) None) physicalSize (WhDatabaseID h)
      (WhFirstRevision h - 1) reservedEnd limits =
    Ok (MkReplay h (take k commits) (last_revision (WhFirstRevision h - 1) (take k commits))
          (len (log_image header (take k commits))) tail) /\
    forall j, len (log_image header (take j commits)) <= n -> take j commits `prefix_of` take k commits.
Proof.
  intros. edestruct ScanWAL_cut as (k & tail & Hscan & _ & Hk); [done..|]. by exists k, tail.
Qed.

Lemma scan_cut_witness :
  exists header k tail,
    ScanWAL (MkReader (slice (log_image header [Sample.commit1; Sample.commit2]) 0 158) None) 158
      Sample.id 0 1000 DefaultOptions =
    Ok (MkReplay Sample.header (take k [Sample.commit1; Sample.commit2])
          (last_revision 0 (take k [Sample.commit1; Sample.commit2]))
          (len (log_image header (take k [Sample.commit1; Sample.commit2]))) tail) /\
    forall j, len (log_image header (take j [Sample.commit1; Sample.commit2])) <= 158 ->
      take j [Sample.commit1; Sample.commit2] `prefix_of` take k [Sample.commit1; Sample.commit2].
Proof.
  eexists. apply (scan_cut DefaultOptions Sample.header _ 158 1000).
  - apply DefaultOptions_ok.
  - apply Sample.header_fine.
  - vm_compute. reflexivity.
  - apply SampleImage.commits_loggable.
  - vm_compute. intuition congruence.
  - vm_compute. split; congruence.
Defined.

(** C40: The scan terminates: on every input, one round of the loop per byte
    that follows the header suffices, so the fuel of [ScanWAL] never runs out. *)
Theorem scan_terminates physicalSize reservedEnd limits replay reader offset :
  exists r, scan_loop (S (length (rd_data reader))) physicalSize reservedEnd limits replay reader offset
            = Some r.
Proof. apply scan_loop_enough. lia. Qed.
