(* ===== verification/WalLog.v ===== *)
(** * WalLog: the append-only log of internal/persist/wal.go

    [WAL] with [Append], [Barrier], [Close], [CreateWAL] and
    [OpenWALForAppend], over the [bufio.Writer] it writes through and the
    filesystem of [FaultFS].  The invariant ties the bytes of the file and of
    the buffer to the list of appended commits; from it follows what a restart
    finds after a crash at any moment. *)

From stdpp Require Import base gmap list strings pretty.
From Stdlib Require Import ZArith Lia.
From S2P Require Import Prelude.
From S2P Require Import Bytes.
From S2P Require Import Errors.
From S2P Require Import ApiTypes.
From S2P Require Import FaultFS.
From S2P Require Import StorageErrors.
From S2P Require Import WalCodec.
From S2P Require Import WalScan.

Local Open Scope Z_scope.

(** ** [bufio.Writer] *)

Record Bufio := MkBufio { bf_buf : bytes; bf_size : Z; bf_err : error }.

Definition PointWALHeaderCreate : string := "wal.header_create".
Definition PointWALHeaderWrite : string := "wal.header_write".
Definition PointWALFrameWrite : string := "wal.frame_write".
Definition PointWALBufferFlush : string := "wal.buffer_flush".
Definition PointWALFileSync : string := "wal.file_sync".
Definition PointOpen : string := "filesystem.open".

Record WAL := MkWAL {
  wal_file : option positive;
  wal_buffer : Bufio;
  wal_path : string;
  wal_header : WALHeader;
  wal_limits : Limits;
  wal_last : Revision;
  wal_durable : Revision;
  wal_pending : bool;
  wal_failed : bool
}.

Definition setFailed (w : WAL) : WAL :=
  MkWAL (wal_file w) (wal_buffer w) (wal_path w) (wal_header w) (wal_limits w)
    (wal_last w) (wal_durable w) (wal_pending w) true.
Definition setBuffer (b : Bufio) (w : WAL) : WAL :=
  MkWAL (wal_file w) b (wal_path w) (wal_header w) (wal_limits w)
    (wal_last w) (wal_durable w) (wal_pending w) (wal_failed w).

Section wal.
Context {E : Type} `{OSEnv E}.
Implicit Types s : FSState E.

Definition bufio_Flush (i : positive) (bs : Bufio * FSState E) : error * (Bufio * FSState E) :=
  let '(b, s) := bs in
  match bf_err b with
  | Some err => (Some err, (b, s))
  | None =>
      if len (bf_buf b) =? 0 then (None, (b, s))
      else
        let '(n, e, s) := file_Write i (bf_buf b) s in
        let e := match e with
                 | Some err => Some err
                 | None => if n <? len (bf_buf b) then Some (ErrSys SysShortWrite) else None
                 end in
        match e with
        | Some err =>
            (Some err, (MkBufio (slice (bf_buf b) n (len (bf_buf b))) (bf_size b) (Some err), s))
        | None => (None, (MkBufio [] (bf_size b) None, s))
        end
  end.

(** The loop of [bufio.Writer.Write]: [p] does not fit into the buffer. *)
Fixpoint bufio_spill (fuel : nat) (i : positive) (p : bytes) (nn : Z) (bs : Bufio * FSState E)
    : option (Z * bytes * (Bufio * FSState E)) :=
  let '(b, s) := bs in
  if (bf_size b - len (bf_buf b) <? len p) && negb (bool_decide (bf_err b <> None)) then
    match fuel with
    | O => None
    | S fuel =>
        if len (bf_buf b) =? 0 then
          let '(n, e, s) := file_Write i p s in
          bufio_spill fuel i (slice p n (len p)) (nn + n) (MkBufio (bf_buf b) (bf_size b) e, s)
        else
          let n := Z.min (bf_size b - len (bf_buf b)) (len p) in
          let b := MkBufio (bf_buf b ++ slice p 0 n) (bf_size b) (bf_err b) in
          let '(_, bs) := bufio_Flush i (b, s) in
          bufio_spill fuel i (slice p n (len p)) (nn + n) bs
    end
  else Some (nn, p, bs).

(** The loop runs at most twice: [bufio_spill_total]. *)
Definition bufio_Write (i : positive) (p : bytes) (bs : Bufio * FSState E)
    : Z * error * (Bufio * FSState E) :=
  match bufio_spill 2 i p 0 bs with
  | None => (0, Some (ErrSys SysShortWrite), bs)
  | Some (nn, p, (b, s)) =>
      match bf_err b with
      | Some err => (nn, Some err, (b, s))
      | None => (nn + len p, None, (MkBufio (bf_buf b ++ p) (bf_size b) None, s))
      end
  end.

(** ** Opening *)

Definition CreateWAL (path : string) (header : WALHeader) (bufferSize : Z) (limits : Limits) s
    : result goerror WAL * FSState E :=
  if bufferSize <=? 0
  then (Err (corruptWAL "WAL buffer size must be positive" (filepath_Base path) 0 None), s)
  else if negb (String.eqb (filepath_Base path) (walFileName (WhFirstRevision header)))
  then (Err (corruptWAL "WAL filename does not match its first revision" (filepath_Base path) 0 None), s)
  else match EncodeWALHeader header with
  | Err e => (Err e, s)
  | Ok encoded =>
      let (r, s) := OpenFile PointWALHeaderCreate path (MkFlags true true) s in
      match r with
      | Err e => (Err (ioFailure "wal_header_create" (filepath_Base path) e), s)
      | Ok i =>
          let '(e, (_, s)) := writeFull PointWALHeaderWrite (fileWriter i) encoded (tt, s) in
          match e with
          | Some err =>
              let (_, s) := file_Close i s in
              (Err (ioFailure "wal_header_write" (filepath_Base path) err), s)
          | None =>
              let (e, s) := Sync PointWALFileSync i s in
              match e with
              | Some err =>
                  let (_, s) := file_Close i s in
                  (Err (ioFailure "wal_header_sync" (filepath_Base path) err), s)
              | None =>
                  (Ok (MkWAL (Some i) (MkBufio [] bufferSize None) (filepath_Base path) header limits
                         (wrap_u64 (WhFirstRevision header - 1)) 0 false false), s)
              end
          end
      end
  end.

(** [file.Stat] and the reads of the scan may fail; a failing read delivers
    some of the bytes first. *)
Definition fileReader (i : positive) s : Reader * FSState E :=
  let (e, s) := os_fail SysRead s in
  let (k, env) := env_transfer (fs_env s) (len (ino_data (inode i s))) in
  let s := setEnv env s in
  match e with
  | None => (MkReader (ino_data (inode i s)) None, s)
  | Some err => (MkReader (slice (ino_data (inode i s)) 0 (Z.max 0 k)) (Some err), s)
  end.

Definition OpenWALForAppend (path : string) (expected : WALHeader)
    (lastRevision durableThrough : Revision) (bufferSize : Z) (limits : Limits) s
    : result goerror WAL * FSState E :=
  let base := filepath_Base path in
  if (bufferSize <=? 0) || (lastRevision <? wrap_u64 (WhFirstRevision expected - 1))
     || (lastRevision <? durableThrough)
  then (Err (corruptWAL "recovered WAL append state is invalid" base 0 None), s)
  else
    let (r, s) := OpenFile PointOpen path (MkFlags false false) s in
    match r with
    | Err e => (Err (ioFailure "wal_open_append" base e), s)
    | Ok i =>
        let fail (err : goerror) s : result goerror WAL * FSState E :=
          let (_, s) := file_Close i s in (Err err, s) in
        let (e, s) := os_fail SysStat s in
        match e with
        | Some err => fail (ioFailure "wal_stat_append" base err) s
        | None =>
            let size := len (ino_data (inode i s)) in
            let (reader, s) := fileReader i s in
            match ScanWAL reader size (WhDatabaseID expected) (wrap_u64 (WhFirstRevision expected - 1))
                    lastRevision limits with
            | Err e => fail (withWALContext e base 0) s
            | Ok replay =>
                if bool_decide (RpTail replay <> None) || negb (bool_decide
                     ((WhDatabaseID (RpHeader replay), WhFirstRevision (RpHeader replay),
                       WhGeneration (RpHeader replay)) =
                      (WhDatabaseID expected, WhFirstRevision expected, WhGeneration expected)))
                   || negb (RpRecovered replay =? lastRevision)
                then fail (corruptWAL "WAL append state does not match recovered authority" base 0 None) s
                else
                  let (e, s) := os_fail SysSeek s in
                  match e with
                  | Some err => fail (ioFailure "wal_seek_append" base err) s
                  | None =>
                      (Ok (MkWAL (Some i) (MkBufio [] bufferSize None) base expected limits
                             lastRevision durableThrough false false), s)
                  end
            end
        end
    end.

(** ** Appending

    [wal_file] is [None] after [Close]; no caller uses the log then, and the
    model answers with [os.ErrClosed]. *)

Definition WAL_Append (commit : CommitFrame) (ws : WAL * FSState E) : error * (WAL * FSState E) :=
  let '(w, s) := ws in
  if wal_failed w
  then (Some (walStorageDegraded "wal_unavailable" (wal_last w) (wal_durable w) None), (w, s))
  else if (FrRevision commit <? WhFirstRevision (wal_header w)) || (FrRevision commit <=? wal_last w)
  then (Some (corruptWAL "commit revision is below the WAL start or not increasing" (wal_path w) 0 None),
        (w, s))
  else match EncodeCommitFrame commit (wal_limits w), wal_file w with
  | Err e, _ => (Some e, (w, s))
  | Ok _, None => (Some (ErrSys SysClosed), (w, s))
  | Ok encoded, Some i =>
      let '(e, (b, s)) := writeFull PointWALFrameWrite (bufio_Write i) encoded (wal_buffer w, s) in
      let w := setBuffer b w in
      match e with
      | Some err =>
          (Some (walStorageDegraded "wal_frame_write" (wal_last w) (wal_durable w) (Some err)),
           (setFailed w, s))
      | None =>
          (None, (MkWAL (wal_file w) (wal_buffer w) (wal_path w) (wal_header w) (wal_limits w)
                    (FrRevision commit) (wal_durable w) true (wal_failed w), s))
      end
  end.

(** [fs.Flush(point, buffer)]. *)
Definition Flush (point : string) (i : positive) (bs : Bufio * FSState E)
    : error * (Bufio * FSState E) :=
  let '(b, s) := bs in
  let (e, s) := visit point Before s in
  match e with
  | Some err => (Some err, (b, s))
  | None =>
      let '(e, (b, s)) := bufio_Flush i (b, s) in
      match e with
      | Some err => (Some err, (b, s))
      | None => let (e, s) := visit point After s in (e, (b, s))
      end
  end.

Definition WAL_Barrier (ws : WAL * FSState E) : error * (WAL * FSState E) :=
  let '(w, s) := ws in
  if wal_failed w
  then (Some (walStorageDegraded "wal_unavailable" (wal_last w) (wal_durable w) None), (w, s))
  else match wal_file w with
  | None => (Some (ErrSys SysClosed), (w, s))
  | Some i =>
    let '(e, (b, s)) := Flush PointWALBufferFlush i (wal_buffer w, s) in
    let w := setBuffer b w in
    match e with
    | Some err =>
        (Some (walStorageDegraded "wal_buffer_flush" (wal_last w) (wal_durable w) (Some err)),
         (setFailed w, s))
    | None =>
        let (e, s) := Sync PointWALFileSync i s in
        match e with
        | Some err =>
            (Some (walStorageDegraded "wal_file_sync" (wal_last w) (wal_durable w) (Some err)),
             (setFailed w, s))
        | None =>
            (None, (MkWAL (wal_file w) (wal_buffer w) (wal_path w) (wal_header w) (wal_limits w)
                      (wal_last w) (wal_last w) false (wal_failed w), s))
        end
    end
  end.

Definition WAL_Close (ws : WAL * FSState E) : error * (WAL * FSState E) :=
  let '(w, s) := ws in
  match wal_file w with
  | None => (None, (w, s))
  | Some i =>
      let '(barrierErr, (w, s)) :=
        if wal_pending w || wal_failed w then WAL_Barrier (w, s) else (None, (w, s)) in
      let (closeErr, s) := file_Close i s in
      let w := MkWAL None (wal_buffer w) (wal_path w) (wal_header w) (wal_limits w)
                 (wal_last w) (wal_durable w) (wal_pending w) (wal_failed w) in
      (match barrierErr with Some e => Some e | None => closeErr end, (w, s))
  end.
End wal.
Global Arguments bufio_Flush : simpl never.
Global Arguments bufio_Write : simpl never.
Global Arguments Flush : simpl never.
Global Arguments Sync : simpl never.
Global Arguments writeFull : simpl never.
Global Arguments file_Write : simpl never.

(** The calls the writer makes on its log. *)
Inductive log_op := LogAppend (c : CommitFrame) | LogBarrier.

(** A run of calls: the log after them and the commits whose [Append]
    returned [nil]. *)
Fixpoint wal_run {E} `{OSEnv E} (ops : list log_op) (ws : WAL * FSState E) (acked : list CommitFrame)
    : list CommitFrame * (WAL * FSState E) :=
  match ops with
  | [] => (acked, ws)
  | LogAppend c :: rest =>
      let (e, ws) := WAL_Append c ws in
      wal_run rest ws (match e with None => acked ++ [c] | Some _ => acked end)
  | LogBarrier :: rest => let (_, ws) := WAL_Barrier ws in wal_run rest ws acked
  end.

(** ** The buffered writer *)

Section writer.
Context {E : Type} `{OSEnv E}.
Implicit Types s : FSState E.
Variable i : positive.

Lemma inode_setInode n s : inode i (setInode i n s) = n.
Proof. unfold inode, setInode. simpl. by rewrite lookup_insert_eq. Qed.

Lemma inode_visit p ph s r s' : visit p ph s = (r, s') -> inode i s' = inode i s.
Proof. unfold visit. destruct (env_visit _ _). by intros [= <- <-]. Qed.

Lemma inode_os_fail c s r s' : os_fail c s = (r, s') -> inode i s' = inode i s.
Proof. unfold os_fail. destruct (env_fail _ _). by intros [= <- <-]. Qed.

Lemma file_Write_spec v s n e s' :
  file_Write i v s = (n, e, s') ->
  0 <= n <= len v /\
  inode i s' = MkInode (ino_data (inode i s) ++ slice v 0 n) (ino_synced (inode i s)) /\
  (e = None -> n = len v).
Proof.
  unfold file_Write. destruct (os_fail SysWrite s) as [err s1] eqn:Hf.
  destruct (env_transfer _ _) as [k env] eqn:Ht. apply inode_os_fail in Hf.
  pose proof (len_nonneg v). intros [= <- <- <-]. rewrite inode_setInode.
  change (inode i (setEnv env s1)) with (inode i s1). rewrite Hf.
  destruct err as [err|]; [split_and!; [lia|lia|done|done]|].
  destruct (Z.ltb_spec k (len v)).
  - split_and!; [lia|lia|done|]. destruct (Z.ltb_spec (Z.max 0 k) (len v)); [done|lia].
  - rewrite Z.ltb_irrefl. split_and!; (done || lia).
Qed.

Lemma file_Sync_spec s e s' :
  file_Sync i s = (e, s') ->
  ino_data (inode i s') = ino_data (inode i s) /\
  ino_synced (inode i s') = match e with
                            | None => len (ino_data (inode i s))
                            | Some _ => ino_synced (inode i s)
                            end.
Proof.
  unfold file_Sync. destruct (os_fail SysFsync s) as [[err|] s1] eqn:Hf;
    apply inode_os_fail in Hf; intros [= <- <-]; rewrite ?inode_setInode, Hf; done.
Qed.

(** [Sync] with its hooks: the data stays; an error may come after the sync. *)
Lemma Sync_spec p s e s' :
  Sync p i s = (e, s') ->
  ino_data (inode i s') = ino_data (inode i s) /\
  (ino_synced (inode i s') = ino_synced (inode i s) \/
   ino_synced (inode i s') = len (ino_data (inode i s))) /\
  (e = None -> ino_synced (inode i s') = len (ino_data (inode i s))).
Proof.
  unfold Sync, hooked. destruct (visit p Before s) as [[err|] s1] eqn:H1;
    apply inode_visit in H1; [intros [= <- <-]; rewrite H1; naive_solver|].
  destruct (file_Sync i s1) as [e2 s2] eqn:H2. apply file_Sync_spec in H2 as [Hd Hs].
  rewrite H1 in *. destruct e2; [intros [= <- <-]; naive_solver|].
  intros H3%inode_visit. rewrite H3. naive_solver.
Qed.

Variables (synced size : Z).
Hypothesis size_pos : 0 < size.

(** [x] is what the file and the buffer hold together. *)
Definition stream (bs : Bufio * FSState E) (x : bytes) : Prop :=
  exists data, inode i bs.2 = MkInode data synced /\ data ++ bf_buf bs.1 = x /\
    synced <= len data /\ len (bf_buf bs.1) <= size /\ bf_size bs.1 = size.

Lemma stream_grow b s data v n s' :
  inode i s = MkInode data synced -> synced <= len data -> 0 <= n <= len v ->
  inode i s' = MkInode (ino_data (inode i s) ++ slice v 0 n) (ino_synced (inode i s)) ->
  len b <= size -> forall e, stream (MkBufio b size e, s') (data ++ slice v 0 n ++ b).
Proof.
  intros Hi Hd Hn Hi' Hb e. rewrite Hi in Hi'. simpl in Hi'. exists (data ++ slice v 0 n).
  pose proof (len_nonneg (slice v 0 n)). simpl. rewrite len_app, <- app_assoc.
  split_and!; try done. lia.
Qed.

Lemma bufio_Flush_spec bs x e bs' :
  stream bs x -> bufio_Flush i bs = (e, bs') ->
  stream bs' x /\ (e = None -> bf_buf bs'.1 = [] /\ bf_err bs'.1 = None) /\
  (e <> None -> bf_err bs'.1 <> None).
Proof.
  destruct bs as [b s]. intros (data & Hi & Hx & Hs & Hb & Hz) Hf. simpl in *. subst x.
  unfold bufio_Flush in Hf. destruct (bf_err b) as [err|] eqn:He.
  { simplify_eq/=. split; [by exists data|]. rewrite He. done. }
  destruct (Z.eqb_spec (len (bf_buf b)) 0) as [Hn|Hn].
  { simplify_eq/=. apply len_nil_iff in Hn. split; [by exists data|]. done. }
  destruct (file_Write i (bf_buf b) s) as [[n e1] s1] eqn:Hw.
  apply file_Write_spec in Hw as (Hr & Hi1 & Hfull).
  assert (forall e, stream (MkBufio (slice (bf_buf b) n (len (bf_buf b))) size e, s1)
                      (data ++ bf_buf b)) as Hst.
  { intros e2. pose proof (slice_0_app (bf_buf b) n Hr) as Hsplit.
    replace (data ++ bf_buf b)
      with (data ++ slice (bf_buf b) 0 n ++ slice (bf_buf b) n (len (bf_buf b))) by (by rewrite Hsplit).
    eapply stream_grow; eauto. rewrite len_slice; lia. }
  rewrite Hz in *. destruct e1 as [err|]; [simplify_eq/=; split; [apply Hst|done]|].
  specialize (Hfull eq_refl). rewrite Hfull, Z.ltb_irrefl in Hf. simplify_eq/=.
  split; [|done]. destruct (Hst None) as (data' & H1 & H2 & H3 & H4 & H5). exists data'. simpl in *.
  rewrite (slice_empty (bf_buf b)) in H2, H4 by lia. done.
Qed.

(** Two steps of [n] and [k] bytes are one of [n + k]. *)
Lemma slice_steps p n k x :
  0 <= n <= len p -> 0 <= k <= len p - n ->
  slice (slice p n (len p)) k (len p - n) = slice p (n + k) (len p) /\
  (x ++ slice p 0 n) ++ slice (slice p n (len p)) 0 k = x ++ slice p 0 (n + k).
Proof.
  intros Hn Hk. rewrite !slice_slice by lia. split; [f_equal; lia|].
  rewrite (slice_split p 0 n (n + k)), <- app_assoc by lia.
  replace (k + n) with (n + k) by lia. done.
Qed.

Lemma bufio_spill_spec fuel p nn bs x nn' p' bs' :
  stream bs x -> bufio_spill fuel i p nn bs = Some (nn', p', bs') ->
  exists k, 0 <= k <= len p /\ nn' = nn + k /\ p' = slice p k (len p) /\
    stream bs' (x ++ slice p 0 k) /\
    (bf_err bs'.1 = None -> len p' <= size - len (bf_buf bs'.1)).
Proof.
  revert p nn bs x. induction fuel as [|fuel IH]; intros p nn [b s] x Hst Hsp; simpl in Hsp;
    pose proof (len_nonneg p); pose proof Hst as (data & Hi & Hx & Hs & Hb & Hz); simpl in *;
    rewrite Hz in Hsp;
    destruct ((size - len (bf_buf b) <? len p) && negb (bool_decide (bf_err b <> None))) eqn:Hc;
    try done;
    try (simplify_eq/=; exists 0; rewrite slice_full, app_nil_r; split_and!; try done; try lia;
         intros He; rewrite He in Hc; apply andb_false_iff in Hc as [Hc%Z.ltb_ge|Hc]; [lia|done]).
  destruct (Z.eqb_spec (len (bf_buf b)) 0) as [Hn|Hn].
  - apply len_nil_iff in Hn. rewrite Hn, app_nil_r in *. subst x.
    destruct (file_Write i p s) as [[n e1] s1] eqn:Hw.
    apply file_Write_spec in Hw as (Hr & Hi1 & _).
    apply (IH _ _ _ (data ++ slice p 0 n)) in Hsp as (k & Hk & -> & -> & Hst' & Hfit).
    2:{ pose proof (stream_grow [] s data p n s1 Hi Hs Hr Hi1) as Hg. rewrite app_nil_r in Hg.
        apply Hg. change (len (@nil byte)) with 0. lia. }
    rewrite (len_slice p n) in * by lia. exists (n + k).
    edestruct (slice_steps p n k) as [Hrest Happ]; [lia|lia|].
    rewrite Hrest in *. rewrite Happ in Hst'. split_and!; (done || lia).
  - go_bool. apply Z.ltb_lt in H1. set (n := Z.min (size - len (bf_buf b)) (len p)) in *.
    assert (0 <= n <= len p) by (unfold n; lia).
    destruct (bufio_Flush i _) as [e bs1] eqn:Hf.
    apply (bufio_Flush_spec _ (x ++ slice p 0 n)) in Hf as (Hst1 & _).
    2:{ exists data. simpl. rewrite len_app, len_slice, <- Hx by lia.
        split_and!; try done; [by rewrite app_assoc|lia]. }
    apply (IH _ _ _ _ Hst1) in Hsp as (k & Hk & -> & -> & Hst' & Hfit).
    rewrite (len_slice p n) in * by lia. exists (n + k).
    edestruct (slice_steps p n k) as [Hrest Happ]; [lia|lia|].
    rewrite Hrest in *. rewrite Happ in Hst'. split_and!; (done || lia).
Qed.

(** With an empty buffer the loop writes once; a full one is flushed first. *)
Lemma bufio_spill_empty fuel p nn b s :
  bf_buf b = [] -> bf_size b = size -> exists r, bufio_spill (S fuel) i p nn (b, s) = Some r.
Proof.
  intros Hb Hz. simpl. destruct (_ && _); [|eauto]. rewrite Hb, Hz. simpl.
  destruct (file_Write i p s) as [[n e] s1] eqn:Hw.
  apply file_Write_spec in Hw as (Hn & _ & Hfull).
  assert ((size - len (@nil byte) <? len (slice p n (len p)))
            && negb (bool_decide (e <> None)) = false) as Hc.
  { destruct e; [by rewrite andb_false_r|]. rewrite (Hfull eq_refl), slice_empty by lia.
    change (len (@nil byte)) with 0. by rewrite (proj2 (Z.ltb_ge _ _)) by lia. }
  destruct fuel; simpl; rewrite Hc; eauto.
Qed.

Lemma bufio_spill_total p nn bs x :
  stream bs x -> exists r, bufio_spill 2 i p nn bs = Some r.
Proof.
  destruct bs as [b s]. intros Hst. pose proof Hst as (data & Hi & Hx & Hs & Hb & Hz). simpl in *.
  cbn [bufio_spill]. destruct (_ && _) eqn:Hc; [|eauto].
  destruct (Z.eqb_spec (len (bf_buf b)) 0) as [Hn|Hn].
  { apply len_nil_iff in Hn. pose proof (bufio_spill_empty 1 p nn b s Hn Hz) as Hr.
    cbn [bufio_spill] in Hr. rewrite Hc, Hn in Hr. simpl in Hr. rewrite Hn. exact Hr. }
  go_bool. rewrite Hz in *. apply Z.ltb_lt in H0.
  destruct (bufio_Flush i _) as [e [b1 s1]] eqn:Hf.
  apply (bufio_Flush_spec _ (x ++ slice p 0 (Z.min (size - len (bf_buf b)) (len p)))) in Hf
    as ((data1 & _ & _ & _ & _ & Hz1) & Hok & Herr); simpl in *.
  - destruct e as [err|].
    + specialize (Herr ltac:(done)). eexists. rewrite (bool_decide_eq_true_2 _ Herr), andb_false_r. done.
    + destruct (Hok eq_refl) as [Hb1 He1]. apply (bufio_spill_empty 0); done.
  - exists data. simpl. pose proof (len_nonneg p).
    rewrite len_app, len_slice, <- Hx by lia. split_and!; try done; [by rewrite app_assoc|lia].
Qed.

Lemma bufio_Write_spec bs x v n e bs' :
  stream bs x -> bufio_Write i v bs = (n, e, bs') ->
  0 <= n <= len v /\ stream bs' (x ++ slice v 0 n) /\ (e = None -> n = len v).
Proof.
  intros Hst. unfold bufio_Write.
  destruct (bufio_spill_total v 0 bs x Hst) as [[[nn p] [b s]] Hsp]. rewrite Hsp.
  apply (bufio_spill_spec _ _ _ _ x) in Hsp as (k & Hk & -> & -> & Hst' & Hfit); [|done].
  destruct (bf_err b) as [err|] eqn:Herr; intros [= <- <- <-]; [done|].
  simpl in Hfit. specialize (Hfit Herr). rewrite len_slice in * by lia.
  rewrite (slice_all (len v) v 0 (0 + k + (len v - k))) by (done || lia). split_and!; try lia.
  destruct Hst' as (data & Hi & Hx & Hs & Hb & Hz). exists data. simpl in *.
  rewrite len_app, len_slice by lia. split_and!; try done; [|lia].
  rewrite app_assoc, Hx, <- app_assoc, slice_0_app by lia. done.
Qed.

(** The hooks of [Flush] do not touch the file. *)
Lemma Flush_spec p bs x e bs' :
  stream bs x -> Flush p i bs = (e, bs') ->
  stream bs' x /\ (e = None -> bf_buf bs'.1 = [] /\ bf_err bs'.1 = None).
Proof.
  destruct bs as [b s]. intros Hst. unfold Flush.
  assert (forall b s s', inode i s' = inode i s -> stream (b, s) x -> stream (b, s') x) as Hmove
    by (intros b0 s0 s0' Hi (data & Hd); exists data; simpl in *; by rewrite Hi).
  destruct (visit p Before s) as [[err|] s1] eqn:H1; apply inode_visit in H1.
  { intros [= <- <-]. split; [by eapply Hmove|done]. }
  destruct (bufio_Flush i (b, s1)) as [e2 [b2 s2]] eqn:H2.
  apply (bufio_Flush_spec _ x) in H2 as (Hst2 & Hok & _); [|by eapply Hmove].
  destruct e2; [intros [= <- <-]; done|].
  destruct (visit p After s2) as [e3 s3] eqn:H3. apply inode_visit in H3. intros [= <- <-].
  split; [by eapply Hmove|]. intros _. by apply Hok.
Qed.
End writer.

(** ** The log invariant *)

Section log.
Context {E : Type} `{OSEnv E}.
Implicit Types s : FSState E.

(** [cs] are the acknowledged commits, [inflight] the one whose [Append]
    failed, if any: the file and the buffer hold a prefix of their image, and
    all of the image of [cs] as long as nothing has failed.  Every commit up
    to [wal_durable] has its frame in the synced part of the file. *)
Record wal_inv (reservedEnd : Revision) (i : positive) (header : bytes) (ws : WAL * FSState E)
    (cs inflight : list CommitFrame) : Prop := {
  wi_file : wal_file ws.1 = Some i;
  wi_limits : limits_ok (wal_limits ws.1);
  wi_header : header_wf (wal_header ws.1);
  wi_encoded : EncodeWALHeader (wal_header ws.1) = Ok header;
  wi_loggable : Forall (loggable (wal_limits ws.1)) (cs ++ inflight);
  wi_revisions : revisions_from (WhFirstRevision (wal_header ws.1) - 1) reservedEnd (cs ++ inflight);
  wi_last : wal_last ws.1 = last_revision (WhFirstRevision (wal_header ws.1) - 1) cs;
  wi_one : (length inflight <= 1)%nat;
  wi_header_synced : WALHeaderSize <= ino_synced (inode i ws.2);
  wi_synced : ino_synced (inode i ws.2) <= len (ino_data (inode i ws.2));
  wi_stream : ino_data (inode i ws.2) ++ bf_buf (wal_buffer ws.1)
                `prefix_of` log_image header (cs ++ inflight);
  wi_healthy : wal_failed ws.1 = false ->
    inflight = [] /\
    ino_data (inode i ws.2) ++ bf_buf (wal_buffer ws.1) = log_image header cs /\
    len (bf_buf (wal_buffer ws.1)) <= bf_size (wal_buffer ws.1) /\ 0 < bf_size (wal_buffer ws.1);
  wi_durable : exists j, len (log_image header (take j cs)) <= ino_synced (inode i ws.2) /\
    Forall (fun c => wal_durable ws.1 < FrRevision c) (drop j cs)
}.

Lemma log_image_snoc header cs c :
  log_image header (cs ++ [c]) = log_image header cs ++ encodedFrame c.
Proof.
  unfold log_image, encodedFrames. rewrite bind_app. simpl. by rewrite app_nil_r, app_assoc.
Qed.

(** Durability survives new commits. *)
Lemma durable_snoc header cs c synced d :
  d < FrRevision c ->
  (exists j, len (log_image header (take j cs)) <= synced /\ Forall (fun c => d < FrRevision c) (drop j cs)) ->
  exists j, len (log_image header (take j (cs ++ [c]))) <= synced /\
    Forall (fun c => d < FrRevision c) (drop j (cs ++ [c])).
Proof.
  intros Hd (j & Hl & Hf). exists (j `min` length cs)%nat.
  rewrite take_app_le, drop_app_le by lia. rewrite Forall_app.
  destruct (decide (j <= length cs)%nat).
  - rewrite Nat.min_l by lia. split_and!; [done|done|by constructor].
  - rewrite Nat.min_r, firstn_all, drop_all by lia. rewrite take_ge in Hl by lia.
    split_and!; [done|constructor|by constructor].
Qed.

Lemma wal_inv_append reservedEnd i header ws cs inflight c e ws' :
  commit_typed c -> FrRevision c <= reservedEnd -> wal_durable ws.1 <= wal_last ws.1 ->
  wal_inv reservedEnd i header ws cs inflight -> WAL_Append c ws = (e, ws') ->
  wal_durable ws'.1 <= wal_last ws'.1 /\
  match e with
  | None => wal_inv reservedEnd i header ws' (cs ++ [c]) []
  | Some _ => exists inflight', wal_inv reservedEnd i header ws' cs inflight' /\
                (inflight' = inflight \/ inflight' = [c])
  end.
Proof.
  intros Hty Hres Hdl Hinv Ha. destruct ws as [w s]. unfold WAL_Append in Ha.
  pose proof Hinv as [If Il Ih Ie Ilog Irev Ilast Ione Ihs Isync Istr Iok Idur]; simpl in *.
  destruct (wal_failed w) eqn:Hfail; [simplify_eq; eauto|].
  destruct (Iok eq_refl) as (-> & Hstream & Hbuf & Hsize). clear Iok. rewrite app_nil_r in *.
  destruct (_ || _) eqn:Hg; [simplify_eq; eauto|]. go_bool. rewrite Z.ltb_ge, Z.leb_gt in *.
  rewrite If in Ha. destruct (EncodeCommitFrame c (wal_limits w)) as [encoded|err] eqn:Henc;
    [|simplify_eq; eauto].
  apply EncodeCommitFrame_Ok in Henc as (Hwf & Hb & ->); [|done].
  destruct (writeFull _ _ _ _) as [e1 [b s1]] eqn:Hw.
  apply (writeFull_stream _ _ (stream i (ino_synced (inode i s)) (bf_size (wal_buffer w)))
           ltac:(done) ltac:(intros; eapply bufio_Write_spec; eauto) _ _ (log_image header cs))
    in Hw as (k & Hk & (data & Hi & Hx & Hs & Hb' & Hz) & Hfull).
  2:{ exists (ino_data (inode i s)). simpl. split_and!; try done. by destruct (inode i s). }
  simpl in *.
  assert (Forall (loggable (wal_limits w)) (cs ++ [c])) as Hlog' by (apply Forall_app; by split; [|constructor]).
  assert (revisions_from (WhFirstRevision (wal_header w) - 1) reservedEnd (cs ++ [c])) as Hrev'.
  { apply revisions_from_app. split; [done|]. simpl. lia. }
  destruct e1 as [err|]; simplify_eq/=.
  - split; [done|]. exists [c]. split; [|by right]. split; simpl; rewrite ?Hi; simpl; try done.
    rewrite Hx, log_image_snoc. apply prefix_app.
    exists (slice (encodedFrame c) k (len (encodedFrame c))). by rewrite slice_0_app.
  - rewrite (Hfull eq_refl), slice_full, <- log_image_snoc in Hx. split; [lia|].
    split; simpl; rewrite ?Hi, ?app_nil_r; simpl; try done.
    + by rewrite last_revision_snoc.
    + by rewrite Hx.
    + intros _. by rewrite Hz.
    + apply durable_snoc; [lia|done].
Qed.

Lemma wal_inv_barrier reservedEnd i header ws cs inflight e ws' :
  wal_durable ws.1 <= wal_last ws.1 -> wal_inv reservedEnd i header ws cs inflight ->
  WAL_Barrier ws = (e, ws') ->
  wal_durable ws'.1 <= wal_last ws'.1 /\ wal_inv reservedEnd i header ws' cs inflight /\
  (e = None -> wal_durable ws'.1 = wal_last ws.1 /\ wal_last ws'.1 = wal_last ws.1).
Proof.
  intros Hdl Hinv Hb. destruct ws as [w s]. unfold WAL_Barrier in Hb.
  pose proof Hinv as [If Il Ih Ie Ilog Irev Ilast Ione Ihs Isync Istr Iok Idur]; simpl in *.
  destruct (wal_failed w) eqn:Hfail; [by simplify_eq|].
  destruct (Iok eq_refl) as (-> & Hstream & Hbuf & Hsize). clear Iok. rewrite app_nil_r in *.
  rewrite If in Hb. destruct (Flush _ _ _) as [e1 [b s1]] eqn:Hf.
  apply (Flush_spec i (ino_synced (inode i s)) (bf_size (wal_buffer w)) Hsize _ _ (log_image header cs)) in Hf
    as ((data & Hi & Hx & Hs & Hb' & Hz) & Hok).
  2:{ exists (ino_data (inode i s)). simpl. split_and!; try done. by destruct (inode i s). }
  simpl in *. destruct e1 as [err|].
  { simplify_eq/=. split_and!; try done. split; simpl; rewrite ?Hi, ?app_nil_r; simpl; try done. by rewrite Hx. }
  destruct (Hok eq_refl) as [Hnil Herr]. rewrite Hnil, app_nil_r in Hx. subst data.
  destruct (Sync _ i s1) as [e2 s2] eqn:Hsy. apply Sync_spec in Hsy as (Hd & Hsyn & Hfull).
  rewrite Hi in *. simpl in *. destruct e2 as [err|]; simplify_eq/=.
  - split_and!; try done. split; simpl; rewrite ?Hd, ?Hnil, ?app_nil_r; try done.
    + destruct Hsyn; lia.
    + destruct Hsyn; lia.
    + destruct Idur as (j & Hj & Hf). exists j. split; [|done]. destruct Hsyn; lia.
  - specialize (Hfull eq_refl). split_and!; try done.
    split; simpl; rewrite ?Hd, ?Hnil, ?app_nil_r, ?Hfull; try done; try lia.
    + intros _. change (len (@nil byte)) with 0. rewrite Hz. split_and!; (done || lia).
    + exists (length cs). rewrite firstn_all, drop_all. by split.
Qed.

(** A run keeps the invariant; [acked] is what it adds to. *)
Definition op_ok (reservedEnd : Revision) (op : log_op) : Prop :=
  match op with LogAppend c => commit_typed c /\ FrRevision c <= reservedEnd | LogBarrier => True end.

Lemma wal_inv_run reservedEnd i header ops ws cs inflight acked ws' :
  Forall (op_ok reservedEnd) ops -> wal_durable ws.1 <= wal_last ws.1 ->
  wal_inv reservedEnd i header ws cs inflight -> wal_run ops ws cs = (acked, ws') ->
  exists inflight', wal_inv reservedEnd i header ws' acked inflight'.
Proof.
  intros Hops. revert ws cs inflight. induction Hops as [|op ops Hop Hops IH]; intros ws cs inflight Hdl Hinv Hr.
  { simpl in Hr. simplify_eq. eauto. }
  destruct op as [c|]; simpl in Hr.
  - destruct Hop as [Hty Hres]. destruct (WAL_Append c ws) as [e ws1] eqn:Ha.
    apply (wal_inv_append reservedEnd i header ws cs inflight) in Ha as [Hdl1 Hi]; [|done..].
    destruct e; [destruct Hi as (inflight1 & Hi & _)|]; by eapply IH.
  - destruct (WAL_Barrier ws) as [e ws1] eqn:Hb.
    apply (wal_inv_barrier reservedEnd i header ws cs inflight) in Hb as (Hdl1 & Hi & _); [|done..].
    by eapply IH.
Qed.

Lemma fileWriter_spec i synced (ws : unit * FSState E) x v n e ws' :
  inode i ws.2 = MkInode x synced -> fileWriter i v ws = (n, e, ws') ->
  0 <= n <= len v /\ inode i ws'.2 = MkInode (x ++ slice v 0 n) synced /\ (e = None -> n = len v).
Proof.
  unfold fileWriter. intros Hi. destruct (file_Write i v ws.2) as [[n1 e1] s1] eqn:Hw.
  apply file_Write_spec in Hw. rewrite Hi in Hw. intros [= <- <- <-]. done.
Qed.

Lemma OpenFile_create point name s i s' :
  OpenFile point name (MkFlags true true) s = (Ok i, s') -> inode i s' = MkInode [] 0.
Proof.
  unfold OpenFile, os_open. destruct (visit point Before s) as [[err|] s1]; [done|].
  destruct (os_fail SysOpen s1) as [[err|] s2]; [done|].
  destruct (fs_dir s2 !! name); [done|]. simpl.
  destruct (visit point After _) as [[err|] s3] eqn:Hv; [destruct (file_Close _ _); done|].
  intros [= <- <-]. rewrite (inode_visit _ _ _ _ _ _ Hv). unfold inode, setDir, setInode. simpl.
  by rewrite lookup_insert_eq.
Qed.

Lemma CreateWAL_inv reservedEnd path h size limits s w s' :
  limits_ok limits -> header_wf h -> CreateWAL path h size limits s = (Ok w, s') ->
  exists i header, wal_inv reservedEnd i header (w, s') [] [] /\ wal_durable w <= wal_last w /\
    wal_header w = h /\ wal_limits w = limits.
Proof.
  intros Hl Hh Hc. unfold CreateWAL in Hc.
  destruct (Z.leb_spec size 0) as [|Hsize]; [done|]. destruct (negb _); [done|].
  destruct (EncodeWALHeader h) as [header|] eqn:He; [|done].
  destruct (OpenFile _ _ _ s) as [[i|] s1] eqn:Ho; [|done]. apply OpenFile_create in Ho.
  destruct (writeFull _ _ _ _) as [e2 [u s2]] eqn:Hw.
  apply (writeFull_stream _ _ (fun ws x => inode i ws.2 = MkInode x 0) ltac:(done)
           ltac:(intros ? ? ? ? ? ? Hx Hy; exact (fileWriter_spec i 0 _ _ _ _ _ _ Hx Hy)) _ _ []) in Hw as (k & _ & Hi2 & Hfull); [|done].
  destruct e2; [destruct (file_Close _ _); done|]. simpl in Hi2.
  rewrite (Hfull eq_refl), slice_full in Hi2.
  destruct (Sync _ i s2) as [[err|] s3] eqn:Hs; [destruct (file_Close _ _); done|].
  apply Sync_spec in Hs as (Hd & _ & Hsy). rewrite Hi2 in *. simpl in *. specialize (Hsy eq_refl).
  destruct (DecodeWALHeader_encode h header Hh He) as [_ Hlen].
  pose proof Hh as (_ & Hfirst & _).
  assert (WhFirstRevision h <> 0) as Hnz.
  { unfold EncodeWALHeader in He. destruct (_ || _) eqn:Hg in He; [done|]. go_bool. by apply Z.eqb_neq. }
  injection Hc as <- <-. exists i, header. simpl. rewrite wrap_u64_small by lia.
  split; [|split_and!; (done || lia)].
  assert (log_image header [] = header) as Himg by (unfold log_image; apply app_nil_r).
  split; simpl; rewrite ?Hd, ?Hsy, ?Himg, ?app_nil_r, ?Hlen; try done; try (by constructor); try lia.
  - intros _. change (len (@nil byte)) with 0. split_and!; (done || lia).
  - exists O. simpl. rewrite Himg, Hlen. by split.
Qed.

(** No call changes the header or the limits of the log. *)
Lemma WAL_Append_static c ws e ws' :
  WAL_Append c ws = (e, ws') ->
  wal_header ws'.1 = wal_header ws.1 /\ wal_limits ws'.1 = wal_limits ws.1.
Proof.
  destruct ws as [w s]. unfold WAL_Append.
  repeat case_match; intros; simplify_eq; done.
Qed.

Lemma WAL_Barrier_static ws e ws' :
  WAL_Barrier ws = (e, ws') ->
  wal_header ws'.1 = wal_header ws.1 /\ wal_limits ws'.1 = wal_limits ws.1.
Proof.
  destruct ws as [w s]. unfold WAL_Barrier.
  repeat case_match; intros; simplify_eq; done.
Qed.

Lemma wal_run_static ops ws cs acked ws' :
  wal_run ops ws cs = (acked, ws') ->
  wal_header ws'.1 = wal_header ws.1 /\ wal_limits ws'.1 = wal_limits ws.1.
Proof.
  revert ws cs. induction ops as [|[c|] ops IH]; intros ws cs; simpl; [intros; by simplify_eq|..].
  - destruct (WAL_Append c ws) as [e ws1] eqn:Ha. apply WAL_Append_static in Ha as [<- <-]. apply IH.
  - destruct (WAL_Barrier ws) as [e ws1] eqn:Ha. apply WAL_Barrier_static in Ha as [<- <-]. apply IH.
Qed.

(** What a restart reads after a crash, from the invariant. *)
Lemma wal_inv_crash reservedEnd i header ws cs inflight found size :
  wal_inv reservedEnd i header ws cs inflight -> crash_inode (inode i ws.2) found ->
  exists replay,
    ScanWAL (MkReader found None) size (WhDatabaseID (wal_header ws.1))
      (WhFirstRevision (wal_header ws.1) - 1) reservedEnd (wal_limits ws.1) = Ok replay /\
    RpHeader replay = wal_header ws.1 /\ cut_tail found (RpTail replay) = log_image header (RpCommits replay) /\
    RpCommits replay `prefix_of` cs ++ inflight /\
    RpRecovered replay = last_revision (WhFirstRevision (wal_header ws.1) - 1) (RpCommits replay) /\
    forall c, c ∈ cs -> FrRevision c <= wal_durable ws.1 -> c ∈ RpCommits replay.
Proof.
  intros [If Il Ih Ie Ilog Irev Ilast Ione Ihs Isync Istr _ (j & Hj & Hdur)] (n & Hn & ->).
  destruct Istr as [rest Himg].
  assert (slice (ino_data (inode i ws.2)) 0 n = slice (log_image header (cs ++ inflight)) 0 n) as ->.
  { rewrite Himg, <- app_assoc, slice_app_l by (unfold WALHeaderSize in *; lia). done. }
  destruct (ScanWAL_cut _ Il (wal_header ws.1) header size reservedEnd Ih Ie (cs ++ inflight) n)
    as (k & tail & Hscan & Hcut & Hk); [done|done| |].
  { rewrite Himg, !len_app. pose proof (len_nonneg rest).
    pose proof (len_nonneg (bf_buf (wal_buffer ws.1))). lia. }
  eexists. split; [exact Hscan|]. simpl. split_and!; [done|done| |done|].
  - exists (drop k (cs ++ inflight)). by rewrite take_drop.
  - intros c Hc Hd. assert (c ∈ take j cs) as Hin.
    { rewrite <- (take_drop j cs) in Hc. apply elem_of_app in Hc as [?|Hc]; [done|].
      rewrite Forall_forall in Hdur. specialize (Hdur c Hc). lia. }
    specialize (Hk (j `min` length cs)%nat). rewrite take_app_le in Hk by lia.
    rewrite <- take_take, firstn_all in Hk. destruct (Hk ltac:(lia)) as [more ->].
    apply elem_of_app. by left.
Qed.
End log.

(** ** Properties *)

(** C17: Crash safety of the write-ahead log.  Take a log that [CreateWAL]
    opened, any sequence of [Append] and [Barrier] calls on it, in an
    environment whose hook and system calls may fail or transfer fewer bytes
    at any point, and then a crash that keeps the synced bytes of the file and
    any number of the bytes written after them.  The scan of what is found
    succeeds; the commits it recovers are a prefix of the acknowledged ones
    and possibly the one whose append failed; and every acknowledged commit up
    to the revision the log reported as durable is among them. *)
Theorem log_crash_safe `{OSEnv E} path h size limits (s s' s'' : FSState E) w w' reservedEnd ops
    acked i found readSize :
  limits_ok limits -> header_wf h ->
  CreateWAL path h size limits s = (Ok w, s') ->
  Forall (op_ok reservedEnd) ops ->
  wal_run ops (w, s') [] = (acked, (w', s'')) ->
  wal_file w' = Some i -> crash_inode (inode i s'') found ->
  exists replay inflight,
    ScanWAL (MkReader found None) readSize (WhDatabaseID h) (WhFirstRevision h - 1) reservedEnd limits
      = Ok replay /\
    (length inflight <= 1)%nat /\
    RpCommits replay `prefix_of` acked ++ inflight /\
    RpRecovered replay = last_revision (WhFirstRevision h - 1) (RpCommits replay) /\
    forall c, c ∈ acked -> FrRevision c <= wal_durable w' -> c ∈ RpCommits replay.
Proof.
  intros Hl Hh Hc Hops Hrun Hf Hcrash.
  destruct (CreateWAL_inv reservedEnd _ _ _ _ _ _ _ Hl Hh Hc) as (i0 & header & Hinv & Hd & <- & <-).
  pose proof (wal_run_static _ _ _ _ _ Hrun) as [Hsh Hsl].
  destruct (wal_inv_run _ _ _ _ (w, s') _ _ _ _ Hops Hd Hinv Hrun) as [inflight Hinv'].
  pose proof (wi_file _ _ _ _ _ _ Hinv') as Hf'. simpl in *. simplify_eq.
  destruct (wal_inv_crash _ _ _ _ _ _ _ readSize Hinv' Hcrash) as (replay & Hscan & _ & _ & Hpre & Hrec & Hdur).
  simpl in *. rewrite Hsh, Hsl in *. exists replay, inflight.
  split_and!; try done. apply (wi_one _ _ _ _ _ _ Hinv').
Qed.

(** A log with two commits, the first behind a barrier; the crash loses half of
    the second. *)
Module SampleLog.
Definition created : result goerror WAL * FSState unit :=
  CreateWAL (H := quiet) "wal-00000000000000000001.gdb" Sample.header 16 DefaultOptions empty_fs.
Definition opened : WAL :=
  match created.1 with
  | Ok w => w
  | Err _ => MkWAL None (MkBufio [] 0 None) "" Sample.header DefaultOptions 0 0 false false
  end.
Definition ops : list log_op := [LogAppend Sample.commit1; LogBarrier; LogAppend Sample.commit2].
Definition run : list CommitFrame * (WAL * FSState unit) :=
  wal_run (H := quiet) ops (opened, created.2) [].
Definition found : bytes := slice (ino_data (inode 1 run.2.2)) 0 170.
End SampleLog.

(** A log with two commits, the first behind a barrier; the crash cuts the
    frame of the second. *)
Lemma log_crash_safe_witness :
  exists replay inflight,
    ScanWAL (MkReader SampleLog.found None) 170 Sample.id 0 1000 DefaultOptions = Ok replay /\
    (length inflight <= 1)%nat /\
    RpCommits replay `prefix_of` SampleLog.run.1 ++ inflight /\
    RpRecovered replay = last_revision 0 (RpCommits replay) /\
    forall c, c ∈ SampleLog.run.1 -> FrRevision c <= wal_durable SampleLog.run.2.1 ->
      c ∈ RpCommits replay.
Proof.
  apply (log_crash_safe (H := quiet) "wal-00000000000000000001.gdb" Sample.header 16 DefaultOptions empty_fs
    SampleLog.created.2 SampleLog.run.2.2 SampleLog.opened SampleLog.run.2.1 1000 SampleLog.ops
    SampleLog.run.1 1 SampleLog.found 170 DefaultOptions_ok Sample.header_fine).
  - vm_compute. reflexivity.
  - repeat constructor; vm_compute; congruence.
  - vm_compute. reflexivity.
  - vm_compute. reflexivity.
  - exists 170. split; [split; vm_compute; congruence|reflexivity].
Defined.
