(* ===== verification/OrderedKeys.v ===== *)
(** * OrderedKeys: the ordered index of the engine

    [Search] is the binary-search loop of the sort package, [planOrderedKeys]
    and [mergeOrderedKeyDelta] (internal/engine/writer.go) plan the replacement
    of the ordered key slice for a batch.  A Go slice that is appended to in
    place is a [KeySlice]: its elements and its capacity. *)

From stdpp Require Import base gmap list sorting strings.
From Stdlib Require Import ZArith Lia.
From S2P Require Import Prelude.
From S2P Require Import Bytes.
From S2P Require Import Errors.
From S2P Require Import ApiTypes.

Local Open Scope Z_scope.

(** ** Binary search

    [for i < j { h := int(uint(i+j) >> 1); if !f(h) { i = h + 1 } else { j = h } }].
    The fuel bounds the number of iterations; [Search] passes [n], which
    [Search_spec] shows to be enough. *)
Fixpoint search_loop (fuel : nat) (f : Z -> bool) (i j : Z) : Z :=
  if i <? j then
    match fuel with
    | O => i
    | S fuel =>
        let h := Z.shiftr (wrap_u64 (i + j)) 1 in
        if f h then search_loop fuel f i h else search_loop fuel f (h + 1) j
    end
  else i.

Definition Search (n : Z) (f : Z -> bool) : Z := search_loop (Z.to_nat n) f 0 n.

(** [l[i]] for an index in range. *)
Definition key_at (l : list bytes) (i : Z) : bytes := default [] (l !! Z.to_nat i).

Definition SearchStrings (l : list bytes) (x : bytes) : Z :=
  Search (len l) (fun h => negb (bytes_ltb (key_at l h) x)).

Definition sort_Strings (l : list bytes) : list bytes := merge_sort bytes_le l.

(** ** Slices and plans *)

Record KeySlice := MkKeySlice { ks_keys : list bytes; ks_cap : Z }.

Record orderedKeyPlan := MkPlan {
  plan_replacement : option KeySlice;
  plan_tail : list bytes
}.

(** [append(s, tail...)]: in place while the capacity suffices.  The growth
    of a full slice is the runtime's choice; [installPlan_fits] shows that the
    plan never lets [append] grow it. *)
Definition append_keys (s : KeySlice) (tail : list bytes) : KeySlice :=
  MkKeySlice (ks_keys s ++ tail) (Z.max (ks_cap s) (len (ks_keys s ++ tail))).

(** [index := sort.SearchStrings(keys, key); index < len(keys) && keys[index] == key]. *)
Definition key_exists (keys : list bytes) (key : bytes) : bool :=
  let index := SearchStrings keys key in
  (index <? len keys) && bool_decide (key_at keys index = key).

Definition is_delete (m : Mutation) : bool :=
  match MutKind m with MutationDelete => true | _ => false end.
Definition is_put (m : Mutation) : bool :=
  match MutKind m with MutationPut => true | _ => false end.

(** The loop of [planOrderedKeys]: [changed], [bulkMerge] and [additions]. *)
Fixpoint plan_loop (keys : list bytes) (last : bytes) (mutations : list Mutation)
    (changed bulkMerge : bool) (additions : list bytes) : bool * bool * list bytes :=
  match mutations with
  | [] => (changed, bulkMerge, additions)
  | m :: rest =>
      let exists_ := key_exists keys (MutKey m) in
      let '(changed, bulkMerge) :=
        if is_delete m && exists_ then (true, true) else (changed, bulkMerge) in
      let '(changed, bulkMerge, additions) :=
        if is_put m && negb exists_
        then (true,
              (if negb (bool_decide (last = [])) && bytes_leb (MutKey m) last then true else bulkMerge),
              additions ++ [MutKey m])
        else (changed, bulkMerge, additions) in
      plan_loop keys last rest changed bulkMerge additions
  end.

(** The first loop of [mergeOrderedKeyDelta]. *)
Fixpoint delta_loop (base : list bytes) (mutations : list Mutation)
    (removed : gset bytes) (additions : list bytes) : gset bytes * list bytes :=
  match mutations with
  | [] => (removed, additions)
  | m :: rest =>
      let exists_ := key_exists base (MutKey m) in
      if is_delete m then
        delta_loop base rest (if exists_ then {[MutKey m]} ∪ removed else removed) additions
      else delta_loop base rest removed (if exists_ then additions else additions ++ [MutKey m])
  end.

(** The merge loop, on the suffixes [base[baseIndex:]] and [additions[additionIndex:]]. *)
Fixpoint merge_loop (removed : gset bytes) (base additions : list bytes) : list bytes :=
  let fix merge_additions (additions : list bytes) : list bytes :=
    match base with
    | [] => match additions with [] => [] | a :: rest => a :: merge_additions rest end
    | b :: base' =>
        if bool_decide (b ∈ removed) then merge_loop removed base' additions
        else match additions with
             | [] => b :: merge_loop removed base' []
             | a :: rest =>
                 if bytes_ltb b a then b :: merge_loop removed base' additions
                 else a :: merge_additions rest
             end
    end in
  merge_additions additions.

Definition mergeOrderedKeyDelta (base : list bytes) (mutations : list Mutation) : KeySlice :=
  let (removed, additions) := delta_loop base mutations ∅ [] in
  let result := merge_loop removed base (sort_Strings additions) in
  MkKeySlice result (Z.max (len base + len additions - Z.of_nat (size removed)) (len result)).

Definition planOrderedKeys (s : KeySlice) (mutations : list Mutation) : orderedKeyPlan :=
  let last := if len (ks_keys s) =? 0 then [] else key_at (ks_keys s) (len (ks_keys s) - 1) in
  let '(changed, bulkMerge, additions) := plan_loop (ks_keys s) last mutations false false [] in
  if negb changed then MkPlan None []
  else if negb bulkMerge then
    let additions := sort_Strings additions in
    if len (ks_keys s) + len additions <=? ks_cap s then MkPlan None additions
    else
      let capacity := Z.max 16 (Z.max (ks_cap s * 2) (len (ks_keys s) + len additions)) in
      MkPlan (Some (MkKeySlice (ks_keys s ++ additions) capacity)) []
  else MkPlan (Some (mergeOrderedKeyDelta (ks_keys s) mutations)) [].

(** What [execute] does with the plan once the commit is in the log. *)
Definition installPlan (s : KeySlice) (plan : orderedKeyPlan) : KeySlice :=
  match plan_replacement plan with
  | Some replacement => replacement
  | None => if len (plan_tail plan) =? 0 then s else append_keys s (plan_tail plan)
  end.

(** ** Specification *)

Abbreviation strictly_sorted := (StronglySorted bytes_lt).

(** Whether [k] is a key after the batch, given whether it was one before. *)
Definition key_after (mutations : list Mutation) (k : bytes) (before : Prop) : Prop :=
  (exists m, m ∈ mutations /\ MutKey m = k /\ is_delete m = false) \/
  (before /\ forall m, m ∈ mutations -> MutKey m = k -> is_delete m = false).

(** ** Binary search: termination and correctness *)

Lemma shiftr_half i j : 0 <= i < j -> i + j <= max_uint64 ->
  i <= Z.shiftr (wrap_u64 (i + j)) 1 < j.
Proof.
  intros Hij Hmax. rewrite wrap_u64_small by lia. rewrite Z.shiftr_div_pow2 by lia.
  change (2 ^ 1) with 2. split; [apply Z.div_le_lower_bound|apply Z.div_lt_upper_bound]; lia.
Qed.

Section search.
Variable f : Z -> bool.
Variable n : Z.
Hypothesis n_int : 0 <= n < 2 ^ 63.
Hypothesis mono : forall i j, 0 <= i <= j -> j < n -> f i = true -> f j = true.

Lemma search_loop_spec fuel i j :
  0 <= i <= j -> j <= n -> j - i <= Z.of_nat fuel ->
  (forall k, 0 <= k < i -> f k = false) -> (forall k, j <= k < n -> f k = true) ->
  let r := search_loop fuel f i j in
  0 <= r <= n /\ (forall k, 0 <= k < r -> f k = false) /\ (forall k, r <= k < n -> f k = true).
Proof.
  revert i j. induction fuel as [|fuel IH]; intros i j Hij Hj Hfuel Hlo Hhi; simpl.
  { replace j with i in * by lia. rewrite Z.ltb_irrefl. split_and!; auto; lia. }
  destruct (Z.ltb_spec i j) as [Hlt|Hge].
  2:{ replace j with i in * by lia. split_and!; auto; lia. }
  pose proof (shiftr_half i j ltac:(lia) ltac:(unfold max_uint64; lia)) as Hh.
  set (h := Z.shiftr (wrap_u64 (i + j)) 1) in *.
  destruct (f h) eqn:Hf.
  - apply IH; auto; try lia. intros k Hk. apply (mono h k); auto; lia.
  - apply IH; auto; try lia. intros k Hk. destruct (f k) eqn:Hfk; [|done].
    rewrite (mono k h) in Hf by (auto; lia). done.
Qed.

Lemma Search_spec :
  0 <= Search n f <= n /\ (forall k, 0 <= k < Search n f -> f k = false) /\
  (forall k, Search n f <= k < n -> f k = true).
Proof. apply search_loop_spec; lia. Qed.
End search.

Lemma strictly_sorted_lookup l i j a b :
  strictly_sorted l -> l !! i = Some a -> l !! j = Some b -> (i < j)%nat -> bytes_lt a b.
Proof.
  intros Hs. revert i j. induction Hs as [|x l Hs IH Hx]; intros [|i] [|j] Ha Hb Hlt;
    simplify_eq/=; try lia.
  - eapply (proj1 (Forall_forall _ _) Hx), list_elem_of_lookup_2; done.
  - apply (IH i j); auto; lia.
Qed.

Lemma key_at_lookup l i : 0 <= i < len l -> l !! Z.to_nat i = Some (key_at l i).
Proof.
  intros Hi. unfold key_at. destruct (l !! Z.to_nat i) eqn:E; [done|].
  apply lookup_ge_None in E. unfold len in *. lia.
Qed.

Lemma SearchStrings_spec l x :
  strictly_sorted l -> len l < 2 ^ 63 ->
  let r := SearchStrings l x in
  0 <= r <= len l /\ (forall k, 0 <= k < r -> bytes_lt (key_at l k) x) /\
  (forall k, r <= k < len l -> bytes_le x (key_at l k)).
Proof.
  intros Hs Hlen r. pose proof (len_nonneg l).
  destruct (Search_spec (fun h => negb (bytes_ltb (key_at l h) x)) (len l)) as (Hr & Hlo & Hhi).
  - lia.
  - intros i j Hij Hj Hi. destruct (decide (i = j)) as [->|]; [done|].
    apply negb_true_iff in Hi. apply negb_true_iff, not_true_iff_false. intros Hjx.
    apply not_true_iff_false in Hi. apply Hi.
    eapply bytes_lt_trans; [|exact Hjx].
    eapply (strictly_sorted_lookup l (Z.to_nat i) (Z.to_nat j)); eauto using key_at_lookup;
      [apply key_at_lookup; lia|apply key_at_lookup; lia|lia].
  - split; [done|]. split; intros k Hk.
    + specialize (Hlo k Hk). by apply negb_false_iff in Hlo.
    + by apply (Hhi k).
Qed.

(** On a strictly sorted slice the search decides membership. *)
Lemma key_exists_iff l x :
  strictly_sorted l -> len l < 2 ^ 63 -> key_exists l x = true <-> x ∈ l.
Proof.
  intros Hs Hlen. destruct (SearchStrings_spec l x Hs Hlen) as (Hr & Hlo & Hhi).
  unfold key_exists. rewrite andb_true_iff, Z.ltb_lt, bool_decide_eq_true. split.
  - intros [Hlt Heq]. eapply list_elem_of_lookup_2. rewrite key_at_lookup, Heq; [done|lia].
  - intros [i Hi]%list_elem_of_lookup. pose proof (lookup_lt_Some _ _ _ Hi) as Hil.
    assert (key_at l (Z.of_nat i) = x) as Hki by (unfold key_at; by rewrite Nat2Z.id, Hi).
    assert (SearchStrings l x <= Z.of_nat i) as Hle.
    { apply Z.le_ngt. intros Hgt. specialize (Hlo (Z.of_nat i) ltac:(lia)).
      rewrite Hki in Hlo. by apply bytes_lt_irrefl in Hlo. }
    split; [unfold len in *; lia|].
    destruct (decide (SearchStrings l x = Z.of_nat i)) as [->|Hne]; [done|].
    exfalso. specialize (Hhi (SearchStrings l x) ltac:(unfold len in *; lia)).
    eapply bytes_lt_irrefl. eapply bytes_le_lt_trans; [exact Hhi|].
    eapply (strictly_sorted_lookup l (Z.to_nat (SearchStrings l x)) i); eauto;
      [apply key_at_lookup; unfold len in *; lia|lia].
Qed.

(** ** Sorting and merging *)

Lemma sort_Strings_Permutation l : sort_Strings l ≡ₚ l.
Proof. apply merge_sort_Permutation. Qed.

Lemma sort_Strings_strict l : NoDup l -> strictly_sorted (sort_Strings l).
Proof.
  intros Hnd. assert (NoDup (sort_Strings l)) as Hnd' by (by rewrite sort_Strings_Permutation).
  pose proof (StronglySorted_merge_sort bytes_le l) as Hs. fold (sort_Strings l) in Hs.
  revert Hs Hnd'. generalize (sort_Strings l). clear. intros l Hs.
  induction Hs as [|x l Hs IH Hx]; intros Hnd; [constructor|].
  apply NoDup_cons in Hnd as [Hni Hnd]. constructor; [auto|].
  apply Forall_forall. intros y Hy. rewrite Forall_forall in Hx.
  destruct (proj1 (bytes_le_lt x y) (Hx y Hy)) as [? | ->]; done.
Qed.

Lemma merge_loop_nil removed additions : merge_loop removed [] additions = additions.
Proof. simpl. induction additions as [|a additions IH]; [done|]. by rewrite IH. Qed.

(** The equation of the merge loop for a non-empty [base]. *)
Lemma merge_loop_cons removed b base additions :
  merge_loop removed (b :: base) additions =
  if bool_decide (b ∈ removed) then merge_loop removed base additions
  else match additions with
       | [] => b :: merge_loop removed base []
       | a :: rest =>
           if bytes_ltb b a then b :: merge_loop removed base additions
           else a :: merge_loop removed (b :: base) rest
       end.
Proof. by destruct additions. Qed.

Lemma merge_loop_elem removed base additions k :
  k ∈ merge_loop removed base additions <-> (k ∈ base /\ k ∉ removed) \/ k ∈ additions.
Proof.
  revert additions. induction base as [|b base IHb]; intros additions.
  { rewrite merge_loop_nil, elem_of_nil. tauto. }
  induction additions as [|a additions IHa]; rewrite merge_loop_cons; case_bool_decide as Hr.
  - rewrite IHb, !elem_of_cons, elem_of_nil. clear IHb. naive_solver.
  - rewrite elem_of_cons, IHb, !elem_of_cons, elem_of_nil. clear IHb. naive_solver.
  - rewrite IHb, !elem_of_cons. clear IHb IHa. naive_solver.
  - destruct (bytes_ltb b a); rewrite elem_of_cons; [rewrite IHb|rewrite IHa];
      rewrite !elem_of_cons; clear IHb IHa; naive_solver.
Qed.

Lemma merge_loop_sorted removed base additions :
  strictly_sorted base -> strictly_sorted additions -> (forall k, k ∈ base -> k ∉ additions) ->
  strictly_sorted (merge_loop removed base additions).
Proof.
  revert additions. induction base as [|b base IHb]; intros additions Hb Ha Hd.
  { by rewrite merge_loop_nil. }
  apply StronglySorted_cons in Hb as [Hbx Hb]. rewrite Forall_forall in Hbx.
  induction additions as [|a additions IHa]; rewrite merge_loop_cons; case_bool_decide as Hr.
  - apply IHb; auto. intros k Hk. apply Hd. by right.
  - constructor; [apply IHb; auto; intros k Hk; apply Hd; by right|].
    apply Forall_forall. intros k [[Hk _]| []%elem_of_nil]%merge_loop_elem. by apply Hbx.
  - apply IHb; auto. intros k Hk. apply Hd. by right.
  - pose proof Ha as [Hax Ha']%StronglySorted_cons. rewrite Forall_forall in Hax.
    destruct (bytes_ltb b a) eqn:Hba.
    + constructor; [apply IHb; auto; intros k Hk; apply Hd; by right|].
      apply Forall_forall. intros k [[Hk _]|[-> |Hk]%elem_of_cons]%merge_loop_elem; auto.
      eapply bytes_lt_trans; [exact Hba|auto].
    + assert (bytes_lt a b) as Hab.
      { destruct (bytes_ltb a b) eqn:E; [done|]. exfalso.
        apply (Hd b); [left|]. rewrite (bytes_ltb_total b a); [left|done..]. }
      constructor.
      * apply IHa; auto. intros k Hk Hka. apply (Hd k); [done|]. by right.
      * apply Forall_forall. intros k [[[-> |Hk]%elem_of_cons _]|Hk]%merge_loop_elem; auto.
        eapply bytes_lt_trans; [exact Hab|auto].
Qed.

(** ** The plan *)

(** The keys the batch adds to the index, in batch order. *)
Definition added_keys (keys : list bytes) (mutations : list Mutation) : list bytes :=
  MutKey <$> filter (fun m => is_delete m = false /\ key_exists keys (MutKey m) = false) mutations.

Definition removes (keys : list bytes) (m : Mutation) : bool :=
  is_delete m && key_exists keys (MutKey m).

(** The batch kinds [Batch.Validate] lets through. *)
Definition known_kind (m : Mutation) : Prop := is_put m = negb (is_delete m).

Lemma elem_of_added_keys keys mutations k :
  k ∈ added_keys keys mutations <->
  exists m, m ∈ mutations /\ MutKey m = k /\ is_delete m = false /\ key_exists keys k = false.
Proof.
  unfold added_keys. rewrite list_elem_of_fmap. setoid_rewrite list_elem_of_filter. naive_solver.
Qed.

Lemma NoDup_added_keys keys mutations :
  NoDup (MutKey <$> mutations) -> NoDup (added_keys keys mutations).
Proof.
  intros Hnd. eapply sublist_NoDup; [exact Hnd|].
  apply fmap_sublist, sublist_filter.
Qed.

Lemma delta_loop_spec base mutations removed additions :
  delta_loop base mutations removed additions =
  (removed ∪ list_to_set (MutKey <$> filter (fun m => removes base m) mutations),
   additions ++ added_keys base mutations).
Proof.
  revert removed additions. induction mutations as [|m mutations IH]; intros removed additions.
  { simpl. f_equal; [set_solver|by rewrite app_nil_r]. }
  unfold added_keys in *. simpl. rewrite !filter_cons. unfold removes in *.
  destruct (is_delete m) eqn:Hd, (key_exists base (MutKey m)) eqn:He; rewrite IH; clear IH;
    repeat case_decide; simpl in *; try done; try (exfalso; intuition discriminate); f_equal;
    rewrite <- ?app_assoc; try done.
  by rewrite (assoc_L (∪)), (comm_L (∪) removed).
Qed.

Lemma plan_loop_spec keys last mutations changed bulkMerge additions :
  Forall known_kind mutations ->
  plan_loop keys last mutations changed bulkMerge additions =
  (changed || existsb (removes keys) mutations
     || negb (bool_decide (added_keys keys mutations = [])),
   bulkMerge || existsb (removes keys) mutations
     || existsb (fun k => negb (bool_decide (last = [])) && bytes_leb k last)
          (added_keys keys mutations),
   additions ++ added_keys keys mutations).
Proof.
  revert changed bulkMerge additions.
  induction mutations as [|m mutations IH]; intros changed bulkMerge additions Hk.
  { simpl. by rewrite !orb_false_r, app_nil_r. }
  apply Forall_cons in Hk as [Hm Hk]. unfold known_kind in Hm.
  unfold added_keys in *. simpl plan_loop. rewrite filter_cons. unfold removes in *. rewrite Hm.
  destruct (is_delete m) eqn:Hd, (key_exists keys (MutKey m)) eqn:He; simpl;
    rewrite IH by done; repeat case_decide; simpl in *; try naive_solver;
    rewrite ?Hd, ?He, ?orb_true_r; simpl; try done.
  rewrite <- app_assoc; simpl. f_equal. f_equal.
  destruct (_ && bytes_leb (MutKey m) last), bulkMerge; simpl; by rewrite ?orb_true_r.
Qed.

(** A batch names each key at most once. *)
Lemma key_unique mutations m m' :
  NoDup (MutKey <$> mutations) -> m ∈ mutations -> m' ∈ mutations -> MutKey m = MutKey m' -> m = m'.
Proof.
  intros Hnd [i Hi]%list_elem_of_lookup [j Hj]%list_elem_of_lookup Heq.
  assert (i = j) as ->; [|congruence].
  eapply NoDup_lookup; [exact Hnd| |]; rewrite list_lookup_fmap.
  - by rewrite Hi.
  - rewrite Hj. simpl. by f_equal.
Qed.

Section plan.
Variables (s : KeySlice) (mutations : list Mutation).
Hypothesis keys_sorted : strictly_sorted (ks_keys s).
Hypothesis keys_int : len (ks_keys s) < 2 ^ 63.
Hypothesis batch_nodup : NoDup (MutKey <$> mutations).
Hypothesis batch_kinds : Forall known_kind mutations.

Lemma removes_iff m :
  m ∈ mutations -> removes (ks_keys s) m = true <-> is_delete m = true /\ MutKey m ∈ ks_keys s.
Proof. intros _. unfold removes. rewrite andb_true_iff, key_exists_iff by done. done. Qed.

Lemma key_exists_false k : key_exists (ks_keys s) k = false <-> k ∉ ks_keys s.
Proof. rewrite <- not_true_iff_false, key_exists_iff by done. done. Qed.

Lemma added_keys_fresh k : k ∈ added_keys (ks_keys s) mutations -> k ∉ ks_keys s.
Proof. intros (m & _ & _ & _ & He)%elem_of_added_keys. by apply key_exists_false. Qed.

Lemma key_after_iff k :
  key_after mutations k (k ∈ ks_keys s) <->
  k ∈ added_keys (ks_keys s) mutations \/
  (k ∈ ks_keys s /\ forall m, m ∈ mutations -> MutKey m = k -> is_delete m = false).
Proof.
  unfold key_after. rewrite elem_of_added_keys. split.
  - intros [(m & Hm & Hk & Hd)|?]; [|by right].
    destruct (key_exists (ks_keys s) k) eqn:He; [|left; by exists m].
    right. apply key_exists_iff in He; [|done..]. split; [done|].
    intros m' Hm' Hk'. by rewrite (key_unique mutations m' m) by congruence.
  - intros [(m & Hm & Hk & Hd & _)|?]; [left; by exists m|by right].
Qed.

(** Without removals the index only grows by the added keys. *)
Lemma key_after_grow k :
  existsb (removes (ks_keys s)) mutations = false ->
  key_after mutations k (k ∈ ks_keys s) <->
  k ∈ ks_keys s \/ k ∈ added_keys (ks_keys s) mutations.
Proof.
  intros Hno. rewrite key_after_iff. split; [tauto|]. intros [Hk|?]; [|by left].
  right. split; [done|]. intros m Hm Heq. destruct (is_delete m) eqn:Hd; [|done].
  apply not_true_iff_false in Hno. destruct Hno. apply existsb_exists. exists m.
  split; [by apply list_elem_of_In|]. apply removes_iff; [done|]. by rewrite Heq.
Qed.

Lemma merge_spec :
  let r := ks_keys (mergeOrderedKeyDelta (ks_keys s) mutations) in
  strictly_sorted r /\ forall k, k ∈ r <-> key_after mutations k (k ∈ ks_keys s).
Proof.
  unfold mergeOrderedKeyDelta. rewrite delta_loop_spec. simpl. split.
  - apply merge_loop_sorted; [done|by apply sort_Strings_strict, NoDup_added_keys|].
    intros k Hk. rewrite sort_Strings_Permutation. intros Ha. by apply added_keys_fresh in Ha.
  - intros k. rewrite merge_loop_elem, sort_Strings_Permutation, key_after_iff.
    rewrite union_empty_l_L, elem_of_list_to_set, list_elem_of_fmap.
    setoid_rewrite list_elem_of_filter.
    enough (k ∈ ks_keys s ->
      ~ (exists m, k = MutKey m /\ removes (ks_keys s) m /\ m ∈ mutations) <->
      (forall m, m ∈ mutations -> MutKey m = k -> is_delete m = false)) by tauto.
    intros Hk. split.
    + intros Hn m Hm Heq. destruct (is_delete m) eqn:Hd; [|done].
      exfalso. apply Hn. exists m. split_and!; [done| |done].
      apply Is_true_true, removes_iff; [done|]. by rewrite Heq.
    + intros Hall (m & Heq & Hr & Hm). apply Is_true_true, removes_iff in Hr as [Hd _]; [|done].
      by rewrite (Hall m Hm) in Hd.
Qed.

Lemma last_key_max k :
  k ∈ ks_keys s -> bytes_le k (key_at (ks_keys s) (len (ks_keys s) - 1)).
Proof.
  intros [i Hi]%list_elem_of_lookup. pose proof (lookup_lt_Some _ _ _ Hi) as Hl.
  assert (ks_keys s !! Z.to_nat (len (ks_keys s) - 1)
    = Some (key_at (ks_keys s) (len (ks_keys s) - 1))) as Hlast
    by (apply key_at_lookup; unfold len; lia).
  destruct (decide (i = Z.to_nat (len (ks_keys s) - 1))) as [->|Hne].
  - rewrite Hi in Hlast. injection Hlast as <-. apply bytes_le_lt. by right.
  - apply bytes_lt_le. eapply (strictly_sorted_lookup (ks_keys s)); eauto. unfold len in *. lia.
Qed.

(** Appending keys above the last one keeps the slice sorted. *)
Lemma tail_sorted :
  existsb (fun k => negb (bool_decide
      ((if len (ks_keys s) =? 0 then [] else key_at (ks_keys s) (len (ks_keys s) - 1)) = []))
    && bytes_leb k (if len (ks_keys s) =? 0 then [] else key_at (ks_keys s) (len (ks_keys s) - 1)))
    (added_keys (ks_keys s) mutations) = false ->
  (forall k, k ∈ ks_keys s -> k <> []) ->
  strictly_sorted (ks_keys s ++ sort_Strings (added_keys (ks_keys s) mutations)).
Proof.
  intros Hno Hne. apply StronglySorted_app_2; [|done|by apply sort_Strings_strict, NoDup_added_keys].
  intros x y Hx Hy. rewrite sort_Strings_Permutation in Hy.
  pose proof (last_key_max x Hx) as Hmax.
  destruct (Z.eqb_spec (len (ks_keys s)) 0) as [Hz|Hz].
  { apply len_nil_iff in Hz. rewrite Hz in Hx. by apply elem_of_nil in Hx. }
  eapply bytes_le_lt_trans; [exact Hmax|].
  destruct (bytes_ltb (key_at (ks_keys s) (len (ks_keys s) - 1)) y) eqn:Hlt; [done|].
  exfalso. apply not_true_iff_false in Hno. apply Hno, existsb_exists. exists y.
  split; [by apply list_elem_of_In|]. apply andb_true_iff. split.
  - apply negb_true_iff, bool_decide_eq_false. apply Hne.
    eapply list_elem_of_lookup_2, key_at_lookup. pose proof (len_nonneg (ks_keys s)). lia.
  - unfold bytes_leb. by rewrite Hlt.
Qed.

Hypothesis keys_nonempty : forall k, k ∈ ks_keys s -> k <> [].
Hypothesis keys_fit : len (ks_keys s) <= ks_cap s.

(** Installing the plan leaves a strictly sorted slice that holds the keys
    the batch leaves, within its capacity. *)
Lemma installPlan_spec :
  let s' := installPlan s (planOrderedKeys s mutations) in
  strictly_sorted (ks_keys s') /\
  (forall k, k ∈ ks_keys s' <-> key_after mutations k (k ∈ ks_keys s)) /\
  len (ks_keys s') <= ks_cap s'.
Proof.
  unfold planOrderedKeys. rewrite plan_loop_spec by done. rewrite !orb_false_l, app_nil_l.
  pose proof tail_sorted as Htail. set (adds := added_keys (ks_keys s) mutations) in *.
  destruct (existsb (removes (ks_keys s)) mutations) eqn:Hrem.
  { simpl. destruct merge_spec. split_and!; try done.
    unfold mergeOrderedKeyDelta. destruct (delta_loop _ _ _ _). simpl. lia. }
  pose proof (fun k => key_after_grow k Hrem) as Hgrow.
  destruct (decide (adds = [])) as [Hadds|Hadds].
  { rewrite bool_decide_eq_true_2 by done. simpl. unfold installPlan. simpl.
    split_and!; try done. intros k. rewrite Hgrow. fold adds. rewrite Hadds, elem_of_nil. tauto. }
  rewrite bool_decide_eq_false_2 by done. simpl.
  destruct (existsb _ adds) eqn:Hbulk; simpl.
  { destruct merge_spec. split_and!; try done.
    unfold mergeOrderedKeyDelta. destruct (delta_loop _ _ _ _). simpl. lia. }
  specialize (Htail eq_refl keys_nonempty).
  assert (forall k, k ∈ ks_keys s ++ sort_Strings adds <-> key_after mutations k (k ∈ ks_keys s)).
  { intros k. by rewrite elem_of_app, sort_Strings_Permutation, Hgrow. }
  assert (len (sort_Strings adds) <> 0).
  { rewrite len_nil_iff. intros Hnil. pose proof (sort_Strings_Permutation adds) as Hp.
    rewrite Hnil in Hp. by apply Permutation_nil in Hp. }
  destruct (Z.leb_spec (len (ks_keys s) + len (sort_Strings adds)) (ks_cap s));
    unfold installPlan; simpl.
  - destruct (Z.eqb_spec (len (sort_Strings adds)) 0); [done|]. simpl. split_and!; try done. lia.
  - split_and!; try done. rewrite len_app. lia.
Qed.

(** The in-place append never grows the slice. *)
Lemma installPlan_fits :
  plan_replacement (planOrderedKeys s mutations) = None ->
  ks_cap (installPlan s (planOrderedKeys s mutations)) = ks_cap s.
Proof.
  unfold planOrderedKeys. destruct (plan_loop _ _ _ _ _ _) as [[changed bulk] adds].
  destruct changed, bulk; simpl; try done.
  destruct (Z.leb_spec (len (ks_keys s) + len (sort_Strings adds)) (ks_cap s)); simpl; [|done].
  intros _. unfold installPlan. simpl. destruct (Z.eqb_spec (len (sort_Strings adds)) 0); [done|].
  simpl. rewrite len_app. lia.
Qed.
End plan.

(** ** Properties *)

Lemma sample_sorted : strictly_sorted [lit "a"; lit "b"; lit "d"].
Proof. repeat constructor. Qed.

(** C33: The ordered key index after a batch.  For any batch with distinct keys,
    the plan (append a tail in place when all new keys come last, otherwise
    merge into a new slice) installs a strictly sorted key list that holds
    exactly the keys present after the batch: those it puts, and the old ones
    it does not delete. *)
Theorem ordered_index_refines s mutations :
  strictly_sorted (ks_keys s) -> len (ks_keys s) < 2 ^ 63 ->
  NoDup (MutKey <$> mutations) -> Forall known_kind mutations ->
  (forall k, k ∈ ks_keys s -> k <> []) -> len (ks_keys s) <= ks_cap s ->
  let s' := installPlan s (planOrderedKeys s mutations) in
  strictly_sorted (ks_keys s') /\
  (forall k, k ∈ ks_keys s' <-> key_after mutations k (k ∈ ks_keys s)) /\
  len (ks_keys s') <= ks_cap s'.
Proof. intros. by apply installPlan_spec. Qed.

(** One put in the middle, one at the end, one deletion. *)
Lemma ordered_index_refines_witness :
  let s := MkKeySlice [lit "a"; lit "b"; lit "d"] 4 in
  let mutations := [NewPutMutation (lit "e") None SampleBatch.unconditional None;
                    NewDeleteMutation (lit "b") 7;
                    NewPutMutation (lit "c") None SampleBatch.unconditional None] in
  let s' := installPlan s (planOrderedKeys s mutations) in
  strictly_sorted (ks_keys s') /\
  (forall k, k ∈ ks_keys s' <-> key_after mutations k (k ∈ ks_keys s)) /\
  len (ks_keys s') <= ks_cap s'.
Proof.
  intros s mutations. apply (ordered_index_refines s mutations).
  - apply sample_sorted.
  - by vm_compute.
  - apply (bool_decide_unpack _). by vm_compute.
  - repeat constructor.
  - intros k Hk. subst s. simpl in Hk. repeat (apply elem_of_cons in Hk as [-> |Hk]; [done|]).
    by apply elem_of_nil in Hk.
  - by vm_compute.
Defined.
