(* ===== verification/History.v ===== *)
(** * History: the bounded change history of internal/engine/history.go

    [historyLog] keeps the most recent commits for watches.  [append] evicts
    whole commits from the front until the event and byte bounds hold again and
    remembers the last evicted revision in [compactedThrough]; a replay from
    before it is refused.  The specification compares the bounded log with the
    list of all commits ever appended. *)

From stdpp Require Import base list strings sorting pretty.
From Stdlib Require Import ZArith Lia.
From S2P Require Import Prelude.
From S2P Require Import Bytes.
From S2P Require Import Errors.
From S2P Require Import ApiTypes.
From S2P Require Import StorageErrors.
From S2P Require Import WalCodec.

Local Open Scope Z_scope.
Local Open Scope go_scope.

Record eventGroup := MkGroup {
  grp_revision : Revision;
  grp_events : list ChangeEvent;
  grp_bytes : Z
}.

Record historyLog := MkHistory {
  h_commits : list eventGroup;
  h_eventCount : Z;
  h_byteCount : Z;
  h_maxEvents : Z;
  h_maxBytes : Z;
  h_compactedThrough : Revision
}.

Definition history_initialize (limits : Limits) (snapshotRevision : Revision) : historyLog :=
  MkHistory [] 0 0 (MaxHistoryEvents limits) (MaxHistoryBytes limits) snapshotRevision.

Definition historyEventBytes (event : ChangeEvent) : Z :=
  24 + len (EvtKey event) +
  match EvtRecord event with
  | None => 0
  | Some record =>
      len (RecKey record) + len (RecValue record) +
      match RecExpiresAt record with Some _ => 8 | None => 0 end
  end.

Definition groupBytes (events : list ChangeEvent) : Z :=
  foldl (fun n e => n + historyEventBytes e) 0 events.

(** The eviction loop, on the commits from the front. *)
Fixpoint evict (maxEvents maxBytes : Z) (commits : list eventGroup) (eventCount byteCount : Z)
    (compactedThrough : Revision) : historyLog :=
  match commits with
  | evicted :: rest =>
      if (maxEvents <? eventCount) || (maxBytes <? byteCount) then
        evict maxEvents maxBytes rest (eventCount - len (grp_events evicted))
          (byteCount - grp_bytes evicted)
          (if compactedThrough <? grp_revision evicted then grp_revision evicted else compactedThrough)
      else MkHistory commits eventCount byteCount maxEvents maxBytes compactedThrough
  | [] => MkHistory [] eventCount byteCount maxEvents maxBytes compactedThrough
  end.

Definition history_append (h : historyLog) (events : list ChangeEvent) : historyLog :=
  match events with
  | [] => h
  | first :: _ =>
      let group := MkGroup (EvtRevision first) events (groupBytes events) in
      evict (h_maxEvents h) (h_maxBytes h) (h_commits h ++ [group])
        (h_eventCount h + len events) (h_byteCount h + groupBytes events) (h_compactedThrough h)
  end.

(** The events of a recovered commit. *)
Definition recoveredEvent (revision : Revision) (index : nat) (effect : Effect) : ChangeEvent :=
  MkChangeEvent revision (Z.of_nat index) (EffKind effect) (EffKey effect)
    (match EffKind effect with
     | ChangePut =>
         Some (NewRecord (EffKey effect) (Some (EffValue effect)) revision (EffExpiresAt effect))
     | _ => None
     end).

Definition recoveredEvents (commit : CommitFrame) : list ChangeEvent :=
  imap (recoveredEvent (FrRevision commit)) (FrEffects commit).

Fixpoint rebuild_loop (h : historyLog) (commits : list CommitFrame) (current previous : Revision)
    : result goerror (historyLog * Revision) :=
  match commits with
  | [] => Ok (h, previous)
  | commit :: rest =>
      reject (FrRevision commit <=? previous) || (current <? FrRevision commit)
        with invalidField "recovered_commits"
          ("revision " +:+ pretty (FrRevision commit)
           +:+ " is outside strictly increasing recovery bounds after revision " +:+ pretty previous) ;;
      rebuild_loop (history_append h (recoveredEvents commit)) rest current (FrRevision commit)
  end.

Definition history_rebuild (h : historyLog) (commits : list CommitFrame) (current : Revision)
    : result goerror historyLog :=
  match rebuild_loop h commits current (h_compactedThrough h) with
  | Err e => Err e
  | Ok (h, previous) =>
      reject negb (previous =? current)
        with invalidField "recovered_commits"
          ("coverage ends at revision " +:+ pretty previous +:+ " instead of current revision "
           +:+ pretty current) ;;
      Ok h
  end.

Definition earliestAvailable (h : historyLog) : Revision :=
  match h_commits h with
  | group :: _ => grp_revision group
  | [] => h_compactedThrough h
  end.

Definition revisionCompacted (requested earliest : Revision) : goerror :=
  ErrGap (newError CodeRevisionCompacted "The requested watch revision is no longer retained."
    RetryAfterRescan [EvRequestedRevision requested; EvEarliestRevision earliest]
    [ActionScanPrefix; ActionRestartWatch; ActionAbort]).

(** The events of a group under a prefix. *)
Definition matching (prefix : bytes) (events : list ChangeEvent) : list ChangeEvent :=
  filter (fun e => has_prefix (EvtKey e) prefix) events.

Fixpoint replay_loop (prefix : bytes) (after : Revision) (commits : list eventGroup) : list eventGroup :=
  match commits with
  | [] => []
  | commit :: rest =>
      if grp_revision commit <=? after then replay_loop prefix after rest
      else
        let events := matching prefix (grp_events commit) in
        if negb (len events =? 0)
        then MkGroup (grp_revision commit) events 0 :: replay_loop prefix after rest
        else replay_loop prefix after rest
  end.

Definition replayGroups (h : historyLog) (prefix : bytes) (after : Revision)
    : result goerror (list eventGroup) :=
  reject after <? h_compactedThrough h with revisionCompacted after (earliestAvailable h) ;;
  Ok (replay_loop prefix after (h_commits h)).

(** The bounded variant: [None] when the backlog exceeds [limit] events. *)
Fixpoint replay_watch_loop (prefix : bytes) (after : Revision) (limit : Z) (commits : list eventGroup)
    (groups : list eventGroup) (total : Z) : option (list eventGroup * Z) :=
  match commits with
  | [] => Some (groups, total)
  | commit :: rest =>
      if grp_revision commit <=? after then replay_watch_loop prefix after limit rest groups total
      else
        let events := matching prefix (grp_events commit) in
        let count := len events in
        if count =? 0 then replay_watch_loop prefix after limit rest groups total
        else if (limit <? count) || (limit - count <? total) then None
        else replay_watch_loop prefix after limit rest
               (groups ++ [MkGroup (grp_revision commit) events 0]) (total + count)
  end.

(** [(groups, total, fits, err)]. *)
Definition replayGroupsForWatch (h : historyLog) (prefix : bytes) (after : Revision) (limit : Z)
    : result goerror (list eventGroup * Z * bool) :=
  reject after <? h_compactedThrough h with revisionCompacted after (earliestAvailable h) ;;
  match replay_watch_loop prefix after limit (h_commits h) [] 0 with
  | Some (groups, total) => Ok (groups, total, true)
  | None => Ok ([], 0, false)
  end.

(** ** Specification: the unbounded history *)

(** The group [append] makes of a non-empty list of events. *)
Definition group_of (events : list ChangeEvent) : eventGroup :=
  MkGroup (default 0 (EvtRevision <$> head events)) events (groupBytes events).

(** The log after appending every commit of [all], oldest first. *)
Definition history_run (h : historyLog) (all : list (list ChangeEvent)) : historyLog :=
  foldl history_append h all.

Definition events_total (groups : list eventGroup) : Z :=
  foldr (fun g n => len (grp_events g) + n) 0 groups.
Definition bytes_total (groups : list eventGroup) : Z := foldr (fun g n => grp_bytes g + n) 0 groups.

(** Commits in the order of their revisions, all after [after]. *)
Definition increasing (after : Revision) (groups : list eventGroup) : Prop :=
  StronglySorted Z.lt (after :: (grp_revision <$> groups)).

(** The log [h] against all groups [all] since the snapshot revision [base]:
    it keeps a suffix of them, within its bounds, and [compactedThrough] is the
    last revision it has given up. *)
Record history_inv (base : Revision) (all : list eventGroup) (h : historyLog) : Prop := {
  hi_increasing : increasing base all;
  hi_suffix : exists evicted, all = evicted ++ h_commits h /\
    h_compactedThrough h = default base (last (grp_revision <$> evicted));
  hi_events : h_eventCount h = events_total (h_commits h);
  hi_bytes : h_byteCount h = bytes_total (h_commits h);
  hi_maxEvents : h_eventCount h <= h_maxEvents h;
  hi_maxBytes : h_byteCount h <= h_maxBytes h
}.

(** ** Lemmas *)

Lemma evict_spec maxEvents maxBytes commits eventCount byteCount compactedThrough :
  0 <= maxEvents -> 0 <= maxBytes ->
  eventCount = events_total commits -> byteCount = bytes_total commits ->
  increasing compactedThrough commits ->
  let h := evict maxEvents maxBytes commits eventCount byteCount compactedThrough in
  (exists evicted, commits = evicted ++ h_commits h /\
     h_compactedThrough h = default compactedThrough (last (grp_revision <$> evicted))) /\
  h_eventCount h = events_total (h_commits h) /\ h_byteCount h = bytes_total (h_commits h) /\
  h_eventCount h <= maxEvents /\ h_byteCount h <= maxBytes /\
  h_maxEvents h = maxEvents /\ h_maxBytes h = maxBytes.
Proof.
  intros HE HB. revert eventCount byteCount compactedThrough.
  induction commits as [|g commits IH]; intros eventCount byteCount ct He Hb Hinc; simpl.
  { simpl in *. split_and!; try done; try lia. by exists []. }
  destruct (Z.ltb_spec maxEvents eventCount) as [Hov|Hfit]; simpl;
    [|destruct (Z.ltb_spec maxBytes byteCount) as [Hov|Hfit']].
  3:{ simpl. split_and!; try done. by exists []. }
  all: apply StronglySorted_cons in Hinc as [Hall Hinc]; simpl in Hall;
    apply Forall_cons in Hall as [Hlt _];
    rewrite (proj2 (Z.ltb_lt ct (grp_revision g)) Hlt);
    destruct (IH (eventCount - len (grp_events g)) (byteCount - grp_bytes g) (grp_revision g))
      as ((evicted & Heq & Hct) & Hrest); simpl in *; try lia; try done;
    (split; [|done]); exists (g :: evicted); cbn [app]; rewrite <- Heq, fmap_cons, last_cons;
    (split; [done|]); rewrite Hct; by destruct (last (grp_revision <$> evicted)).
Qed.

Lemma evict_maxima maxEvents maxBytes commits n b r :
  h_maxEvents (evict maxEvents maxBytes commits n b r) = maxEvents /\
  h_maxBytes (evict maxEvents maxBytes commits n b r) = maxBytes.
Proof. revert n b r. induction commits; intros; simpl; [done|]. by destruct (_ || _). Qed.

Lemma increasing_snoc base all r :
  increasing base (all ++ [r]) <-> increasing base all /\ default base (last (grp_revision <$> all)) < grp_revision r.
Proof.
  unfold increasing. rewrite fmap_app. simpl.
  change (base :: (grp_revision <$> all) ++ [grp_revision r])
    with ((base :: (grp_revision <$> all)) ++ [grp_revision r]).
  rewrite StronglySorted_app. split.
  - intros (Hlt & Hs & _). split; [done|]. apply Hlt; [|left].
    destruct (last (grp_revision <$> all)) as [x|] eqn:Hl; simpl; [|left].
    right. apply last_Some in Hl as [l ->]. apply elem_of_app. right. by left.
  - intros [Hs Hlast]. split_and!; [|done|repeat constructor].
    intros x y Hx ->%list_elem_of_singleton.
    eapply Z.le_lt_trans; [|exact Hlast]. revert Hx Hs. clear Hlast r.
    generalize (grp_revision <$> all). intros l Hx Hs.
    destruct (last l) as [z|] eqn:Hl; simpl.
    + apply last_Some in Hl as [l' ->]. rewrite app_comm_cons in *.
      apply StronglySorted_app in Hs as (Hlt & _).
      apply elem_of_app in Hx as [Hx| ->%list_elem_of_singleton]; [|done].
      specialize (Hlt x z Hx ltac:(left)). lia.
    + apply last_None in Hl as ->. apply list_elem_of_singleton in Hx as ->. done.
Qed.

Lemma increasing_app base l k :
  increasing base (l ++ k) ->
  increasing base l /\ increasing (default base (last (grp_revision <$> l))) k.
Proof.
  revert base. induction l as [|g l IH]; intros base Hinc.
  { split; [repeat constructor|done]. }
  apply StronglySorted_cons in Hinc as [Hall Hinc]. destruct (IH (grp_revision g) Hinc) as [Hl Hk].
  rewrite fmap_app, Forall_app, fmap_cons, Forall_cons in Hall. split.
  - unfold increasing. rewrite fmap_cons. constructor; [done|]. constructor; tauto.
  - rewrite fmap_cons, last_cons. by destruct (last (grp_revision <$> l)).
Qed.

Lemma history_inv_init limits base :
  limits_ok limits -> history_inv base [] (history_initialize limits base).
Proof.
  intros Hl. pose proof (limits_ok_fields limits Hl).
  split; simpl; try lia; [repeat constructor|by exists []].
Qed.

(** Every [append] keeps the invariant, for events of a later revision. *)
Lemma history_inv_append base all h events :
  0 <= h_maxEvents h -> 0 <= h_maxBytes h ->
  history_inv base all h -> events <> [] ->
  increasing base (all ++ [group_of events]) ->
  history_inv base (all ++ [group_of events]) (history_append h events) /\
  h_maxEvents (history_append h events) = h_maxEvents h /\
  h_maxBytes (history_append h events) = h_maxBytes h.
Proof.
  intros HE HB [_ (evicted & -> & Hct) He Hb HmE HmB] Hne Hinc.
  destruct events as [|first events]; [done|]. unfold history_append. fold (group_of (first :: events)).
  set (g := group_of (first :: events)) in *. rewrite <- app_assoc in Hinc.
  apply increasing_app in Hinc as Hinc'. destruct Hinc' as [_ Hrest]. rewrite <- Hct in Hrest.
  assert (forall (f : eventGroup -> Z) l, foldr (fun g n => f g + n) 0 (l ++ [g])
            = foldr (fun g n => f g + n) 0 l + f g) as Hsum.
  { intros f l. induction l; simpl; lia. }
  edestruct (evict_spec (h_maxEvents h) (h_maxBytes h) (h_commits h ++ [g])
    (h_eventCount h + len (first :: events)) (h_byteCount h + groupBytes (first :: events))
    (h_compactedThrough h)) as ((ev & Heq & Hc) & H1 & H2 & H3 & H4 & H5 & H6); try done.
  { unfold events_total. rewrite (Hsum (fun g => len (grp_events g))). rewrite He. done. }
  { unfold bytes_total. rewrite (Hsum grp_bytes). rewrite Hb. done. }
  change (MkGroup (EvtRevision first) (first :: events) (groupBytes (first :: events))) with g.
  split_and!; try done. split; try done; [by rewrite <- app_assoc| |lia|lia].
  exists (evicted ++ ev). rewrite <- !app_assoc, <- Heq. split; [done|].
  rewrite Hc, Hct, fmap_app, last_app. by destruct (last (grp_revision <$> ev)).
Qed.

Lemma increasing_take base l k : increasing base (l ++ k) -> increasing base l.
Proof. intros H. by apply increasing_app in H as [? _]. Qed.

Lemma history_inv_run limits base all :
  limits_ok limits -> Forall (fun events => events <> []) all ->
  increasing base (group_of <$> all) ->
  history_inv base (group_of <$> all) (history_run (history_initialize limits base) all).
Proof.
  intros Hl Hne Hinc. pose proof (limits_ok_fields limits Hl).
  enough (history_inv base (group_of <$> all) (history_run (history_initialize limits base) all) /\
    h_maxEvents (history_run (history_initialize limits base) all) = MaxHistoryEvents limits /\
    h_maxBytes (history_run (history_initialize limits base) all) = MaxHistoryBytes limits) by tauto.
  unfold history_run. induction all as [|events all IH] using rev_ind.
  { split_and!; try done. by apply history_inv_init. }
  rewrite foldl_app, fmap_app in *. simpl in *. apply Forall_app in Hne as [Hne Hev].
  apply Forall_cons in Hev as [Hev _].
  destruct (IH Hne (increasing_take _ _ _ Hinc)) as (Hinv & HE & HB).
  destruct (history_inv_append base (group_of <$> all)
    (foldl history_append (history_initialize limits base) all) events) as (? & H1 & H2); try done; try lia.
  split_and!; [done|congruence|congruence].
Qed.

(** The evicted groups lie at or below [compactedThrough]. *)
Lemma evicted_old base evicted kept r :
  increasing base (evicted ++ kept) -> default base (last (grp_revision <$> evicted)) <= r ->
  Forall (fun g => grp_revision g <= r) evicted.
Proof.
  intros [Hinc _]%increasing_app Hr. apply Forall_forall. intros g Hg.
  revert Hinc Hr Hg. unfold increasing. destruct (last (grp_revision <$> evicted)) as [z|] eqn:Hl; simpl.
  - apply last_Some in Hl as [l Hl]. intros Hs Hr Hg.
    assert (grp_revision g ∈ l ++ [z]) as Hin by (rewrite <- Hl; by apply list_elem_of_fmap_2).
    rewrite Hl in Hs. apply StronglySorted_cons in Hs as [_ Hs].
    apply StronglySorted_app in Hs as (Hlt & _).
    apply elem_of_app in Hin as [Hin| Hin%list_elem_of_singleton]; [|lia].
    specialize (Hlt _ z Hin ltac:(left)). lia.
  - apply last_None in Hl. intros _ _ Hg. destruct evicted; [by apply elem_of_nil in Hg|done].
Qed.

Lemma replay_loop_app prefix after l k :
  replay_loop prefix after (l ++ k) = replay_loop prefix after l ++ replay_loop prefix after k.
Proof.
  induction l as [|g l IH]; simpl; [done|].
  destruct (_ <=? _); [done|]. destruct (negb _); [|done]. simpl. by rewrite IH.
Qed.

Lemma replay_loop_old prefix after l :
  Forall (fun g => grp_revision g <= after) l -> replay_loop prefix after l = [].
Proof.
  induction 1 as [|g l Hg _ IH]; simpl; [done|]. by rewrite (proj2 (Z.leb_le _ _)).
Qed.

(** Replay from the bounded log is replay from the full one, or is refused. *)
Lemma replayGroups_spec base all h prefix after :
  history_inv base all h ->
  replayGroups h prefix after =
  if after <? h_compactedThrough h then Err (revisionCompacted after (earliestAvailable h))
  else Ok (replay_loop prefix after all).
Proof.
  intros [Hinc (evicted & -> & Hct) _ _ _ _]. unfold replayGroups.
  destruct (Z.ltb_spec after (h_compactedThrough h)); [done|]. f_equal.
  rewrite replay_loop_app, (replay_loop_old _ _ evicted); [done|].
  eapply evicted_old; [done|]. rewrite <- Hct. done.
Qed.

Lemma replay_watch_loop_spec prefix after limit commits groups total :
  0 <= total -> total = events_total groups ->
  match replay_watch_loop prefix after limit commits groups total with
  | Some (groups', total') =>
      groups' = groups ++ replay_loop prefix after commits /\ total' = events_total groups' /\
      (total <= limit -> total' <= limit)
  | None => limit < events_total (groups ++ replay_loop prefix after commits)
  end.
Proof.
  assert (forall l k, events_total (l ++ k) = events_total l + events_total k) as Happ.
  { intros l k. induction l; simpl; lia. }
  assert (forall l, 0 <= events_total l) as Hpos.
  { intros l. induction l as [|g l IH]; simpl; [done|]. pose proof (len_nonneg (grp_events g)). lia. }
  revert groups total. induction commits as [|g commits IH]; intros groups total Ht Heq; simpl.
  { rewrite app_nil_r. by split_and!. }
  destruct (_ <=? after); [by apply IH|]. set (events := matching prefix (grp_events g)).
  pose proof (len_nonneg events). destruct (Z.eqb_spec (len events) 0) as [Hz|Hz]; simpl; [by apply IH|].
  set (g' := MkGroup (grp_revision g) events 0).
  assert (events_total (groups ++ [g']) = total + len events) as Hg by (rewrite Happ, Heq; simpl; lia).
  pose proof (Hpos (replay_loop prefix after commits)).
  destruct (Z.ltb_spec limit (len events)); simpl.
  { rewrite Happ. simpl. lia. }
  destruct (Z.ltb_spec (limit - len events) total); simpl.
  { rewrite Happ. simpl. lia. }
  specialize (IH (groups ++ [g']) (total + len events) ltac:(lia) ltac:(lia)).
  rewrite <- app_assoc in IH. simpl in IH. destruct (replay_watch_loop _ _ _ _ _ _) as [[gs t]|]; [|done].
  destruct IH as (-> & -> & Hle). split_and!; try done. intros _. apply Hle. lia.
Qed.

Lemma replayGroupsForWatch_spec h prefix after limit :
  0 <= limit ->
  replayGroupsForWatch h prefix after limit =
  match replayGroups h prefix after with
  | Err e => Err e
  | Ok groups =>
      if events_total groups <=? limit then Ok (groups, events_total groups, true) else Ok ([], 0, false)
  end.
Proof.
  intros Hl. unfold replayGroupsForWatch, replayGroups.
  destruct (after <? h_compactedThrough h); [done|].
  pose proof (replay_watch_loop_spec prefix after limit (h_commits h) [] 0 ltac:(lia) eq_refl) as Hspec.
  destruct (replay_watch_loop _ _ _ _ _ _) as [[groups total]|]; simpl in Hspec.
  - destruct Hspec as (-> & -> & Hle). specialize (Hle Hl). by rewrite (proj2 (Z.leb_le _ _)).
  - by rewrite (proj2 (Z.leb_gt _ _)).
Qed.

(** ** Properties *)

(** C35: The bounded history answers like the unbounded one, or refuses.  After
    any sequence of commits with increasing revisions the log stays within its
    event and byte limits; a replay after a revision it has compacted past is
    refused, and any other replay returns exactly the matching events of all
    commits since, in order and with none missing. *)
Theorem history_replay_complete limits base all prefix after :
  limits_ok limits -> Forall (fun events => events <> []) all ->
  increasing base (group_of <$> all) ->
  let h := history_run (history_initialize limits base) all in
  h_eventCount h <= h_maxEvents h /\ h_byteCount h <= h_maxBytes h /\
  replayGroups h prefix after =
  (if after <? h_compactedThrough h then Err (revisionCompacted after (earliestAvailable h))
   else Ok (replay_loop prefix after (group_of <$> all))).
Proof.
  intros Hl Hne Hinc h. pose proof (history_inv_run limits base all Hl Hne Hinc) as Hinv. fold h in Hinv.
  split_and!; [apply Hinv..|by eapply replayGroups_spec].
Qed.

Module SampleHistory.
Definition change (revision : Revision) (key : string) : ChangeEvent :=
  MkChangeEvent revision 0 ChangePut (lit key) (Some (MkRecord (lit key) (lit "v") revision None)).
Definition all : list (list ChangeEvent) :=
  [[change 3 "jobs/1"; change 3 "owners/1"]; [change 5 "jobs/2"]; [change 9 "owners/2"]].
End SampleHistory.

Lemma history_replay_complete_witness :
  let h := history_run (history_initialize DefaultOptions 2) SampleHistory.all in
  h_eventCount h <= h_maxEvents h /\ h_byteCount h <= h_maxBytes h /\
  replayGroups h (lit "jobs/") 3 =
  (if 3 <? h_compactedThrough h then Err (revisionCompacted 3 (earliestAvailable h))
   else Ok (replay_loop (lit "jobs/") 3 (group_of <$> SampleHistory.all))).
Proof.
  apply (history_replay_complete DefaultOptions 2 SampleHistory.all (lit "jobs/") 3).
  - apply DefaultOptions_ok.
  - repeat constructor; done.
  - repeat constructor.
Defined.

(** The replay a watch starts from is the full replay exactly when that has
    at most [limit] events: the early exits of the counting loop report
    overflow if and only if the backlog exceeds the buffer. *)
Theorem watch_backlog_exact h prefix after limit :
  0 <= limit ->
  replayGroupsForWatch h prefix after limit =
  match replayGroups h prefix after with
  | Err e => Err e
  | Ok groups =>
      if events_total groups <=? limit then Ok (groups, events_total groups, true) else Ok ([], 0, false)
  end.
Proof. apply replayGroupsForWatch_spec. Qed.

Lemma watch_backlog_exact_witness :
  let h := history_run (history_initialize DefaultOptions 2) SampleHistory.all in
  replayGroupsForWatch h (lit "jobs/") 2 1 =
  match replayGroups h (lit "jobs/") 2 with
  | Err e => Err e
  | Ok groups =>
      if events_total groups <=? 1 then Ok (groups, events_total groups, true) else Ok ([], 0, false)
  end.
Proof. intros h. apply (watch_backlog_exact h). lia. Defined.
