(* ===== verification/Expiry.v ===== *)
(** * Expiry: the expiry schedule of internal/engine/expiry.go

    A binary heap of pointers to candidates (container/heap over
    [expiryHeap]), each candidate knowing its position, and the map from a key
    to its candidate.  A pointer is a [positive] into a store of candidates, so
    that the aliasing of the heap and of [expiryByKey] is explicit. *)

From stdpp Require Import base gmap list sorting strings.
From Stdlib Require Import ZArith Lia.
From S2P Require Import Prelude.
From S2P Require Import Bytes.
From S2P Require Import Errors.
From S2P Require Import ApiTypes.

Local Open Scope Z_scope.

Record expiryCandidate := MkCandidate {
  cand_at : Time;
  cand_key : bytes;
  cand_revision : Revision;
  cand_index : Z
}.

Record expiries := MkExpiries {
  ex_items : list positive;
  ex_store : gmap positive expiryCandidate;
  ex_byKey : gmap bytes positive
}.

Definition no_expiries : expiries := MkExpiries [] ∅ ∅.

Definition candidate (x : expiries) (p : positive) : expiryCandidate :=
  default (MkCandidate 0 [] 0 (-1)) (ex_store x !! p).

Definition setIndex (i : Z) (c : expiryCandidate) : expiryCandidate :=
  MkCandidate (cand_at c) (cand_key c) (cand_revision c) i.

Definition setStore (s : gmap positive expiryCandidate) (x : expiries) : expiries :=
  MkExpiries (ex_items x) s (ex_byKey x).
Definition setItems (l : list positive) (x : expiries) : expiries :=
  MkExpiries l (ex_store x) (ex_byKey x).
Definition setByKey (m : gmap bytes positive) (x : expiries) : expiries :=
  MkExpiries (ex_items x) (ex_store x) m.

(** ** The [heap.Interface] methods *)

Definition cand_less (a b : expiryCandidate) : bool :=
  if cand_at a =? cand_at b then
    if bool_decide (cand_key a = cand_key b) then cand_revision a <? cand_revision b
    else bytes_ltb (cand_key a) (cand_key b)
  else time_Before (cand_at a) (cand_at b).

(** [items[i]] for an index in range. *)
Definition item_at (x : expiries) (i : nat) : positive := default 1%positive (ex_items x !! i).

Definition heap_Less (x : expiries) (i j : nat) : bool :=
  cand_less (candidate x (item_at x i)) (candidate x (item_at x j)).

Definition heap_Swap (x : expiries) (i j : nat) : expiries :=
  let a := item_at x i in
  let b := item_at x j in
  let x := setItems (<[j := a]> (<[i := b]> (ex_items x))) x in
  let x := setStore (alter (setIndex (Z.of_nat i)) b (ex_store x)) x in
  setStore (alter (setIndex (Z.of_nat j)) a (ex_store x)) x.

Definition heap_Push (x : expiries) (p : positive) : expiries :=
  let x := setStore (alter (setIndex (len (ex_items x))) p (ex_store x)) x in
  setItems (ex_items x ++ [p]) x.

Definition heap_Pop (x : expiries) : positive * expiries :=
  let n := length (ex_items x) in
  let last := item_at x (n - 1) in
  let x := setItems (take (n - 1) (ex_items x)) x in
  (last, setStore (alter (setIndex (-1)) last (ex_store x)) x).

(** ** container/heap

    The loops carry fuel; [up_loop] moves towards the root and [down_loop]
    away from it, so [j] and [n] steps are enough. *)

Fixpoint up_loop (fuel : nat) (x : expiries) (j : nat) : expiries :=
  match fuel with
  | O => x
  | S fuel =>
      let i := ((j - 1) / 2)%nat in
      if (i =? j)%nat || negb (heap_Less x j i) then x
      else up_loop fuel (heap_Swap x i j) i
  end.

Definition heap_up (x : expiries) (j : nat) : expiries := up_loop (S j) x j.

Fixpoint down_loop (fuel : nat) (x : expiries) (i n : nat) : expiries * nat :=
  match fuel with
  | O => (x, i)
  | S fuel =>
      let j1 := (2 * i + 1)%nat in
      if (n <=? j1)%nat then (x, i)
      else
        let j2 := (j1 + 1)%nat in
        let j := if (j2 <? n)%nat && heap_Less x j2 j1 then j2 else j1 in
        if negb (heap_Less x j i) then (x, i)
        else down_loop fuel (heap_Swap x i j) j n
  end.

(** The result of [down]: whether it moved the element. *)
Definition heap_down (x : expiries) (i0 n : nat) : expiries * bool :=
  let (x, i) := down_loop n x i0 n in (x, (i0 <? i)%nat).

Definition Push (x : expiries) (p : positive) : expiries :=
  let x := heap_Push x p in heap_up x (length (ex_items x) - 1).

Definition Pop (x : expiries) : positive * expiries :=
  let n := (length (ex_items x) - 1)%nat in
  let x := heap_Swap x 0 n in
  let (x, _) := heap_down x 0 n in
  heap_Pop x.

Definition RemoveAt (x : expiries) (i : nat) : positive * expiries :=
  let n := (length (ex_items x) - 1)%nat in
  let x :=
    if (n =? i)%nat then x
    else
      let x := heap_Swap x i n in
      let (x, moved) := heap_down x i n in
      if moved then x else heap_up x i in
  heap_Pop x.

Definition Fix (x : expiries) (i : nat) : expiries :=
  let (x, moved) := heap_down x i (length (ex_items x)) in
  if moved then x else heap_up x i.

(** ** The schedule *)

Definition removeScheduledExpiry (x : expiries) (key : bytes) : expiries :=
  match (ex_byKey x !! key : option positive) with
  | None => x
  | Some p =>
      let x := setByKey (delete key (ex_byKey x)) x in
      (RemoveAt x (Z.to_nat (cand_index (candidate x p)))).2
  end.

Definition scheduleRecordExpiry (x : expiries) (record : DBRecord) : expiries :=
  match RecExpiresAt record with
  | None => removeScheduledExpiry x (RecKey record)
  | Some at_ =>
      match (ex_byKey x !! RecKey record : option positive) with
      | Some p =>
          let c := candidate x p in
          let x := setStore (<[p := MkCandidate at_ (cand_key c) (RecRevision record) (cand_index c)]>
                               (ex_store x)) x in
          Fix x (Z.to_nat (cand_index c))
      | None =>
          let p := fresh (dom (ex_store x)) in
          let x := setStore (<[p := MkCandidate at_ (RecKey record) (RecRevision record) 0]>
                               (ex_store x)) x in
          let x := setByKey (<[RecKey record := p]> (ex_byKey x)) x in
          Push x p
      end
  end.

(** ** Invariant and abstraction *)

(** The position of every heap item is its index. *)
Definition indexed (x : expiries) : Prop :=
  forall i p, ex_items x !! i = Some p ->
    exists c, ex_store x !! p = Some c /\ cand_index c = Z.of_nat i.

(** The heap holds exactly the candidates [expiryByKey] points to. *)
Definition linked (x : expiries) : Prop :=
  forall k p, ex_byKey x !! k = Some p <-> p ∈ ex_items x /\ cand_key (candidate x p) = k.

(** No candidate precedes its parent. *)
Definition heap_ordered (x : expiries) (n : nat) : Prop :=
  forall i, (0 < i < n)%nat -> heap_Less x i ((i - 1) / 2) = false.

Record expiries_inv (x : expiries) : Prop := {
  ei_nodup : NoDup (ex_items x);
  ei_indexed : indexed x;
  ei_linked : linked x;
  ei_heap : heap_ordered x (length (ex_items x))
}.

(** What the schedule says: the expiry and revision of each scheduled key. *)
Definition scheduled (x : expiries) : gmap bytes (Time * Revision) :=
  (fun p => (cand_at (candidate x p), cand_revision (candidate x p))) <$> ex_byKey x.

(** ** The order of candidates *)

(** A candidate up to its position. *)
Definition same_candidate (a b : expiryCandidate) : Prop :=
  cand_at a = cand_at b /\ cand_key a = cand_key b /\ cand_revision a = cand_revision b.

Lemma cand_less_same a a' b b' :
  same_candidate a a' -> same_candidate b b' -> cand_less a b = cand_less a' b'.
Proof. intros (Ha & Hk & Hr) (Ha' & Hk' & Hr'). unfold cand_less. by rewrite Ha, Hk, Hr, Ha', Hk', Hr'. Qed.

Definition cand_le (a b : expiryCandidate) : Prop := cand_less b a = false.

Lemma cand_less_spec a b :
  cand_less a b = true <->
  cand_at a < cand_at b \/
  (cand_at a = cand_at b /\ (bytes_lt (cand_key a) (cand_key b) \/
     (cand_key a = cand_key b /\ cand_revision a < cand_revision b))).
Proof.
  unfold cand_less, time_Before, bytes_lt.
  destruct (Z.eqb_spec (cand_at a) (cand_at b)) as [He|He].
  - case_bool_decide as Hk.
    + rewrite Z.ltb_lt, Hk, bytes_ltb_irrefl. intuition (discriminate || lia).
    + intuition lia.
  - rewrite Z.ltb_lt. intuition lia.
Qed.

Lemma cand_less_asym a b : cand_less a b = true -> cand_le a b.
Proof.
  unfold cand_le. rewrite <- not_true_iff_false, !cand_less_spec. intros H1 H2.
  pose proof (bytes_lt_irrefl (cand_key a)) as Hirr. unfold complement in Hirr.
  destruct H1 as [|(? & [Hk|[Hk ?]])], H2 as [|(? & [Hk'|[Hk' ?]])]; try lia.
  - apply Hirr. by etrans.
  - rewrite Hk' in Hk. by apply bytes_lt_irrefl in Hk.
  - rewrite Hk in Hk'. by apply bytes_lt_irrefl in Hk'.
Qed.

Lemma cand_le_spec a b :
  cand_le a b <->
  cand_at a < cand_at b \/
  (cand_at a = cand_at b /\ (bytes_lt (cand_key a) (cand_key b) \/
     (cand_key a = cand_key b /\ cand_revision a <= cand_revision b))).
Proof.
  unfold cand_le. rewrite <- not_true_iff_false, cand_less_spec. split.
  - intros Hn. destruct (Z.lt_trichotomy (cand_at a) (cand_at b)) as [|[He|]]; [by left| |tauto].
    right. split; [done|]. destruct (decide (bytes_lt (cand_key a) (cand_key b))) as [|Hab]; [by left|].
    destruct (decide (bytes_lt (cand_key b) (cand_key a))) as [|Hba]; [naive_solver|].
    right. assert (cand_key a = cand_key b) as Hk
      by (apply bytes_ltb_total; by apply not_true_iff_false).
    split; [done|]. apply Z.nlt_ge. intros ?. apply Hn. right. split; [done|]. right. by split.
  - intros H1 H2. destruct H1 as [|(? & [Hk|[Hk ?]])], H2 as [|(? & [Hk'|[Hk' ?]])]; try lia.
    + apply (bytes_lt_irrefl (cand_key a)). by etrans.
    + rewrite Hk' in Hk. by apply bytes_lt_irrefl in Hk.
    + rewrite Hk in Hk'. by apply bytes_lt_irrefl in Hk'.
Qed.

Lemma cand_le_trans a b c : cand_le a b -> cand_le b c -> cand_le a c.
Proof.
  rewrite !cand_le_spec. intros [|(? & [Hk|[Hk ?]])] [|(? & [Hk'|[Hk' ?]])]; try (left; lia);
    right; (split; [lia|]).
  - left. by etrans.
  - left. by rewrite <- Hk'.
  - left. by rewrite Hk.
  - right. split; [congruence|lia].
Qed.

(** ** Swapping *)

(** The heap's items and positions are consistent. *)
Definition shape (x : expiries) : Prop := NoDup (ex_items x) /\ indexed x.

(** [y] holds the candidates of [x], in another order. *)
Definition reordered (x y : expiries) : Prop :=
  ex_items y ≡ₚ ex_items x /\ ex_byKey y = ex_byKey x /\ dom (ex_store y) = dom (ex_store x) /\
  forall p, same_candidate (candidate y p) (candidate x p).

Lemma same_candidate_trans a b c : same_candidate a b -> same_candidate b c -> same_candidate a c.
Proof. unfold same_candidate. intros (-> & -> & ->). done. Qed.

Lemma reordered_refl x : reordered x x.
Proof. by repeat split. Qed.

Lemma reordered_trans x y z : reordered x y -> reordered y z -> reordered x z.
Proof.
  intros (H1 & H2 & H3 & H4) (G1 & G2 & G3 & G4). split_and!; [by rewrite G1|congruence|congruence|].
  intros p. by eapply same_candidate_trans.
Qed.

Definition value_at (x : expiries) (i : nat) : expiryCandidate := candidate x (item_at x i).

Lemma candidate_alter x f p q :
  (forall c, same_candidate (f c) c) ->
  same_candidate (candidate (setStore (alter f p (ex_store x)) x) q) (candidate x q).
Proof.
  intros Hf. unfold candidate. simpl. destruct (decide (p = q)) as [->|Hne].
  - rewrite lookup_alter_eq. destruct (ex_store x !! q); simpl; [apply Hf|done].
  - by rewrite lookup_alter_ne.
Qed.

Lemma swap_reordered x i j :
  (i < length (ex_items x))%nat -> (j < length (ex_items x))%nat -> reordered x (heap_Swap x i j).
Proof.
  intros Hi Hj. unfold heap_Swap. split_and!; [simpl|done|simpl; by rewrite !dom_alter_L|].
  - unfold item_at. destruct (lookup_lt_is_Some_2 _ _ Hi) as [a Ha].
    destruct (lookup_lt_is_Some_2 _ _ Hj) as [b Hb]. rewrite Ha, Hb.
    by apply Permutation_insert_swap.
  - intros p. cbv zeta. eapply same_candidate_trans; [by apply candidate_alter|].
    eapply same_candidate_trans; [by apply candidate_alter|]. done.
Qed.

Lemma swap_item x i j k :
  (i < length (ex_items x))%nat -> (j < length (ex_items x))%nat -> (k < length (ex_items x))%nat ->
  item_at (heap_Swap x i j) k =
  if decide (k = j) then item_at x i else if decide (k = i) then item_at x j else item_at x k.
Proof.
  intros Hi Hj Hk. unfold heap_Swap, item_at at 1. simpl. destruct (decide (k = j)) as [->|Hkj].
  { rewrite list_lookup_insert_eq; [done|]. by rewrite length_insert. }
  rewrite list_lookup_insert_ne by done. destruct (decide (k = i)) as [->|Hki].
  { by rewrite list_lookup_insert_eq. }
  by rewrite list_lookup_insert_ne.
Qed.

Lemma swap_length x i j : length (ex_items (heap_Swap x i j)) = length (ex_items x).
Proof. unfold heap_Swap. simpl. by rewrite !length_insert. Qed.

Lemma item_at_lookup x i : (i < length (ex_items x))%nat -> ex_items x !! i = Some (item_at x i).
Proof. intros Hi. unfold item_at. by destruct (lookup_lt_is_Some_2 _ _ Hi) as [a ->]. Qed.

Lemma swap_shape x i j :
  (i < length (ex_items x))%nat -> (j < length (ex_items x))%nat -> shape x -> shape (heap_Swap x i j).
Proof.
  intros Hi Hj [Hnd Hidx]. destruct (swap_reordered x i j Hi Hj) as (Hp & _ & Hdom & _).
  assert (NoDup (ex_items (heap_Swap x i j))) as Hnd' by (by rewrite Hp). split; [done|].
  intros k p Hk. pose proof (lookup_lt_Some _ _ _ Hk) as Hlt. rewrite swap_length in Hlt.
  assert (item_at (heap_Swap x i j) k = p) as Hit by (unfold item_at; by rewrite Hk).
  rewrite swap_item in Hit by done. unfold heap_Swap. simpl.
  assert (forall m, (m < length (ex_items x))%nat ->
    exists c, ex_store x !! item_at x m = Some c /\ cand_index c = Z.of_nat m) as Hx
    by (intros m Hm; apply Hidx; by apply item_at_lookup).
  assert (forall m m', (m < length (ex_items x))%nat -> (m' < length (ex_items x))%nat ->
    item_at x m = item_at x m' -> m = m') as Hinj.
  { intros m m' Hm Hm' Heq. eapply NoDup_lookup; [exact Hnd|by apply item_at_lookup|].
    rewrite Heq. by apply item_at_lookup. }
  destruct (decide (k = j)) as [->|Hkj].
  { subst p. rewrite lookup_alter_eq. destruct (Hx i Hi) as (c & Hc & _).
    destruct (decide (item_at x j = item_at x i)) as [Heq|Hne].
    - rewrite Heq, lookup_alter_eq, Hc. simpl. by eexists.
    - rewrite lookup_alter_ne, Hc by done. simpl. by eexists. }
  destruct (decide (k = i)) as [->|Hki].
  - subst p. assert (item_at x i <> item_at x j) as Hne by (intros Heq; apply Hkj; by apply Hinj).
    rewrite lookup_alter_ne, lookup_alter_eq by done. destruct (Hx j Hj) as (c & Hc & _).
    rewrite Hc. simpl. by eexists.
  - subst p. rewrite !lookup_alter_ne by (intros Heq; apply Hinj in Heq; congruence). by apply Hx.
Qed.

(** The value found at a position after a swap. *)
Lemma swap_value x i j k :
  (i < length (ex_items x))%nat -> (j < length (ex_items x))%nat -> (k < length (ex_items x))%nat ->
  same_candidate (value_at (heap_Swap x i j) k)
    (value_at x (if decide (k = j) then i else if decide (k = i) then j else k)).
Proof.
  intros Hi Hj Hk. unfold value_at. rewrite swap_item by done.
  destruct (swap_reordered x i j Hi Hj) as (_ & _ & _ & Hs).
  destruct (decide (k = j)); [apply Hs|]. destruct (decide (k = i)); apply Hs.
Qed.

(** ** Sifting up and down *)

Definition parent (i : nat) : nat := ((i - 1) / 2)%nat.

Lemma parent_spec i :
  (i = 0 /\ parent i = 0 \/ i = 2 * parent i + 1 \/ i = 2 * parent i + 2)%nat.
Proof.
  unfold parent. pose proof (Nat.div_mod_eq (i - 1) 2).
  pose proof (Nat.mod_upper_bound (i - 1) 2 ltac:(lia)).
  destruct i; [by left|right]. simpl in *. lia.
Qed.

(** [lia] with the arithmetic of the parents in sight. *)
Ltac par_lia :=
  repeat match goal with
  | _ : context [parent ?k] |- _ =>
      lazymatch goal with
      | _ : (k = 0 /\ parent k = 0 \/ _)%nat |- _ => fail
      | _ => pose proof (parent_spec k)
      end
  | |- context [parent ?k] =>
      lazymatch goal with
      | _ : (k = 0 /\ parent k = 0 \/ _)%nat |- _ => fail
      | _ => pose proof (parent_spec k)
      end
  end; lia.

(** [value_at x a] does not come after [value_at x b]. *)
Definition vle (x : expiries) (a b : nat) : Prop := cand_le (value_at x a) (value_at x b).

(** The transposition of [i] and [j]. *)
Definition swapped (i j k : nat) : nat := if decide (k = j) then i else if decide (k = i) then j else k.

Lemma vle_swap x i j a b :
  (i < length (ex_items x))%nat -> (j < length (ex_items x))%nat ->
  (a < length (ex_items x))%nat -> (b < length (ex_items x))%nat ->
  vle (heap_Swap x i j) a b <-> vle x (swapped i j a) (swapped i j b).
Proof.
  intros Hi Hj Ha Hb. unfold vle, cand_le.
  by rewrite (cand_less_same _ _ _ _ (swap_value x i j b Hi Hj Hb) (swap_value x i j a Hi Hj Ha)).
Qed.

Lemma vle_trans x a b c : vle x a b -> vle x b c -> vle x a c.
Proof. apply cand_le_trans. Qed.

Lemma less_vle x a b : heap_Less x a b = true -> vle x a b.
Proof. apply cand_less_asym. Qed.

Lemma not_less_vle x a b : heap_Less x a b = false <-> vle x b a.
Proof. done. Qed.

(** Steps of the loops keep the shape and touch only positions below [n]. *)
Record moved (n : nat) (x y : expiries) : Prop := {
  mv_shape : shape y;
  mv_reordered : reordered x y;
  mv_length : length (ex_items y) = length (ex_items x);
  mv_above : forall k, (n <= k < length (ex_items x))%nat -> item_at y k = item_at x k
}.

Lemma moved_refl n x : shape x -> moved n x x.
Proof. intros Hs. split; auto using reordered_refl. Qed.

Lemma moved_trans n x y z : moved n x y -> moved n y z -> moved n x z.
Proof.
  intros [S1 R1 L1 A1] [S2 R2 L2 A2].
  split; [done|by eapply reordered_trans|congruence|]. intros k Hk.
  rewrite A2, A1 by lia. done.
Qed.

Lemma moved_swap n x i j :
  shape x -> (n <= length (ex_items x))%nat -> (i < n)%nat -> (j < n)%nat -> moved n x (heap_Swap x i j).
Proof.
  intros Hs Hn Hi Hj. split; [apply swap_shape; (done || lia)|apply swap_reordered; lia|apply swap_length|].
  intros k Hk. rewrite swap_item by lia. by repeat case_decide; try lia.
Qed.

Lemma up_loop_spec fuel x j n :
  shape x -> (n <= length (ex_items x))%nat -> (j < n)%nat -> (j < fuel)%nat ->
  (forall k, (0 < k < n)%nat -> k <> j -> vle x (parent k) k) ->
  (forall k, (0 < k < n)%nat -> parent k = j -> (0 < j)%nat -> vle x (parent j) k) ->
  moved n x (up_loop fuel x j) /\ heap_ordered (up_loop fuel x j) n.
Proof.
  revert x j. induction fuel as [|fuel IH]; intros x j Hs Hn Hj Hf Hedge Hgrand; [lia|].
  cbn [up_loop]. change ((j - 1) / 2)%nat with (parent j). cbv zeta. destruct (Nat.eqb_spec (parent j) j) as [Heq|Hne]; simpl.
  { assert (j = 0)%nat as -> by (par_lia). split; [by apply moved_refl|].
    intros k Hk. apply Hedge; lia. }
  assert (parent j < j)%nat as Hpj by (par_lia).
  destruct (heap_Less x j (parent j)) eqn:Hless; simpl.
  2:{ split; [by apply moved_refl|]. intros k Hk. destruct (decide (k = j)) as [->|]; [done|].
      by apply Hedge. }
  pose proof (moved_swap n x (parent j) j Hs Hn ltac:(lia) Hj) as Hm.
  pose proof Hm as [Hs' _ Hl _].
  destruct (IH (heap_Swap x (parent j) j) (parent j)) as [Hm' Hh]; try done; try lia.
  - intros k Hk Hkp. apply vle_swap; [par_lia..|]. unfold swapped.
    destruct (decide (k = j)) as [->|Hkj].
    { rewrite decide_False, decide_True by (par_lia). by apply less_vle. }
    rewrite (decide_False (P := k = parent j)) by done.
    destruct (decide (parent k = j)) as [Hpk|Hpk]; [by apply Hgrand; try lia|].
    destruct (decide (parent k = parent j)) as [Hpp|Hpp]; [|by apply Hedge].
    eapply vle_trans; [by apply less_vle|]. rewrite <- Hpp. by apply Hedge.
  - intros k Hk Hpk Hp. apply vle_swap; [par_lia..|]. unfold swapped.
    rewrite (decide_False (P := parent (parent j) = j)), (decide_False (P := parent (parent j) = parent j))
      by (par_lia).
    assert (vle x (parent (parent j)) (parent j)) as Hpp by (apply Hedge; lia).
    destruct (decide (k = j)) as [->|Hkj]; [done|].
    rewrite decide_False by (par_lia).
    eapply vle_trans; [exact Hpp|]. rewrite <- Hpk at 1. by apply Hedge.
  - split; [by eapply moved_trans|done].
Qed.

(** [i0] is where the sifting started; nothing is known of its own edge. *)
Lemma down_loop_spec fuel i0 x i n :
  shape x -> (n <= length (ex_items x))%nat -> (i0 <= i)%nat -> (n <= i + fuel)%nat ->
  (forall k, (0 < k < n)%nat -> parent k <> i -> k <> i0 -> vle x (parent k) k) ->
  (forall k, (0 < k < n)%nat -> parent k = i -> (0 < i)%nat -> vle x (parent i) k) ->
  let (y, i') := down_loop fuel x i n in
  moved n x y /\ (i <= i')%nat /\ (i' = i -> y = x) /\
  (forall k, (k < i)%nat -> (k < length (ex_items x))%nat -> item_at y k = item_at x k) /\
  (forall k, (0 < k < n)%nat -> k <> i0 -> vle y (parent k) k) /\
  (i < i' -> 0 < i -> i < n -> vle y (parent i) i)%nat.
Proof.
  revert x i. induction fuel as [|fuel IH]; intros x i Hs Hn H0 Hf Hedge Hgrand; simpl.
  { split_and!; auto using moved_refl; try lia. intros k Hk Hk0. apply Hedge; par_lia. }
  destruct (Nat.leb_spec n (i + (i + 0) + 1)) as [Hend|Hlt].
  { split_and!; auto using moved_refl; try lia. intros k Hk Hk0. apply Hedge; par_lia. }
  set (j1 := (i + (i + 0) + 1)%nat) in *. set (j2 := (j1 + 1)%nat) in *.
  set (j := if (j2 <? n)%nat && heap_Less x j2 j1 then j2 else j1).
  assert (parent j = i /\ (i < j < n)%nat /\
          forall k, (0 < k < n)%nat -> parent k = i -> vle x j k) as (Hpj & Hj & Hmin).
  { assert (forall k, (0 < k < n)%nat -> parent k = i -> k = j1 \/ k = j2) as Hch
      by (intros; unfold j1, j2 in *; par_lia).
    assert (forall k, vle x k k) as Hrefl by (intros k; apply cand_le_spec; right; split; [done|]; by right).
    unfold j. destruct (Nat.ltb_spec j2 n) as [H2|H2]; simpl; [destruct (heap_Less x j2 j1) eqn:Hl|];
      (split_and!; [unfold j1, j2 in *; par_lia..|]); intros k Hk Hpk;
      destruct (Hch k Hk Hpk) as [-> | ->]; auto using less_vle; lia. }
  destruct (heap_Less x j i) eqn:Hless; simpl.
  2:{ split_and!; auto using moved_refl; try lia. intros k Hk Hk0.
      destruct (decide (parent k = i)) as [Hpk|]; [|by apply Hedge]. rewrite Hpk.
      eapply vle_trans; [by apply not_less_vle|by apply Hmin]. }
  pose proof (moved_swap n x i j Hs Hn ltac:(lia) ltac:(lia)) as Hm. pose proof Hm as [Hs' _ Hl _].
  specialize (IH (heap_Swap x i j) j).
  destruct (down_loop fuel (heap_Swap x i j) j n) as [y i'].
  destruct IH as (Hm' & Hij & _ & Hlow & Hall & _); try done; try lia.
  - intros k Hk Hpk Hk0. apply vle_swap; [par_lia..|]. unfold swapped.
    destruct (decide (k = j)) as [->|Hkj].
    { rewrite Hpj, decide_False, decide_True by lia. by apply less_vle. }
    rewrite (decide_False (P := parent k = j)) by done.
    destruct (decide (k = i)) as [->|Hki].
    { rewrite decide_False by (par_lia). apply Hgrand; (done || lia). }
    destruct (decide (parent k = i)) as [Hpi|Hpi]; [by apply Hmin|by apply Hedge].
  - intros k Hk Hpk Hj0. apply vle_swap; [par_lia..|]. unfold swapped. rewrite Hpj.
    rewrite (decide_False (P := i = j)), (decide_True (P := i = i)) by lia.
    rewrite !decide_False by (par_lia). rewrite <- Hpk. apply Hedge; par_lia.
  - split_and!; try lia; [by eapply moved_trans| |done|].
    + intros k Hk Hkl. rewrite Hlow by (rewrite ?Hl; lia). rewrite swap_item by lia.
      by rewrite !decide_False by lia.
    + intros _ Hi0 Hin. destruct Hm' as [_ (_ & _ & _ & Hsame) _ _].
      assert (vle (heap_Swap x i j) (parent i) i) as Hv.
      { apply vle_swap; [par_lia..|]. unfold swapped.
        rewrite !(decide_False (P := parent i = _)) by (par_lia).
        rewrite (decide_False (P := i = j)), (decide_True (P := i = i)) by lia. apply Hgrand; (done || lia). }
      unfold vle, cand_le, value_at in *. rewrite !Hlow by (rewrite ?Hl; par_lia).
      rewrite <- Hv. apply cand_less_same; apply Hsame.
Qed.

(** Restoring the order around one position: [down], then [up] if it did not
    move.  This is the body of [Fix] and of [Remove]. *)
Lemma sift_spec x i n :
  shape x -> (n <= length (ex_items x))%nat -> (i < n)%nat ->
  (forall k, (0 < k < n)%nat -> parent k <> i -> k <> i -> vle x (parent k) k) ->
  (forall k, (0 < k < n)%nat -> parent k = i -> (0 < i)%nat -> vle x (parent i) k) ->
  let y := let (y, m) := heap_down x i n in if m then y else heap_up y i in
  moved n x y /\ heap_ordered y n.
Proof.
  intros Hs Hn Hi Hedge Hgrand. unfold heap_down.
  pose proof (down_loop_spec n i x i n Hs Hn ltac:(lia) ltac:(lia) Hedge Hgrand) as Hd.
  destruct (down_loop n x i n) as [y i']. destruct Hd as (Hm & Hii & Hsame & _ & Hall & Hi0).
  destruct (Nat.ltb_spec i i') as [Hlt|Hge].
  - split; [done|]. intros k Hk. fold (parent k). destruct (decide (k = i)) as [->|]; [|by apply Hall].
    apply Hi0; lia.
  - rewrite (Hsame ltac:(lia)) in *. apply up_loop_spec; try done; try lia.
Qed.

Lemma heap_ordered_edge x n k : heap_ordered x n -> (0 < k < n)%nat -> vle x (parent k) k.
Proof. intros H Hk. by apply H. Qed.

(** The root of a heap is least. *)
Lemma heap_root x n i : heap_ordered x n -> (i < n)%nat -> vle x 0 i.
Proof.
  intros Hh. induction i as [i IH] using lt_wf_ind. intros Hi.
  destruct (decide (i = 0%nat)) as [->|Hne].
  { apply cand_le_spec. right. split; [done|]. by right. }
  eapply vle_trans; [apply (IH (parent i)); par_lia|]. apply (heap_ordered_edge x n); [done|lia].
Qed.

(** Exchanging a position with the last one leaves order everywhere else. *)
Lemma swap_last_edges x i n :
  heap_ordered x (S n) -> length (ex_items x) = S n -> (i < n)%nat ->
  (forall k, (0 < k < n)%nat -> parent k <> i -> k <> i -> vle (heap_Swap x i n) (parent k) k) /\
  (forall k, (0 < k < n)%nat -> parent k = i -> (0 < i)%nat -> vle (heap_Swap x i n) (parent i) k).
Proof.
  intros Hh Hl Hi. pose proof (heap_ordered_edge x (S n)) as Hedge. split; intros k Hk Hpk Hki.
  - apply vle_swap; [par_lia..|]. unfold swapped. rewrite !decide_False by par_lia. apply Hedge; [done|lia].
  - apply vle_swap; [par_lia..|]. unfold swapped. rewrite !decide_False by par_lia.
    eapply vle_trans; [apply Hedge; [done|lia]|]. rewrite <- Hpk at 1. apply Hedge; [done|lia].
Qed.

(** [y] is [x] without the pointer [p]. *)
Definition popped (x y : expiries) (p : positive) : Prop :=
  ex_items x ≡ₚ p :: ex_items y /\ ex_byKey y = ex_byKey x /\ dom (ex_store y) = dom (ex_store x) /\
  forall q, same_candidate (candidate y q) (candidate x q).

Lemma heap_Pop_spec x n p y :
  shape x -> length (ex_items x) = S n -> heap_Pop x = (p, y) ->
  p = item_at x n /\ popped x y p /\ shape y /\ length (ex_items y) = n /\
  (heap_ordered x n -> heap_ordered y n).
Proof.
  intros [Hnd Hidx] Hl. unfold heap_Pop. rewrite Hl. replace (S n - 1)%nat with n by lia.
  intros [= <- <-]. set (p := item_at x n).
  assert (ex_items x = take n (ex_items x) ++ [p]) as Hsplit.
  { rewrite <- (take_drop n (ex_items x)) at 1. f_equal.
    rewrite (drop_S _ p) by (apply item_at_lookup; lia). rewrite drop_ge by lia. done. }
  assert (p ∉ take n (ex_items x) /\ NoDup (take n (ex_items x))) as [Hni Hnd'].
  { rewrite Hsplit in Hnd. apply NoDup_app in Hnd as (? & Hd & _). split; [|done].
    intros Hin. apply (Hd p Hin). by left. }
  set (y := setStore _ _).
  assert (forall q, same_candidate (candidate y q) (candidate x q)) as Hsame.
  { intros q. by apply (candidate_alter (setItems (take n (ex_items x)) x)). }
  assert (length (ex_items y) = n) as Hly by (simpl; rewrite length_take; lia).
  split; [done|]. split; [split_and!; try done|split; [split; [done|]|split; [done|]]].
  - simpl. rewrite Hsplit at 1. by rewrite Permutation_app_comm.
  - simpl. by rewrite dom_alter_L.
  - intros i q Hi. simpl in *. rewrite lookup_alter_ne.
    2:{ intros <-. apply Hni. by eapply list_elem_of_lookup_2. }
    apply Hidx. rewrite Hsplit. rewrite lookup_app_l; [done|]. by eapply lookup_lt_Some.
  - intros Hh i Hi. rewrite <- (Hh i Hi). unfold heap_Less.
    assert (forall k, (k < n)%nat -> item_at y k = item_at x k) as Hit
      by (intros k Hk; unfold item_at; simpl; by rewrite lookup_take_lt).
    rewrite !Hit by (fold (parent i); par_lia). by apply cand_less_same.
Qed.

Lemma popped_moved n x y z p : moved n x y -> popped y z p -> popped x z p.
Proof.
  intros [_ (Hp & Hb & Hd & Hs) _ _] (Hp' & Hb' & Hd' & Hs').
  split_and!; [by rewrite <- Hp|congruence|congruence|]. intros q. by eapply same_candidate_trans.
Qed.

Lemma RemoveAt_spec x i p y :
  shape x -> heap_ordered x (length (ex_items x)) -> (i < length (ex_items x))%nat ->
  RemoveAt x i = (p, y) ->
  p = item_at x i /\ popped x y p /\ shape y /\ heap_ordered y (length (ex_items y)).
Proof.
  intros Hs Hh Hi. unfold RemoveAt. destruct (length (ex_items x)) as [|n] eqn:Hl; [lia|].
  replace (S n - 1)%nat with n by lia. destruct (Nat.eqb_spec n i) as [<-|Hne].
  { intros (-> & Hpop & Hsy & Hly & Hhy)%(heap_Pop_spec x n); try done.
    split_and!; try done. rewrite Hly. apply Hhy. intros k Hk. apply Hh. lia. }
  pose proof (moved_swap (S n) x i n Hs ltac:(lia) ltac:(lia) ltac:(lia)) as Hm1.
  pose proof Hm1 as [Hs1 _ Hl1 _]. destruct (swap_last_edges x i n Hh Hl ltac:(lia)) as [He Hg].
  destruct (sift_spec (heap_Swap x i n) i n) as [Hm2 Hh2]; try done; try lia.
  set (z := let (y, m) := heap_down (heap_Swap x i n) i n in if m then y else heap_up y i) in *.
  pose proof Hm2 as [Hs2 _ Hl2 Hab].
  intros (-> & Hpop & Hsy & Hly & Hhy)%(heap_Pop_spec z n); [|done|lia].
  split_and!; try done.
  - rewrite Hab by lia. rewrite swap_item by lia. by rewrite decide_True.
  - eapply popped_moved; [exact Hm1|]. by eapply popped_moved.
  - rewrite Hly. by apply Hhy.
Qed.

Lemma Pop_spec x p y :
  shape x -> heap_ordered x (length (ex_items x)) -> (0 < length (ex_items x))%nat ->
  Pop x = (p, y) ->
  p = item_at x 0 /\ popped x y p /\ shape y /\ heap_ordered y (length (ex_items y)) /\
  forall q, q ∈ ex_items x -> cand_le (candidate x p) (candidate x q).
Proof.
  intros Hs Hh Hi. unfold Pop. destruct (length (ex_items x)) as [|n] eqn:Hl; [lia|].
  replace (S n - 1)%nat with n by lia.
  pose proof (moved_swap (S n) x 0 n Hs ltac:(lia) ltac:(lia) ltac:(lia)) as Hm1.
  pose proof Hm1 as [Hs1 _ Hl1 _].
  assert (heap_ordered (heap_down (heap_Swap x 0 n) 0 n).1 n /\
          moved n (heap_Swap x 0 n) (heap_down (heap_Swap x 0 n) 0 n).1) as [Hh2 Hm2].
  { pose proof (down_loop_spec n 0 (heap_Swap x 0 n) 0 n Hs1 ltac:(lia) ltac:(lia) ltac:(lia)) as Hd.
    unfold heap_down. destruct (down_loop n (heap_Swap x 0 n) 0 n) as [z i']. simpl.
    destruct Hd as (Hm & _ & _ & _ & Hall & _); [|lia|split; [|done]].
    - destruct (decide (n = 0%nat)) as [->|]; [lia|].
      destruct (swap_last_edges x 0 n Hh Hl ltac:(lia)) as [He _]. intros k Hk Hpk Hk0. by apply He.
    - intros k Hk. apply Hall; lia. }
  destruct (heap_down (heap_Swap x 0 n) 0 n) as [z m]. cbn [fst] in *. pose proof Hm2 as [Hs2 _ Hl2 Hab].
  intros (-> & Hpop & Hsy & Hly & Hhy)%(heap_Pop_spec z n); [|done|lia].
  assert (item_at z n = item_at x 0) as Hz.
  { rewrite Hab by lia. rewrite swap_item by lia. by rewrite decide_True. }
  split_and!; try done.
  - eapply popped_moved; [exact Hm1|]. by eapply popped_moved.
  - rewrite Hly. by apply Hhy.
  - intros q [i Hq]%list_elem_of_lookup. rewrite Hz. pose proof (lookup_lt_Some _ _ _ Hq).
    pose proof (heap_root x (S n) i Hh ltac:(lia)) as Hr. unfold vle, value_at in Hr.
    replace q with (item_at x i); [done|]. unfold item_at. by rewrite Hq.
Qed.

(** ** The schedule as a map *)

Lemma vle_ext x y a b :
  same_candidate (value_at y a) (value_at x a) -> same_candidate (value_at y b) (value_at x b) ->
  vle y a b <-> vle x a b.
Proof. intros Ha Hb. unfold vle, cand_le. by rewrite (cand_less_same _ _ _ _ Hb Ha). Qed.

Lemma lookup_scheduled x k :
  scheduled x !! k =
  (fun p => (cand_at (candidate x p), cand_revision (candidate x p))) <$> (ex_byKey x !! k).
Proof. unfold scheduled. by rewrite lookup_fmap. Qed.

(** The position a candidate remembers is where the heap has it. *)
Lemma index_of x k p :
  expiries_inv x -> ex_byKey x !! k = Some p ->
  let i := Z.to_nat (cand_index (candidate x p)) in
  (i < length (ex_items x))%nat /\ item_at x i = p /\ cand_key (candidate x p) = k /\
  cand_index (candidate x p) = Z.of_nat i /\ is_Some (ex_store x !! p).
Proof.
  intros [_ Hidx Hlink _] Hk. apply Hlink in Hk as [[i Hi]%list_elem_of_lookup Hkey].
  destruct (Hidx i p Hi) as (c & Hc & Hci). unfold candidate in *. rewrite Hc in *. simpl in *.
  rewrite Hci, Nat2Z.id. split_and!; try done; [by eapply lookup_lt_Some|].
  unfold item_at. by rewrite Hi.
Qed.

Lemma removeScheduledExpiry_spec x k :
  expiries_inv x ->
  expiries_inv (removeScheduledExpiry x k) /\
  scheduled (removeScheduledExpiry x k) = delete k (scheduled x).
Proof.
  intros Hinv. pose proof Hinv as [Hnd Hidx Hlink Hheap].
  unfold linked in Hlink. unfold removeScheduledExpiry.
  destruct (ex_byKey x !! k) as [p|] eqn:Hk.
  2:{ split; [done|]. symmetry. apply delete_id. by rewrite lookup_scheduled, Hk. }
  destruct (index_of x k p Hinv Hk) as (Hi & Hit & Hkey & _ & _).
  set (x0 := setByKey (delete k (ex_byKey x)) x).
  change (cand_index (candidate x0 p)) with (cand_index (candidate x p)).
  set (i := Z.to_nat (cand_index (candidate x p))) in *.
  destruct (RemoveAt x0 i) as [q y] eqn:Hrem.
  apply RemoveAt_spec in Hrem as (-> & (Hperm & Hby & _ & Hsame) & [Hndy Hidy] & Hhy); [|done..].
  change (item_at x0 i) with (item_at x i) in Hperm. rewrite Hit in *. simpl in *.
  assert (p ∉ ex_items y) as Hp.
  { rewrite Hperm in Hnd. by apply NoDup_cons in Hnd as [? _]. }
  split.
  - split; try done. intros k' q. rewrite Hby, lookup_delete_Some, Hlink.
    destruct (Hsame q) as (_ & -> & _). change (candidate x0 q) with (candidate x q).
    rewrite Hperm, elem_of_cons. split.
    + intros (Hne & [-> |Hq] & Hkq); [congruence|done].
    + intros [Hq Hkq]. split_and!; [|by right|done]. intros <-.
      assert (ex_byKey x !! k = Some q) as Hkq'
        by (apply Hlink; rewrite Hperm, elem_of_cons; auto). congruence.
  - apply map_eq. intros k'. rewrite lookup_scheduled, Hby.
    destruct (decide (k = k')) as [->|Hne]; [by rewrite !lookup_delete_eq|].
    rewrite !lookup_delete_ne, lookup_scheduled by done. destruct (ex_byKey x !! k') as [q|]; [|done].
    simpl. by destruct (Hsame q) as (-> & _ & ->).
Qed.

(** A candidate's new time moves it to its place. *)
Lemma reschedule_spec x p k at_ rev :
  expiries_inv x -> ex_byKey x !! k = Some p ->
  let c := candidate x p in
  let x1 := setStore (<[p := MkCandidate at_ (cand_key c) rev (cand_index c)]> (ex_store x)) x in
  let y := Fix x1 (Z.to_nat (cand_index c)) in
  expiries_inv y /\ scheduled y = <[k := (at_, rev)]> (scheduled x).
Proof.
  intros Hinv Hk c x1 y. pose proof Hinv as [Hnd Hidx Hlink Hheap].
  unfold linked in Hlink.
  destruct (index_of x k p Hinv Hk) as (Hi & Hit & Hkey & Hix & [c0 Hc0]).
  fold c in Hi, Hit, Hkey, Hix. set (i := Z.to_nat (cand_index c)) in *.
  assert (forall q, q <> p -> candidate x1 q = candidate x q) as Hother
    by (intros q Hq; unfold candidate, x1; simpl; by rewrite lookup_insert_ne by congruence).
  assert (candidate x1 p = MkCandidate at_ (cand_key c) rev (cand_index c)) as Hp
    by (unfold candidate, x1; simpl; by rewrite lookup_insert_eq).
  assert (shape x1) as Hs1.
  { split; [done|]. intros j q Hj. destruct (decide (q = p)) as [->|Hne].
    - unfold x1. simpl. rewrite lookup_insert_eq. eexists. split; [done|]. simpl.
      destruct (Hidx j p Hj) as (c' & Hc' & <-). unfold c, candidate. by rewrite Hc'.
    - unfold x1. simpl. rewrite lookup_insert_ne by done. by apply Hidx. }
  assert (forall a, (a < length (ex_items x))%nat -> a <> i -> value_at x1 a = value_at x a) as Hval.
  { intros a Ha Hai. unfold value_at. apply Hother. change (item_at x1 a) with (item_at x a).
    intros Heq. apply Hai. eapply NoDup_lookup; [exact Hnd|by apply item_at_lookup|].
    rewrite Heq, <- Hit. by apply item_at_lookup. }
  assert (forall a b, (a < length (ex_items x))%nat -> (b < length (ex_items x))%nat ->
    a <> i -> b <> i -> vle x a b -> vle x1 a b) as Hvle.
  { intros a b Ha Hb Hai Hbi. unfold vle. by rewrite !Hval. }
  destruct (sift_spec x1 i (length (ex_items x))) as [Hm Hh]; try done.
  - intros a Ha Hpa Hai. apply Hvle; try par_lia. by apply (heap_ordered_edge x (length (ex_items x))).
  - intros a Ha Hpa Hi0. apply Hvle; try par_lia.
    eapply vle_trans; [by apply (heap_ordered_edge x (length (ex_items x)))|].
    rewrite <- Hpa at 1. by apply (heap_ordered_edge x (length (ex_items x))).
  - change (moved (length (ex_items x)) x1 y) in Hm. change (heap_ordered y (length (ex_items x))) in Hh.
    destruct Hm as [[Hndy Hidy] (Hperm & Hby & _ & Hsame) Hl _].
    assert (forall q, cand_key (candidate y q) = cand_key (candidate x q)) as Hkeys.
    { intros q. destruct (Hsame q) as (_ & -> & _). destruct (decide (q = p)) as [->|Hne];
        [by rewrite Hp|by rewrite Hother]. }
    split.
    + split; try done; [|by rewrite Hl]. intros k' q. rewrite Hby, Hkeys, Hperm. apply Hlink.
    + apply map_eq. intros k'. rewrite lookup_scheduled, Hby. change (ex_byKey x1) with (ex_byKey x).
      destruct (decide (k = k')) as [<-|Hne].
      * rewrite lookup_insert_eq, Hk. simpl. destruct (Hsame p) as (-> & _ & ->). by rewrite Hp.
      * rewrite lookup_insert_ne, lookup_scheduled by done.
        destruct (ex_byKey x !! k') as [q|] eqn:Hq; [|done]. simpl.
        destruct (Hsame q) as (-> & _ & ->). rewrite Hother; [done|].
        intros ->. destruct (index_of x k' p Hinv Hq) as (_ & _ & Hk' & _). fold c in Hk'. congruence.
Qed.

(** A candidate outside the heap is pushed and found under its key. *)
Lemma Push_spec x k p c :
  expiries_inv x -> ex_byKey x !! k = None -> ex_store x !! p = Some c -> p ∉ ex_items x ->
  cand_key c = k ->
  let y := Push (setByKey (<[k := p]> (ex_byKey x)) x) p in
  expiries_inv y /\ scheduled y = <[k := (cand_at c, cand_revision c)]> (scheduled x).
Proof.
  intros Hinv Hk Hstore Hni Hck y. pose proof Hinv as [Hnd Hidx Hlink Hheap].
  unfold linked in Hlink.
  set (x1 := setByKey (<[k := p]> (ex_byKey x)) x) in *.
  set (n := length (ex_items x)) in *. set (x2 := heap_Push x1 p).
  assert (ex_items x2 = ex_items x ++ [p]) as Hitems by done.
  assert (length (ex_items x2) = S n) as Hlen by (rewrite Hitems, length_app; simpl; lia).
  assert (forall q, q <> p -> candidate x2 q = candidate x q) as Hother.
  { intros q Hq. unfold candidate, x2. simpl. by rewrite lookup_alter_ne. }
  assert (candidate x2 p = setIndex (len (ex_items x)) c) as Hp.
  { unfold candidate, x2. simpl. by rewrite lookup_alter_eq, Hstore. }
  assert (forall a, (a < n)%nat -> item_at x2 a = item_at x a) as Hit
    by (intros a Ha; unfold item_at; by rewrite Hitems, lookup_app_l).
  assert (forall a, (a < n)%nat -> value_at x2 a = value_at x a) as Hval.
  { intros a Ha. unfold value_at. rewrite Hit, Hother; [done| |done]. intros Heq. apply Hni.
    rewrite <- Heq. eapply list_elem_of_lookup_2. by apply item_at_lookup. }
  assert (shape x2) as Hs2.
  { split; [rewrite Hitems, (comm (++)); by constructor|]. intros j q Hj. rewrite Hitems in Hj.
    apply lookup_app_Some in Hj as [Hj|[Hge Hj]].
    - unfold x2. simpl. rewrite lookup_alter_ne; [by apply Hidx|].
      intros ->; apply Hni; by eapply list_elem_of_lookup_2.
    - apply list_lookup_singleton_Some in Hj as [Hj ->]. unfold x2. simpl.
      rewrite lookup_alter_eq, Hstore. eexists. split; [done|]. simpl. unfold len. fold n. lia. }
  destruct (up_loop_spec (S n) x2 n (S n)) as [Hm Hh]; try done; try lia.
  - intros a Ha Han. unfold vle. rewrite !Hval by par_lia. apply (heap_ordered_edge x n); [done|lia].
  - intros a Ha Hpa. par_lia.
  - assert (y = up_loop (S n) x2 n) as Hpush.
    { unfold y, Push, heap_up. fold x2. rewrite Hlen. by replace (S n - 1)%nat with n by lia. }
    rewrite <- Hpush in *. destruct Hm as [[Hndy Hidy] (Hperm & Hby & _ & Hsame) Hl _].
    assert (forall q, q ∈ ex_items y <-> q ∈ ex_items x \/ q = p) as Hin.
    { intros q. by rewrite Hperm, Hitems, elem_of_app, list_elem_of_singleton. }
    split.
    + split; try done; [|by rewrite Hl, Hlen]. intros k' q. rewrite Hby, Hin.
      destruct (Hsame q) as (_ & -> & _). change (ex_byKey x2) with (<[k := p]> (ex_byKey x)).
      rewrite lookup_insert_Some, Hlink. split.
      * intros [[<- <-]|[Hne [Hq Hkq]]]; [rewrite Hp; auto|]. rewrite Hother by congruence. auto.
      * intros [[Hq| ->] Hkq]; [|left; rewrite Hp in Hkq; simpl in Hkq; by rewrite <- Hkq]. right.
        rewrite Hother in Hkq by congruence. split; [|done]. intros ->.
        assert (ex_byKey x !! k' = Some q) by (by apply Hlink). congruence.
    + apply map_eq. intros k'. rewrite lookup_scheduled, Hby.
      change (ex_byKey x2) with (<[k := p]> (ex_byKey x)). destruct (decide (k = k')) as [<-|Hne].
      * rewrite !lookup_insert_eq. simpl. destruct (Hsame p) as (-> & _ & ->). by rewrite Hp.
      * rewrite !lookup_insert_ne, lookup_scheduled by done.
        destruct (ex_byKey x !! k') as [q|] eqn:Hq; [|done]. simpl.
        destruct (Hsame q) as (-> & _ & ->). rewrite Hother; [done|]. intros ->.
        apply Hlink in Hq as [Hq _]. done.
Qed.

(** A new candidate in the store is not yet part of the schedule. *)
Lemma fresh_candidate x c :
  expiries_inv x ->
  let p := fresh (dom (ex_store x)) in
  let x1 := setStore (<[p := c]> (ex_store x)) x in
  expiries_inv x1 /\ scheduled x1 = scheduled x /\ p ∉ ex_items x.
Proof.
  intros [Hnd Hidx Hlink Hheap] p x1.
  assert (ex_store x !! p = None) as Hfresh by (apply not_elem_of_dom, is_fresh).
  assert (p ∉ ex_items x) as Hni.
  { intros [j Hj]%list_elem_of_lookup. destruct (Hidx j p Hj) as (c' & Hc' & _). congruence. }
  assert (forall q, q ∈ ex_items x -> candidate x1 q = candidate x q) as Hsame.
  { intros q Hq. unfold candidate, x1. simpl. rewrite lookup_insert_ne; [done|]. by intros ->. }
  assert (forall a, (a < length (ex_items x))%nat -> value_at x1 a = value_at x a) as Hval.
  { intros a Ha. apply (Hsame (item_at x a)). eapply list_elem_of_lookup_2. by apply item_at_lookup. }
  split_and!; [split; try done| |done].
  - intros j q Hj. unfold x1. simpl. rewrite lookup_insert_ne; [by apply Hidx|].
    intros ->. apply Hni. by eapply list_elem_of_lookup_2.
  - intros k q. change (ex_byKey x1) with (ex_byKey x). change (ex_items x1) with (ex_items x).
    unfold linked in Hlink. rewrite Hlink. split; intros [Hq Hk]; (split; [done|]).
    + by rewrite Hsame.
    + by rewrite <- Hsame.
  - intros a Ha. change (ex_items x1) with (ex_items x) in Ha. change (vle x1 (parent a) a). unfold vle. rewrite !Hval by par_lia.
    by apply (heap_ordered_edge x (length (ex_items x))).
  - apply map_eq. intros k. rewrite !lookup_scheduled. change (ex_byKey x1) with (ex_byKey x).
    destruct (ex_byKey x !! k) as [q|] eqn:Hq; [|done]. simpl. apply Hlink in Hq as [Hq _].
    by rewrite Hsame.
Qed.

Lemma schedule_new_spec x k at_ rev :
  expiries_inv x -> ex_byKey x !! k = None ->
  let p := fresh (dom (ex_store x)) in
  let x1 := setByKey (<[k := p]> (ex_byKey x))
              (setStore (<[p := MkCandidate at_ k rev 0]> (ex_store x)) x) in
  expiries_inv (Push x1 p) /\ scheduled (Push x1 p) = <[k := (at_, rev)]> (scheduled x).
Proof.
  intros Hinv Hk p x1. destruct (fresh_candidate x (MkCandidate at_ k rev 0) Hinv) as (Hinv1 & <- & Hni).
  apply (Push_spec (setStore (<[p := MkCandidate at_ k rev 0]> (ex_store x)) x) k p
    (MkCandidate at_ k rev 0)); try done. simpl. by rewrite lookup_insert_eq.
Qed.

(** Popping the earliest candidate and dropping it from the key table. *)
Lemma Pop_schedule x p x1 :
  expiries_inv x -> ex_items x <> [] -> Pop x = (p, x1) ->
  let c := candidate x1 p in
  let x2 := setByKey (delete (cand_key c) (ex_byKey x1)) x1 in
  ex_byKey x1 !! cand_key c = Some p /\ expiries_inv x2 /\
  scheduled x !! cand_key c = Some (cand_at c, cand_revision c) /\
  scheduled x2 = delete (cand_key c) (scheduled x) /\
  length (ex_items x) = S (length (ex_items x2)) /\ p ∉ ex_items x2 /\ ex_store x2 !! p = Some c /\
  p = item_at x 0 /\ cand_at c = cand_at (candidate x p).
Proof.
  intros Hinv Hne Hpop c x2. pose proof Hinv as [Hnd Hidx Hlink Hheap]. unfold linked in Hlink.
  assert (0 < length (ex_items x))%nat as Hlen by (destruct (ex_items x); [done|simpl; lia]).
  destruct (Pop_spec x p x1 (conj Hnd Hidx) Hheap Hlen Hpop)
    as (Hp & (Hperm & Hby & Hdom & Hsame) & [Hnd1 Hidx1] & Hheap1 & _).
  assert (p ∉ ex_items x1) as Hpi by (rewrite Hperm in Hnd; by apply NoDup_cons in Hnd as [? _]).
  assert (p ∈ ex_items x) as Hpx by (rewrite Hperm; apply elem_of_cons; by left).
  destruct (Hsame p) as (Hat & Hkey & Hrev). fold c in Hat, Hkey, Hrev.
  assert (ex_byKey x !! cand_key c = Some p) as Hk by (apply Hlink; by rewrite Hkey).
  assert (is_Some (ex_store x1 !! p)) as [c' Hc'].
  { apply elem_of_dom. rewrite Hdom, elem_of_dom. destruct (index_of x _ p Hinv Hk) as (_ & _ & _ & _ & ?). done. }
  assert (c = c') as Hcc by (unfold c, candidate; by rewrite Hc').
  split_and!; try done.
  - by rewrite Hby.
  - split; try done. intros k q. simpl. rewrite Hby, lookup_delete_Some, Hlink.
    change (candidate x2 q) with (candidate x1 q). destruct (Hsame q) as (_ & -> & _).
    rewrite Hperm, elem_of_cons. split.
    + intros (Hck & [->|Hq] & Hkq); [by rewrite Hkey in Hck|done].
    + intros [Hq Hkq]. split_and!; [|by right|done]. intros Heq. rewrite Heq in Hk.
      assert (ex_byKey x !! k = Some q) by (apply Hlink; rewrite Hperm, elem_of_cons; auto). congruence.
  - rewrite lookup_scheduled, Hk. simpl. by rewrite Hat, Hrev.
  - apply map_eq. intros k. rewrite lookup_scheduled. simpl. rewrite Hby.
    destruct (decide (cand_key c = k)) as [<-|Hnk]; [by rewrite !lookup_delete_eq|].
    rewrite !lookup_delete_ne, lookup_scheduled by done.
    destruct (ex_byKey x !! k) as [q|]; [|done]. simpl. change (candidate x2 q) with (candidate x1 q).
    by destruct (Hsame q) as (-> & _ & ->).
  - change (ex_items x2) with (ex_items x1). by rewrite Hperm.
  - simpl. by rewrite Hcc.
Qed.

Lemma scheduleRecordExpiry_spec x r :
  expiries_inv x ->
  expiries_inv (scheduleRecordExpiry x r) /\
  scheduled (scheduleRecordExpiry x r) =
    match RecExpiresAt r with
    | None => delete (RecKey r) (scheduled x)
    | Some t => <[RecKey r := (t, RecRevision r)]> (scheduled x)
    end.
Proof.
  intros Hinv. unfold scheduleRecordExpiry.
  destruct (RecExpiresAt r) as [t|]; [|by apply removeScheduledExpiry_spec].
  destruct (ex_byKey x !! RecKey r) as [p|] eqn:Hk; [by apply reschedule_spec|].
  exact (schedule_new_spec x (RecKey r) t (RecRevision r) Hinv Hk).
Qed.

Lemma no_expiries_inv : expiries_inv no_expiries.
Proof.
  split; [constructor|by intros i p| |intros i Hi; simpl in Hi; lia].
  intros k p. unfold no_expiries. cbn [ex_byKey ex_items]. rewrite lookup_empty. split; [done|].
  by intros [H%elem_of_nil _].
Qed.

(** ** Properties *)

(** C34: The expiry index refines a map from keys to times.  Scheduling a record
    (a push, a heap fix at the candidate's own index, or a removal when it has
    no expiry) keeps the index well formed: distinct candidates, each knowing
    its position, the key table and the heap in agreement, the heap ordered.
    The scheduled entries change at the record's key and nowhere else. *)
Theorem expiry_schedule_refines x r :
  expiries_inv x ->
  expiries_inv (scheduleRecordExpiry x r) /\
  scheduled (scheduleRecordExpiry x r) =
    match RecExpiresAt r with
    | None => delete (RecKey r) (scheduled x)
    | Some t => <[RecKey r := (t, RecRevision r)]> (scheduled x)
    end.
Proof. apply scheduleRecordExpiry_spec. Qed.

Lemma expiry_schedule_refines_witness :
  let r := MkRecord (lit "jobs/1") (lit "v") 4 (Some 77) in
  expiries_inv (scheduleRecordExpiry no_expiries r) /\
  scheduled (scheduleRecordExpiry no_expiries r) = <[lit "jobs/1" := (77, 4)]> (scheduled no_expiries).
Proof.
  intros r. apply (expiry_schedule_refines no_expiries r). apply no_expiries_inv.
Defined.
