(* ===== verification/Watch.v ===== *)
(** * Watch: prefix watches (internal/engine/watch.go)

    A watch is a [watcherState] shared by three parties: the writer registers
    it, queues the matching events of each commit and ends it; its own
    goroutine, the pump, delivers queued groups to the client; the client may
    close it.  The writer's operations are functions on the [registry], the
    pump is a step relation, and [sys_step] interleaves all of them with the
    commits of the database.  Channels are lists with their capacities; a send
    on a full channel blocks, which the writer's operations report as [None]. *)

From stdpp Require Import base gmap list strings sorting.
From Stdlib Require Import ZArith Lia.
From S2P Require Import Prelude.
From S2P Require Import Bytes.
From S2P Require Import Errors.
From S2P Require Import ApiTypes.
From S2P Require Import StorageErrors.
From S2P Require Import WalCodec.
From S2P Require Import History.

Local Open Scope Z_scope.
Local Open Scope go_scope.

(** ** Data *)

Record watchRequest := MkWatchRequest { wr_prefix : bytes; wr_after : Revision }.

Record watchEnd := MkWatchEnd {
  we_reason : WatchEndReason;
  we_current : Revision;
  we_err : option Error
}.

Record watcherState := MkWatcher {
  wt_id : Z;
  wt_prefix : bytes;
  wt_backlog : list eventGroup;
  wt_live : list eventGroup;
  wt_liveCap : Z;
  wt_end : list watchEnd;
  wt_queued : Z;
  wt_lastDelivered : Revision;
  wt_limit : Z;
  wt_registration : Revision;
  wt_backlogFits : bool;
  wt_stop : bool
}.

(** The pump: where it is in [pump], what it has sent on [events] so far, and
    the value it has sent on [ended]. *)
Inductive pump_at :=
| PumpBacklog
| PumpDeliver (group : eventGroup) (rest : list ChangeEvent) (live : bool)
| PumpLive
| PumpDone.

Record watcher := MkWatch {
  w_state : watcherState;
  w_after : Revision;
  w_pump : pump_at;
  w_out : list ChangeEvent;
  w_ended : option WatchTermination
}.

(** [state.watchers], [nextWatcherID] and [activeWatches]; [rg_watches] also
    holds the watchers that are no longer registered, whose pumps run on. *)
Record registry := MkRegistry {
  rg_watches : gmap Z watcher;
  rg_registered : gset Z;
  rg_next : Z;
  rg_active : Z
}.

Definition no_watches : registry := MkRegistry ∅ ∅ 0 0.

Definition setQueued (n : Z) (w : watcherState) : watcherState :=
  MkWatcher (wt_id w) (wt_prefix w) (wt_backlog w) (wt_live w) (wt_liveCap w) (wt_end w) n
    (wt_lastDelivered w) (wt_limit w) (wt_registration w) (wt_backlogFits w) (wt_stop w).
Definition setLive (l : list eventGroup) (w : watcherState) : watcherState :=
  MkWatcher (wt_id w) (wt_prefix w) (wt_backlog w) l (wt_liveCap w) (wt_end w) (wt_queued w)
    (wt_lastDelivered w) (wt_limit w) (wt_registration w) (wt_backlogFits w) (wt_stop w).
Definition setBacklog (l : list eventGroup) (w : watcherState) : watcherState :=
  MkWatcher (wt_id w) (wt_prefix w) l (wt_live w) (wt_liveCap w) (wt_end w) (wt_queued w)
    (wt_lastDelivered w) (wt_limit w) (wt_registration w) (wt_backlogFits w) (wt_stop w).
Definition setEnd (l : list watchEnd) (w : watcherState) : watcherState :=
  MkWatcher (wt_id w) (wt_prefix w) (wt_backlog w) (wt_live w) (wt_liveCap w) l (wt_queued w)
    (wt_lastDelivered w) (wt_limit w) (wt_registration w) (wt_backlogFits w) (wt_stop w).
Definition setLast (r : Revision) (w : watcherState) : watcherState :=
  MkWatcher (wt_id w) (wt_prefix w) (wt_backlog w) (wt_live w) (wt_liveCap w) (wt_end w) (wt_queued w)
    r (wt_limit w) (wt_registration w) (wt_backlogFits w) (wt_stop w).
Definition setStop (w : watcherState) : watcherState :=
  MkWatcher (wt_id w) (wt_prefix w) (wt_backlog w) (wt_live w) (wt_liveCap w) (wt_end w) (wt_queued w)
    (wt_lastDelivered w) (wt_limit w) (wt_registration w) (wt_backlogFits w) true.
Definition setState (s : watcherState) (w : watcher) : watcher :=
  MkWatch s (w_after w) (w_pump w) (w_out w) (w_ended w).

(** ** Errors *)

Definition revisionAhead (requested current : Revision) : goerror :=
  ErrGap (newError CodeRevisionAhead "The requested watch revision is ahead of the database."
    RetryAfterRescan [EvRequestedRevision requested; EvCurrentRevision current]
    [ActionScanPrefix; ActionRestartWatch; ActionAbort]).

Definition watchLimit (active maximum depth : Z) : goerror :=
  ErrGap (newError CodeServerBusy "The configured watch limit is active." RetryImmediate
    [EvActiveClients active; EvMaximumClients maximum; EvQueueDepth depth]
    [ActionRetryWithBackoff; ActionAbort]).

Definition watchLagEnd (last current : Revision) : watchEnd :=
  MkWatchEnd WatchEndedByError current (Some
    (newError CodeWatchLagged "The watch could not keep up with committed changes." RetryAfterRescan
      [EvLastDeliveredRevision last; EvCurrentRevision current]
      [ActionScanPrefix; ActionRestartWatch; ActionAbort])).

(** ** The writer's side *)

(** [watcher.end <- end]: a channel of capacity one; [None] if it blocks. *)
Definition sendEnd (e : watchEnd) (w : watcherState) : option watcherState :=
  match wt_end w with [] => Some (setEnd [e] w) | _ => None end.

(** [delete(state.watchers, id)], [activeWatches.Add(-1)], [watcher.end <- end]. *)
Definition endWatch (id : Z) (w : watcher) (e : watchEnd) (rg : registry) : option registry :=
  match sendEnd e (w_state w) with
  | None => None
  | Some s => Some (MkRegistry (<[id := setState s w]> (rg_watches rg)) (rg_registered rg ∖ {[id]})
                      (rg_next rg) (rg_active rg - 1))
  end.

Definition lagWatcher (id : Z) (w : watcher) (current : Revision) (rg : registry) : option registry :=
  endWatch id w (watchLagEnd (wt_lastDelivered (w_state w)) current) rg.

(** The compare-and-swap loop of [reserveWatchEvents], at the round that
    returns. *)
Definition reserveWatchEvents (w : watcherState) (count : Z) : option watcherState :=
  if (wt_limit w <? count) || (wt_limit w - count <? wt_queued w) then None
  else Some (setQueued (wt_queued w + count) w).

Definition publishWatcher (events : list ChangeEvent) (id : Z) (rg : registry) : option registry :=
  match rg_watches rg !! id, events with
  | None, _ | _, [] => Some rg
  | Some w, first :: _ =>
      let revision := EvtRevision first in
      let group := MkGroup revision (matching (wt_prefix (w_state w)) events) 0 in
      let count := len (grp_events group) in
      if count =? 0 then Some rg
      else match reserveWatchEvents (w_state w) count with
      | None => lagWatcher id w revision rg
      | Some s =>
          if len (wt_live s) <? wt_liveCap s
          then Some (MkRegistry (<[id := setState (setLive (wt_live s ++ [group]) s) w]> (rg_watches rg))
                       (rg_registered rg) (rg_next rg) (rg_active rg))
          else lagWatcher id (setState (setQueued (wt_queued s - count) s) w) revision rg
      end
  end.

Fixpoint for_watchers (f : Z -> registry -> option registry) (ids : list Z) (rg : registry)
    : option registry :=
  match ids with
  | [] => Some rg
  | id :: rest => match f id rg with Some rg => for_watchers f rest rg | None => None end
  end.

(** Go ranges over the map of watchers in any order. *)
Definition publishWatchers (events : list ChangeEvent) (rg : registry) : option registry :=
  for_watchers (publishWatcher events) (elements (rg_registered rg)) rg.

Definition unregisterWatch (id : Z) (reason : WatchEndReason) (current : Revision) (rg : registry)
    : option registry :=
  if decide (id ∈ rg_registered rg) then
    match rg_watches rg !! id with
    | None => Some rg
    | Some w => endWatch id w (MkWatchEnd reason current None) rg
    end
  else Some rg.

Definition shutdownWatchers (current : Revision) (rg : registry) : option registry :=
  for_watchers (fun id => unregisterWatch id WatchEndedByShutdown current)
    (elements (rg_registered rg)) rg.

(** The subscription it returns is known by its id and registration revision. *)
Definition registerWatch (limits : Limits) (current : Revision) (h : historyLog) (queueDepth : Z)
    (request : watchRequest) (rg : registry) : result goerror (Z * Revision) * registry :=
  if current <? wr_after request then (Err (revisionAhead (wr_after request) current), rg)
  else match replayGroupsForWatch h (wr_prefix request) (wr_after request) (WatchBufferEvents limits) with
  | Err e => (Err e, rg)
  | Ok (groups, backlogEvents, backlogFits) =>
      if MaxWatchClients limits <=? Z.of_nat (size (rg_registered rg)) then
        (Err (watchLimit (Z.of_nat (size (rg_registered rg))) (MaxWatchClients limits) queueDepth), rg)
      else
        let id := wrap_u64 (rg_next rg + 1) in
        let w := MkWatcher id (wr_prefix request) groups [] (WatchBufferEvents limits) [] 0
                   (wr_after request) (WatchBufferEvents limits) current backlogFits false in
        let start s := MkWatch s (wr_after request) PumpBacklog [] None in
        if backlogFits then
          (Ok (id, current),
           MkRegistry (<[id := start (setQueued backlogEvents w)]> (rg_watches rg))
             (rg_registered rg ∪ {[id]}) id (rg_active rg + 1))
        else
          (Ok (id, current),
           MkRegistry (<[id := start (setEnd [watchLagEnd (wr_after request) current] (setBacklog [] w))]>
                         (rg_watches rg))
             (rg_registered rg) id (rg_active rg))
  end.

(** [close(watch.stop)]. *)
Definition closeWatch (id : Z) (rg : registry) : registry :=
  MkRegistry (alter (fun w => setState (setStop (w_state w)) w) id (rg_watches rg))
    (rg_registered rg) (rg_next rg) (rg_active rg).

(** ** The pump *)

Definition isLastDelivered (ev : Evidence) : bool :=
  match ev with EvLastDeliveredRevision _ => true | _ => false end.

Definition setLastDelivered (last : Revision) (e : Error) : Error :=
  withEvidence (EvLastDeliveredRevision last ::
    filter (fun ev => isLastDelivered ev = false) (Evidences e)) e.

(** [finish(end)]. *)
Definition finish (e : watchEnd) (w : watcher) : watcher :=
  let last := wt_lastDelivered (w_state w) in
  MkWatch (w_state w) (w_after w) PumpDone (w_out w)
    (Some (MkWatchTermination (we_reason e) last (setLastDelivered last <$> we_err e))).

Definition endedByClient : watchEnd := MkWatchEnd WatchEndedByClient 0 None.

(** [deliver(group)] up to its loop: the select with a default. *)
Inductive deliver_start (live : bool) (group : eventGroup) (w : watcher) : watcher -> Prop :=
| deliver_ended e rest :
    wt_end (w_state w) = e :: rest ->
    deliver_start live group w (finish e (setState (setEnd rest (w_state w)) w))
| deliver_stopped :
    wt_stop (w_state w) = true -> deliver_start live group w (finish endedByClient w)
| deliver_default :
    wt_end (w_state w) = [] -> wt_stop (w_state w) = false ->
    deliver_start live group w
      (MkWatch (w_state w) (w_after w) (PumpDeliver group (grp_events group) live) (w_out w) (w_ended w)).

(** A step of the pump; a [select] takes any ready case. *)
Inductive pump_step (w : watcher) : watcher -> Prop :=
| pump_backlog group rest w' :
    w_pump w = PumpBacklog -> wt_backlog (w_state w) = group :: rest ->
    deliver_start false group (setState (setBacklog rest (w_state w)) w) w' ->
    pump_step w w'
| pump_backlog_done :
    w_pump w = PumpBacklog -> wt_backlog (w_state w) = [] ->
    pump_step w (MkWatch (if wt_backlogFits (w_state w)
                          then setLast (wt_registration (w_state w)) (w_state w) else w_state w)
                   (w_after w) PumpLive (w_out w) (w_ended w))
| pump_send group event rest live :
    w_pump w = PumpDeliver group (event :: rest) live ->
    pump_step w (MkWatch (w_state w) (w_after w) (PumpDeliver group rest live)
                   (w_out w ++ [event]) (w_ended w))
| pump_send_stopped group event rest live :
    w_pump w = PumpDeliver group (event :: rest) live -> wt_stop (w_state w) = true ->
    pump_step w (finish endedByClient w)
| pump_delivered group live :
    w_pump w = PumpDeliver group [] live ->
    pump_step w (MkWatch (setQueued (wt_queued (w_state w) - len (grp_events group))
                            (setLast (grp_revision group) (w_state w)))
                   (w_after w) (if live then PumpLive else PumpBacklog) (w_out w) (w_ended w))
| pump_live group rest w' :
    w_pump w = PumpLive -> wt_live (w_state w) = group :: rest ->
    deliver_start true group (setState (setLive rest (w_state w)) w) w' ->
    pump_step w w'
| pump_ended e rest :
    w_pump w = PumpLive -> wt_end (w_state w) = e :: rest ->
    pump_step w (finish e (setState (setEnd rest (w_state w)) w))
| pump_stopped :
    w_pump w = PumpLive -> wt_stop (w_state w) = true -> pump_step w (finish endedByClient w).

(** ** All watches together with the commits of the database *)

Record system := MkSystem {
  sy_limits : Limits;
  sy_all : list eventGroup;
  sy_current : Revision;
  sy_history : historyLog;
  sy_registry : registry
}.

Definition setRegistry (rg : registry) (s : system) : system :=
  MkSystem (sy_limits s) (sy_all s) (sy_current s) (sy_history s) rg.

Inductive sys_step (s : system) : system -> Prop :=
| sys_commit events first rg :
    head events = Some first -> sy_current s < EvtRevision first ->
    publishWatchers events (sy_registry s) = Some rg ->
    sys_step s (MkSystem (sy_limits s) (sy_all s ++ [group_of events]) (EvtRevision first)
                  (history_append (sy_history s) events) rg)
| sys_register request depth r rg :
    registerWatch (sy_limits s) (sy_current s) (sy_history s) depth request (sy_registry s) = (r, rg) ->
    wrap_u64 (rg_next (sy_registry s) + 1) = rg_next (sy_registry s) + 1 ->
    sys_step s (setRegistry rg s)
| sys_unregister id reason rg :
    unregisterWatch id reason (sy_current s) (sy_registry s) = Some rg ->
    sys_step s (setRegistry rg s)
| sys_shutdown rg :
    shutdownWatchers (sy_current s) (sy_registry s) = Some rg ->
    sys_step s (setRegistry rg s)
| sys_close id : sys_step s (setRegistry (closeWatch id (sy_registry s)) s)
| sys_pump id w w' :
    rg_watches (sy_registry s) !! id = Some w -> pump_step w w' ->
    sys_step s (setRegistry (MkRegistry (<[id := w']> (rg_watches (sy_registry s)))
                  (rg_registered (sy_registry s)) (rg_next (sy_registry s))
                  (rg_active (sy_registry s))) s).

Definition sys_start (limits : Limits) (base : Revision) : system :=
  MkSystem limits [] base (history_initialize limits base) no_watches.

Definition sys_reach (limits : Limits) (base : Revision) : system -> Prop :=
  rtc sys_step (sys_start limits base).

(** ** Invariants *)

Definition flat (groups : list eventGroup) : list ChangeEvent := groups ≫= grp_events.

(** The group being delivered and the groups still queued. *)
Definition current_group (w : watcher) : list eventGroup :=
  match w_pump w with PumpDeliver g _ _ => [g] | _ => [] end.
Definition todo (w : watcher) : list eventGroup :=
  current_group w ++ wt_backlog (w_state w) ++ wt_live (w_state w).

Definition in_backlog (w : watcher) : bool :=
  match w_pump w with PumpBacklog | PumpDeliver _ _ false => true | _ => false end.

Definition in_live (w : watcher) : bool :=
  match w_pump w with PumpLive | PumpDeliver _ _ true => true | _ => false end.

(** What a watch asked for, among all commits. *)
Definition wanted (w : watcher) (all : list eventGroup) : list eventGroup :=
  replay_loop (wt_prefix (w_state w)) (w_after w) all.

(** The watch against the commits [all], of which it has been offered [upto]:
    the wanted groups of [upto] are the delivered ones [done], then the queued
    ones. *)
Record progress_ok (all : list eventGroup) (done : list eventGroup) (w : watcher) : Prop := {
  pg_sent : match w_pump w with
            | PumpDeliver g rest _ => exists sent, w_out w = flat done ++ sent /\ grp_events g = sent ++ rest
            | PumpDone => exists sent rest, w_out w = flat done ++ sent /\ flat (wanted w all) = flat done ++ sent ++ rest
            | _ => w_out w = flat done
            end;
  pg_last : forall g, g ∈ wanted w all -> grp_revision g <= wt_lastDelivered (w_state w) -> g ∈ done;
  pg_backlog : in_backlog w = true -> wt_backlogFits (w_state w) = true ->
    forall g, g ∈ wanted w all -> grp_revision g <= wt_registration (w_state w) ->
      g ∈ done ++ current_group w ++ wt_backlog (w_state w);
  pg_live : in_live w = true -> wt_backlog (w_state w) = []
}.

Record watcher_ok (all : list eventGroup) (current : Revision) (registered : bool) (w : watcher) : Prop := {
  wk_progress : exists upto later done,
    all = upto ++ later /\ (registered = true -> later = []) /\
    (w_pump w = PumpDone \/ wanted w upto = done ++ todo w) /\ progress_ok all done w;
  wk_after : w_after w <= current;
  wk_last : wt_lastDelivered (w_state w) <= current;
  wk_registration : wt_registration (w_state w) <= current;
  wk_end : registered = true -> wt_end (w_state w) = [];
  wk_queued : events_total (todo w) <= wt_queued (w_state w);
  wk_limit : wt_queued (w_state w) <= wt_limit (w_state w);
  wk_cap : wt_liveCap (w_state w) = wt_limit (w_state w);
  wk_nonempty : Forall (fun g => grp_events g <> []) (wt_live (w_state w));
  wk_ended : forall t, w_ended w = Some t ->
    w_pump w = PumpDone /\ TermLastDelivered t = wt_lastDelivered (w_state w)
}.

Global Arguments todo : simpl never.
Global Arguments wanted : simpl never.

(** ** Lemmas on wanted groups *)

Lemma flat_app l k : flat (l ++ k) = flat l ++ flat k.
Proof. apply bind_app. Qed.

Lemma flat_cons g l : flat (g :: l) = grp_events g ++ flat l.
Proof. done. Qed.

Lemma events_total_app l k : events_total (l ++ k) = events_total l + events_total k.
Proof. induction l as [|g l IH]; simpl; [done|]. unfold events_total in *. simpl. rewrite IH. lia. Qed.

Lemma events_total_len l : Forall (fun g => grp_events g <> []) l -> len l <= events_total l.
Proof.
  induction 1 as [|g l Hg _ IH]; [done|]. rewrite len_cons. unfold events_total in *. simpl.
  destruct (grp_events g); [done|]. rewrite len_cons. pose proof (len_nonneg l0). lia.
Qed.

Lemma events_total_nonneg l : 0 <= events_total l.
Proof.
  induction l as [|g l IH]; [done|]. unfold events_total in *. simpl. pose proof (len_nonneg (grp_events g)). lia.
Qed.

Lemma replay_sublist prefix after l :
  (grp_revision <$> replay_loop prefix after l) `sublist_of` (grp_revision <$> l).
Proof.
  induction l as [|g l IH]; simpl; [constructor|]. destruct (_ <=? _); [by constructor|].
  destruct (negb _); by constructor.
Qed.

Lemma replay_after prefix after l g : g ∈ replay_loop prefix after l -> after < grp_revision g.
Proof.
  induction l as [|g' l IH]; simpl; [by intros ?%elem_of_nil|].
  destruct (Z.leb_spec (grp_revision g') after); [done|].
  destruct (negb _); [|done]. intros [-> |?]%elem_of_cons; simpl; auto.
Qed.

Lemma sorted_sublist {A} (R : A -> A -> Prop) l k :
  l `sublist_of` k -> StronglySorted R k -> StronglySorted R l.
Proof.
  induction 1 as [|x l k Hsub IH|x l k Hsub IH]; [done|..];
    intros [Hf Hs]%StronglySorted_cons; [|auto].
  apply StronglySorted_cons. split; [|auto]. rewrite Forall_forall in *. intros y Hy. apply Hf.
  by eapply sublist_subseteq.
Qed.

Lemma wanted_sorted base w all :
  increasing base all -> StronglySorted Z.lt (grp_revision <$> wanted w all).
Proof.
  intros Hinc. apply StronglySorted_cons in Hinc as [_ Hinc].
  eapply sorted_sublist; [apply replay_sublist|exact Hinc].
Qed.

(** In a sorted list the elements up to a member are those before it. *)
Lemma sorted_upto done g rest g' :
  StronglySorted Z.lt (grp_revision <$> done ++ g :: rest) ->
  g' ∈ done ++ g :: rest -> grp_revision g' <= grp_revision g -> g' ∈ done ++ [g].
Proof.
  intros Hs Hin Hle. rewrite elem_of_app, elem_of_cons in Hin. rewrite elem_of_app, list_elem_of_singleton.
  destruct Hin as [?|[->|Hin]]; auto. rewrite fmap_app in Hs.
  apply StronglySorted_app in Hs as (_ & _ & Hs). simpl in Hs.
  apply StronglySorted_cons in Hs as [Hs _]. rewrite Forall_forall in Hs.
  specialize (Hs (grp_revision g') (list_elem_of_fmap_2 _ _ _ Hin)). lia.
Qed.

Lemma wanted_app w all g : wanted w (all ++ [g]) = wanted w all ++ wanted w [g].
Proof. apply replay_loop_app. Qed.

Lemma wanted_new base all g :
  increasing base (all ++ [g]) -> forall w g', g' ∈ wanted w [g] -> g' ∈ wanted w all -> False.
Proof.
  intros Hinc w g' H1 H2. pose proof (wanted_sorted base w _ Hinc) as Hs. rewrite wanted_app, fmap_app in Hs.
  apply StronglySorted_app in Hs as (Hlt & _ & _).
  specialize (Hlt (grp_revision g') (grp_revision g')).
  assert (grp_revision g' < grp_revision g'); [|lia]. apply Hlt; by apply list_elem_of_fmap_2.
Qed.

Lemma wanted_singleton w events :
  wanted w [group_of events] =
  if grp_revision (group_of events) <=? w_after w then []
  else if negb (len (matching (wt_prefix (w_state w)) events) =? 0)
       then [MkGroup (grp_revision (group_of events)) (matching (wt_prefix (w_state w)) events) 0] else [].
Proof.
  unfold wanted. cbn [replay_loop]. change (grp_events (group_of events)) with events.
  by repeat case_match.
Qed.

Lemma wanted_singleton_revision w g g' : g' ∈ wanted w [g] -> grp_revision g' = grp_revision g.
Proof.
  unfold wanted. simpl. destruct (_ <=? _); [by intros ?%elem_of_nil|].
  destruct (negb _); [|by intros ?%elem_of_nil]. by intros ->%list_elem_of_singleton.
Qed.

(** ** One watch *)

(** Progress is about the wanted groups; a new commit beyond what has been
    delivered does not disturb it. *)
Lemma progress_commit all done w g :
  wt_lastDelivered (w_state w) < grp_revision g -> wt_registration (w_state w) < grp_revision g ->
  progress_ok all done w -> progress_ok (all ++ [g]) done w.
Proof.
  intros Hl Hr [Hsent Hlast Hback Hlive]. split; [| | |done].
  - destruct (w_pump w); try done. destruct Hsent as (sent & rest & Ho & Hw).
    exists sent, (rest ++ flat (wanted w [g])). split; [done|].
    by rewrite wanted_app, flat_app, Hw, <- !app_assoc.
  - intros g' Hg' Hle. rewrite wanted_app, elem_of_app in Hg'. destruct Hg' as [Hg'|Hg']; [auto|].
    apply wanted_singleton_revision in Hg'. lia.
  - intros Hib Hf g' Hg' Hle. rewrite wanted_app, elem_of_app in Hg'. destruct Hg' as [Hg'|Hg']; [auto|].
    apply wanted_singleton_revision in Hg'. lia.
Qed.

(** A commit the watch is not offered, or does not match. *)
Lemma watcher_skip all current registered w g :
  current < grp_revision g -> (registered = true -> wanted w [g] = []) ->
  watcher_ok all current registered w -> watcher_ok (all ++ [g]) (grp_revision g) registered w.
Proof.
  intros Hc Hno [(upto & later & done & -> & Hlater & Htodo & Hp) Hafter Hl Hr He Hq Hlim Hcap Hne Hended].
  split; try done; try lia. apply (progress_commit _ _ _ g) in Hp; [|lia..]. destruct registered.
  - rewrite (Hlater eq_refl), app_nil_r in *. exists (upto ++ [g]), [], done. rewrite app_nil_r.
    split_and!; try done. by rewrite wanted_app, (Hno eq_refl), app_nil_r.
  - exists upto, (later ++ [g]), done. by rewrite app_assoc.
Qed.

(** The writer queues a matching group. *)
Lemma watcher_push all current w g group :
  current < grp_revision g -> wanted w [g] = [group] -> grp_events group <> [] ->
  wt_queued (w_state w) + len (grp_events group) <= wt_limit (w_state w) ->
  watcher_ok all current true w ->
  let s := setQueued (wt_queued (w_state w) + len (grp_events group)) (w_state w) in
  watcher_ok (all ++ [g]) (grp_revision g) true (setState (setLive (wt_live s ++ [group]) s) w).
Proof.
  intros Hc Hw Hg Hfit [(upto & later & done & -> & Hlater & Htodo & Hp) Hafter Hl Hr He Hq Hlim Hcap Hne Hended] s.
  rewrite (Hlater eq_refl), app_nil_r in *. apply (progress_commit _ _ _ g) in Hp; [|lia..].
  assert (todo (setState (setLive (wt_live s ++ [group]) s) w) = todo w ++ [group]) as Ht.
  { unfold todo. simpl. by rewrite !app_assoc. }
  set (w' := setState _ w) in *. split; try done; try (unfold w'; simpl; lia).
  - exists (upto ++ [g]), [], done. rewrite app_nil_r. split_and!; try done; [|by destruct Hp].
    destruct Htodo as [?|Htodo]; [by left|right]. rewrite Ht, app_assoc, <- Htodo.
    change (wanted w' (upto ++ [g])) with (wanted w (upto ++ [g])). by rewrite wanted_app, Hw.
  - rewrite Ht, events_total_app. unfold events_total at 2. unfold w'. simpl. lia.
  - apply Forall_app. by split; [|apply Forall_singleton].
Qed.

(** The writer ends a registered watch: its end channel has room. *)
Lemma watcher_end all current w e :
  watcher_ok all current true w ->
  exists s, sendEnd e (w_state w) = Some s /\ watcher_ok all current false (setState s w).
Proof.
  intros [(upto & later & done & -> & Hlater & Htodo & Hp) Hafter Hl Hr He Hq Hlim Hcap Hne Hended].
  unfold sendEnd. rewrite (He eq_refl). eexists. split; [done|]. split; simpl; try done.
  exists upto, later, done. split_and!; try done. by destruct Hp.
Qed.

Lemma watcher_stop all current registered w :
  watcher_ok all current registered w -> watcher_ok all current registered (setState (setStop (w_state w)) w).
Proof.
  intros [(upto & later & done & Hall & Hlater & Htodo & Hp) Hafter Hl Hr He Hq Hlim Hcap Hne Hended].
  split; simpl; try done. exists upto, later, done. split_and!; try done. by destruct Hp.
Qed.

(** Everything wanted is sent already or still to come. *)
Lemma progress_flat all done w upto later :
  all = upto ++ later -> w_pump w <> PumpDone -> wanted w upto = done ++ todo w ->
  progress_ok all done w ->
  exists sent rest, w_out w = flat done ++ sent /\ flat (wanted w all) = flat done ++ sent ++ rest.
Proof.
  intros -> Hrun Htodo [Hsent _ _ _]. unfold wanted in *. rewrite replay_loop_app, Htodo, !flat_app.
  unfold todo, current_group. destruct (w_pump w) as [|g r b| |]; try done.
  - exists []. eexists. rewrite app_nil_r, <- app_assoc. done.
  - destruct Hsent as (sent & Ho & Hg). exists sent. eexists. split; [done|].
    by rewrite flat_app, flat_cons, Hg, <- !app_assoc.
  - exists []. eexists. rewrite app_nil_r, <- app_assoc. done.
Qed.

Lemma watcher_finish all current registered w s e :
  watcher_ok all current registered w -> w_pump w <> PumpDone ->
  wt_prefix s = wt_prefix (w_state w) -> wt_lastDelivered s = wt_lastDelivered (w_state w) ->
  wt_registration s = wt_registration (w_state w) -> wt_queued s = wt_queued (w_state w) ->
  wt_limit s = wt_limit (w_state w) -> wt_liveCap s = wt_liveCap (w_state w) ->
  (registered = true -> wt_end s = []) -> wt_backlog s ++ wt_live s `suffix_of` todo w ->
  Forall (fun g => grp_events g <> []) (wt_live s) ->
  watcher_ok all current registered (finish e (setState s w)).
Proof.
  intros [(upto & later & done & Hall & Hlater & Htodo & Hp) Hafter Hl Hr He Hq Hlim Hcap Hne Hended] Hrun.
  intros Hs1 Hs2 Hs3 Hs4 Hs5 Hs6 Hend [pre Hsuf] Hnes.
  destruct Htodo as [?|Htodo]; [done|].
  pose proof (progress_flat all done w upto later Hall Hrun Htodo Hp) as Hflat.
  assert (wanted (finish e (setState s w)) all = wanted w all) as Hw by (unfold wanted; simpl; by rewrite Hs1).
  split; try (simpl; congruence).
  - exists upto, later, done. split_and!; try done; [by left|]. destruct Hp as [_ Hlast _ _].
    split; try done; rewrite ?Hw.
    + exact Hflat.
    + simpl. rewrite Hs2. exact Hlast.
  - exact Hend.
  - rewrite Hsuf, events_total_app in Hq. pose proof (events_total_nonneg pre).
    unfold todo, current_group. simpl. rewrite Hs4. lia.
  - by intros t [= <-].
Qed.

(** The pump turns to its next group. *)
Lemma watcher_deliver all current registered w s (b : bool) g rest w' :
  watcher_ok all current registered w -> w_pump w = (if b then PumpLive else PumpBacklog) ->
  (b = true /\ wt_live (w_state w) = g :: rest /\ s = setLive rest (w_state w) \/
   b = false /\ wt_backlog (w_state w) = g :: rest /\ s = setBacklog rest (w_state w)) ->
  deliver_start b g (setState s w) w' -> watcher_ok all current registered w'.
Proof.
  intros Hok Hpump Hs Hd.
  assert (wt_prefix s = wt_prefix (w_state w) /\ wt_lastDelivered s = wt_lastDelivered (w_state w) /\
    wt_registration s = wt_registration (w_state w) /\ wt_queued s = wt_queued (w_state w) /\
    wt_limit s = wt_limit (w_state w) /\ wt_liveCap s = wt_liveCap (w_state w) /\
    wt_end s = wt_end (w_state w) /\ wt_backlogFits s = wt_backlogFits (w_state w)) as Hsame
    by (destruct Hs as [(_ & _ & ->)|(_ & _ & ->)]; done).
  destruct Hsame as (Hs1 & Hs2 & Hs3 & Hs4 & Hs5 & Hs6 & Hs7 & Hs8).
  assert (w_pump w <> PumpDone) as Hrun by (rewrite Hpump; by destruct b).
  assert (todo w = [g] ++ wt_backlog s ++ wt_live s) as Ht.
  { destruct Hok as [(upto & later & done & _ & _ & _ & [_ _ _ Hlive]) _ _ _ _ _ _ _ _ _].
    unfold todo, current_group. rewrite Hpump. destruct Hs as [(-> & Hl & ->)|(-> & Hb & ->)]; simpl.
    - rewrite Hlive, Hl by (unfold in_live; by rewrite Hpump). done.
    - by rewrite Hb. }
  assert (Forall (fun g => grp_events g <> []) (wt_live s)) as Hnes.
  { pose proof (wk_nonempty _ _ _ _ Hok) as Hne. destruct Hs as [(_ & Hl & ->)|(_ & _ & ->)]; [|done].
    rewrite Hl in Hne. by apply Forall_cons in Hne as [_ ?]. }
  assert (wt_backlog s ++ wt_live s `suffix_of` todo w) as Hsuf by (rewrite Ht; by eexists).
  pose proof (wk_end _ _ _ _ Hok) as Hend.
  destruct Hd as [e r Her|Hstop|Hnoend Hnostop].
  - eapply (watcher_finish all current registered w (setEnd r s)); simpl; try done.
    intros Hreg. simpl in Her. rewrite Hs7, Hend in Her by done. done.
  - eapply (watcher_finish all current registered w s); try done. by rewrite Hs7.
  - destruct Hok as [(upto & later & done & Hall & Hlater & Htodo & Hp) Hafter Hl Hr He Hq Hlim Hcap Hne Hended].
    set (w'' := MkWatch _ _ _ _ _). simpl in w''.
    assert (todo w'' = todo w) as Ht'' by (rewrite Ht; done).
    assert (forall l, wanted w'' l = wanted w l) as Hw by (intros l; unfold wanted; simpl; by rewrite Hs1).
    split; rewrite ?Ht''; try (simpl; congruence);
      [|by simpl; rewrite Hs7|intros t Ht'; by apply Hended in Ht' as [? _]].
    exists upto, later, done. rewrite Hw. split_and!; try done.
    + destruct Htodo as [Hd'|?]; [by rewrite Hpump in Hd'; destruct b|by right].
    + destruct Hp as [Hsent Hlast Hback Hlive]. split; rewrite ?Hw.
      * simpl. exists []. rewrite app_nil_r. rewrite Hpump in Hsent. by destruct b.
      * simpl. by rewrite Hs2.
      * unfold in_backlog, current_group. simpl. rewrite Hs8, Hs3. destruct b; [done|].
        intros _ Hf g' Hg' Hle. unfold in_backlog, current_group in Hback. rewrite Hpump in Hback.
        specialize (Hback eq_refl Hf g' Hg' Hle).
        destruct Hs as [(? & _)|(_ & Hb & ->)]; [done|]. simpl. by rewrite Hb in Hback.
      * unfold in_live. simpl. destruct b; [|done]. intros _. destruct Hs as [(_ & _ & ->)|(? & _)]; [|done].
        simpl. apply Hlive. unfold in_live. by rewrite Hpump.
Qed.

Lemma wanted_revision w all g current :
  Forall (fun g => grp_revision g <= current) all -> g ∈ wanted w all -> grp_revision g <= current.
Proof.
  intros Hall Hg. rewrite Forall_forall in Hall.
  assert (grp_revision g ∈ grp_revision <$> all) as (g' & Heq & Hin)%list_elem_of_fmap.
  { eapply sublist_subseteq; [apply replay_sublist|]. by apply list_elem_of_fmap_2. }
  rewrite Heq. by apply Hall.
Qed.

(** The group being delivered is complete. *)
Lemma watcher_delivered base all current registered w g (live : bool) :
  increasing base all -> Forall (fun g => grp_revision g <= current) all ->
  watcher_ok all current registered w -> w_pump w = PumpDeliver g [] live ->
  watcher_ok all current registered
    (MkWatch (setQueued (wt_queued (w_state w) - len (grp_events g)) (setLast (grp_revision g) (w_state w)))
       (w_after w) (if live then PumpLive else PumpBacklog) (w_out w) (w_ended w)).
Proof.
  intros Hinc Hle [(upto & later & done & -> & Hlater & Htodo & Hp) Hafter Hl Hr He Hq Hlim Hcap Hne Hended] Hpump.
  destruct Htodo as [?|Htodo]; [congruence|]. set (w' := MkWatch _ _ _ _ _).
  assert (todo w = g :: todo w') as Ht.
  { unfold todo, current_group. rewrite Hpump. simpl. by destruct live. }
  rewrite Ht in *. unfold events_total in Hq. simpl in Hq. fold (events_total (todo w')) in Hq.
  assert (wanted w (upto ++ later) = done ++ g :: (todo w' ++ wanted w later)) as Hwant.
  { unfold wanted in *. rewrite replay_loop_app, Htodo, <- app_assoc. done. }
  assert (g ∈ wanted w (upto ++ later)) as Hg by (rewrite Hwant, elem_of_app, elem_of_cons; auto).
  pose proof (wanted_revision w _ g current Hle Hg) as Hgc.
  pose proof (len_nonneg (grp_events g)).
  split; try done; try (unfold w'; simpl; lia).
  2:{ change (events_total (todo w') <= wt_queued (w_state w) - len (grp_events g)). lia. }
  2:{ intros t Ht'. apply Hended in Ht' as [? _]. congruence. }
  exists upto, later, (done ++ [g]). split_and!; try done.
  { right. change (wanted w' upto) with (wanted w upto). by rewrite Htodo, <- app_assoc. }
  destruct Hp as [Hsent Hlast Hback Hlive].
  split; change (wanted w' (upto ++ later)) with (wanted w (upto ++ later)).
  - rewrite Hpump in Hsent. destruct Hsent as (sent & Ho & Hs). rewrite app_nil_r in Hs.
    unfold w'. simpl. rewrite Ho, flat_app, flat_cons, <- Hs, app_nil_r. by destruct live.
  - intros g' Hg' Hle'. rewrite Hwant in Hg'. eapply sorted_upto; [|exact Hg'|exact Hle'].
    rewrite <- Hwant. by eapply wanted_sorted.
  - unfold in_backlog, current_group in *. rewrite Hpump in Hback. unfold w'. simpl.
    destruct live; [done|]. simpl. rewrite <- app_assoc. exact Hback.
  - unfold in_live in *. rewrite Hpump in Hlive. unfold w'. simpl. by destruct live.
Qed.

Lemma watcher_pump base all current registered w w' :
  increasing base all -> Forall (fun g => grp_revision g <= current) all ->
  watcher_ok all current registered w -> pump_step w w' -> watcher_ok all current registered w'.
Proof.
  intros Hinc Hle Hok Hstep.
  destruct Hstep as [g rest w' Hpump Hb Hd|Hpump Hb|g ev rest live Hpump|g ev rest live Hpump Hstop
    |g live Hpump|g rest w' Hpump Hl Hd|e rest Hpump He|Hpump Hstop].
  - eapply (watcher_deliver _ _ _ w _ false g rest); try done. by right.
  - destruct Hok as [(upto & later & done & Hall & Hlater & Htodo & Hp) Hafter Hl Hr He Hq Hlim Hcap Hne Hended].
    set (w' := MkWatch _ _ _ _ _).
    assert (todo w' = todo w) as Ht
      by (unfold todo, current_group, w'; rewrite Hpump; simpl; by destruct (wt_backlogFits _)).
    assert (forall l, wanted w' l = wanted w l) as Hw
      by (intros l; unfold wanted, w'; simpl; by destruct (wt_backlogFits _)).
    split; rewrite ?Ht; try (unfold w'; simpl; destruct (wt_backlogFits _); simpl; done);
      [|intros t Ht'; apply Hended in Ht' as [? _]; congruence].
    exists upto, later, done. rewrite Hw. split_and!; try done.
    { right. destruct Htodo; [congruence|done]. }
    destruct Hp as [Hsent Hlast Hback Hlive]. split; rewrite ?Hw.
    + rewrite Hpump in Hsent. done.
    + unfold w'. simpl. destruct (wt_backlogFits (w_state w)) eqn:Hf; [|done]. intros g Hg Hgr.
      unfold in_backlog, current_group in Hback. rewrite Hpump, Hb, !app_nil_r in Hback. by apply Hback.
    + done.
    + intros _. unfold w'. simpl. by destruct (wt_backlogFits _).
  - destruct Hok as [(upto & later & done & Hall & Hlater & Htodo & Hp) Hafter Hl Hr He Hq Hlim Hcap Hne Hended].
    set (w' := MkWatch _ _ _ _ _).
    assert (todo w' = todo w) as Ht by (unfold todo, current_group; by rewrite Hpump).
    split; rewrite ?Ht; try done; [|intros t Ht'; apply Hended in Ht' as [? _]; congruence].
    exists upto, later, done. split_and!; try done.
    { right. destruct Htodo; [congruence|done]. }
    destruct Hp as [Hsent Hlast Hback Hlive]. rewrite Hpump in Hsent.
    unfold in_backlog, in_live, current_group in Hback, Hlive. rewrite Hpump in Hback, Hlive.
    split; try done. destruct Hsent as (sent & Ho & Hs). exists (sent ++ [ev]).
    unfold w'. simpl. by rewrite Ho, Hs, <- !app_assoc.
  - eapply (watcher_finish all current registered w (w_state w)); try done; try apply Hok; try congruence;
      unfold todo; by eexists.
  - by eapply watcher_delivered.
  - eapply (watcher_deliver _ _ _ w _ true g rest); try done. by left.
  - eapply (watcher_finish all current registered w (setEnd rest (w_state w))); try done;
      try apply Hok; try congruence; [|unfold todo; by eexists].
    intros Hreg. rewrite (wk_end _ _ _ _ Hok Hreg) in He. done.
  - eapply (watcher_finish all current registered w (w_state w)); try done; try apply Hok; try congruence;
      unfold todo; by eexists.
Qed.

(** ** The registry *)

Record registry_wf (rg : registry) : Prop := {
  rw_registered : forall id, id ∈ rg_registered rg -> is_Some (rg_watches rg !! id);
  rw_next : forall id, is_Some (rg_watches rg !! id) -> id <= rg_next rg;
  rw_active : rg_active rg = Z.of_nat (size (rg_registered rg))
}.

(** [rg'] is [rg] with the watch [id] changed and possibly unregistered. *)
Definition touches (id : Z) (rg rg' : registry) : Prop :=
  exists w, rg_watches rg' = <[id := w]> (rg_watches rg) /\ rg_next rg' = rg_next rg /\
  (rg_registered rg' = rg_registered rg /\ rg_active rg' = rg_active rg \/
   rg_registered rg' = rg_registered rg ∖ {[id]} /\ rg_active rg' = rg_active rg - 1).

Lemma touches_wf id rg rg' :
  id ∈ rg_registered rg -> registry_wf rg -> touches id rg rg' -> registry_wf rg'.
Proof.
  intros Hid [Hr Hn Ha] (w & Hw & Hn' & Hreg). split.
  - intros k Hk. rewrite Hw. destruct (decide (id = k)) as [<-|Hne];
      [rewrite lookup_insert_eq; eauto|rewrite lookup_insert_ne by done]. apply Hr.
    destruct Hreg as [[Hreg _]|[Hreg _]]; rewrite Hreg in Hk; [done|set_solver].
  - intros k. rewrite Hw, Hn'. destruct (decide (id = k)) as [<-|Hne].
    + intros _. apply Hn, Hr, Hid.
    + rewrite lookup_insert_ne by done. apply Hn.
  - destruct Hreg as [[-> ->]|[-> ->]]; [done|]. rewrite size_difference by set_solver.
    rewrite size_singleton. assert (size (rg_registered rg) <> 0)%nat; [|lia].
    apply size_non_empty_iff. set_solver.
Qed.

Lemma touches_other id rg rg' k :
  touches id rg rg' -> k <> id ->
  rg_watches rg' !! k = rg_watches rg !! k /\ (k ∈ rg_registered rg' <-> k ∈ rg_registered rg).
Proof.
  intros (w & -> & _ & Hreg) Hne. rewrite lookup_insert_ne by done. split; [done|].
  destruct Hreg as [[-> _]|[-> _]]; set_solver.
Qed.

Definition all_watches (P : bool -> watcher -> Prop) (rg : registry) : Prop :=
  forall id w, rg_watches rg !! id = Some w -> P (bool_decide (id ∈ rg_registered rg)) w.

(** A loop over the registered watches that changes each from [P] to [Q]. *)
Lemma for_watchers_ok f (P Q : bool -> watcher -> Prop) ids rg :
  NoDup ids -> (forall id, id ∈ ids -> id ∈ rg_registered rg) -> registry_wf rg ->
  (forall id rg w, id ∈ rg_registered rg -> rg_watches rg !! id = Some w -> P true w ->
     exists rg', f id rg = Some rg' /\
       (rg' = rg \/ touches id rg rg') /\
       forall w', rg_watches rg' !! id = Some w' -> Q (bool_decide (id ∈ rg_registered rg')) w') ->
  (forall id w, rg_watches rg !! id = Some w ->
     if decide (id ∈ ids) then P true w else Q (bool_decide (id ∈ rg_registered rg)) w) ->
  exists rg', for_watchers f ids rg = Some rg' /\ registry_wf rg' /\ all_watches Q rg'.
Proof.
  intros Hnd. revert rg. induction ids as [|id ids IH]; intros rg Hreg Hwf Hf Hall.
  { exists rg. split_and!; [done..|]. intros id w Hw. specialize (Hall id w Hw).
    by rewrite decide_False in Hall by (by intros ?%elem_of_nil). }
  apply NoDup_cons in Hnd as [Hid Hnd]. cbn [for_watchers].
  assert (id ∈ rg_registered rg) as Hin by (apply Hreg, elem_of_cons; by left).
  destruct (rw_registered _ Hwf id Hin) as [w Hw].
  pose proof (Hall id w Hw) as HP. rewrite decide_True in HP by (apply elem_of_cons; by left).
  destruct (Hf id rg w Hin Hw HP) as (rg' & -> & Htouch & HQ).
  assert (forall k, k <> id -> rg_watches rg' !! k = rg_watches rg !! k /\
    (k ∈ rg_registered rg' <-> k ∈ rg_registered rg)) as Hother.
  { intros k Hne. destruct Htouch as [->|Ht]; [done|by eapply touches_other]. }
  apply IH; [done| | |done|].
  - intros k Hk. assert (k <> id) by congruence. apply Hother; [done|]. apply Hreg, elem_of_cons. by right.
  - destruct Htouch as [->|Ht]; [done|by eapply touches_wf].
  - intros k v Hv. destruct (decide (k = id)) as [->|Hne].
    { rewrite decide_False by done. by apply HQ. }
    destruct (Hother k Hne) as [Hsame Hregk]. rewrite Hsame in Hv. specialize (Hall k v Hv).
    assert (bool_decide (k ∈ rg_registered rg') = bool_decide (k ∈ rg_registered rg)) as ->
      by (by apply bool_decide_ext).
    destruct (decide (k ∈ ids)); [rewrite decide_True in Hall by (apply elem_of_cons; by right); done|].
    by rewrite decide_False in Hall by (rewrite elem_of_cons; tauto).
Qed.

(** ** The writer's operations on all watches *)

Lemma publish_ok all current events first id rg w :
  head events = Some first -> current < EvtRevision first ->
  id ∈ rg_registered rg -> rg_watches rg !! id = Some w -> watcher_ok all current true w ->
  exists rg', publishWatcher events id rg = Some rg' /\ (rg' = rg \/ touches id rg rg') /\
    forall w', rg_watches rg' !! id = Some w' ->
      watcher_ok (all ++ [group_of events]) (EvtRevision first) (bool_decide (id ∈ rg_registered rg')) w'.
Proof.
  intros Hhead Hrev Hid Hw Hok. destruct events as [|e events]; [done|]. injection Hhead as ->.
  set (events' := first :: events) in *. set (g := group_of events').
  assert (grp_revision g = EvtRevision first) as Hg by done. rewrite <- Hg in *.
  assert (wanted w [g] = if negb (len (matching (wt_prefix (w_state w)) events') =? 0)
    then [MkGroup (grp_revision g) (matching (wt_prefix (w_state w)) events') 0] else []) as Hwant.
  { pose proof (wanted_singleton w events') as Hs. fold g in Hs. rewrite Hs, (proj2 (Z.leb_gt _ _)); [done|].
    pose proof (wk_after _ _ _ _ Hok). lia. }
  unfold publishWatcher. rewrite Hw. unfold events' at 1. rewrite <- Hg. cbn [grp_events].
  destruct (len _ =? 0) eqn:Hc; simpl in Hwant.
  { exists rg. split_and!; [done|by left|]. intros w' Hw'. rewrite bool_decide_true by done.
    rewrite Hw in Hw'. simplify_eq. by apply (watcher_skip all current). }
  set (group := MkGroup _ _ 0) in *. apply Z.eqb_neq in Hc.
  assert (exists rg', lagWatcher id w (grp_revision g) rg = Some rg' /\ touches id rg rg' /\
    forall w', rg_watches rg' !! id = Some w' ->
      watcher_ok (all ++ [g]) (grp_revision g) (bool_decide (id ∈ rg_registered rg')) w') as Hlag.
  { unfold lagWatcher, endWatch.
    destruct (watcher_end all current w (watchLagEnd (wt_lastDelivered (w_state w)) (grp_revision g)) Hok)
      as (s & -> & Hs). eexists. split; [done|]. split.
    - eexists. simpl. split_and!; [done..|]. by right.
    - simpl. intros w'. rewrite lookup_insert_eq. intros [= <-]. rewrite bool_decide_false by set_solver.
      by apply (watcher_skip all current). }
  assert (len (grp_events group) <> 0) as Hc' by done.
  assert (grp_events group <> []) as Hgne by (intros Hn; by rewrite Hn in Hc').
  unfold reserveWatchEvents. change (len (matching _ _)) with (len (grp_events group)).
  destruct (_ || _) eqn:Hres.
  { destruct Hlag as (rg' & -> & ? & ?). exists rg'. auto. }
  go_bool. rewrite !Z.ltb_ge in *. cbn [wt_live wt_liveCap setQueued wt_queued].
  assert (len (wt_live (w_state w)) < wt_liveCap (w_state w)) as Hroom.
  { rewrite (wk_cap _ _ _ _ Hok). pose proof (events_total_len _ (wk_nonempty _ _ _ _ Hok)).
    pose proof (wk_queued _ _ _ _ Hok) as Hq. unfold todo in Hq. rewrite !events_total_app in Hq.
    pose proof (events_total_nonneg (current_group w)). pose proof (events_total_nonneg (wt_backlog (w_state w))).
    pose proof (len_nonneg (grp_events group)). lia. }
  rewrite (proj2 (Z.ltb_lt _ _) Hroom). eexists. split; [done|]. split.
  - right. eexists. simpl. split_and!; [done..|]. by left.
  - simpl. intros w'. rewrite lookup_insert_eq. intros [= <-]. rewrite bool_decide_true by done.
    apply (watcher_push all current w g group); try done. lia.
Qed.

Lemma unregister_ok all current id reason rg w :
  id ∈ rg_registered rg -> rg_watches rg !! id = Some w -> watcher_ok all current true w ->
  exists rg', unregisterWatch id reason current rg = Some rg' /\ (rg' = rg \/ touches id rg rg') /\
    forall w', rg_watches rg' !! id = Some w' ->
      watcher_ok all current (bool_decide (id ∈ rg_registered rg')) w'.
Proof.
  intros Hid Hw Hok. unfold unregisterWatch. rewrite decide_True, Hw by done. unfold endWatch.
  destruct (watcher_end all current w (MkWatchEnd reason current None) Hok) as (s & -> & Hs).
  eexists. split; [done|]. split.
  - right. eexists. simpl. split_and!; [done..|]. by right.
  - simpl. intros w'. rewrite lookup_insert_eq. intros [= <-]. by rewrite bool_decide_false by set_solver.
Qed.

(** A loop over all registered watches. *)
Lemma for_registered_ok f (P Q : bool -> watcher -> Prop) rg :
  registry_wf rg -> all_watches P rg -> (forall w, P false w -> Q false w) ->
  (forall id rg w, id ∈ rg_registered rg -> rg_watches rg !! id = Some w -> P true w ->
     exists rg', f id rg = Some rg' /\ (rg' = rg \/ touches id rg rg') /\
       forall w', rg_watches rg' !! id = Some w' -> Q (bool_decide (id ∈ rg_registered rg')) w') ->
  exists rg', for_watchers f (elements (rg_registered rg)) rg = Some rg' /\ registry_wf rg' /\
    all_watches Q rg'.
Proof.
  intros Hwf Hall Hfalse Hf. apply (for_watchers_ok f P Q); try done.
  - apply NoDup_elements.
  - intros id. by rewrite elem_of_elements.
  - intros id w Hw. specialize (Hall id w Hw). destruct (decide _) as [Hin|Hin];
      rewrite elem_of_elements in Hin.
    + by rewrite bool_decide_true in Hall.
    + rewrite bool_decide_false in * by done. auto.
Qed.

(** ** The whole system *)

Record sys_inv (base : Revision) (s : system) : Prop := {
  si_limits : limits_ok (sy_limits s);
  si_maxima : 0 <= h_maxEvents (sy_history s) /\ 0 <= h_maxBytes (sy_history s);
  si_history : history_inv base (sy_all s) (sy_history s);
  si_current : default base (last (grp_revision <$> sy_all s)) <= sy_current s;
  si_registry : registry_wf (sy_registry s);
  si_watches : all_watches (watcher_ok (sy_all s) (sy_current s)) (sy_registry s)
}.

Lemma sys_revisions base s :
  sys_inv base s -> Forall (fun g => grp_revision g <= sy_current s) (sy_all s).
Proof.
  intros [_ _ [Hinc _ _ _ _ _] Hc _ _]. eapply (evicted_old base _ []); [|exact Hc]. by rewrite app_nil_r.
Qed.

Lemma sys_inv_start limits base : limits_ok limits -> sys_inv base (sys_start limits base).
Proof.
  intros Hl. pose proof (limits_ok_fields limits Hl). split; simpl; try done; try lia.
  - by apply history_inv_init.
  - split; simpl; [set_solver| |done]. intros id. rewrite lookup_empty. by intros [? ?].
Qed.

(** A new watch starts from the wanted groups of all commits, or has lagged. *)
Lemma register_ok base s request depth r rg :
  sys_inv base s ->
  registerWatch (sy_limits s) (sy_current s) (sy_history s) depth request (sy_registry s) = (r, rg) ->
  wrap_u64 (rg_next (sy_registry s) + 1) = rg_next (sy_registry s) + 1 ->
  registry_wf rg /\ all_watches (watcher_ok (sy_all s) (sy_current s)) rg.
Proof.
  intros Hinv Hreg Hwrap. pose proof Hinv as [Hl _ Hh Hc [Hr Hn Ha] Hall]. unfold registerWatch in Hreg.
  destruct (Z.ltb_spec (sy_current s) (wr_after request)); [by simplify_eq|].
  pose proof (limits_ok_fields _ Hl) as Hlf.
  rewrite replayGroupsForWatch_spec in Hreg by lia. erewrite replayGroups_spec in Hreg by done.
  destruct (wr_after request <? _); [by simplify_eq|]. rewrite Hwrap in Hreg.
  set (id := rg_next (sy_registry s) + 1) in *.
  set (groups := replay_loop (wr_prefix request) (wr_after request) (sy_all s)) in *.
  assert (rg_watches (sy_registry s) !! id = None) as Hfresh.
  { apply eq_None_not_Some. intros Hs. apply Hn in Hs. lia. }
  assert (id ∉ rg_registered (sy_registry s)) as Hnr.
  { intros Hs. apply Hr in Hs as [? Hs]. congruence. }
  destruct (events_total groups <=? _) eqn:Hfit; cbn [fst snd] in Hreg;
    (destruct (MaxWatchClients _ <=? _); [by simplify_eq|]); injection Hreg as <- <-.
  - apply Z.leb_le in Hfit. split.
    + split; simpl.
      * intros k Hk. destruct (decide (k = id)) as [->|Hne]; [rewrite lookup_insert_eq; eauto|].
        rewrite lookup_insert_ne by done. apply Hr. set_solver.
      * intros k. destruct (decide (k = id)) as [->|Hne]; [done|]. rewrite lookup_insert_ne by done.
        intros Hk%Hn. lia.
      * rewrite Ha, size_union by set_solver. rewrite size_singleton. lia.
    + intros k w. simpl. destruct (decide (k = id)) as [->|Hne].
      * rewrite lookup_insert_eq. intros [= <-]. rewrite bool_decide_true by set_solver.
        split; simpl; try done; [|unfold todo, current_group; simpl; by rewrite app_nil_r].
        exists (sy_all s), [], []. rewrite app_nil_r. split_and!; try done.
        { right. unfold wanted, todo, current_group. simpl. by rewrite app_nil_r. }
        split; simpl; try done.
        -- intros g Hg Hgle'. apply replay_after in Hg. simpl in *. lia.
      * rewrite lookup_insert_ne by done. intros Hw%Hall.
        by assert (bool_decide (k ∈ rg_registered (sy_registry s) ∪ {[id]}) =
          bool_decide (k ∈ rg_registered (sy_registry s))) as -> by (apply bool_decide_ext; set_solver).
  - split.
    + split; simpl; [|intros k; destruct (decide (k = id)) as [->|Hne]; [done|]|done].
      * intros k Hk. rewrite lookup_insert_ne by (by intros ->). by apply Hr.
      * rewrite lookup_insert_ne by done. intros Hk%Hn. lia.
    + intros k w. simpl. destruct (decide (k = id)) as [->|Hne].
      * rewrite lookup_insert_eq. intros [= <-]. rewrite bool_decide_false by done.
        split; simpl; try done; [|unfold todo, current_group; simpl; lia].
        exists [], (sy_all s), []. split_and!; try done; [by right|]. split; simpl; try done.
        intros g Hg Hgle'. apply replay_after in Hg. simpl in *. lia.
      * rewrite lookup_insert_ne by done. apply Hall.
Qed.

Lemma sys_commit_ok base s events first :
  sys_inv base s -> head events = Some first -> sy_current s < EvtRevision first ->
  exists rg, publishWatchers events (sy_registry s) = Some rg /\ registry_wf rg /\
    all_watches (watcher_ok (sy_all s ++ [group_of events]) (EvtRevision first)) rg.
Proof.
  intros Hinv Hh Hr. pose proof Hinv as [_ _ _ _ Hwf Hall].
  apply (for_registered_ok _ (watcher_ok (sy_all s) (sy_current s))); try done.
  - intros w Hw. destruct events as [|e events]; [done|]. injection Hh as ->.
    by apply (watcher_skip _ (sy_current s)).
  - intros id rg w Hid Hw Hok. by eapply publish_ok.
Qed.

Lemma sys_shutdown_ok base s :
  sys_inv base s ->
  exists rg, shutdownWatchers (sy_current s) (sy_registry s) = Some rg /\ registry_wf rg /\
    all_watches (watcher_ok (sy_all s) (sy_current s)) rg.
Proof.
  intros [_ _ _ _ Hwf Hall]. eapply for_registered_ok; try done.
  intros id rg w Hid Hw Hok. by eapply unregister_ok.
Qed.

Lemma sys_unregister_ok base s id reason :
  sys_inv base s ->
  exists rg, unregisterWatch id reason (sy_current s) (sy_registry s) = Some rg /\ registry_wf rg /\
    all_watches (watcher_ok (sy_all s) (sy_current s)) rg.
Proof.
  intros [_ _ _ _ Hwf Hall]. destruct (decide (id ∈ rg_registered (sy_registry s))) as [Hid|Hid].
  2:{ exists (sy_registry s). unfold unregisterWatch. by rewrite decide_False. }
  destruct (rw_registered _ Hwf id Hid) as [w Hw]. pose proof (Hall id w Hw) as Hok.
  rewrite bool_decide_true in Hok by done.
  destruct (unregister_ok _ _ id reason _ w Hid Hw Hok) as (rg & Hrg & Ht & Hnew).
  exists rg. split_and!; [done|destruct Ht as [->|Ht]; [done|by eapply touches_wf]|].
  intros k v Hv. destruct (decide (k = id)) as [->|Hne]; [by apply Hnew|].
  destruct Ht as [->|Ht]; [by apply Hall|]. destruct (touches_other _ _ _ k Ht Hne) as [Hsame Hregk].
  rewrite Hsame in Hv. apply Hall in Hv.
  by assert (bool_decide (k ∈ rg_registered rg) = bool_decide (k ∈ rg_registered (sy_registry s))) as ->
    by (by apply bool_decide_ext).
Qed.

(** Replacing watches by others for which the same holds. *)
Lemma registry_update (P : bool -> watcher -> Prop) id (w' : watcher) rg :
  is_Some (rg_watches rg !! id) -> registry_wf rg -> all_watches P rg ->
  P (bool_decide (id ∈ rg_registered rg)) w' ->
  let rg' := MkRegistry (<[id := w']> (rg_watches rg)) (rg_registered rg) (rg_next rg) (rg_active rg) in
  registry_wf rg' /\ all_watches P rg'.
Proof.
  intros Hid [Hr Hn Ha] Hall HP rg'. split; [split|]; simpl.
  - intros k Hk. destruct (decide (id = k)) as [->|]; [rewrite lookup_insert_eq; eauto|].
    rewrite lookup_insert_ne by done. auto.
  - intros k. destruct (decide (id = k)) as [->|]; [auto|]. rewrite lookup_insert_ne by done. auto.
  - done.
  - intros k w. simpl. destruct (decide (id = k)) as [->|]; [rewrite lookup_insert_eq; by intros [= <-]|].
    rewrite lookup_insert_ne by done. apply Hall.
Qed.

Lemma sys_inv_step base s s' : sys_inv base s -> sys_step s s' -> sys_inv base s'.
Proof.
  intros Hinv Hstep. pose proof Hinv as [Hl [Hm1 Hm2] Hh Hc Hwf Hall].
  destruct Hstep as [events first rg Hhead Hrev Hpub|request depth r rg Hreg Hwrap|id reason rg Hun|rg Hsh
    |id|id w w' Hw Hpump].
  - destruct (sys_commit_ok base s events first Hinv Hhead Hrev) as (rg' & Hpub' & Hwf' & Hall').
    simplify_eq. assert (grp_revision (group_of events) = EvtRevision first) as Hg
      by (unfold group_of; simpl; by rewrite Hhead).
    destruct (history_inv_append base (sy_all s) (sy_history s) events) as (Hh' & He & Hb); try done.
    { by intros ->. }
    { apply increasing_snoc. split; [apply Hh|]. lia. }
    split; simpl; try done; [lia|]. rewrite fmap_app. cbn [fmap list_fmap]. rewrite last_snoc, Hg. simpl. lia.
  - destruct (register_ok base s request depth r rg Hinv Hreg Hwrap). by split.
  - destruct (sys_unregister_ok base s id reason Hinv) as (rg' & Hun' & ? & ?). simplify_eq. by split.
  - destruct (sys_shutdown_ok base s Hinv) as (rg' & Hsh' & ? & ?). simplify_eq. by split.
  - destruct (rg_watches (sy_registry s) !! id) as [w|] eqn:Hw.
    + assert (closeWatch id (sy_registry s) = MkRegistry (<[id := setState (setStop (w_state w)) w]>
        (rg_watches (sy_registry s))) (rg_registered (sy_registry s)) (rg_next (sy_registry s))
        (rg_active (sy_registry s))) as ->.
      { unfold closeWatch. f_equal. apply map_eq. intros k. destruct (decide (id = k)) as [<-|].
        - by rewrite lookup_alter_eq, lookup_insert_eq, Hw.
        - by rewrite lookup_alter_ne, lookup_insert_ne. }
      destruct (registry_update _ id (setState (setStop (w_state w)) w) _ ltac:(eauto) Hwf Hall);
        [|by split]. by apply watcher_stop, Hall.
    + assert (closeWatch id (sy_registry s) = sy_registry s) as ->; [|by split].
      unfold closeWatch. destruct (sy_registry s). simpl in *. f_equal. apply map_eq. intros k.
      destruct (decide (id = k)) as [<-|]; [by rewrite lookup_alter_eq, Hw|by rewrite lookup_alter_ne].
  - destruct (registry_update _ id w' _ ltac:(eauto) Hwf Hall); [|by split].
    eapply watcher_pump; [apply Hh|by eapply sys_revisions|by apply Hall|done].
Qed.

Lemma sys_inv_reach limits base s : limits_ok limits -> sys_reach limits base s -> sys_inv base s.
Proof.
  intros Hl Hr. assert (forall a b, rtc sys_step a b -> sys_inv base a -> sys_inv base b) as Hstar.
  { induction 1 as [|a b c Hab _ IH]; [done|]. intros Ha. by eapply IH, sys_inv_step. }
  by eapply Hstar, sys_inv_start.
Qed.

(** ** Registered watches have not ended

    The part of the invariant that also holds once the database has stopped
    committing: no send on an [end] channel blocks. *)

Definition idle (registered : bool) (w : watcher) : Prop := registered = true -> wt_end (w_state w) = [].

Definition registry_ok (rg : registry) : Prop := registry_wf rg /\ all_watches idle rg.

Lemma sys_registry_ok base s : sys_inv base s -> registry_ok (sy_registry s).
Proof.
  intros [_ _ _ _ Hwf Hall]. split; [done|]. intros id w Hw. exact (wk_end _ _ _ _ (Hall id w Hw)).
Qed.

Lemma unregister_idle id reason current rg w :
  id ∈ rg_registered rg -> rg_watches rg !! id = Some w -> idle true w ->
  exists rg', unregisterWatch id reason current rg = Some rg' /\ (rg' = rg \/ touches id rg rg') /\
    forall w', rg_watches rg' !! id = Some w' -> idle (bool_decide (id ∈ rg_registered rg')) w'.
Proof.
  intros Hid Hw Hidle. unfold unregisterWatch. rewrite decide_True, Hw by done. unfold endWatch, sendEnd.
  rewrite (Hidle eq_refl). eexists. split; [done|]. split.
  - right. eexists. simpl. split_and!; [done..|]. by right.
  - simpl. intros w' _. by rewrite bool_decide_false by set_solver.
Qed.

Lemma registry_unregister id reason current rg :
  registry_ok rg -> exists rg', unregisterWatch id reason current rg = Some rg' /\ registry_ok rg'.
Proof.
  intros [Hwf Hall]. destruct (decide (id ∈ rg_registered rg)) as [Hid|Hid].
  2:{ exists rg. unfold unregisterWatch. by rewrite decide_False. }
  destruct (rw_registered _ Hwf id Hid) as [w Hw]. pose proof (Hall id w Hw) as Hok.
  rewrite bool_decide_true in Hok by done.
  destruct (unregister_idle id reason current rg w Hid Hw Hok) as (rg' & Hrg & Ht & Hnew).
  exists rg'. split; [done|]. split; [destruct Ht as [->|Ht]; [done|by eapply touches_wf]|].
  intros k v Hv. destruct (decide (k = id)) as [->|Hne]; [by apply Hnew|].
  destruct Ht as [->|Ht]; [by apply Hall|]. destruct (touches_other _ _ _ k Ht Hne) as [Hsame Hregk].
  rewrite Hsame in Hv. intros Hr. apply (Hall k v Hv). by rewrite <- Hr; apply bool_decide_ext.
Qed.

Lemma registry_shutdown current rg :
  registry_ok rg -> exists rg', shutdownWatchers current rg = Some rg' /\ registry_ok rg'.
Proof.
  intros [Hwf Hall]. destruct (for_registered_ok (fun id => unregisterWatch id WatchEndedByShutdown current)
    idle idle rg Hwf Hall) as (rg' & Hrg & ? & ?); [done| |by exists rg'].
  intros id rg1 w Hid Hw Hok. by eapply unregister_idle.
Qed.

Lemma registry_register limits current h depth request rg r rg' :
  registry_ok rg -> registerWatch limits current h depth request rg = (r, rg') ->
  wrap_u64 (rg_next rg + 1) = rg_next rg + 1 -> registry_ok rg'.
Proof.
  intros [[Hr Hn Ha] Hall] Hreg Hwrap. unfold registerWatch in Hreg.
  destruct (_ <? _); [by simplify_eq|]. destruct (replayGroupsForWatch _ _ _ _) as [[[groups n] fits]|]; [|by simplify_eq].
  destruct (_ <=? _); [by simplify_eq|]. rewrite Hwrap in Hreg. set (id := rg_next rg + 1) in *.
  assert (rg_watches rg !! id = None) as Hfresh.
  { apply eq_None_not_Some. intros Hs. apply Hn in Hs. lia. }
  assert (id ∉ rg_registered rg) as Hnr by (intros Hs; apply Hr in Hs as [? Hs]; congruence).
  assert (forall (w : watcher) k, is_Some (<[id := w]> (rg_watches rg) !! k) -> k <= id) as Hn'.
  { intros w k. destruct (decide (k = id)) as [->|Hne]; [done|]. rewrite lookup_insert_ne by done. intros Hk%Hn. lia. }
  destruct fits; injection Hreg as <- <-; (split; [split|]); simpl; try done; try apply Hn'.
  - intros k Hk. destruct (decide (k = id)) as [->|Hne]; [rewrite lookup_insert_eq; eauto|].
    rewrite lookup_insert_ne by done. apply Hr. set_solver.
  - rewrite Ha, size_union by set_solver. rewrite size_singleton. lia.
  - intros k w. simpl. destruct (decide (k = id)) as [->|Hne]; [rewrite lookup_insert_eq; by intros [= <-]|].
    rewrite lookup_insert_ne by done. intros Hw Hk. apply (Hall k w Hw).
    rewrite bool_decide_eq_true in *. set_solver.
  - intros k Hk. rewrite lookup_insert_ne by (by intros ->). by apply Hr.
  - intros k w. simpl. destruct (decide (k = id)) as [->|Hne].
    + intros _. by rewrite bool_decide_false.
    + rewrite lookup_insert_ne by done. apply Hall.
Qed.

Lemma registry_pump id w w' rg :
  registry_ok rg -> rg_watches rg !! id = Some w -> pump_step w w' ->
  registry_ok (MkRegistry (<[id := w']> (rg_watches rg)) (rg_registered rg) (rg_next rg) (rg_active rg)).
Proof.
  intros [Hwf Hall] Hw Hp. apply registry_update; [eauto|done..|]. intros Hreg. specialize (Hall id w Hw Hreg).
  destruct Hp as [group rest w' _ _ Hd| | | | |group rest w' _ _ Hd|e rest _ He|]; simpl in *; try done.
  - destruct Hd as [e l He| |]; simpl in *; congruence.
  - by destruct (wt_backlogFits _).
  - destruct Hd as [e l He| |]; simpl in *; congruence.
  - congruence.
Qed.

Lemma registry_close id rg : registry_ok rg -> registry_ok (closeWatch id rg).
Proof.
  intros [[Hr Hn Ha] Hall].
  assert (forall k w, alter (fun w => setState (setStop (w_state w)) w) id (rg_watches rg) !! k = Some w ->
    exists w0, rg_watches rg !! k = Some w0 /\ wt_end (w_state w) = wt_end (w_state w0)) as Hsome.
  { intros k w. destruct (decide (id = k)) as [<-|Hne]; [|rewrite lookup_alter_ne by done; eauto].
    rewrite lookup_alter_eq. intros (w0 & -> & Hw0)%fmap_Some. rewrite Hw0. eauto. }
  split; [split|]; simpl; try done.
  - intros k Hk. destruct (Hr k Hk) as [w Hw]. destruct (decide (id = k)) as [<-|Hne].
    + rewrite lookup_alter_eq, Hw. eauto.
    + rewrite lookup_alter_ne by done. eauto.
  - intros k [w Hw]. apply Hsome in Hw as (w0 & Hw0 & _). apply Hn. eauto.
  - intros k w Hw Hk. apply Hsome in Hw as (w0 & Hw0 & ->). by apply (Hall k w0 Hw0).
Qed.

(** The events a watch has yet to send. *)
Definition pending_events (w : watcher) : list ChangeEvent :=
  match w_pump w with PumpDeliver _ rest _ => rest | _ => [] end
  ++ flat (wt_backlog (w_state w) ++ wt_live (w_state w)).

Lemma watcher_complete all current w :
  watcher_ok all current true w -> w_pump w <> PumpDone ->
  flat (wanted w all) = w_out w ++ pending_events w.
Proof.
  intros [(upto & later & dn & -> & Hlater & [?|Htodo] & [Hsent _ _ _]) _ _ _ _ _ _ _ _ _] Hrun; [done|].
  rewrite (Hlater eq_refl), app_nil_r, Htodo, flat_app. unfold todo, current_group, pending_events.
  destruct (w_pump w) as [|g rest b| |]; try done; try (by rewrite Hsent).
  destruct Hsent as (sent & -> & Hg). cbn [app]. by rewrite flat_cons, Hg, <- !app_assoc.
Qed.

Lemma watcher_prefix all current registered w :
  watcher_ok all current registered w -> w_out w `prefix_of` flat (wanted w all).
Proof.
  intros [(upto & later & dn & Hall & Hlater & Htodo & Hp) _ _ _ _ _ _ _ _ _].
  assert (w_pump w = PumpDone \/ w_pump w <> PumpDone) as [Hd|Hd] by (destruct (w_pump w); auto).
  - destruct Hp as [Hsent _ _ _]. rewrite Hd in Hsent. destruct Hsent as (sent & rest & -> & ->).
    exists rest. by rewrite app_assoc.
  - destruct Htodo as [?|Htodo]; [done|].
    destruct (progress_flat all dn w upto later Hall Hd Htodo Hp) as (sent & rest & -> & ->).
    exists rest. by rewrite app_assoc.
Qed.

Lemma watcher_delivered_upto all current registered w g e :
  watcher_ok all current registered w -> g ∈ wanted w all ->
  grp_revision g <= wt_lastDelivered (w_state w) -> e ∈ grp_events g -> e ∈ w_out w.
Proof.
  intros [(upto & later & dn & Hall & Hlater & Htodo & [Hsent Hlast _ _]) _ _ _ _ _ _ _ _ _] Hg Hle He.
  assert (e ∈ flat dn) as Hin by (apply list_elem_of_bind; eauto).
  destruct (w_pump w); [by rewrite Hsent| |by rewrite Hsent|].
  - destruct Hsent as (sent & -> & _). apply elem_of_app. by left.
  - destruct Hsent as (sent & rest & -> & _). apply elem_of_app. by left.
Qed.

(** ** Properties *)

(** C7: Watches have no gaps.  In every interleaving of commits, registrations,
    terminations, client closes and deliveries, and whatever a pump's selects
    choose: the events a watch has sent are a prefix of the events under its
    prefix committed after its start revision, in commit order and without
    repetition; while it is registered and running, everything else wanted is
    in its queue; and every wanted event up to its last delivered revision,
    which is the one its termination reports, has been sent. *)
Theorem watch_no_gaps limits base s id w :
  limits_ok limits -> sys_reach limits base s -> rg_watches (sy_registry s) !! id = Some w ->
  w_out w `prefix_of` flat (wanted w (sy_all s)) /\
  (id ∈ rg_registered (sy_registry s) -> w_pump w <> PumpDone ->
   flat (wanted w (sy_all s)) = w_out w ++ pending_events w) /\
  (forall g e, g ∈ wanted w (sy_all s) -> grp_revision g <= wt_lastDelivered (w_state w) ->
   e ∈ grp_events g -> e ∈ w_out w) /\
  (forall t, w_ended w = Some t -> TermLastDelivered t = wt_lastDelivered (w_state w)).
Proof.
  intros Hl Hr Hw. pose proof (sys_inv_reach _ _ _ Hl Hr) as Hinv.
  pose proof (si_watches _ _ Hinv id w Hw) as Hok. split_and!.
  - by eapply watcher_prefix.
  - intros Hid. rewrite bool_decide_true in Hok by done. by eapply watcher_complete.
  - intros g e. by eapply watcher_delivered_upto.
  - intros t Ht. by apply (wk_ended _ _ _ _ Hok).
Qed.

Module SampleWatch.
Definition request : watchRequest := MkWatchRequest (lit "jobs/") 2.
Definition start : system := sys_start DefaultOptions 2.
Definition registered : system :=
  setRegistry (registerWatch DefaultOptions 2 (sy_history start) 0 request no_watches).2 start.
Definition events : list ChangeEvent := [SampleHistory.change 3 "jobs/1"; SampleHistory.change 3 "owners/1"].
Definition committed : system :=
  MkSystem DefaultOptions [group_of events] 3 (history_append (sy_history start) events)
    (default no_watches (publishWatchers events (sy_registry registered))).
Definition watch : watcher :=
  default (MkWatch (MkWatcher 0 [] [] [] 0 [] 0 0 0 0 true false) 0 PumpDone [] None)
    (rg_watches (sy_registry committed) !! 1).

Lemma committed_reached : sys_reach DefaultOptions 2 committed.
Proof.
  eapply rtc_l; [|eapply rtc_once].
  - eapply (sys_register _ request 0); [|by vm_compute]. apply surjective_pairing.
  - eapply (sys_commit registered events (SampleHistory.change 3 "jobs/1")); [done|by vm_compute|].
    vm_compute. reflexivity.
Qed.
End SampleWatch.

Lemma watch_no_gaps_witness :
  w_out SampleWatch.watch `prefix_of` flat (wanted SampleWatch.watch (sy_all SampleWatch.committed)) /\
  (1 ∈ rg_registered (sy_registry SampleWatch.committed) -> w_pump SampleWatch.watch <> PumpDone ->
   flat (wanted SampleWatch.watch (sy_all SampleWatch.committed))
     = w_out SampleWatch.watch ++ pending_events SampleWatch.watch) /\
  (forall g e, g ∈ wanted SampleWatch.watch (sy_all SampleWatch.committed) ->
   grp_revision g <= wt_lastDelivered (w_state SampleWatch.watch) ->
   e ∈ grp_events g -> e ∈ w_out SampleWatch.watch) /\
  (forall t, w_ended SampleWatch.watch = Some t ->
   TermLastDelivered t = wt_lastDelivered (w_state SampleWatch.watch)).
Proof.
  apply (watch_no_gaps DefaultOptions 2 SampleWatch.committed 1).
  - apply DefaultOptions_ok.
  - apply SampleWatch.committed_reached.
  - vm_compute. reflexivity.
Defined.

(** C12: The writer never waits for a watch.  In every reachable state,
    publishing a commit to all watches, ending one or ending all of them
    returns: no send on a live or end channel blocks, and the queued events
    of every watch stay within its buffer. *)
Theorem watch_writer_never_blocks limits base s :
  limits_ok limits -> sys_reach limits base s ->
  (forall events first, head events = Some first -> sy_current s < EvtRevision first ->
   is_Some (publishWatchers events (sy_registry s))) /\
  is_Some (shutdownWatchers (sy_current s) (sy_registry s)) /\
  (forall id reason, is_Some (unregisterWatch id reason (sy_current s) (sy_registry s))) /\
  (forall id w, rg_watches (sy_registry s) !! id = Some w ->
   events_total (todo w) <= wt_limit (w_state w)).
Proof.
  intros Hl Hr. pose proof (sys_inv_reach _ _ _ Hl Hr) as Hinv. split_and!.
  - intros events first Hh Hrev. destruct (sys_commit_ok base s events first Hinv Hh Hrev) as (? & -> & _). done.
  - destruct (sys_shutdown_ok base s Hinv) as (? & -> & _). done.
  - intros id reason. destruct (sys_unregister_ok base s id reason Hinv) as (? & -> & _). done.
  - intros id w Hw. pose proof (si_watches _ _ Hinv id w Hw) as Hok.
    pose proof (wk_queued _ _ _ _ Hok). pose proof (wk_limit _ _ _ _ Hok). lia.
Qed.

Lemma watch_writer_never_blocks_witness :
  (forall events first, head events = Some first -> sy_current SampleWatch.committed < EvtRevision first ->
   is_Some (publishWatchers events (sy_registry SampleWatch.committed))) /\
  is_Some (shutdownWatchers (sy_current SampleWatch.committed) (sy_registry SampleWatch.committed)) /\
  (forall id reason, is_Some (unregisterWatch id reason (sy_current SampleWatch.committed)
     (sy_registry SampleWatch.committed))) /\
  (forall id w, rg_watches (sy_registry SampleWatch.committed) !! id = Some w ->
   events_total (todo w) <= wt_limit (w_state w)).
Proof.
  apply (watch_writer_never_blocks DefaultOptions 2 SampleWatch.committed).
  - apply DefaultOptions_ok.
  - apply SampleWatch.committed_reached.
Defined.
