(* ===== verification/Engine.v ===== *)
(** * Engine: the database state (internal/engine/state.go)

    [DatabaseState] is the owner's state.  The clock, the revision allocator,
    the commit log and the fault hook are Go interfaces: the state is generic in
    their types [C], [A], [L] and [F], and each is known through a class of its
    operations.  The locks of the source delimit critical sections of one
    goroutine; the model runs them as the atomic operations they are.  The
    writer goroutine is the sole mutator and is modelled in Writer.v. *)

From stdpp Require Import base gmap list strings sorting.
From Stdlib Require Import ZArith Lia.
From S2P Require Import Prelude.
From S2P Require Import Bytes.
From S2P Require Import Errors.
From S2P Require Import ApiTypes.
From S2P Require Import Clock.
From S2P Require Import Allocator.
From S2P Require Import StorageErrors.
From S2P Require Import WalCodec.
From S2P Require Import OrderedKeys.
From S2P Require Import History.
From S2P Require Import Expiry.
From S2P Require Import Watch.

Local Open Scope Z_scope.
Local Open Scope go_scope.

(** ** Interfaces *)

(** [engine.CommitLog]; [Append] and [Barrier] may also panic. *)
Class CommitLog (L : Type) := {
  log_Append : CommitFrame -> L -> outcome error * L;
  log_Barrier : L -> outcome error * L;
  log_DurableThrough : L -> Revision
}.

(** [faultfs.Checkpoint(state.faults, point, phase)]: [nil] without a hook. *)
Class Faults (F : Type) := fault_Checkpoint : string -> Phase -> F -> error * F.

(** [time.Time.Sub] saturates at the range of [time.Duration]. *)
Definition time_Sub (a b : Time) : Z := Z.max (- 2 ^ 63) (Z.min (2 ^ 63 - 1) (a - b)).

(** [ExpiryTimer]: the dormant timer never fires; the other is stopped or
    armed with a delay. *)
Inductive ExpiryTimer := DormantTimer | StoppedTimer | ArmedTimer (delay : Z).

Definition timer_Stop (t : ExpiryTimer) : ExpiryTimer :=
  match t with DormantTimer => DormantTimer | _ => StoppedTimer end.
Definition timer_Reset (t : ExpiryTimer) (delay : Z) : ExpiryTimer :=
  match t with DormantTimer => DormantTimer | _ => ArmedTimer delay end.

(** ** State *)

Record DatabaseState (C A L F : Type) := MkState {
  st_records : gmap bytes DBRecord;
  st_orderedKeys : KeySlice;
  st_current : Revision;
  st_durableThrough : Revision;
  st_lifecycle : LifecycleState;
  st_limits : Limits;
  st_clock : Nondecreasing C;
  st_log : L;
  st_allocator : A;
  st_faults : F;
  st_databaseID : DatabaseID;
  st_snapshotRevision : Revision;
  st_reservedRevisionEnd : Revision;
  st_activeWALStart : Revision;
  st_expiries : expiries;
  st_expiryTimer : ExpiryTimer;
  st_history : historyLog;
  st_registry : registry;
  st_queueCapacity : Z
}.
Arguments MkState {C A L F}.
Arguments st_records {C A L F}.
Arguments st_orderedKeys {C A L F}.
Arguments st_current {C A L F}.
Arguments st_durableThrough {C A L F}.
Arguments st_lifecycle {C A L F}.
Arguments st_limits {C A L F}.
Arguments st_clock {C A L F}.
Arguments st_log {C A L F}.
Arguments st_allocator {C A L F}.
Arguments st_faults {C A L F}.
Arguments st_databaseID {C A L F}.
Arguments st_snapshotRevision {C A L F}.
Arguments st_reservedRevisionEnd {C A L F}.
Arguments st_activeWALStart {C A L F}.
Arguments st_expiries {C A L F}.
Arguments st_expiryTimer {C A L F}.
Arguments st_history {C A L F}.
Arguments st_registry {C A L F}.
Arguments st_queueCapacity {C A L F}.

Section updates.
Context {C A L F : Type}.
Implicit Types st : DatabaseState C A L F.

Definition set_lifecycle (l : LifecycleState) st : DatabaseState C A L F :=
  MkState (st_records st) (st_orderedKeys st) (st_current st) (st_durableThrough st) l (st_limits st)
    (st_clock st) (st_log st) (st_allocator st) (st_faults st) (st_databaseID st) (st_snapshotRevision st)
    (st_reservedRevisionEnd st) (st_activeWALStart st) (st_expiries st) (st_expiryTimer st)
    (st_history st) (st_registry st) (st_queueCapacity st).
Definition set_clock (c : Nondecreasing C) st : DatabaseState C A L F :=
  MkState (st_records st) (st_orderedKeys st) (st_current st) (st_durableThrough st) (st_lifecycle st)
    (st_limits st) c (st_log st) (st_allocator st) (st_faults st) (st_databaseID st)
    (st_snapshotRevision st) (st_reservedRevisionEnd st) (st_activeWALStart st) (st_expiries st)
    (st_expiryTimer st) (st_history st) (st_registry st) (st_queueCapacity st).
Definition set_log (l : L) st : DatabaseState C A L F :=
  MkState (st_records st) (st_orderedKeys st) (st_current st) (st_durableThrough st) (st_lifecycle st)
    (st_limits st) (st_clock st) l (st_allocator st) (st_faults st) (st_databaseID st)
    (st_snapshotRevision st) (st_reservedRevisionEnd st) (st_activeWALStart st) (st_expiries st)
    (st_expiryTimer st) (st_history st) (st_registry st) (st_queueCapacity st).
Definition set_allocator (a : A) st : DatabaseState C A L F :=
  MkState (st_records st) (st_orderedKeys st) (st_current st) (st_durableThrough st) (st_lifecycle st)
    (st_limits st) (st_clock st) (st_log st) a (st_faults st) (st_databaseID st)
    (st_snapshotRevision st) (st_reservedRevisionEnd st) (st_activeWALStart st) (st_expiries st)
    (st_expiryTimer st) (st_history st) (st_registry st) (st_queueCapacity st).
Definition set_faults (f : F) st : DatabaseState C A L F :=
  MkState (st_records st) (st_orderedKeys st) (st_current st) (st_durableThrough st) (st_lifecycle st)
    (st_limits st) (st_clock st) (st_log st) (st_allocator st) f (st_databaseID st)
    (st_snapshotRevision st) (st_reservedRevisionEnd st) (st_activeWALStart st) (st_expiries st)
    (st_expiryTimer st) (st_history st) (st_registry st) (st_queueCapacity st).
Definition set_durableThrough (r : Revision) st : DatabaseState C A L F :=
  MkState (st_records st) (st_orderedKeys st) (st_current st) r (st_lifecycle st)
    (st_limits st) (st_clock st) (st_log st) (st_allocator st) (st_faults st) (st_databaseID st)
    (st_snapshotRevision st) (st_reservedRevisionEnd st) (st_activeWALStart st) (st_expiries st)
    (st_expiryTimer st) (st_history st) (st_registry st) (st_queueCapacity st).
Definition set_snapshot (snapshotRevision activeWALStart : Revision) st : DatabaseState C A L F :=
  MkState (st_records st) (st_orderedKeys st) (st_current st) (st_durableThrough st) (st_lifecycle st)
    (st_limits st) (st_clock st) (st_log st) (st_allocator st) (st_faults st) (st_databaseID st)
    snapshotRevision (st_reservedRevisionEnd st) activeWALStart (st_expiries st)
    (st_expiryTimer st) (st_history st) (st_registry st) (st_queueCapacity st).
Definition set_expiries (x : expiries) st : DatabaseState C A L F :=
  MkState (st_records st) (st_orderedKeys st) (st_current st) (st_durableThrough st) (st_lifecycle st)
    (st_limits st) (st_clock st) (st_log st) (st_allocator st) (st_faults st) (st_databaseID st)
    (st_snapshotRevision st) (st_reservedRevisionEnd st) (st_activeWALStart st) x
    (st_expiryTimer st) (st_history st) (st_registry st) (st_queueCapacity st).
Definition set_timer (t : ExpiryTimer) st : DatabaseState C A L F :=
  MkState (st_records st) (st_orderedKeys st) (st_current st) (st_durableThrough st) (st_lifecycle st)
    (st_limits st) (st_clock st) (st_log st) (st_allocator st) (st_faults st) (st_databaseID st)
    (st_snapshotRevision st) (st_reservedRevisionEnd st) (st_activeWALStart st) (st_expiries st)
    t (st_history st) (st_registry st) (st_queueCapacity st).
Definition set_registry (r : registry) st : DatabaseState C A L F :=
  MkState (st_records st) (st_orderedKeys st) (st_current st) (st_durableThrough st) (st_lifecycle st)
    (st_limits st) (st_clock st) (st_log st) (st_allocator st) (st_faults st) (st_databaseID st)
    (st_snapshotRevision st) (st_reservedRevisionEnd st) (st_activeWALStart st) (st_expiries st)
    (st_expiryTimer st) (st_history st) r (st_queueCapacity st).

(** The locked section of [execute] that installs a commit. *)
Definition set_commit (records : gmap bytes DBRecord) (keys : KeySlice) (current durableThrough : Revision)
    (history : historyLog) st : DatabaseState C A L F :=
  MkState records keys current durableThrough (st_lifecycle st)
    (st_limits st) (st_clock st) (st_log st) (st_allocator st) (st_faults st) (st_databaseID st)
    (st_snapshotRevision st) (st_reservedRevisionEnd st) (st_activeWALStart st) (st_expiries st)
    (st_expiryTimer st) history (st_registry st) (st_queueCapacity st).

Definition degrade st : DatabaseState C A L F := set_lifecycle LifecycleDegradedReadOnly st.
End updates.

(** ** Errors *)

Definition engineValidateKey (key : bytes) (limits : Limits) : error :=
  if bool_decide (key = []) then Some (invalidField "key" "must not be empty")
  else if negb (utf8_valid key) then Some (invalidField "key" "must be valid UTF-8")
  else if MaxKeyBytes limits <? len key then
    Some (keyTooLarge "key" "Key exceeds the configured limit." (len key) (MaxKeyBytes limits))
  else None.

Definition validatePrefix (prefix : bytes) (limits : Limits) : error :=
  if negb (utf8_valid prefix) then Some (invalidField "prefix" "must be valid UTF-8")
  else if MaxKeyBytes limits <? len prefix then
    Some (keyTooLarge "prefix" "Prefix exceeds the configured key limit." (len prefix) (MaxKeyBytes limits))
  else None.

Definition notFound (key : bytes) (current : Revision) : goerror :=
  ErrGap (newError CodeNotFound "The key is not present at the current effective time."
    RetryAfterReconcile [EvKey key; EvCurrentRevision current]
    [ActionGet; ActionPutIfAbsent; ActionAbort]).

Definition serverBusy (depth maximum : Z) : goerror :=
  ErrGap (newError CodeServerBusy "The mutation queue is full." RetryImmediate
    [EvActiveClients 1; EvMaximumClients maximum; EvQueueDepth depth]
    [ActionRetryWithBackoff; ActionAbort]).

Definition storageDegraded (stage : string) (current durable : Revision) (operationApplied : bool)
    (cause : error) : goerror :=
  ErrGap (withApplied operationApplied (withCause cause
    (newError CodeStorageDegraded "Storage can no longer accept mutations safely." RetryAfterRestart
      [EvFailedStage stage; EvCurrentRevision current; EvDurableThroughRevision durable]
      [ActionStatus; ActionVerify; ActionRestartAfterRecovery; ActionAbort]))).

Definition batchTooLarge (received maximum : Z) : goerror :=
  ErrGap (newError CodeBatchTooLarge "Batch exceeds the configured byte limit." RetryNever
    [EvReceivedBytes received; EvMaximumBytes maximum] [ActionSplitBatch; ActionAbort]).

Definition internalFailure (correlationID : string) (operationApplied : bool) (cause : error) : goerror :=
  ErrGap (withApplied operationApplied (withCause cause
    (newError CodeInternal "The writer stopped after an internal invariant failure." RetryAfterOperator
      [EvCorrelationID correlationID] [ActionStatus; ActionVerify; ActionAbort]))).

Definition recordExpired (record : DBRecord) (now : Time) : bool :=
  match RecExpiresAt record with Some e => IsExpired e now | None => false end.

(** ** Construction *)

(** [config.Clock]: nil, [clock.Real] or another clock. *)
Inductive ClockConfig (C : Type) := NilClock | RealClock | OtherClock (c : C).
Arguments NilClock {C}.
Arguments RealClock {C}.
Arguments OtherClock {C} c.

Record Config (C A L F : Type) := MkConfig {
  cf_Limits : Limits;
  cf_QueueCapacity : Z;
  cf_Clock : ClockConfig C;
  cf_ExpiryTimer : option ExpiryTimer;
  cf_Log : option L;
  cf_Allocator : option A;
  cf_Records : list DBRecord;
  cf_CurrentRevision : Revision;
  cf_DurableThroughRevision : Revision;
  cf_DatabaseID : DatabaseID;
  cf_SnapshotRevision : Revision;
  cf_RecoveredCommits : list CommitFrame;
  cf_ReservedRevisionEnd : Revision;
  cf_ActiveWALStart : Revision;
  cf_Faults : F
}.
Arguments MkConfig {C A L F}.
Arguments cf_Limits {C A L F}.
Arguments cf_QueueCapacity {C A L F}.
Arguments cf_Clock {C A L F}.
Arguments cf_ExpiryTimer {C A L F}.
Arguments cf_Log {C A L F}.
Arguments cf_Allocator {C A L F}.
Arguments cf_Records {C A L F}.
Arguments cf_CurrentRevision {C A L F}.
Arguments cf_DurableThroughRevision {C A L F}.
Arguments cf_DatabaseID {C A L F}.
Arguments cf_SnapshotRevision {C A L F}.
Arguments cf_RecoveredCommits {C A L F}.
Arguments cf_ReservedRevisionEnd {C A L F}.
Arguments cf_ActiveWALStart {C A L F}.
Arguments cf_Faults {C A L F}.

Definition defaultQueueCapacity : Z := 64.

Definition limitsZero (l : Limits) : bool :=
  bool_decide ((MaxFrameBytes l, MaxKeyBytes l, MaxValueBytes l, MaxBatchOperations l, MaxBatchBytes l,
    MaxScanRecords l, MaxScanBytes l, MaxConcurrentClients l, MaxWatchClients l, WatchBufferEvents l,
    MaxHistoryEvents l, MaxHistoryBytes l) = (0, 0, 0, 0, 0, 0, 0, 0, 0, 0, 0, 0)).

(** The loop over [config.Records]: the map and the scheduled expiries. *)
Fixpoint loadRecords (limits : Limits) (current : Revision) (l : list DBRecord)
    (records : gmap bytes DBRecord) (x : expiries) : result goerror (gmap bytes DBRecord * expiries) :=
  match l with
  | [] => Ok (records, x)
  | record :: rest =>
      match engineValidateKey (RecKey record) limits with
      | Some err => Err (ErrWrap "initial record" err)
      | None =>
          reject (RecRevision record =? 0) || (current <? RecRevision record)
            with invalidField "records.revision" "must be nonzero and not exceed current_revision" ;;
          reject MaxValueBytes limits <? len (RecValue record)
            with valueTooLarge (len (RecValue record)) (MaxValueBytes limits) ;;
          let maximumCleanupBytes := Z.min (MaxBatchBytes limits) (MaxFrameBytes limits) in
          let cleanupBytes := 32 + 20 + len (RecKey record) in
          reject bool_decide (RecExpiresAt record <> None) && (maximumCleanupBytes <? cleanupBytes)
            with batchTooLarge cleanupBytes maximumCleanupBytes ;;
          reject bool_decide (records !! RecKey record <> None)
            with invalidField "records.key" "must be unique" ;;
          loadRecords limits current rest (<[RecKey record := record]> records)
            (scheduleRecordExpiry x record)
      end
  end.

Section engine.
Context {C A L F : Type} `{Clock C}.
Implicit Types st : DatabaseState C A L F.

Definition resetExpiryTimer st : DatabaseState C A L F :=
  match ex_items (st_expiries st) with
  | [] => set_timer (timer_Stop (st_expiryTimer st)) st
  | p :: _ =>
      let (now, c) := Nondecreasing_Now (st_clock st) in
      let delay := time_Sub (cand_at (candidate (st_expiries st) p)) now in
      let delay := if delay <? 0 then 0 else delay in
      set_timer (timer_Reset (st_expiryTimer st) delay) (set_clock c st)
  end.

(** [New]; [real] is the operating system's clock.  Starting the writer
    goroutine is the caller's first [runWriter] step. *)
Definition New (real : C) (config : Config C A L F) : result goerror (DatabaseState C A L F) :=
  let limits := if limitsZero (cf_Limits config) then DefaultOptions else cf_Limits config in
  check Options_Validate limits ;;
  let capacity := if cf_QueueCapacity config =? 0 then defaultQueueCapacity else cf_QueueCapacity config in
  reject capacity <? 0 with invalidField "queue_capacity" "must be greater than zero" ;;
  let source := match cf_Clock config with OtherClock c => c | _ => real end in
  let isReal := match cf_Clock config with OtherClock _ => false | _ => true end in
  match cf_Log config, cf_Allocator config with
  | None, _ => Err (invalidField "log" "must be configured")
  | _, None => Err (invalidField "allocator" "must be configured")
  | Some log, Some allocator =>
      reject cf_CurrentRevision config <? cf_DurableThroughRevision config
        with invalidField "durable_through_revision" "must not exceed current_revision" ;;
      reject cf_CurrentRevision config <? cf_SnapshotRevision config
        with invalidField "snapshot_revision" "must not exceed current_revision" ;;
      let timer := match cf_ExpiryTimer config with
                   | Some t => t
                   | None => if isReal then StoppedTimer else DormantTimer
                   end in
      match loadRecords limits (cf_CurrentRevision config) (cf_Records config) ∅ no_expiries with
      | Err e => Err e
      | Ok (records, x) =>
          let keys := sort_Strings ((map_to_list records).*1) in
          match history_rebuild (history_initialize limits (cf_SnapshotRevision config))
                  (cf_RecoveredCommits config) (cf_CurrentRevision config) with
          | Err e => Err e
          | Ok history =>
              Ok (resetExpiryTimer
                (MkState records (MkKeySlice keys (len keys)) (cf_CurrentRevision config)
                  (cf_DurableThroughRevision config) LifecycleReady limits (NewNondecreasing source)
                  log allocator (cf_Faults config) (cf_DatabaseID config) (cf_SnapshotRevision config)
                  (cf_ReservedRevisionEnd config) (cf_ActiveWALStart config) x timer history
                  no_watches capacity))
          end
      end
  end.

(** ** Reads *)

Definition Get (key : bytes) st : result goerror DBRecord * DatabaseState C A L F :=
  match engineValidateKey key (st_limits st) with
  | Some e => (Err e, st)
  | None =>
      let (now, c) := Nondecreasing_Now (st_clock st) in
      let st := set_clock c st in
      match (st_records st !! key : option DBRecord) with
      | Some record =>
          (if recordExpired record now then Err (notFound key (st_current st)) else Ok record, st)
      | None => (Err (notFound key (st_current st)), st)
      end
  end.

Definition mutationUnavailable (lifecycle : LifecycleState) st : goerror :=
  match lifecycle with
  | LifecycleDegradedReadOnly =>
      storageDegraded "writer_disabled" (st_current st) (st_durableThrough st) false None
  | _ => ErrGap (newError CodeServerShuttingDown "The owner is not accepting new mutations."
           RetryAfterRestart [EvLifecycle lifecycle] [ActionWaitForRestart; ActionAbort])
  end.
End engine.

(** ** Validation of mutations (mutation.go) *)

Definition expiryRepresentable (t : Time) : bool := time_Unix0 (UnixNano t) =? t.

(** The loop of [validateBatchAt], in [uint64] arithmetic. *)
Fixpoint batchTotal (maximum : Z) (l : list Mutation) (total : Z) : result goerror Z :=
  match l with
  | [] => Ok total
  | m :: rest =>
      reject match MutExpiresAt m with Some t => negb (expiryRepresentable t) | None => false end
        with invalidField "expires_at" "must be representable as signed Unix nanoseconds" ;;
      let addition := wrap_u64 (20 + len (MutKey m) + value_len (MutValue m)) in
      reject max_uint64 - total <? addition with batchTooLarge max_int64 maximum ;;
      batchTotal maximum rest (total + addition)
  end.

Definition validateBatchAt (batch : Batch) (limits : Limits) (now : Time) : error :=
  try Batch_ValidateAt limits now batch ;;
  let maximum := Z.min (MaxBatchBytes limits) (MaxFrameBytes limits) in
  match batchTotal maximum (BatchMutations batch) 32 with
  | Err e => Some e
  | Ok total =>
      if (wrap_u64 maximum <? total) || (max_uint32 <? total)
      then Some (batchTooLarge (if max_int64 <? total then max_int64 else total) maximum)
      else None
  end.
