(* ===== verification/Writer.v ===== *)
(** * Writer: the single writer (internal/engine/writer.go, expiry.go, mutation.go)

    [execute] validates a batch, evaluates its assertions and conditions,
    plans the key index, takes a revision, appends the commit to the log,
    optionally waits for durability, and installs the commit.  Its steps are
    sequenced by a small monad that threads the state and the [commitProgress]
    flag, stops at the first error, and lets a panic or a blocked channel send
    end the execution. *)

From stdpp Require Import base gmap list strings sorting pretty.
From Stdlib Require Import ZArith Lia.
From S2P Require Import Prelude.
From S2P Require Import Bytes.
From S2P Require Import Errors.
From S2P Require Import ApiTypes.
From S2P Require Import Clock.
From S2P Require Import Allocator.
From S2P Require Import StorageErrors.
From S2P Require Import WalCodec.
From S2P Require Import OrderedKeys.
From S2P Require Import History.
From S2P Require Import Expiry.
From S2P Require Import Watch.
From S2P Require Import Engine.

Local Open Scope Z_scope.
Local Open Scope go_scope.

Inductive singleOperation :=
| operationBatch | operationPut | operationPutIfAbsent | operationCompareAndSwap
| operationDeleteIfRevision | operationExpiry.

Global Instance singleOperation_eq_dec : EqDecision singleOperation.
Proof. solve_decision. Defined.

Record CommitResult := MkCommitResult { CrResult : MutationResult; CrEvents : list ChangeEvent }.

Definition FaultPointAssertionEvaluation : string := "engine.assertion_evaluation".
Definition FaultPointMutationConditionEvaluation : string := "engine.mutation_condition_evaluation".
Definition PointMapApply : string := "map.apply".

(** ** Errors of the writer *)

Definition asGapdbError (err : goerror) : option Error := asError err.

Definition appendErrorMayHaveApplied (err : goerror) : bool :=
  let deferToHook :=
    match asHook err with
    | Some ev => negb (String.eqb (EventPoint ev) "wal.frame_write"
                       && bool_decide (EventPhase ev = Before))
    | None => true
    end in
  match asGapdbError err with
  | Some e =>
      if OperationApplied e then true
      else if bool_decide (Code e = CodeStorageDegraded)
              && String.eqb (failedStage (Evidences e)) "wal_unavailable" then false
      else deferToHook
  | None => deferToHook
  end.

(** [apiErr] with the engine's revisions in place of its own. *)
Definition isRevisions (ev : Evidence) : bool :=
  match ev with EvCurrentRevision _ | EvDurableThroughRevision _ => true | _ => false end.

Definition persistenceFailure (stage : string) (current durable : Revision) (operationApplied : bool)
    (cause : goerror) : goerror :=
  match asGapdbError cause with
  | Some e =>
      if bool_decide (Code e = CodeStorageDegraded) then
        let ev := filter (fun ev => isRevisions ev = false) (Evidences e)
                  ++ [EvCurrentRevision current; EvDurableThroughRevision durable] in
        let ev := if String.eqb (failedStage (Evidences e)) "" then EvFailedStage stage :: ev else ev in
        ErrGap (withApplied (OperationApplied e || operationApplied) (withEvidence ev e))
      else storageDegraded stage current durable operationApplied (Some cause)
  | None => storageDegraded stage current durable operationApplied (Some cause)
  end.

Definition batchConditionError (m : Mutation) (record : DBRecord) (live : bool) (index : Z) : goerror :=
  ErrGap (newError CodeConditionFailed "A batch mutation condition failed." RetryAfterReconcile
    ([EvKey (MutKey m); EvMutationIndex index; EvCondition (CondKind (MutCondition m))]
     ++ [if live then EvActualRevision (RecRevision record) else EvActualState "absent"])
    [ActionGet; ActionRebuildBatch; ActionAbort]).

Definition alreadyExists (key : bytes) (actual : Revision) : goerror :=
  ErrGap (newError CodeAlreadyExists "The key already exists." RetryAfterReconcile
    [EvKey key; EvActualRevision actual] [ActionGet; ActionCompareAndSwap; ActionAbort]).

Definition revisionMismatch (key : bytes) (expected actual : Revision) : goerror :=
  ErrGap (newError CodeRevisionMismatch "The record revision does not match the condition."
    RetryAfterReconcile [EvKey key; EvExpectedRevision expected; EvActualRevision actual]
    [ActionGet; ActionRetryWithNewCondition; ActionAbort]).

(** [record] is the zero record when the key is absent. *)
Definition conditionError (m : Mutation) (record : DBRecord) (live : bool) (current : Revision)
    (index : Z) (single : singleOperation) : error :=
  let expected := CondExpected (MutCondition m) in
  if bool_decide (single = operationExpiry) && bool_decide (CondKind (MutCondition m) = ConditionRevision)
     && (RecRevision record =? expected) then None
  else match CondKind (MutCondition m) with
  | ConditionAny => None
  | ConditionAbsent =>
      if negb live then None
      else if bool_decide (single = operationPutIfAbsent)
      then Some (alreadyExists (MutKey m) (RecRevision record))
      else Some (batchConditionError m record live index)
  | ConditionRevision =>
      if live && (RecRevision record =? expected) then None
      else if bool_decide (single = operationCompareAndSwap)
              || bool_decide (single = operationDeleteIfRevision)
      then if negb live then Some (notFound (MutKey m) current)
           else Some (revisionMismatch (MutKey m) expected (RecRevision record))
      else Some (batchConditionError m record live index)
  | ConditionUnknown _ => Some (invalidField "condition.kind" "must be any, absent, or revision")
  end.

(** [for end > 0 && !utf8.ValidString(key[:end]) { end-- }] is [trimToValid]. *)
Definition boundedPredicateKey (key : bytes) : bytes :=
  if len key <=? 256 then key else take (trimToValid key 256) key.

Definition assertionConditionError (a : Assertion) (record : DBRecord) (live : bool) (index : Z) : error :=
  let kind := CondKind (AssCondition a) in
  let expected := CondExpected (AssCondition a) in
  let failed := Some (ErrGap (newError CodeConditionFailed "Atomic batch assertion failed."
    RetryAfterReconcile
    ([EvKey (boundedPredicateKey (AssKey a)); EvAssertionIndex index; EvCondition kind]
     ++ (if bool_decide (kind = ConditionRevision) then [EvExpectedRevision expected] else [])
     ++ [if live then EvActualRevision (RecRevision record) else EvActualState "absent"])
    [ActionGet; ActionRebuildBatch; ActionAbort])) in
  match kind with
  | ConditionAbsent => if negb live then None else failed
  | ConditionRevision => if live && (RecRevision record =? expected) then None else failed
  | _ => Some (invalidField "condition.kind" "assertions require absent or revision")
  end.

(** ** Effects and events *)

Definition effectFor (m : Mutation) (operation : singleOperation) : Effect :=
  match MutKind m with
  | MutationDelete =>
      MkEffect (if bool_decide (operation = operationExpiry) then ChangeExpire else ChangeDelete)
        (MutKey m) [] None
  | _ => MkEffect ChangePut (MutKey m) (cloneOpaqueBytes (MutValue m)) (MutExpiresAt m)
  end.

Definition apply (revision : Revision) (order : Z) (m : Mutation) (operation : singleOperation)
    (records : gmap bytes DBRecord) : ChangeEvent * gmap bytes DBRecord :=
  match MutKind m with
  | MutationDelete =>
      (MkChangeEvent revision order
         (if bool_decide (operation = operationExpiry) then ChangeExpire else ChangeDelete) (MutKey m) None,
       delete (MutKey m) records)
  | _ =>
      let record := NewRecord (MutKey m) (MutValue m) revision (MutExpiresAt m) in
      (MkChangeEvent revision order ChangePut (MutKey m) (Some record), <[MutKey m := record]> records)
  end.

Fixpoint apply_loop (revision : Revision) (order : Z) (l : list Mutation) (operation : singleOperation)
    (records : gmap bytes DBRecord) : list ChangeEvent * gmap bytes DBRecord :=
  match l with
  | [] => ([], records)
  | m :: rest =>
      let (event, records) := apply revision order m operation records in
      let (events, records) := apply_loop revision (order + 1) rest operation records in
      (event :: events, records)
  end.

(** ** The execution monad *)

(** How an execution ends: with the values of a Go return, in a panic, or
    blocked for ever in a channel send. *)
Inductive exit (X : Type) : Type :=
| Done (r : result goerror X)
| Panic (v : string)
| Hung.
Arguments Done {X} r.
Arguments Panic {X} v.
Arguments Hung {X}.

Section writer.
Context {C A L F : Type} `{Clock C, RevisionAllocator A, CommitLog L, Faults F}.
Abbreviation state := (DatabaseState C A L F).
Implicit Types st : state.

(** The state and [commitProgress.appliedPossible]. *)
Definition exec (X : Type) : Type := state * bool -> exit X * (state * bool).

Definition exec_ret {X} (x : X) : exec X := fun s => (Done (Ok x), s).
Definition exec_fail {X} (e : goerror) : exec X := fun s => (Done (Err e), s).
Definition exec_bind {X Y} (m : exec X) (k : X -> exec Y) : exec Y := fun s =>
  let (r, s) := m s in
  match r with
  | Done (Ok x) => k x s
  | Done (Err e) => (Done (Err e), s)
  | Panic v => (Panic v, s)
  | Hung => (Hung, s)
  end.

Definition get : exec state := fun s => (Done (Ok s.1), s).
Definition modify (f : state -> state) : exec unit := fun s => (Done (Ok tt), (f s.1, s.2)).
Definition mark_applied : exec unit := fun s => (Done (Ok tt), (s.1, true)).
Definition exec_check (e : error) : exec unit :=
  match e with Some err => exec_fail err | None => exec_ret tt end.

(** [state.degrade()] followed by a return of the error [f] computes. *)
Definition degrade_fail {X} (f : state -> goerror) : exec X := fun s =>
  let st := degrade s.1 in (Done (Err (f st)), (st, s.2)).

Definition now : exec Time := fun s =>
  let (t, c) := Nondecreasing_Now (st_clock s.1) in (Done (Ok t), (set_clock c s.1, s.2)).

Definition checkpoint (point : string) (phase : Phase) : exec error := fun s =>
  let (e, f) := fault_Checkpoint point phase (st_faults s.1) in (Done (Ok e), (set_faults f s.1, s.2)).

(** A call through an interface: its value, or its panic. *)
Definition called {X} (o : outcome X) (s : state * bool) : exit X * (state * bool) :=
  match o with Returned x => (Done (Ok x), s) | Panicked v => (Panic v, s) end.

Definition allocator_Next : exec (result goerror Revision) := fun s =>
  let (o, a) := alloc_Next (st_allocator s.1) in called o (set_allocator a s.1, s.2).

Definition barrier : exec error := fun s =>
  let (o, l) := log_Barrier (st_log s.1) in called o (set_log l s.1, s.2).

Definition appendWithProgress (frame : CommitFrame) : exec error := fun s =>
  let (o, l) := log_Append frame (st_log s.1) in
  let st := set_log l s.1 in
  match o with
  | Panicked v => (Panic v, (st, true))
  | Returned err =>
      let possible := match err with None => true | Some e => appendErrorMayHaveApplied e end in
      (Done (Ok err), (st, s.2 || possible))
  end.
End writer.

Notation "'let!' x := m 'in' k" := (exec_bind m (fun x => k))
  (at level 200, x pattern, m at level 100, k at level 200, right associativity) : go_scope.
Notation "'do!' m ; k" := (exec_bind m (fun _ => k))
  (at level 200, m at level 100, k at level 200, right associativity) : go_scope.

(** ** Predicates *)

Definition zero_record : DBRecord := MkRecord [] [] 0 None.

(** [record, exists := state.records[key]; live := exists && !recordExpired(record, now)]. *)
Definition lookup_live (records : gmap bytes DBRecord) (key : bytes) (now : Time) : DBRecord * bool :=
  match (records !! key : option DBRecord) with
  | Some record => (record, negb (recordExpired record now))
  | None => (zero_record, false)
  end.

Fixpoint assertionsError (records : gmap bytes DBRecord) (now : Time) (l : list Assertion) (index : Z)
    : error :=
  match l with
  | [] => None
  | a :: rest =>
      let (record, live) := lookup_live records (AssKey a) now in
      try assertionConditionError a record live index ;;
      assertionsError records now rest (index + 1)
  end.

Fixpoint conditionsError (records : gmap bytes DBRecord) (now : Time) (current : Revision)
    (single : singleOperation) (l : list Mutation) (index : Z) : error :=
  match l with
  | [] => None
  | m :: rest =>
      let (record, live) := lookup_live records (MutKey m) now in
      try conditionError m record live current index single ;;
      conditionsError records now current single rest (index + 1)
  end.

Section execute.
Context {C A L F : Type} `{Clock C, RevisionAllocator A, CommitLog L, Faults F}.
Abbreviation state := (DatabaseState C A L F).
Implicit Types st : state.

(** A checkpoint whose error is an internal failure. *)
Definition guard (id point : string) (phase : Phase) : exec (C := C) (A := A) (L := L) (F := F) unit :=
  let! e := checkpoint point phase in
  exec_check (match e with Some err => Some (internalFailure id false (Some err)) | None => None end).

Definition predicatePhase (batch : Batch) (single : singleOperation) (t : Time)
    : exec (C := C) (A := A) (L := L) (F := F) unit :=
  let asserting := negb (len (BatchAssertions batch) =? 0) in
  do! (if asserting then guard "engine-assertion-evaluation" FaultPointAssertionEvaluation Before
       else exec_ret tt);
  let! st := get in
  do! exec_check (assertionsError (st_records st) t (BatchAssertions batch) 0);
  do! (if asserting then guard "engine-assertion-evaluation" FaultPointAssertionEvaluation After
       else exec_ret tt);
  do! guard "engine-mutation-condition-evaluation" FaultPointMutationConditionEvaluation Before;
  do! exec_check (conditionsError (st_records st) t (st_current st) single (BatchMutations batch) 0);
  guard "engine-mutation-condition-evaluation" FaultPointMutationConditionEvaluation After.

(** [afterCommit]; [None] if publishing to a watch blocks. *)
Fixpoint scheduleEvents (events : list ChangeEvent) (x : expiries) : expiries :=
  match events with
  | [] => x
  | event :: rest =>
      scheduleEvents rest
        match EvtKind event, EvtRecord event with
        | ChangePut, Some record => scheduleRecordExpiry x record
        | _, _ => removeScheduledExpiry x (EvtKey event)
        end
  end.

Definition afterCommit (events : list ChangeEvent) : exec (C := C) (A := A) (L := L) (F := F) unit :=
  fun s =>
    let st := set_expiries (scheduleEvents events (st_expiries s.1)) s.1 in
    match publishWatchers events (st_registry st) with
    | None => (Hung, (st, s.2))
    | Some rg => (Done (Ok tt), (set_registry rg st, s.2))
    end.

(** From the durability evidence of the log to the installed commit. *)
Definition commitBarrier (ack : AckMode) (revision durableThrough : Revision)
    : exec (C := C) (A := A) (L := L) (F := F) Revision :=
  match ack with
  | AckDurable =>
      let! e := barrier in
      match e with
      | Some err => degrade_fail (fun st =>
          persistenceFailure "wal_barrier" (st_current st) (st_durableThrough st) true err)
      | None =>
          let! st := get in
          let durableThrough := log_DurableThrough (st_log st) in
          if negb (durableThrough =? revision)
          then degrade_fail (fun st =>
            storageDegraded "wal_barrier_evidence" (st_current st) (st_durableThrough st) true None)
          else exec_ret durableThrough
      end
  | _ => exec_ret durableThrough
  end.

Definition applyCheckpoint (phase : Phase) : exec (C := C) (A := A) (L := L) (F := F) unit :=
  let! e := checkpoint PointMapApply phase in
  match e with
  | Some err => degrade_fail (fun st =>
      persistenceFailure "map_apply" (st_current st) (st_durableThrough st) true err)
  | None => exec_ret tt
  end.

Definition install (plan : orderedKeyPlan) (revision durableThrough : Revision)
    (events : list ChangeEvent) (records : gmap bytes DBRecord) st : state :=
  set_commit records (installPlan (st_orderedKeys st) plan) revision
    (if st_durableThrough st <? durableThrough then durableThrough else st_durableThrough st)
    (history_append (st_history st) events) st.

Definition execute (batch : Batch) (single : singleOperation)
    : exec (C := C) (A := A) (L := L) (F := F) CommitResult :=
  let! st := get in
  if negb (bool_decide (st_lifecycle st = LifecycleReady) || bool_decide (st_lifecycle st = LifecycleDraining))
  then exec_fail (mutationUnavailable (st_lifecycle st) st)
  else
  let! t := now in
  do! exec_check (validateBatchAt batch (st_limits st) t);
  do! predicatePhase batch single t;
  let! st := get in
  let plan := planOrderedKeys (st_orderedKeys st) (BatchMutations batch) in
  let! next := allocator_Next in
  match next with
  | Err e => degrade_fail (fun _ => e)
  | Ok revision =>
      let! st := get in
      if (revision =? 0) || (revision <=? st_current st)
      then degrade_fail (fun _ => internalFailure "engine-invalid-allocator-revision" false
             (Some (ErrText ("allocator returned revision " +:+ pretty revision
                             +:+ " after committed revision " +:+ pretty (st_current st)))))
      else
      let frame := MkCommitFrame revision ((fun m => effectFor m single) <$> BatchMutations batch) in
      let! e := appendWithProgress frame in
      match e with
      | Some err => fun s => degrade_fail (fun st =>
          persistenceFailure "wal_append" (st_current st) (st_durableThrough st) s.2 err) s
      | None =>
          let! st := get in
          let durableThrough := log_DurableThrough (st_log st) in
          if (durableThrough <? st_durableThrough st) || (revision <? durableThrough)
          then degrade_fail (fun st' =>
            storageDegraded "wal_durability_evidence" (st_current st) (st_durableThrough st) true None)
          else
          let! durableThrough := commitBarrier (BatchAck batch) revision durableThrough in
          do! applyCheckpoint Before;
          let! st := get in
          let (events, records) := apply_loop revision 0 (BatchMutations batch) single (st_records st) in
          do! modify (install plan revision durableThrough events records);
          do! applyCheckpoint After;
          do! afterCommit events;
          exec_ret (MkCommitResult
            (MkMutationResult revision (BatchAck batch) durableThrough (len (BatchMutations batch))
               (len (BatchAssertions batch))) events)
      end
  end.

(** [recover()]: a panic degrades the state and becomes an error. *)
Definition executeSafely (batch : Batch) (single : singleOperation) st
    : option (result goerror CommitResult) * state :=
  let (r, s) := execute batch single (st, false) in
  match r with
  | Done r => (Some r, s.1)
  | Panic v => (Some (Err (internalFailure "engine-writer-panic" s.2 (Some (ErrText ("writer panic: " +:+ v))))),
                degrade s.1)
  | Hung => (None, s.1)
  end.

(** ** Due expiries (expiry.go) *)

(** The loop of [executeDueExpiries]: every round pops a candidate, so the
    number of candidates bounds the rounds. *)
Fixpoint due_loop (fuel : nat) (limits : Limits) (records : gmap bytes DBRecord) (t : Time)
    (x : expiries) (due : list expiryCandidate) (seen : gset bytes) (encodedBytes : Z)
    : expiries * list expiryCandidate :=
  match fuel, ex_items x with
  | S fuel, root :: _ =>
      if (len due <? MaxBatchOperations limits) && negb (time_After (cand_at (candidate x root)) t) then
        let (p, x) := Pop x in
        let c := candidate x p in
        let x := if bool_decide (ex_byKey x !! cand_key c = Some p)
                 then setByKey (delete (cand_key c) (ex_byKey x)) x else x in
        let current :=
          match (records !! cand_key c : option DBRecord) with
          | Some record =>
              (RecRevision record =? cand_revision c)
              && bool_decide (RecExpiresAt record = Some (cand_at c)) && recordExpired record t
          | None => false
          end in
        if negb current then due_loop fuel limits records t x due seen encodedBytes
        else if bool_decide (cand_key c ∈ seen) then due_loop fuel limits records t x due seen encodedBytes
        else
          let itemBytes := 20 + len (cand_key c) in
          if Z.min (MaxBatchBytes limits) (MaxFrameBytes limits) <? encodedBytes + itemBytes
          then (Push (setByKey (<[cand_key c := p]> (ex_byKey x)) x) p, due)
          else due_loop fuel limits records t x (due ++ [c]) ({[cand_key c]} ∪ seen)
                 (encodedBytes + itemBytes)
      else (x, due)
  | _, _ => (x, due)
  end.

Definition cand_key_le (a b : expiryCandidate) : Prop := bytes_le (cand_key a) (cand_key b).

Global Instance cand_key_le_dec : RelDecision cand_key_le := fun a b => decide (bytes_le _ _).

Definition expiryBatch (due : list expiryCandidate) : Batch :=
  MkBatch AckDurable [] ((fun c => NewDeleteMutation (cand_key c) (cand_revision c)) <$> merge_sort cand_key_le due).

(** [CommitResult{}]. *)
Definition zeroCommitResult : CommitResult := MkCommitResult (MkMutationResult 0 (AckUnknown "") 0 0 0) [].

Definition executeDueExpiries : exec (C := C) (A := A) (L := L) (F := F) CommitResult :=
  let! t := now in
  let! st := get in
  let (x, due) := due_loop (length (ex_items (st_expiries st))) (st_limits st) (st_records st) t
                    (st_expiries st) [] ∅ 32 in
  do! modify (set_expiries x);
  if len due =? 0 then exec_ret zeroCommitResult
  else execute (expiryBatch due) operationExpiry.

Definition executeDueExpiriesSafely st : option (result goerror CommitResult) * state :=
  let (r, s) := executeDueExpiries (st, false) in
  match r with
  | Done r => (Some r, s.1)
  | Panic v => (Some (Err (internalFailure "engine-expiry-panic" s.2 None)), degrade s.1)
  | Hung => (None, s.1)
  end.
End execute.
