(* ===== verification/Commands.v ===== *)
(** * Commands: the writer's queue (internal/engine/writer.go, snapshot.go,
    admin.go, state.go, watch.go)

    The commands besides mutations, the admission of callers, and the writer
    goroutine.  [owner] is the state with the writer's channel: the queued
    commands with their reply channels (a ticket each), the replies sent, and
    whether the queue is closed.  A caller's operation is its admission; the
    reply it then waits for is the one under its ticket. *)

From stdpp Require Import base gmap list strings sorting pretty.
From Stdlib Require Import ZArith Lia.
From S2P Require Import Prelude.
From S2P Require Import Bytes.
From S2P Require Import Errors.
From S2P Require Import ApiTypes.
From S2P Require Import Clock.
From S2P Require Import Allocator.
From S2P Require Import StorageErrors.
From S2P Require Import WalCodec.
From S2P Require Import OrderedKeys.
From S2P Require Import History.
From S2P Require Import Expiry.
From S2P Require Import Watch.
From S2P Require Import Engine.
From S2P Require Import Writer.

Local Open Scope Z_scope.
Local Open Scope go_scope.

(** ** Snapshots and administration *)

Record SnapshotCut := MkSnapshotCut {
  CutDatabaseID : DatabaseID; CutRevision : Revision; CutAsOf : Time; CutRecords : list DBRecord
}.

(** [Duration] is a measurement and is left out. *)
Record SnapshotResult := MkSnapshotResult { SnapRevision : Revision; SnapRecordCount : Z }.

Record DurableAdminCut := MkAdminCut { AdminDatabaseID : DatabaseID; AdminRevision : Revision }.

(** [gapdb.Status]. *)
Record Status := MkStatus {
  StLifecycle : LifecycleState;
  StDatabaseID : bytes;
  StCurrentRevision : Revision;
  StDurableThroughRevision : Revision;
  StReservedRevisionEnd : Revision;
  StSnapshotRevision : Revision;
  StActiveWALStart : Revision;
  StEarliestWatchRevision : Revision;
  StLimits : Limits
}.

Section commands.
Context {C A L F : Type} `{Clock C, RevisionAllocator A, CommitLog L, Faults F}.
Abbreviation state := (DatabaseState C A L F).
Implicit Types st : state.

(** An installer runs beside the current log: it returns the log to continue
    with ([None] is [nil]) and leaves the current one. *)
Definition SnapshotInstaller : Type := SnapshotCut -> L -> outcome (result goerror (option L)) * L.

Definition DurableAdminOperation : Type := DurableAdminCut -> L -> outcome error * L.

Definition noSnapshot : SnapshotResult := MkSnapshotResult 0 0.

Definition snapshotPanic (installStarted : bool) (v : string) : goerror :=
  internalFailure "engine-snapshot-panic" installStarted (Some (ErrText ("snapshot panic: " +:+ v))).

(** [executeSnapshot] from the call of the installer on. *)
Definition installSnapshot (installer : SnapshotInstaller) (cut : SnapshotCut) st
    : SnapshotResult * error * state :=
  let current := CutRevision cut in
  let (o, l) := installer cut (st_log st) in
  let st := set_log l st in
  match o with
  | Panicked v => (MkSnapshotResult (st_current st) 0, Some (snapshotPanic true v), degrade st)
  | Returned (Err e) =>
      if match asGapdbError e with Some e => OperationApplied e | None => false end
      then (MkSnapshotResult current (len (CutRecords cut)), Some e, degrade st)
      else (noSnapshot, Some e, st)
  | Returned (Ok None) =>
      (noSnapshot, Some (internalFailure "engine-snapshot-nil-log" true
         (Some (ErrText "snapshot installer returned nil WAL"))), degrade st)
  | Returned (Ok (Some next)) =>
      if negb (log_DurableThrough next =? current)
      then (noSnapshot, Some (storageDegraded "snapshot_new_wal_evidence" current current true None), degrade st)
      else (MkSnapshotResult current (len (CutRecords cut)), None,
            set_snapshot current (wrap_u64 (current + 1)) (set_log next st))
  end.

Definition executeSnapshot (installer : SnapshotInstaller) st : SnapshotResult * error * state :=
  let (o, l) := log_Barrier (st_log st) in
  let st := set_log l st in
  match o with
  | Panicked v => (noSnapshot, Some (snapshotPanic false v), degrade st)
  | Returned (Some err) =>
      (noSnapshot, Some (persistenceFailure "snapshot_wal_barrier" (st_current st) (st_durableThrough st) false err),
       degrade st)
  | Returned None =>
      let current := st_current st in
      let durable := log_DurableThrough (st_log st) in
      let st := set_durableThrough durable st in
      if negb (durable =? current)
      then (noSnapshot, Some (storageDegraded "snapshot_wal_barrier_evidence" current durable false None), degrade st)
      else
        let (asOf, c) := Nondecreasing_Now (st_clock st) in
        let st := set_clock c st in
        installSnapshot installer
          (MkSnapshotCut (st_databaseID st) current asOf ((map_to_list (st_records st)).*2)) st
  end.

Definition executeDurableAdmin (operation : DurableAdminOperation) st : error * state :=
  let panicked (started : bool) (v : string) :=
    internalFailure "engine-durable-admin-panic" started (Some (ErrText ("durable admin panic: " +:+ v))) in
  let (o, l) := log_Barrier (st_log st) in
  let st := set_log l st in
  match o with
  | Panicked v => (Some (panicked false v), degrade st)
  | Returned (Some err) =>
      (Some (persistenceFailure "admin_wal_barrier" (st_current st) (st_durableThrough st) false err), degrade st)
  | Returned None =>
      let current := st_current st in
      let durable := log_DurableThrough (st_log st) in
      let st := set_durableThrough durable st in
      if negb (durable =? current)
      then (Some (storageDegraded "admin_wal_barrier_evidence" current durable false None), degrade st)
      else
        let (o, l) := operation (MkAdminCut (st_databaseID st) current) (st_log st) in
        let st := set_log l st in
        match o with
        | Panicked v => (Some (panicked true v), degrade st)
        | Returned err => (err, st)
        end
  end.

(** ** Commands and replies *)

Inductive command :=
| commandMutation (batch : Batch) (single : singleOperation)
| commandExpiry
| commandWatchRegister (watch : watchRequest)
| commandWatchUnregister (watchID : Z)
| commandSnapshot (snapshot : SnapshotInstaller)
| commandDurableAdmin (admin : DurableAdminOperation).

Inductive reply :=
| replyCommit (r : result goerror CommitResult)
| replyWatch (r : result goerror (Z * Revision))
| replyDone
| replySnapshot (r : SnapshotResult) (err : error)
| replyAdmin (err : error).

(** [handleCommand]; [None] if the writer blocks in a channel send. *)
Definition handleCommand (c : command) (queueDepth : Z) st : option (reply * state) :=
  match c with
  | commandMutation batch single =>
      let (r, st) := executeSafely batch single st in (fun r => (replyCommit r, st)) <$> r
  | commandExpiry => let (r, st) := executeDueExpiriesSafely st in (fun r => (replyCommit r, st)) <$> r
  | commandWatchRegister watch =>
      let (r, rg) := registerWatch (st_limits st) (st_current st) (st_history st) queueDepth watch
                       (st_registry st) in
      Some (replyWatch r, set_registry rg st)
  | commandWatchUnregister id =>
      (fun rg => (replyDone, set_registry rg st)) <$>
        unregisterWatch id WatchEndedByClient (st_current st) (st_registry st)
  | commandSnapshot installer =>
      let '(r, err, st) := executeSnapshot installer st in Some (replySnapshot r err, st)
  | commandDurableAdmin operation =>
      let (err, st) := executeDurableAdmin operation st in Some (replyAdmin err, st)
  end.
End commands.
Arguments SnapshotInstaller : clear implicits.
Arguments DurableAdminOperation : clear implicits.
Arguments command : clear implicits.

(** ** The owner *)

Section owner.
Context {C A L F : Type} `{Clock C, RevisionAllocator A, CommitLog L, Faults F}.
Abbreviation state := (DatabaseState C A L F).
Implicit Types st : state.

Record owner := MkOwner {
  ow_state : state;
  ow_queue : list (Z * command L);
  ow_next : Z;
  ow_replies : gmap Z reply;
  ow_closed : bool;
  ow_done : bool;
  ow_closeErr : error
}.
Implicit Types o : owner.

Definition with_state st o : owner :=
  MkOwner st (ow_queue o) (ow_next o) (ow_replies o) (ow_closed o) (ow_done o) (ow_closeErr o).

(** [New] starts the writer on an empty queue. *)
Definition startOwner st : owner := MkOwner st [] 0 ∅ false false None.

(** A caller's context: whether it is already done at the first select, and
    whether the second select takes its case; a done context has an error. *)
Record context := MkContext { ctx_entry : error; ctx_select : error }.

Definition background : context := MkContext None None.

Definition queueDepth o : Z := len (ow_queue o).

Definition pushCommand (c : command L) o : owner :=
  MkOwner (ow_state o) (ow_queue o ++ [(ow_next o, c)]) (ow_next o + 1) (ow_replies o) (ow_closed o)
    (ow_done o) (ow_closeErr o).

(** The select that admits a command: into the queue, cancelled, or busy.  A
    send on a closed channel panics. *)
Definition admitCommand (ctx : context) (c : command L) o : outcome (result goerror Z) * owner :=
  match ctx_select ctx with
  | Some e => (Returned (Err e), o)
  | None =>
      if ow_closed o then (Panicked "send on closed channel", o)
      else if queueDepth o <? st_queueCapacity (ow_state o)
      then (Returned (Ok (ow_next o)), pushCommand c o)
      else (Returned (Err (serverBusy (queueDepth o) (st_queueCapacity (ow_state o)))), o)
  end.

(** Admission of a command that a ready database alone accepts. *)
Definition admitReady (ctx : context) (c : command L) o : outcome (result goerror Z) * owner :=
  let lifecycle := st_lifecycle (ow_state o) in
  if negb (bool_decide (lifecycle = LifecycleReady))
  then (Returned (Err (mutationUnavailable lifecycle (ow_state o))), o)
  else admitCommand ctx c o.

Definition submit (ctx : context) (batch : Batch) (single : singleOperation) o
    : outcome (result goerror Z) * owner :=
  match ctx_entry ctx with
  | Some e => (Returned (Err e), o)
  | None => admitReady ctx (commandMutation batch single) o
  end.

Definition prepareAndSubmit (ctx : context) (batch : Batch) (single : singleOperation) o
    : outcome (result goerror Z) * owner :=
  let (t, c) := Nondecreasing_Now (st_clock (ow_state o)) in
  let o := with_state (set_clock c (ow_state o)) o in
  match validateBatchAt batch (st_limits (ow_state o)) t with
  | Some e => (Returned (Err e), o)
  | None => submit ctx batch single o
  end.

Definition submitMutation (ctx : context) (m : Mutation) (ack : AckMode) (single : singleOperation)
    : owner -> outcome (result goerror Z) * owner :=
  prepareAndSubmit ctx (MkBatch ack [] [m]) single.

Definition Put (ctx : context) (key : bytes) (value : option bytes) (expiresAt : option Time) (ack : AckMode) :=
  submitMutation ctx (NewPutMutation key value (MkCondition ConditionAny 0) expiresAt) ack operationPut.

Definition PutIfAbsent (ctx : context) (key : bytes) (value : option bytes) (expiresAt : option Time)
    (ack : AckMode) :=
  submitMutation ctx (NewPutMutation key value (MkCondition ConditionAbsent 0) expiresAt) ack
    operationPutIfAbsent.

Definition CompareAndSwap (ctx : context) (key : bytes) (expected : Revision) (value : option bytes)
    (expiresAt : option Time) (ack : AckMode) :=
  submitMutation ctx (NewPutMutation key value (MkCondition ConditionRevision expected) expiresAt) ack
    operationCompareAndSwap.

Definition DeleteIfRevision (ctx : context) (key : bytes) (expected : Revision) (ack : AckMode) :=
  submitMutation ctx (NewDeleteMutation key expected) ack operationDeleteIfRevision.

Definition AtomicBatch (ctx : context) (batch : Batch) := prepareAndSubmit ctx batch operationBatch.

Definition ProcessDueExpiries (ctx : context) o : outcome (result goerror Z) * owner :=
  match ctx_entry ctx with
  | Some e => (Returned (Err e), o)
  | None => admitReady ctx commandExpiry o
  end.

(** Watching is also possible in a degraded database. *)
Definition Watch (ctx : context) (prefix : bytes) (after : Revision) o
    : outcome (result goerror Z) * owner :=
  match validatePrefix prefix (st_limits (ow_state o)), ctx_entry ctx with
  | Some e, _ => (Returned (Err e), o)
  | None, Some e => (Returned (Err e), o)
  | None, None =>
      let lifecycle := st_lifecycle (ow_state o) in
      if ow_closed o || bool_decide (lifecycle = LifecycleDraining)
         || bool_decide (lifecycle = LifecycleInspectionOnly)
      then (Returned (Err (mutationUnavailable lifecycle (ow_state o))), o)
      else admitCommand ctx (commandWatchRegister (MkWatchRequest prefix after)) o
  end.

(** The blocking send of [requestWatchUnregister]: [None] while the queue is
    full. *)
Definition requestWatchUnregister (id : Z) o : option owner :=
  let lifecycle := st_lifecycle (ow_state o) in
  if ow_closed o || bool_decide (lifecycle = LifecycleDraining)
     || bool_decide (lifecycle = LifecycleInspectionOnly)
  then Some o
  else if queueDepth o <? st_queueCapacity (ow_state o)
  then Some (pushCommand (commandWatchUnregister id) o)
  else None.

Definition Snapshot (ctx : context) (installer : option (SnapshotInstaller L)) o
    : outcome (result goerror Z) * owner :=
  match installer with
  | None => (Returned (Err (invalidField "snapshot_installer" "must be configured")), o)
  | Some installer => admitReady ctx (commandSnapshot installer) o
  end.

Definition DurableAdmin (ctx : context) (operation : option (DurableAdminOperation L)) o
    : outcome (result goerror Z) * owner :=
  match operation with
  | None => (Returned (Err (invalidField "admin_operation" "must be configured")), o)
  | Some operation => admitReady ctx (commandDurableAdmin operation) o
  end.

(** [closeOnce.Do] of [Close]; the caller then waits for [done]. *)
Definition CloseOwner o : owner :=
  if ow_closed o then o
  else
    let st := ow_state o in
    let st := if bool_decide (st_lifecycle st = LifecycleReady) then set_lifecycle LifecycleDraining st else st in
    MkOwner st (ow_queue o) (ow_next o) (ow_replies o) true (ow_done o) (ow_closeErr o).

(** ** The writer goroutine: the cases of [runWriter]'s select *)

Definition runCommand o : option owner :=
  match ow_queue o with
  | [] => None
  | (ticket, c) :: rest =>
      match handleCommand c (len rest) (ow_state o) with
      | None => None
      | Some (r, st) =>
          Some (MkOwner (resetExpiryTimer st) rest (ow_next o) (<[ticket := r]> (ow_replies o))
                  (ow_closed o) (ow_done o) (ow_closeErr o))
      end
  end.

Definition runTimer o : option owner :=
  match st_expiryTimer (ow_state o) with
  | ArmedTimer _ =>
      if bool_decide (st_lifecycle (ow_state o) = LifecycleReady) then
        let (r, st) := executeDueExpiriesSafely (ow_state o) in
        (fun _ => with_state (resetExpiryTimer st) o) <$> r
      else Some (with_state (set_timer (timer_Stop (st_expiryTimer (ow_state o))) (ow_state o)) o)
  | _ => None
  end.

(** The queue is closed and empty; a panic of the last barrier ends the process. *)
Definition runClosed o : option owner :=
  if negb (ow_closed o) || ow_done o || negb (bool_decide (length (ow_queue o) = O)) then None
  else
    let st := set_timer (timer_Stop (st_expiryTimer (ow_state o))) (ow_state o) in
    match shutdownWatchers (st_current st) (st_registry st) with
    | None => None
    | Some rg =>
        let st := set_registry rg st in
        let (b, l) := log_Barrier (st_log st) in
        let st := set_log l st in
        match b with
        | Panicked _ => None
        | Returned err =>
            Some (MkOwner (match err with Some _ => degrade st | None => st end) (ow_queue o) (ow_next o)
                    (ow_replies o) true true err)
        end
    end.

(** ** Reads of the administration *)

Definition AdminStatus o : Status :=
  let st := ow_state o in
  MkStatus (st_lifecycle st) (DatabaseID_String (st_databaseID st)) (st_current st) (st_durableThrough st)
    (st_reservedRevisionEnd st) (st_snapshotRevision st) (st_activeWALStart st)
    (earliestAvailable (st_history st)) (st_limits st).

Definition MarkAdminDegraded o : owner := with_state (degrade (ow_state o)) o.

Definition AdminCounts o : Z * Z * Z * Z :=
  (Z.of_nat (size (st_records (ow_state o))), rg_active (st_registry (ow_state o)), queueDepth o,
   st_queueCapacity (ow_state o)).
End owner.
Arguments owner : clear implicits.
