(* ===== verification/Replay.v ===== *)
(** * Replay: records from a snapshot and the log (internal/server/owner.go)

    [replayRecords] is how a restart rebuilds the records; [replay] is its map
    before it is listed.  The writer's own map follows the same commits:
    [apply_replay] says that installing a batch is replaying its frame. *)

From stdpp Require Import base gmap list.
From Stdlib Require Import ZArith Lia.
From S2P Require Import Prelude.
From S2P Require Import Bytes.
From S2P Require Import Errors.
From S2P Require Import ApiTypes.
From S2P Require Import WalCodec.
From S2P Require Import WalScan.
From S2P Require Import Engine.
From S2P Require Import Writer.

Local Open Scope Z_scope.

Definition replayEffect (revision : Revision) (records : gmap bytes DBRecord) (effect : Effect)
    : gmap bytes DBRecord :=
  match EffKind effect with
  | ChangePut =>
      <[EffKey effect := NewRecord (EffKey effect) (Some (EffValue effect)) revision (EffExpiresAt effect)]>
        records
  | ChangeDelete | ChangeExpire => delete (EffKey effect) records
  | ChangeUnknown _ => records
  end.

Definition replayCommit (records : gmap bytes DBRecord) (commit : CommitFrame) : gmap bytes DBRecord :=
  foldl (replayEffect (FrRevision commit)) records (FrEffects commit).

Definition replay (records : gmap bytes DBRecord) (commits : list CommitFrame) : gmap bytes DBRecord :=
  foldl replayCommit records commits.

Definition snapshotMap (snapshot : list DBRecord) : gmap bytes DBRecord :=
  foldl (fun m r => <[RecKey r := r]> m) ∅ snapshot.

(** Go lists the map in any order. *)
Definition replayRecords (snapshot : list DBRecord) (commits : list CommitFrame) : list DBRecord :=
  (map_to_list (replay (snapshotMap snapshot) commits)).*2.

Definition frameOf (revision : Revision) (batch : Batch) (single : singleOperation) : CommitFrame :=
  MkCommitFrame revision ((fun m => effectFor m single) <$> BatchMutations batch).

(** The effect that an event tells of, and the commit that a result reports:
    its revision with exactly the changes of its events. *)
Definition eventEffect (e : ChangeEvent) : Effect :=
  MkEffect (EvtKind e) (EvtKey e) (from_option RecValue [] (EvtRecord e)) (EvtRecord e ≫= RecExpiresAt).
Definition reports (res : CommitResult) (c : CommitFrame) : Prop :=
  FrRevision c = ResRevision (CrResult res) /\ FrEffects c = eventEffect <$> CrEvents res.

(** ** Lemmas *)

Lemma apply_effects revision order muts single records :
  eventEffect <$> (apply_loop revision order muts single records).1 = (fun m => effectFor m single) <$> muts.
Proof.
  revert order records. induction muts as [|m muts IH]; intros order records; [done|]. cbn [apply_loop].
  destruct (apply revision order m single records) as [event records'] eqn:Ha. specialize (IH (order + 1) records').
  destruct (apply_loop revision (order + 1) muts single records') as [events records'']. cbn [fst] in *.
  rewrite !fmap_cons, IH. f_equal. unfold apply in Ha. unfold eventEffect, effectFor. by destruct (MutKind m); injection Ha as <- <-.
Qed.

Lemma replay_app records l k : replay records (l ++ k) = replay (replay records l) k.
Proof. apply foldl_app. Qed.

Lemma replay_snoc records l c : replay records (l ++ [c]) = replayCommit (replay records l) c.
Proof. by rewrite replay_app. Qed.

Lemma apply_replay revision order muts single records :
  (apply_loop revision order muts single records).2 =
  replayCommit records (MkCommitFrame revision ((fun m => effectFor m single) <$> muts)).
Proof.
  revert order records. induction muts as [|m muts IH]; intros order records; [done|].
  cbn [apply_loop]. destruct (apply revision order m single records) as [event records'] eqn:Ha.
  specialize (IH (order + 1) records').
  destruct (apply_loop revision (order + 1) muts single records') as [events records'']. simpl in *.
  rewrite IH. unfold replayCommit. simpl. f_equal. unfold apply in Ha. unfold replayEffect, effectFor.
  destruct (MutKind m); simplify_eq; simpl; [done|by case_bool_decide|done].
Qed.

(** The keys after a commit. *)
Definition effect_keys (c : CommitFrame) : list bytes := EffKey <$> FrEffects c.

Lemma replayEffect_other revision records e k :
  k <> EffKey e -> replayEffect revision records e !! k = records !! k.
Proof.
  intros Hk. unfold replayEffect. destruct (EffKind e);
    rewrite ?lookup_insert_ne, ?lookup_delete_ne by done; done.
Qed.

Lemma replayCommit_other records c k :
  k ∉ effect_keys c -> replayCommit records c !! k = records !! k.
Proof.
  unfold replayCommit, effect_keys. generalize (FrEffects c) as l. intros l. revert records.
  induction l as [|e l IH]; intros records Hk; [done|].
  rewrite fmap_cons, not_elem_of_cons in Hk. destruct Hk as [Hk Hl]. simpl.
  rewrite IH by done. by apply replayEffect_other.
Qed.

(** What a commit leaves at a key it changes. *)
Definition effect_record (revision : Revision) (e : Effect) : option DBRecord :=
  match EffKind e with
  | ChangePut => Some (NewRecord (EffKey e) (Some (EffValue e)) revision (EffExpiresAt e))
  | _ => None
  end.

Lemma replayCommit_at records c e :
  NoDup (effect_keys c) -> e ∈ FrEffects c -> (forall t, EffKind e <> ChangeUnknown t) ->
  replayCommit records c !! EffKey e = effect_record (FrRevision c) e.
Proof.
  unfold replayCommit, effect_keys. generalize (FrEffects c) as l. intros l. revert records.
  induction l as [|e' l IH]; intros records Hnd Hin Hk; [by apply elem_of_nil in Hin|].
  rewrite fmap_cons, NoDup_cons in Hnd. destruct Hnd as [He' Hnd]. simpl.
  apply elem_of_cons in Hin as [<-|Hin]; [|by apply IH].
  pose proof (replayCommit_other (replayEffect (FrRevision c) records e)
    (MkCommitFrame (FrRevision c) l) (EffKey e) He') as Hsame. unfold replayCommit in Hsame.
  simpl in Hsame. rewrite Hsame. clear Hsame IH.
  unfold replayEffect, effect_record. destruct (EffKind e) as [| | |t]; [|..|by destruct (Hk t)];
    rewrite ?lookup_insert_eq, ?lookup_delete_eq; done.
Qed.
