(* ===== verification/WriterFacts.v ===== *)
(** * WriterFacts: how an execution can end

    [execute_ends] lists every way [execute] can end and the state it leaves:
    rejected, stopped by the allocator, by the append, after the append, or
    committed.  [execute_cases] shows that there are no others; the theorems on
    the writer are case analyses on it. *)

From stdpp Require Import base gmap list strings sorting pretty.
From Stdlib Require Import ZArith Lia.
From S2P Require Import Prelude.
From S2P Require Import Bytes.
From S2P Require Import Errors.
From S2P Require Import ApiTypes.
From S2P Require Import Clock.
From S2P Require Import Allocator.
From S2P Require Import StorageErrors.
From S2P Require Import WalCodec.
From S2P Require Import OrderedKeys.
From S2P Require Import History.
From S2P Require Import Expiry.
From S2P Require Import Watch.
From S2P Require Import Engine.
From S2P Require Import Writer.
From S2P Require Import Replay.

Local Open Scope Z_scope.

(** ** Which errors claim an application *)

Lemma claims_persistence stage current durable applied e :
  (claims_applied e = true -> applied = true) ->
  claims_applied (persistenceFailure stage current durable applied e) = applied.
Proof.
  unfold claims_applied at 1, persistenceFailure, asGapdbError. destruct (asError e) as [err|]; [|done].
  intros Himp. case_bool_decide; [|done]. cbn. destruct (OperationApplied err); [by rewrite Himp|done].
Qed.

Lemma append_claims e : claims_applied e = true -> appendErrorMayHaveApplied e = true.
Proof.
  unfold claims_applied, appendErrorMayHaveApplied, asGapdbError.
  destruct (asError e) as [err|]; [|done]. by intros ->.
Qed.

Ltac denies := repeat case_match; intros; simplify_eq; try done.

Lemma key_denies key limits e : validateKey key limits = Some e -> claims_applied e = false.
Proof. unfold validateKey. denies. Qed.

Lemma assertion_denies limits a e : Assertion_Validate limits a = Some e -> claims_applied e = false.
Proof. unfold Assertion_Validate. denies. by eapply key_denies. Qed.

Lemma condition_denies c e : Condition_Validate c = Some e -> claims_applied e = false.
Proof. unfold Condition_Validate. denies. Qed.

Lemma mutation_denies limits m e : Mutation_Validate limits m = Some e -> claims_applied e = false.
Proof.
  unfold Mutation_Validate. denies; eauto using key_denies, condition_denies.
Qed.

Lemma charge_denies limits n k e : chargeBytes limits n k = Err e -> claims_applied e = false.
Proof. unfold chargeBytes. denies. Qed.

Lemma assertions_deny limits l i seen n e :
  validateAssertions limits l i seen n = Err e -> claims_applied e = false.
Proof.
  revert i seen n. induction l as [|a l IH]; intros i seen n; simpl; [done|].
  repeat case_match; intros; simplify_eq; eauto using assertion_denies, charge_denies.
Qed.

Lemma mutations_deny limits l i seen n e :
  validateMutations limits l i seen n = Some e -> claims_applied e = false.
Proof.
  revert i seen n. induction l as [|a l IH]; intros i seen n; simpl; [done|].
  repeat case_match; intros; simplify_eq; eauto using mutation_denies, charge_denies.
Qed.

Lemma batch_denies limits b e : Batch_Validate limits b = Some e -> claims_applied e = false.
Proof.
  unfold Batch_Validate. repeat case_match; intros; simplify_eq;
    eauto using assertions_deny, mutations_deny.
Qed.

Lemma validateBatchAt_denies batch limits t e :
  validateBatchAt batch limits t = Some e -> claims_applied e = false.
Proof.
  assert (forall l, validateMutationsAt limits t l = Some e -> claims_applied e = false) as Hm.
  { induction l as [|m l IH]; simpl; [done|]. unfold Mutation_ValidateAt.
    repeat case_match; intros; simplify_eq; eauto using mutation_denies. }
  assert (forall maximum l n, batchTotal maximum l n = Err e -> claims_applied e = false) as Ht.
  { intros maximum l. induction l as [|m l IH]; intros n; cbn [batchTotal]; [done|].
    repeat case_match; intros; simplify_eq; eauto. }
  unfold validateBatchAt, Batch_ValidateAt. repeat case_match; intros; simplify_eq; eauto using batch_denies.
Qed.

Section facts.
Context {C A L F : Type} `{Clock C, RevisionAllocator A, CommitLog L, Faults F}.
Abbreviation state := (DatabaseState C A L F).
Abbreviation run := (exec (C := C) (A := A) (L := L) (F := F)).
Implicit Types st : state.

(** ** Weakest preconditions *)

Definition wp {X} (m : run X) (s : state * bool) (Q : exit X -> state * bool -> Prop) : Prop :=
  Q (m s).1 (m s).2.

Lemma wp_bind {X Y} (m : run X) (k : X -> run Y) s (Q : exit Y -> state * bool -> Prop) :
  wp m s (fun r s' => match r with
                      | Done (Ok x) => wp (k x) s' Q
                      | Done (Err e) => Q (Done (Err e)) s'
                      | Panic v => Q (Panic v) s'
                      | Hung => Q Hung s'
                      end) ->
  wp (exec_bind m k) s Q.
Proof. unfold wp, exec_bind. destruct (m s) as [[[x|e]|v|] s']; simpl; auto. Qed.

Lemma wp_get s (Q : exit state -> state * bool -> Prop) : Q (Done (Ok s.1)) s -> wp get s Q.
Proof. done. Qed.

Lemma wp_now s (Q : exit Time -> state * bool -> Prop) :
  Q (Done (Ok (Nondecreasing_Now (st_clock s.1)).1))
    (set_clock (Nondecreasing_Now (st_clock s.1)).2 s.1, s.2) -> wp now s Q.
Proof. unfold wp, now. by destruct (Nondecreasing_Now _). Qed.

Lemma wp_check (e : error) s (Q : exit unit -> state * bool -> Prop) :
  (forall err, e = Some err -> Q (Done (Err err)) s) -> (e = None -> Q (Done (Ok tt)) s) ->
  wp (exec_check e) s Q.
Proof. destruct e; unfold wp; simpl; auto. Qed.

Lemma wp_checkpoint point phase s (Q : exit error -> state * bool -> Prop) :
  (forall e f, Q (Done (Ok e)) (set_faults f s.1, s.2)) -> wp (checkpoint point phase) s Q.
Proof. unfold wp, checkpoint. destruct (fault_Checkpoint _ _ _). simpl. auto. Qed.

Lemma wp_guard id point phase st p (Q : exit unit -> state * bool -> Prop) :
  (forall e f, claims_applied e = false -> Q (Done (Err e)) (set_faults f st, p)) ->
  (forall f, Q (Done (Ok tt)) (set_faults f st, p)) -> wp (guard id point phase) (st, p) Q.
Proof.
  intros He Hok. unfold guard. apply wp_bind, wp_checkpoint. intros [e|] f; apply wp_check; simpl;
    intros; simplify_eq; auto.
Qed.

(** The fault hook is the last thing a predicate changes. *)
Lemma set_faults_twice f g st : set_faults f (set_faults g st) = set_faults f st.
Proof. done. Qed.

Lemma set_faults_same st : set_faults (st_faults st) st = st.
Proof. by destruct st. Qed.

Lemma wp_optional_guard (b : bool) id point phase st p (Q : exit unit -> state * bool -> Prop) :
  (forall e f, claims_applied e = false -> Q (Done (Err e)) (set_faults f st, p)) ->
  (forall f, Q (Done (Ok tt)) (set_faults f st, p)) ->
  wp (if b then guard id point phase else exec_ret tt) (st, p) Q.
Proof.
  intros He Hok. destruct b; [by apply wp_guard|]. unfold wp. simpl.
  rewrite <- (set_faults_same st). apply Hok.
Qed.

(** ** The predicate phase *)

Lemma assertionsError_denies records t l i e :
  assertionsError records t l i = Some e -> claims_applied e = false.
Proof.
  revert i. induction l as [|a l IH]; intros i; simpl; [done|].
  destruct (lookup_live records (AssKey a) t) as [record live].
  destruct (assertionConditionError a record live i) as [err|] eqn:He; [|apply IH].
  intros [= <-]. unfold assertionConditionError in He. by repeat case_match; simplify_eq.
Qed.

Lemma conditionsError_denies records t current single l i e :
  conditionsError records t current single l i = Some e -> claims_applied e = false.
Proof.
  revert i. induction l as [|m l IH]; intros i; simpl; [done|].
  destruct (lookup_live records (MutKey m) t) as [record live].
  destruct (conditionError m record live current i single) as [err|] eqn:He; [|apply IH].
  intros [= <-]. unfold conditionError in He. by repeat case_match; simplify_eq.
Qed.

Definition predicates_hold (batch : Batch) (single : singleOperation) st (t : Time) : Prop :=
  assertionsError (st_records st) t (BatchAssertions batch) 0 = None /\
  conditionsError (st_records st) t (st_current st) single (BatchMutations batch) 0 = None.

Lemma wp_predicatePhase batch single t st p (Q : exit unit -> state * bool -> Prop) :
  (forall e f, claims_applied e = false -> Q (Done (Err e)) (set_faults f st, p)) ->
  (forall f, predicates_hold batch single st t -> Q (Done (Ok tt)) (set_faults f st, p)) ->
  wp (predicatePhase batch single t) (st, p) Q.
Proof.
  intros He Hok. unfold predicatePhase. apply wp_bind, wp_optional_guard; [auto|]. intros f1.
  apply wp_bind, wp_get. apply wp_bind, wp_check; [intros; eapply He, assertionsError_denies; eauto|].
  intros Ha. apply wp_bind, wp_optional_guard; [intros; by apply He|]. intros f2.
  apply wp_bind, wp_guard; [intros; by apply He|]. intros f3.
  apply wp_bind, wp_check; [intros; eapply He, conditionsError_denies; eauto|]. intros Hc.
  apply wp_guard; [intros; by apply He|]. intros f4. by apply Hok.
Qed.

(** ** All ends of an execution *)

Definition accepted (batch : Batch) (single : singleOperation) st : Prop :=
  (st_lifecycle st = LifecycleReady \/ st_lifecycle st = LifecycleDraining) /\
  let t := (Nondecreasing_Now (st_clock st)).1 in
  validateBatchAt batch (st_limits st) t = None /\ predicates_hold batch single st t.

(** The state with a new clock, hook, allocator and log. *)
Definition reached (c : Nondecreasing C) (f : F) (l : L) st : state :=
  set_log l (set_allocator (alloc_Next (st_allocator st)).2 (set_faults f (set_clock c st))).

(** The allocator handed out a usable revision. *)
Definition granted st (revision : Revision) : Prop :=
  revision <> 0 /\ st_current st < revision /\
  exists a, alloc_Next (st_allocator st) = (Returned (Ok revision), a).

(** The commit [revision] of the batch is in the log [l]. *)
Definition appended (batch : Batch) (single : singleOperation) st (revision : Revision) (l : L) : Prop :=
  accepted batch single st /\ granted st revision /\
  log_Append (frameOf revision batch single) (st_log st) = (Returned None, l).

(** The durability a commit is acknowledged with: that of the log [l], or of
    [l'] behind a barrier for a durable acknowledgement. *)
Definition acknowledged (batch : Batch) st (revision : Revision) (l l' : L) (durable : Revision) : Prop :=
  st_durableThrough st <= log_DurableThrough l <= revision /\
  match BatchAck batch with
  | AckDurable => log_Barrier l = (Returned None, l') /\ log_DurableThrough l' = revision /\ durable = revision
  | _ => l' = l /\ durable = log_DurableThrough l
  end.

(** The state with the commit installed. *)
Definition installed (batch : Batch) (single : singleOperation) (revision durable : Revision) st : state :=
  let (events, records) := apply_loop revision 0 (BatchMutations batch) single (st_records st) in
  install (planOrderedKeys (st_orderedKeys st) (BatchMutations batch)) revision durable events records st.

Definition batch_events (batch : Batch) (single : singleOperation) (revision : Revision) st : list ChangeEvent :=
  (apply_loop revision 0 (BatchMutations batch) single (st_records st)).1.

Definition commit_result (batch : Batch) (revision durable : Revision) (events : list ChangeEvent)
    : CommitResult :=
  MkCommitResult (MkMutationResult revision (BatchAck batch) durable (len (BatchMutations batch))
    (len (BatchAssertions batch))) events.

Inductive execute_ends (batch : Batch) (single : singleOperation) st
    : exit CommitResult -> state -> bool -> Prop :=
| ends_rejected c f e :
    claims_applied e = false ->
    execute_ends batch single st (Done (Err e)) (set_faults f (set_clock c st)) false
| ends_allocator c f e :
    execute_ends batch single st (Done (Err e)) (degrade (reached c f (st_log st) st)) false
| ends_allocator_panic c f v :
    execute_ends batch single st (Panic v) (reached c f (st_log st) st) false
| ends_append_failed c f l revision err e :
    accepted batch single st -> granted st revision ->
    log_Append (frameOf revision batch single) (st_log st) = (Returned (Some err), l) ->
    claims_applied e = appendErrorMayHaveApplied err ->
    execute_ends batch single st (Done (Err e)) (degrade (reached c f l st))
      (appendErrorMayHaveApplied err)
| ends_append_panic c f l revision v :
    accepted batch single st -> granted st revision ->
    log_Append (frameOf revision batch single) (st_log st) = (Panicked v, l) ->
    execute_ends batch single st (Panic v) (reached c f l st) true
| ends_after_append c f l l' revision e :
    appended batch single st revision l -> l' = l \/ (exists o, log_Barrier l = (o, l')) ->
    claims_applied e = true ->
    execute_ends batch single st (Done (Err e)) (degrade (reached c f l' st)) true
| ends_barrier_panic c f l l' revision v :
    appended batch single st revision l -> log_Barrier l = (Panicked v, l') ->
    execute_ends batch single st (Panic v) (reached c f l' st) true
| ends_after_install c f f' l l' revision durable e :
    appended batch single st revision l -> acknowledged batch st revision l l' durable ->
    claims_applied e = true ->
    execute_ends batch single st (Done (Err e))
      (degrade (set_faults f' (installed batch single revision durable (reached c f l' st)))) true
| ends_hung l l' revision durable st' :
    appended batch single st revision l -> acknowledged batch st revision l l' durable ->
    publishWatchers (batch_events batch single revision st) (st_registry st) = None ->
    execute_ends batch single st Hung st' true
| ends_committed c f f' l l' revision durable rg :
    appended batch single st revision l -> acknowledged batch st revision l l' durable ->
    publishWatchers (batch_events batch single revision st) (st_registry st) = Some rg ->
    execute_ends batch single st
      (Done (Ok (commit_result batch revision durable (batch_events batch single revision st))))
      (set_registry rg (set_expiries
         (scheduleEvents (batch_events batch single revision st) (st_expiries st))
         (set_faults f' (installed batch single revision durable (reached c f l' st))))) true.

Lemma wp_degrade_fail {X} (g : state -> goerror) s (Q : exit X -> state * bool -> Prop) :
  Q (Done (Err (g (degrade s.1)))) (degrade s.1, s.2) -> wp (degrade_fail g) s Q.
Proof. done. Qed.

Lemma wp_commitBarrier batch revision st c f l (Q : exit Revision -> state * bool -> Prop) :
  st_durableThrough st <= log_DurableThrough l <= revision ->
  (forall l' e, (exists o, log_Barrier l = (o, l')) -> claims_applied e = true ->
     Q (Done (Err e)) (degrade (reached c f l' st), true)) ->
  (forall l' v, log_Barrier l = (Panicked v, l') -> Q (Panic v) (reached c f l' st, true)) ->
  (forall l' durable, acknowledged batch st revision l l' durable ->
     Q (Done (Ok durable)) (reached c f l' st, true)) ->
  wp (commitBarrier (BatchAck batch) revision (log_DurableThrough l)) (reached c f l st, true) Q.
Proof.
  intros Hd Herr Hpanic Hok. unfold commitBarrier, acknowledged in *. destruct (BatchAck batch).
  - apply Hok. by split.
  - apply wp_bind. unfold wp, barrier. cbn [fst snd st_log reached set_log].
    destruct (log_Barrier l) as [[err|v] l'] eqn:Hb; simpl; [|by apply Hpanic].
    destruct err as [err|].
    + apply Herr; [eauto|]. by apply claims_persistence.
    + apply wp_bind, wp_get. simpl. destruct (Z.eqb_spec (log_DurableThrough l') revision) as [Heq|Hne]; simpl.
      * rewrite Heq. by apply Hok.
      * apply wp_degrade_fail. apply Herr; eauto.
  - apply Hok. by split.
Qed.

Lemma wp_applyCheckpoint phase st (Q : exit unit -> state * bool -> Prop) :
  (forall e f, claims_applied e = true -> Q (Done (Err e)) (degrade (set_faults f st), true)) ->
  (forall f, Q (Done (Ok tt)) (set_faults f st, true)) ->
  wp (applyCheckpoint phase) (st, true) Q.
Proof.
  intros He Hok. unfold applyCheckpoint. apply wp_bind, wp_checkpoint. intros [e|] f; [|apply Hok].
  apply wp_degrade_fail. apply He. by apply claims_persistence.
Qed.

(** The part of [execute] that follows a successful append. *)
Definition execute_tail (batch : Batch) (single : singleOperation) (plan : orderedKeyPlan)
    (revision durableThrough : Revision) : run CommitResult :=
  (let! durableThrough := commitBarrier (BatchAck batch) revision durableThrough in
   do! applyCheckpoint Before;
   let! st := get in
   let (events, records) := apply_loop revision 0 (BatchMutations batch) single (st_records st) in
   do! modify (install plan revision durableThrough events records);
   do! applyCheckpoint After;
   do! afterCommit events;
   exec_ret (commit_result batch revision durableThrough events))%go.

Lemma wp_execute_tail batch single st c f l revision :
  appended batch single st revision l -> st_durableThrough st <= log_DurableThrough l <= revision ->
  wp (execute_tail batch single (planOrderedKeys (st_orderedKeys st) (BatchMutations batch)) revision
        (log_DurableThrough l)) (reached c f l st, true)
    (fun r s' => execute_ends batch single st r s'.1 s'.2).
Proof.
  intros Hap Hd. unfold execute_tail. apply wp_bind, wp_commitBarrier; [done| | |].
  { intros l' e Hb He. simpl. eapply ends_after_append; eauto. }
  { intros l' v Hb. simpl. by eapply ends_barrier_panic. }
  intros l' durable Hack. apply wp_bind, wp_applyCheckpoint.
  { intros e f2 He. simpl. eapply (ends_after_append _ _ _ c f2 l l'); eauto.
    destruct Hack as [_ Hack]. destruct (BatchAck batch); [left; by destruct Hack| |left; by destruct Hack].
    right. destruct Hack as [-> _]. eauto. }
  intros f2. apply wp_bind, wp_get. cbn [fst snd].
  change (set_faults f2 (reached c f l' st)) with (reached c f2 l' st).
  change (st_records (reached c f2 l' st)) with (st_records st).
  assert (batch_events batch single revision st =
    (apply_loop revision 0 (BatchMutations batch) single (st_records st)).1) as Hev by done.
  assert (installed batch single revision durable (reached c f2 l' st) =
    let (events, records) := apply_loop revision 0 (BatchMutations batch) single (st_records st) in
    install (planOrderedKeys (st_orderedKeys st) (BatchMutations batch)) revision durable events records
      (reached c f2 l' st)) as Hins by done.
  destruct (apply_loop revision 0 (BatchMutations batch) single (st_records st)) as [events records].
  simpl in Hev, Hins. apply wp_bind. unfold modify at 1, wp at 1. cbn [fst snd]. rewrite <- Hins.
  apply wp_bind, wp_applyCheckpoint.
  { intros e f3 He. simpl. by eapply ends_after_install. }
  intros f3. apply wp_bind. unfold afterCommit, wp at 1. cbn [fst snd].
  replace (st_expiries (set_faults f3 (installed batch single revision durable (reached c f2 l' st))))
    with (st_expiries st) by (rewrite Hins; done).
  set (st2 := set_expiries _ _). assert (st_registry st2 = st_registry st) as -> by (unfold st2; rewrite Hins; done).
  destruct (publishWatchers events (st_registry st)) as [rg|] eqn:Hpub; rewrite <- Hev in Hpub; cbn [fst snd].
  - unfold wp. simpl. unfold st2. rewrite <- Hev. eapply ends_committed; eauto.
  - eapply ends_hung; eauto.
Qed.

Lemma execute_cases batch single st :
  let (r, s') := execute batch single (st, false) in execute_ends batch single st r s'.1 s'.2.
Proof.
  cut (wp (execute batch single) (st, false) (fun r s' => execute_ends batch single st r s'.1 s'.2)).
  { unfold wp. by destruct (execute batch single (st, false)). }
  unfold execute. apply wp_bind, wp_get. cbn [fst snd]. destruct (negb _) eqn:Hlife.
  { assert (st = set_faults (st_faults st) (set_clock (st_clock st) st)) as Heta by (by destruct st).
    unfold wp. cbn [fst snd exec_fail]. rewrite Heta at 4. apply ends_rejected. unfold mutationUnavailable.
    by destruct (st_lifecycle st). }
  apply negb_false_iff, orb_true_iff in Hlife. rewrite !bool_decide_eq_true in Hlife.
  apply wp_bind, wp_now. cbn [fst snd]. set (c := (Nondecreasing_Now (st_clock st)).2).
  apply wp_bind, wp_check.
  { intros e He. simpl. replace (set_clock c st) with (set_faults (st_faults st) (set_clock c st)) by done.
    apply ends_rejected. by eapply validateBatchAt_denies. }
  intros Hvalid. apply wp_bind, wp_predicatePhase; [intros; by apply ends_rejected|].
  intros f Hpred. apply wp_bind, wp_get. cbn [fst snd].
  assert (accepted batch single st) as Hacc by (split; [tauto|split; [done|exact Hpred]]).
  apply wp_bind. unfold allocator_Next, wp at 1. cbn [fst snd].
  change (st_allocator (set_faults f (set_clock c st))) with (st_allocator st).
  destruct (alloc_Next (st_allocator st)) as [[[revision|e]|v] a] eqn:Halloc; cbn [called fst snd];
    assert (a = (alloc_Next (st_allocator st)).2) as -> by (by rewrite Halloc).
  2:{ exact (ends_allocator batch single st c f e). }
  2:{ exact (ends_allocator_panic batch single st c f v). }
  apply wp_bind, wp_get. cbn [fst snd].
  change (st_current (set_allocator (alloc_Next (st_allocator st)).2 (set_faults f (set_clock c st)))) with (st_current st).
  destruct (_ || _) eqn:Hrev; [exact (ends_allocator batch single st c f _)|].
  apply orb_false_iff in Hrev as [Hz Hgt]. apply Z.eqb_neq in Hz. apply Z.leb_gt in Hgt.
  apply wp_bind. unfold appendWithProgress, wp at 1. cbn [fst snd].
  change (st_log (set_allocator (alloc_Next (st_allocator st)).2 (set_faults f (set_clock c st)))) with (st_log st).
  fold (frameOf revision batch single).
  assert (granted st revision) as Hgr by (split_and!; eauto).
  destruct (log_Append (frameOf revision batch single) (st_log st)) as [[[e|]|v] l] eqn:Happ; cbn [fst snd].
  - change (set_log l (set_allocator (alloc_Next (st_allocator st)).2 (set_faults f (set_clock c st)))) with (reached c f l st).
    unfold wp, degrade_fail. cbn [fst snd orb]. eapply ends_append_failed; try done.
    apply claims_persistence, append_claims.
  - apply wp_bind, wp_get. cbn [fst snd orb].
    change (set_log l (set_allocator (alloc_Next (st_allocator st)).2 (set_faults f (set_clock c st)))) with (reached c f l st).
    assert (appended batch single st revision l) as Hap by done.
    destruct (_ || _) eqn:Hd.
    { apply wp_degrade_fail. cbn [fst snd]. eapply (ends_after_append _ _ _ c f l l); eauto. }
    apply orb_false_iff in Hd as [Hd1 Hd2]. rewrite Z.ltb_ge in Hd1, Hd2.
    exact (wp_execute_tail batch single st c f l revision Hap (conj Hd1 Hd2)).
  - by eapply (ends_append_panic _ _ _ c f l revision v).
Qed.
End facts.
