(* ===== verification/EngineInv.v ===== *)
(** * EngineInv: the invariant of the engine

    The interfaces the writer relies on as classes of laws ([LogSpec] for the
    commit log, [AllocatorSpec] for the allocator), the invariant of the
    database state, and its preservation by [execute]: the records are those of
    the snapshot and the commits in the log, the ordered index lists their
    keys, the expiry index schedules their expiries. *)

From stdpp Require Import base gmap list strings sorting.
From Stdlib Require Import ZArith Lia.
From S2P Require Import Prelude.
From S2P Require Import Bytes.
From S2P Require Import Errors.
From S2P Require Import ApiTypes.
From S2P Require Import Clock.
From S2P Require Import Allocator.
From S2P Require Import StorageErrors.
From S2P Require Import WalCodec.
From S2P Require Import WalScan.
From S2P Require Import OrderedKeys.
From S2P Require Import History.
From S2P Require Import Expiry.
From S2P Require Import Watch.
From S2P Require Import Engine.
From S2P Require Import Writer.
From S2P Require Import Replay.
From S2P Require Import WriterFacts.

Local Open Scope Z_scope.

(** ** Accepted batches *)

Lemma expiryRepresentable_true t : expiryRepresentable t = true <-> - 2 ^ 63 <= t < 2 ^ 63.
Proof. unfold expiryRepresentable, time_Unix0. rewrite Z.eqb_eq. apply expiryRepresentable_iff. Qed.

Definition expiry_ok (m : Mutation) : Prop :=
  match MutExpiresAt m with Some e => - 2 ^ 63 <= e < 2 ^ 63 | None => True end.

Lemma batchTotal_expiries maximum l total n :
  batchTotal maximum l total = Ok n -> Forall expiry_ok l.
Proof.
  revert total. induction l as [|m l IH]; intros total; cbn [batchTotal]; [constructor|].
  destruct (match MutExpiresAt m with Some t => _ | None => _ end) eqn:He; [done|].
  destruct (_ <? _); [done|]. intros Ht%IH. constructor; [|done]. unfold expiry_ok.
  destruct (MutExpiresAt m); [|done]. apply expiryRepresentable_true. by apply negb_false_iff in He.
Qed.

Lemma validateBatchAt_wf batch limits t :
  batch_fits_int batch -> validateBatchAt batch limits t = None ->
  batch_wf limits batch /\ Forall expiry_ok (BatchMutations batch).
Proof.
  intros Hfit. unfold validateBatchAt, Batch_ValidateAt.
  destruct (Batch_Validate limits batch) eqn:Hv; [done|]. apply Batch_Validate_None in Hv; [|done].
  destruct (validateMutationsAt _ _ _); [done|].
  destruct (batchTotal _ _ _) eqn:Ht; [|done]. intros _. split; [done|]. by eapply batchTotal_expiries.
Qed.

Lemma mutations_bytes_elem m l :
  m ∈ l -> batchOperationBytes + len (MutKey m) + value_len (MutValue m) <= mutations_bytes l.
Proof.
  induction l as [|m' l IH]; [by intros ?%elem_of_nil|]. pose proof (mutations_bytes_nonneg l).
  unfold mutations_bytes in *. cbn [foldr]. pose proof (len_nonneg (MutKey m')).
  pose proof (len_nonneg (cloneOpaqueBytes (MutValue m'))). unfold value_len, batchOperationBytes in *.
  intros [->|Hin]%elem_of_cons; [lia|]. specialize (IH Hin). lia.
Qed.

(** Under the hard limits the [uint64] total is the exact sum. *)
Lemma batchTotal_exact maximum l total :
  Forall expiry_ok l -> 0 <= total -> total + mutations_bytes l < 2 ^ 32 ->
  batchTotal maximum l total = Ok (total + mutations_bytes l).
Proof.
  intros Hexp. revert total. induction Hexp as [|m l Hm _ IH]; intros total Ht Hb.
  { simpl. by rewrite Z.add_0_r. }
  pose proof (mutations_bytes_nonneg l) as Hnn. unfold mutations_bytes in *. cbn [batchTotal foldr] in *.
  pose proof (len_nonneg (MutKey m)). pose proof (len_nonneg (cloneOpaqueBytes (MutValue m))).
  unfold value_len, batchOperationBytes in *.
  assert (match MutExpiresAt m with Some t => negb (expiryRepresentable t) | None => false end = false) as ->.
  { unfold expiry_ok in Hm. destruct (MutExpiresAt m); [|done]. by apply negb_false_iff, expiryRepresentable_true. }
  unfold wrap_u64, max_uint64. rewrite Z.mod_small by lia. destruct (Z.ltb_spec (2 ^ 64 - 1 - total)
    (20 + len (MutKey m) + len (cloneOpaqueBytes (MutValue m)))); [lia|].
  rewrite IH by lia. f_equal. lia.
Qed.

(** [validateBatchAt] accepts every well-formed batch whose expiries lie in the
    future and are representable. *)
Lemma validateBatchAt_accepts batch limits t :
  limits_ok limits -> batch_fits_int batch -> batch_wf limits batch ->
  Forall (fun m => expiry_ok m /\ match MutExpiresAt m with Some e => t < e | None => True end)
    (BatchMutations batch) ->
  validateBatchAt batch limits t = None.
Proof.
  intros Hl Hfit Hwf Hexp. destruct (limits_ok_fields limits Hl) as [(_ & _ & Hmf & Hmb & _) _].
  pose proof (lo_batch_frame _ Hl). pose proof Hwf as [_ _ _ _ _ Hmut Hbytes].
  pose proof (mutations_bytes_nonneg (BatchMutations batch)).
  pose proof (assertions_bytes_nonneg (BatchAssertions batch)). unfold batchBaseBytes in Hbytes.
  apply Forall_and in Hexp as [Hrep Hfut]. unfold validateBatchAt, Batch_ValidateAt.
  apply (Batch_Validate_None limits batch Hfit) in Hwf. rewrite Hwf.
  assert (validateMutationsAt limits t (BatchMutations batch) = None) as ->.
  { apply validateMutationsAt_None. rewrite Forall_forall in *. intros m Hm. unfold Mutation_ValidateAt.
    rewrite (proj2 (Mutation_Validate_None limits m) (Hmut m Hm)). specialize (Hfut m Hm).
    destruct (MutExpiresAt m); [|done]. unfold time_After. apply Z.ltb_lt in Hfut. by rewrite Hfut. }
  rewrite batchTotal_exact by (done || lia). unfold wrap_u64, max_uint32. rewrite Z.mod_small by lia.
  destruct (Z.ltb_spec (Z.min (MaxBatchBytes limits) (MaxFrameBytes limits))
    (32 + mutations_bytes (BatchMutations batch))); [lia|].
  destruct (Z.ltb_spec (2 ^ 32 - 1) (32 + mutations_bytes (BatchMutations batch))); [lia|]. done.
Qed.

Lemma effectFor_key m single : EffKey (effectFor m single) = MutKey m.
Proof. unfold effectFor. by destruct (MutKind m). Qed.

Lemma effectFor_keys (l : list Mutation) single : EffKey <$> ((fun m => effectFor m single) <$> l) = MutKey <$> l.
Proof. induction l as [|m l IH]; [done|]. rewrite !fmap_cons, effectFor_key. by f_equal. Qed.

Lemma frameOf_keys revision batch single :
  effect_keys (frameOf revision batch single) = MutKey <$> BatchMutations batch.
Proof. apply effectFor_keys. Qed.

Lemma effectFor_wf limits m single :
  mutation_wf limits m -> expiry_ok m -> effect_wf limits (effectFor m single).
Proof.
  intros ((Hne & Hu & Hl) & _ & Hk) He. unfold effect_wf. rewrite effectFor_key. split_and!; [done..|].
  unfold effectFor. destruct (MutKind m); simpl in *; [|by case_bool_decide|done].
  split; [done|]. exact He.
Qed.

(** What [validateBatchAt] accepts, the log can hold. *)
Lemma frameOf_loggable limits batch single revision :
  batch_wf limits batch -> Forall expiry_ok (BatchMutations batch) ->
  revision <> 0 -> 0 <= revision <= max_uint64 ->
  loggable limits (frameOf revision batch single).
Proof.
  intros [_ Hne Hcount Hkeys _ Hmut Hbytes] Hexp Hz Hr. pose proof (len_nonneg (BatchAssertions batch)).
  split; [done|]. split; [split|]; simpl.
  - done.
  - by destruct (BatchMutations batch).
  - unfold len in *. rewrite length_fmap. lia.
  - rewrite Forall_forall in Hmut, Hexp. apply Forall_forall. intros e (m & -> & Hm)%list_elem_of_fmap.
    apply effectFor_wf; [by apply Hmut|by apply Hexp].
  - rewrite effectFor_keys. unfold batch_keys in Hkeys. by apply NoDup_app in Hkeys as (_ & _ & ?).
  - assert (forall l, Forall (mutation_wf limits) l ->
      payload_bytes ((fun m => effectFor m single) <$> l) = mutations_bytes l) as Hp.
    { induction 1 as [|m l Hm _ IH]; [done|]. rewrite fmap_cons. cbn [payload_bytes].
      rewrite IH, effectFor_key. unfold mutations_bytes. cbn [foldr].
      unfold batchOperationBytes, effectHeader. destruct Hm as (_ & _ & Hk).
      unfold effectFor, value_len. destruct (MutKind m); cbn [EffValue]; [lia| |done].
      destruct Hk as (_ & -> & _). simpl. change (len (@nil byte)) with 0. lia. }
    unfold frame_bytes. simpl. rewrite Hp by done. unfold batchBaseBytes in Hbytes.
    unfold frameHeaderSize, frameTrailer.
    pose proof (assertions_bytes_nonneg (BatchAssertions batch)). lia.
Qed.

Lemma mutation_known limits m : mutation_wf limits m -> known_kind m.
Proof.
  intros (_ & _ & Hk). unfold known_kind, is_put, is_delete. by destruct (MutKind m).
Qed.

Lemma NoDup_fmap_eq {X Y} (f : X -> Y) (l : list X) x y :
  NoDup (f <$> l) -> x ∈ l -> y ∈ l -> f x = f y -> x = y.
Proof.
  intros Hnd [i Hi]%list_elem_of_lookup [j Hj]%list_elem_of_lookup Heq.
  assert (i = j) as ->; [|congruence].
  eapply (NoDup_lookup (f <$> l) i j (f x)); [done|..]; rewrite list_lookup_fmap.
  - by rewrite Hi.
  - by rewrite Hj, Heq.
Qed.

(** The keys of the records after a batch. *)
Lemma replay_key_after limits records batch single revision k :
  batch_wf limits batch ->
  is_Some (replayCommit records (frameOf revision batch single) !! k) <->
  key_after (BatchMutations batch) k (is_Some (records !! k)).
Proof.
  intros [_ _ _ Hkeys _ Hmut _]. unfold batch_keys in Hkeys. apply NoDup_app in Hkeys as (_ & _ & Hnd).
  set (c := frameOf revision batch single).
  assert (effect_keys c = MutKey <$> BatchMutations batch) as Hek by apply frameOf_keys.
  unfold key_after. destruct (decide (k ∈ effect_keys c)) as [Hin|Hin].
  - rewrite Hek in Hin. apply list_elem_of_fmap in Hin as (m & -> & Hm).
    assert (effectFor m single ∈ FrEffects c) as He by (apply list_elem_of_fmap; eauto).
    rewrite Forall_forall in Hmut. pose proof (Hmut m Hm) as (_ & _ & Hk).
    assert (replayCommit records c !! MutKey m = effect_record revision (effectFor m single)) as ->.
    { rewrite <- (effectFor_key m single). apply replayCommit_at; [by rewrite Hek|done|].
      intros t. unfold effectFor. destruct (MutKind m); simpl; try done. by case_bool_decide. }
    assert (forall m', m' ∈ BatchMutations batch -> MutKey m' = MutKey m -> m' = m) as Huniq.
    { intros m' Hm' Heq. by eapply (NoDup_fmap_eq MutKey). }
    unfold effect_record, effectFor, is_delete. destruct (MutKind m) eqn:Hkind; simpl; [| |done].
    + split; [|eauto]. intros _. left. exists m. by rewrite Hkind.
    + assert (is_Some (match (if bool_decide (single = operationExpiry) then ChangeExpire else ChangeDelete)
        with ChangePut => Some (NewRecord (MutKey m) (Some []) revision None) | _ => None end) <-> False) as ->
        by (case_bool_decide; simpl; split; by intros []).
      split; [done|]. intros [(m' & Hm' & Heq & Hd)|[_ Hd]].
      * by rewrite (Huniq m' Hm' Heq), Hkind in Hd.
      * specialize (Hd m Hm eq_refl). by rewrite Hkind in Hd.
  - rewrite replayCommit_other by done. rewrite Hek in Hin. split.
    + intros Hs. right. split; [done|]. intros m Hm <-. destruct Hin. by apply list_elem_of_fmap_2.
    + intros [(m & Hm & <- & _)|[? _]]; [|done]. destruct Hin. by apply list_elem_of_fmap_2.
Qed.

(** ** Interfaces as laws *)

(** A commit log holds the accepted commits and possibly one whose append
    failed.  A failed append that denies having applied leaves both alone. *)
Class LogSpec (L : Type) `{CommitLog L} := {
  log_rep : L -> list CommitFrame -> list CommitFrame -> Prop;
  log_fits : CommitFrame -> Prop;
  log_append_ok : forall l cs fl c o l',
    log_rep l cs fl -> log_fits c -> log_Append c l = (o, l') ->
    match o with
    | Returned None => fl = [] /\ log_rep l' (cs ++ [c]) []
    | Returned (Some e) =>
        (exists fl', log_rep l' cs fl' /\ (fl' = fl \/ fl' = [c])) /\
        (appendErrorMayHaveApplied e = false -> log_rep l' cs fl)
    | Panicked _ => exists fl', log_rep l' cs fl' /\ (fl' = fl \/ fl' = [c])
    end;
  log_barrier_ok : forall l cs fl o l',
    log_rep l cs fl -> log_Barrier l = (o, l') -> log_rep l' cs fl;
  log_barrier_exact : forall l cs fl l' c,
    log_rep l (cs ++ [c]) fl -> log_Barrier l = (Returned None, l') ->
    fl = [] /\ log_DurableThrough l' = FrRevision c;
  log_append_durable : forall l cs fl c o l',
    log_rep l cs fl -> log_Append c l = (o, l') -> log_DurableThrough l <= log_DurableThrough l';
  log_barrier_durable : forall l cs fl o l',
    log_rep l cs fl -> log_Barrier l = (o, l') -> log_DurableThrough l <= log_DurableThrough l'
}.

(** An allocator stays within the reserved revisions. *)
Class AllocatorSpec (A : Type) `{RevisionAllocator A} (bound : Revision) := {
  alloc_ok : A -> Prop;
  alloc_step : forall a, alloc_ok a -> alloc_ok (alloc_Next a).2;
  alloc_bounded : forall a rev a',
    alloc_ok a -> alloc_Next a = (Returned (Ok rev), a') -> 0 <= rev <= bound
}.

(** ** The state *)

(** The largest batch the writer accepts. *)
Definition maximumBytes (limits : Limits) : Z := Z.min (MaxBatchBytes limits) (MaxFrameBytes limits).

(** An expiry is representable, and the frame that deletes its record fits. *)
Definition record_ok (limits : Limits) (current : Revision) (k : bytes) (r : DBRecord) : Prop :=
  RecKey r = k /\ key_wf limits k /\ 0 < RecRevision r <= current /\
  len (RecValue r) <= MaxValueBytes limits /\
  match RecExpiresAt r with
  | Some e => - 2 ^ 63 <= e < 2 ^ 63 /\ 32 + 20 + len k <= maximumBytes limits
  | None => True
  end.

(** The expiries of the records. *)
Definition expiring (records : gmap bytes DBRecord) : gmap bytes (Time * Revision) :=
  omap (fun r => (fun t => (t, RecRevision r)) <$> RecExpiresAt r) records.

Definition index_ok (keys : KeySlice) (records : gmap bytes DBRecord) : Prop :=
  strictly_sorted (ks_keys keys) /\ (forall k, k ∈ ks_keys keys <-> is_Some (records !! k)) /\
  len (ks_keys keys) <= ks_cap keys.

Definition healthy {C A L F} (st : DatabaseState C A L F) : Prop :=
  st_lifecycle st = LifecycleReady \/ st_lifecycle st = LifecycleDraining.

Record core_inv {C A L F} (st : DatabaseState C A L F) : Prop := {
  ci_limits : limits_ok (st_limits st);
  ci_index : index_ok (st_orderedKeys st) (st_records st);
  ci_records : map_Forall (record_ok (st_limits st) (st_current st)) (st_records st);
  ci_current : 0 <= st_current st;
  ci_durable : healthy st -> st_durableThrough st <= st_current st;
  ci_expiries : expiries_inv (st_expiries st);
  ci_scheduled : healthy st -> scheduled (st_expiries st) ⊆ expiring (st_records st)
}.

(** ** Installing a commit *)

Lemma index_install limits keys records batch single revision :
  batch_wf limits batch -> index_ok keys records -> len (ks_keys keys) < 2 ^ 63 ->
  (forall k, is_Some (records !! k) -> k <> []) ->
  index_ok (installPlan keys (planOrderedKeys keys (BatchMutations batch)))
    (replayCommit records (frameOf revision batch single)).
Proof.
  intros Hwf (Hs & Hin & Hcap) Hlen Hne. pose proof Hwf as [_ _ _ Hkeys _ Hmut _].
  destruct (installPlan_spec keys (BatchMutations batch)) as (Hs' & Hin' & Hcap'); try done.
  - unfold batch_keys in Hkeys. by apply NoDup_app in Hkeys as (_ & _ & ?).
  - eapply Forall_impl; [exact Hmut|]. intros m. apply mutation_known.
  - intros k Hk. by apply Hne, Hin.
  - split_and!; [done| |done]. intros k. rewrite Hin', (replay_key_after limits) by done.
    unfold key_after. by rewrite Hin.
Qed.

Lemma records_install limits current records batch single revision :
  limits_ok limits -> batch_wf limits batch -> Forall expiry_ok (BatchMutations batch) -> 0 <= current -> current < revision ->
  map_Forall (record_ok limits current) records ->
  map_Forall (record_ok limits revision) (replayCommit records (frameOf revision batch single)).
Proof.
  intros Hlim [_ _ _ Hkeys _ Hmut Hbytes] Hexp Hc Hr Hrec k r Hk. set (c := frameOf revision batch single) in *.
  unfold batch_keys in Hkeys. apply NoDup_app in Hkeys as (_ & _ & Hnd).
  assert (effect_keys c = MutKey <$> BatchMutations batch) as Hek by apply frameOf_keys.
  destruct (decide (k ∈ effect_keys c)) as [Hin|Hin].
  - rewrite Hek in Hin. apply list_elem_of_fmap in Hin as (m & -> & Hm).
    rewrite Forall_forall in Hmut, Hexp. specialize (Hmut m Hm) as (Hkw & _ & Hv). specialize (Hexp m Hm).
    assert (effectFor m single ∈ FrEffects c) as He by (apply list_elem_of_fmap; eauto).
    rewrite <- (effectFor_key m single), replayCommit_at in Hk; [|by rewrite Hek|done|].
    2:{ intros t. unfold effectFor. destruct (MutKind m); simpl; try done. by case_bool_decide. }
    unfold effect_record, effectFor in Hk. destruct (MutKind m); simpl in Hk; [|by case_bool_decide|done].
    injection Hk as <-. unfold record_ok. simpl. split_and!; try done; try lia.
    pose proof (mutations_bytes_elem m _ Hm) as Hmb. unfold expiry_ok in Hexp. destruct (MutExpiresAt m); [|done].
    pose proof (assertions_bytes_nonneg (BatchAssertions batch)). pose proof (lo_batch_frame _ Hlim).
    pose proof (len_nonneg (cloneOpaqueBytes (MutValue m))).
    unfold maximumBytes, value_len, batchBaseBytes, batchOperationBytes in *. split; [done|lia].
  - rewrite replayCommit_other in Hk by done. destruct (Hrec k r Hk) as (? & ? & ? & ? & ?).
    split_and!; try done; lia.
Qed.

(** The expiry index follows the records, for [R] either inclusion or equality. *)
Lemma schedule_install (R : relation (gmap bytes (Time * Revision))) revision order l single records x :
  (forall k v m n, R m n -> R (<[k := v]> m) (<[k := v]> n)) ->
  (forall k m n, R m n -> R (delete k m) (delete k n)) ->
  expiries_inv x -> R (scheduled x) (expiring records) ->
  let (events, records') := apply_loop revision order l single records in
  expiries_inv (scheduleEvents events x) /\ R (scheduled (scheduleEvents events x)) (expiring records').
Proof.
  intros Hins Hdel. revert order records x. induction l as [|m l IH]; intros order records x Hinv HR; [done|].
  cbn [apply_loop]. unfold apply. destruct (MutKind m) eqn:Hk.
  2:{ specialize (IH (order + 1) (delete (MutKey m) records) (removeScheduledExpiry x (MutKey m))).
      destruct (apply_loop _ _ _ _ _) as [events records'].
      assert (scheduleEvents (MkChangeEvent revision order
        (if bool_decide (single = operationExpiry) then ChangeExpire else ChangeDelete) (MutKey m) None :: events) x
        = scheduleEvents events (removeScheduledExpiry x (MutKey m))) as -> by (simpl; by case_bool_decide).
      destruct (removeScheduledExpiry_spec x (MutKey m) Hinv) as [Hinv' Hs]. apply IH; [done|].
      rewrite Hs. unfold expiring. rewrite omap_delete. by apply Hdel. }
  all: set (r := NewRecord (MutKey m) (MutValue m) revision (MutExpiresAt m)).
  all: specialize (IH (order + 1) (<[MutKey m := r]> records) (scheduleRecordExpiry x r)).
  all: destruct (apply_loop _ _ _ _ _) as [events records']; cbn [scheduleEvents EvtKind EvtRecord].
  all: destruct (scheduleRecordExpiry_spec x r Hinv) as [Hinv' Hs]; apply IH; [done|].
  all: rewrite Hs; unfold expiring; unfold r at 1 2; simpl; destruct (MutExpiresAt m) as [t|] eqn:He.
  all: try (erewrite omap_insert_Some by (unfold r; simpl; rewrite ?He; done); by apply Hins).
  all: rewrite omap_insert_None by (unfold r; simpl; by rewrite ?He); by apply Hdel.
Qed.

(** The state after a commit, whatever is done to its environment. *)
Lemma core_installed {C A L F} `{Clock C, RevisionAllocator A, CommitLog L, Faults F}
    (st : DatabaseState C A L F) c f l batch single revision durable :
  core_inv st -> healthy st -> batch_wf (st_limits st) batch -> Forall expiry_ok (BatchMutations batch) ->
  len (ks_keys (st_orderedKeys st)) < 2 ^ 63 -> st_current st < revision -> durable <= revision ->
  let st' := installed batch single revision durable (reached c f l st) in
  index_ok (st_orderedKeys st') (st_records st') /\
  map_Forall (record_ok (st_limits st) revision) (st_records st') /\
  st_records st' = replayCommit (st_records st) (frameOf revision batch single) /\
  st_current st' = revision /\ st_durableThrough st' <= revision /\
  st_limits st' = st_limits st /\ st_expiries st' = st_expiries st /\
  st_lifecycle st' = st_lifecycle st /\ st_log st' = l /\ st_registry st' = st_registry st /\
  st_history st' = history_append (st_history st) (batch_events batch single revision st).
Proof.
  intros [Hl Hi Hr Hc Hd He Hs] Hh Hwf Hexp Hlen Hrev Hdur st'. specialize (Hd Hh).
  pose proof (apply_replay revision 0 (BatchMutations batch) single (st_records st)) as Hreplay.
  fold (frameOf revision batch single) in Hreplay.
  assert (st' = let (events, records) := apply_loop revision 0 (BatchMutations batch) single (st_records st) in
    install (planOrderedKeys (st_orderedKeys st) (BatchMutations batch)) revision durable events records
      (reached c f l st)) as Hst' by done.
  assert (batch_events batch single revision st =
    (apply_loop revision 0 (BatchMutations batch) single (st_records st)).1) as Hev by done.
  destruct (apply_loop _ _ _ _ _) as [events records]. simpl in Hreplay, Hev. rewrite Hst', Hev.
  unfold install. simpl. rewrite Hreplay. split_and!; try done.
  - apply (index_install (st_limits st)); try done. intros k [r Hk]. by destruct (Hr k r Hk) as (_ & [? _] & _).
  - by eapply records_install.
  - destruct (Z.ltb_spec (st_durableThrough st) durable); lia.
Qed.

Lemma batch_events_head revision order l single records :
  l <> [] -> exists first, head (apply_loop revision order l single records).1 = Some first /\
    EvtRevision first = revision.
Proof.
  destruct l as [|m l]; [done|]. intros _. cbn [apply_loop].
  destruct (apply revision order m single records) as [event records'] eqn:Ha.
  destruct (apply_loop _ _ _ _ _) as [events records'']. simpl. eexists. split; [done|].
  unfold apply in Ha. by destruct (MutKind m); simplify_eq.
Qed.

(** ** The engine *)

Section engine.
Context {C A L F : Type} `{Clock C, !RevisionAllocator A, !CommitLog L, !Faults F}.
Context {LS : LogSpec L} {bound : Revision} {AS : AllocatorSpec A bound}.
Hypothesis bound_fits : forall c, 0 <= FrRevision c <= bound -> log_fits c.
Abbreviation state := (DatabaseState C A L F).
Implicit Types st : state.

(** The watches of the state, with the groups committed so far. *)
Definition watch_system (all : list eventGroup) st : system :=
  MkSystem (st_limits st) all (st_current st) (st_history st) (st_registry st).

(** The state against the log: [snap] and [base] are the records and the
    revision of the snapshot, [cs] the commits in the log, [fl] the one whose
    append failed.  The records are those of the commits [seen], which is all
    of them unless the writer stopped between the log and the map. *)
Record engine_inv (snap : gmap bytes DBRecord) (base : Revision) (cs fl : list CommitFrame) st : Prop := {
  en_core : core_inv st;
  en_log : log_rep (st_log st) cs fl;
  en_alloc : alloc_ok (st_allocator st);
  en_ordered : revisions_from base bound cs;
  en_view : exists seen, st_records st = replay snap seen /\ st_current st = last_revision base seen /\
    (cs = seen \/ (exists c, cs = seen ++ [c]) /\ st_lifecycle st = LifecycleDegradedReadOnly);
  en_healthy : healthy st -> fl = [];
  en_registry : registry_ok (st_registry st);
  en_watch : healthy st -> exists first all, sys_inv first (watch_system all st);
  en_snapshot : st_snapshotRevision st = base
}.

Lemma view_healthy snap base cs fl st :
  engine_inv snap base cs fl st -> healthy st ->
  st_records st = replay snap cs /\ st_current st = last_revision base cs.
Proof.
  intros [_ _ _ _ (seen & Hr & Hc & [->|[_ Hd]]) _ _ _ _] Hh; [done|].
  unfold healthy in Hh. rewrite Hd in Hh. by destruct Hh.
Qed.

(** Changes of the environment keep the core; so does degrading. *)
Lemma core_reached c f l st : core_inv st -> core_inv (reached c f l st).
Proof. intros []. by split. Qed.

Lemma core_degrade st : core_inv st -> core_inv (degrade st).
Proof. intros []. split; try done; by intros [|]. Qed.

Lemma not_healthy_degrade st : ~ healthy (degrade st).
Proof. by intros [|]. Qed.

(** Stopping the writer with the log at [cs'] and the map at [seen]. *)
Lemma engine_inv_degraded snap base cs' fl' seen st :
  core_inv st -> log_rep (st_log st) cs' fl' -> alloc_ok (st_allocator st) -> revisions_from base bound cs' ->
  registry_ok (st_registry st) -> st_records st = replay snap seen -> st_current st = last_revision base seen ->
  cs' = seen \/ (exists c, cs' = seen ++ [c]) -> st_snapshotRevision st = base ->
  engine_inv snap base cs' fl' (degrade st).
Proof.
  intros Hcore Hlog Ha Ho Hreg Hr Hc Hs Hsn. split; try done; [by apply core_degrade| | |].
  - exists seen. split_and!; try done. destruct Hs as [?|?]; [by left|by right].
  - intros Hh. by apply not_healthy_degrade in Hh.
  - intros Hh. by apply not_healthy_degrade in Hh.
Qed.

(** Room for the batch: slices hold fewer than [2^63] elements. *)
Definition fits (batch : Batch) st : Prop :=
  batch_fits_int batch /\ len (ks_keys (st_orderedKeys st)) < 2 ^ 63.

(** What [execute] did to the log: nothing, one commit, or one in flight. *)
Definition log_after (batch : Batch) (single : singleOperation) st (cs fl cs' fl' : list CommitFrame)
    (applied : bool) : Prop :=
  cs' = cs /\ fl' = fl \/
  applied = true /\ healthy st /\ exists revision, st_current st < revision /\
    (cs' = cs /\ fl' = [frameOf revision batch single] \/
     cs' = cs ++ [frameOf revision batch single] /\ fl' = [] /\ fl = []).

Lemma accepted_wf batch single st :
  fits batch st -> accepted batch single st ->
  batch_wf (st_limits st) batch /\ Forall expiry_ok (BatchMutations batch).
Proof. intros [Hf _] (_ & Hv & _). by eapply validateBatchAt_wf. Qed.

Lemma granted_fits snap base cs fl batch single st revision :
  engine_inv snap base cs fl st -> granted st revision -> log_fits (frameOf revision batch single).
Proof.
  intros Hinv (_ & _ & a & Ha). apply bound_fits. by eapply alloc_bounded; [apply Hinv|].
Qed.

(** The commit of a granted revision is the newest. *)
Lemma granted_ordered snap base cs fl batch single st revision :
  engine_inv snap base cs fl st -> healthy st -> granted st revision ->
  revisions_from base bound (cs ++ [frameOf revision batch single]).
Proof.
  intros Hinv Hh (_ & Hrev & a & Ha). destruct (view_healthy _ _ _ _ _ Hinv Hh) as [_ Hc].
  pose proof (alloc_bounded _ _ _ (en_alloc _ _ _ _ _ Hinv) Ha). apply revisions_from_app.
  split; [apply Hinv|]. simpl. lia.
Qed.

(** The committed state satisfies the invariant with the commit in the log. *)
Lemma engine_inv_committed snap base cs st batch single revision durable c f f' l l' rg :
  engine_inv snap base cs [] st -> fits batch st ->
  appended batch single st revision l -> acknowledged batch st revision l l' durable ->
  publishWatchers (batch_events batch single revision st) (st_registry st) = Some rg ->
  engine_inv snap base (cs ++ [frameOf revision batch single]) []
    (set_registry rg (set_expiries (scheduleEvents (batch_events batch single revision st) (st_expiries st))
       (set_faults f' (installed batch single revision durable (reached c f l' st))))).
Proof.
  intros Hinv Hfit (Hacc & Hgr & Happ) [Hd Hack] Hpub.
  pose proof (accepted_wf _ _ _ Hfit Hacc) as [Hwf Hexp]. destruct Hacc as [Hh _].
  pose proof (granted_fits _ _ _ _ batch single _ _ Hinv Hgr) as Hlf. pose proof Hgr as (_ & Hrev & _).
  pose proof Hinv as [Hcore Hlog Ha _ _ _ _ Hwatch Hsn].
  pose proof (granted_ordered _ _ _ _ batch single _ _ Hinv Hh Hgr) as Hord.
  destruct (log_append_ok _ _ _ _ _ _ Hlog Hlf Happ) as [_ Hlog1].
  assert (log_rep l' (cs ++ [frameOf revision batch single]) []) as Hlog'.
  { destruct (BatchAck batch); [by destruct Hack as [-> _]| |by destruct Hack as [-> _]].
    destruct Hack as [Hb _]. by eapply log_barrier_ok. }
  assert (durable <= revision) as Hdur by (destruct (BatchAck batch); destruct Hack; lia).
  destruct (core_installed st c f l' batch single revision durable Hcore Hh Hwf Hexp (proj2 Hfit) Hrev Hdur)
    as (Hi & Hr & Hrec & Hcur & Hdu & Hlim & Hex & Hlife & Hl & Hreg & Hhist).
  destruct (view_healthy _ _ _ _ _ Hinv Hh) as [Hview Hvc].
  set (st1 := installed batch single revision durable (reached c f l' st)) in *.
  assert (st_allocator st1 = (alloc_Next (st_allocator st)).2) as Halloc.
  { unfold st1, installed. by destruct (apply_loop _ _ _ _ _). }
  pose proof (schedule_install (⊆) revision 0 (BatchMutations batch) single (st_records st) (st_expiries st)
    (fun k v m n => insert_mono m n k v) (fun k m n => delete_mono m n k)
    (ci_expiries _ Hcore) (ci_scheduled _ Hcore Hh)) as Hsched.
  pose proof (apply_replay revision 0 (BatchMutations batch) single (st_records st)) as Hreplay.
  fold (frameOf revision batch single) in Hreplay. unfold batch_events in *. destruct (apply_loop revision 0 _ _ _) as [events records] eqn:Hloop.
  simpl in Hreplay, Hpub, Hhist. destruct Hsched as [Hx Hsub].
  pose proof (batch_events_head revision 0 (BatchMutations batch) single (st_records st)
    (bwf_nonempty _ _ Hwf)) as (first & Hfirst & Hfr). rewrite Hloop in Hfirst. simpl in Hfirst.
  assert (exists base0 all, sys_inv base0 (MkSystem (st_limits st) all revision
    (history_append (st_history st) events) rg)) as Hsys'.
  { destruct (Hwatch Hh) as (base0 & all & Hsys). exists base0, (all ++ [group_of events]). rewrite <- Hfr.
    eapply sys_inv_step; [exact Hsys|]. eapply (sys_commit (watch_system all st)); try done. simpl. lia. }
  split; simpl.
  - split; simpl; rewrite ?Hlim; try done.
    + apply Hcore.
    + by rewrite Hcur.
    + pose proof (ci_current _ Hcore). lia.
    + lia.
    + intros _. by rewrite Hrec, <- Hreplay.
  - by rewrite Hl.
  - rewrite Halloc. by apply alloc_step.
  - done.
  - exists (cs ++ [frameOf revision batch single]). rewrite replay_snoc, last_revision_snoc, Hrec, Hview.
    split_and!; try done. by left.
  - done.
  - destruct Hsys' as (base0 & all & Hsys). exact (sys_registry_ok _ _ Hsys).
  - intros _. unfold watch_system. simpl. by rewrite Hlim, Hcur, Hhist.
  - unfold st1, installed. by destruct (apply_loop _ _ _ _ _).
Qed.

Lemma engine_inv_env snap base cs fl c f st :
  engine_inv snap base cs fl st -> engine_inv snap base cs fl (set_faults f (set_clock c st)).
Proof. intros [[] ? ? ? ? ? ? ? ?]. by split. Qed.

(** The outcome of a command for the client and for the log. *)
Definition command_outcome (batch : Batch) (single : singleOperation) st (cs fl cs' fl' : list CommitFrame)
    (r : option (result goerror CommitResult)) st' : Prop :=
  match r with
  | None => False
  | Some (Ok res) => exists revision durable,
      accepted batch single st /\ st_current st < revision /\ 0 <= revision <= bound /\
      cs' = cs ++ [frameOf revision batch single] /\ fl = [] /\ fl' = [] /\
      res = commit_result batch revision durable (batch_events batch single revision st) /\
      st_lifecycle st' = st_lifecycle st /\
      st_records st' = replayCommit (st_records st) (frameOf revision batch single) /\
      st_current st' = revision /\ durable <= log_DurableThrough (st_log st') /\
      (st_durableThrough st <= durable <= revision /\ (BatchAck batch = AckDurable -> durable = revision)) /\
      st_expiries st' = scheduleEvents (batch_events batch single revision st) (st_expiries st)
  | Some (Err e) =>
      log_after batch single st cs fl cs' fl' (claims_applied e) /\
      (claims_applied e = false -> st_records st' = st_records st /\ st_current st' = st_current st) /\
      (st_lifecycle st' = LifecycleDegradedReadOnly \/
       st_lifecycle st' = st_lifecycle st /\ st_records st' = st_records st /\
       st_expiries st' = st_expiries st)
  end.

Lemma panic_claims id applied cause : claims_applied (internalFailure id applied cause) = applied.
Proof. done. Qed.

(** What a command leaves: the invariant for some log, and its outcome. *)
Definition leaves (snap : gmap bytes DBRecord) (base : Revision) (cs fl : list CommitFrame) st
    (batch : Batch) (single : singleOperation) (r : option (result goerror CommitResult)) st' : Prop :=
  exists cs' fl', engine_inv snap base cs' fl' st' /\
    log_DurableThrough (st_log st) <= log_DurableThrough (st_log st') /\
    command_outcome batch single st cs fl cs' fl' r st'.

Section command.
Variables (snap : gmap bytes DBRecord) (base : Revision) (cs fl : list CommitFrame) (st : state).
Variables (batch : Batch) (single : singleOperation).
Hypothesis inv : engine_inv snap base cs fl st.
Hypothesis room : fits batch st.

(** The writer stops without having reached the log. *)
Lemma leaves_stopped c f e :
  leaves snap base cs fl st batch single (Some (Err e)) (degrade (reached c f (st_log st) st)).
Proof.
  pose proof inv as [Hcore Hlog Ha Ho (seen & Hr & Hc & Hseen) _ Hrg _].
  exists cs, fl. split_and!; [|done|split_and!; [by left|done|by left]].
  eapply (engine_inv_degraded _ _ _ _ seen); try done; [by apply core_reached|by apply alloc_step|tauto].
Qed.

(** The append did not succeed: the frame is in flight at most, and not even
    that if the error denies it. *)
Lemma leaves_append c f l fl' revision e :
  healthy st -> st_current st < revision -> log_rep l cs fl' -> fl' = fl \/ fl' = [frameOf revision batch single] ->
  (claims_applied e = false -> fl' = fl) -> log_DurableThrough (st_log st) <= log_DurableThrough l ->
  leaves snap base cs fl st batch single (Some (Err e)) (degrade (reached c f l st)).
Proof.
  intros Hh Hrev Hl Hfl Hdeny Hd. pose proof inv as [Hcore Hlog Ha Ho (seen & Hr & Hc & Hseen) _ Hrg _].
  exists cs, fl'. split_and!; [|done|split_and!; [|done|by left]].
  - eapply (engine_inv_degraded _ _ _ _ seen); try done; [by apply core_reached|by apply alloc_step|tauto].
  - destruct (claims_applied e); [|left; auto]. destruct Hfl as [->| ->]; [by left|right]. eauto 8.
Qed.

(** What a successful append says. *)
Lemma appended_log revision l :
  appended batch single st revision l ->
  fl = [] /\ log_rep l (cs ++ [frameOf revision batch single]) [] /\
  log_DurableThrough (st_log st) <= log_DurableThrough l /\
  st_records st = replay snap cs /\ st_current st = last_revision base cs.
Proof.
  intros (Hacc & Hgr & Happ). pose proof (granted_fits _ _ _ _ batch single _ _ inv Hgr) as Hlf.
  pose proof (en_log _ _ _ _ _ inv) as Hlog.
  destruct (log_append_ok _ _ _ _ _ _ Hlog Hlf Happ) as [-> Hl1].
  pose proof (log_append_durable _ _ _ _ _ _ Hlog Happ).
  destruct (view_healthy _ _ _ _ _ inv (proj1 Hacc)). done.
Qed.

(** The writer stops behind the append, before or after the map is updated. *)
Lemma leaves_after_append c f l l' revision e :
  appended batch single st revision l -> l' = l \/ (exists o, log_Barrier l = (o, l')) ->
  claims_applied e = true ->
  leaves snap base cs fl st batch single (Some (Err e)) (degrade (reached c f l' st)).
Proof.
  intros Hap Hb He. destruct (appended_log _ _ Hap) as (-> & Hl & Hd & Hr & Hc).
  destruct Hap as ((Hh & _) & Hgr & _). pose proof (granted_ordered _ _ _ _ batch single _ _ inv Hh Hgr) as Hord.
  destruct Hgr as (_ & Hrev & _).
  assert (log_rep l' (cs ++ [frameOf revision batch single]) [] /\
    log_DurableThrough l <= log_DurableThrough l') as [Hl' Hdl].
  { destruct Hb as [->|[o Hb]]; [split; [done|lia]|].
    split; [by eapply log_barrier_ok|by eapply log_barrier_durable]. }
  exists (cs ++ [frameOf revision batch single]), []. split_and!; [|simpl; lia|split_and!; [|by rewrite He|by left]].
  - eapply (engine_inv_degraded _ _ _ _ cs); try done; [by apply core_reached, inv|by apply alloc_step, inv|apply inv|eauto|apply inv].
  - right. split_and!; [done..|]. exists revision. split; [done|by right].
Qed.

Lemma acknowledged_log revision l l' durable :
  appended batch single st revision l -> acknowledged batch st revision l l' durable ->
  log_rep l' (cs ++ [frameOf revision batch single]) [] /\
  log_DurableThrough (st_log st) <= log_DurableThrough l' /\ st_durableThrough st <= durable <= revision /\
  durable <= log_DurableThrough l' /\ (BatchAck batch = AckDurable -> durable = revision).
Proof.
  intros Hap [Hd Hack]. destruct (appended_log _ _ Hap) as (_ & Hl & Hdl & _).
  destruct (BatchAck batch) as [| |t]; destruct Hack as [Hb Hack].
  - subst. split_and!; (done || lia).
  - destruct Hack as [Hdl' ->]. pose proof (log_barrier_durable _ _ _ _ _ Hl Hb).
    split_and!; try done; try lia. by eapply log_barrier_ok.
  - subst. split_and!; (done || lia).
Qed.

Lemma leaves_after_install c f f' l l' revision durable e :
  appended batch single st revision l -> acknowledged batch st revision l l' durable ->
  claims_applied e = true ->
  leaves snap base cs fl st batch single (Some (Err e))
    (degrade (set_faults f' (installed batch single revision durable (reached c f l' st)))).
Proof.
  intros Hap Hack He. destruct (appended_log _ _ Hap) as (Hfl & Hl & Hd & Hr & Hc).
  destruct (acknowledged_log _ _ _ _ Hap Hack) as (Hl' & Hdl & Hdr & _ & _).
  destruct Hap as (Hacc & Hgr & _). pose proof (granted_ordered _ _ _ _ batch single _ _ inv (proj1 Hacc) Hgr) as Hord.
  destruct Hgr as (_ & Hrev & _). pose proof (accepted_wf _ _ _ room Hacc) as [Hwf Hexp].
  destruct (core_installed st c f l' batch single revision durable (en_core _ _ _ _ _ inv) (proj1 Hacc) Hwf Hexp
    (proj2 room) Hrev (proj2 Hdr)) as (Hi & Hrec' & Hrec & Hcur & Hdu & Hlim & Hex & Hlife & Hlg & Hreg & Hhist).
  set (st1 := installed batch single revision durable (reached c f l' st)) in *.
  pose proof (en_core _ _ _ _ _ inv) as [Cl _ _ Cc _ Ce _].
  exists (cs ++ [frameOf revision batch single]), []. split_and!; [|simpl; rewrite Hlg; lia|split_and!; [|by rewrite He|by left]].
  - split; simpl; try done.
    + split; simpl; rewrite ?Hlim, ?Hex, ?Hcur; try done; try lia. by intros [|].
    + by rewrite Hlg.
    + assert (st_allocator st1 = (alloc_Next (st_allocator st)).2) as ->.
      { unfold st1, installed. by destruct (apply_loop _ _ _ _ _). }
      apply alloc_step, inv.
    + exists (cs ++ [frameOf revision batch single]).
      rewrite replay_snoc, last_revision_snoc, Hrec, Hr. split_and!; try done. by left.
    + rewrite Hreg. apply inv.
    + by intros [|].
    + etransitivity; [|exact (en_snapshot _ _ _ _ _ inv)]. unfold st1, installed. by destruct (apply_loop _ _ _ _ _).
  - right. split_and!; [done|apply Hacc|]. exists revision. split; [done|by right].
Qed.

(** Publishing never blocks. *)
Lemma publish_total revision l :
  appended batch single st revision l ->
  exists rg, publishWatchers (batch_events batch single revision st) (st_registry st) = Some rg.
Proof.
  intros (Hacc & (_ & Hrev & _) & _). pose proof (accepted_wf _ _ _ room Hacc) as [Hwf _].
  destruct (en_watch _ _ _ _ _ inv (proj1 Hacc)) as (base0 & all & Hsys).
  destruct (batch_events_head revision 0 (BatchMutations batch) single (st_records st)
    (bwf_nonempty _ _ Hwf)) as (first & Hfirst & Hfr).
  destruct (sys_commit_ok base0 _ (batch_events batch single revision st) first Hsys Hfirst)
    as (rg & Hrg & _); [simpl; lia|]. eauto.
Qed.

Lemma leaves_committed c f f' l l' revision durable rg :
  appended batch single st revision l -> acknowledged batch st revision l l' durable ->
  publishWatchers (batch_events batch single revision st) (st_registry st) = Some rg ->
  leaves snap base cs fl st batch single
    (Some (Ok (commit_result batch revision durable (batch_events batch single revision st))))
    (set_registry rg (set_expiries
       (scheduleEvents (batch_events batch single revision st) (st_expiries st))
       (set_faults f' (installed batch single revision durable (reached c f l' st))))).
Proof.
  intros Hap Hack Hpub. destruct (appended_log _ _ Hap) as (Hfl & Hl & Hd & Hr & Hc).
  destruct (acknowledged_log _ _ _ _ Hap Hack) as (Hl' & Hdl & Hdr & Hdd & Hda).
  pose proof inv as Hinv. rewrite Hfl in Hinv.
  pose proof (engine_inv_committed snap base cs st batch single revision durable c f f' l l' rg
    Hinv room Hap Hack Hpub) as Hnew.
  destruct Hap as (Hacc & Hgr & _). pose proof (accepted_wf _ _ _ room Hacc) as [Hwf Hexp].
  destruct Hgr as (_ & Hrev & a & Ha).
  destruct (core_installed st c f l' batch single revision durable (en_core _ _ _ _ _ inv) (proj1 Hacc) Hwf Hexp
    (proj2 room) Hrev (proj2 Hdr)) as (_ & _ & Hrec & Hcur & _ & _ & _ & Hlife & Hlg & _ & _).
  exists (cs ++ [frameOf revision batch single]), []. split_and!; [done|simpl; by rewrite Hlg|].
  exists revision, durable. simpl. rewrite Hlg. split_and!; try done; try apply Hdr;
    apply (alloc_bounded _ _ _ (en_alloc _ _ _ _ _ inv) Ha).
Qed.

(** The end of an execution, with a panic reported as [recovered]. *)
Lemma execute_leaves (recovered : bool -> string -> goerror) :
  (forall applied v, claims_applied (recovered applied v) = applied) ->
  let (r, s) := execute batch single (st, false) in
  match r with
  | Done r => leaves snap base cs fl st batch single (Some r) s.1
  | Panic v => leaves snap base cs fl st batch single (Some (Err (recovered s.2 v))) (degrade s.1)
  | Hung => False
  end.
Proof.
  intros Hrec. pose proof (execute_cases batch single st) as Hends.
  destruct (execute batch single (st, false)) as [r0 [st0 p]]. cbn [fst snd] in Hends |- *.
  pose proof (en_log _ _ _ _ _ inv) as Hlog.
  destruct Hends as [c f e He|c f e|c f v|c f l revision err e Hacc Hgr Happ He
    |c f l revision v Hacc Hgr Happ|c f l l' revision e Hap Hb He|c f l l' revision v Hap Hb
    |c f f' l l' revision durable e Hap Hack He|l l' revision durable st0 Hap Hack Hpub
    |c f f' l l' revision durable rg Hap Hack Hpub].
  - exists cs, fl. split_and!; [by apply engine_inv_env|done|]. split_and!; [by left|done|by right].
  - apply leaves_stopped.
  - apply leaves_stopped.
  - pose proof (granted_fits _ _ _ _ batch single _ _ inv Hgr) as Hlf.
    destruct (log_append_ok _ _ _ _ _ _ Hlog Hlf Happ) as [(fl' & Hl' & Hfl) Hdeny].
    pose proof (log_append_durable _ _ _ _ _ _ Hlog Happ).
    destruct (appendErrorMayHaveApplied err) eqn:Hmay.
    + eapply leaves_append; try done; [apply Hacc|apply Hgr|by rewrite He].
    + eapply (leaves_append c f l fl revision); eauto; [apply Hacc|apply Hgr].
  - pose proof (granted_fits _ _ _ _ batch single _ _ inv Hgr) as Hlf.
    destruct (log_append_ok _ _ _ _ _ _ Hlog Hlf Happ) as (fl' & Hl' & Hfl).
    eapply leaves_append; try done; [apply Hacc|apply Hgr|by rewrite Hrec|by eapply log_append_durable].
  - by eapply leaves_after_append.
  - eapply leaves_after_append; eauto.
  - by eapply leaves_after_install.
  - destruct (publish_total _ _ Hap). congruence.
  - by eapply leaves_committed.
Qed.

Lemma executeSafely_leaves r st' :
  executeSafely batch single st = (r, st') -> leaves snap base cs fl st batch single r st'.
Proof.
  pose proof (execute_leaves (fun applied v =>
    internalFailure "engine-writer-panic" applied (Some (ErrText ("writer panic: " +:+ v)))) ltac:(done)) as Hex.
  unfold executeSafely. destruct (execute batch single (st, false)) as [[r0|v|] s]; [..|done];
    by intros [= <- <-].
Qed.
End command.
End engine.
