(* ===== verification/WalEngine.v ===== *)
(** * WalEngine: the write-ahead log and the range allocator as the engine's
    interfaces

    [*persist.WAL] implements [engine.CommitLog] and [*engine.RangeAllocator]
    implements [engine.RevisionAllocator].  The laws the engine relies on are
    proved of both.  The law that takes work is that an append whose error
    denies an application has written nothing: it rests on the hook in front
    of the frame write and on operating-system errors not being hook errors. *)

From stdpp Require Import base gmap list strings.
From Stdlib Require Import ZArith Lia.
From S2P Require Import Prelude.
From S2P Require Import Bytes.
From S2P Require Import Errors.
From S2P Require Import ApiTypes.
From S2P Require Import Allocator.
From S2P Require Import FaultFS.
From S2P Require Import StorageErrors.
From S2P Require Import WalCodec.
From S2P Require Import WalScan.
From S2P Require Import WalLog.
From S2P Require Import Engine.
From S2P Require Import Writer.
From S2P Require Import EngineInv.

Local Open Scope Z_scope.

(** ** Operating-system errors *)

(** No error of a system call is a hook's. *)
Class PlainOS (E : Type) `{OSEnv E} :=
  plain_fail : forall (e : E) call err e', env_fail e call = (Some err, e') -> asHook err = None.

Section plain.
Context {E : Type} `{PlainOS E}.
Implicit Types s : FSState E.

Definition plain (e : error) : Prop := match e with Some err => asHook err = None | None => True end.

Lemma os_fail_plain c s e s' : os_fail c s = (e, s') -> plain e.
Proof.
  unfold os_fail. destruct (env_fail (fs_env s) c) as [r env] eqn:Hf. intros [= <- <-].
  destruct r; [by eapply plain_fail|done].
Qed.

Lemma file_Write_plain i v s n e s' : file_Write i v s = (n, e, s') -> plain e.
Proof.
  unfold file_Write. destruct (os_fail SysWrite s) as [err s1] eqn:Hf. apply os_fail_plain in Hf.
  destruct (env_transfer _ _). intros [= _ <- _]. destruct err; [done|]. by destruct (_ <? _).
Qed.

Lemma bufio_Flush_plain i b s e b' s' :
  plain (bf_err b) -> bufio_Flush i (b, s) = (e, (b', s')) -> plain e /\ plain (bf_err b').
Proof.
  intros Hb. unfold bufio_Flush. destruct (bf_err b) as [err|] eqn:Hbe; [intros; by simplify_eq/=; rewrite Hbe|].
  destruct (_ =? _); [intros; simplify_eq/=; by rewrite Hbe|].
  destruct (file_Write i (bf_buf b) s) as [[n e1] s1] eqn:Hw. apply file_Write_plain in Hw.
  destruct e1; [intros; by simplify_eq/=|]. destruct (_ <? _); intros; by simplify_eq/=.
Qed.

Lemma bufio_spill_plain fuel i p nn b s nn' p' b' s' :
  plain (bf_err b) -> bufio_spill fuel i p nn (b, s) = Some (nn', p', (b', s')) -> plain (bf_err b').
Proof.
  revert p nn b s. induction fuel as [|fuel IH]; intros p nn b s Hb; simpl; destruct (_ && _); try done;
    try (intros; by simplify_eq/=).
  destruct (_ =? _).
  - destruct (file_Write i p s) as [[n e] s1] eqn:Hw. apply file_Write_plain in Hw. by apply IH.
  - destruct (bufio_Flush i _) as [e [b1 s1]] eqn:Hf. apply bufio_Flush_plain in Hf as [_ Hb1]; [|done].
    by apply IH.
Qed.

Lemma bufio_Write_plain i v b s n e b' s' :
  plain (bf_err b) -> bufio_Write i v (b, s) = (n, e, (b', s')) -> plain e /\ plain (bf_err b').
Proof.
  intros Hb. unfold bufio_Write.
  destruct (bufio_spill 2 i v 0 (b, s)) as [[[nn p] [b1 s1]]|] eqn:Hsp; [|intros; by simplify_eq/=].
  apply bufio_spill_plain in Hsp; [|done]. destruct (bf_err b1) as [err|] eqn:He; intros; simplify_eq/=;
    by rewrite ?He.
Qed.

Lemma Flush_plain p i b s e b' s' :
  plain (bf_err b) -> Flush p i (b, s) = (e, (b', s')) -> plain (bf_err b').
Proof.
  intros Hb. unfold Flush. destruct (visit p Before s) as [[err|] s1]; [intros; by simplify_eq/=|].
  destruct (bufio_Flush i (b, s1)) as [e2 [b2 s2]] eqn:Hf. apply bufio_Flush_plain in Hf as [_ Hb2]; [|done].
  destruct e2; [intros; by simplify_eq/=|]. destruct (visit p After s2). intros; by simplify_eq/=.
Qed.

(** A frame write stopped by its own first hook has written nothing. *)
Lemma writeFull_before i point v b s e b' s' :
  plain (bf_err b) -> (forall n b' env s', bufio_Write i v (b, setEnv env s) = (n, None, (b', s')) -> n = len v) ->
  writeFull point (bufio_Write i) v (b, s) = (e, (b', s')) ->
  plain (bf_err b') /\
  forall err, e = Some err -> asHook err = Some (MkEvent point Before) ->
    b' = b /\ exists env, s' = setEnv env s.
Proof.
  intros Hb Hfull. unfold writeFull. destruct v as [|x v]; [intros; by simplify_eq/=|].
  set (value := x :: v) in *.
  assert (len value <> 0) as Hne by (unfold value, len; simpl; lia).
  change (length value) with (S (length v)). cbn [writeFull_loop].
  destruct (Z.eqb_spec (len value) 0) as [|_]; [done|]. unfold Write at 1, visit at 1.
  pose proof (len_nonneg value).
  destruct (env_visit (fs_env s) (MkEvent point Before)) as [[err|] env] eqn:Hv.
  { rewrite (proj2 (Z.ltb_ge (len value) 0)) by lia. simpl. intros; simplify_eq/=. split; [done|]. eauto. }
  destruct (bufio_Write i value (b, setEnv env s)) as [[n e1] [b1 s1]] eqn:Hw.
  pose proof (bufio_Write_plain _ _ _ _ _ _ _ _ Hb Hw) as [Hpe Hpb].
  destruct e1 as [err|].
  { destruct (_ || _); intros; simplify_eq/=; (split; [done|]); intros; simplify_eq/=; congruence. }
  specialize (Hfull _ _ _ _ Hw). subst n.
  destruct (visit point After s1) as [[err|] s2] eqn:Hv2; rewrite Z.ltb_irrefl,
    (proj2 (Z.ltb_ge (len value) 0)) by lia; cbn [orb].
  { intros; simplify_eq/=. split; [done|]. intros err' [= <-]. unfold visit in Hv2.
    destruct (env_visit (fs_env s1) _) as [[err2|] env2]; by simplify_eq/=. }
  destruct (Z.eqb_spec (len value) 0) as [|_]; [done|]. rewrite slice_empty by lia.
  destruct (length v); intros; by simplify_eq/=.
Qed.
End plain.

(** ** The log *)

Section log.
Context {E : Type} `{OSEnv E} {P : PlainOS E}.
Variable reservedEnd : Revision.

Definition walRep (ws : WAL * FSState E) (cs inflight : list CommitFrame) : Prop :=
  (exists i header, wal_inv reservedEnd i header ws cs inflight) /\
  wal_durable ws.1 <= wal_last ws.1 /\ plain (bf_err (wal_buffer ws.1)).

Definition walFits (c : CommitFrame) : Prop := commit_typed c /\ FrRevision c <= reservedEnd.

(** An append whose error denies an application leaves the log's commits alone. *)
Lemma WAL_Append_denied c ws r ws' cs inflight :
  walRep ws cs inflight -> WAL_Append c ws = (r, ws') ->
  plain (bf_err (wal_buffer ws'.1)) /\
  (forall e, r = Some e -> appendErrorMayHaveApplied e = false -> walRep ws' cs inflight).
Proof.
  intros Hrep. pose proof Hrep as ((i & header & Hinv) & Hdl & Hpl). destruct ws as [w s]. simpl in *.
  unfold WAL_Append. destruct (wal_failed w) eqn:Hfail; [intros [= <- <-]; by split|].
  destruct (_ || _); [intros [= <- <-]; by split|].
  pose proof (wi_file _ _ _ _ _ _ Hinv) as Hfile. simpl in Hfile. rewrite Hfile.
  destruct (EncodeCommitFrame c (wal_limits w)) as [encoded|err]; [|intros [= <- <-]; by split].
  destruct (wi_healthy _ _ _ _ _ _ Hinv Hfail) as (Hin & Hstr & Hbuf & Hsize). simpl in *.
  destruct (writeFull _ _ _ _) as [e1 [b s1]] eqn:Hw.
  pose proof (writeFull_before i PointWALFrameWrite encoded _ s e1 b s1 Hpl) as Hbefore.
  destruct Hbefore as [Hplb Hnone]; [|done|].
  { intros n b' env s' Hwr.
    destruct (bufio_Write_spec i (ino_synced (inode i s)) (bf_size (wal_buffer w)) Hsize
      (wal_buffer w, setEnv env s) (ino_data (inode i s) ++ bf_buf (wal_buffer w)) encoded n None (b', s'))
      as (_ & _ & ->); [|done..].
    exists (ino_data (inode i s)). simpl. change (inode i (setEnv env s)) with (inode i s).
    split_and!; try done; [by destruct (inode i s)|apply Hinv]. }
  destruct e1 as [err|]; intros [= <- <-]; (split; [done|]); [|done]. intros e [= <-] Hdeny.
  assert (asHook err = Some (MkEvent PointWALFrameWrite Before)) as Hhook.
  { unfold appendErrorMayHaveApplied, walStorageDegraded in Hdeny. cbn in Hdeny.
    destruct (asHook err) as [[point phase]|]; [|done]. apply negb_false_iff, andb_true_iff in Hdeny as [Hp Hph].
    apply String.eqb_eq in Hp. apply bool_decide_eq_true in Hph. simpl in *. by subst. }
  destruct (Hnone err eq_refl Hhook) as [-> [env ->]]. split; [|done]. exists i, header.
  destruct Hinv. split; simpl in *; try done.
Qed.

Global Instance WAL_CommitLog : CommitLog (WAL * FSState E) := {|
  log_Append c ws := let (e, ws) := WAL_Append c ws in (Returned e, ws);
  log_Barrier ws := let (e, ws) := WAL_Barrier ws in (Returned e, ws);
  log_DurableThrough ws := wal_durable ws.1
|}.

Lemma WAL_Append_durable c ws e ws' : WAL_Append c ws = (e, ws') -> wal_durable ws'.1 = wal_durable ws.1.
Proof. destruct ws as [w s]. unfold WAL_Append. repeat case_match; intros; by simplify_eq. Qed.

Lemma WAL_Barrier_plain ws e ws' :
  plain (bf_err (wal_buffer ws.1)) -> WAL_Barrier ws = (e, ws') -> plain (bf_err (wal_buffer ws'.1)).
Proof.
  destruct ws as [w s]. simpl. intros Hpl. unfold WAL_Barrier. destruct (wal_failed w); [intros [= <- <-]; done|].
  destruct (wal_file w); [|intros [= <- <-]; done].
  destruct (Flush _ _ _) as [e1 [b s1]] eqn:Hf. apply Flush_plain in Hf; [|done].
  destruct e1; [intros [= <- <-]; done|]. destruct (Sync _ _ _) as [[err|] s2]; intros [= <- <-]; done.
Qed.

Lemma WAL_Barrier_durable ws e ws' :
  wal_durable ws.1 <= wal_last ws.1 -> WAL_Barrier ws = (e, ws') -> wal_durable ws.1 <= wal_durable ws'.1.
Proof. destruct ws as [w s]. unfold WAL_Barrier. repeat case_match; intros; simplify_eq/=; lia. Qed.

Global Program Instance WAL_LogSpec : LogSpec (WAL * FSState E) := {|
  log_rep := walRep;
  log_fits := walFits
|}.
Next Obligation.
  intros ws cs fl c o ws' Hrep [Hty Hres] Happ. unfold log_Append, WAL_CommitLog in Happ.
  destruct (WAL_Append c ws) as [e ws1] eqn:Ha. injection Happ as <- <-.
  pose proof (WAL_Append_denied _ _ _ _ _ _ Hrep Ha) as [Hpl Hdeny].
  pose proof Hrep as ((i & header & Hinv) & Hdl & _).
  pose proof (wal_inv_append _ _ _ _ _ _ _ _ _ Hty Hres Hdl Hinv Ha) as [Hdl' He].
  destruct e as [err|].
  - destruct He as (fl' & Hinv' & Hfl). split; [|by apply Hdeny]. exists fl'. split; [|done].
    split_and!; eauto.
  - split; [|split_and!; eauto].
    apply (wi_healthy _ _ _ _ _ _ Hinv). destruct ws as [w s]. unfold WAL_Append in Ha. simpl.
    by destruct (wal_failed w).
Qed.
Next Obligation.
  intros ws cs fl o ws' ((i & header & Hinv) & Hdl & Hpl) Hb. unfold log_Barrier, WAL_CommitLog in Hb.
  destruct (WAL_Barrier ws) as [e ws1] eqn:Ha. injection Hb as <- <-.
  destruct (wal_inv_barrier _ _ _ _ _ _ _ _ Hdl Hinv Ha) as (Hdl' & Hinv' & _).
  split_and!; eauto using WAL_Barrier_plain.
Qed.
Next Obligation.
  intros ws cs fl ws' c ((i & header & Hinv) & Hdl & _) Hb. unfold log_Barrier, WAL_CommitLog in Hb.
  destruct (WAL_Barrier ws) as [e ws1] eqn:Ha. injection Hb as -> <-.
  destruct (wal_inv_barrier _ _ _ _ _ _ _ _ Hdl Hinv Ha) as (_ & _ & Hd). destruct (Hd eq_refl) as [Hd1 _].
  split.
  - apply (wi_healthy _ _ _ _ _ _ Hinv). destruct ws as [w s]. unfold WAL_Barrier in Ha. simpl.
    by destruct (wal_failed w).
  - simpl. by rewrite Hd1, (wi_last _ _ _ _ _ _ Hinv), last_revision_snoc.
Qed.
Next Obligation.
  intros ws cs fl c o ws' _ Happ. unfold log_Append, WAL_CommitLog in Happ.
  destruct (WAL_Append c ws) as [e ws1] eqn:Ha. injection Happ as <- <-.
  simpl. rewrite (WAL_Append_durable _ _ _ _ Ha). done.
Qed.
Next Obligation.
  intros ws cs fl o ws' (_ & Hdl & _) Hb. unfold log_Barrier, WAL_CommitLog in Hb.
  destruct (WAL_Barrier ws) as [e ws1] eqn:Ha. injection Hb as <- <-. by eapply WAL_Barrier_durable.
Qed.
End log.

(** ** The allocator *)

Section allocator.
Context {R : Type} (bound : Revision).

(** The storage behind the allocator reserves no revision above [bound]. *)
Definition reserves_within (reserve : option (ReserveFunc R)) : Prop :=
  forall f s after r s', reserve = Some f -> f s after = (Ok r, s') -> RangeEnd r <= bound.

Definition allocOk (a : RangeAllocator R) : Prop :=
  (exists floor, alloc_inv floor a) /\ ra_end a <= bound /\ reserves_within (ra_reserve a).

Lemma Next_within a res a' :
  allocOk a -> RangeAllocator_Next a = (res, a') -> allocOk a'.
Proof.
  intros ((floor & Hinv) & He & Hr) Hn. pose proof (Next_spec floor a res a' Hinv Hn) as Hspec.
  split; [destruct res; [destruct Hspec as (_ & _ & _ & ?)|]; eauto|].
  unfold RangeAllocator_Next in Hn. destruct (ra_exhausted a); [by simplify_eq|].
  destruct (_ <? _).
  2:{ unfold takeNext in Hn. destruct (_ =? _); by simplify_eq/=. }
  destruct (ra_reserve a) as [f|] eqn:Hf; [|simplify_eq; by rewrite Hf].
  destruct (f _ _) as [[r|e] st] eqn:Hcall; [|by simplify_eq/=].
  pose proof (Hr f _ _ _ _ eq_refl Hcall) as Hend. destruct (validateRange _ _); [by simplify_eq/=|].
  unfold takeNext in Hn. destruct (_ =? _); by simplify_eq/=.
Qed.

Global Program Instance RangeAllocator_Spec : AllocatorSpec (RangeAllocator R) bound := {|
  alloc_ok := allocOk
|}.
Next Obligation.
  intros a Ha. unfold alloc_Next, RangeAllocator_RevisionAllocator.
  destruct (RangeAllocator_Next a) as [res a'] eqn:Hn. by eapply Next_within.
Qed.
Next Obligation.
  intros a rev a' Ha Hn. unfold alloc_Next, RangeAllocator_RevisionAllocator in Hn.
  destruct (RangeAllocator_Next a) as [res a1] eqn:Hnext. injection Hn as -> ->.
  destruct (Next_within _ _ _ Ha Hnext) as (_ & He & _). destruct Ha as ((floor & Hinv) & _ & _).
  pose proof (Next_spec floor a _ _ Hinv Hnext) as (Hlt & _ & Hle & _).
  pose proof (ai_floor _ _ Hinv) as [? _]. lia.
Qed.
End allocator.

(** A frame with a revision in range fits the log. *)
Lemma wal_bound_fits (bound : Revision) c :
  bound <= max_uint64 -> 0 <= FrRevision c <= bound -> walFits bound c.
Proof. intros Hb Hc. split; [split|]; lia. Qed.
