(* ===== verification/DueExpiry.v ===== *)
(** * DueExpiry: the expiry round (internal/engine/expiry.go)

    What the loop of [executeDueExpiries] collects, that the batch it builds is
    always accepted, and that a round preserves the invariant of the engine. *)

From stdpp Require Import base gmap list strings sorting.
From Stdlib Require Import ZArith Lia.
From S2P Require Import Prelude.
From S2P Require Import Bytes.
From S2P Require Import Errors.
From S2P Require Import ApiTypes.
From S2P Require Import Clock.
From S2P Require Import Allocator.
From S2P Require Import StorageErrors.
From S2P Require Import WalCodec.
From S2P Require Import WalScan.
From S2P Require Import OrderedKeys.
From S2P Require Import History.
From S2P Require Import Expiry.
From S2P Require Import Watch.
From S2P Require Import Engine.
From S2P Require Import Writer.
From S2P Require Import Replay.
From S2P Require Import WriterFacts.
From S2P Require Import EngineInv.

Local Open Scope Z_scope.

(** ** The loop *)

(** The record [k] has expired at [t], with this expiry and revision. *)
Definition due_now (records : gmap bytes DBRecord) (t : Time) (k : bytes) (v : Time * Revision) : Prop :=
  exists r, (records !! k : option DBRecord) = Some r /\ RecRevision r = v.2 /\
    RecExpiresAt r = Some v.1 /\ recordExpired r t = true.

Definition cand_value (c : expiryCandidate) : Time * Revision := (cand_at c, cand_revision c).

(** The bytes of the frame that deletes the candidates. *)
Definition due_bytes (due : list expiryCandidate) : Z :=
  foldr (fun c n => 20 + len (cand_key c) + n) 32 due.

Record due_state (limits : Limits) (records : gmap bytes DBRecord) (t : Time) (x : expiries)
    (due : list expiryCandidate) : Prop := {
  du_inv : expiries_inv x;
  du_taken : forall k, k ∈ cand_key <$> due -> scheduled x !! k = None;
  du_nodup : NoDup (cand_key <$> due);
  du_now : Forall (fun c => due_now records t (cand_key c) (cand_value c)) due;
  du_bytes : due = [] \/ due_bytes due <= maximumBytes limits;
  du_count : len due <= MaxBatchOperations limits
}.

(** Why the loop ended: the batch is full, the next deletion does not fit, or
    nothing scheduled is due any more. *)
Definition due_complete (limits : Limits) (t : Time) (x : expiries) (due : list expiryCandidate) : Prop :=
  len due = MaxBatchOperations limits \/
  (exists k v, scheduled x !! k = Some v /\ maximumBytes limits < due_bytes due + 20 + len k) \/
  map_Forall (fun _ v => t < v.1) (scheduled x).

(** Every scheduled expiry is still scheduled, collected, or has passed without
    being that of a record. *)
Definition due_accounted (records : gmap bytes DBRecord) (t : Time) (x x' : expiries)
    (due' : list expiryCandidate) : Prop :=
  map_Forall (fun k v => scheduled x' !! k = Some v \/
    (exists c, c ∈ due' /\ cand_key c = k /\ cand_value c = v) \/ v.1 <= t /\ ~ due_now records t k v)
    (scheduled x).

Lemma due_now_iff records t (c : expiryCandidate) :
  match (records !! cand_key c : option DBRecord) with
  | Some record => (RecRevision record =? cand_revision c)
                   && bool_decide (RecExpiresAt record = Some (cand_at c)) && recordExpired record t
  | None => false
  end = true <-> due_now records t (cand_key c) (cand_value c).
Proof.
  unfold due_now, cand_value. destruct (records !! cand_key c) as [r|]; [|naive_solver].
  rewrite !andb_true_iff, Z.eqb_eq, bool_decide_eq_true. naive_solver.
Qed.

Lemma due_bytes_snoc due c : due_bytes (due ++ [c]) = due_bytes due + (20 + len (cand_key c)).
Proof. induction due as [|d due IH]; cbn -[Z.add]; [lia|]. unfold due_bytes in *. rewrite IH. lia. Qed.

(** The root of the heap is the earliest scheduled expiry. *)
Lemma scheduled_root x k v :
  expiries_inv x -> scheduled x !! k = Some v -> cand_at (candidate x (item_at x 0)) <= v.1.
Proof.
  intros Hinv Hk. rewrite lookup_scheduled in Hk. destruct (ex_byKey x !! k) as [p|] eqn:Hp; [|done].
  simpl in Hk. injection Hk as <-. destruct (index_of x k p Hinv Hp) as (Hlt & Hip & _).
  pose proof (heap_root x _ _ (ei_heap _ Hinv) Hlt) as Hle. unfold vle, value_at, cand_le in Hle.
  rewrite Hip in Hle. apply not_true_iff_false in Hle. rewrite cand_less_spec in Hle. simpl.
  destruct (Z.lt_ge_cases (cand_at (candidate x p)) (cand_at (candidate x (item_at x 0)))); [|done].
  destruct Hle. by left.
Qed.

(** One round: the earliest candidate leaves the schedule. *)
Lemma due_round x root rest :
  expiries_inv x -> ex_items x = root :: rest ->
  let (p, x1) := Pop x in
  let c := candidate x1 p in
  let x2 := if bool_decide (ex_byKey x1 !! cand_key c = Some p)
            then setByKey (delete (cand_key c) (ex_byKey x1)) x1 else x1 in
  expiries_inv x2 /\ scheduled x !! cand_key c = Some (cand_value c) /\
  scheduled x2 = delete (cand_key c) (scheduled x) /\ length (ex_items x2) = length rest /\
  cand_at c = cand_at (candidate x root) /\
  (let y := Push (setByKey (<[cand_key c := p]> (ex_byKey x2)) x2) p in
   expiries_inv y /\ scheduled y = scheduled x).
Proof.
  intros Hinv Hitems. destruct (Pop x) as [p x1] eqn:Hpop.
  destruct (Pop_schedule x p x1 Hinv) as (Hk & Hinv2 & Hs & Hs2 & Hlen & Hni & Hst & Hp & Hat); [by rewrite Hitems|done|].
  intros c x2. assert (x2 = setByKey (delete (cand_key c) (ex_byKey x1)) x1) as Hx2.
  { unfold x2. by rewrite bool_decide_eq_true_2. }
  rewrite Hx2. fold c in Hinv2, Hs, Hs2, Hlen, Hni, Hst.
  destruct (Push_spec _ (cand_key c) p c Hinv2) as [HinvP HsP]; try done.
  { simpl. apply lookup_delete_eq. }
  split_and!; try done.
  - rewrite Hitems in Hlen. simpl in *. lia.
  - etrans; [exact Hat|]. rewrite Hp. unfold item_at. by rewrite Hitems.
  - split; [exact HinvP|]. etrans; [exact HsP|]. rewrite Hs2, insert_delete_eq. by apply insert_id.
Qed.

Lemma due_state_snoc limits records t x due c :
  due_state limits records t x due -> due_now records t (cand_key c) (cand_value c) ->
  cand_key c ∉ cand_key <$> due -> scheduled x !! cand_key c = None -> len due < MaxBatchOperations limits ->
  due_bytes due + (20 + len (cand_key c)) <= maximumBytes limits ->
  due_state limits records t x (due ++ [c]).
Proof.
  intros [Hinv Htk Hnd Hnow _ _] Hc Hni Hsc Hcount Hb. split; try done.
  - intros k. rewrite fmap_app, elem_of_app. intros [Hk|Hk]; [by apply Htk|]. by apply list_elem_of_singleton in Hk as ->.
  - rewrite fmap_app. apply NoDup_app. split_and!; [done| |apply NoDup_singleton].
    intros k Hk ->%list_elem_of_singleton. done.
  - apply Forall_app. by rewrite Forall_singleton.
  - right. by rewrite due_bytes_snoc.
  - unfold len in *. rewrite length_app. simpl. lia.
Qed.

Lemma due_state_expiries limits records t x x' due :
  due_state limits records t x due -> expiries_inv x' -> scheduled x' ⊆ scheduled x ->
  due_state limits records t x' due.
Proof.
  intros [Hinv Htk] Hinv' Hsub. split; try done. intros k Hk. eapply lookup_weaken_None; [by apply Htk|done].
Qed.

(** A candidate that left the schedule is accounted for if it was collected or
    is not due. *)
Lemma due_accounted_step records t x x2 x' due' k v :
  scheduled x !! k = Some v -> scheduled x2 = delete k (scheduled x) ->
  (exists c, c ∈ due' /\ cand_key c = k /\ cand_value c = v) \/ v.1 <= t /\ ~ due_now records t k v ->
  due_accounted records t x2 x' due' -> due_accounted records t x x' due'.
Proof.
  intros Hk Hs2 Hacc Hrest k' v' Hk'. destruct (decide (k' = k)) as [->|Hne].
  - rewrite Hk in Hk'. injection Hk' as <-. by right.
  - apply (Hrest k' v'). by rewrite Hs2, lookup_delete_ne.
Qed.

Lemma due_loop_spec fuel limits records t x due x' due' :
  (length (ex_items x) <= fuel)%nat -> due_state limits records t x due ->
  due_loop fuel limits records t x due (list_to_set (cand_key <$> due)) (due_bytes due) = (x', due') ->
  due_state limits records t x' due' /\ scheduled x' ⊆ scheduled x /\ (forall c, c ∈ due -> c ∈ due') /\
  due_accounted records t x x' due' /\ due_complete limits t x' due'.
Proof.
  revert x due. induction fuel as [|fuel IH]; intros x due Hfuel Hst.
  all: destruct (ex_items x) as [|root rest] eqn:Hitems; [|simpl in Hfuel].
  1,3: cbn [due_loop]; rewrite ?Hitems; intros [= <- <-]; split_and!; try done; [by left|].
  1,2: right; right; intros k v Hk; rewrite lookup_scheduled in Hk;
    destruct (ex_byKey x !! k) as [p|] eqn:Hp; [|done];
    destruct (index_of x k p (du_inv _ _ _ _ _ Hst) Hp) as (Hlt & _); rewrite Hitems in Hlt; simpl in Hlt; lia.
  { lia. }
  cbn [due_loop]. rewrite Hitems. destruct (_ && _) eqn:Hgo; [|intros [= <- <-]].
  2:{ split_and!; try done; [by left|]. apply andb_false_iff in Hgo as [Hfull|Hroot].
      - left. apply Z.ltb_ge in Hfull. pose proof (du_count _ _ _ _ _ Hst). lia.
      - right; right. intros k v Hk. apply (scheduled_root x k v (du_inv _ _ _ _ _ Hst)) in Hk.
        unfold item_at in Hk. rewrite Hitems in Hk. simpl in Hk.
        apply negb_false_iff in Hroot. unfold time_After in Hroot. lia. }
  pose proof (due_round x root rest (du_inv _ _ _ _ _ Hst) Hitems) as Hround.
  destruct (Pop x) as [p x1]. cbv zeta in Hround |- *. set (c := candidate x1 p) in *.
  set (x2 := if bool_decide _ then _ else _) in *.
  destruct Hround as (Hinv2 & Hk & Hs2 & Hlen & Hat & HinvP & HsP).
  apply andb_true_iff in Hgo as [Hcount Hpast]. apply Z.ltb_lt in Hcount.
  apply negb_true_iff, Z.ltb_ge in Hpast.
  assert (scheduled x2 ⊆ scheduled x) as Hsub by (rewrite Hs2; apply delete_subseteq).
  assert (due_state limits records t x2 due) as Hst2 by (by eapply due_state_expiries).
  pose proof (due_now_iff records t c) as Hiff. destruct (match _ with Some _ => _ | None => _ end).
  2:{ simpl. intros Hl. destruct (IH x2 due ltac:(lia) Hst2 Hl) as (H1 & H2 & H3 & H4 & H5).
      split_and!; try done; [by etrans|]. eapply due_accounted_step; try done. right.
      split; [simpl; lia|]. by rewrite <- Hiff. }
  cbn [negb]. case_bool_decide as Hseen.
  { intros Hl. destruct (IH x2 due ltac:(lia) Hst2 Hl) as (H1 & H2 & H3 & H4 & H5).
    split_and!; try done; [by etrans|]. eapply due_accounted_step; try done. left.
    rewrite elem_of_list_to_set in Hseen. apply list_elem_of_fmap in Hseen as (c' & Hck & Hc').
    exists c'. split_and!; [by apply H3|done|].
    pose proof (du_now _ _ _ _ _ Hst) as Hnow. rewrite Forall_forall in Hnow.
    destruct (Hnow c' Hc') as (r & Hr & Hrr & Hre & _). destruct (proj1 Hiff eq_refl) as (r' & Hr' & Hrr' & Hre' & _).
    rewrite Hck, Hr in Hr'. injection Hr' as <-. destruct (cand_value c'), (cand_value c). simpl in *. congruence. }
  fold (maximumBytes limits). rewrite elem_of_list_to_set in Hseen.
  destruct (Z.ltb_spec (maximumBytes limits) (due_bytes due + (20 + len (cand_key c)))) as [Hbig|Hfit].
  { intros [= <- <-]. split_and!; [apply (due_state_expiries _ _ _ x); [done..|by rewrite HsP]|by rewrite HsP|done|intros k v; rewrite HsP; by left|].
    right; left. exists (cand_key c), (cand_value c). rewrite HsP. split; [done|lia]. }
  rewrite <- due_bytes_snoc. intros Hl.
  replace ({[cand_key c]} ∪ list_to_set (cand_key <$> due) : gset bytes)
    with (list_to_set (cand_key <$> due ++ [c]) : gset bytes) in Hl.
  2:{ rewrite fmap_app, list_to_set_app_L. simpl. set_solver. }
  destruct (IH x2 (due ++ [c]) ltac:(lia)) as (H1 & H2 & H3 & H4 & H5); [|done|].
  { apply due_state_snoc; try done; [by apply Hiff|]. rewrite Hs2. apply lookup_delete_eq. }
  split_and!; try done; [by etrans|intros d Hd; apply H3, elem_of_app; by left|].
  eapply due_accounted_step; try done. left. exists c. split_and!; [|done..]. apply H3, elem_of_app. right.
  by apply list_elem_of_singleton.
Qed.

(** ** The batch of an expiry round *)

Lemma due_bytes_perm l k : l ≡ₚ k -> due_bytes l = due_bytes k.
Proof.
  induction 1 as [|c l k _ IH|c d l|l k m _ IH1 _ IH2]; unfold due_bytes in *; cbn [foldr]; lia.
Qed.

Lemma deletes_bytes l :
  batchBaseBytes + mutations_bytes ((fun c => NewDeleteMutation (cand_key c) (cand_revision c)) <$> l)
  = due_bytes l.
Proof.
  induction l as [|c l IH]; [done|]. rewrite fmap_cons. unfold due_bytes, mutations_bytes in *.
  cbn [foldr MutKey MutValue NewDeleteMutation]. unfold value_len, batchOperationBytes in *. simpl.
  change (len (@nil byte)) with 0. lia.
Qed.

Lemma expiryBatch_elem due m :
  m ∈ BatchMutations (expiryBatch due) <->
  exists c, c ∈ due /\ m = NewDeleteMutation (cand_key c) (cand_revision c).
Proof.
  unfold expiryBatch. cbn [BatchMutations]. rewrite list_elem_of_fmap.
  split; intros (c & Hc1 & Hc2); exists c.
  - by rewrite (merge_sort_Permutation cand_key_le due) in Hc2.
  - by rewrite (merge_sort_Permutation cand_key_le due).
Qed.

Lemma expiryBatch_keys due : MutKey <$> BatchMutations (expiryBatch due) ≡ₚ cand_key <$> due.
Proof.
  unfold expiryBatch. cbn [BatchMutations].
  rewrite <- list_fmap_compose, (merge_sort_Permutation cand_key_le due). done.
Qed.

Lemma expiryBatch_wf limits current records t x due :
  limits_ok limits -> map_Forall (record_ok limits current) records ->
  due_state limits records t x due -> due <> [] ->
  batch_wf limits (expiryBatch due) /\ Forall (fun m => MutExpiresAt m = None) (BatchMutations (expiryBatch due)).
Proof.
  intros Hl Hrec [_ _ Hnd Hnow Hb Hc] Hne. rewrite Forall_forall in Hnow.
  assert (length (BatchMutations (expiryBatch due)) = length due) as Hlen.
  { unfold expiryBatch. cbn [BatchMutations]. rewrite length_fmap.
    by rewrite (merge_sort_Permutation cand_key_le due). }
  split; [split|].
  - done.
  - intros Hn. rewrite Hn in Hlen. by destruct due.
  - unfold len in *. rewrite Hlen. done.
  - unfold batch_keys. by rewrite expiryBatch_keys.
  - constructor.
  - apply Forall_forall. intros m (c & Hin & ->)%expiryBatch_elem.
    destruct (Hnow c Hin) as (r & Hr & Hrr & _). destruct (Hrec _ _ Hr) as (_ & Hkw & Hrev & _).
    split_and!; [done| |done]. unfold condition_wf. simpl in *. lia.
  - destruct Hb as [->|Hb]; [done|].
    change (batchBaseBytes + 0 + mutations_bytes (BatchMutations (expiryBatch due)) <= MaxBatchBytes limits).
    rewrite Z.add_0_r. unfold expiryBatch. cbn [BatchMutations]. rewrite deletes_bytes.
    rewrite (due_bytes_perm _ due) by apply merge_sort_Permutation. unfold maximumBytes in Hb. lia.
  - apply Forall_forall. by intros m (c & _ & ->)%expiryBatch_elem.
Qed.

(** The conditions of an expiry round hold: its candidates are current. *)
Lemma expiry_conditions records t t' current l i :
  (forall m, m ∈ l -> exists c, due_now records t (cand_key c) (cand_value c) /\
     m = NewDeleteMutation (cand_key c) (cand_revision c)) ->
  conditionsError records t' current operationExpiry l i = None.
Proof.
  revert i. induction l as [|m l IH]; intros i Hl; [done|]. cbn [conditionsError].
  destruct (Hl m) as (c & (r & Hr & Hrr & _) & ->); [apply elem_of_cons; by left|].
  unfold lookup_live. cbn [MutKey NewDeleteMutation]. rewrite Hr. unfold conditionError.
  cbn [MutCondition NewDeleteMutation CondKind CondExpected]. simpl in Hrr. rewrite Hrr, Z.eqb_refl. simpl.
  apply IH. intros m Hm. apply Hl, elem_of_cons. by right.
Qed.

(** ** The round *)

Section engine.
Context {C A L F : Type} `{Clock C, !RevisionAllocator A, !CommitLog L, !Faults F}.
Context {LS : LogSpec L} {bound : Revision} {AS : AllocatorSpec A bound}.
Hypothesis bound_fits : forall c, 0 <= FrRevision c <= bound -> log_fits c.
Implicit Types st : DatabaseState C A L F.

(** Every expiry is scheduled. *)
Definition schedule_complete st : Prop := scheduled (st_expiries st) = expiring (st_records st).

(** What a round collects, and the state it leaves to [execute]. *)
Definition collected st (due : list expiryCandidate) (st1 : DatabaseState C A L F) : Prop :=
  let (t, c) := Nondecreasing_Now (st_clock st) in
  exists x, st1 = set_expiries x (set_clock c st) /\
    due_state (st_limits st) (st_records st) t x due /\ scheduled x ⊆ scheduled (st_expiries st) /\
    due_accounted (st_records st) t (st_expiries st) x due /\ due_complete (st_limits st) t x due.

(** A round without candidates changes nothing else; one with candidates is the
    execution of their batch. *)
Lemma executeDueExpiries_collects st :
  core_inv st ->
  exists due st1, collected st due st1 /\
    executeDueExpiries (st, false) =
      (if len due =? 0 then exec_ret zeroCommitResult else execute (expiryBatch due) operationExpiry) (st1, false).
Proof.
  intros Hcore. unfold executeDueExpiries, exec_bind at 1, now, collected. cbn [fst snd].
  destruct (Nondecreasing_Now (st_clock st)) as [t c]. unfold exec_bind at 1, get. cbn [fst snd].
  change (st_expiries (set_clock c st)) with (st_expiries st).
  change (st_limits (set_clock c st)) with (st_limits st).
  change (st_records (set_clock c st)) with (st_records st).
  destruct (due_loop _ _ _ _ _ _ _ _) as [x due] eqn:Hloop.
  destruct (due_loop_spec (length (ex_items (st_expiries st))) (st_limits st) (st_records st) t
    (st_expiries st) [] x due) as (H1 & H2 & _ & H4 & H5); [done| |exact Hloop|].
  { split; [apply Hcore|by intros k ?%elem_of_nil|constructor|constructor|by left|].
    destruct (limits_ok_fields _ (ci_limits _ Hcore)) as [(_ & _ & _ & _ & ?) _]. change (len (@nil expiryCandidate)) with 0. lia. }
  exists due, (set_expiries x (set_clock c st)). split; [eauto 10|]. unfold exec_bind, modify. cbn [fst snd].
  by destruct (len due =? 0).
Qed.

Lemma engine_inv_collected snap base cs fl st due st1 :
  engine_inv snap base cs fl st -> collected st due st1 -> engine_inv snap base cs fl st1.
Proof.
  unfold collected. destruct (Nondecreasing_Now _) as [t c].
  intros [[] ? ? ? ? ? ? ? ?] (x & -> & [] & Hsub & _). split; try done. split; try done.
  intros Hh. simpl. etrans; [exact Hsub|auto].
Qed.

Lemma collected_wf st due st1 :
  core_inv st -> collected st due st1 -> due <> [] ->
  batch_wf (st_limits st) (expiryBatch due) /\ batch_fits_int (expiryBatch due).
Proof.
  intros Hcore Hcol Hne. unfold collected in Hcol. destruct (Nondecreasing_Now _) as [t c].
  destruct Hcol as (x & -> & Hst & _).
  destruct (expiryBatch_wf _ _ _ _ _ _ (ci_limits _ Hcore) (ci_records _ Hcore) Hst Hne) as [Hwf _].
  split; [done|]. unfold batch_fits_int. pose proof (bwf_count _ _ Hwf).
  destruct (limits_ok_fields _ (ci_limits _ Hcore)) as [(_ & _ & _ & _ & ?) _]. lia.
Qed.

(** The batch of a round passes every check of [execute]. *)
Lemma expiryBatch_accepted st due st1 :
  core_inv st -> healthy st -> collected st due st1 -> due <> [] ->
  accepted (expiryBatch due) operationExpiry st1.
Proof.
  intros Hcore Hh Hcol Hne. destruct (collected_wf _ _ _ Hcore Hcol Hne) as [Hwf Hfit]. unfold collected in Hcol. destruct (Nondecreasing_Now _) as [t c].
  destruct Hcol as (x & -> & Hst & _).
  destruct (expiryBatch_wf _ _ _ _ _ _ (ci_limits _ Hcore) (ci_records _ Hcore) Hst Hne) as [_ Hexp].
  split; [done|]. split; [|split; [done|]].
  - apply validateBatchAt_accepts; [apply Hcore|done..|]. eapply Forall_impl; [exact Hexp|].
    intros m Hm. unfold expiry_ok. by rewrite Hm.
  - apply (expiry_conditions _ t). intros m (d & Hd & ->)%expiryBatch_elem. exists d. split; [|done].
    pose proof (du_now _ _ _ _ _ Hst) as Hnow. rewrite Forall_forall in Hnow. by apply Hnow.
Qed.

(** A round preserves the invariant; its outcome is that of its batch. *)
Lemma executeDueExpiriesSafely_leaves snap base cs fl st r st' :
  engine_inv snap base cs fl st -> len (ks_keys (st_orderedKeys st)) < 2 ^ 63 ->
  executeDueExpiriesSafely st = (r, st') ->
  exists due st1, collected st due st1 /\
    (due = [] /\ r = Some (Ok zeroCommitResult) /\ st' = st1 /\ engine_inv snap base cs fl st' \/
     due <> [] /\ leaves (bound := bound) snap base cs fl st1 (expiryBatch due) operationExpiry r st').
Proof.
  intros Hinv Hroom. destruct (executeDueExpiries_collects st (en_core _ _ _ _ _ Hinv)) as (due & st1 & Hcol & Heq).
  pose proof (engine_inv_collected _ _ _ _ _ _ _ Hinv Hcol) as Hinv1.
  unfold executeDueExpiriesSafely. rewrite Heq. intros Hr. exists due, st1. split; [done|].
  destruct due as [|d due]; [left; injection Hr as <- <-; done|right]. split; [done|].
  replace (len (d :: due) =? 0) with false in Hr.
  2:{ symmetry. apply Z.eqb_neq. unfold len. simpl. lia. }
  assert (fits (expiryBatch (d :: due)) st1) as Hfits.
  { split; [by apply (collected_wf st _ st1); [apply Hinv|..]|].
    unfold collected in Hcol. destruct (Nondecreasing_Now (st_clock st)). by destruct Hcol as (x & -> & _). }
  pose proof (execute_leaves bound_fits snap base cs fl st1 _ operationExpiry Hinv1 Hfits (fun applied v =>
    internalFailure "engine-expiry-panic" applied None) ltac:(done)) as Hex.
  destruct (execute (expiryBatch (d :: due)) operationExpiry (st1, false)) as [[r0|v|] s]; [..|done];
    by injection Hr as <- <-.
Qed.

(** ** Completeness of the schedule *)

Lemma expiring_lookup (records : gmap bytes DBRecord) k v :
  expiring records !! k = Some v <->
  exists r, records !! k = Some r /\ RecExpiresAt r = Some v.1 /\ RecRevision r = v.2.
Proof.
  unfold expiring. rewrite lookup_omap. destruct (records !! k) as [r|]; simpl; [|naive_solver].
  destruct (RecExpiresAt r) as [e|] eqn:He; simpl; [|naive_solver]. destruct v as [e' rev]. naive_solver.
Qed.

Lemma expiring_due (records : gmap bytes DBRecord) t k v :
  expiring records !! k = Some v -> v.1 <= t <-> due_now records t k v.
Proof.
  intros (r & Hr & He & Hrev)%expiring_lookup. unfold due_now, recordExpired, IsExpired, time_Before. split.
  - intros Hle. exists r. rewrite He. split_and!; try done. apply negb_true_iff, Z.ltb_ge. done.
  - intros (r' & Hr' & _ & _ & Hx). simplify_eq. rewrite He in Hx. apply negb_true_iff, Z.ltb_ge in Hx. done.
Qed.

(** Outside the collected keys a complete schedule stays complete. *)
Lemma collected_complete st due st1 k :
  schedule_complete st -> collected st due st1 -> k ∉ cand_key <$> due ->
  scheduled (st_expiries st1) !! k = expiring (st_records st) !! k.
Proof.
  unfold schedule_complete, collected. intros Hs Hcol Hk. destruct (Nondecreasing_Now _) as [t c].
  destruct Hcol as (x & -> & _ & Hsub & Hacc & _). rewrite Hs in *. simpl.
  destruct (expiring (st_records st) !! k) as [v|] eqn:Hv.
  - rewrite <- Hs in Hv. destruct (Hacc k v Hv) as [?|[(d & Hd & <- & _)|[Hle Hn]]]; [done| |].
    + destruct Hk. by apply list_elem_of_fmap_2.
    + destruct Hn. rewrite Hs in Hv. by apply (expiring_due _ _ _ _ Hv).
  - destruct (scheduled x !! k) eqn:Hx; [|done]. rewrite map_subseteq_spec in Hsub.
    apply Hsub in Hx. congruence.
Qed.

Lemma expiry_effect_keys revision due k :
  k ∈ effect_keys (frameOf revision (expiryBatch due) operationExpiry) <-> k ∈ cand_key <$> due.
Proof. by rewrite frameOf_keys, expiryBatch_keys. Qed.

(** The commit of a round deletes exactly the collected keys. *)
Lemma expiry_records (records : gmap bytes DBRecord) revision due k :
  NoDup (cand_key <$> due) ->
  replayCommit records (frameOf revision (expiryBatch due) operationExpiry) !! k =
    if decide (k ∈ cand_key <$> due) then None else records !! k.
Proof.
  intros Hnd. destruct (decide _) as [Hin|Hin].
  - apply list_elem_of_fmap in Hin as (c & -> & Hc).
    set (m := NewDeleteMutation (cand_key c) (cand_revision c)).
    change (cand_key c) with (EffKey (effectFor m operationExpiry)). rewrite replayCommit_at; [done|..|done].
    + by rewrite frameOf_keys, expiryBatch_keys.
    + apply list_elem_of_fmap. exists m. split; [done|]. apply expiryBatch_elem. eauto.
  - apply replayCommit_other. by rewrite expiry_effect_keys.
Qed.

Lemma schedule_committed st due st1 revision :
  schedule_complete st -> core_inv st -> collected st due st1 ->
  scheduled (scheduleEvents (batch_events (expiryBatch due) operationExpiry revision st1) (st_expiries st1)) ⊆
    expiring (replayCommit (st_records st1) (frameOf revision (expiryBatch due) operationExpiry)) ->
  scheduled (scheduleEvents (batch_events (expiryBatch due) operationExpiry revision st1) (st_expiries st1)) =
    expiring (replayCommit (st_records st1) (frameOf revision (expiryBatch due) operationExpiry)).
Proof.
  intros Hs Hcore Hcol Hsub. set (agree := fun m n : gmap bytes (Time * Revision) =>
    forall k, k ∉ cand_key <$> due -> m !! k = n !! k).
  assert (expiries_inv (st_expiries st1) /\ st_records st1 = st_records st /\ NoDup (cand_key <$> due)) as (Hinv & Hrec & Hnd).
  { unfold collected in Hcol. destruct (Nondecreasing_Now _). by destruct Hcol as (x & -> & [] & _). }
  pose proof (schedule_install agree revision 0 (BatchMutations (expiryBatch due)) operationExpiry
    (st_records st1) (st_expiries st1)) as Hi.
  pose proof (apply_replay revision 0 (BatchMutations (expiryBatch due)) operationExpiry (st_records st1)) as Hrep.
  fold (frameOf revision (expiryBatch due) operationExpiry) in Hrep.
  unfold batch_events in *. destruct (apply_loop _ _ _ _ _) as [events records']. simpl in Hrep, Hsub |- *.
  rewrite <- Hrep in *. destruct Hi as [_ Hagree]; [..|].
  - intros k v m n Hmn k' Hk'. destruct (decide (k = k')) as [<-|]; [by rewrite !lookup_insert_eq|].
    rewrite !lookup_insert_ne by done. by apply Hmn.
  - intros k m n Hmn k' Hk'. destruct (decide (k = k')) as [<-|]; [by rewrite !lookup_delete_eq|].
    rewrite !lookup_delete_ne by done. by apply Hmn.
  - done.
  - intros k Hk. rewrite Hrec. by eapply collected_complete.
  - apply map_eq. intros k. destruct (decide (k ∈ cand_key <$> due)) as [Hk|Hk]; [|by apply Hagree].
    assert (expiring records' !! k = None) as Hnone.
    { unfold expiring. rewrite lookup_omap, Hrep, expiry_records by done. by rewrite decide_True. }
    rewrite Hnone. destruct (scheduled _ !! k) eqn:Hx; [|done].
    rewrite map_subseteq_spec in Hsub. apply Hsub in Hx. congruence.
Qed.

(** What a successful round has done, for the collected candidates. *)
Lemma expiry_round_records snap base cs fl st res st' :
  engine_inv (bound := bound) snap base cs fl st -> healthy st -> schedule_complete st ->
  len (ks_keys (st_orderedKeys st)) < 2 ^ 63 ->
  executeDueExpiriesSafely st = (Some (Ok res), st') ->
  exists due st1, collected st due st1 /\ schedule_complete st' /\
    (forall k, st_records st' !! k = if decide (k ∈ cand_key <$> due) then None else st_records st !! k).
Proof.
  intros Hinv Hh Hs Hroom Hex.
  destruct (executeDueExpiriesSafely_leaves _ _ _ _ _ _ _ Hinv Hroom Hex) as (due & st1 & Hcol & Hcase).
  exists due, st1. split; [done|].
  assert (st_records st1 = st_records st /\ st_lifecycle st1 = st_lifecycle st /\ NoDup (cand_key <$> due))
    as (Hrec & Hlife & Hnd).
  { unfold collected in Hcol. destruct (Nondecreasing_Now _). by destruct Hcol as (x & -> & [] & _). }
  destruct Hcase as [(-> & _ & -> & _)|[Hne (cs' & fl' & Hinv' & _ & Hout)]].
  - split; [|intros k; rewrite decide_False; [by rewrite Hrec|apply not_elem_of_nil]]. unfold schedule_complete.
    apply map_eq. intros k. rewrite Hrec. eapply collected_complete; [done..|]. apply not_elem_of_nil.
  - destruct Hout as (revision & d & _ & _ & _ & _ & _ & _ & _ & Hl' & Hrec' & _ & _ & _ & Hx').
    assert (healthy st') as Hh' by (unfold healthy; rewrite Hl', Hlife; done).
    pose proof (ci_scheduled _ (en_core _ _ _ _ _ Hinv') Hh') as Hsub. rewrite Hx', Hrec' in Hsub. split.
    + unfold schedule_complete. rewrite Hx', Hrec'. eapply schedule_committed; try done. apply Hinv.
    + intros k. by rewrite Hrec', expiry_records, Hrec.
Qed.

(** The keys a round may delete: the bytes of their frame. *)
Definition keys_bytes (l : list bytes) : Z := foldr (fun k n => 20 + len k + n) 32 l.

Lemma due_keys_bytes due : due_bytes due = keys_bytes (cand_key <$> due).
Proof. induction due as [|c due IH]; [done|]. unfold due_bytes, keys_bytes in *. simpl. by rewrite IH. Qed.

(** C6: An expiry round deletes expired records only, and makes progress.  In a
    healthy database whose expiries are all scheduled, a round that succeeds
    deletes exactly a set of keys whose records had expired by its reading of
    the clock; every other record is untouched; if some record had expired,
    the set is not empty; and the round leaves no expired record unless it
    reached the operation limit or the next deletion would exceed the byte
    limit of a batch.  All remaining expiries are scheduled. *)
Theorem expiry_round_exact snap base cs fl st res st' :
  engine_inv (bound := bound) snap base cs fl st -> healthy st -> schedule_complete st ->
  len (ks_keys (st_orderedKeys st)) < 2 ^ 63 ->
  executeDueExpiriesSafely st = (Some (Ok res), st') ->
  let t := (Nondecreasing_Now (st_clock st)).1 in
  exists removed : list bytes, NoDup removed /\
    (forall k, st_records st' !! k = if decide (k ∈ removed) then None else st_records st !! k) /\
    (forall k, k ∈ removed -> exists r, st_records st !! k = Some r /\ recordExpired r t = true) /\
    ((exists k r, st_records st !! k = Some r /\ recordExpired r t = true) -> removed <> []) /\
    (len removed = MaxBatchOperations (st_limits st) \/
     (exists k, is_Some (st_records st' !! k) /\ maximumBytes (st_limits st) < keys_bytes removed + 20 + len k) \/
     forall k r, st_records st' !! k = Some r -> recordExpired r t = false) /\
    schedule_complete st'.
Proof.
  intros Hinv Hh Hs Hroom Hex t.
  destruct (expiry_round_records _ _ _ _ _ _ _ Hinv Hh Hs Hroom Hex) as (due & st1 & Hcol & Hs' & Hrec).
  exists (cand_key <$> due). pose proof Hcol as Hcol'. unfold collected in Hcol'.
  destruct (Nondecreasing_Now (st_clock st)) as [t' c]. simpl in t. subst t.
  destruct Hcol' as (x & Hx & [_ Htk Hnd Hnow _ Hcount] & Hsub & _ & Hend). rewrite Forall_forall in Hnow.
  assert (forall k v, scheduled x !! k = Some v -> expiring (st_records st) !! k = Some v) as Hsub'.
  { intros k v Hv. rewrite map_subseteq_spec in Hsub. rewrite <- Hs. by apply Hsub. }
  assert (forall k r, st_records st !! k = Some r -> recordExpired r t' = true -> k ∉ cand_key <$> due ->
    exists v, scheduled x !! k = Some v /\ v.1 <= t') as Hleft.
  { intros k r Hr He Hk. pose proof (collected_complete _ _ _ k Hs Hcol Hk) as Hsame. rewrite Hx in Hsame. simpl in Hsame.
    unfold recordExpired in He. destruct (RecExpiresAt r) as [e|] eqn:Hre; [|done].
    assert (expiring (st_records st) !! k = Some (e, RecRevision r)) as Hv by (apply expiring_lookup; eauto).
    exists (e, RecRevision r). rewrite Hsame. split; [done|]. unfold IsExpired, time_Before in He.
    by apply negb_true_iff, Z.ltb_ge in He. }
  split_and!; try done.
  - intros k (d & -> & Hd)%list_elem_of_fmap. destruct (Hnow d Hd) as (r & Hr & _ & _ & He). eauto.
  - intros (k & r & Hr & He) Hnil. assert (due = []) as -> by (by destruct due).
    destruct (Hleft k r Hr He (not_elem_of_nil k)) as (v & Hv & Hle).
    destruct Hend as [Hfull|[(k' & v' & Hv' & Hbig)|Hdone]].
    + destruct (limits_ok_fields _ (ci_limits _ (en_core _ _ _ _ _ Hinv))) as [(_ & _ & _ & _ & ?) _].
      change (len (@nil expiryCandidate)) with 0 in Hfull. lia.
    + apply Hsub', expiring_lookup in Hv' as (r' & Hr' & He' & _).
      destruct (ci_records _ (en_core _ _ _ _ _ Hinv) k' r' Hr') as (_ & _ & _ & _ & Hb). rewrite He' in Hb.
      simpl in Hbig. lia.
    + specialize (Hdone k v Hv). simpl in Hdone. lia.
  - destruct Hend as [Hfull|[(k' & v' & Hv' & Hbig)|Hdone]].
    + left. unfold len in *. by rewrite length_fmap.
    + right; left. exists k'. rewrite <- due_keys_bytes. split; [|done]. rewrite Hrec, decide_False.
      * apply Hsub', expiring_lookup in Hv' as (r' & Hr' & _). eauto.
      * intros Hk'%Htk. congruence.
    + right; right. intros k r. rewrite Hrec. destruct (decide _) as [|Hk]; [done|]. intros Hr.
      destruct (recordExpired r t') eqn:He; [|done]. destruct (Hleft k r Hr He Hk) as (v & Hv & Hle).
      specialize (Hdone k v Hv). simpl in Hdone. lia.
Qed.
End engine.
