(* ===== verification/EngineRun.v ===== *)
(** * EngineRun: every interleaving of callers, writer and watches

    [owner_step] is one step of a running database: an admission, a case of
    the writer's select, a close, a read of the clock, or a step of a watch.
    The invariant of the engine holds in every reachable state, for the trace
    of all commits since the start; no admission sends on the closed queue;
    and every admitted command is waiting or has exactly one reply. *)

From stdpp Require Import base gmap list strings sorting.
From Stdlib Require Import ZArith Lia.
From S2P Require Import Prelude.
From S2P Require Import Bytes.
From S2P Require Import Errors.
From S2P Require Import ApiTypes.
From S2P Require Import Clock.
From S2P Require Import Allocator.
From S2P Require Import StorageErrors.
From S2P Require Import WalCodec.
From S2P Require Import WalScan.
From S2P Require Import OrderedKeys.
From S2P Require Import History.
From S2P Require Import Expiry.
From S2P Require Import Watch.
From S2P Require Import Engine.
From S2P Require Import Writer.
From S2P Require Import Commands.
From S2P Require Import Replay.
From S2P Require Import WriterFacts.
From S2P Require Import EngineInv.
From S2P Require Import DueExpiry.

Local Open Scope Z_scope.

Section run.
Context {C A L F : Type} `{Clock C, !RevisionAllocator A, !CommitLog L, !Faults F}.
Context {LS : LogSpec L} {bound : Revision} {AS : AllocatorSpec A bound}.
Hypothesis bound_fits : forall c, 0 <= FrRevision c <= bound -> log_fits c.
Abbreviation state := (DatabaseState C A L F).
Implicit Types st : state.
Implicit Types o : owner C A L F.
Abbreviation engine_inv := (engine_inv (bound := bound)).

(** ** What callers hand to the writer *)

(** An installer leaves the current log as it is; the log it returns, if its
    durability evidence is that of the cut, holds no commits yet. *)
Definition installer_ok (installer : SnapshotInstaller L) : Prop :=
  forall cut l cs fl r l', log_rep l cs fl -> installer cut l = (r, l') ->
    log_rep l' cs fl /\ log_DurableThrough l <= log_DurableThrough l' /\
    forall next, r = Returned (Ok (Some next)) -> log_DurableThrough next = CutRevision cut -> log_rep next [] [].

Definition admin_ok (operation : DurableAdminOperation L) : Prop :=
  forall cut l cs fl r l', log_rep l cs fl -> operation cut l = (r, l') ->
    log_rep l' cs fl /\ log_DurableThrough l <= log_DurableThrough l'.

Definition command_ok (c : command L) : Prop :=
  match c with
  | commandMutation batch _ => batch_fits_int batch
  | commandSnapshot installer => installer_ok installer
  | commandDurableAdmin operation => admin_ok operation
  | _ => True
  end.

(** ** Snapshots and administration keep the invariant *)

(** A change of the log alone. *)
Lemma engine_inv_log snap base cs fl st l :
  engine_inv snap base cs fl st -> log_rep l cs fl -> engine_inv snap base cs fl (set_log l st).
Proof. intros [[] ? ? ? ? ? ? ? ?] ?. by split. Qed.

Lemma engine_inv_clock snap base cs fl st c :
  engine_inv snap base cs fl st -> engine_inv snap base cs fl (set_clock c st).
Proof. intros [[] ? ? ? ? ? ? ? ?]. by split. Qed.

Lemma engine_inv_timer snap base cs fl st t :
  engine_inv snap base cs fl st -> engine_inv snap base cs fl (set_timer t st).
Proof. intros [[] ? ? ? ? ? ? ? ?]. by split. Qed.

Lemma engine_inv_resetTimer snap base cs fl st :
  engine_inv snap base cs fl st -> engine_inv snap base cs fl (resetExpiryTimer st).
Proof.
  intros Hinv. unfold resetExpiryTimer. destruct (ex_items (st_expiries st)); [by apply engine_inv_timer|].
  destruct (Nondecreasing_Now _). by apply engine_inv_timer, engine_inv_clock.
Qed.

Lemma engine_inv_durable snap base cs fl st d :
  engine_inv snap base cs fl st -> (healthy st -> d <= st_current st) ->
  engine_inv snap base cs fl (set_durableThrough d st).
Proof. intros [[] ? ? ? ? ? ? ? ?] ?. by split. Qed.

Lemma engine_inv_degrade snap base cs fl st :
  engine_inv snap base cs fl st -> engine_inv snap base cs fl (degrade st).
Proof.
  intros [Hc Hl Ha Ho (seen & Hr & Hcur & Hs) _ Hrg _ Hsn].
  apply (engine_inv_degraded _ _ _ _ seen); try done. destruct Hs as [?|[? _]]; eauto.
Qed.

(** Behind a barrier that proves the current revision durable, the records are
    those of all commits in the log. *)
Lemma barrier_view snap base cs fl st l :
  engine_inv snap base cs fl st -> log_Barrier (st_log st) = (Returned None, l) ->
  log_DurableThrough l = st_current st ->
  st_records st = replay snap cs /\ st_current st = last_revision base cs.
Proof.
  intros Hinv Hb Hd. pose proof Hinv as [_ Hl _ Ho (seen & Hr & Hc & Hs) _ _ _ _].
  destruct Hs as [->|[[c ->] _]]; [done|]. destruct (log_barrier_exact _ _ _ _ _ Hl Hb) as [_ Hdc].
  apply revisions_from_app in Ho as [_ Ho]. simpl in Ho. lia.
Qed.

(** What a command other than a commit leaves. *)
Definition keeps (snap : gmap bytes DBRecord) (base : Revision) (cs fl : list CommitFrame) st st' : Prop :=
  st_records st' = st_records st /\ st_current st' = st_current st /\
  log_DurableThrough (st_log st) <= log_DurableThrough (st_log st') /\
  (st_lifecycle st' = st_lifecycle st \/ st_lifecycle st' = LifecycleDegradedReadOnly) /\
  (engine_inv snap base cs fl st' \/
   st_records st = replay snap cs /\ st_current st = last_revision base cs /\
   engine_inv (st_records st) (st_current st) [] [] st').

Lemma installSnapshot_keeps snap base cs fl st installer cut r e st' :
  engine_inv snap base cs fl st -> installer_ok installer -> CutRevision cut = st_current st ->
  log_DurableThrough (st_log st) = st_current st -> st_records st = replay snap cs -> st_current st = last_revision base cs ->
  installSnapshot installer cut st = (r, e, st') -> keeps snap base cs fl st st'.
Proof.
  intros Hinv Hok Hcut Hdur Hrec Hcur. unfold installSnapshot.
  destruct (installer cut (st_log st)) as [o l] eqn:Hi.
  destruct (Hok _ _ _ _ _ _ (en_log _ _ _ _ _ Hinv) Hi) as (Hl & Hmono & Hnext).
  pose proof (engine_inv_log _ _ _ _ _ _ Hinv Hl) as Hinv1.
  pose proof (engine_inv_degrade _ _ _ _ _ Hinv1) as Hinv2.
  destruct o as [[[next|]|err]|v].
  - destruct (Z.eqb_spec (log_DurableThrough next) (CutRevision cut)) as [Hd|Hd]; simpl; intros [= <- <- <-];
      unfold keeps; simpl; [|by auto 6]. split_and!; auto; [lia|]. right. split_and!; [done..|].
    destruct Hinv as [[] ? ? ? ? ? ? ? ?]. split; simpl; try done; [by apply Hnext|]. exists []. split_and!; [done..|by left].
  - intros [= <- <- <-]. unfold keeps. by auto 6.
  - destruct (match asGapdbError err with Some _ => _ | None => _ end); intros [= <- <- <-]; unfold keeps; by auto 6.
  - intros [= <- <- <-]. unfold keeps. by auto 6.
Qed.

Lemma executeSnapshot_keeps snap base cs fl st installer r e st' :
  engine_inv snap base cs fl st -> installer_ok installer ->
  executeSnapshot installer st = (r, e, st') -> keeps snap base cs fl st st'.
Proof.
  intros Hinv Hok. unfold executeSnapshot. destruct (log_Barrier (st_log st)) as [b l] eqn:Hb.
  pose proof (log_barrier_ok _ _ _ _ _ (en_log _ _ _ _ _ Hinv) Hb) as Hl.
  pose proof (log_barrier_durable _ _ _ _ _ (en_log _ _ _ _ _ Hinv) Hb) as Hmono.
  pose proof (engine_inv_log _ _ _ _ _ _ Hinv Hl) as Hinv1.
  pose proof (engine_inv_degrade _ _ _ _ _ Hinv1) as Hinv2.
  destruct b as [[err|]|v]; [intros [= <- <- <-]; unfold keeps; by auto 6| |intros [= <- <- <-]; unfold keeps; by auto 6].
  cbn [st_log set_log st_current]. destruct (Z.eqb_spec (log_DurableThrough l) (st_current st)) as [Hd|Hd].
  2:{ cbn [negb]. intros [= <- <- <-]. unfold keeps. split_and!; try done; [by right|left].
      apply (engine_inv_durable _ _ _ _ (degrade (set_log l st))); [done|by intros []%not_healthy_degrade]. }
  cbn [negb]. destruct (Nondecreasing_Now _) as [asOf c]. intros Hi.
  destruct (barrier_view _ _ _ _ _ _ Hinv Hb Hd) as [Hv1 Hv2].
  eapply (installSnapshot_keeps snap base cs fl) in Hi as (? & ? & Hmono' & ? & ?); try done.
  2:{ apply engine_inv_clock, engine_inv_durable; [done|]. intros _. simpl. lia. }
  simpl in Hmono'. unfold keeps. split_and!; try done. lia.
Qed.

Lemma executeDurableAdmin_keeps snap base cs fl st operation e st' :
  engine_inv snap base cs fl st -> admin_ok operation ->
  executeDurableAdmin operation st = (e, st') -> keeps snap base cs fl st st'.
Proof.
  intros Hinv Hok. unfold executeDurableAdmin. destruct (log_Barrier (st_log st)) as [b l] eqn:Hb.
  pose proof (log_barrier_ok _ _ _ _ _ (en_log _ _ _ _ _ Hinv) Hb) as Hl.
  pose proof (log_barrier_durable _ _ _ _ _ (en_log _ _ _ _ _ Hinv) Hb) as Hmono.
  pose proof (engine_inv_log _ _ _ _ _ _ Hinv Hl) as Hinv1.
  pose proof (engine_inv_degrade _ _ _ _ _ Hinv1) as Hinv2.
  destruct b as [[err|]|v]; [intros [= <- <-]; unfold keeps; by auto 6| |intros [= <- <-]; unfold keeps; by auto 6].
  cbn [st_log set_log st_current]. destruct (Z.eqb_spec (log_DurableThrough l) (st_current st)) as [Hd|Hd]; cbn [negb].
  2:{ intros [= <- <-]. unfold keeps. split_and!; try done; [by right|left].
      apply (engine_inv_durable _ _ _ _ (degrade (set_log l st))); [done|by intros []%not_healthy_degrade]. }
  cbn [st_log set_durableThrough set_log].
  destruct (operation _ l) as [o l2] eqn:Ho. destruct (Hok _ _ _ _ _ _ Hl Ho) as [Hl2 Hmono2].
  assert (engine_inv snap base cs fl (set_log l2 (set_durableThrough (log_DurableThrough l) (set_log l st)))) as Hinv3.
  { apply engine_inv_log, Hl2. apply engine_inv_durable; [done|]. intros _. simpl. lia. }
  pose proof (engine_inv_degrade _ _ _ _ _ Hinv3).
  assert (log_DurableThrough (st_log st) <= log_DurableThrough l2) by lia.
  destruct o as [err|v]; intros [= <- <-]; unfold keeps; by auto 7.
Qed.

(** ** Traces *)

(** [tr] are the commits since the records [init] at the revision [start]; the
    oldest of them may already be in a snapshot. *)
Definition traced (init : gmap bytes DBRecord) (start : Revision) (tr : list CommitFrame) st : Prop :=
  exists old cs fl, tr = old ++ cs /\ revisions_from start bound old /\
    engine_inv (replay init old) (last_revision start old) cs fl st.

Lemma traced_ordered init start tr st : traced init start tr st -> revisions_from start bound tr.
Proof.
  intros (old & cs & fl & -> & Ho & Hinv). apply revisions_from_app. split; [done|apply Hinv].
Qed.

Lemma traced_map init start tr st st' :
  (forall snap base cs fl, engine_inv snap base cs fl st -> engine_inv snap base cs fl st') ->
  traced init start tr st -> traced init start tr st'.
Proof. intros Hmap (old & cs & fl & -> & Ho & Hinv). exists old, cs, fl. auto. Qed.

(** A reply to a commit reports a commit of the trace, and as durable only what
    the log knows to be ([durable]). *)
Definition reply_ok (tr : list CommitFrame) (durable : Revision) (r : reply) : Prop :=
  match r with
  | replyCommit (Ok res) =>
      res = zeroCommitResult \/
      (exists c, c ∈ tr /\ reports res c) /\
      ResDurableThrough (CrResult res) <= durable
  | _ => True
  end.

Definition durable st : Revision := log_DurableThrough (st_log st).

Lemma resetTimer_fields st :
  st_lifecycle (resetExpiryTimer st) = st_lifecycle st /\ durable (resetExpiryTimer st) = durable st.
Proof. unfold resetExpiryTimer. destruct (ex_items _); [done|]. by destruct (Nondecreasing_Now _). Qed.

(** The effect of one command on the trace. *)
Definition moves (init : gmap bytes DBRecord) (start : Revision) (tr : list CommitFrame) (r : reply) st st' : Prop :=
  exists tr', tr `prefix_of` tr' /\ traced init start tr' st' /\ reply_ok tr' (durable st') r /\
    durable st <= durable st' /\
    (st_lifecycle st' = st_lifecycle st \/ st_lifecycle st' = LifecycleDegradedReadOnly).

Lemma keeps_moves init start old cs fl r st st' :
  revisions_from start bound old -> engine_inv (replay init old) (last_revision start old) cs fl st ->
  keeps (replay init old) (last_revision start old) cs fl st st' ->
  (forall tr d, reply_ok tr d r) -> moves init start (old ++ cs) r st st'.
Proof.
  intros Ho Hinv (_ & _ & Hmono & Hlife & Hk) Hr. exists (old ++ cs). split_and!; [done| |by apply Hr|done|done].
  destruct Hk as [Hk|(Hrec & Hcur & Hk)]; [by exists old, cs, fl|].
  exists (old ++ cs), [], []. rewrite app_nil_r, replay_app, <- Hrec.
  replace (last_revision start (old ++ cs)) with (st_current st) by (rewrite Hcur; unfold last_revision; by rewrite foldl_app).
  split_and!; try done. apply revisions_from_app. split; [done|apply Hinv].
Qed.

Lemma leaves_moves init start old cs fl st batch single r st1 st' :
  revisions_from start bound old ->
  st_lifecycle st1 = st_lifecycle st -> st_log st1 = st_log st ->
  leaves (bound := bound) (replay init old) (last_revision start old) cs fl st1 batch single (Some r) st' ->
  moves init start (old ++ cs) (replyCommit r) st st'.
Proof.
  intros Ho Hlife Hsl (cs' & fl' & Hinv & Hmono & Hout).
  assert (cs `prefix_of` cs' /\ reply_ok (old ++ cs') (durable st') (replyCommit r) /\
    (st_lifecycle st' = st_lifecycle st1 \/ st_lifecycle st' = LifecycleDegradedReadOnly)) as (Hpre & Hr & Hl).
  { destruct r as [res|e]; simpl in Hout.
    - destruct Hout as (revision & d & _ & _ & _ & -> & _ & _ & -> & Hl & _ & _ & Hd & _).
      split_and!; [by apply prefix_app_r| |by left]. right. split; [|done]. exists (frameOf revision batch single).
      split; [|split; [done|symmetry; apply apply_effects]]. rewrite !elem_of_app, list_elem_of_singleton. auto.
    - destruct Hout as (Hlog & _ & Hl). split_and!; [|done|tauto].
      destruct Hlog as [[-> _]|(_ & _ & revision & _ & [[-> _]|[-> _]])]; [done..|by apply prefix_app_r]. }
  exists (old ++ cs'). split_and!; [by apply prefix_app|by exists old, cs', fl'|done|unfold durable; by rewrite <- Hsl|by rewrite <- Hlife].
Qed.

(** Watches change only the registry. *)
Lemma engine_inv_registry snap base cs fl st rg :
  engine_inv snap base cs fl st -> registry_ok rg ->
  (forall all, sys_step (watch_system all st) (setRegistry rg (watch_system all st))) ->
  engine_inv snap base cs fl (set_registry rg st).
Proof.
  intros [[] ? ? ? ? ? ? Hw ?] Hrg Hstep. split; try done. intros Hh. destruct (Hw Hh) as (first & all & Hsys).
  exists first, all. exact (sys_inv_step _ _ _ Hsys (Hstep all)).
Qed.

(** What no execution can exceed: the length of a slice, and the ids of
    watches. *)
Definition physical st : Prop :=
  len (ks_keys (st_orderedKeys st)) < 2 ^ 63 /\ 0 <= rg_next (st_registry st) < 2 ^ 64 - 1.

Lemma handleCommand_moves init start tr c depth st r st' :
  traced init start tr st -> command_ok c -> physical st ->
  handleCommand c depth st = Some (r, st') -> moves init start tr r st st'.
Proof.
  intros (old & cs & fl & -> & Ho & Hinv) Hok [Hroom Hnext]. destruct c as [batch single| |watch|id|installer|op].
  - simpl. destruct (executeSafely batch single st) as [[res|] st1] eqn:Hex; [|done]. intros [= <- <-].
    eapply leaves_moves; [done| | |by eapply executeSafely_leaves; [..|exact Hex]]; done.
  - simpl. destruct (executeDueExpiriesSafely st) as [[res|] st1] eqn:Hex; [|done]. intros [= <- <-].
    destruct (executeDueExpiriesSafely_leaves bound_fits _ _ _ _ _ _ _ Hinv Hroom Hex)
      as (due & st2 & Hcol & [(-> & Hr & <- & Hinv')|[_ Hl]]).
    + exists (old ++ cs). injection Hr as ->. unfold collected in Hcol. destruct (Nondecreasing_Now _).
      destruct Hcol as (x & -> & _). split_and!; [done|by exists old, cs, fl|by left|done|by left].
    + unfold collected in Hcol. destruct (Nondecreasing_Now _). destruct Hcol as (x & -> & _).
      by eapply leaves_moves; [done| | |exact Hl].
  - simpl. destruct (registerWatch _ _ _ _ _ _) as [res rg] eqn:Hreg. intros [= <- <-].
    exists (old ++ cs). split_and!; [done| |done|done|by left]. exists old, cs, fl. split_and!; try done.
    assert (wrap_u64 (rg_next (st_registry st) + 1) = rg_next (st_registry st) + 1) as Hwrap.
    { apply wrap_u64_small. unfold max_uint64. lia. }
    apply engine_inv_registry; [done|by eapply registry_register; [apply Hinv|..]|].
    intros all. by eapply (sys_register (watch_system all st)).
  - simpl. destruct (unregisterWatch _ _ _ _) as [rg|] eqn:Hun; [|done]. intros [= <- <-].
    exists (old ++ cs). split_and!; [done| |done|done|by left]. exists old, cs, fl. split_and!; try done.
    destruct (registry_unregister id WatchEndedByClient (st_current st) _ (en_registry _ _ _ _ _ Hinv)) as (rg' & Hrg & ?).
    simplify_eq. apply engine_inv_registry; [done..|]. intros all. by eapply (sys_unregister (watch_system all st)).
  - simpl. destruct (executeSnapshot installer st) as [[res err] st1] eqn:Hex. intros [= <- <-].
    eapply keeps_moves; try done. by eapply executeSnapshot_keeps.
  - simpl. destruct (executeDurableAdmin op st) as [err st1] eqn:Hex. intros [= <- <-].
    eapply keeps_moves; try done. by eapply executeDurableAdmin_keeps.
Qed.

(** ** Steps of a running database *)

Inductive owner_step o : owner C A L F -> Prop :=
| os_submit ctx batch single r o' :
    batch_fits_int batch -> prepareAndSubmit ctx batch single o = (r, o') -> owner_step o o'
| os_expire ctx r o' : ProcessDueExpiries ctx o = (r, o') -> owner_step o o'
| os_watch ctx prefix after r o' : Watch ctx prefix after o = (r, o') -> owner_step o o'
| os_unwatch id o' : requestWatchUnregister id o = Some o' -> owner_step o o'
| os_snapshot ctx installer r o' :
    installer_ok installer -> Snapshot ctx (Some installer) o = (r, o') -> owner_step o o'
| os_admin ctx operation r o' :
    admin_ok operation -> DurableAdmin ctx (Some operation) o = (r, o') -> owner_step o o'
| os_close : owner_step o (CloseOwner o)
| os_degrade : owner_step o (MarkAdminDegraded o)
| os_read : owner_step o (with_state (set_clock (Nondecreasing_Now (st_clock (ow_state o))).2 (ow_state o)) o)
| os_command o' : physical (ow_state o) -> runCommand o = Some o' -> owner_step o o'
| os_timer o' : physical (ow_state o) -> runTimer o = Some o' -> owner_step o o'
| os_closed o' : runClosed o = Some o' -> owner_step o o'
| os_pump id w w' :
    rg_watches (st_registry (ow_state o)) !! id = Some w -> pump_step w w' ->
    owner_step o (with_state (set_registry
      (MkRegistry (<[id := w']> (rg_watches (st_registry (ow_state o)))) (rg_registered (st_registry (ow_state o)))
         (rg_next (st_registry (ow_state o))) (rg_active (st_registry (ow_state o)))) (ow_state o)) o)
| os_stop id :
    owner_step o (with_state (set_registry (closeWatch id (st_registry (ow_state o))) (ow_state o)) o).

Record owner_inv (init : gmap bytes DBRecord) (start : Revision) (tr : list CommitFrame) o : Prop := {
  oi_traced : traced init start tr (ow_state o);
  oi_commands : Forall (fun p => command_ok p.2) (ow_queue o);
  oi_closed : ow_closed o = true -> st_lifecycle (ow_state o) <> LifecycleReady;
  oi_next : 0 <= ow_next o;
  oi_nodup : NoDup (ow_queue o).*1;
  oi_tickets : forall t, 0 <= t < ow_next o <-> t ∈ (ow_queue o).*1 \/ is_Some (ow_replies o !! t);
  oi_waiting : forall t, t ∈ (ow_queue o).*1 -> ow_replies o !! t = None;
  oi_replies : map_Forall (fun _ r => reply_ok tr (durable (ow_state o)) r) (ow_replies o)
}.

Lemma reply_ok_mono tr tr' d d' r :
  tr `prefix_of` tr' -> d <= d' -> reply_ok tr d r -> reply_ok tr' d' r.
Proof.
  intros [rest ->] Hd. destruct r as [[res|e]|?| |?|?]; try done. simpl.
  intros [?|((c & Hc & ?) & Hdr)]; [by left|right]. split; [|lia].
  exists c. split; [apply elem_of_app; by left|done].
Qed.

(** Steps that only change the state. *)
Lemma owner_inv_state init start tr o st :
  owner_inv init start tr o -> traced init start tr st ->
  (st_lifecycle st = st_lifecycle (ow_state o) \/ st_lifecycle st <> LifecycleReady) ->
  durable st = durable (ow_state o) -> owner_inv init start tr (with_state st o).
Proof.
  intros [] Ht Hl Hd. split; try done; simpl; [|by rewrite Hd]. intros Hc. destruct Hl as [->|?]; auto.
Qed.

Lemma owner_inv_push init start tr o c :
  owner_inv init start tr o -> command_ok c -> owner_inv init start tr (pushCommand c o).
Proof.
  intros [Ht Hc Hcl Hnx Hnd Htk Hw Hr] Hok.
  assert (ow_next o ∉ (ow_queue o).*1 /\ ow_replies o !! ow_next o = None) as [Hfresh Hnone].
  { split; [intros Hin|apply eq_None_not_Some; intros Hin];
      [destruct (proj2 (Htk (ow_next o)) (or_introl Hin))|destruct (proj2 (Htk (ow_next o)) (or_intror Hin))]; lia. }
  split; simpl; try done; try lia.
  - apply Forall_app. by split; [|constructor].
  - rewrite fmap_app. apply NoDup_app. split_and!; [done| |apply NoDup_singleton].
    by intros t Hin ->%list_elem_of_singleton.
  - intros t. rewrite fmap_app, elem_of_app. simpl. rewrite list_elem_of_singleton.
    destruct (decide (t = ow_next o)) as [->|Hne]; [split; [tauto|lia]|].
    specialize (Htk t). split.
    + intros ?. assert (0 <= t < ow_next o) by lia. tauto.
    + intros [[?|?]|?]; [|done|]; assert (0 <= t < ow_next o) by tauto; lia.
  - intros t. rewrite fmap_app, elem_of_app. simpl. rewrite list_elem_of_singleton. intros [?| ->]; auto.
Qed.

(** Admission keeps the invariant, and panics only on a closed queue. *)
Lemma admit_inv init start tr ctx c o r o' :
  owner_inv init start tr o -> command_ok c -> admitCommand ctx c o = (r, o') -> owner_inv init start tr o'.
Proof.
  intros Hinv Hok. unfold admitCommand. destruct (ctx_select ctx); [by intros [= <- <-]|].
  destruct (ow_closed o); [by intros [= <- <-]|]. destruct (_ <? _); intros [= <- <-]; [by apply owner_inv_push|done].
Qed.

Lemma admit_returns ctx c o : ow_closed o = false -> exists x, (admitCommand ctx c o).1 = Returned x.
Proof. intros Hc. unfold admitCommand. rewrite Hc. destruct (ctx_select ctx); [eauto|]. destruct (_ <? _); simpl; eauto. Qed.

Lemma admitReady_inv init start tr ctx c o r o' :
  owner_inv init start tr o -> command_ok c -> admitReady ctx c o = (r, o') -> owner_inv init start tr o'.
Proof. intros Hinv Hok. unfold admitReady. destruct (negb _); [by intros [= <- <-]|by apply admit_inv]. Qed.

Lemma admitReady_returns ctx c o :
  (ow_closed o = true -> st_lifecycle (ow_state o) <> LifecycleReady) ->
  exists x, (admitReady ctx c o).1 = Returned x.
Proof.
  intros Hcl. unfold admitReady. case_bool_decide as Hl; simpl; [|eauto]. apply admit_returns.
  destruct (ow_closed o); [|done]. by destruct (Hcl eq_refl).
Qed.

Lemma read_inv init start tr o :
  owner_inv init start tr o ->
  owner_inv init start tr (with_state (set_clock (Nondecreasing_Now (st_clock (ow_state o))).2 (ow_state o)) o).
Proof.
  intros Hinv. apply owner_inv_state; [done| |by left|done].
  eapply traced_map; [|apply Hinv]. intros. by apply engine_inv_clock.
Qed.

Lemma prepareAndSubmit_inv init start tr ctx batch single o r o' :
  owner_inv init start tr o -> batch_fits_int batch -> prepareAndSubmit ctx batch single o = (r, o') ->
  owner_inv init start tr o'.
Proof.
  intros Hinv Hfit. pose proof (read_inv _ _ _ _ Hinv) as Hread. unfold prepareAndSubmit.
  destruct (Nondecreasing_Now _) as [t c]. simpl in Hread.
  destruct (validateBatchAt _ _ _); [by intros [= <- <-]|]. unfold submit.
  destruct (ctx_entry ctx); [by intros [= <- <-]|]. by apply admitReady_inv.
Qed.

Lemma Watch_inv init start tr ctx prefix after o r o' :
  owner_inv init start tr o -> Watch ctx prefix after o = (r, o') -> owner_inv init start tr o'.
Proof.
  intros Hinv. unfold Watch. destruct (validatePrefix _ _); [by intros [= <- <-]|].
  destruct (ctx_entry ctx); [by intros [= <- <-]|]. destruct (_ || _); [by intros [= <- <-]|by apply admit_inv].
Qed.

(** ** The writer *)

Lemma moves_owner init start tr ticket c rest o r st :
  owner_inv init start tr o -> ow_queue o = (ticket, c) :: rest ->
  moves init start tr r (ow_state o) st ->
  exists tr', tr `prefix_of` tr' /\
    owner_inv init start tr' (MkOwner (resetExpiryTimer st) rest (ow_next o) (<[ticket := r]> (ow_replies o))
      (ow_closed o) (ow_done o) (ow_closeErr o)).
Proof.
  intros [Ht Hc Hcl Hnx Hnd Htk Hw Hr] Hq (tr' & Hpre & Htr & Hrep & Hd & Hl). rewrite Hq in *.
  destruct (resetTimer_fields st) as [Hlt Hdt].
  exists tr'. split; [done|]. simpl in *. apply NoDup_cons in Hnd as [Hni Hnd]. apply Forall_cons in Hc as [_ Hc].
  split; simpl; try done.
  - eapply traced_map; [|exact Htr]. intros. by apply engine_inv_resetTimer.
  - intros Hclosed. rewrite Hlt. destruct Hl as [->| ->]; [by apply Hcl|done].
  - intros t. rewrite Htk, elem_of_cons. destruct (decide (t = ticket)) as [->|Hne].
    + rewrite lookup_insert_eq. split; [eauto|tauto].
    + rewrite lookup_insert_ne by done. tauto.
  - intros t Hin. rewrite lookup_insert_ne by (by intros ->). apply Hw, elem_of_cons. by right.
  - rewrite Hdt. apply map_Forall_insert_2; [done|]. eapply map_Forall_impl; [exact Hr|].
    intros ? ?. by apply reply_ok_mono.
Qed.

Lemma runCommand_inv init start tr o o' :
  owner_inv init start tr o -> physical (ow_state o) -> runCommand o = Some o' ->
  exists tr', tr `prefix_of` tr' /\ owner_inv init start tr' o'.
Proof.
  intros Hinv Hph. unfold runCommand. destruct (ow_queue o) as [|[ticket c] rest] eqn:Hq; [done|].
  destruct (handleCommand c _ _) as [[r st]|] eqn:Hh; [|done]. intros [= <-].
  eapply moves_owner; [done..|]. eapply handleCommand_moves; [apply Hinv| |done..].
  pose proof (oi_commands _ _ _ _ Hinv) as Hc. rewrite Hq in Hc. by apply Forall_cons in Hc as [? _].
Qed.

Lemma runTimer_inv init start tr o o' :
  owner_inv init start tr o -> physical (ow_state o) -> runTimer o = Some o' ->
  exists tr', tr `prefix_of` tr' /\ owner_inv init start tr' o'.
Proof.
  intros Hinv Hph. unfold runTimer. destruct (st_expiryTimer _); [done|done|].
  case_bool_decide as Hready.
  2:{ intros [= <-]. exists tr. split; [done|]. apply owner_inv_state; [done| |by left|done].
      eapply traced_map; [|apply Hinv]. intros. by apply engine_inv_timer. }
  destruct (executeDueExpiriesSafely _) as [[r|] st] eqn:Hex; [|done]. intros [= <-].
  assert (handleCommand commandExpiry 0 (ow_state o) = Some (replyCommit r, st)) as Hh by (simpl; by rewrite Hex).
  destruct (handleCommand_moves _ _ _ commandExpiry _ _ _ _ (oi_traced _ _ _ _ Hinv) I Hph Hh) as (tr' & Hpre & Htr & _ & Hd & _).
  destruct (resetTimer_fields st) as [Hlt Hdt].
  exists tr'. split; [done|]. destruct Hinv as [_ Hc Hcl Hnx Hnd Htk Hw Hr]. split; simpl; try done.
  - eapply traced_map; [|exact Htr]. intros. by apply engine_inv_resetTimer.
  - intros Hclosed. by destruct (Hcl Hclosed).
  - rewrite Hdt. eapply map_Forall_impl; [exact Hr|]. intros ? ?. by apply reply_ok_mono.
Qed.

Lemma runClosed_inv init start tr o o' :
  owner_inv init start tr o -> runClosed o = Some o' -> owner_inv init start tr o'.
Proof.
  intros Hinv. unfold runClosed. destruct (ow_closed o) eqn:Hcl; [|done]. cbn [negb orb].
  destruct (_ || _) eqn:Hg; [done|]. cbn [st_current st_registry set_timer].
  destruct (shutdownWatchers _ _) as [rg|] eqn:Hsh; [|done].
  cbn [st_log set_registry set_timer]. destruct (log_Barrier (st_log (ow_state o))) as [[err|v] l] eqn:Hb; [|done].
  intros [= <-]. pose proof (oi_closed _ _ _ _ Hinv Hcl) as Hnr.
  destruct Hinv as [Ht Hc _ Hnx Hnd Htk Hw Hr]. split; simpl; try done.
  - eapply traced_map; [|exact Ht]. intros snap base cs fl He.
    assert (engine_inv snap base cs fl (set_log l (set_registry rg
      (set_timer (timer_Stop (st_expiryTimer (ow_state o))) (ow_state o))))) as He'.
    { apply engine_inv_log; [|by eapply log_barrier_ok; [apply He|exact Hb]].
      destruct (registry_shutdown (st_current (ow_state o)) _ (en_registry _ _ _ _ _ He)) as (rg' & Hrg & ?).
      simplify_eq. apply engine_inv_registry; [by apply engine_inv_timer|done|]. intros all.
      by eapply (sys_shutdown (watch_system all (ow_state o))). }
    destruct err; [by apply engine_inv_degrade|done].
  - intros _. by destruct err.
  - destruct Ht as (old & cs & fl & _ & _ & He).
    pose proof (log_barrier_durable _ _ _ _ _ (en_log _ _ _ _ _ He) Hb) as Hd.
    eapply map_Forall_impl; [exact Hr|]. intros ? ?. apply reply_ok_mono; [done|]. by destruct err.
Qed.

Lemma owner_inv_step init start tr o o' :
  owner_inv init start tr o -> owner_step o o' -> exists tr', tr `prefix_of` tr' /\ owner_inv init start tr' o'.
Proof.
  intros Hinv Hstep. destruct Hstep as [ctx batch single r o' Hfit Hs|ctx r o' Hs|ctx prefix after r o' Hs|id o' Hs
    |ctx installer r o' Hi Hs|ctx op r o' Hi Hs| | | |o' Hph Hs|o' Hph Hs|o' Hs|id w w' Hw Hp|id].
  - exists tr. split; [done|]. by eapply prepareAndSubmit_inv.
  - exists tr. split; [done|]. unfold ProcessDueExpiries in Hs. destruct (ctx_entry ctx); [by simplify_eq|].
    eapply admitReady_inv; [exact Hinv| |exact Hs]; done.
  - exists tr. split; [done|]. by eapply Watch_inv.
  - exists tr. split; [done|]. unfold requestWatchUnregister in Hs. destruct (_ || _); [by simplify_eq|].
    destruct (_ <? _); [|done]. injection Hs as <-. by apply owner_inv_push.
  - exists tr. split; [done|]. eapply admitReady_inv; [exact Hinv| |exact Hs]; done.
  - exists tr. split; [done|]. eapply admitReady_inv; [exact Hinv| |exact Hs]; done.
  - exists tr. split; [done|]. unfold CloseOwner. destruct (ow_closed o); [done|].
    pose proof Hinv as [Ht Hc _ Hnx Hnd Htk Hw Hr]. split; simpl; try done.
    + case_bool_decide; [|done]. eapply traced_map; [|exact Ht].
      intros snap base cs fl [[] ? ? ? Hv ? ? ?]. assert (healthy (ow_state o)) by (by left).
      split; simpl; try done; [by split; auto| |by auto|by auto].
      destruct Hv as (seen & ? & ? & [?|[_ ?]]); [|congruence]. exists seen. split_and!; auto.
    + intros _. by case_bool_decide.
    + by case_bool_decide.
  - exists tr. split; [done|]. apply owner_inv_state; [done| |by right|done].
    eapply traced_map; [|apply Hinv]. intros. by apply engine_inv_degrade.
  - exists tr. split; [done|]. by apply read_inv.
  - by eapply runCommand_inv.
  - by eapply runTimer_inv.
  - exists tr. split; [done|]. by eapply runClosed_inv.
  - exists tr. split; [done|]. apply owner_inv_state; [done| |by left|done]. eapply traced_map; [|apply Hinv].
    intros snap base cs fl He. apply engine_inv_registry; [done|by eapply registry_pump; [apply He|..]|].
    intros all. by eapply (sys_pump (watch_system all (ow_state o))).
  - exists tr. split; [done|]. apply owner_inv_state; [done| |by left|done]. eapply traced_map; [|apply Hinv].
    intros snap base cs fl He. apply engine_inv_registry; [done|by apply registry_close, He|].
    intros all. apply (sys_close (watch_system all (ow_state o))).
Qed.

Lemma owner_inv_run init start tr o o' :
  owner_inv init start tr o -> rtc owner_step o o' ->
  exists tr', tr `prefix_of` tr' /\ owner_inv init start tr' o'.
Proof.
  intros Hinv Hrun. revert tr Hinv. induction Hrun as [o|o o1 o2 Hs _ IH]; intros tr Hinv; [by exists tr|].
  destruct (owner_inv_step _ _ _ _ _ Hinv Hs) as (tr1 & Hp & Hinv1).
  destruct (IH _ Hinv1) as (tr2 & Hp2 & Hinv2). exists tr2. split; [by etrans|done].
Qed.
End run.
