(* ===== verification/Restart.v ===== *)
(** * Restart: opening the engine on recovered state (internal/engine/state.go)

    [New] accepts every state that recovery can hand it, and starts with the
    invariant of the engine, every expiry scheduled and the watches empty. *)

From stdpp Require Import base gmap list strings sorting.
From Stdlib Require Import ZArith Lia.
From S2P Require Import Prelude.
From S2P Require Import Bytes.
From S2P Require Import Errors.
From S2P Require Import ApiTypes.
From S2P Require Import Clock.
From S2P Require Import Allocator.
From S2P Require Import StorageErrors.
From S2P Require Import WalCodec.
From S2P Require Import WalScan.
From S2P Require Import OrderedKeys.
From S2P Require Import History.
From S2P Require Import Expiry.
From S2P Require Import Watch.
From S2P Require Import Engine.
From S2P Require Import Writer.
From S2P Require Import Commands.
From S2P Require Import Replay.
From S2P Require Import WriterFacts.
From S2P Require Import EngineInv.
From S2P Require Import DueExpiry.
From S2P Require Import EngineRun.

Local Open Scope Z_scope.

(** ** The history *)

Lemma rebuild_loop_ok h cs current previous :
  revisions_from previous current cs ->
  rebuild_loop h cs current previous =
    Ok (history_run h (recoveredEvents <$> cs), last_revision previous cs).
Proof.
  revert h previous. induction cs as [|c cs IH]; intros h previous; [done|]. intros [[Hc1 Hc2] Hcs]. simpl.
  destruct (Z.leb_spec (FrRevision c) previous); [lia|]. destruct (Z.ltb_spec current (FrRevision c)); [lia|].
  simpl. by apply IH.
Qed.

(** The groups of recovered commits. *)
Definition recovered_groups (cs : list CommitFrame) : list eventGroup := group_of <$> (recoveredEvents <$> cs).

Lemma recovered_revision c : FrEffects c <> [] -> grp_revision (group_of (recoveredEvents c)) = FrRevision c.
Proof. unfold recoveredEvents. by destruct (FrEffects c). Qed.

Lemma recovered_revisions cs :
  Forall (fun c => FrEffects c <> []) cs -> grp_revision <$> recovered_groups cs = FrRevision <$> cs.
Proof.
  unfold recovered_groups. induction 1 as [|c cs Hc _ IH]; [done|].
  rewrite !fmap_cons, IH. f_equal. by apply recovered_revision.
Qed.

Lemma revisions_sorted after bound cs :
  revisions_from after bound cs -> StronglySorted Z.lt (after :: (FrRevision <$> cs)).
Proof.
  revert after. induction cs as [|c cs IH]; intros after; [repeat constructor|]. intros [Hc Hcs].
  specialize (IH _ Hcs). rewrite fmap_cons. constructor; [done|]. constructor; [lia|].
  apply StronglySorted_cons in IH as [Hall _]. eapply Forall_impl; [exact Hall|]. simpl. lia.
Qed.

Lemma last_revision_last after cs : default after (last (FrRevision <$> cs)) = last_revision after cs.
Proof.
  induction cs as [|c cs _] using rev_ind; [done|]. rewrite fmap_app, last_revision_snoc. simpl. by rewrite last_snoc.
Qed.

(** [rebuild] of the recovered commits, and the watches it starts. *)
Lemma history_rebuild_ok limits base bound cs :
  limits_ok limits -> revisions_from base bound cs -> Forall (fun c => FrEffects c <> []) cs ->
  exists h, history_rebuild (history_initialize limits base) cs (last_revision base cs) = Ok h /\
    sys_inv base (MkSystem limits (recovered_groups cs) (last_revision base cs) h no_watches).
Proof.
  intros Hl Hr Hne. pose proof (limits_ok_fields limits Hl).
  set (h := history_run (history_initialize limits base) (recoveredEvents <$> cs)).
  assert (increasing base (recovered_groups cs)) as Hinc.
  { unfold increasing. rewrite recovered_revisions by done. by eapply revisions_sorted. }
  assert (forall l h0, h_maxEvents (history_run h0 l) = h_maxEvents h0 /\
    h_maxBytes (history_run h0 l) = h_maxBytes h0) as Hmax.
  { induction l as [|e l IH]; intros h0; [done|]. destruct (IH (history_append h0 e)) as [H1 H2].
    unfold history_run in *. simpl. rewrite H1, H2. destruct e as [|e0 e]; [done|]. apply evict_maxima. }
  exists h. split.
  - unfold history_rebuild. rewrite rebuild_loop_ok by (by eapply revisions_from_tight).
    simpl. by rewrite Z.eqb_refl.
  - split; simpl; try done.
    + unfold h. destruct (Hmax (recoveredEvents <$> cs) (history_initialize limits base)) as [-> ->]. simpl. lia.
    + apply history_inv_run; [done| |exact Hinc]. apply Forall_fmap. eapply Forall_impl; [exact Hne|].
      intros c. unfold compose, recoveredEvents. by destruct (FrEffects c).
    + rewrite recovered_revisions, last_revision_last by done. done.
    + split; simpl; [set_solver| |done]. intros id. rewrite lookup_empty. by intros [? ?].
Qed.

(** ** The records *)

(** A record of the map, with its key. *)
Definition keyed (records : gmap bytes DBRecord) : Prop := map_Forall (fun k r => RecKey r = k) records.

Lemma loadRecords_ok limits current l records x :
  Forall (fun r => record_ok limits current (RecKey r) r) l -> NoDup (RecKey <$> l) ->
  (forall r, r ∈ l -> records !! RecKey r = None) ->
  expiries_inv x -> scheduled x = expiring records ->
  exists x', loadRecords limits current l records x =
      Ok (foldl (fun m r => <[RecKey r := r]> m) records l, x') /\
    expiries_inv x' /\ scheduled x' = expiring (foldl (fun m r => <[RecKey r := r]> m) records l).
Proof.
  intros Hok. revert records x. induction Hok as [|r l Hr _ IH]; intros records x Hnd Hfresh Hinv Hs; [eauto|].
  rewrite fmap_cons, NoDup_cons in Hnd. destruct Hnd as [Hni Hnd]. cbn [loadRecords foldl].
  destruct Hr as (_ & Hk & Hrev & Hval & Hexp).
  assert (engineValidateKey (RecKey r) limits = None) as -> by (by apply validateKey_None).
  destruct (Z.eqb_spec (RecRevision r) 0); [lia|]. destruct (Z.ltb_spec current (RecRevision r)); [lia|]. cbn [orb].
  destruct (Z.ltb_spec (MaxValueBytes limits) (len (RecValue r))); [lia|].
  rewrite (bool_decide_eq_false_2 (records !! RecKey r <> None)) by (rewrite Hfresh; [tauto|apply elem_of_cons; by left]).
  assert (bool_decide (RecExpiresAt r <> None) && (Z.min (MaxBatchBytes limits) (MaxFrameBytes limits)
    <? 32 + 20 + len (RecKey r)) = false) as ->.
  { destruct (RecExpiresAt r); [|done]. destruct Hexp as [_ Hc]. unfold maximumBytes in Hc.
    apply andb_false_iff. right. by apply Z.ltb_ge. }
  destruct (scheduleRecordExpiry_spec x r Hinv) as [Hinv' Hs'].
  apply IH; try done.
  - intros r' Hr'. rewrite lookup_insert_ne; [apply Hfresh, elem_of_cons; by right|].
    intros Heq. apply Hni. rewrite Heq. by apply list_elem_of_fmap_2.
  - rewrite Hs', Hs. unfold expiring. destruct (RecExpiresAt r) as [t|] eqn:He.
    + erewrite omap_insert_Some; [done|]. by rewrite He.
    + rewrite omap_insert_None; [done|]. by rewrite He.
Qed.

Lemma load_lookup (l : list DBRecord) (m : gmap bytes DBRecord) k :
  NoDup (RecKey <$> l) ->
  foldl (fun m r => <[RecKey r := r]> m) m l !! k =
    match list_find (fun r => RecKey r = k) l with Some (_, r) => Some r | None => m !! k end.
Proof.
  revert m. induction l as [|r l IH]; intros m Hnd; [done|]. rewrite fmap_cons, NoDup_cons in Hnd.
  destruct Hnd as [Hni Hnd]. cbn [foldl list_find]. rewrite IH by done. destruct (decide (RecKey r = k)) as [<-|Hne].
  - destruct (list_find _ l) as [[i r']|] eqn:Hf; [|by rewrite lookup_insert_eq].
    apply list_find_Some in Hf as (Hl & Hk & _). destruct Hni. rewrite <- Hk.
    apply list_elem_of_fmap_2. by eapply list_elem_of_lookup_2.
  - destruct (list_find _ l) as [[i r']|]; simpl; [done|]. by rewrite lookup_insert_ne.
Qed.

Lemma snapshotMap_list (records : gmap bytes DBRecord) (l : list DBRecord) :
  keyed records -> l ≡ₚ (map_to_list records).*2 ->
  NoDup (RecKey <$> l) /\ snapshotMap l = records /\ (forall r, r ∈ l <-> records !! RecKey r = Some r).
Proof.
  intros Hk Hl. assert (forall r, r ∈ l <-> records !! RecKey r = Some r) as Hin.
  { intros r. rewrite Hl, list_elem_of_fmap. split.
    - intros ([k r'] & -> & Hkr%elem_of_map_to_list). simpl. by rewrite (Hk k r' Hkr).
    - intros Hr. exists (RecKey r, r). split; [done|]. by apply elem_of_map_to_list. }
  assert (NoDup (RecKey <$> l)) as Hnd.
  { rewrite Hl, <- list_fmap_compose.
    rewrite (list_fmap_ext _ fst (map_to_list records)); [apply NoDup_fst_map_to_list|].
    intros i [k r] Hi. apply list_elem_of_lookup_2, elem_of_map_to_list in Hi. simpl. by apply Hk. }
  split_and!; try done. apply map_eq. intros k. unfold snapshotMap. rewrite load_lookup by done.
  destruct (list_find _ l) as [[i r]|] eqn:Hf.
  - apply list_find_Some in Hf as (Hi & <- & _). symmetry. apply Hin. by eapply list_elem_of_lookup_2.
  - rewrite lookup_empty. symmetry. apply eq_None_not_Some. intros [r Hr]. pose proof (Hk k r Hr) as Hkr.
    apply list_find_None in Hf. rewrite Forall_forall in Hf. apply (Hf r); [|done]. apply Hin. by rewrite Hkr.
Qed.

(** ** [New] *)

Section restart.
Context {C A L F : Type} `{Clock C, !RevisionAllocator A, !CommitLog L, !Faults F}.
Context {LS : LogSpec L} {bound : Revision} {AS : AllocatorSpec A bound}.
Abbreviation engine_inv := (engine_inv (bound := bound)).

(** What recovery hands to [New]: the records of the snapshot [snap] at the
    revision [base] and the commits [cs] after it, which the log holds. *)
Record recovered (config : Config C A L F) (snap : gmap bytes DBRecord) (base : Revision)
    (cs : list CommitFrame) : Prop := {
  rc_limits : limits_ok (cf_Limits config);
  rc_capacity : 0 <= cf_QueueCapacity config;
  rc_log : exists l, cf_Log config = Some l /\ log_rep l cs [];
  rc_allocator : exists a, cf_Allocator config = Some a /\ alloc_ok a;
  rc_records : cf_Records config ≡ₚ (map_to_list (replay snap cs)).*2;
  rc_record_ok : map_Forall (record_ok (cf_Limits config) (last_revision base cs)) (replay snap cs);
  rc_base : 0 <= base /\ cf_SnapshotRevision config = base;
  rc_commits : cf_RecoveredCommits config = cs /\ revisions_from base bound cs /\
    Forall (fun c => FrEffects c <> []) cs;
  rc_current : cf_CurrentRevision config = last_revision base cs;
  rc_durable : cf_DurableThroughRevision config <= last_revision base cs
}.

Lemma New_ok real config snap base cs :
  recovered config snap base cs ->
  exists st, New real config = Ok st /\ engine_inv snap base cs [] st /\ schedule_complete st /\
    st_lifecycle st = LifecycleReady.
Proof.
  intros [Hl Hq (l & Hlog & Hrep) (a & Halloc & Ha) Hrec Hok [Hb Hbs] (Hcs & Hord & Hne) Hcur Hdur].
  pose proof (limits_ok_fields _ Hl) as Hlf. destruct (revisions_from_ge _ _ _ Hord) as [Hge _].
  assert (keyed (replay snap cs)) as Hkeyed by (intros k r Hk; by apply Hok in Hk as (? & _)).
  destruct (snapshotMap_list _ _ Hkeyed Hrec) as (Hnd & Hmap & Hin).
  unfold New. assert (limitsZero (cf_Limits config) = false) as ->.
  { apply bool_decide_eq_false. intros Hz. injection Hz as Hz _. lia. }
  rewrite (proj2 (Options_Validate_iff _) Hl), Hlog, Halloc, Hcur, Hbs.
  set (capacity := if cf_QueueCapacity config =? 0 then defaultQueueCapacity else cf_QueueCapacity config).
  assert (capacity <? 0 = false) as -> by (apply Z.ltb_ge; unfold capacity, defaultQueueCapacity;
    destruct (_ =? _); lia).
  rewrite (proj2 (Z.ltb_ge _ _)) by done. rewrite (proj2 (Z.ltb_ge _ _)) by done.
  destruct (loadRecords_ok (cf_Limits config) (last_revision base cs) (cf_Records config) ∅ no_expiries)
    as (x & Hload & Hx & Hsx); try done.
  { apply Forall_forall. intros r Hr%Hin. by apply Hok in Hr. }
  { apply no_expiries_inv. }
  rewrite Hload. fold (snapshotMap (cf_Records config)) in *. rewrite Hmap in *.
  destruct (history_rebuild_ok (cf_Limits config) base bound cs Hl Hord Hne) as (h & Hh & Hsys).
  rewrite Hcs, Hh. eexists. split; [done|].
  set (st := MkState _ _ _ _ _ _ _ _ _ _ _ _ _ _ _ _ _ _ _).
  assert (engine_inv snap base cs [] st /\ schedule_complete st) as [Hinv Hsc].
  { split; [|done]. split; simpl; try done; [split; simpl; try done; try lia| | |].
    - split_and!; simpl; [apply sort_Strings_strict, NoDup_fst_map_to_list| |done].
      intros k. rewrite sort_Strings_Permutation, list_elem_of_fmap. split.
      + intros ([k' r] & -> & Hk%elem_of_map_to_list). eauto.
      + intros [r Hk]. exists (k, r). split; [done|]. by apply elem_of_map_to_list.
    - intros _. by rewrite Hsx.
    - exists cs. split_and!; try done. by left.
    - exact (sys_registry_ok _ _ Hsys).
    - intros _. exists base, (recovered_groups cs). exact Hsys. }
  split_and!; [by apply engine_inv_resetTimer| |].
  - unfold schedule_complete, resetExpiryTimer in *. destruct (ex_items _); [done|]. by destruct (Nondecreasing_Now _).
  - unfold resetExpiryTimer. destruct (ex_items _); [done|]. by destruct (Nondecreasing_Now _).
Qed.

Lemma startOwner_inv snap base cs (st : DatabaseState C A L F) :
  engine_inv snap base cs [] st -> st_lifecycle st = LifecycleReady ->
  owner_inv (bound := bound) snap base cs (startOwner st).
Proof.
  intros Hinv Hl. split; simpl; try done; try (by constructor).
  - exists [], cs, []. by split_and!.
  - intros t. rewrite lookup_empty. split; [lia|]. intros [[]%elem_of_nil|[? ?]]; done.
Qed.

(** C8: A recovered database always opens.  [New] accepts every state recovery
    can hand it (the records replayed from a snapshot and the commits of the
    log, an allocator above them), and the database it returns is ready and
    satisfies the invariant of the engine with every expiry scheduled. *)
Theorem recovered_database_opens real config snap base cs :
  recovered config snap base cs ->
  exists st, New real config = Ok st /\ engine_inv snap base cs [] st /\ schedule_complete st /\
    st_lifecycle st = LifecycleReady.
Proof. apply New_ok. Qed.
End restart.
