(* ===== verification/Base64.v ===== *)
(** * encoding/base64

    Scan cursors travel as unpadded base64url text, values in the protocol as
    padded standard base64.  The decoder is Go's: it skips carriage returns and
    newlines, rejects every other character outside the alphabet and a single
    left-over character, and in strict mode non-zero trailing bits. *)

From stdpp Require Import base list strings.
From Stdlib Require Import ZArith Lia.
From S2P Require Import Prelude.
From S2P Require Import Bytes.

Local Open Scope Z_scope.

Definition base64_letters : bytes := lit "ABCDEFGHIJKLMNOPQRSTUVWXYZabcdefghijklmnopqrstuvwxyz0123456789".
Definition url_alphabet : bytes := base64_letters ++ lit "-_".
Definition std_alphabet : bytes := base64_letters ++ lit "+/".

Section alphabet.
Variable alphabet : bytes.

Definition base64_char (v : Z) : byte := default (z2b 0) (alphabet !! Z.to_nat (Z.land v 63)).

Definition base64_value (c : byte) : option Z :=
  Z.of_nat ∘ fst <$> list_find (fun x => x = c) alphabet.

(** [EncodeToString] without padding. *)
Fixpoint base64_encode (src : bytes) : bytes :=
  match src with
  | [] => []
  | [a] =>
      let val := Z.shiftl (b2z a) 16 in
      [base64_char (Z.shiftr val 18); base64_char (Z.shiftr val 12)]
  | [a; b] =>
      let val := Z.lor (Z.shiftl (b2z a) 16) (Z.shiftl (b2z b) 8) in
      [base64_char (Z.shiftr val 18); base64_char (Z.shiftr val 12); base64_char (Z.shiftr val 6)]
  | a :: b :: c :: rest =>
      let val := Z.lor (Z.lor (Z.shiftl (b2z a) 16) (Z.shiftl (b2z b) 8)) (b2z c) in
      base64_char (Z.shiftr val 18) :: base64_char (Z.shiftr val 12) ::
      base64_char (Z.shiftr val 6) :: base64_char val :: base64_encode rest
  end.
End alphabet.

(** [RawURLEncoding.EncodedLen]. *)
Definition EncodedLen (n : Z) : Z := n / 3 * 4 + (n mod 3 * 8 + 5) / 6.

(** [RawURLEncoding.EncodeToString] and [StdEncoding.EncodeToString]. *)
Definition EncodeToString (src : bytes) : bytes := base64_encode url_alphabet src.

Definition base64_pad : byte := z2b 61.
Definition padding (n : Z) : nat := Z.to_nat ((3 - n mod 3) mod 3).
Definition StdEncodeToString (src : bytes) : bytes :=
  base64_encode std_alphabet src ++ replicate (padding (len src)) base64_pad.

Definition base64_quantum (v0 v1 v2 v3 : Z) : Z :=
  Z.lor (Z.lor (Z.lor (Z.shiftl v0 18) (Z.shiftl v1 12)) (Z.shiftl v2 6)) v3.

Fixpoint base64_quanta (strict : bool) (values : list Z) : option bytes :=
  match values with
  | [] => Some []
  | [_] => None
  | [v0; v1] =>
      let val := base64_quantum v0 v1 0 0 in
      if strict && bool_decide (z2b (Z.shiftr val 8) <> z2b 0 \/ z2b val <> z2b 0) then None
      else Some [z2b (Z.shiftr val 16)]
  | [v0; v1; v2] =>
      let val := base64_quantum v0 v1 v2 0 in
      if strict && bool_decide (z2b val <> z2b 0) then None
      else Some [z2b (Z.shiftr val 16); z2b (Z.shiftr val 8)]
  | v0 :: v1 :: v2 :: v3 :: rest =>
      let val := base64_quantum v0 v1 v2 v3 in
      rest' ← base64_quanta strict rest;
      Some (z2b (Z.shiftr val 16) :: z2b (Z.shiftr val 8) :: z2b val :: rest')
  end.

(** Line breaks, which the decoder skips. *)
Definition base64_skipped (c : byte) : Prop := c = z2b 10 \/ c = z2b 13.

Definition base64_text (s : bytes) : bytes := filter (fun c => ~ base64_skipped c) s.

(** [RawURLEncoding.Strict().DecodeString]; [None] is a [CorruptInputError]. *)
Definition DecodeString (s : bytes) : option bytes :=
  mapM (base64_value url_alphabet) (base64_text s) ≫= base64_quanta true.

(** [StdEncoding.DecodeString] and its strict variant: up to two padding
    characters complete the last group of four. *)
Fixpoint leading_pads (s : bytes) : nat :=
  match s with
  | c :: rest => if bool_decide (c = base64_pad) then S (leading_pads rest) else O
  | [] => O
  end.

Definition StdDecodeString (strict : bool) (s : bytes) : option bytes :=
  let text := base64_text s in
  let pads := leading_pads (reverse text) in
  if negb (len text mod 4 =? 0) || (2 <? Z.of_nat pads) then None
  else mapM (base64_value std_alphabet) (take (length text - pads) text) ≫= base64_quanta strict.

(** ** Facts *)

Lemma lor_shift a b n : 0 <= n -> 0 <= b < 2 ^ n -> Z.lor (Z.shiftl a n) b = a * 2 ^ n + b.
Proof.
  intros Hn Hb. rewrite <- Z.shiftl_mul_pow2 by lia. pose proof (Z.add_lor_land (Z.shiftl a n) b).
  enough (Z.land (Z.shiftl a n) b = 0) by lia. destruct (decide (b = 0)) as [->|]; [apply Z.land_0_r|].
  apply Z.bits_inj'. intros i Hi. rewrite Z.land_spec, Z.bits_0.
  destruct (decide (i < n)); [by rewrite Z.shiftl_spec_low by lia|].
  rewrite (Z.bits_above_log2 b i), andb_false_r; try done; [lia|].
  assert (Z.log2 b < n) by (apply Z.log2_lt_pow2; lia). lia.
Qed.

Definition alphabet_ok (alphabet : bytes) : Prop :=
  Forall (fun m => let c := default (z2b 0) (alphabet !! Z.to_nat m) in
                   base64_value alphabet c = Some m /\ ~ base64_skipped c /\ c <> base64_pad) (seqZ 0 64).

Lemma url_alphabet_ok : alphabet_ok url_alphabet.
Proof. unfold alphabet_ok. cbv zeta. apply (bool_decide_unpack _). vm_compute. done. Qed.

Lemma std_alphabet_ok : alphabet_ok std_alphabet.
Proof. unfold alphabet_ok. cbv zeta. apply (bool_decide_unpack _). vm_compute. done. Qed.

Lemma base64_values alphabet (v : Z) : alphabet_ok alphabet ->
  base64_value alphabet (base64_char alphabet v) = Some (v mod 64) /\
  ~ base64_skipped (base64_char alphabet v) /\ base64_char alphabet v <> base64_pad.
Proof.
  intros Hall. unfold base64_char. change 63 with (Z.ones 6). rewrite Z.land_ones by lia. change (2 ^ 6) with 64.
  pose proof (Z.mod_pos_bound v 64 ltac:(lia)) as Hr. unfold alphabet_ok in Hall. rewrite Forall_forall in Hall.
  apply (Hall (v mod 64)). apply elem_of_seqZ. lia.
Qed.

Lemma base64_quantum_spec v0 v1 v2 v3 :
  0 <= v1 < 64 -> 0 <= v2 < 64 -> 0 <= v3 < 64 ->
  base64_quantum v0 v1 v2 v3 = v0 * 262144 + v1 * 4096 + v2 * 64 + v3.
Proof.
  intros H1 H2 H3. unfold base64_quantum.
  rewrite (lor_shift v0) by (rewrite ?Z.shiftl_mul_pow2 by lia; lia).
  replace (v0 * 2 ^ 18 + Z.shiftl v1 12) with (Z.shiftl (v0 * 64 + v1) 12)
    by (rewrite !Z.shiftl_mul_pow2 by lia; lia).
  rewrite lor_shift by (rewrite ?Z.shiftl_mul_pow2 by lia; lia).
  replace ((v0 * 64 + v1) * 2 ^ 12 + Z.shiftl v2 6) with (Z.shiftl (v0 * 4096 + v1 * 64 + v2) 6)
    by (rewrite !Z.shiftl_mul_pow2 by lia; lia).
  rewrite lor_shift by lia. lia.
Qed.

Lemma base64_triple a b c :
  Z.lor (Z.lor (Z.shiftl (b2z a) 16) (Z.shiftl (b2z b) 8)) (b2z c) = b2z a * 65536 + b2z b * 256 + b2z c.
Proof.
  pose proof (b2z_range b). pose proof (b2z_range c).
  rewrite (lor_shift (b2z a)) by (rewrite ?Z.shiftl_mul_pow2 by lia; lia).
  replace (b2z a * 2 ^ 16 + Z.shiftl (b2z b) 8) with (Z.shiftl (b2z a * 256 + b2z b) 8)
    by (rewrite !Z.shiftl_mul_pow2 by lia; lia).
  rewrite lor_shift by lia. lia.
Qed.

(** The four six-bit groups of a 24-bit number give it back. *)
Lemma base64_groups val :
  0 <= val < 2 ^ 24 ->
  base64_quantum (Z.shiftr val 18 mod 64) (Z.shiftr val 12 mod 64) (Z.shiftr val 6 mod 64) (val mod 64) = val.
Proof.
  intros Hv. rewrite base64_quantum_spec by (apply Z.mod_pos_bound; lia).
  rewrite !Z.shiftr_div_pow2 by lia. change (2 ^ 18) with 262144. change (2 ^ 12) with 4096.
  change (2 ^ 6) with 64. Z.to_euclidean_division_equations. lia.
Qed.

Lemma z2b_eq z b : z mod 256 = b2z b -> z2b z = b.
Proof. intros H. apply (inj b2z). by rewrite b2z_z2b. Qed.

Lemma base64_bytes a b c (val := b2z a * 65536 + b2z b * 256 + b2z c) :
  z2b (Z.shiftr val 16) = a /\ z2b (Z.shiftr val 8) = b /\ z2b val = c.
Proof.
  pose proof (b2z_range a). pose proof (b2z_range b). pose proof (b2z_range c). subst val.
  rewrite !Z.shiftr_div_pow2 by lia. change (2 ^ 16) with 65536. change (2 ^ 8) with 256.
  split_and!; apply z2b_eq; Z.to_euclidean_division_equations; lia.
Qed.

Section roundtrip.
Variable alphabet : bytes.
Hypothesis fine : alphabet_ok alphabet.

Lemma base64_read_char v cs :
  mapM (base64_value alphabet) (base64_char alphabet v :: cs) = cons (v mod 64) <$> mapM (base64_value alphabet) cs.
Proof. destruct (base64_values alphabet v fine) as [Hv _]. simpl. rewrite Hv. simpl. by destruct (mapM _ _). Qed.

(** Decoding gives the encoded bytes back. *)
Lemma base64_quanta_encode strict : forall src,
  mapM (base64_value alphabet) (base64_encode alphabet src) ≫= base64_quanta strict = Some src.
Proof.
  fix IH 1. intros [|a [|b [|c rest]]]; [done| | |].
  - cbn [base64_encode]. rewrite !base64_read_char. cbn. pose proof (b2z_range a).
    destruct (base64_bytes a (z2b 0) (z2b 0)) as (Ha & Hb & Hc).
    rewrite Z.shiftl_mul_pow2 by lia. rewrite !b2z_z2b in *. change (0 mod 256) with 0 in *.
    rewrite !Z.add_0_r in *. change (2 ^ 16) with 65536 in *.
    pose proof (base64_groups (b2z a * 65536) ltac:(lia)) as Hg.
    replace (Z.shiftr (b2z a * 65536) 6 mod 64) with 0 in Hg
      by (rewrite Z.shiftr_div_pow2 by lia; Z.to_euclidean_division_equations; lia).
    replace ((b2z a * 65536) mod 64) with 0 in Hg by (Z.to_euclidean_division_equations; lia).
    rewrite Hg, Ha, Hb, Hc, bool_decide_false by naive_solver. by rewrite andb_false_r.
  - cbn [base64_encode]. rewrite !base64_read_char. cbn. pose proof (b2z_range a). pose proof (b2z_range b).
    destruct (base64_bytes a b (z2b 0)) as (Ha & Hb & Hc).
    rewrite lor_shift by (rewrite ?Z.shiftl_mul_pow2 by lia; lia). rewrite Z.shiftl_mul_pow2 by lia.
    rewrite !b2z_z2b in *. change (0 mod 256) with 0 in *.
    rewrite !Z.add_0_r in *. change (2 ^ 16) with 65536 in *. change (2 ^ 8) with 256 in *.
    pose proof (base64_groups (b2z a * 65536 + b2z b * 256) ltac:(lia)) as Hg.
    replace ((b2z a * 65536 + b2z b * 256) mod 64) with 0 in Hg by (Z.to_euclidean_division_equations; lia).
    rewrite Hg, Ha, Hb, Hc, bool_decide_false by naive_solver. by rewrite andb_false_r.
  - cbn [base64_encode]. rewrite !base64_read_char. specialize (IH rest).
    pose proof (b2z_range a). pose proof (b2z_range b). pose proof (b2z_range c).
    destruct (mapM (base64_value alphabet) (base64_encode alphabet rest)) as [values|]; [|done]. cbn in IH |- *.
    destruct (base64_bytes a b c) as (Ha & Hb & Hc). rewrite base64_triple, base64_groups by lia.
    rewrite IH, Ha, Hb, Hc. done.
Qed.

Lemma base64_encode_text : forall src, Forall (fun c => ~ base64_skipped c /\ c <> base64_pad) (base64_encode alphabet src).
Proof.
  fix IH 1. intros [|a [|b [|c rest]]]; cbn [base64_encode]; repeat constructor; try apply base64_values; try done.
Qed.
End roundtrip.

Lemma base64_text_id s : Forall (fun c => ~ base64_skipped c) s -> base64_text s = s.
Proof. apply filter_all. Qed.

Lemma base64_decode_encode src : DecodeString (EncodeToString src) = Some src.
Proof.
  unfold DecodeString, EncodeToString. rewrite base64_text_id; [apply base64_quanta_encode, url_alphabet_ok|].
  eapply Forall_impl; [apply base64_encode_text, url_alphabet_ok|]. naive_solver.
Qed.

Lemma len_base64_encode alphabet : forall src, len (base64_encode alphabet src) = EncodedLen (len src).
Proof.
  fix IH 1. intros [|a [|b [|c rest]]]; [done..|].
  cbn [base64_encode]. rewrite !len_cons, IH. unfold EncodedLen.
  replace (1 + (1 + (1 + len rest))) with (len rest + 1 * 3) by lia.
  rewrite Z.div_add, Z.mod_add by lia. lia.
Qed.

Lemma len_EncodeToString src : len (EncodeToString src) = EncodedLen (len src).
Proof. apply len_base64_encode. Qed.

Lemma EncodedLen_le n m : 0 <= n <= m -> EncodedLen n <= EncodedLen m.
Proof. intros H. unfold EncodedLen. Z.to_euclidean_division_equations. lia. Qed.

(** ** Padding *)

Lemma leading_pads_replicate n s :
  Forall (fun c => c <> base64_pad) s -> leading_pads (replicate n base64_pad ++ s) = n.
Proof.
  intros Hs. induction n as [|n IH]; simpl; [|by rewrite IH].
  destruct Hs as [|c s Hc]; [done|]. simpl. by rewrite bool_decide_false.
Qed.

Lemma padding_range n : (padding n <= 2)%nat.
Proof. unfold padding. pose proof (Z.mod_pos_bound (3 - n mod 3) 3). lia. Qed.

Lemma len_StdEncodeToString src : len (StdEncodeToString src) = (len src + 2) / 3 * 4.
Proof.
  unfold StdEncodeToString. rewrite len_app, len_base64_encode. unfold len at 2. rewrite length_replicate.
  pose proof (len_nonneg src). unfold padding, EncodedLen. rewrite Z2Nat.id by (apply Z.mod_pos_bound; lia).
  Z.to_euclidean_division_equations. lia.
Qed.

Lemma std_text src : base64_text (StdEncodeToString src) = StdEncodeToString src.
Proof.
  apply base64_text_id, Forall_app. split.
  - eapply Forall_impl; [apply base64_encode_text, std_alphabet_ok|]. naive_solver.
  - apply Forall_replicate. by intros [?|?].
Qed.

(** The standard encoding, in either mode. *)
Lemma std_decode_encode strict src : StdDecodeString strict (StdEncodeToString src) = Some src.
Proof.
  unfold StdDecodeString. rewrite std_text, len_StdEncodeToString, Z.mod_mul by lia. unfold StdEncodeToString.
  rewrite reverse_app, reverse_replicate, leading_pads_replicate.
  - pose proof (padding_range (len src)). replace (_ || _) with false by (change (0 =? 0) with true; simpl; lia).
    rewrite length_app, length_replicate, Nat.add_sub, take_app_length. apply base64_quanta_encode, std_alphabet_ok.
  - apply Forall_reverse. eapply Forall_impl; [apply base64_encode_text, std_alphabet_ok|]. naive_solver.
Qed.
