(* ===== verification/Cursor.v ===== *)
(** * Scan cursors (internal/engine/scan.go)

    The opaque text that continues a scan: a checksummed binary record of the
    prefix, the last key returned, the observed revision and the effective
    time, in base64url.  The codec is exact: a text is accepted if and only if
    it is the encoding of a well-formed cursor of this database. *)

From stdpp Require Import base list strings.
From Stdlib Require Import ZArith Lia.
From S2P Require Import Prelude.
From S2P Require Import Bytes.
From S2P Require Import Errors.
From S2P Require Import Checksum.
From S2P Require Import ApiTypes.
From S2P Require Import StorageErrors.
From S2P Require Import WalCodec.
From S2P Require Import Engine.
From S2P Require Import EngineInv.
From S2P Require Import Base64.

Local Open Scope Z_scope.
Local Open Scope go_scope.

Definition scanCursorFixedBytes : Z := 52.

Record scanCursor := MkCursor {
  cur_prefix : bytes;
  cur_lastKey : bytes;
  cur_revision : Revision;
  cur_asOf : Time
}.

Definition invalidCursor (reason : string) : goerror :=
  ErrGap (newError CodeInvalidCursor "The scan cursor is invalid." RetryNever
    [EvReason reason] [ActionRestartScan; ActionAbort]).

(** All fields but the checksum. *)
Definition scanCursorBody (databaseID : DatabaseID) (cursor : scanCursor) : bytes :=
  lit "GAPCUR01" ++ databaseID ++ be_encode 8 (cur_revision cursor)
  ++ be_encode 8 (wrap_u64 (UnixNano (cur_asOf cursor)))
  ++ be_encode 4 (len (cur_prefix cursor)) ++ be_encode 4 (len (cur_lastKey cursor))
  ++ cur_prefix cursor ++ cur_lastKey cursor.

Definition scanCursorImage (databaseID : DatabaseID) (cursor : scanCursor) : bytes :=
  let body := scanCursorBody databaseID cursor in body ++ be_encode 4 (crc32c body).

Definition encodeScanCursor (databaseID : DatabaseID) (cursor : scanCursor) : bytes :=
  EncodeToString (scanCursorImage databaseID cursor).

(** The part of [decodeScanCursor] after the base64 text is canonical. *)
Definition parseScanCursor (databaseID : DatabaseID) (limits : Limits) (encoded : bytes) :
    result goerror scanCursor :=
  reject negb (bool_decide (slice encoded 0 8 = lit "GAPCUR01")) ||
         negb (bool_decide (slice encoded 8 24 = databaseID))
    with invalidCursor "cursor version or database ID does not match" ;;
  let prefixBytes := be_decode (slice encoded 40 44) in
  let lastBytes := be_decode (slice encoded 44 48) in
  reject (MaxKeyBytes limits <? prefixBytes) || (MaxKeyBytes limits <? lastBytes) ||
         negb (scanCursorFixedBytes + prefixBytes + lastBytes =? len encoded)
    with invalidCursor "cursor field lengths are invalid" ;;
  reject negb (crc32c (slice encoded 0 (len encoded - 4)) =?
               be_decode (slice encoded (len encoded - 4) (len encoded)))
    with invalidCursor "cursor checksum does not match" ;;
  let prefixEnd := 48 + prefixBytes in
  let prefix := slice encoded 48 prefixEnd in
  let last := slice encoded prefixEnd (len encoded - 4) in
  reject negb (utf8_valid prefix) || negb (utf8_valid last) || bool_decide (last = []) ||
         negb (has_prefix last prefix)
    with invalidCursor "cursor key fields are invalid" ;;
  let asOf := time_Unix0 (wrap_i64 (be_decode (slice encoded 32 40))) in
  reject negb (expiryRepresentable asOf) with invalidCursor "cursor as-of time is invalid" ;;
  Ok (MkCursor prefix last (be_decode (slice encoded 24 32)) asOf).

Definition decodeScanCursor (databaseID : DatabaseID) (limits : Limits) (value : bytes) :
    result goerror scanCursor :=
  let maximumDecoded := scanCursorFixedBytes + 2 * MaxKeyBytes limits in
  reject EncodedLen maximumDecoded <? len value
    with invalidCursor "cursor exceeds the configured bound" ;;
  match DecodeString value with
  | None => Err (invalidCursor "cursor is not canonical base64url or has an invalid size")
  | Some encoded =>
      reject (len encoded <? scanCursorFixedBytes) || (maximumDecoded <? len encoded)
        with invalidCursor "cursor is not canonical base64url or has an invalid size" ;;
      reject negb (bool_decide (EncodeToString encoded = value))
        with invalidCursor "cursor is not canonical base64url or has an invalid size" ;;
      parseScanCursor databaseID limits encoded
  end.

(** ** Facts *)

Definition cursor_wf (limits : Limits) (c : scanCursor) : Prop :=
  utf8_valid (cur_prefix c) = true /\ utf8_valid (cur_lastKey c) = true /\ cur_lastKey c <> [] /\
  has_prefix (cur_lastKey c) (cur_prefix c) = true /\
  len (cur_prefix c) <= MaxKeyBytes limits /\ len (cur_lastKey c) <= MaxKeyBytes limits /\
  0 <= cur_revision c <= max_uint64 /\ - 2 ^ 63 <= cur_asOf c < 2 ^ 63.

Section codec.
Context (limits : Limits) (databaseID : DatabaseID).
Hypothesis limits_fine : limits_ok limits.
Hypothesis id_length : length databaseID = 16%nat.

Lemma len_scanCursorBody c :
  len (scanCursorBody databaseID c) = 48 + len (cur_prefix c) + len (cur_lastKey c).
Proof.
  unfold scanCursorBody. rewrite !len_app, !len_be_encode. unfold len at 2. rewrite id_length.
  change (len (lit "GAPCUR01")) with 8. lia.
Qed.

(** The image as one concatenation, and its fields. *)
Lemma scanCursorImage_fields c :
  0 <= cur_revision c <= max_uint64 -> len (cur_prefix c) < 2 ^ 32 -> len (cur_lastKey c) < 2 ^ 32 ->
  let e := scanCursorImage databaseID c in let body := scanCursorBody databaseID c in
  len e = 52 + len (cur_prefix c) + len (cur_lastKey c) /\
  slice e 0 8 = lit "GAPCUR01" /\ slice e 8 24 = databaseID /\
  be_decode (slice e 24 32) = cur_revision c /\
  be_decode (slice e 32 40) = wrap_u64 (UnixNano (cur_asOf c)) /\
  be_decode (slice e 40 44) = len (cur_prefix c) /\ be_decode (slice e 44 48) = len (cur_lastKey c) /\
  slice e 48 (48 + len (cur_prefix c)) = cur_prefix c /\
  slice e (48 + len (cur_prefix c)) (len e - 4) = cur_lastKey c /\
  slice e 0 (len e - 4) = body /\ be_decode (slice e (len e - 4) (len e)) = crc32c body.
Proof.
  intros Hrev Hlp Hll. pose proof (len_scanCursorBody c) as Hbody. unfold scanCursorImage. cbv zeta.
  pose proof (crc32c_range (scanCursorBody databaseID c)) as Hr. set (body := scanCursorBody databaseID c) in *.
  pose proof (len_nonneg (cur_prefix c)). pose proof (len_nonneg (cur_lastKey c)).
  set (crc := be_encode 4 (crc32c body)).
  assert (len crc = 4) as Hcrc by apply len_be_encode.
  assert (len (body ++ crc) = len body + 4) as Hlen by (rewrite len_app; lia).
  assert (slice (body ++ crc) 0 (len (body ++ crc) - 4) = body) as -> by (rewrite Hlen; slice_fields; done).
  assert (slice (body ++ crc) (len (body ++ crc) - 4) (len (body ++ crc)) = crc) as ->
    by (rewrite Hlen; slice_fields; done).
  assert (be_decode crc = crc32c body) as -> by (apply be4_roundtrip; unfold max_uint32; lia).
  rewrite Hlen, Hbody.
  pose proof (wrap_u64_range (UnixNano (cur_asOf c))).
  clearbody crc. subst body. unfold scanCursorBody. rewrite <- !app_assoc. slice_fields.
  rewrite !be8_roundtrip, !be4_roundtrip by (done || unfold max_uint32; lia). split_and!; done || lia.
Qed.

Lemma parse_scanCursorImage c :
  cursor_wf limits c -> parseScanCursor databaseID limits (scanCursorImage databaseID c) = Ok c.
Proof.
  intros (Hup & Hul & Hne & Hpre & Hlp & Hll & Hrev & Hasof).
  pose proof (limits_ok_fields _ limits_fine) as Hfields.
  destruct (scanCursorImage_fields c Hrev ltac:(lia) ltac:(lia))
    as (Hlen & Hmagic & Hid & Hr & Ht & Hp & Hk & Hpre' & Hlast & Hbody & Hcrc).
  unfold parseScanCursor. rewrite Hmagic, Hid, Hr, Ht, Hp, Hk. pass by (by rewrite !bool_decide_true).
  rewrite Hpre', Hlast, Hbody, Hcrc, Hlen. unfold scanCursorFixedBytes.
  rewrite wrap_i64_wrap_u64.
  assert (wrap_i64 (UnixNano (cur_asOf c)) = cur_asOf c) as Hnano
    by (unfold UnixNano; by rewrite !wrap_i64_small by (rewrite ?wrap_i64_small; done)).
  pass by (rewrite !(proj2 (Z.ltb_ge _ _)) by done; simpl; apply negb_false_iff, Z.eqb_eq; lia).
  pass by (by rewrite Z.eqb_refl).
  pass by (rewrite Hup, Hul, Hpre; simpl; by rewrite bool_decide_false).
  unfold time_Unix0. rewrite Hnano. pass by (apply negb_false_iff, expiryRepresentable_true; done).
  by destruct c.
Qed.

Lemma parseScanCursor_image encoded c :
  52 <= len encoded -> parseScanCursor databaseID limits encoded = Ok c ->
  cursor_wf limits c /\ scanCursorImage databaseID c = encoded.
Proof.
  intros Hlen Hd. unfold parseScanCursor, scanCursorFixedBytes in Hd. cbv zeta in Hd.
  set (n := len encoded) in *.
  set (p := be_decode (slice encoded 40 44)) in *. set (k := be_decode (slice encoded 44 48)) in *.
  destruct (_ || _) eqn:H1 in Hd; [done|]. destruct (_ || _) eqn:H2 in Hd; [done|].
  destruct (negb _) eqn:H3 in Hd; [done|]. destruct (_ || _) eqn:H4 in Hd; [done|].
  destruct (negb _) eqn:H5 in Hd; [done|]. injection Hd as <-.
  apply negb_false_iff, Z.eqb_eq in H3. go_bool. rewrite Z.eqb_eq in *. rewrite Z.ltb_ge in *. unfold time_Unix0 in *.
  pose proof (be_decode_range (slice encoded 40 44)). pose proof (be_decode_range (slice encoded 44 48)).
  pose proof (be_decode_range (slice encoded 24 32)) as Hrev. rewrite len_slice in Hrev by lia.
  split.
  - unfold cursor_wf. cbn [cur_prefix cur_lastKey cur_revision cur_asOf].
    rewrite !len_slice by lia. unfold max_uint64. split_and!; try done; try lia; try apply wrap_i64_range.
  - unfold scanCursorImage, scanCursorBody. cbn [cur_prefix cur_lastKey cur_revision cur_asOf].
    rewrite !len_slice by lia. replace (48 + p - 48) with p by lia. replace (n - 4 - (48 + p)) with k by lia.
    pose proof (wrap_u64_wrap_i64_decode encoded 32 ltac:(lia) ltac:(lia)) as Hnano.
    change (32 + 8) with 40 in Hnano. rewrite Hnano. subst p k databaseID.
    rewrite !be_encode_slice by lia. replace (lit "GAPCUR01") with (slice encoded 0 8).
    rewrite <- !slice_split by lia. rewrite H3, be_encode_slice, <- slice_split by lia. apply slice_full.
Qed.

Lemma decode_encodes value c :
  decodeScanCursor databaseID limits value = Ok c <->
  cursor_wf limits c /\ value = encodeScanCursor databaseID c.
Proof.
  pose proof (limits_ok_fields _ limits_fine) as Hfields.
  unfold decodeScanCursor, scanCursorFixedBytes, encodeScanCursor. cbv zeta. split.
  - destruct (_ <? _); [done|]. destruct (DecodeString value) as [encoded|]; [|done].
    destruct (_ || _) eqn:Hn; [done|]. destruct (bool_decide_reflect (EncodeToString encoded = value)); [|done].
    intros (Hwf & <-)%parseScanCursor_image; [done|]. go_bool. lia.
  - intros (Hwf & ->). pose proof Hwf as (_ & _ & _ & _ & Hlp & Hll & Hrev & _).
    destruct (scanCursorImage_fields c Hrev ltac:(lia) ltac:(lia)) as (Hlen & _).
    pose proof (len_nonneg (cur_prefix c)). pose proof (len_nonneg (cur_lastKey c)).
    rewrite len_EncodeToString, base64_decode_encode.
    pass by (apply Z.ltb_ge, EncodedLen_le; lia). pass by (apply orb_false_iff; lia).
    pass by (by rewrite bool_decide_true). by apply parse_scanCursorImage.
Qed.

(** The codec of scan cursors is exact: a text is accepted if and only if
    it is what [encodeScanCursor] writes for that cursor, whose fields are
    valid keys within the limits, the last key under the prefix, and a
    representable time.  A cursor of another database, an altered one, or one
    with line breaks or spare bits is refused. *)
Theorem scan_cursor_codec value c :
  decodeScanCursor databaseID limits value = Ok c <->
  cursor_wf limits c /\ value = encodeScanCursor databaseID c.
Proof. apply decode_encodes. Qed.
End codec.

Module SampleCursor.
Definition id : DatabaseID := lit "0123456789abcdef".
Definition cursor : scanCursor := MkCursor (lit "jobs/") (lit "jobs/17") 42 1700000000000000000.
End SampleCursor.

Lemma scan_cursor_codec_witness :
  decodeScanCursor SampleCursor.id DefaultOptions (encodeScanCursor SampleCursor.id SampleCursor.cursor) =
    Ok SampleCursor.cursor.
Proof.
  apply scan_cursor_codec; [apply DefaultOptions_ok|reflexivity|].
  split; [|reflexivity]. split_and!; vm_compute; done.
Defined.
