(* ===== verification/Scan.v ===== *)
(** * Prefix scans (internal/engine/scan.go)

    [ScanPrefix] returns one page of the live records under a prefix, in key
    order, bounded in records and bytes, and a cursor when more follow.  A page
    holds exactly the records the contract names, and following the cursors of
    an unchanged database visits every record once. *)

From stdpp Require Import base gmap list strings sorting.
From Stdlib Require Import ZArith Lia.
From S2P Require Import Prelude.
From S2P Require Import Bytes.
From S2P Require Import Errors.
From S2P Require Import ApiTypes.
From S2P Require Import Clock.
From S2P Require Import StorageErrors.
From S2P Require Import WalCodec.
From S2P Require Import OrderedKeys.
From S2P Require Import Engine.
From S2P Require Import EngineInv.
From S2P Require Import Base64.
From S2P Require Import Cursor.

Local Open Scope Z_scope.
Local Open Scope go_scope.

Definition scanRecordBytes (record : DBRecord) : Z :=
  let bytes := 32 + len (RecKey record) + len (RecValue record) in
  match RecExpiresAt record with Some _ => bytes + 8 | None => bytes end.

Definition scanStale (message : string) (cursorRevision current : Revision) : goerror :=
  ErrGap (newError CodeScanStale message RetryAfterRescan
    [EvCursorRevision cursorRevision; EvCurrentRevision current] [ActionRestartScan; ActionAbort]).

Definition frameTooLarge (message : string) (received maximum : Z) : goerror :=
  ErrGap (newError CodeFrameTooLarge message RetryNever
    [EvReceivedBytes received; EvMaximumBytes maximum] [ActionReduceRequest; ActionAbort]).

(** The loop over the ordered keys from the start of the page: the records of
    the page and whether it is truncated. *)
Fixpoint scan_page_loop (maxBytes : Z) (records : gmap bytes DBRecord) (prefix : bytes) (asOf : Time)
    (limit : Z) (keys : list bytes) (page : list DBRecord) (used : Z) :
    result goerror (list DBRecord * bool) :=
  match keys with
  | [] => Ok (page, false)
  | key :: rest =>
      if negb (has_prefix key prefix) then Ok (page, false)
      else match (records !! key : option DBRecord) with
      | None => Err (internalFailure "engine-ordered-key-index" false None)
      | Some record =>
          if recordExpired record asOf
          then scan_page_loop maxBytes records prefix asOf limit rest page used
          else
            let bytes := scanRecordBytes record in
            if (len page =? limit) || (maxBytes <? used + bytes) then
              if len page =? 0
              then Err (frameTooLarge "A scan record exceeds the configured page byte limit." bytes maxBytes)
              else Ok (page, true)
            else scan_page_loop maxBytes records prefix asOf limit rest (page ++ [record]) (used + bytes)
      end
  end.

Section scan.
Context {C A L F : Type} `{Clock C}.
Abbreviation state := (DatabaseState C A L F).
Implicit Types st : state.

(** The page that starts at a cursor, or at the prefix without one. *)
Definition scanFrom (prefix : bytes) (limit : Z) (cursor : option scanCursor) (asOf : Time) st :
    result goerror ScanPage :=
  let keys := ks_keys (st_orderedKeys st) in
  let start := Search (len keys) (fun index =>
    match cursor with
    | Some c => bytes_ltb (cur_lastKey c) (key_at keys index)
    | None => negb (bytes_ltb (key_at keys index) prefix)
    end) in
  match scan_page_loop (MaxScanBytes (st_limits st)) (st_records st) prefix asOf limit
          (drop (Z.to_nat start) keys) [] 0 with
  | Err e => Err e
  | Ok (page, truncated) =>
      let next := if truncated : bool then
                    encodeScanCursor (st_databaseID st)
                      (MkCursor prefix (from_option RecKey [] (last page)) (st_current st) asOf)
                  else [] in
      Ok (MkScanPage (st_current st) asOf page next truncated)
  end.

Definition ScanPrefix (prefix : bytes) (limit : Z) (encodedCursor : bytes) st : result goerror ScanPage * state :=
  match validatePrefix prefix (st_limits st) with
  | Some e => (Err e, st)
  | None =>
      if (limit <=? 0) || (MaxScanRecords (st_limits st) <? limit)
      then (Err (invalidField "limit" "must be between 1 and the configured scan-record limit"), st)
      else
        let read cursor :=
          let (now, c) := Nondecreasing_Now (st_clock st) in
          let st := set_clock c st in
          match cursor with
          | None => (scanFrom prefix limit None now st, st)
          | Some cursor =>
              if negb (cur_revision cursor =? st_current st)
              then (Err (scanStale "The database changed after the scan page was created."
                           (cur_revision cursor) (st_current st)), st)
              else (scanFrom prefix limit (Some cursor) (cur_asOf cursor) st, st)
          end in
        if bool_decide (encodedCursor = []) then read None
        else match decodeScanCursor (st_databaseID st) (st_limits st) encodedCursor with
             | Err e => (Err e, st)
             | Ok cursor =>
                 if negb (bool_decide (cur_prefix cursor = prefix))
                 then (Err (invalidCursor "cursor prefix does not match request prefix"), st)
                 else read (Some cursor)
             end
  end.
End scan.

(** ** What a scan is to return *)

Definition visible (records : gmap bytes DBRecord) (prefix : bytes) (asOf : Time) (keys : list bytes) :
    list DBRecord :=
  omap (fun k => if has_prefix k prefix then
                   r ← (records !! k : option DBRecord); if recordExpired r asOf then None else Some r
                 else None) keys.

Definition scan_bytes (l : list DBRecord) : Z := foldr (fun r n => scanRecordBytes r + n) 0 l.

Lemma scan_bytes_snoc l r : scan_bytes (l ++ [r]) = scan_bytes l + scanRecordBytes r.
Proof. induction l as [|x l IH]; simpl; [lia|]. unfold scan_bytes in *. lia. Qed.

Lemma visible_app records prefix asOf l k :
  visible records prefix asOf (l ++ k) = visible records prefix asOf l ++ visible records prefix asOf k.
Proof. apply omap_app. Qed.

Definition shown (records : gmap bytes DBRecord) (prefix : bytes) (asOf : Time) (k : bytes) : list DBRecord :=
  visible records prefix asOf [k].

Lemma visible_cons records prefix asOf k keys :
  visible records prefix asOf (k :: keys) = shown records prefix asOf k ++ visible records prefix asOf keys.
Proof. apply (visible_app _ _ _ [k]). Qed.

Lemma shown_live records prefix asOf k r :
  has_prefix k prefix = true -> records !! k = Some r ->
  shown records prefix asOf k = if recordExpired r asOf then [] else [r].
Proof. intros Hp Hr. unfold shown, visible. simpl. rewrite Hp, Hr. simpl. by destruct (recordExpired _ _). Qed.

Lemma shown_other records prefix asOf k : has_prefix k prefix = false -> shown records prefix asOf k = [].
Proof. intros Hp. unfold shown, visible. simpl. by rewrite Hp. Qed.

(** Keys without the prefix contribute nothing. *)
Lemma visible_nil records prefix asOf keys :
  Forall (fun k => has_prefix k prefix = false) keys -> visible records prefix asOf keys = [].
Proof.
  induction 1 as [|k keys Hk _ IH]; [done|]. by rewrite visible_cons, IH, app_nil_r, shown_other.
Qed.

(** A page is a prefix of the visible records, within both limits and as long
    as they allow. *)
Definition page_ok (maxBytes limit : Z) (all page : list DBRecord) (truncated : bool) : Prop :=
  exists rest, all = page ++ rest /\ len page <= limit /\ scan_bytes page <= maxBytes /\
    match rest with
    | [] => truncated = false
    | r :: _ => truncated = true /\ page <> [] /\
                (len page = limit \/ maxBytes < scan_bytes page + scanRecordBytes r)
    end.

Definition page_error (maxBytes : Z) (all : list DBRecord) (e : goerror) : Prop :=
  exists r rest, all = r :: rest /\ maxBytes < scanRecordBytes r /\
    e = frameTooLarge "A scan record exceeds the configured page byte limit." (scanRecordBytes r) maxBytes.

Lemma scan_page_loop_spec maxBytes records prefix asOf limit keys done :
  strictly_sorted keys -> Forall (fun k => bytes_le prefix k) keys ->
  Forall (fun k => is_Some (records !! k)) keys ->
  1 <= limit -> 0 <= maxBytes -> len done <= limit -> scan_bytes done <= maxBytes ->
  match scan_page_loop maxBytes records prefix asOf limit keys done (scan_bytes done) with
  | Ok (page, truncated) => page_ok maxBytes limit (done ++ visible records prefix asOf keys) page truncated
  | Err e => page_error maxBytes (done ++ visible records prefix asOf keys) e
  end.
Proof.
  intros Hs Hle Hrec Hlimit Hmax. revert done. induction keys as [|key keys IH]; intros done Hlen Hb.
  { simpl. exists []. by rewrite app_nil_r. }
  rewrite visible_cons. cbn [scan_page_loop].
  apply Forall_cons in Hle as [Hpk Hle], Hrec as [[record Hr] Hrec]. apply StronglySorted_inv in Hs as [Hs Hall].
  specialize (IH Hs Hle Hrec).
  destruct (has_prefix key prefix) eqn:Hp; cbn [negb].
  2:{ exists []. rewrite shown_other, visible_nil, !app_nil_r; [done| |done].
      eapply Forall_impl; [exact Hall|]. intros k Hk. eapply has_prefix_break; [exact Hpk|done|by apply bytes_lt_le]. }
  rewrite Hr, (shown_live _ _ _ _ record) by done.
  destruct (recordExpired record asOf); [exact (IH done Hlen Hb)|].
  destruct (_ || _) eqn:Hfull.
  - destruct (Z.eqb_spec (len done) 0) as [Hz|Hz].
    + apply len_nil_iff in Hz as ->. exists record, (visible records prefix asOf keys). split; [done|].
      change (scan_bytes []) with 0 in *. change (len (@nil DBRecord)) with 0 in *. apply orb_true_iff in Hfull. split; [lia|done].
    + eexists. split; [done|]. split; [done|]. split; [done|]. split; [done|].
      split; [by intros ->|]. apply orb_true_iff in Hfull. lia.
  - apply orb_false_iff in Hfull as [Hn Hbytes]. rewrite <- scan_bytes_snoc.
    specialize (IH (done ++ [record])). rewrite <- app_assoc in IH. simpl in IH. apply IH.
    + rewrite len_app. unfold len at 2. simpl. lia.
    + rewrite scan_bytes_snoc. lia.
Qed.

(** ** Where a page starts *)

Lemma search_drop (P : bytes -> bool) keys :
  strictly_sorted keys -> len keys < 2 ^ 63 ->
  (forall a b, bytes_lt a b -> P a = true -> P b = true) ->
  drop (Z.to_nat (Search (len keys) (fun i => P (key_at keys i)))) keys = filter (fun k => P k = true) keys.
Proof.
  intros Hs Hlen Hup. pose proof (len_nonneg keys).
  destruct (Search_spec (fun i => P (key_at keys i)) (len keys)) as (Hr & Hlo & Hhi); [lia| |].
  { intros i j Hij Hj Hi. destruct (decide (i = j)) as [->|]; [done|]. eapply Hup; [|exact Hi].
    eapply (strictly_sorted_lookup keys (Z.to_nat i) (Z.to_nat j));
      [done|apply key_at_lookup; lia|apply key_at_lookup; lia|lia]. }
  set (n := Z.to_nat (Search _ _)) in *. rewrite <- (take_drop n keys) at 2. rewrite filter_app.
  assert (filter (fun k => P k = true) (take n keys) = []) as ->.
  { apply filter_none, Forall_forall. intros x (i & Hi)%list_elem_of_lookup.
    apply lookup_take_Some in Hi as [Hi Hn]. specialize (Hlo (Z.of_nat i) ltac:(lia)).
    unfold key_at in Hlo. rewrite Nat2Z.id, Hi in Hlo. simpl in Hlo. by rewrite Hlo. }
  symmetry. apply filter_all. apply Forall_forall. intros x (i & Hi)%list_elem_of_lookup.
  rewrite lookup_drop in Hi. pose proof (lookup_lt_Some _ _ _ Hi).
  specialize (Hhi (Z.of_nat (n + i)) ltac:(unfold len in *; lia)).
  unfold key_at in Hhi. by rewrite Nat2Z.id, Hi in Hhi.
Qed.

Lemma sorted_filter (P : bytes -> Prop) `{!forall k, Decision (P k)} keys :
  strictly_sorted keys -> strictly_sorted (filter P keys).
Proof.
  induction 1 as [|k keys Hs IH Hk]; [constructor|]. rewrite filter_cons. destruct (decide _); [|done].
  constructor; [done|]. apply Forall_forall. intros k' [_ Hk']%list_elem_of_filter.
  rewrite Forall_forall in Hk. by apply Hk.
Qed.

(** The records after a key. *)
Definition after (last : bytes) (l : list DBRecord) : list DBRecord :=
  filter (fun r => bytes_ltb last (RecKey r) = true) l.

Section visible.
Variable records : gmap bytes DBRecord.
Hypothesis keyed : map_Forall (fun k r => RecKey r = k) records.

Lemma shown_cases prefix asOf k :
  shown records prefix asOf k = [] \/
  exists r, shown records prefix asOf k = [r] /\ RecKey r = k /\ records !! k = Some r /\
    has_prefix k prefix = true /\ recordExpired r asOf = false.
Proof.
  destruct (has_prefix k prefix) eqn:Hp; [|left; by apply shown_other].
  destruct (records !! k) as [r|] eqn:Hr; [|left; unfold shown, visible; simpl; by rewrite Hp, Hr].
  rewrite (shown_live _ _ _ _ r) by done. destruct (recordExpired r asOf) eqn:Hx; [by left|right].
  exists r. split_and!; try done. by apply (keyed k).
Qed.

Lemma visible_after prefix asOf last keys :
  visible records prefix asOf (filter (fun k => bytes_ltb last k = true) keys) =
  after last (visible records prefix asOf keys).
Proof.
  induction keys as [|k keys IH]; [done|]. rewrite visible_cons. unfold after. rewrite filter_app, filter_cons.
  fold (after last (visible records prefix asOf keys)). rewrite <- IH.
  destruct (decide (bytes_ltb last k = true)) as [Hl|Hl]; [rewrite visible_cons; f_equal|];
    destruct (shown_cases prefix asOf k) as [->|(r & -> & Hk & _)]; try done.
  - by rewrite filter_cons_True by (by rewrite Hk).
  - by rewrite filter_cons_False by (by rewrite Hk).
Qed.

Lemma visible_from prefix asOf keys :
  visible records prefix asOf (filter (fun k => negb (bytes_ltb k prefix) = true) keys) =
  visible records prefix asOf keys.
Proof.
  induction keys as [|k keys IH]; [done|]. rewrite filter_cons. destruct (decide _) as [Hl|Hl].
  - by rewrite !visible_cons, IH.
  - rewrite visible_cons, IH, shown_other; [done|]. apply not_true_iff_false. intros Hp%has_prefix_le. done.
Qed.

Lemma elem_of_visible prefix asOf keys r :
  r ∈ visible records prefix asOf keys <->
  RecKey r ∈ keys /\ records !! RecKey r = Some r /\ has_prefix (RecKey r) prefix = true /\
  recordExpired r asOf = false.
Proof.
  unfold visible. rewrite list_elem_of_omap. split.
  - intros (k & Hk & Hr). destruct (has_prefix k prefix) eqn:Hp; [|done].
    destruct (records !! k) as [r'|] eqn:Hl; [|done]. simpl in Hr.
    destruct (recordExpired r' asOf) eqn:Hx; simplify_eq. rewrite (keyed k r Hl). done.
  - intros (Hk & Hl & Hp & Hx). exists (RecKey r). rewrite Hp, Hl. simpl. by rewrite Hx.
Qed.

Lemma visible_sorted prefix asOf keys :
  strictly_sorted keys -> strictly_sorted (RecKey <$> visible records prefix asOf keys).
Proof.
  induction 1 as [|k keys Hs IH Hk]; [constructor|]. rewrite visible_cons, fmap_app.
  destruct (shown_cases prefix asOf k) as [->|(r & -> & Hkr & _)]; [done|]. simpl. constructor; [done|].
  rewrite Hkr. apply Forall_fmap, Forall_forall. intros r' (Hin & _)%elem_of_visible. simpl.
  rewrite Forall_forall in Hk. by apply Hk.
Qed.
End visible.

(** What follows the last record of a sorted list. *)
Lemma after_last l rest r :
  strictly_sorted (RecKey <$> l ++ rest) -> last l = Some r -> after (RecKey r) (l ++ rest) = rest.
Proof.
  intros Hs Hl. apply last_Some in Hl as [l' ->]. rewrite !fmap_app in Hs. simpl in Hs.
  apply StronglySorted_app in Hs as (Hr & Hs & _). apply StronglySorted_app in Hs as (Hb & _ & _).
  unfold after. rewrite !filter_app, (filter_none _ l'), (filter_none _ [r]), (filter_all _ rest); [done| | |].
  - apply Forall_forall. intros r' Hr'. apply Hr; [|by apply list_elem_of_fmap_2]. set_solver.
  - repeat constructor. simpl. by rewrite bytes_ltb_irrefl.
  - apply Forall_forall. intros r' Hr'. rewrite bytes_ltb_asym; [done|].
    apply Hb; [by apply list_elem_of_fmap_2|set_solver].
Qed.

(** ** Pages *)

Section pages.
Context {C A L F : Type} `{Clock C}.
Implicit Types st : DatabaseState C A L F.

(** The live records under the prefix, in key order. *)
Definition live_records (prefix : bytes) (asOf : Time) st : list DBRecord :=
  visible (st_records st) prefix asOf (ks_keys (st_orderedKeys st)).

Definition page_spec (prefix : bytes) (limit : Z) (asOf : Time) st (all : list DBRecord)
    (r : result goerror ScanPage) : Prop :=
  match r with
  | Ok page =>
      PageObserved page = st_current st /\ PageAsOf page = asOf /\
      page_ok (MaxScanBytes (st_limits st)) limit all (PageRecords page) (PageTruncated page) /\
      PageCursor page =
        if PageTruncated page then
          encodeScanCursor (st_databaseID st)
            (MkCursor prefix (from_option RecKey [] (last (PageRecords page))) (st_current st) asOf)
        else []
  | Err e => page_error (MaxScanBytes (st_limits st)) all e
  end.

Lemma core_keyed st : core_inv st -> map_Forall (fun k r => RecKey r = k) (st_records st).
Proof. intros Hc k r Hr. by destruct (ci_records _ Hc k r Hr). Qed.

Lemma scanFrom_spec prefix limit cursor asOf st :
  core_inv st -> len (ks_keys (st_orderedKeys st)) < 2 ^ 63 -> 1 <= limit ->
  (forall c, cursor = Some c -> has_prefix (cur_lastKey c) prefix = true) ->
  page_spec prefix limit asOf st
    match cursor with
    | Some c => after (cur_lastKey c) (live_records prefix asOf st)
    | None => live_records prefix asOf st
    end (scanFrom prefix limit cursor asOf st).
Proof.
  intros Hc Hlen Hlimit Hcur. destruct (ci_index _ Hc) as (Hs & Hin & _). pose proof (core_keyed _ Hc) as Hkey.
  pose proof (limits_ok_fields _ (ci_limits _ Hc)) as Hf. unfold scanFrom. cbv zeta.
  set (P k := match cursor with Some c => bytes_ltb (cur_lastKey c) k | None => negb (bytes_ltb k prefix) end).
  set (keys := ks_keys (st_orderedKeys st)) in *.
  replace (Search (len keys) _) with (Search (len keys) (fun i => P (key_at keys i))) by (by destruct cursor).
  rewrite search_drop; [|done|done|].
  2:{ intros a b Hab. unfold P. destruct cursor; [intros Ha; by eapply bytes_ltb_trans|].
      intros Ha. eapply bytes_lt_le. eapply bytes_le_lt_trans; [exact Ha|done]. }
  set (from := filter (fun k => P k = true) keys).
  assert (match cursor with Some c => after (cur_lastKey c) (live_records prefix asOf st)
          | None => live_records prefix asOf st end = visible (st_records st) prefix asOf from) as ->.
  { unfold live_records, from, P. destruct cursor; [by rewrite visible_after|by rewrite visible_from]. }
  assert (forall k, k ∈ from -> P k = true /\ k ∈ keys) as Hfrom by (intros k Hk; by apply list_elem_of_filter in Hk).
  assert (strictly_sorted from) as Hsf by (by apply sorted_filter). clearbody from.
  opose proof* (scan_page_loop_spec (MaxScanBytes (st_limits st)) (st_records st) prefix asOf limit from [])
    as Hloop; try done; try (simpl; lia); try (unfold len; simpl; lia).
  - apply Forall_forall. intros k (HP & _)%Hfrom. unfold P in HP. destruct cursor as [c|]; [|done].
    eapply bytes_lt_le, bytes_le_lt_trans; [|exact HP]. by apply has_prefix_le, Hcur.
  - apply Forall_forall. intros k (_ & Hk)%Hfrom. by apply Hin.
  - change (scan_bytes []) with 0 in Hloop. rewrite app_nil_l in Hloop.
    destruct (scan_page_loop _ _ _ _ _ from _ _) as [[page truncated]|e]; done.
Qed.

(** A database whose reads the theorems below are about. *)
Record scannable st : Prop := {
  sc_core : core_inv st;
  sc_keys : len (ks_keys (st_orderedKeys st)) < 2 ^ 63;
  sc_id : length (st_databaseID st) = 16%nat;
  sc_current : st_current st <= max_uint64
}.

(** A request for a page: a valid prefix and page size. *)
Definition scan_request (prefix : bytes) (limit : Z) st : Prop :=
  validatePrefix prefix (st_limits st) = None /\ 1 <= limit <= MaxScanRecords (st_limits st).

Lemma ScanPrefix_first prefix limit st :
  scannable st -> scan_request prefix limit st ->
  let asOf := (Nondecreasing_Now (st_clock st)).1 in
  page_spec prefix limit asOf st (live_records prefix asOf st) (ScanPrefix prefix limit [] st).1.
Proof.
  intros [Hc Hk _ _] [Hp Hl] asOf. unfold ScanPrefix. rewrite Hp.
  replace (_ || _) with false by lia. subst asOf. destruct (Nondecreasing_Now (st_clock st)) as [now c] eqn:Hn.
  rewrite bool_decide_true by done. cbn [fst].
  apply (scanFrom_spec prefix limit None now (set_clock c st)); try done; [|lia]. by destruct Hc.
Qed.

Lemma encodeScanCursor_nonempty id c : encodeScanCursor id c <> [].
Proof.
  intros H0. apply (f_equal DecodeString) in H0. unfold encodeScanCursor in H0.
  rewrite base64_decode_encode in H0. cbn in H0. injection H0 as H0. unfold scanCursorImage, scanCursorBody in H0.
  by destruct (app_eq_nil _ _ H0).
Qed.

Lemma ScanPrefix_next prefix limit c st :
  scannable st -> scan_request prefix limit st -> cursor_wf (st_limits st) c -> cur_prefix c = prefix ->
  let r := (ScanPrefix prefix limit (encodeScanCursor (st_databaseID st) c) st).1 in
  if cur_revision c =? st_current st
  then page_spec prefix limit (cur_asOf c) st (after (cur_lastKey c) (live_records prefix (cur_asOf c) st)) r
  else r = Err (scanStale "The database changed after the scan page was created."
                  (cur_revision c) (st_current st)).
Proof.
  intros [Hc Hk Hid _] [Hp Hl] Hwf Hpre. unfold ScanPrefix. rewrite Hp.
  replace (_ || _) with false by lia. rewrite bool_decide_false by apply encodeScanCursor_nonempty.
  rewrite (proj2 (decode_encodes _ _ (ci_limits _ Hc) Hid _ c)) by done.
  rewrite bool_decide_true by done. cbn [negb]. destruct (Nondecreasing_Now (st_clock st)) as [now clk].
  cbn [st_current set_clock]. destruct (_ =? _); [|done]. cbn [negb fst].
  apply (scanFrom_spec prefix limit (Some c) (cur_asOf c) (set_clock clk st)); try done; [by destruct Hc|lia|].
  intros c' [= <-]. subst prefix. by destruct Hwf as (_ & _ & _ & ? & _).
Qed.

(** ** Following the cursors *)

(** A client's loop: the pages of successive requests, each against the state
    of its time; the flag tells that the last page was not truncated. *)
Fixpoint scan_session (prefix : bytes) (limit : Z) (cursor : bytes) (sts : list (DatabaseState C A L F)) :
    result goerror (list DBRecord * bool) :=
  match sts with
  | [] => Ok ([], false)
  | st :: sts =>
      match (ScanPrefix prefix limit cursor st).1 with
      | Err e => Err e
      | Ok page =>
          if PageTruncated page then
            match scan_session prefix limit (PageCursor page) sts with
            | Ok (l, finished) => Ok (PageRecords page ++ l, finished)
            | Err e => Err e
            end
          else Ok (PageRecords page, true)
      end
  end.

(** The database has not committed since. *)
Definition same_view st st' : Prop :=
  st_records st' = st_records st /\ st_orderedKeys st' = st_orderedKeys st /\
  st_current st' = st_current st /\ st_limits st' = st_limits st /\ st_databaseID st' = st_databaseID st.

(** The session returns a prefix of the records, all of them when it finished,
    and it finishes when it has a page for each record. *)
Definition session_ok (all : list DBRecord) (pages : nat) (r : result goerror (list DBRecord * bool)) : Prop :=
  exists l finished, r = Ok (l, finished) /\ l `prefix_of` all /\ (finished = true -> l = all) /\
    ((length all <= pages)%nat -> (0 < pages)%nat -> finished = true).

Section session.
Context (st : DatabaseState C A L F) (prefix : bytes) (limit : Z) (asOf : Time).
Hypothesis request : scan_request prefix limit st.
Hypothesis asOf_fits : - 2 ^ 63 <= asOf < 2 ^ 63.
Hypothesis fine : scannable st.
Hypothesis small : Forall (fun r => scanRecordBytes r <= MaxScanBytes (st_limits st)) (live_records prefix asOf st).

(** The cursor of a truncated page. *)
Lemma page_cursor_wf r :
  r ∈ live_records prefix asOf st -> cursor_wf (st_limits st) (MkCursor prefix (RecKey r) (st_current st) asOf).
Proof.
  intros (_ & Hr & Hp & _)%elem_of_visible; [|apply core_keyed, fine].
  destruct (ci_records _ (sc_core _ fine) _ _ Hr) as (_ & (Hne & Hu & Hl) & _).
  destruct request as [Hv _]. unfold validatePrefix in Hv.
  destruct (utf8_valid prefix) eqn:Hup; [|done]. simpl in Hv. destruct (Z.ltb_spec (MaxKeyBytes (st_limits st)) (len prefix)); [done|].
  pose proof (ci_current _ (sc_core _ fine)). pose proof (sc_current _ fine).
  unfold cursor_wf. cbn. split_and!; done || apply asOf_fits.
Qed.

Abbreviation continue_after r := (encodeScanCursor (st_databaseID st) (MkCursor prefix (RecKey r) (st_current st) asOf)).
Abbreviation sessions_ok sts := (forall before rest r,
  live_records prefix asOf st = before ++ rest -> last before = Some r ->
  session_ok rest (length sts) (scan_session prefix limit (continue_after r) sts)).

(** One page, given what the session does after it. *)
Lemma session_page sts st' before rest r :
  sessions_ok sts -> live_records prefix asOf st = before ++ rest -> same_view st st' ->
  page_spec prefix limit asOf st' rest r ->
  session_ok rest (S (length sts))
    match r with
    | Err e => Err e
    | Ok page =>
        if PageTruncated page then
          match scan_session prefix limit (PageCursor page) sts with
          | Ok (l, finished) => Ok (PageRecords page ++ l, finished)
          | Err e => Err e
          end
        else Ok (PageRecords page, true)
    end.
Proof.
  intros Hnext Hall (_ & _ & Hcur & Hlim & Hid) Hp. unfold page_spec in Hp. rewrite Hcur, Hlim, Hid in Hp.
  destruct r as [page|e].
  - destruct Hp as (_ & _ & (rest' & -> & _ & _ & Hrest) & Hcursor). destruct rest' as [|r rest'].
    + rewrite Hrest, app_nil_r. exists (PageRecords page), true. by split_and!.
    + destruct Hrest as (Ht & Hne & _). rewrite Ht in *.
      destruct (last (PageRecords page)) as [r'|] eqn:Hlast; [|by apply last_None in Hlast]. simpl in Hcursor.
      rewrite app_assoc in Hall.
      destruct (Hnext _ _ r' Hall) as (l & finished & Hs & Hpre & Hfin & Hend).
      { rewrite last_app, Hlast. done. }
      rewrite Hcursor, Hs. exists (PageRecords page ++ l), finished. split_and!; [done|by apply prefix_app| |].
      * intros ->. by rewrite Hfin.
      * intros Hn _. rewrite length_app in Hn. simpl in *.
        assert (length (PageRecords page) <> 0)%nat by (by intros ?%nil_length_inv). apply Hend; lia.
  - destruct Hp as (r & rest' & -> & Hbig & _). rewrite Hall in small. apply Forall_app in small as [_ Hs].
    apply Forall_cons in Hs as [Hs _]. lia.
Qed.

Lemma session_next sts : Forall (fun st' => scannable st' /\ same_view st st') sts -> sessions_ok sts.
Proof.
  induction 1 as [|st' sts [Hsc Hsame] _ IH]; intros before rest r Hall Hlast.
  { exists [], false. split_and!; [done|apply prefix_nil|done|simpl; lia]. }
  cbn [scan_session length]. apply (session_page _ st' before); [done|done|done|].
  destruct Hsame as (Hrec & Hkeys & Hcur & Hlim & Hid).
  assert (live_records prefix asOf st' = before ++ rest) as Hall'
    by (unfold live_records in *; by rewrite Hrec, Hkeys).
  pose proof (ScanPrefix_next prefix limit (MkCursor prefix (RecKey r) (st_current st) asOf) st' Hsc) as Hnext.
  cbn [cur_revision cur_prefix cur_asOf cur_lastKey] in Hnext.
  rewrite Hcur, Hlim, Hid, Z.eqb_refl, Hall', after_last in Hnext; [apply Hnext|..]; try done.
  - unfold scan_request. by rewrite Hlim.
  - apply page_cursor_wf. rewrite Hall. apply last_Some_elem_of in Hlast. set_solver.
  - rewrite <- Hall. apply visible_sorted; [apply core_keyed, fine|]. apply (ci_index _ (sc_core _ fine)).
Qed.
End session.

(** ** Properties *)

(** C10: A page of a scan is exact.  For a valid request, the first page and the
    page that continues at a cursor are, in key order, the live records under
    the prefix (after the cursor's key) at the effective time, cut only where
    the record limit or the byte limit of a page is reached; a truncated page,
    and no other, carries the cursor of its last record.  The only error is a
    first record larger than a page; a cursor of another revision is stale. *)
Theorem scan_page_exact prefix limit st :
  scannable st -> scan_request prefix limit st ->
  (let asOf := (Nondecreasing_Now (st_clock st)).1 in
   page_spec prefix limit asOf st (live_records prefix asOf st) (ScanPrefix prefix limit [] st).1) /\
  (forall c, cursor_wf (st_limits st) c -> cur_prefix c = prefix ->
   let r := (ScanPrefix prefix limit (encodeScanCursor (st_databaseID st) c) st).1 in
   if cur_revision c =? st_current st
   then page_spec prefix limit (cur_asOf c) st (after (cur_lastKey c) (live_records prefix (cur_asOf c) st)) r
   else r = Err (scanStale "The database changed after the scan page was created."
                   (cur_revision c) (st_current st))).
Proof.
  intros Hsc Hreq. split; [by apply ScanPrefix_first|]. intros c Hwf Hp. by apply ScanPrefix_next.
Qed.

(** C9: A scan visits every record once.  A client follows the cursors, page by
    page, while the database commits nothing; its records fit a page.  No
    request fails, the pages concatenated are a prefix of the live records under
    the prefix at the time of the first page, in key order; they are all of
    them when the last page is not truncated, which happens at the latest after
    as many pages as there are records. *)
Theorem scan_session_complete st sts prefix limit :
  scannable st -> scan_request prefix limit st ->
  let asOf := (Nondecreasing_Now (st_clock st)).1 in
  - 2 ^ 63 <= asOf < 2 ^ 63 ->
  Forall (fun r => scanRecordBytes r <= MaxScanBytes (st_limits st)) (live_records prefix asOf st) ->
  Forall (fun st' => scannable st' /\ same_view st st') sts ->
  session_ok (live_records prefix asOf st) (S (length sts)) (scan_session prefix limit [] (st :: sts)).
Proof.
  intros Hsc Hreq asOf Hasof Hsmall Hsts. cbn [scan_session].
  apply (session_page st prefix limit asOf Hsmall sts st []); try done.
  - by apply session_next.
  - by apply ScanPrefix_first.
Qed.
End pages.
