(* ===== verification/Storage.v ===== *)
(** * Storage operations and atomic file replacement (internal/persist)

    The functions of internal/persist thread a file system and stop at the
    first error; they are written here in a small monad.  [installFile] is the
    protocol by which the identity, the manifest, a snapshot and the next log
    are put in place: write and sync a temporary file, rename it, sync the
    directory.  The protocol is proved atomic: whatever fails, and wherever a
    crash happens, the file of that name has its old content or the new one,
    the new one once the call has succeeded, and the old one when it reports
    that nothing was applied. *)

From stdpp Require Import base gmap list strings.
From Stdlib Require Import ZArith Lia.
From S2P Require Import Prelude.
From S2P Require Import Bytes.
From S2P Require Import Errors.
From S2P Require Import FaultFS.
From S2P Require Import StorageErrors.
From S2P Require Import WalScan.
From S2P Require Import WalLog.

Local Open Scope Z_scope.

(** ** The monad *)

Definition fsio (E A : Type) : Type := FSState E -> result goerror A * FSState E.

Section monad.
Context {E : Type}.

Definition fs_ret {A} (a : A) : fsio E A := fun s => (Ok a, s).
Definition fs_throw {A} (e : goerror) : fsio E A := fun s => (Err e, s).
Definition fs_bind {A B} (m : fsio E A) (k : A -> fsio E B) : fsio E B := fun s =>
  match m s with
  | (Ok a, s) => k a s
  | (Err e, s) => (Err e, s)
  end.

(** [if err := call; err != nil { return wrap(err) }]. *)
Definition fs_call (wrap : goerror -> goerror) (call : FSState E -> error * FSState E) : fsio E unit := fun s =>
  match call s with
  | (None, s) => (Ok tt, s)
  | (Some e, s) => (Err (wrap e), s)
  end.

(** [v, err := call; if err != nil { return wrap(err) }]. *)
Definition fs_value {A} (wrap : goerror -> goerror) (call : fsio E A) : fsio E A := fun s =>
  match call s with
  | (Ok a, s) => (Ok a, s)
  | (Err e, s) => (Err (wrap e), s)
  end.

(** A computation that touches no file. *)
Definition fs_lift {A} (r : result goerror A) : fsio E A := fun s => (r, s).

(** A deferred clean-up after an error; its own error is dropped. *)
Definition fs_on_error {A} (cleanup : FSState E -> error * FSState E) (m : fsio E A) : fsio E A := fun s =>
  match m s with
  | (Ok a, s) => (Ok a, s)
  | (Err e, s) => (Err e, (cleanup s).2)
  end.

(** A deferred clean-up on every path. *)
Definition fs_defer {A} (cleanup : FSState E -> error * FSState E) (m : fsio E A) : fsio E A := fun s =>
  let (r, s) := m s in (r, (cleanup s).2).

(** A step that also uses up randomness. *)
Definition fs_random {A} (m : Reader -> FSState E -> result goerror A * Reader * FSState E) (randomness : Reader)
    : fsio E (A * Reader) := fun s =>
  let '(r, randomness, s) := m randomness s in
  (match r with Ok a => Ok (a, randomness) | Err e => Err e end, s).
End monad.

Declare Scope fsio_scope.
Delimit Scope fsio_scope with fsio.
Notation "'let?' x := m 'in' k" := (fs_bind m (fun x => k))
  (at level 200, x pattern, m at level 100, k at level 200, right associativity) : fsio_scope.
Notation "'do?' m ; k" := (fs_bind m (fun _ => k))
  (at level 200, m at level 100, k at level 200, right associativity) : fsio_scope.
Local Open Scope fsio_scope.

(** ** Shared helpers *)

(** [io.ReadAll(io.LimitReader(file, n))]. *)
Definition ReadAllLimited (n : Z) (r : Reader) : result goerror bytes :=
  if n <=? len (rd_data r) then Ok (slice (rd_data r) 0 n)
  else match rd_fail r with Some e => Err e | None => Ok (rd_data r) end.

(** [randomSuffix]; the source of randomness is a reader. *)
Definition randomSuffix (randomness : Reader) : result goerror string * Reader :=
  match ReadFull 8 randomness with
  | (_, Some e, randomness) => (Err e, randomness)
  | (value, None, randomness) => (Ok (String.string_of_list_byte (hex_EncodeToString value)), randomness)
  end.

(** Reading an open file from its start. *)
Definition readFile {E} `{OSEnv E} (i : positive) : fsio E Reader := fun s =>
  let (r, s) := fileReader i s in (Ok r, s).

(** ** Replacing a file *)

Record InstallPlan := MkInstallPlan {
  in_file : string;                  (* the name reported in errors *)
  in_create : string * string;       (* fault point and operation of each step *)
  in_write_op : string;
  in_sync : string * string;
  in_close_op : string;
  in_rename : string * string;
  in_dir : string * string
}.

Section install.
Context {E : Type} `{OSEnv E}.

Definition renameError (p : InstallPlan) (err : goerror) : goerror :=
  if FailedAfter err then ioFailureApplied (in_rename p).2 (in_file p) err
  else ioFailure (in_rename p).2 (in_file p) err.

(** The common body of [installIdentity], [InstallManifest],
    [installSnapshotFile] and [installNextWAL]: write the temporary file, then
    put it in place. *)
Definition prepareFile (p : InstallPlan) (temp : string)
    (write : positive -> FSState E -> error * FSState E) : fsio E unit :=
  let? i := fs_value (ioFailure (in_create p).2 (in_file p))
              (OpenFile (in_create p).1 temp (MkFlags true true)) in
  fs_on_error (file_Close i)
    (do? fs_call (ioFailure (in_write_op p) (in_file p)) (write i);
     do? fs_call (ioFailure (in_sync p).2 (in_file p)) (Sync (in_sync p).1 i);
     fs_call (ioFailure (in_close_op p) (in_file p)) (file_Close i)).

Definition installFile (p : InstallPlan) (temp final : string)
    (write : positive -> FSState E -> error * FSState E) : fsio E unit :=
  do? prepareFile p temp write;
  do? fs_call (renameError p) (Rename (in_rename p).1 temp final);
  fs_call (ioFailureApplied (in_dir p).2 (in_file p)) (SyncDir (in_dir p).1).

(** With the temporary name, which has a random suffix. *)
Definition replaceFile (p : InstallPlan) (nameOp : string) (final : string)
    (write : positive -> FSState E -> error * FSState E) (randomness : Reader) (s : FSState E)
    : result goerror unit * Reader * FSState E :=
  let (suffix, randomness) := randomSuffix randomness in
  match suffix with
  | Err e => (Err (ioFailure nameOp (in_file p) e), randomness, s)
  | Ok suffix =>
      let (r, s) := installFile p (final +:+ ".tmp-" +:+ suffix) final write s in
      (r, randomness, s)
  end.

(** The writers: [writeFull], and a single [file.Write]. *)
Definition writeAll (point : string) (encoded : bytes) (i : positive) (s : FSState E) : error * FSState E :=
  let '(e, (_, s)) := writeFull point (fileWriter i) encoded (tt, s) in (e, s).

Definition writeOnce (encoded : bytes) (i : positive) (s : FSState E) : error * FSState E :=
  let '(written, e, s) := file_Write i encoded s in
  (match e with
   | Some err => Some err
   | None => if written =? len encoded then None else Some (ErrSys SysShortWrite)
   end, s).
End install.

(** ** What the calls leave alone *)

Section frames.
Context {E : Type} `{OSEnv E}.
Implicit Types s : FSState E.

(** Everything but the environment. *)
Definition disk s : gmap positive Inode * Directory * list Directory := (fs_inodes s, fs_dir s, fs_pending s).

Lemma visit_disk p ph s r s' : visit p ph s = (r, s') -> disk s' = disk s.
Proof. unfold visit. destruct (env_visit _ _). by intros [= <- <-]. Qed.

Lemma os_fail_disk c s r s' : os_fail c s = (r, s') -> disk s' = disk s.
Proof. unfold os_fail. destruct (env_fail _ _). by intros [= <- <-]. Qed.

Lemma file_Close_disk i s r s' : file_Close i s = (r, s') -> disk s' = disk s.
Proof. apply os_fail_disk. Qed.

Lemma disk_inode i s s' : disk s' = disk s -> inode i s' = inode i s.
Proof. unfold disk, inode. by intros [= -> _ _]. Qed.

(** Only the inode [i] changes. *)
Definition same_but (i : positive) s s' : Prop :=
  fs_dir s' = fs_dir s /\ fs_pending s' = fs_pending s /\
  (forall j, j <> i -> fs_inodes s' !! j = fs_inodes s !! j) /\
  (is_Some (fs_inodes s !! i) -> is_Some (fs_inodes s' !! i)).

Lemma same_but_disk i s s' : disk s' = disk s -> same_but i s s'.
Proof. unfold disk, same_but. by intros [= -> -> ->]. Qed.

Lemma same_but_trans i s1 s2 s3 : same_but i s1 s2 -> same_but i s2 s3 -> same_but i s1 s3.
Proof.
  intros (Hd1 & Hp1 & Hi1 & Hs1) (Hd2 & Hp2 & Hi2 & Hs2). split_and!; try congruence; [|by auto].
  intros j Hj. by rewrite Hi2, Hi1.
Qed.

Lemma same_but_setInode i n s : same_but i s (setInode i n s).
Proof.
  split_and!; try done; simpl.
  - intros j Hj. by rewrite lookup_insert_ne.
  - intros _. rewrite lookup_insert_eq. done.
Qed.

Lemma file_Write_frame i v s n e s' : file_Write i v s = (n, e, s') -> same_but i s s'.
Proof.
  unfold file_Write. destruct (os_fail SysWrite s) as [err s1] eqn:Hf. apply os_fail_disk in Hf.
  destruct (env_transfer _ _) as [k env]. intros [= _ _ <-].
  eapply same_but_trans; [by apply same_but_disk|]. apply (same_but_setInode i _ (setEnv env s1)).
Qed.

Lemma file_Sync_frame i s e s' : file_Sync i s = (e, s') -> same_but i s s'.
Proof.
  unfold file_Sync. destruct (os_fail SysFsync s) as [[err|] s1] eqn:Hf; apply os_fail_disk in Hf;
    intros [= _ <-]; [by apply same_but_disk|].
  eapply same_but_trans; [by apply same_but_disk|apply same_but_setInode].
Qed.

Lemma Sync_frame p i s e s' : Sync p i s = (e, s') -> same_but i s s'.
Proof.
  unfold Sync, hooked. destruct (visit p Before s) as [[err|] s1] eqn:H1; apply visit_disk in H1.
  { intros [= _ <-]. by apply same_but_disk. }
  destruct (file_Sync i s1) as [[err|] s2] eqn:H2; apply file_Sync_frame in H2.
  { intros [= _ <-]. by eapply same_but_trans; [apply same_but_disk|]. }
  intros H3%visit_disk. eapply same_but_trans; [by eapply same_but_trans; [apply same_but_disk|]|].
  by apply same_but_disk.
Qed.

(** A writer that puts (a part of) [data] into an empty file. *)
Definition writes (data : bytes) (write : positive -> FSState E -> error * FSState E) : Prop :=
  forall i s e s', inode i s = MkInode [] 0 -> write i s = (e, s') ->
    same_but i s s' /\ ino_synced (inode i s') = 0 /\ (e = None -> ino_data (inode i s') = data).

Lemma writeOnce_writes data : writes data (writeOnce data).
Proof.
  intros i s e s' Hi. unfold writeOnce. destruct (file_Write i data s) as [[n err] s1] eqn:Hw.
  intros [= <- <-]. pose proof (file_Write_frame _ _ _ _ _ _ Hw) as Hf.
  apply file_Write_spec in Hw as (Hn & Hi' & Hfull). rewrite Hi in Hi'. split_and!; [done|by rewrite Hi'|].
  destruct err; [done|]. intros _. rewrite Hi', (Hfull eq_refl). simpl. apply slice_full.
Qed.

Lemma writeAll_writes point data : writes data (writeAll point data).
Proof.
  intros i s e s' Hi. unfold writeAll. destruct (writeFull _ _ _ _) as [err [u s1]] eqn:Hw. intros [= <- <-].
  apply (writeFull_stream point (fileWriter i) (fun ws x => inode i ws.2 = MkInode x 0 /\ same_but i s ws.2)) with (x := [])
    in Hw as (k & _ & (Hi' & Hf) & Hfull).
  - simpl in *. split_and!; [done|by rewrite Hi'|]. intros ->. rewrite Hi', (Hfull eq_refl). simpl. apply slice_full.
  - intros w t x env. simpl. by intros [? ?].
  - intros [w t] x v n e1 ws' [Hx Hsb] Hy. destruct (fileWriter_spec i 0 _ _ _ _ _ _ Hx Hy) as (Hn & Hi' & Hfull).
    split_and!; [lia|lia|done| |done]. unfold fileWriter in Hy. simpl in Hy, Hsb.
    destruct (file_Write i v t) as [[n1 e2] t1] eqn:Hwr. injection Hy as <- <- <-. simpl.
    eapply same_but_trans; [done|]. by eapply file_Write_frame.
  - simpl. split; [done|]. by apply same_but_disk.
Qed.
End frames.

(** ** The contents of files across crashes *)

Section contents.
Context {E : Type} `{OSEnv E}.
Implicit Types s : FSState E.

(** Directories refer to inodes that exist, and no two names to the same. *)
Record fs_wf s : Prop := {
  wf_inodes : forall d name i, crash_dir s d -> d !! name = Some i -> is_Some (fs_inodes s !! i);
  wf_inj : forall d n n' i, crash_dir s d -> d !! n = Some i -> d !! n' = Some i -> n = n'
}.

(** The file [name] of the directory [d] is [found], all of it durable. *)
Definition file_in s (d : Directory) (name : string) (found : option bytes) : Prop :=
  match d !! name, found with
  | Some i, Some b => inode i s = MkInode b (len b)
  | None, None => True
  | _, _ => False
  end.

(** Now and after any crash, the file [name] has a content in [P]. *)
Definition holds s (name : string) (P : option bytes -> Prop) : Prop :=
  forall d, crash_dir s d -> exists found, P found /\ file_in s d name found.

Lemma holds_impl s name (P Q : option bytes -> Prop) : (forall f, P f -> Q f) -> holds s name P -> holds s name Q.
Proof. intros HPQ HP d Hd. destruct (HP d Hd) as (f & Hf & Hin). eauto. Qed.

(** What a restart finds. *)
Lemma holds_crash s name P found : holds s name P -> crash_file s name found -> P found.
Proof.
  intros HP (d & Hd & Hfound). destruct (HP d Hd) as (f & Hf & Hin). unfold file_in in Hin.
  destruct (d !! name) as [i|], f as [b|], found as [b'|]; try done.
  rewrite Hin in Hfound. destruct Hfound as (k & Hk & ->). simpl in *. replace k with (len b) by lia.
  by rewrite slice_full.
Qed.

Lemma inode_Some s i n : fs_inodes s !! i = Some n -> inode i s = n.
Proof. unfold inode. by intros ->. Qed.

Lemma inode_is_Some s i : is_Some (fs_inodes s !! i) -> fs_inodes s !! i = Some (inode i s).
Proof. unfold inode. by intros [n ->]. Qed.

(** Only the entries [names] of the directory change, and no file that existed
    before. *)
Record touches (names : gset string) s s' : Prop := {
  to_inodes : forall i n, fs_inodes s !! i = Some n -> fs_inodes s' !! i = Some n;
  to_crash : forall d', crash_dir s' d' -> exists d, crash_dir s d /\ forall m, m ∉ names -> d' !! m = d !! m;
  to_dir : forall m, m ∉ names -> fs_dir s' !! m = fs_dir s !! m
}.

Lemma touches_refl names s : touches names s s.
Proof. split; eauto. Qed.

Lemma touches_trans names s1 s2 s3 : touches names s1 s2 -> touches names s2 s3 -> touches names s1 s3.
Proof.
  intros [Hi1 Hc1 Hd1] [Hi2 Hc2 Hd2]. split; [by eauto| |intros m Hm; by rewrite Hd2, Hd1].
  intros d3 (d2 & Hd & Heq2)%Hc2. destruct (Hc1 d2 Hd) as (d1 & ? & Heq1). exists d1. split; [done|].
  intros m Hm. by rewrite Heq2, Heq1.
Qed.

Lemma touches_mono names names' s s' : names ⊆ names' -> touches names s s' -> touches names' s s'.
Proof.
  intros Hsub [Hi Hc Hd]. split; [done| |intros m Hm; apply Hd; set_solver].
  intros d' (d & ? & Heq)%Hc. exists d. split; [done|]. intros m Hm. apply Heq. set_solver.
Qed.

Lemma touches_disk names s s' : disk s' = disk s -> touches names s s'.
Proof. unfold disk. intros [= Hi Hd Hp]. split; rewrite ?Hi, ?Hd; try done. unfold crash_dir. rewrite Hd, Hp. eauto. Qed.

Lemma wf_disk s s' : disk s' = disk s -> fs_wf s -> fs_wf s'.
Proof.
  unfold disk. intros [= Hi Hd Hp] [Hino Hinj]. split; unfold crash_dir in *; rewrite ?Hi, Hd, Hp; eauto.
Qed.

Lemma touches_holds names s s' name P :
  fs_wf s -> touches names s s' -> name ∉ names -> holds s name P -> holds s' name P.
Proof.
  intros Hwf [Hi Hc _] Hname HP d' (d & Hd & Heq)%Hc. destruct (HP d Hd) as (f & Hf & Hin). exists f. split; [done|].
  unfold file_in in *. rewrite Heq by done. destruct (d !! name) as [i|] eqn:Hl; [|done]. destruct f; [|done].
  destruct (wf_inodes _ Hwf d name i Hd Hl) as [n Hn]. rewrite (inode_Some _ _ _ (Hi _ _ Hn)). by rewrite <- (inode_Some _ _ _ Hn).
Qed.

(** Writing to a file that did not exist before. *)
Lemma touches_new names s s1 s2 i :
  touches names s s1 -> fs_inodes s !! i = None -> same_but i s1 s2 -> touches names s s2.
Proof.
  intros [Hi Hc Hd] Hnew (Hdir & Hpend & Hoth & _). split.
  - intros j n Hj. rewrite Hoth; [by apply Hi|]. by intros ->; rewrite Hnew in Hj.
  - unfold crash_dir. rewrite Hdir, Hpend. exact Hc.
  - by rewrite Hdir.
Qed.

Lemma wf_same_but i s s' : is_Some (fs_inodes s !! i) -> same_but i s s' -> fs_wf s -> fs_wf s'.
Proof.
  intros Hi (Hdir & Hpend & Hoth & Hs) [Hino Hinj]. split; unfold crash_dir in *; rewrite Hdir, Hpend; [|by eauto].
  intros d name j Hd Hl. destruct (decide (j = i)) as [->|]; [by apply Hs|]. rewrite Hoth by done. by eapply Hino.
Qed.

(** A file is created: its name was free, and its inode is new. *)
Definition created (name : string) s s' (r : result goerror positive) : Prop :=
  fs_wf s' /\ touches {[name]} s s' /\
  match r with
  | Ok i => fs_inodes s !! i = None /\ fs_inodes s' !! i = Some (MkInode [] 0) /\ fs_dir s' !! name = Some i
  | Err _ => True
  end.

Lemma created_same name s s' e : fs_wf s -> disk s' = disk s -> created name s s' (Err e).
Proof. intros Hwf Hd. split; [by eapply wf_disk|]. split; [by apply touches_disk|done]. Qed.

Lemma created_disk name s s1 s2 r : disk s2 = disk s1 -> created name s s1 r -> created name s s2 r.
Proof.
  intros Hd (Hwf & Ht & Hr). split; [by eapply wf_disk|]. split; [by eapply touches_trans, touches_disk|].
  unfold disk in Hd. injection Hd as Hi Hdir _. destruct r; [|done]. by rewrite Hi, Hdir.
Qed.

Lemma created_fresh name i s s2 : fs_wf s -> disk s2 = disk s -> fs_inodes s2 !! i = None ->
  created name s (setDir (<[name := i]> (fs_dir s2)) (setInode i (MkInode [] 0) s2)) (Ok i).
Proof.
  intros Hwf H2 Hi. set (s3 := setDir _ _). unfold disk in H2. injection H2 as Hino Hdir Hpend.
  assert (forall d m, crash_dir s d -> d !! m <> Some i) as Hfresh.
  { intros d m Hd Hm. destruct (wf_inodes _ Hwf d m i Hd Hm) as [x Hx]. by rewrite Hino, Hx in Hi. }
  assert (forall d, crash_dir s3 d -> d = <[name := i]> (fs_dir s) \/ crash_dir s d) as Hcd.
  { unfold crash_dir. simpl. rewrite Hdir, Hpend. set_solver. }
  split_and!; simpl; [split|split|by rewrite <- Hino|apply lookup_insert_eq..]; simpl.
  - intros d m j Hd Hm. destruct (decide (j = i)) as [->|]; [by rewrite lookup_insert_eq|].
    rewrite lookup_insert_ne, Hino by done. destruct (Hcd d Hd) as [->|Hd']; [|by eapply wf_inodes].
    apply lookup_insert_Some in Hm as [[_ ?]|[_ Hm]]; [done|]. by eapply (wf_inodes _ Hwf _ _ _ (or_introl eq_refl)).
  - intros d n n' j Hd Hn Hn'. destruct (Hcd d Hd) as [->|Hd']; [|by eapply wf_inj].
    apply lookup_insert_Some in Hn as [[<- <-]|[Hne Hn]]; apply lookup_insert_Some in Hn' as [[<- ?]|[Hne' Hn']];
      try done; [by apply Hfresh in Hn'; [|left]|subst; by apply Hfresh in Hn; [|left]|].
    by eapply (wf_inj _ Hwf _ _ _ _ (or_introl eq_refl)).
  - intros j n Hj. rewrite lookup_insert_ne; [by rewrite Hino|]. intros <-. by rewrite Hino, Hj in Hi.
  - intros d' [->|Hd']%Hcd; [exists (fs_dir s)|exists d'; split; [done|done]]. split; [by left|].
    intros m Hm. rewrite lookup_insert_ne; [done|set_solver].
  - intros m Hm. rewrite lookup_insert_ne, Hdir; [done|set_solver].
Qed.

Lemma os_open_new name s r s' : fs_wf s -> os_open (MkFlags true true) name s = (r, s') -> created name s s' r.
Proof.
  intros Hwf. unfold os_open. destruct (os_fail SysOpen s) as [[err|] s2] eqn:H2; apply os_fail_disk in H2.
  { intros [= <- <-]. by apply created_same. }
  destruct (fs_dir s2 !! name); simpl; intros [= <- <-]; [by apply created_same|].
  apply created_fresh; [done..|]. apply not_elem_of_dom, is_fresh.
Qed.

Lemma OpenFile_new point name s r s' :
  fs_wf s -> OpenFile point name (MkFlags true true) s = (r, s') -> created name s s' r.
Proof.
  intros Hwf. unfold OpenFile. destruct (visit point Before s) as [[err|] s1] eqn:H1; apply visit_disk in H1.
  { intros [= <- <-]. by apply created_same. }
  destruct (os_open _ _ s1) as [[i|err] s2] eqn:Ho; apply os_open_new in Ho; try (by eapply wf_disk).
  2:{ intros [= <- <-]. destruct Ho as (Hwf2 & Ht2 & _). split; [done|]. split; [|done].
      eapply touches_trans; [by apply touches_disk|done]. }
  assert (created name s s2 (Ok i)) as Hs2.
  { destruct Ho as (Hwf2 & Ht2 & Hi & Hrest). split; [done|]. split; [by eapply touches_trans; [apply touches_disk|]|].
    unfold disk in H1. injection H1 as Hino _ _. by rewrite <- Hino. }
  destruct (visit point After s2) as [[err|] s4] eqn:H4; apply visit_disk in H4.
  - destruct (file_Close i s4) as [e5 s5] eqn:H5. apply file_Close_disk in H5. rewrite H4 in H5. intros [= <- <-].
    destruct (created_disk _ _ _ _ _ H5 Hs2) as (? & ? & _). by split.
  - intros [= <- <-]. by apply (created_disk _ _ s2).
Qed.

(** *** The protocol *)

Lemma prepareFile_spec p temp write data s r s' :
  fs_wf s -> writes data write -> prepareFile p temp write s = (r, s') ->
  fs_wf s' /\ touches {[temp]} s s' /\
  match r with
  | Ok _ => exists i, fs_inodes s !! i = None /\ fs_inodes s' !! i = Some (MkInode data (len data)) /\
              fs_dir s' !! temp = Some i
  | Err e => exists op err, e = ioFailure op (in_file p) err
  end.
Proof.
  intros Hwf Hwrites. unfold prepareFile, fs_bind, fs_value.
  destruct (OpenFile _ _ _ s) as [[i|err] s1] eqn:Ho; apply OpenFile_new in Ho as (Hwf1 & Ht1 & Hi); try done.
  2:{ intros [= <- <-]. split_and!; eauto. }
  destruct Hi as (Hnew & Hempty & Hdir). unfold fs_on_error, fs_call.
  assert (forall s2, same_but i s1 s2 -> fs_wf s2 /\ touches {[temp]} s s2) as Hkeep.
  { intros s2 Hsb. split; [eapply wf_same_but; eauto|by eapply touches_new]. }
  assert (forall s2 s3 e, same_but i s1 s2 -> file_Close i s2 = (e, s3) -> same_but i s1 s3) as Hclose.
  { intros s2 s3 e Hsb Hc%file_Close_disk. eapply same_but_trans; [done|]. by apply same_but_disk. }
  destruct (write i s1) as [[err|] s2] eqn:Hw; apply Hwrites in Hw as (Hsb2 & Hsync2 & Hdata);
    try (by apply inode_Some).
  { destruct (file_Close i s2) as [e s3] eqn:Hc. intros [= <- <-].
    destruct (Hkeep s3 ltac:(by eapply Hclose)). split_and!; eauto. }
  destruct (Sync _ i s2) as [[err|] s3] eqn:Hs; pose proof (Sync_frame _ _ _ _ _ Hs) as Hsb3;
    apply Sync_spec in Hs as (Hd3 & _ & Hs3); pose proof (same_but_trans _ _ _ _ Hsb2 Hsb3) as Hsb.
  { destruct (file_Close i s3) as [e s4] eqn:Hc. intros [= <- <-].
    destruct (Hkeep s4 ltac:(by eapply Hclose)). split_and!; eauto. }
  destruct (file_Close i s3) as [[err|] s4] eqn:Hc; pose proof (Hclose _ _ _ Hsb Hc) as Hsb4.
  { destruct (file_Close i s4) as [e s5] eqn:Hc5. intros [= <- <-].
    destruct (Hkeep s5 ltac:(by eapply Hclose)). split_and!; eauto. }
  intros [= <- <-]. destruct (Hkeep s4 Hsb4). split_and!; [done|done|]. exists i. split; [done|].
  pose proof Hsb4 as (Hdir4 & _ & _ & Hi4). rewrite Hdir4. split; [|done].
  rewrite inode_is_Some by (apply Hi4; eauto). apply file_Close_disk, (disk_inode i) in Hc. rewrite Hc.
  specialize (Hdata eq_refl). specialize (Hs3 eq_refl). destruct (inode i s3). simpl in *. congruence.
Qed.

Lemma Rename_spec point temp final i s e s' :
  fs_dir s !! temp = Some i -> Rename point temp final s = (e, s') ->
  (disk s' = disk s /\ e <> None) \/
  (disk s' = (fs_inodes s, <[final := i]> (delete temp (fs_dir s)), fs_dir s :: fs_pending s) /\
   match e with Some err => FailedAfter err = true | None => True end).
Proof.
  intros Hl. unfold Rename, hooked. destruct (visit point Before s) as [[err|] s1] eqn:H1; apply visit_disk in H1.
  { intros [= <- <-]. by left. }
  unfold os_rename. destruct (os_fail SysRename s1) as [[err|] s2] eqn:H2; apply os_fail_disk in H2; rewrite H1 in H2.
  { intros [= <- <-]. by left. }
  unfold disk in H2. injection H2 as Hino Hdir Hpend. rewrite Hdir, Hl. intros Hv. right. split.
  - apply visit_disk in Hv. rewrite Hv. unfold disk, setDir. simpl. congruence.
  - unfold visit in Hv. destruct (env_visit _ _) as [[err|] env]; injection Hv as <- <-; done.
Qed.

Lemma SyncDir_spec point s e s' :
  SyncDir point s = (e, s') ->
  fs_inodes s' = fs_inodes s /\ fs_dir s' = fs_dir s /\
  (fs_pending s' = [] \/ fs_pending s' = fs_pending s) /\ (e = None -> fs_pending s' = []).
Proof.
  unfold SyncDir, hooked. destruct (visit point Before s) as [[err|] s1] eqn:H1; apply visit_disk in H1.
  { intros [= <- <-]. unfold disk in H1. injection H1 as -> -> ->. naive_solver. }
  unfold os_syncdir. destruct (os_fail SysSyncDir s1) as [[err|] s2] eqn:H2; apply os_fail_disk in H2; rewrite H1 in H2;
    unfold disk in H2; injection H2 as Hino Hdir Hpend.
  { intros [= <- <-]. rewrite Hino, Hdir, Hpend. naive_solver. }
  intros Hv%visit_disk. unfold disk in Hv. simpl in Hv. injection Hv as -> -> ->. rewrite Hino, Hdir. naive_solver.
Qed.

(** The renamed file is in place in every directory a crash may expose that is
    not an earlier one. *)
Lemma holds_renamed s s' temp final i data P :
  fs_wf s -> temp <> final -> fs_dir s !! temp = Some i -> fs_inodes s !! i = Some (MkInode data (len data)) ->
  fs_inodes s' = fs_inodes s -> fs_dir s' = <[final := i]> (delete temp (fs_dir s)) ->
  (forall d, d ∈ fs_pending s' -> crash_dir s d) -> holds s final P ->
  holds s' final (fun f => P f \/ f = Some data) /\
  (fs_pending s' = [] -> holds s' final (fun f => f = Some data)) /\
  fs_wf s' /\ touches {[temp; final]} s s'.
Proof.
  intros Hwf Hne Ht Hi Hino Hdir Hpend HP.
  assert (file_in s' (fs_dir s') final (Some data)) as Hnew.
  { unfold file_in, inode. by rewrite Hdir, lookup_insert_eq, Hino, Hi. }
  split_and!.
  - intros d [->|Hd]; [by eauto|]. destruct (HP d (Hpend d Hd)) as (f & Hf & Hin). exists f. split; [by left|].
    unfold file_in, inode in *. by rewrite Hino.
  - intros Hnil d [->|Hd]; [by eauto|]. rewrite Hnil in Hd. by apply not_elem_of_nil in Hd.
  - split; rewrite ?Hino.
    + intros d m j [->|Hd]; [|apply (wf_inodes _ Hwf d m j); by apply Hpend]. rewrite Hdir.
      intros [[<- <-]|[_ [_ Hj]%lookup_delete_Some]]%lookup_insert_Some; [by eauto|].
      by eapply (wf_inodes _ Hwf _ _ _ (or_introl eq_refl)).
    + intros d n n' j [->|Hd]; [|apply (wf_inj _ Hwf d n n' j); by apply Hpend]. rewrite Hdir.
      assert (forall m, delete temp (fs_dir s) !! m <> Some i) as Hgone.
      { intros m [Hm Hmi]%lookup_delete_Some. by destruct Hm; eapply (wf_inj _ Hwf _ _ _ _ (or_introl eq_refl)). }
      intros [[<- <-]|[Hn Hj]]%lookup_insert_Some [[<- Heq]|[Hn' Hj']]%lookup_insert_Some; try done;
        [by apply Hgone in Hj'|subst; by apply Hgone in Hj|].
      apply lookup_delete_Some in Hj as [_ Hj], Hj' as [_ Hj']. by eapply (wf_inj _ Hwf _ _ _ _ (or_introl eq_refl)).
  - assert (forall m, m ∉ ({[temp; final]} : gset string) -> fs_dir s' !! m = fs_dir s !! m) as Hd.
    { intros m Hm. rewrite Hdir, lookup_insert_ne, lookup_delete_ne; [done|set_solver..]. }
    split; [by rewrite Hino| |done]. intros d [->|Hd']; [exists (fs_dir s); split; [by left|done]|eauto].
Qed.

(** Replacing a file is atomic. *)
Lemma installFile_atomic p temp final data write s r s' P :
  fs_wf s -> temp <> final -> writes data write -> holds s final P ->
  installFile p temp final write s = (r, s') ->
  fs_wf s' /\ touches {[temp; final]} s s' /\ holds s' final (fun f => P f \/ f = Some data) /\
  match r with
  | Ok _ => holds s' final (fun f => f = Some data) /\ fs_pending s' = []
  | Err e => claims_applied e = false -> holds s' final P
  end.
Proof.
  intros Hwf Hne Hwr HP. unfold installFile, fs_bind, fs_call.
  destruct (prepareFile p temp write s) as [[u|e] s1] eqn:Hprep;
    apply (prepareFile_spec _ _ _ data) in Hprep as (Hwf1 & Ht1 & Hr1); try done.
  2:{ intros [= <- <-]. pose proof (touches_holds _ _ _ final P Hwf Ht1 ltac:(set_solver) HP).
      split_and!; [done|by eapply touches_mono; [|done]; set_solver| |done]. by eapply holds_impl; [|done]; auto. }
  destruct Hr1 as (i & Hnew & Hi1 & Hdir1).
  pose proof (touches_holds _ _ _ final P Hwf Ht1 ltac:(set_solver) HP) as HP1.
  assert (touches {[temp; final]} s s1) as Ht1' by (eapply touches_mono; [|done]; set_solver).
  destruct (Rename _ temp final s1) as [e2 s2] eqn:Hren. apply (Rename_spec _ _ _ i) in Hren as [[Hd He]|[Hd Hafter]]; try done.
  - destruct e2 as [err|]; [|done]. intros [= <- <-].
    assert (holds s2 final P) as HP2 by (eapply (touches_holds ∅); eauto using touches_disk; set_solver).
    split_and!; [by eapply wf_disk|by eapply touches_trans; [|apply touches_disk]| |done].
    by eapply holds_impl; [|done]; auto.
  - unfold disk in Hd. injection Hd as Hino2 Hdir2 Hpend2.
    assert (forall d, d ∈ fs_pending s2 -> crash_dir s1 d) as Hsub
      by (rewrite Hpend2; unfold crash_dir; set_solver).
    destruct (holds_renamed s1 s2 temp final i data P Hwf1 Hne Hdir1 Hi1 Hino2 Hdir2 Hsub HP1) as (HP2 & _ & Hwf2 & Ht2).
    destruct e2 as [err|].
    { intros [= <- <-]. split_and!; [done|by eapply touches_trans|done|]. unfold renameError. rewrite Hafter. done. }
    destruct (SyncDir _ s2) as [e3 s3] eqn:Hs. apply SyncDir_spec in Hs as (Hino3 & Hdir3 & Hpend3 & Hok).
    rewrite Hino2 in Hino3. rewrite Hdir2 in Hdir3.
    destruct (holds_renamed s1 s3 temp final i data P Hwf1 Hne Hdir1 Hi1 Hino3 Hdir3) as (HP3 & Hsure & Hwf3 & Ht3); try done.
    { intros d. destruct Hpend3 as [->| ->]; [by intros ?%not_elem_of_nil|]. apply Hsub. }
    destruct e3 as [err|]; intros [= <- <-]; (split; [done|split; [by eapply touches_trans|split; [done|]]]); [done|].
    split; auto.
Qed.
(** The names a replacement of [file] may touch. *)
Definition replaces (file : string) s s' : Prop :=
  exists suffix, touches {[file +:+ ".tmp-" +:+ suffix; file]} s s'.

Lemma temp_name_ne file suffix : file +:+ ".tmp-" +:+ suffix <> file.
Proof. induction file as [|c file IH]; [done|]. cbn. intros [= Heq]. by apply IH. Qed.

Lemma replaceFile_spec p op final data write rnd s r rnd' s' P :
  fs_wf s -> writes data write -> holds s final P -> replaceFile p op final write rnd s = (r, rnd', s') ->
  fs_wf s' /\ replaces final s s' /\ holds s' final (fun f => P f \/ f = Some data) /\
  match r with
  | Ok _ => holds s' final (fun f => f = Some data) /\ fs_pending s' = []
  | Err e => claims_applied e = false -> holds s' final P
  end.
Proof.
  intros Hwf Hwr HP. unfold replaceFile. destruct (randomSuffix rnd) as [[suffix|e] rnd1].
  2:{ intros [= <- <- <-]. split_and!; [done|exists ""; apply touches_refl| |done].
      eapply holds_impl; [|done]. auto. }
  destruct (installFile _ _ _ _ s) as [r1 s1] eqn:Hi. intros [= <- <- <-].
  destruct (installFile_atomic _ _ _ _ _ _ _ _ P Hwf (temp_name_ne _ _) Hwr HP Hi) as (Hwf1 & Ht & HP1 & Hr).
  split; [done|]. split; [by exists suffix|]. done.
Qed.
End contents.
