(* ===== verification/Identity.v ===== *)
(** * The identity file and revision reservations (internal/persist/identity.go)

    IDENTITY holds the database's id, the end of the revisions reserved so far
    and a generation.  Its codec is exact.  [ReserveRevisions] makes a larger
    reservation durable before it hands the range out, so no revision is ever
    handed out twice, whatever fails and however often the process restarts. *)

From stdpp Require Import base gmap list strings pretty sorting.
From Stdlib Require Import ZArith Lia.
From S2P Require Import Prelude.
From S2P Require Import Bytes.
From S2P Require Import Errors.
From S2P Require Import Checksum.
From S2P Require Import ApiTypes.
From S2P Require Import Allocator.
From S2P Require Import FaultFS.
From S2P Require Import StorageErrors.
From S2P Require Import WalScan.
From S2P Require Import WalLog.
From S2P Require Import Storage.

Local Open Scope Z_scope.
Local Open Scope go_scope.
Local Open Scope fsio_scope.

Definition IdentityFilename : string := "IDENTITY".
Definition IdentitySize : Z := 64.

Record Identity := MkIdentity {
  IdDatabaseID : DatabaseID;
  IdReservedEnd : Revision;
  IdGeneration : Z
}.

(** ** The codec *)

Definition identityBody (id : Identity) : bytes :=
  lit "GAPID001" ++ be_encode 2 storageVersion ++ be_encode 2 IdentitySize
  ++ IdDatabaseID id ++ be_encode 8 (IdReservedEnd id) ++ be_encode 8 (IdGeneration id) ++ zeros 16.

Definition EncodeIdentity (id : Identity) : result goerror bytes :=
  reject DatabaseID_IsZero (IdDatabaseID id) with corruptIdentity "database ID is zero" None ;;
  reject IdGeneration id =? 0 with corruptIdentity "generation must be greater than zero" None ;;
  Ok (identityBody id ++ be_encode 4 (crc32c (identityBody id))).

Definition identitySizeReason (n : Z) : string := "size is " +:+ pretty n +:+ ", want " +:+ pretty IdentitySize.

Definition DecodeIdentity (encoded : bytes) : result goerror Identity :=
  reject negb (len encoded =? IdentitySize) with corruptIdentity (identitySizeReason (len encoded)) None ;;
  reject negb (bool_decide (slice encoded 0 8 = lit "GAPID001"))
    with corruptIdentity "magic does not match GAPID001" None ;;
  let version := be_decode (slice encoded 8 10) in
  reject negb (version =? storageVersion) with unknownStorageFormat IdentityFilename version ;;
  reject negb (be_decode (slice encoded 10 12) =? IdentitySize)
    with corruptIdentity "header length is not 64" None ;;
  reject negb (all_zero (slice encoded 44 60)) with corruptIdentity "reserved bytes are nonzero" None ;;
  reject negb (crc32c (slice encoded 0 60) =? be_decode (slice encoded 60 64))
    with corruptIdentity "CRC32C mismatch" None ;;
  let id := MkIdentity (slice encoded 12 28) (be_decode (slice encoded 28 36))
              (be_decode (slice encoded 36 44)) in
  reject DatabaseID_IsZero (IdDatabaseID id) || (IdGeneration id =? 0)
    with corruptIdentity "database ID and generation must be nonzero" None ;;
  Ok id.

Definition ValidateIdentity (id : Identity) (minimumGeneration : Z) (recovered : Revision) : error :=
  if IdGeneration id <? minimumGeneration then Some (corruptIdentity "identity generation regressed" None)
  else if IdReservedEnd id <? recovered
  then Some (revisionRangeError (IdReservedEnd id) "recovered revision exceeds the durable reservation" None)
  else None.

(** ** Reading and replacing the file *)

(** [file.Read] of one byte. *)
Definition Read1 (r : Reader) : Z * error :=
  match rd_data r with
  | [] => (0, Some (default (ErrSys SysEOF) (rd_fail r)))
  | _ => (1, None)
  end.

Section identity.
Context {E : Type} `{OSEnv E}.

Definition ReadIdentity : fsio E Identity :=
  let? file := fs_value (ioFailure "open" IdentityFilename)
                 (OpenFile PointOpen IdentityFilename (MkFlags false false)) in
  fs_defer (file_Close file)
    (let? reader := readFile file in
     let '(encoded, readErr, reader) := ReadFull (IdentitySize + 1) reader in
     do? match readErr with
         | Some e => if negb (isUnexpectedEOF e) then fs_throw (ioFailure "read" IdentityFilename e) else fs_ret tt
         | None => fs_ret tt
         end;
     let n := len encoded in
     if negb (n =? IdentitySize) then fs_throw (corruptIdentity (identitySizeReason n) readErr)
     else
       let (got, err) := Read1 reader in
       if negb match err with Some (ErrSys SysEOF) => true | _ => false end || negb (got =? 0) then
         match err with
         | Some e => fs_throw (ioFailure "read" IdentityFilename e)
         | None => fs_throw (corruptIdentity "file has trailing bytes" None)
         end
       else fs_lift (DecodeIdentity (slice encoded 0 IdentitySize))).

Definition identityPlan : InstallPlan :=
  MkInstallPlan IdentityFilename ("identity.temp_create", "identity_temp_create") "identity_temp_write"
    ("identity.temp_sync", "identity_temp_sync") "identity_temp_close"
    ("identity.rename", "identity_rename") ("identity.directory_sync", "identity_directory_sync").

Definition installIdentity (encoded : bytes) : Reader -> FSState E -> result goerror unit * Reader * FSState E :=
  replaceFile identityPlan "generate_temp_name" IdentityFilename (writeAll "identity.temp_write" encoded).

Definition LoadOrCreateIdentity (randomness : Reader) (s : FSState E)
    : result goerror (Identity * bool) * Reader * FSState E :=
  let (r, s) := Stat "filesystem.stat" IdentityFilename s in
  match r with
  | Ok _ =>
      let (r, s) := ReadIdentity s in
      (match r with Ok id => Ok (id, false) | Err e => Err e end, randomness, s)
  | Err e =>
      if negb (errors_Is e SysNotExist) then (Err (ioFailure "stat" IdentityFilename e), randomness, s)
      else match ReadFull 16 randomness with
      | (_, Some e, randomness) => (Err (ioFailure "generate_database_id" IdentityFilename e), randomness, s)
      | (id, None, randomness) =>
          if DatabaseID_IsZero id
          then (Err (corruptIdentity "generated database ID is zero" None), randomness, s)
          else
            let identity := MkIdentity id 0 1 in
            match EncodeIdentity identity with
            | Err e => (Err e, randomness, s)
            | Ok encoded =>
                let '(r, randomness, s) := installIdentity encoded randomness s in
                (match r with Ok _ => Ok (identity, true) | Err e => Err e end, randomness, s)
            end
      end
  end.

Definition ReserveRevisions (identity : Identity) (recovered : Revision) (rangeSize : Z)
    (randomness : Reader) (s : FSState E) : result goerror (Identity * RevisionRange) * Reader * FSState E :=
  let fail reason := (Err (revisionRangeError (IdReservedEnd identity) reason None), randomness, s) in
  if IdReservedEnd identity <? recovered then fail "recovered revision exceeds the durable reservation"
  else if rangeSize =? 0 then fail "reservation size must be greater than zero"
  else if max_uint64 - rangeSize <? IdReservedEnd identity then fail "revision reservation would overflow"
  else if IdGeneration identity =? max_uint64 then fail "identity generation would overflow"
  else
    let updated := MkIdentity (IdDatabaseID identity) (wrap_u64 (IdReservedEnd identity + rangeSize))
                     (wrap_u64 (IdGeneration identity + 1)) in
    match EncodeIdentity updated with
    | Err e => (Err e, randomness, s)
    | Ok encoded =>
        let '(r, randomness, s) := installIdentity encoded randomness s in
        (match r with
         | Ok _ => Ok (updated, MkRevisionRange (wrap_u64 (IdReservedEnd identity + 1)) (IdReservedEnd updated))
         | Err e => Err e
         end, randomness, s)
    end.

(** [runtimeAllocator] (internal/server/owner.go): the closure keeps the
    identity it wrote last. *)
Definition defaultRevisionReservation : Z := 1048576.

Definition ReserveState : Type := Identity * Reader * FSState E.

Definition runtimeReserve : ReserveFunc ReserveState := fun '(identity, randomness, s) after =>
  let '(r, randomness, s) := ReserveRevisions identity after defaultRevisionReservation randomness s in
  match r with
  | Ok (updated, next) => (Ok next, (updated, randomness, s))
  | Err e => (Err e, (identity, randomness, s))
  end.

Definition runtimeAllocator (identity : Identity) (current : Revision) (allocation : RevisionRange)
    (randomness : Reader) (s : FSState E) : result goerror (RangeAllocator ReserveState) :=
  NewRangeAllocator current allocation (Some runtimeReserve) (identity, randomness, s).
End identity.
Arguments ReserveState : clear implicits.

(** ** The codec is exact *)

Definition identity_wf (id : Identity) : Prop :=
  length (IdDatabaseID id) = 16%nat /\ u64 (IdReservedEnd id) /\ u64 (IdGeneration id).

Lemma DecodeIdentity_encode id encoded :
  identity_wf id -> EncodeIdentity id = Ok encoded -> DecodeIdentity encoded = Ok id /\ len encoded = IdentitySize.
Proof.
  intros (Hid & Hend & Hgen) Henc. unfold EncodeIdentity in Henc.
  destruct (DatabaseID_IsZero _) eqn:Hz; [done|]. destruct (_ =? 0) eqn:Hg; [done|].
  assert (encoded = identityBody id ++ be_encode 4 (crc32c (identityBody id))) as -> by congruence. clear Henc.
  assert (len (identityBody id) = 60) as Hbody.
  { unfold identityBody. rewrite !len_app, !len_be_encode, len_zeros. unfold len at 2. by rewrite Hid. }
  assert (len (identityBody id ++ be_encode 4 (crc32c (identityBody id))) = 64) as Hlen
    by (rewrite len_app, len_be_encode, Hbody; reflexivity).
  split; [|done]. unfold DecodeIdentity.
  set (body := identityBody id) in *. set (crc := be_encode 4 (crc32c body)) in *.
  assert (slice (body ++ crc) 60 64 = crc) as Hcrc by (subst crc; slice_fields; done).
  assert (slice (body ++ crc) 0 60 = body) as Hhead by (slice_fields; done).
  pass by (rewrite Hlen; done).
  pose proof (fun a b Ha Hb => slice_app_l body crc a b Ha Hb) as Hsl. rewrite Hbody in Hsl.
  rewrite Hcrc, Hhead. rewrite !Hsl by lia. subst body crc. unfold identityBody. slice_fields.
  pass by done. pass by done. pass by done. pass by done.
  pass by (pose proof (crc32c_range (identityBody id)); unfold identityBody in *;
           rewrite be4_roundtrip, Z.eqb_refl by (unfold max_uint32; lia); done).
  unfold u64 in *. rewrite !be8_roundtrip by done. pass by (simpl; by rewrite Hz, Hg). by destruct id.
Qed.

Lemma EncodeIdentity_decode encoded id :
  DecodeIdentity encoded = Ok id -> identity_wf id /\ EncodeIdentity id = Ok encoded.
Proof.
  intros Hd. unfold DecodeIdentity in Hd.
  destruct (Z.eqb_spec (len encoded) IdentitySize) as [Hlen|]; [|done]. unfold IdentitySize in *.
  repeat match type of Hd with
  | (if ?c then Err _ else _) = Ok _ => destruct c eqn:?; [discriminate Hd|]
  end.
  injection Hd as <-. go_bool. rewrite ?Z.eqb_eq in *. cbn [IdDatabaseID IdReservedEnd IdGeneration] in *.
  split.
  - unfold identity_wf, u64, max_uint64. cbn [IdDatabaseID IdReservedEnd IdGeneration].
    pose proof (len_slice encoded 12 28 ltac:(lia)). pose proof (be_decode_range (slice encoded 28 36)) as Hr1.
    pose proof (be_decode_range (slice encoded 36 44)) as Hr2. rewrite len_slice in Hr1, Hr2 by lia. unfold len in *.
    split_and!; lia.
  - unfold EncodeIdentity, identityBody. cbn [IdDatabaseID IdReservedEnd IdGeneration].
    pass by done. pass by done.
    rewrite (zeros_slice 16 encoded 44 60) by (done || lia).
    rewrite <- Heqb0, <- Heqb1. replace IdentitySize with (be_decode (slice encoded 10 12)).
    rewrite !be_encode_slice by lia. rewrite <- !slice_split by lia.
    rewrite Heqb4, be_encode_slice, <- slice_split by lia. by rewrite (slice_all 64) by lia.
Qed.

(** ** Reservations are durable before they are used *)

Section reservations.
Context {E : Type} `{OSEnv E}.
Implicit Types s : FSState E.

Lemma installIdentity_spec encoded rnd s r rnd' s' P :
  fs_wf s -> holds s IdentityFilename P -> installIdentity encoded rnd s = (r, rnd', s') ->
  fs_wf s' /\ replaces IdentityFilename s s' /\
  holds s' IdentityFilename (fun f => P f \/ f = Some encoded) /\
  match r with
  | Ok _ => holds s' IdentityFilename (fun f => f = Some encoded)
  | Err e => claims_applied e = false -> holds s' IdentityFilename P
  end.
Proof.
  intros Hwf HP Hi. eapply replaceFile_spec in Hi as (Hwf1 & Ht & HP1 & Hr); [|done|apply writeAll_writes|done].
  split_and!; try done. by destruct r as [u|e]; [destruct Hr|].
Qed.

Definition grow (size : Z) (id : Identity) : Identity :=
  MkIdentity (IdDatabaseID id) (IdReservedEnd id + size) (IdGeneration id + 1).

(** The file is this identity, or the one of a reservation that was installed
    although its installation reported an error. *)
Definition identity_file (size : Z) (id : Identity) (f : option bytes) : Prop :=
  exists encoded, f = Some encoded /\
    (EncodeIdentity id = Ok encoded \/
     EncodeIdentity (grow size id) = Ok encoded /\ identity_wf (grow size id)).

Lemma ReserveRevisions_spec id recovered size rnd s r rnd' s' :
  identity_wf id -> 0 < size -> fs_wf s -> holds s IdentityFilename (identity_file size id) ->
  ReserveRevisions id recovered size rnd s = (r, rnd', s') ->
  fs_wf s' /\ replaces IdentityFilename s s' /\ holds s' IdentityFilename (identity_file size id) /\
  match r with
  | Ok (updated, range) =>
      updated = grow size id /\ identity_wf updated /\
      range = MkRevisionRange (IdReservedEnd id + 1) (IdReservedEnd id + size) /\ recovered <= IdReservedEnd id /\
      holds s' IdentityFilename (fun f => exists encoded, f = Some encoded /\ EncodeIdentity updated = Ok encoded)
  | Err e => True
  end.
Proof.
  intros (Hid & Hend & Hgen) Hsize Hwf Hfile. unfold ReserveRevisions, u64 in *.
  assert (replaces IdentityFilename s s) as Hrefl by (exists ""; apply touches_refl).
  destruct (Z.ltb_spec (IdReservedEnd id) recovered); [intros [= <- <- <-]; by split_and!|].
  destruct (Z.eqb_spec size 0); [lia|].
  destruct (Z.ltb_spec (max_uint64 - size) (IdReservedEnd id)); [intros [= <- <- <-]; by split_and!|].
  destruct (Z.eqb_spec (IdGeneration id) max_uint64); [intros [= <- <- <-]; by split_and!|].
  rewrite !wrap_u64_small by lia. fold (grow size id).
  assert (identity_wf (grow size id)) as Hwf' by (unfold identity_wf, u64; simpl; split_and!; done || lia).
  destruct (EncodeIdentity (grow size id)) as [encoded|] eqn:Henc; [|intros [= <- <- <-]; by split_and!].
  destruct (installIdentity encoded rnd s) as [[r1 rnd1] s1] eqn:Hi. intros [= <- <- <-].
  apply (installIdentity_spec _ _ _ _ _ _ _ Hwf Hfile) in Hi as (Hwf1 & Hrep & Hboth & Hr).
  split; [done|]. split; [done|]. split.
  - eapply holds_impl; [|exact Hboth]. intros f [Hf| ->]; [done|]. exists encoded. eauto.
  - destruct r1 as [u|e]; [|done]. split_and!; try done.
    eapply holds_impl; [|exact Hr]. intros f ->. eauto.
Qed.

(** ** The allocator over the identity file *)

(** Every revision handed out is within the reservation on disk. *)
Record reserved_inv (a : RangeAllocator (ReserveState E)) : Prop := {
  rv_reserve : ra_reserve a = Some (runtimeReserve (E := E));
  rv_wf : identity_wf (ra_storage a).1.1;
  rv_fs : fs_wf (ra_storage a).2;
  rv_file : holds (ra_storage a).2 IdentityFilename (identity_file defaultRevisionReservation (ra_storage a).1.1);
  rv_end : ra_end a <= IdReservedEnd (ra_storage a).1.1
}.

Lemma runtimeReserve_u64 : reserve_u64 (Some (runtimeReserve (E := E))).
Proof.
  intros f [[id rnd] s] after r st [= <-]. unfold runtimeReserve, ReserveRevisions.
  repeat (case_match; simplify_eq; try done). unfold range_u64, u64.
  intros [= <- _]. simpl. split; apply wrap_u64_range.
Qed.

Lemma Next_reserved a r a' :
  reserved_inv a -> RangeAllocator_Next a = (r, a') ->
  reserved_inv a' /\ IdDatabaseID (ra_storage a').1.1 = IdDatabaseID (ra_storage a).1.1 /\
  IdReservedEnd (ra_storage a).1.1 <= IdReservedEnd (ra_storage a').1.1 /\
  (forall rev, r = Ok rev -> rev <= ra_end a').
Proof.
  intros [Hres Hwf Hfs Hfile Hend]. unfold RangeAllocator_Next.
  destruct (ra_exhausted a); [intros [= <- <-]; split; [by constructor|by split_and!]|].
  assert (forall b r b', reserved_inv b -> ra_next b <= ra_end b -> takeNext b = (r, b') ->
    reserved_inv b' /\ ra_storage b' = ra_storage b /\ (forall rev, r = Ok rev -> rev <= ra_end b')) as Htake.
  { intros b r1 b' [] Hnext. unfold takeNext. destruct (_ =? _); intros [= <- <-]; simpl;
      (split; [by constructor|split; [done|by intros rev [= <-]]]). }
  destruct (Z.ltb_spec (ra_end a) (ra_next a)).
  2:{ intros Ht. destruct (Htake a r a') as (? & -> & ?); [by constructor|lia|done|]. by split_and!. }
  rewrite Hres. destruct a as [next endr ex reserve [[id rnd] s]]. simpl in *. unfold runtimeReserve at 1.
  destruct (ReserveRevisions _ _ _ _ _) as [[r1 rnd1] s1] eqn:Hr.
  apply ReserveRevisions_spec in Hr as (Hfs1 & _ & Hfile1 & Hr1); try done.
  destruct r1 as [[updated range]|e].
  2:{ intros [= <- <-]. split_and!; [by constructor|done|done|done]. }
  destruct Hr1 as (-> & Hwf' & -> & _ & Hsure).
  destruct (validateRange _ _) eqn:Hv; intros Ht.
  { injection Ht as <- <-. split_and!; try done; simpl; [|unfold defaultRevisionReservation; lia].
    split; simpl; try done; [|unfold defaultRevisionReservation; lia]. eapply holds_impl; [|exact Hsure].
    intros f (enc & -> & Henc). exists enc. eauto. }
  apply validateRange_None in Hv as (_ & _ & Hspan). simpl in *.
  apply Htake in Ht as (Hinv & Hst & Hrev); [|split; simpl; try done|done].
  - rewrite Hst. simpl. split_and!; try done. unfold defaultRevisionReservation. lia.
  - eapply holds_impl; [|exact Hsure]. intros f (enc & -> & Henc). exists enc. eauto.
Qed.

(** Some calls of [Next]: the revisions handed out, and the allocator after. *)
Fixpoint run_Next (n : nat) (a : RangeAllocator (ReserveState E)) : list Revision * RangeAllocator (ReserveState E) :=
  match n with
  | O => ([], a)
  | S n =>
      let (r, a) := RangeAllocator_Next a in
      let (revs, a) := run_Next n a in
      (match r with Ok rev => rev :: revs | Err _ => revs end, a)
  end.

Lemma run_Next_reserved n a :
  reserved_inv a -> let (revs, a') := run_Next n a in
  reserved_inv a' /\ IdDatabaseID (ra_storage a').1.1 = IdDatabaseID (ra_storage a).1.1 /\
  IdReservedEnd (ra_storage a).1.1 <= IdReservedEnd (ra_storage a').1.1 /\
  Forall (fun rev => rev <= IdReservedEnd (ra_storage a').1.1) revs.
Proof.
  revert a. induction n as [|n IH]; intros a Hinv; simpl; [by split_and!|].
  destruct (RangeAllocator_Next a) as [r a1] eqn:Hn.
  apply Next_reserved in Hn as (Hinv1 & Hid1 & Hmono1 & Hrev1); [|done].
  specialize (IH a1 Hinv1). destruct (run_Next n a1) as [revs a2]. destruct IH as (Hinv2 & Hid2 & Hmono2 & Hrevs).
  split_and!; [done|congruence|lia|]. destruct r as [rev|]; [|done]. constructor; [|done].
  pose proof (rv_end _ Hinv1). specialize (Hrev1 rev eq_refl). lia.
Qed.

Lemma run_Next_allocated n a : (run_Next n a).1 = allocated n a.
Proof.
  revert a. induction n as [|n IH]; intros a; [done|]. simpl. unfold alloc_Next, RangeAllocator_RevisionAllocator.
  destruct (RangeAllocator_Next a) as [r a1]. rewrite <- IH. destruct (run_Next n a1) as [revs a2]. by destruct r.
Qed.
End reservations.

(** ** Properties *)

(** The codec of the identity file is exact: a byte string decodes as an
    identity if and only if it is the encoding of that identity. *)
Theorem identity_codec encoded id :
  DecodeIdentity encoded = Ok id <-> identity_wf id /\ EncodeIdentity id = Ok encoded.
Proof.
  split; [apply EncodeIdentity_decode|]. intros [Hwf He]. by eapply DecodeIdentity_encode.
Qed.

Section properties.
Context {E : Type} `{OSEnv E}.

(** C16: No revision is used twice, across failures and restarts.  A process
    finds an identity, reserves a range and allocates revisions from it and from
    the ranges it reserves later, while system calls and hooks fail at any
    point.  The revisions increase strictly and lie above the end of the
    reservation the process found; and at any moment a crash leaves an identity
    file of the same database that decodes, with a reservation that covers all
    of them, so the next process allocates above them. *)
Theorem revisions_never_reused id encoded recovered rnd s updated range rnd1 s1 a n :
  identity_wf id -> EncodeIdentity id = Ok encoded -> 0 <= recovered ->
  fs_wf s -> holds s IdentityFilename (fun f => f = Some encoded) ->
  ReserveRevisions id recovered defaultRevisionReservation rnd s = (Ok (updated, range), rnd1, s1) ->
  runtimeAllocator updated recovered range rnd1 s1 = Ok a ->
  let (revs, a') := run_Next n a in
  StronglySorted Z.lt (IdReservedEnd id :: revs) /\
  forall found, crash_file (ra_storage a').2 IdentityFilename found ->
    exists content id', found = Some content /\ DecodeIdentity content = Ok id' /\
      IdDatabaseID id' = IdDatabaseID id /\ Forall (fun rev => rev <= IdReservedEnd id') revs.
Proof.
  intros Hwf Henc Hrec Hfs Hfile Hres Hnew. apply ReserveRevisions_spec in Hres as (Hfs1 & _ & _ & Hr); try done.
  2:{ eapply holds_impl; [|exact Hfile]. intros f ->. exists encoded. eauto. }
  destruct Hr as (-> & Hwf' & -> & Hle & Hsure). unfold runtimeAllocator in Hnew.
  assert (reserved_inv a) as Hinv.
  { unfold NewRangeAllocator in Hnew. destruct (validateRange _ _); [done|]. injection Hnew as <-.
    split; simpl; try done. eapply holds_impl; [|exact Hsure]. intros f (e & -> & He). exists e. eauto. }
  pose proof (run_Next_reserved n a Hinv) as Hrun. pose proof (run_Next_allocated n a) as Halloc.
  destruct (run_Next n a) as [revs a']. simpl in Halloc. destruct Hrun as (Hinv' & Hid' & Hmono & Hrevs). split.
  - rewrite Halloc. apply allocated_above. pose proof Hwf as (_ & Hu & _). pose proof Hwf' as (_ & Hu' & _).
    unfold u64 in *. simpl in Hu'. eapply (alloc_inv_new (IdReservedEnd id)
      (MkRevisionRange (IdReservedEnd id + 1) (IdReservedEnd id + defaultRevisionReservation))
      (Some runtimeReserve)); [done| |apply runtimeReserve_u64|].
    + split; unfold u64; simpl; unfold defaultRevisionReservation in *; lia.
    + unfold NewRangeAllocator in *. destruct (validateRange _ recovered); [done|].
      rewrite (proj2 (validateRange_None _ _)); [exact Hnew|]. simpl. unfold defaultRevisionReservation. lia.
  - intros found Hfound. apply (holds_crash _ _ _ _ (rv_file _ Hinv')) in Hfound as (content & -> & Hcont).
    assert (IdDatabaseID (ra_storage a).1.1 = IdDatabaseID id) as Hida.
    { unfold NewRangeAllocator in Hnew. destruct (validateRange _ _); [done|]. by injection Hnew as <-. }
    destruct Hcont as [He|[He Hwf2]].
    + exists content, (ra_storage a').1.1. split_and!; [done| |congruence|done].
      eapply DecodeIdentity_encode; [apply (rv_wf _ Hinv')|done].
    + exists content, (grow defaultRevisionReservation (ra_storage a').1.1). split_and!; [done| |simpl; congruence|].
      * by eapply DecodeIdentity_encode.
      * eapply Forall_impl; [exact Hrevs|]. simpl. unfold defaultRevisionReservation. lia.
Qed.
End properties.

Module SampleIdentity.
Definition id : Identity := MkIdentity (lit "0123456789abcdef") 40 3.
Definition encoded : bytes := match EncodeIdentity id with Ok b => b | Err _ => [] end.
Definition disk : FSState unit := MkFS tt {[1%positive := MkInode encoded 64]} {[IdentityFilename := 1%positive]} [].
Definition reserved : result goerror (Identity * RevisionRange) * Reader * FSState unit :=
  ReserveRevisions (H := quiet) id 12 defaultRevisionReservation (MkReader (lit "some random bytes") None) disk.
Definition range : RevisionRange := MkRevisionRange 41 (40 + defaultRevisionReservation).
Definition allocator : RangeAllocator (ReserveState unit) :=
  MkRangeAllocator 41 (40 + defaultRevisionReservation) false (Some (runtimeReserve (H := quiet)))
    (grow defaultRevisionReservation id, reserved.1.2, reserved.2).

Lemma disk_wf : fs_wf disk.
Proof.
  split.
  - intros d name i [->|Hd]; [|by apply not_elem_of_nil in Hd]. simpl.
    intros [<- <-]%lookup_singleton_Some. rewrite lookup_singleton_eq. done.
  - intros d n n' i [->|Hd]; [|by apply not_elem_of_nil in Hd]. simpl.
    by intros [<- _]%lookup_singleton_Some [<- _]%lookup_singleton_Some.
Qed.

Lemma disk_file : holds disk IdentityFilename (fun f => f = Some encoded).
Proof.
  intros d [->|Hd]; [|by apply not_elem_of_nil in Hd]. exists (Some encoded). split; [done|]. vm_compute. done.
Qed.
End SampleIdentity.

Lemma revisions_never_reused_witness :
  let (revs, a') := run_Next 3 SampleIdentity.allocator in
  StronglySorted Z.lt (40 :: revs) /\
  forall found, crash_file (ra_storage a').2 IdentityFilename found ->
    exists content id', found = Some content /\ DecodeIdentity content = Ok id' /\
      IdDatabaseID id' = IdDatabaseID SampleIdentity.id /\ Forall (fun rev => rev <= IdReservedEnd id') revs.
Proof.
  apply (revisions_never_reused (H := quiet) SampleIdentity.id SampleIdentity.encoded 12
    (MkReader (lit "some random bytes") None) SampleIdentity.disk (grow defaultRevisionReservation SampleIdentity.id)
    SampleIdentity.range SampleIdentity.reserved.1.2 SampleIdentity.reserved.2).
  - split; [reflexivity|]. unfold u64, max_uint64. simpl. lia.
  - reflexivity.
  - lia.
  - exact SampleIdentity.disk_wf.
  - exact SampleIdentity.disk_file.
  - vm_compute. reflexivity.
  - reflexivity.
Defined.
