(* ===== verification/Sha256.v ===== *)
(** * SHA-256 (crypto/sha256)

    The digest of snapshots and recovery exports, after FIPS 180-4: words are
    32-bit integers, the message is padded to blocks of 64 bytes.  The checks
    below are the published test vectors. *)

From stdpp Require Import base list strings.
From Stdlib Require Import ZArith Lia.
From S2P Require Import Prelude.
From S2P Require Import Bytes.
From S2P Require Import StorageErrors.

Local Open Scope Z_scope.

Definition w32 (z : Z) : Z := z mod 2 ^ 32.
Definition rotr (n x : Z) : Z := Z.lor (Z.shiftr x n) (w32 (Z.shiftl x (32 - n))).

Definition sha256_k : list Z :=
  [1116352408; 1899447441; 3049323471; 3921009573; 961987163; 1508970993; 2453635748; 2870763221;
   3624381080; 310598401; 607225278; 1426881987; 1925078388; 2162078206; 2614888103; 3248222580;
   3835390401; 4022224774; 264347078; 604807628; 770255983; 1249150122; 1555081692; 1996064986;
   2554220882; 2821834349; 2952996808; 3210313671; 3336571891; 3584528711; 113926993; 338241895;
   666307205; 773529912; 1294757372; 1396182291; 1695183700; 1986661051; 2177026350; 2456956037;
   2730485921; 2820302411; 3259730800; 3345764771; 3516065817; 3600352804; 4094571909; 275423344;
   430227734; 506948616; 659060556; 883997877; 958139571; 1322822218; 1537002063; 1747873779;
   1955562222; 2024104815; 2227730452; 2361852424; 2428436474; 2756734187; 3204031479; 3329325298].

Definition sha256_init : list Z :=
  [1779033703; 3144134277; 1013904242; 2773480762; 1359893119; 2600822924; 528734635; 1541459225].

Definition small_sigma0 (x : Z) : Z := Z.lxor (Z.lxor (rotr 7 x) (rotr 18 x)) (Z.shiftr x 3).
Definition small_sigma1 (x : Z) : Z := Z.lxor (Z.lxor (rotr 17 x) (rotr 19 x)) (Z.shiftr x 10).
Definition big_sigma0 (x : Z) : Z := Z.lxor (Z.lxor (rotr 2 x) (rotr 13 x)) (rotr 22 x).
Definition big_sigma1 (x : Z) : Z := Z.lxor (Z.lxor (rotr 6 x) (rotr 11 x)) (rotr 25 x).
Definition choice (x y z : Z) : Z := Z.lxor (Z.land x y) (Z.ldiff z x).
Definition majority (x y z : Z) : Z := Z.lxor (Z.lxor (Z.land x y) (Z.land x z)) (Z.land y z).

(** The message schedule, newest word first. *)
Fixpoint schedule (n : nat) (w : list Z) : list Z :=
  match n with
  | O => w
  | S n =>
      let at_ i := default 0 (w !! i) in
      schedule n (w32 (small_sigma1 (at_ 1%nat) + at_ 6%nat + small_sigma0 (at_ 14%nat) + at_ 15%nat) :: w)
  end.

Definition sha256_round (state : list Z) (kw : Z * Z) : list Z :=
  match state with
  | [a; b; c; d; e; f; g; h] =>
      let t1 := h + big_sigma1 e + choice e f g + kw.1 + kw.2 in
      let t2 := big_sigma0 a + majority a b c in
      [w32 (t1 + t2); a; b; c; w32 (d + t1); e; f; g]
  | _ => state
  end.

Fixpoint words (n : nat) (block : bytes) : list Z :=
  match n with
  | O => []
  | S n => be_decode (take 4 block) :: words n (drop 4 block)
  end.

Definition sha256_block (state : list Z) (block : bytes) : list Z :=
  let w := rev (schedule 48 (rev (words 16 block))) in
  zip_with (fun x y => w32 (x + y)) state (foldl sha256_round state (zip sha256_k w)).

Fixpoint sha256_blocks (n : nat) (state : list Z) (data : bytes) : list Z :=
  match n with
  | O => state
  | S n => sha256_blocks n (sha256_block state (take 64 data)) (drop 64 data)
  end.

Definition sha256_pad (data : bytes) : bytes :=
  data ++ [z2b 128] ++ zeros (Z.to_nat ((55 - len data) mod 64)) ++ be_encode 8 (8 * len data).

(** [sha256.Sum256]. *)
Definition Sum256 (data : bytes) : bytes :=
  let padded := sha256_pad data in
  sha256_blocks (length padded / 64) sha256_init padded ≫= be_encode 4.

Lemma sha256_abc :
  hex_EncodeToString (Sum256 (lit "abc")) =
  lit "ba7816bf8f01cfea414140de5dae2223b00361a396177a9cb410ff61f20015ad".
Proof. vm_compute. reflexivity. Qed.

Lemma sha256_two_blocks :
  hex_EncodeToString (Sum256 (lit "abcdbcdecdefdefgefghfghighijhijkijkljklmklmnlmnomnopnopq")) =
  lit "248d6a61d20638b8e5c026930c3e6039a33ce45964ff2167f6ecedd419db06c1".
Proof. vm_compute. reflexivity. Qed.

Lemma length_sha256_round state kw : length (sha256_round state kw) = length state.
Proof. unfold sha256_round. by repeat (case_match; try done). Qed.

Lemma length_sha256_block state block :
  length state = 8%nat -> length (sha256_block state block) = 8%nat.
Proof.
  intros Hs. unfold sha256_block. rewrite length_zip_with.
  assert (forall l st, length (foldl sha256_round st l) = length st) as Hf.
  { intros l. induction l as [|x l IH]; intros st; simpl; [done|]. by rewrite IH, length_sha256_round. }
  rewrite Hf. lia.
Qed.

Lemma length_Sum256 data : length (Sum256 data) = 32%nat.
Proof.
  unfold Sum256. set (n := (_ / 64)%nat). clearbody n.
  assert (forall st d, length st = 8%nat -> length (sha256_blocks n st d) = 8%nat) as Hb.
  { induction n as [|n IH]; intros st d Hst; [done|]. simpl. apply IH. by apply length_sha256_block. }
  specialize (Hb sha256_init (sha256_pad data) eq_refl).
  destruct (sha256_blocks _ _ _) as [|? [|? [|? [|? [|? [|? [|? [|? [|]]]]]]]]]; done.
Qed.
