(* ===== verification/Snapshot.v ===== *)
(** * Snapshot files (internal/persist/snapshot.go)

    The format of a snapshot: a header, the live records in key order and a
    SHA-256 of both.  The codec is exact: the decoder accepts a byte string for
    a digest if and only if it is the canonical image of the records it
    returns; the encoder writes the image of the live records. *)

From stdpp Require Import base gmap list strings sorting.
From Stdlib Require Import ZArith Lia.
From S2P Require Import Prelude.
From S2P Require Import Bytes.
From S2P Require Import Errors.
From S2P Require Import ApiTypes.
From S2P Require Import StorageErrors.
From S2P Require Import WalCodec.
From S2P Require Import OrderedKeys.
From S2P Require Import Sha256.

Local Open Scope Z_scope.
Local Open Scope go_scope.

Definition SnapshotHeaderSize : Z := 64.
Definition snapshotItemHeader : Z := 40.
Definition snapshotTrailer : Z := 32.
Definition MaxSnapshotBytes : Z := Z.shiftl 1 30.

Record SnapshotState := MkSnapshotState { SnRevision : Revision; SnRecords : list DBRecord }.

Definition unixNanoRepresentable (t : Time) : bool := time_Unix0 (UnixNano t) =? t.

(** ** Encoding *)

Definition liveAt (asOf : Time) (record : DBRecord) : bool :=
  match RecExpiresAt record with Some e => asOf <? e | None => true end.

Definition record_key_le (a b : DBRecord) : Prop := bytes_le (RecKey a) (RecKey b).
Global Instance record_key_le_dec : RelDecision record_key_le := fun a b => decide (bytes_le _ _).

(** The loop that validates the records and adds up their sizes. *)
Fixpoint snapshotPayload (limits : Limits) (revision : Revision) (index : Z) (previous : option bytes)
    (records : list DBRecord) (payloadBytes : Z) : result goerror Z :=
  match records with
  | [] => Ok payloadBytes
  | record :: rest =>
      reject bool_decide (RecKey record = []) || negb (utf8_valid (RecKey record))
             || (MaxKeyBytes limits <? len (RecKey record)) || (MaxValueBytes limits <? len (RecValue record))
             || (RecRevision record =? 0) || (revision <? RecRevision record)
        with corruptSnapshot "snapshot record fields are invalid" "" index None ;;
      reject bool_decide (previous = Some (RecKey record))
        with corruptSnapshot "snapshot contains duplicate keys" "" index None ;;
      reject match RecExpiresAt record with Some e => negb (unixNanoRepresentable e) | None => false end
        with corruptSnapshot "snapshot expiry is outside the signed Unix nanosecond range" "" index None ;;
      let addition := snapshotItemHeader + len (RecKey record) + len (RecValue record) in
      reject max_uint64 - addition <? payloadBytes
        with corruptSnapshot "snapshot payload length overflows" "" index None ;;
      snapshotPayload limits revision (index + 1) (Some (RecKey record)) rest (payloadBytes + addition)
  end.

Definition encodeRecord (r : DBRecord) : bytes :=
  be_encode 4 (len (RecKey r)) ++ be_encode 4 (len (RecValue r)) ++ be_encode 8 (RecRevision r)
  ++ be_encode 1 (if RecExpiresAt r then 1 else 0) ++ zeros 7
  ++ match RecExpiresAt r with Some t => be_encode 8 (wrap_u64 (UnixNano t)) | None => zeros 8 end
  ++ zeros 8 ++ RecKey r ++ RecValue r.

Definition snapshotBody (databaseID : DatabaseID) (revision : Revision) (records : list DBRecord)
    (payloadBytes : Z) : bytes :=
  lit "GAPSNAP1" ++ be_encode 2 storageVersion ++ be_encode 2 SnapshotHeaderSize ++ databaseID
  ++ be_encode 8 revision ++ be_encode 8 (len records) ++ be_encode 8 payloadBytes ++ zeros 12
  ++ (records ≫= encodeRecord).

Definition EncodeSnapshot (databaseID : DatabaseID) (state : SnapshotState) (asOf : Time) (limits : Limits)
    : result goerror (bytes * bytes) :=
  reject DatabaseID_IsZero databaseID || (MaxKeyBytes limits <=? 0) || (MaxValueBytes limits <=? 0)
    with corruptSnapshot "database ID and snapshot limits must be valid" "" 0 None ;;
  let records := merge_sort record_key_le (List.filter (liveAt asOf) (SnRecords state)) in
  match snapshotPayload limits (SnRevision state) 0 None records 0 with
  | Err e => Err e
  | Ok payloadBytes =>
      let total := wrap_u64 (SnapshotHeaderSize + snapshotTrailer + payloadBytes) in
      reject (MaxSnapshotBytes <? total) || (max_int64 <? total)
        with corruptSnapshot "snapshot exceeds the format size bound" "" 0 None ;;
      let body := snapshotBody databaseID (SnRevision state) records payloadBytes in
      let digest := Sum256 body in
      Ok (body ++ digest, digest)
  end.

(** ** Decoding *)

(** One iteration of the decoding loop; [previous] is the key before. *)
Definition decodeRecord (encoded : bytes) (payloadEnd offset : Z) (revision : Revision)
    (previous : option bytes) (limits : Limits) : result goerror (DBRecord * Z) :=
  reject payloadEnd - snapshotItemHeader <? offset
    with corruptSnapshot "record header is truncated" "" offset None ;;
  let keyBytes := be_decode (slice encoded offset (offset + 4)) in
  let valueBytes := be_decode (slice encoded (offset + 4) (offset + 8)) in
  let recordRevision := be_decode (slice encoded (offset + 8) (offset + 16)) in
  let flags := byte_at encoded (offset + 16) in
  let expiryNanos := wrap_i64 (be_decode (slice encoded (offset + 24) (offset + 32))) in
  reject negb (Z.ldiff flags 1 =? 0) || negb (all_zero (slice encoded (offset + 17) (offset + 24)))
         || negb (all_zero (slice encoded (offset + 32) (offset + 40)))
    with corruptSnapshot "record flags or reserved bytes are invalid" "" offset None ;;
  let offset := offset + snapshotItemHeader in
  let remaining := wrap_u64 (payloadEnd - offset) in
  reject (keyBytes =? 0) || (wrap_u64 (MaxKeyBytes limits) <? keyBytes)
         || (wrap_u64 (MaxValueBytes limits) <? valueBytes)
         || (remaining <? keyBytes) || (wrap_u64 (remaining - keyBytes) <? valueBytes)
    with corruptSnapshot "record key/value lengths exceed bounds" "" offset None ;;
  let keyEnd := offset + keyBytes in
  let valueEnd := keyEnd + valueBytes in
  let key := slice encoded offset keyEnd in
  reject negb (utf8_valid key) || (recordRevision =? 0) || (revision <? recordRevision)
         || match previous with Some p => negb (bytes_ltb p key) | None => false end
    with corruptSnapshot "records are invalid, duplicated, or not strictly sorted" "" offset None ;;
  let value := slice encoded keyEnd valueEnd in
  if flags =? 1 then Ok (MkRecord key value recordRevision (Some (time_Unix0 expiryNanos)), valueEnd)
  else
    reject negb (expiryNanos =? 0)
      with corruptSnapshot "expiry is nonzero without its flag" "" offset None ;;
    Ok (MkRecord key value recordRevision None, valueEnd).

Fixpoint decodeRecords (count : nat) (encoded : bytes) (payloadEnd offset : Z) (revision : Revision)
    (previous : option bytes) (limits : Limits) : result goerror (list DBRecord * Z) :=
  match count with
  | O => Ok ([], offset)
  | S count =>
      match decodeRecord encoded payloadEnd offset revision previous limits with
      | Err e => Err e
      | Ok (record, offset) =>
          match decodeRecords count encoded payloadEnd offset revision (Some (RecKey record)) limits with
          | Err e => Err e
          | Ok (records, offset) => Ok (record :: records, offset)
          end
      end
  end.

Definition DecodeSnapshot (encoded : bytes) (expectedID : DatabaseID) (expectedDigest : bytes)
    (limits : Limits) : result goerror SnapshotState :=
  reject (len encoded <? SnapshotHeaderSize + snapshotTrailer) || (MaxSnapshotBytes <? len encoded)
    with corruptSnapshot "snapshot size is outside bounds" "" 0 None ;;
  reject negb (bool_decide (slice encoded 0 8 = lit "GAPSNAP1"))
    with corruptSnapshot "magic does not match GAPSNAP1" "" 0 None ;;
  let version := be_decode (slice encoded 8 10) in
  reject negb (version =? storageVersion) with unknownStorageFormat "snapshot" version ;;
  reject negb (be_decode (slice encoded 10 12) =? SnapshotHeaderSize) || negb (all_zero (slice encoded 52 64))
    with corruptSnapshot "header length or reserved bytes are invalid" "" 0 None ;;
  let databaseID := slice encoded 12 28 in
  reject negb (bool_decide (databaseID = expectedID)) with databaseIDMismatch expectedID databaseID "snapshot" ;;
  let revision := be_decode (slice encoded 28 36) in
  let count := be_decode (slice encoded 36 44) in
  let payloadBytes := be_decode (slice encoded 44 52) in
  reject negb (wrap_u64 (payloadBytes + SnapshotHeaderSize + snapshotTrailer) =? len encoded)
         || (payloadBytes / snapshotItemHeader <? count)
    with corruptSnapshot "revision, count, or payload length is invalid" "" 0 None ;;
  let payloadEnd := len encoded - snapshotTrailer in
  let digest := Sum256 (slice encoded 0 payloadEnd) in
  reject negb (bool_decide (digest = expectedDigest))
         || negb (bool_decide (digest = slice encoded payloadEnd (len encoded)))
    with corruptSnapshot "SHA-256 mismatch" "" payloadEnd None ;;
  match decodeRecords (Z.to_nat count) encoded payloadEnd SnapshotHeaderSize revision None limits with
  | Err e => Err e
  | Ok (records, offset) =>
      reject negb (offset =? payloadEnd)
        with corruptSnapshot "snapshot payload has trailing bytes" "" offset None ;;
      Ok (MkSnapshotState revision records)
  end.

(** ** Well-formed snapshots *)

Definition record_wf (limits : Limits) (revision : Revision) (r : DBRecord) : Prop :=
  key_wf limits (RecKey r) /\ len (RecValue r) <= MaxValueBytes limits /\ 0 < RecRevision r <= revision /\
  match RecExpiresAt r with Some e => - 2 ^ 63 <= e < 2 ^ 63 | None => True end.

Definition records_bytes (records : list DBRecord) : Z :=
  foldr (fun r n => snapshotItemHeader + len (RecKey r) + len (RecValue r) + n) 0 records.

Record snapshot_wf (limits : Limits) (st : SnapshotState) : Prop := {
  sn_revision : 0 <= SnRevision st <= max_uint64;
  sn_sorted : strictly_sorted (RecKey <$> SnRecords st);
  sn_records : Forall (record_wf limits (SnRevision st)) (SnRecords st);
  sn_bytes : SnapshotHeaderSize + snapshotTrailer + records_bytes (SnRecords st) <= MaxSnapshotBytes
}.

(** The one byte string that represents a snapshot. *)
Definition snapshotContent (databaseID : DatabaseID) (st : SnapshotState) : bytes :=
  snapshotBody databaseID (SnRevision st) (SnRecords st) (records_bytes (SnRecords st)).
Definition snapshotImage (databaseID : DatabaseID) (st : SnapshotState) : bytes :=
  snapshotContent databaseID st ++ Sum256 (snapshotContent databaseID st).

Lemma len_encodeRecord r :
  len (encodeRecord r) = snapshotItemHeader + len (RecKey r) + len (RecValue r).
Proof.
  unfold encodeRecord. rewrite !len_app, !len_be_encode, !len_zeros.
  destruct (RecExpiresAt r); rewrite ?len_be_encode, ?len_zeros; unfold snapshotItemHeader; lia.
Qed.

Lemma len_encodeRecords l : len (l ≫= encodeRecord) = records_bytes l.
Proof.
  induction l as [|r l IH]; [done|]. rewrite bind_cons, len_app, len_encodeRecord, IH. done.
Qed.

Lemma records_bytes_nonneg l : 0 <= records_bytes l.
Proof. rewrite <- len_encodeRecords. apply len_nonneg. Qed.

Lemma records_bytes_min l : snapshotItemHeader * len l <= records_bytes l.
Proof.
  induction l as [|r l IH]; [done|]. rewrite len_cons. unfold records_bytes in *. cbn [foldr].
  pose proof (len_nonneg (RecKey r)). pose proof (len_nonneg (RecValue r)). lia.
Qed.

Section codec.
Variable limits : Limits.
Hypothesis limits_fine : limits_ok limits.

(** The fixed fields of an encoded record, read back at its offset. *)
Lemma record_fields revision r pre post :
  record_wf limits revision r -> revision <= max_uint64 ->
  let encoded := pre ++ encodeRecord r ++ post in let o := len pre in
  be_decode (slice encoded o (o + 4)) = len (RecKey r) /\
  be_decode (slice encoded (o + 4) (o + 8)) = len (RecValue r) /\
  be_decode (slice encoded (o + 8) (o + 16)) = RecRevision r /\
  byte_at encoded (o + 16) = (if RecExpiresAt r then 1 else 0) /\
  all_zero (slice encoded (o + 17) (o + 24)) = true /\
  wrap_i64 (be_decode (slice encoded (o + 24) (o + 32))) = default 0 (RecExpiresAt r) /\
  all_zero (slice encoded (o + 32) (o + 40)) = true /\
  slice encoded (o + 40) (o + 40 + len (RecKey r)) = RecKey r /\
  slice encoded (o + 40 + len (RecKey r)) (o + 40 + len (RecKey r) + len (RecValue r)) = RecValue r.
Proof.
  intros ((_ & _ & Hk) & Hv & Hrev & Hexp) Hmax encoded o.
  destruct (limits_ok_fields limits limits_fine) as [(Hmk & Hmv & _) _].
  pose proof (len_nonneg (RecKey r)). pose proof (len_nonneg (RecValue r)).
  pose proof (len_nonneg pre). pose proof (len_nonneg post). subst o.
  assert (len encoded = len pre + 40 + len (RecKey r) + len (RecValue r) + len post) as Hlen.
  { unfold encoded. rewrite !len_app, len_encodeRecord. unfold snapshotItemHeader. lia. }
  rewrite !byte_at_decode by lia. unfold encoded, encodeRecord. rewrite <- !app_assoc.
  assert (len (match RecExpiresAt r with
               | Some t => be_encode 8 (wrap_u64 (UnixNano t)) | None => zeros 8 end) = 8) as Hex
    by (destruct (RecExpiresAt r); rewrite ?len_be_encode, ?len_zeros; done).
  slice_fields.
  rewrite !be4_roundtrip by (unfold max_uint32; lia). rewrite (be8_roundtrip (RecRevision r)) by lia.
  rewrite !be_decode_encode_small by (simpl; destruct (RecExpiresAt r); lia).
  split_and!; try done.
  destruct (RecExpiresAt r) as [t|]; simpl; [|by rewrite be_decode_zeros].
  rewrite be8_roundtrip by apply wrap_u64_range. rewrite wrap_i64_wrap_u64. unfold UnixNano.
  by rewrite !wrap_i64_small by (rewrite ?wrap_i64_small; done).
Qed.

Definition before (previous : option bytes) (key : bytes) : Prop :=
  match previous with Some p => bytes_lt p key | None => True end.

Lemma decodeRecord_encode r pre post payloadEnd revision previous :
  record_wf limits revision r -> revision <= max_uint64 -> before previous (RecKey r) ->
  len pre + len (encodeRecord r) <= payloadEnd -> payloadEnd < 2 ^ 63 ->
  decodeRecord (pre ++ encodeRecord r ++ post) payloadEnd (len pre) revision previous limits =
  Ok (r, len pre + len (encodeRecord r)).
Proof.
  intros Hwf Hmax Hprev Hend Hint. destruct (limits_ok_fields limits limits_fine) as [(Hmk & Hmv & _) _].
  pose proof (record_fields revision r pre post Hwf Hmax) as Hf. cbv zeta in Hf.
  rewrite len_encodeRecord in *. unfold decodeRecord, snapshotItemHeader in *.
  destruct Hf as (-> & -> & -> & -> & -> & -> & -> & -> & ->).
  pose proof (len_nonneg (RecKey r)). pose proof (len_nonneg (RecValue r)). pose proof (len_nonneg pre).
  destruct Hwf as ((Hne & Hu & Hk) & Hv & Hrev & _).
  assert (len (RecKey r) <> 0) by (by rewrite len_nil_iff).
  pass by (apply Z.ltb_ge; lia). pass by (destruct (RecExpiresAt r); done).
  pass by (rewrite !wrap_u64_small by (unfold max_uint64; lia);
           repeat (apply orb_false_iff; split); first [apply Z.eqb_neq; lia | apply Z.ltb_ge;
           rewrite ?wrap_u64_small by (unfold max_uint64; lia); lia]).
  pass by (rewrite Hu; simpl; repeat (apply orb_false_iff; split);
           [apply Z.eqb_neq; lia|apply Z.ltb_ge; lia|destruct previous; [by apply negb_false_iff|done]]).
  replace (len pre + 40 + len (RecKey r) + len (RecValue r))
    with (len pre + (40 + len (RecKey r) + len (RecValue r))) by lia.
  destruct r as [key value rev [t|]]; done.
Qed.

Lemma decodeRecords_encode records pre post payloadEnd revision previous :
  Forall (record_wf limits revision) records -> revision <= max_uint64 ->
  strictly_sorted (RecKey <$> records) -> Forall (fun r => before previous (RecKey r)) records ->
  len pre + records_bytes records <= payloadEnd -> payloadEnd < 2 ^ 63 ->
  decodeRecords (length records) (pre ++ (records ≫= encodeRecord) ++ post) payloadEnd (len pre) revision previous
    limits = Ok (records, len pre + records_bytes records).
Proof.
  intros Hwf Hmax. revert pre previous. induction Hwf as [|r records Hr Hwf IH]; intros pre previous Hs Hprev Hend Hint.
  { simpl. f_equal. f_equal. lia. }
  rewrite bind_cons, <- app_assoc. cbn [decodeRecords length records_bytes foldr].
  apply Forall_cons in Hprev as [Hp _]. rewrite fmap_cons in Hs. apply StronglySorted_inv in Hs as [Hs Hall].
  pose proof (records_bytes_nonneg records) as Hnn. unfold records_bytes in Hend, Hnn. cbn [foldr] in Hend.
  rewrite decodeRecord_encode; [|done|done|done|rewrite len_encodeRecord; lia|done].
  replace (len pre + len (encodeRecord r)) with (len (pre ++ encodeRecord r)) by (by rewrite len_app).
  rewrite (app_assoc pre (encodeRecord r)), IH.
  - f_equal. f_equal. rewrite len_app, len_encodeRecord. unfold records_bytes. lia.
  - done.
  - rewrite Forall_fmap in Hall. exact Hall.
  - rewrite len_app, len_encodeRecord. unfold records_bytes. lia.
  - done.
Qed.

Lemma len_snapshotContent id st :
  length id = 16%nat -> len (snapshotContent id st) = SnapshotHeaderSize + records_bytes (SnRecords st).
Proof.
  intros Hid. unfold snapshotContent, snapshotBody. rewrite !len_app, !len_be_encode, len_zeros, len_encodeRecords.
  unfold len at 2. rewrite Hid. change (len (lit "GAPSNAP1")) with 8. unfold SnapshotHeaderSize. lia.
Qed.

Lemma len_snapshotImage id st :
  length id = 16%nat -> len (snapshotImage id st) = SnapshotHeaderSize + records_bytes (SnRecords st) + snapshotTrailer.
Proof.
  intros Hid. unfold snapshotImage. rewrite len_app, len_snapshotContent by done.
  unfold len at 1. rewrite length_Sum256. done.
Qed.

Lemma snapshotImage_split id st : length id = 16%nat ->
  exists pre, len pre = SnapshotHeaderSize /\
    snapshotImage id st = pre ++ (SnRecords st ≫= encodeRecord) ++ Sum256 (snapshotContent id st).
Proof.
  intros Hid. unfold snapshotImage, snapshotContent at 1, snapshotBody.
  exists (lit "GAPSNAP1" ++ be_encode 2 storageVersion ++ be_encode 2 SnapshotHeaderSize ++ id
    ++ be_encode 8 (SnRevision st) ++ be_encode 8 (len (SnRecords st)) ++ be_encode 8 (records_bytes (SnRecords st))
    ++ zeros 12).
  split; [|by rewrite <- !app_assoc]. rewrite !len_app, !len_be_encode, len_zeros. unfold len at 2. by rewrite Hid.
Qed.

(** The fixed fields of an image. *)
Lemma snapshot_fields id st :
  length id = 16%nat -> snapshot_wf limits st ->
  let e := snapshotImage id st in
  slice e 0 8 = lit "GAPSNAP1" /\ be_decode (slice e 8 10) = storageVersion /\
  be_decode (slice e 10 12) = SnapshotHeaderSize /\ slice e 12 28 = id /\
  be_decode (slice e 28 36) = SnRevision st /\ be_decode (slice e 36 44) = len (SnRecords st) /\
  be_decode (slice e 44 52) = records_bytes (SnRecords st) /\ all_zero (slice e 52 64) = true /\
  slice e 0 (len e - 32) = snapshotContent id st /\
  slice e (len e - 32) (len e) = Sum256 (snapshotContent id st).
Proof.
  intros Hid [Hrev _ _ Hb]. unfold SnapshotHeaderSize, snapshotTrailer in *. change MaxSnapshotBytes with 1073741824 in Hb.
  pose proof (records_bytes_nonneg (SnRecords st)). pose proof (records_bytes_min (SnRecords st)) as Hmin.
  unfold snapshotItemHeader in Hmin. pose proof (len_nonneg (SnRecords st)).
  rewrite len_snapshotImage by done. pose proof (len_snapshotContent id st Hid) as Hlen.
  unfold SnapshotHeaderSize, snapshotTrailer in *. unfold snapshotImage.
  pose proof (length_Sum256 (snapshotContent id st)) as Hd. set (digest := Sum256 _) in *. clearbody digest.
  set (body := snapshotContent id st) in *.
  assert (slice (body ++ digest) 0 (64 + records_bytes (SnRecords st) + 32 - 32) = body) as -> by (slice_fields; done).
  assert (slice (body ++ digest) (64 + records_bytes (SnRecords st) + 32 - 32) (64 + records_bytes (SnRecords st) + 32)
    = digest) as -> by (slice_fields; done).
  subst body. unfold snapshotContent, snapshotBody. rewrite <- !app_assoc. slice_fields.
  rewrite !be8_roundtrip by (unfold max_uint64 in *; lia). done.
Qed.

Lemma DecodeSnapshot_image id st :
  length id = 16%nat -> snapshot_wf limits st ->
  DecodeSnapshot (snapshotImage id st) id (Sum256 (snapshotContent id st)) limits = Ok st.
Proof.
  intros Hid Hwf. pose proof (snapshot_fields id st Hid Hwf) as Hf. cbv zeta in Hf.
  destruct Hf as (H1 & H2 & H3 & H4 & H5 & H6 & H7 & H8 & H9 & H10).
  pose proof (len_snapshotImage id st Hid) as Hlen. pose proof Hwf as [Hrev Hs Hrecs Hb].
  pose proof (records_bytes_nonneg (SnRecords st)). pose proof (records_bytes_min (SnRecords st)) as Hmin.
  unfold DecodeSnapshot, SnapshotHeaderSize, snapshotTrailer, snapshotItemHeader in *.
  rewrite H1, H2, H3, H4, H5, H6, H7, H8, H9, H10, Hlen. change MaxSnapshotBytes with 1073741824 in *.
  pass by (apply orb_false_iff; lia). pass by (by rewrite bool_decide_true). pass by done. pass by done.
  pass by (by rewrite bool_decide_true).
  pass by (rewrite wrap_u64_small by (unfold max_uint64; lia); apply orb_false_iff; split;
           [apply negb_false_iff, Z.eqb_eq; lia|apply Z.ltb_ge, Z.div_le_lower_bound; lia]).
  pass by (by rewrite !bool_decide_true).
  destruct (snapshotImage_split id st Hid) as (pre & Hpre & ->). unfold SnapshotHeaderSize in Hpre.
  replace (Z.to_nat (len (SnRecords st))) with (length (SnRecords st)) by (unfold len; lia).
  rewrite <- Hpre at 2. rewrite decodeRecords_encode; try done; try lia.
  - pass by (apply negb_false_iff, Z.eqb_eq; lia). by destruct st.
  - by apply Forall_forall.
Qed.

(** *** The decoder accepts nothing else *)

Lemma decodeRecord_canonical encoded payloadEnd offset revision previous r offset' :
  0 <= offset -> payloadEnd <= len encoded -> payloadEnd < 2 ^ 63 ->
  decodeRecord encoded payloadEnd offset revision previous limits = Ok (r, offset') ->
  offset <= offset' <= payloadEnd /\ slice encoded offset offset' = encodeRecord r /\
  record_wf limits revision r /\ before previous (RecKey r).
Proof.
  intros Hoff Hpe Hint Hd. unfold decodeRecord, snapshotItemHeader in Hd.
  destruct (limits_ok_fields limits limits_fine) as [(Hmk & Hmv & _) _].
  destruct (Z.ltb_spec (payloadEnd - 40) offset); [done|].
  destruct (_ || _) eqn:Hg1 in Hd; [done|]. destruct (_ || _) eqn:Hg2 in Hd; [done|].
  destruct (_ || _) eqn:Hg3 in Hd; [done|]. go_bool.
  set (kl := be_decode (slice encoded offset (offset + 4))) in *.
  set (vl := be_decode (slice encoded (offset + 4) (offset + 8))) in *.
  set (rv := be_decode (slice encoded (offset + 8) (offset + 16))) in *.
  assert (0 <= kl /\ 0 <= vl /\ 0 <= rv) as (Hkl & Hvl & Hrv) by (split_and!; apply be_decode_range).
  rewrite ?Z.ltb_ge, ?Z.eqb_eq, ?Z.eqb_neq in *.
  rewrite (wrap_u64_small (payloadEnd - _)) in * by (unfold max_uint64; lia).
  rewrite (wrap_u64_small (payloadEnd - _ - _)) in * by (unfold max_uint64; lia).
  rewrite (wrap_u64_small (MaxKeyBytes _)), (wrap_u64_small (MaxValueBytes _)) in * by (unfold max_uint64; lia).
  assert (slice encoded offset (offset + 40 + kl + vl) =
    be_encode 4 kl ++ be_encode 4 vl ++ be_encode 8 rv ++ be_encode 1 (byte_at encoded (offset + 16)) ++ zeros 7
    ++ slice encoded (offset + 24) (offset + 32) ++ zeros 8
    ++ slice encoded (offset + 40) (offset + 40 + kl)
    ++ slice encoded (offset + 40 + kl) (offset + 40 + kl + vl)) as Hslice.
  { rewrite !be_encode_byte_at by lia.
    rewrite (zeros_slice 7 encoded (offset + 17) (offset + 24)) by (done || lia).
    rewrite (zeros_slice 8 encoded (offset + 32) (offset + 40)) by (done || lia).
    unfold kl at 2, vl at 2, rv. rewrite !be_encode_slice by lia.
    replace (offset + 16 + 1) with (offset + 17) by lia. by rewrite <- !slice_split by lia. }
  pose proof (len_slice encoded (offset + 40) (offset + 40 + kl) ltac:(lia) ltac:(lia)) as Hlk.
  pose proof (len_slice encoded (offset + 40 + kl) (offset + 40 + kl + vl) ltac:(lia) ltac:(lia)) as Hlv.
  replace (offset + 40 + kl - (offset + 40)) with kl in Hlk by lia.
  replace (offset + 40 + kl + vl - (offset + 40 + kl)) with vl in Hlv by lia.
  assert (slice encoded (offset + 40) (offset + 40 + kl) <> []) as Hne
    by (intros Hnil; rewrite Hnil in Hlk; change (len (@nil byte)) with 0 in Hlk; lia).
  assert (before previous (slice encoded (offset + 40) (offset + 40 + kl))) as Hbefore
    by (destruct previous; [by apply negb_false_iff|done]).
  pose proof (wrap_i64_decode_zero encoded (offset + 24) ltac:(lia) ltac:(lia)) as Hzero.
  pose proof (wrap_u64_wrap_i64_decode encoded (offset + 24) ltac:(lia) ltac:(lia)) as Hnanos.
  pose proof (be_encode_slice 8 encoded (offset + 24) (offset + 32) ltac:(lia) ltac:(lia) ltac:(lia)) as Hexp.
  replace (offset + 24 + 8) with (offset + 32) in * by lia.
  assert (byte_at encoded (offset + 16) = 0 \/ byte_at encoded (offset + 16) = 1) as Hflag.
  { pose proof (flag_byte _ (byte_at_range encoded (offset + 16)) ltac:(assumption)) as Hfb.
    destruct (Z.land _ 1 =? 0); auto. }
  destruct (Z.eqb_spec (byte_at encoded (offset + 16)) 1) as [Hf|Hf].
  - injection Hd as <- <-. split; [lia|]. unfold encodeRecord, record_wf, key_wf, time_Unix0.
    cbn [RecKey RecValue RecRevision RecExpiresAt]. rewrite Hlk, Hlv, Hnanos, Hexp, Hslice, Hf.
    split; [done|]. split; [|done]. split_and!; try done; try lia; apply wrap_i64_range.
  - destruct (Z.eqb_spec (wrap_i64 (be_decode (slice encoded (offset + 24) (offset + 32)))) 0); [|done].
    injection Hd as <- <-. destruct Hflag as [Hf0|]; [|done].
    split; [lia|]. unfold encodeRecord, record_wf, key_wf. cbn [RecKey RecValue RecRevision RecExpiresAt].
    rewrite Hlk, Hlv, Hslice, Hf0, Hzero by done. split; [done|]. split; [|done]. split_and!; done || lia.
Qed.

Lemma decodeRecords_canonical count encoded payloadEnd offset revision previous records offset' :
  0 <= offset <= payloadEnd -> payloadEnd <= len encoded -> payloadEnd < 2 ^ 63 ->
  decodeRecords count encoded payloadEnd offset revision previous limits = Ok (records, offset') ->
  length records = count /\ offset <= offset' <= payloadEnd /\
  slice encoded offset offset' = (records ≫= encodeRecord) /\
  Forall (record_wf limits revision) records /\ strictly_sorted (RecKey <$> records) /\
  Forall (fun r => before previous (RecKey r)) records.
Proof.
  intros Hoff Hpe Hint. revert offset previous records offset' Hoff.
  induction count as [|count IH]; intros offset previous records offset' Hoff Hd; simpl in Hd.
  { simplify_eq. split_and!; [done|lia|lia|by rewrite slice_empty by lia|done|constructor|done]. }
  destruct (decodeRecord _ _ _ _ _ _) as [[r mid]|] eqn:He; [|done].
  destruct (decodeRecords _ _ _ _ _ _ _) as [[rest fin]|] eqn:Hr; [|done]. simplify_eq.
  apply decodeRecord_canonical in He as (Hmid & Hs & Hwf & Hbef); [|lia|lia|lia].
  apply IH in Hr as (<- & Hfin & Hs' & Hwfs & Hsorted & Hall); [|lia].
  split_and!; [done|lia|lia| |by constructor| |].
  - rewrite (slice_split _ _ mid) by lia. by rewrite Hs, Hs', bind_cons.
  - rewrite fmap_cons. constructor; [done|]. rewrite Forall_fmap. exact Hall.
  - constructor; [done|]. eapply Forall_impl; [exact Hall|]. intros r' Hr'. destruct previous; [|done].
    by eapply bytes_lt_trans.
Qed.

Lemma DecodeSnapshot_canonical encoded id digest st :
  DecodeSnapshot encoded id digest limits = Ok st ->
  length id = 16%nat /\ snapshot_wf limits st /\ encoded = snapshotImage id st /\ digest = Sum256 (snapshotContent id st).
Proof.
  intros Hd. unfold DecodeSnapshot, SnapshotHeaderSize, snapshotTrailer, snapshotItemHeader in Hd.
  change MaxSnapshotBytes with 1073741824 in Hd.
  destruct (_ || _) eqn:Hlen in Hd; [done|]. apply orb_false_iff in Hlen as [Hmin%Z.ltb_ge Hmax%Z.ltb_ge].
  repeat match type of Hd with
  | (if ?c then Err _ else _) = Ok _ => destruct c eqn:?; [discriminate Hd|]
  end.
  go_bool. rewrite ?Z.eqb_eq, ?Z.ltb_ge in *.
  destruct (decodeRecords _ _ _ _ _ _ _) as [[records fin]|] eqn:Hr; [|done].
  destruct (Z.eqb_spec fin (len encoded - 32)) as [->|]; [|done]. simpl in Hd. injection Hd as <-.
  apply decodeRecords_canonical in Hr as (Hcount & _ & Hs & Hwf & Hsorted & _); [|lia|lia|lia].
  pose proof (be_decode_range (slice encoded 36 44)) as Hc0. pose proof (be_decode_range (slice encoded 44 52)) as Hp0.
  pose proof (be_decode_range (slice encoded 28 36)) as Hr0. rewrite len_slice in Hc0, Hp0, Hr0 by lia.
  assert (be_decode (slice encoded 44 52) = len encoded - 96) as Hpay.
  { unfold wrap_u64 in H1. destruct (decide (be_decode (slice encoded 44 52) + 96 < 2 ^ 64)).
    - rewrite Z.mod_small in H1; lia.
    - rewrite <- (Z_mod_plus_full _ (-1)), Z.mod_small in H1; lia. }
  assert (records_bytes records = len encoded - 96) as Hbytes by (rewrite <- len_encodeRecords, <- Hs, len_slice; lia).
  assert (len records = be_decode (slice encoded 36 44)) as Hlr by (unfold len; lia).
  assert (snapshotContent id (MkSnapshotState (be_decode (slice encoded 28 36)) records) =
    slice encoded 0 (len encoded - 32)) as Hcontent.
  { unfold snapshotContent, snapshotBody. cbn [SnRevision SnRecords].
    rewrite Hbytes, <- Hpay, Hlr, <- Hs, <- Heqb, <- Heqb0, <- Heqb2.
    replace SnapshotHeaderSize with (be_decode (slice encoded 10 12)).
    rewrite (zeros_slice 12 encoded 52 64) by (done || lia).
    rewrite !be_encode_slice by lia. by rewrite <- !slice_split by lia. }
  split_and!.
  - subst id. pose proof (len_slice encoded 12 28 ltac:(lia) ltac:(lia)). unfold len in *. lia.
  - split; cbn [SnRevision SnRecords]; unfold max_uint64, SnapshotHeaderSize, snapshotTrailer; try done; try lia.
    change MaxSnapshotBytes with 1073741824. lia.
  - unfold snapshotImage. rewrite Hcontent, H0, <- slice_split by lia. symmetry. apply slice_full.
  - by rewrite Hcontent.
Qed.

(** *** The encoder *)

Global Instance record_key_le_total : Total record_key_le.
Proof. intros a b. apply (total bytes_le). Qed.
Global Instance record_key_le_trans : Transitive record_key_le.
Proof. intros a b c. apply (transitivity (R := bytes_le)). Qed.

Lemma record_guards revision r :
  0 <= RecRevision r ->
  (bool_decide (RecKey r = []) || negb (utf8_valid (RecKey r))
   || (MaxKeyBytes limits <? len (RecKey r)) || (MaxValueBytes limits <? len (RecValue r))
   || (RecRevision r =? 0) || (revision <? RecRevision r) = false /\
   match RecExpiresAt r with Some e => negb (unixNanoRepresentable e) | None => false end = false) <->
  record_wf limits revision r.
Proof.
  intros Hr. unfold record_wf, key_wf, unixNanoRepresentable, time_Unix0.
  rewrite !orb_false_iff, bool_decide_eq_false, negb_false_iff, !Z.ltb_ge, Z.eqb_neq.
  assert (match RecExpiresAt r with Some e => negb (UnixNano e =? e) | None => false end = false <->
    match RecExpiresAt r with Some e => - 2 ^ 63 <= e < 2 ^ 63 | None => True end) as ->.
  { destruct (RecExpiresAt r); [|done]. by rewrite negb_false_iff, Z.eqb_eq, expiryRepresentable_iff. }
  intuition lia.
Qed.

Lemma snapshotPayload_Ok revision records index previous n m :
  StronglySorted record_key_le records -> Forall (fun r => 0 <= RecRevision r) records ->
  match previous with Some p => Forall (fun r => bytes_le p (RecKey r)) records | None => True end ->
  0 <= n <= max_uint64 ->
  snapshotPayload limits revision index previous records n = Ok m <->
  Forall (record_wf limits revision) records /\ strictly_sorted (RecKey <$> records) /\
  Forall (fun r => before previous (RecKey r)) records /\ m = n + records_bytes records /\ m <= max_uint64.
Proof.
  intros Hs. revert index previous n. induction Hs as [|r records Hs IH Hall]; intros index previous n Hpos Hprev Hn.
  { simpl. rewrite Z.add_0_r. split; [intros [= <-]; split_and!; try done; [constructor|lia]|].
    by intros (_ & _ & _ & -> & _). }
  apply Forall_cons in Hpos as [Hr Hpos]. cbn [snapshotPayload records_bytes foldr].
  pose proof (records_bytes_nonneg records) as Hnn. fold (records_bytes records).
  pose proof (len_nonneg (RecKey r)). pose proof (len_nonneg (RecValue r)).
  pose proof (record_guards revision r Hr) as Hg. rewrite fmap_cons, !Forall_cons.
  assert (before previous (RecKey r) <-> bool_decide (previous = Some (RecKey r)) = false) as Hb.
  { rewrite bool_decide_eq_false. destruct previous as [p|]; simpl; [|naive_solver].
    apply Forall_cons in Hprev as [Hp _]. apply bytes_le_lt in Hp as [Hp| ->].
    - split; [|done]. intros _ [= ->]. by apply bytes_lt_irrefl in Hp.
    - split; [|done]. intros Hp. by apply bytes_lt_irrefl in Hp. }
  assert (strictly_sorted (RecKey r :: (RecKey <$> records)) <->
    strictly_sorted (RecKey <$> records) /\ Forall (fun r' => before (Some (RecKey r)) (RecKey r')) records) as Hsc.
  { split; [intros [? Hf]%StronglySorted_inv; rewrite Forall_fmap in Hf; split; [done|exact Hf]|].
    intros [? Hf]. constructor; [done|]. rewrite Forall_fmap. exact Hf. }
  destruct (_ || _) eqn:G1; [split; [done|naive_solver]|].
  destruct (bool_decide (previous = _)) eqn:G2; [split; [done|naive_solver]|].
  destruct (match RecExpiresAt r with Some e => negb (unixNanoRepresentable e) | None => false end) eqn:G3;
    [split; [done|naive_solver]|].
  unfold snapshotItemHeader in *. set (add := 40 + len (RecKey r) + len (RecValue r)) in *.
  destruct (Z.ltb_spec (max_uint64 - add) n); [split; [done|]; intros (_ & _ & _ & -> & ?); lia|].
  rewrite IH; [|done|exact Hall|lia]. rewrite Hsc, Z.add_assoc.
  assert (before previous (RecKey r)) as Hbr by (by apply Hb).
  split; [|naive_solver]. intros (Hw & Hss & Hbf & -> & Hm). split_and!; try done; [by apply Hg|].
  eapply Forall_impl; [exact Hbf|]. intros r' Hr'. destruct previous; [|done]. by eapply bytes_lt_trans.
Qed.

(** The snapshot that [EncodeSnapshot] writes. *)
Definition liveSnapshot (state : SnapshotState) (asOf : Time) : SnapshotState :=
  MkSnapshotState (SnRevision state) (merge_sort record_key_le (List.filter (liveAt asOf) (SnRecords state))).

Lemma EncodeSnapshot_Ok id state asOf encoded digest :
  0 <= SnRevision state <= max_uint64 -> Forall (fun r => 0 <= RecRevision r) (SnRecords state) ->
  records_bytes (SnRecords (liveSnapshot state asOf)) < 2 ^ 63 ->
  EncodeSnapshot id state asOf limits = Ok (encoded, digest) <->
  DatabaseID_IsZero id = false /\ snapshot_wf limits (liveSnapshot state asOf) /\
  encoded = snapshotImage id (liveSnapshot state asOf) /\
  digest = Sum256 (snapshotContent id (liveSnapshot state asOf)).
Proof.
  intros Hrev Hpos. destruct (limits_ok_fields limits limits_fine) as [(Hmk & Hmv & _) _].
  unfold EncodeSnapshot, liveSnapshot. cbn [SnRecords]. set (live := merge_sort _ _). intros Hphys. rewrite !(proj2 (Z.leb_gt _ _)), !orb_false_r by lia.
  destruct (DatabaseID_IsZero id) eqn:Hz; [split; [done|naive_solver]|].
  unfold snapshotImage, snapshotContent. cbn [SnRevision SnRecords].
  assert (StronglySorted record_key_le live) as Hsorted by (apply (StronglySorted_merge_sort _)).
  assert (Forall (fun r => 0 <= RecRevision r) live) as Hlive.
  { rewrite Forall_forall in *. intros r Hr. apply Hpos. unfold live in Hr. rewrite merge_sort_Permutation in Hr.
    apply list_elem_of_In, List.filter_In in Hr as [Hr _]. by apply list_elem_of_In. }
  pose proof (records_bytes_nonneg live).
  destruct (snapshotPayload _ _ _ _ live 0) as [m|e] eqn:Hp.
  - apply snapshotPayload_Ok in Hp as (Hwf & Hss & _ & -> & Hm); try done. rewrite Z.add_0_l in *.
    unfold SnapshotHeaderSize, snapshotTrailer in *.
    assert (snapshot_wf limits (MkSnapshotState (SnRevision state) live) <->
      64 + 32 + records_bytes live <= MaxSnapshotBytes) as ->
      by (split; [by intros []|by split]).
    change MaxSnapshotBytes with 1073741824 in *.
    rewrite wrap_u64_small by (unfold max_uint64 in *; lia).
    destruct (Z.ltb_spec 1073741824 (64 + 32 + records_bytes live)); simpl; [split; [done|]; intros (_ & ? & _); lia|].
    rewrite (proj2 (Z.ltb_ge _ _)) by (unfold max_int64; lia). split; [by intros [= <- <-]|].
    by intros (_ & _ & -> & ->).
  - split; [done|]. intros (_ & [_ Hss Hwf Hb] & _). cbn [SnRevision SnRecords] in *.
    unfold SnapshotHeaderSize, snapshotTrailer in *. change MaxSnapshotBytes with 1073741824 in *.
    assert (snapshotPayload limits (SnRevision state) 0 None live 0 = Ok (records_bytes live)) as Hok; [|congruence].
    apply snapshotPayload_Ok; try done. split_and!; try done; [by apply Forall_forall|unfold max_uint64; lia].
Qed.
End codec.

(** ** Properties *)

(** C29: The snapshot format is exact: under valid limits, the decoder accepts a
    byte string for a digest if and only if it is the canonical image of the
    snapshot it returns, whose records are valid, strictly sorted by key and not
    newer than the snapshot, and the digest is the image's. *)
Theorem snapshot_codec limits encoded id digest st :
  limits_ok limits -> length id = 16%nat ->
  DecodeSnapshot encoded id digest limits = Ok st <->
  snapshot_wf limits st /\ encoded = snapshotImage id st /\ digest = Sum256 (snapshotContent id st).
Proof.
  intros Hl Hid. split.
  - intros (_ & Hwf & Henc & Hdig)%DecodeSnapshot_canonical; [by split_and!|done].
  - intros (Hwf & -> & ->). by apply DecodeSnapshot_image.
Qed.

(** C28: A snapshot is written without loss.  What [EncodeSnapshot] returns for
    the records of a database, in any order, decodes with the returned digest to
    the records that have not expired, sorted by key; and the encoder refuses
    exactly the states whose live records are no well-formed snapshot (an
    invalid or duplicate key, a record newer than the snapshot, too many
    bytes). *)
Theorem snapshot_roundtrip limits id state asOf :
  limits_ok limits -> length id = 16%nat -> DatabaseID_IsZero id = false ->
  0 <= SnRevision state <= max_uint64 -> Forall (fun r => 0 <= RecRevision r) (SnRecords state) ->
  records_bytes (SnRecords (liveSnapshot state asOf)) < 2 ^ 63 ->
  match EncodeSnapshot id state asOf limits with
  | Ok (encoded, digest) => DecodeSnapshot encoded id digest limits = Ok (liveSnapshot state asOf)
  | Err _ => ~ snapshot_wf limits (liveSnapshot state asOf)
  end.
Proof.
  intros Hl Hid Hz Hrev Hpos Hphys. destruct (EncodeSnapshot id state asOf limits) as [[encoded digest]|e] eqn:He.
  - apply EncodeSnapshot_Ok in He as (_ & Hwf & -> & ->); try done. by apply DecodeSnapshot_image.
  - intros Hwf. assert (EncodeSnapshot id state asOf limits = Ok (snapshotImage id (liveSnapshot state asOf),
      Sum256 (snapshotContent id (liveSnapshot state asOf)))) as Hok by (by apply EncodeSnapshot_Ok). congruence.
Qed.

Module SampleSnapshot.
Definition records : list DBRecord :=
  [MkRecord (lit "jobs/2") (lit "ready") 7 None; MkRecord (lit "jobs/1") (lit "queued") 5 (Some 9000);
   MkRecord (lit "jobs/0") (lit "old") 4 (Some 100)].
Definition state : SnapshotState := MkSnapshotState 7 records.
Definition encoded : bytes * bytes :=
  match EncodeSnapshot Sample.id state 1000 DefaultOptions with Ok r => r | Err _ => ([], []) end.
End SampleSnapshot.

Lemma snapshot_codec_witness :
  DecodeSnapshot SampleSnapshot.encoded.1 Sample.id SampleSnapshot.encoded.2 DefaultOptions =
    Ok (liveSnapshot SampleSnapshot.state 1000) <->
  snapshot_wf DefaultOptions (liveSnapshot SampleSnapshot.state 1000) /\
  SampleSnapshot.encoded.1 = snapshotImage Sample.id (liveSnapshot SampleSnapshot.state 1000) /\
  SampleSnapshot.encoded.2 = Sum256 (snapshotContent Sample.id (liveSnapshot SampleSnapshot.state 1000)).
Proof. apply snapshot_codec; [apply DefaultOptions_ok|reflexivity]. Defined.

Lemma snapshot_roundtrip_witness :
  DecodeSnapshot SampleSnapshot.encoded.1 Sample.id SampleSnapshot.encoded.2 DefaultOptions =
    Ok (liveSnapshot SampleSnapshot.state 1000).
Proof.
  pose proof (snapshot_roundtrip DefaultOptions Sample.id SampleSnapshot.state 1000 DefaultOptions_ok eq_refl eq_refl) as H.
  assert (EncodeSnapshot Sample.id SampleSnapshot.state 1000 DefaultOptions = Ok SampleSnapshot.encoded) as He
    by (vm_compute; reflexivity).
  rewrite He in H. destruct SampleSnapshot.encoded as [e d] eqn:Hed. apply H.
  - vm_compute. split; discriminate.
  - repeat constructor; discriminate.
  - vm_compute. reflexivity.
Defined.
