(* ===== verification/Json.v ===== *)
(** * encoding/json

    The parts of Go's JSON package that the storage formats use: the decoder's
    grammar (white space, strings with escapes and surrogate pairs, numbers,
    the nesting limit), the struct decoder's handling of numbers and strings,
    and the encoder of strings and numbers. *)

From stdpp Require Import base list strings.
From Stdlib Require Import ZArith Lia.
From S2P Require Import Prelude.
From S2P Require Import Bytes.
From S2P Require Import Errors.
From S2P Require Import StorageErrors.

Local Open Scope Z_scope.

(** A string has its value and the text between its quotes, a container the
    whole of its text. *)
Inductive jvalue :=
| JNull
| JBool (b : bool)
| JNumber (literal : bytes)
| JString (s raw : bytes)
| JArray (l : list jvalue) (raw : bytes)
| JObject (members : list (bytes * jvalue)) (raw : bytes).

(** ** Characters *)

Definition chr (z : Z) : byte := z2b z.
Definition is_digit (b : byte) : bool := in_range 48 57 b.
Definition is_space (b : byte) : bool :=
  let c := b2z b in (c =? 32) || (c =? 9) || (c =? 13) || (c =? 10).

Fixpoint skip_space (l : bytes) : bytes :=
  match l with
  | b :: rest => if is_space b then skip_space rest else l
  | [] => []
  end.

(** The number of bytes of the rune at the head, 0 if it is not valid UTF-8. *)
Definition rune_length (l : bytes) : nat :=
  if utf8_valid (take 1 l) then 1
  else if utf8_valid (take 2 l) then 2
  else if utf8_valid (take 3 l) then 3
  else if utf8_valid (take 4 l) then 4 else 0.

(** The UTF-8 encoding of a code point ([utf8.AppendRune]). *)
Definition append_rune (r : Z) : bytes :=
  if r <? 128 then [chr r]
  else if r <? 2048 then [chr (192 + r / 64); chr (128 + r mod 64)]
  else if (1114111 <? r) || ((55296 <=? r) && (r <=? 57343)) then [chr 239; chr 191; chr 189]
  else if r <? 65536 then [chr (224 + r / 4096); chr (128 + r / 64 mod 64); chr (128 + r mod 64)]
  else [chr (240 + r / 262144); chr (128 + r / 4096 mod 64); chr (128 + r / 64 mod 64); chr (128 + r mod 64)].

Definition replacement : bytes := [chr 239; chr 191; chr 189].

(** ** Strings *)

(** Four hexadecimal digits. *)
Definition read_hex4 (l : bytes) : option (Z * bytes) :=
  match l with
  | a :: b :: c :: d :: rest =>
      match hex_value a, hex_value b, hex_value c, hex_value d with
      | Some x, Some y, Some z, Some w => Some (4096 * x + 256 * y + 16 * z + w, rest)
      | _, _, _, _ => None
      end
  | _ => None
  end.

(** [\uXXXX], with a following low surrogate if this is a high one. *)
Definition read_unicode (l : bytes) : option (bytes * bytes) :=
  match read_hex4 l with
  | None => None
  | Some (r, rest) =>
      if (55296 <=? r) && (r <=? 57343) then
        match rest with
        | bs :: u :: rest' =>
            match (if (b2z bs =? 92) && (b2z u =? 117) then read_hex4 rest' else None) with
            | Some (r2, rest'') =>
                if (r <=? 56319) && (56320 <=? r2) && (r2 <=? 57343)
                then Some (append_rune (65536 + (r - 55296) * 1024 + (r2 - 56320)), rest'')
                else Some (replacement, rest)
            | None => Some (replacement, rest)
            end
        | _ => Some (replacement, rest)
        end
      else Some (append_rune r, rest)
  end.

Definition short_escape (b : byte) : option byte :=
  let c := b2z b in
  if c =? 34 then Some (chr 34) else if c =? 92 then Some (chr 92) else if c =? 47 then Some (chr 47)
  else if c =? 98 then Some (chr 8) else if c =? 102 then Some (chr 12) else if c =? 110 then Some (chr 10)
  else if c =? 114 then Some (chr 13) else if c =? 116 then Some (chr 9) else None.

(** The rest of a string after its opening quote: its value and what follows. *)
Fixpoint parse_string (fuel : nat) (l : bytes) : option (bytes * bytes) :=
  match fuel, l with
  | S fuel, b :: rest =>
      let c := b2z b in
      if c =? 34 then Some ([], rest)
      else if c <? 32 then None
      else if c =? 92 then
        match rest with
        | e :: rest' =>
            match short_escape e with
            | Some x => '(s, r) ← parse_string fuel rest'; Some (x :: s, r)
            | None =>
                if b2z e =? 117 then
                  '(x, rest'') ← read_unicode rest'; '(s, r) ← parse_string fuel rest''; Some (x ++ s, r)
                else None
            end
        | [] => None
        end
      else
        match rune_length l with
        | O => '(s, r) ← parse_string fuel rest; Some (replacement ++ s, r)
        | n => '(s, r) ← parse_string fuel (drop n l); Some (take n l ++ s, r)
        end
  | _, _ => None
  end.

(** ** Numbers *)

Fixpoint take_digits (l : bytes) : bytes * bytes :=
  match l with
  | b :: rest => if is_digit b then let (d, r) := take_digits rest in (b :: d, r) else ([], l)
  | [] => ([], [])
  end.

(** [-]int[frac][exp] *)
Definition parse_number (l : bytes) : option (bytes * bytes) :=
  let '(sign, l) := match l with b :: rest => if b2z b =? 45 then ([b], rest) else ([], l) | [] => ([], l) end in
  let '(int, l) := take_digits l in
  if bool_decide (int = []) || ((1 <? len int) && (byte_at int 0 =? 48)) then None else
  let '(frac, l, ok) := match l with
    | b :: rest => if b2z b =? 46 then let (d, r) := take_digits rest in (b :: d, r, negb (bool_decide (d = [])))
                   else ([], l, true)
    | [] => ([], l, true)
    end in
  let '(exp, l, ok') := match l with
    | b :: rest =>
        if (b2z b =? 101) || (b2z b =? 69) then
          let '(s, rest) := match rest with
            | x :: rest' => if (b2z x =? 43) || (b2z x =? 45) then ([x], rest') else ([], rest)
            | [] => ([], rest)
            end in
          let (d, r) := take_digits rest in (b :: s ++ d, r, negb (bool_decide (d = [])))
        else ([], l, true)
    | [] => ([], l, true)
    end in
  if ok && ok' then Some (sign ++ int ++ frac ++ exp, l) else None.

(** ** Values *)

Definition literal (word : bytes) (v : jvalue) (l : bytes) : option (jvalue * bytes) :=
  if has_prefix l word then Some (v, drop (length word) l) else None.

Section containers.
Context {V : Type}.
Variable value : bytes -> option (V * bytes).

(** The members after ['{'] or [','] and the elements after ['['] or [',']. *)
Fixpoint parse_members (fuel : nat) (l : bytes) : option (list (bytes * V) * bytes) :=
  match fuel, skip_space l with
  | S fuel, q :: rest =>
      if negb (b2z q =? 34) then None else
      '(key, r) ← parse_string (length rest) rest;
      match skip_space r with
      | colon :: r =>
          if negb (b2z colon =? 58) then None else
          '(v, r) ← value r;
          match skip_space r with
          | c :: r =>
              if b2z c =? 125 then Some ([(key, v)], r)
              else if b2z c =? 44 then '(ms, r) ← parse_members fuel r; Some ((key, v) :: ms, r)
              else None
          | [] => None
          end
      | [] => None
      end
  | _, _ => None
  end.

Fixpoint parse_elements (fuel : nat) (l : bytes) : option (list V * bytes) :=
  match fuel with
  | O => None
  | S fuel =>
      '(v, r) ← value l;
      match skip_space r with
      | c :: r =>
          if b2z c =? 93 then Some ([v], r)
          else if b2z c =? 44 then '(vs, r) ← parse_elements fuel r; Some (v :: vs, r)
          else None
      | [] => None
      end
  end.
End containers.

(** What was read of [l] when [rest] is left. *)
Definition consumed (l rest : bytes) : bytes := take (length l - length rest) l.

(** One value; [depth] is the nesting the decoder still allows. *)
Fixpoint parse_value (depth : nat) (l : bytes) : option (jvalue * bytes) :=
  match skip_space l with
  | b :: rest =>
      let c := b2z b in
      if c =? 34 then
        '(s, r) ← parse_string (length rest) rest; Some (JString s (take (length rest - length r - 1) rest), r)
      else if c =? 123 then
        match depth with
        | O => None
        | S depth =>
            match skip_space rest with
            | e :: r =>
                if b2z e =? 125 then Some (JObject [] (consumed (b :: rest) r), r)
                else '(ms, r) ← parse_members (parse_value depth) (length rest) rest;
                     Some (JObject ms (consumed (b :: rest) r), r)
            | [] => None
            end
        end
      else if c =? 91 then
        match depth with
        | O => None
        | S depth =>
            match skip_space rest with
            | e :: r =>
                if b2z e =? 93 then Some (JArray [] (consumed (b :: rest) r), r)
                else '(vs, r) ← parse_elements (parse_value depth) (length rest) rest;
                     Some (JArray vs (consumed (b :: rest) r), r)
            | [] => None
            end
        end
      else if c =? 110 then literal (lit "null") JNull (b :: rest)
      else if c =? 116 then literal (lit "true") (JBool true) (b :: rest)
      else if c =? 102 then literal (lit "false") (JBool false) (b :: rest)
      else '(n, r) ← parse_number (b :: rest); Some (JNumber n, r)
  | [] => None
  end.

(** The text of a value, as a [json.RawMessage] keeps it. *)
Definition raw_text (v : jvalue) : bytes :=
  match v with
  | JNull => lit "null"
  | JBool b => if b then lit "true" else lit "false"
  | JNumber n => n
  | JString _ raw => [chr 34] ++ raw ++ [chr 34]
  | JArray _ raw | JObject _ raw => raw
  end.

Definition maxNestingDepth : nat := Z.to_nat 10000.

(** [decoder.Decode] of the next value of the input. *)
Definition json_decode (l : bytes) : option (jvalue * bytes) := parse_value maxNestingDepth l.

(** ** Struct fields *)

(** [foldName]: the names of struct fields are ASCII, and the only runes beyond
    ASCII that fold into it are U+017F (s) and U+212A (k). *)
Definition lower (b : byte) : byte := if in_range 65 90 b then z2b (b2z b + 32) else b.
Fixpoint fold_name (l : bytes) : bytes :=
  match l with
  | [] => []
  | b :: rest =>
      match b2z b, rest with
      | 197, b1 :: rest1 => if b2z b1 =? 191 then chr 115 :: fold_name rest1 else b :: fold_name rest
      | 226, b1 :: ((b2 :: rest2) as rest1) =>
          if (b2z b1 =? 132) && (b2z b2 =? 170) then chr 107 :: fold_name rest2 else b :: fold_name rest
      | _, _ => lower b :: fold_name rest
      end
  end.

(** The field a key names: the exact name first, then any case. *)
Definition find_field (names : list bytes) (key : bytes) : option nat :=
  match list_find (fun n => n = key) names with
  | Some (k, _) => Some k
  | None => fst <$> list_find (fun n => n = fold_name key) names
  end.

(** [strconv.ParseUint(s, 10, 64)]. *)
Definition digits_value (l : bytes) : Z := foldl (fun n b => 10 * n + (b2z b - 48)) 0 l.
Definition parse_uint64 (l : bytes) : option Z :=
  if bool_decide (l = []) || negb (forallb is_digit l) || (max_uint64 <? digits_value l) then None
  else Some (digits_value l).

(** [strconv.ParseInt(s, 10, 64)] of a JSON number. *)
Definition parse_int64 (l : bytes) : option Z :=
  let '(negative, ds) := match l with b :: rest => if b2z b =? 45 then (true, rest) else (false, l) | [] => (false, l) end in
  let v := if negative : bool then - digits_value ds else digits_value ds in
  if bool_decide (ds = []) || negb (forallb is_digit ds) || (v <? - 2 ^ 63) || (max_int64 <? v) then None else Some v.

(** A JSON value stored into a [string] or a [uint64] field; [null] leaves the
    field as it is. *)
Definition store_string (v : jvalue) (old : bytes) : option bytes :=
  match v with JString s _ => Some s | JNull => Some old | _ => None end.
Definition store_uint64 (v : jvalue) (old : Z) : option Z :=
  match v with JNumber n => parse_uint64 n | JNull => Some old | _ => None end.

Definition store_int (v : jvalue) (old : Z) : option Z :=
  match v with JNumber n => parse_int64 n | JNull => Some old | _ => None end.
Definition store_bool (v : jvalue) (old : bool) : option bool :=
  match v with JBool b => Some b | JNull => Some old | _ => None end.

(** ** Encoding *)

(** One rune of a string; HTML characters are escaped. *)
Definition escape_byte (b : byte) : bytes :=
  let c := b2z b in
  if c =? 34 then [chr 92; chr 34] else if c =? 92 then [chr 92; chr 92]
  else if c =? 8 then [chr 92; chr 98] else if c =? 12 then [chr 92; chr 102]
  else if c =? 10 then [chr 92; chr 110] else if c =? 13 then [chr 92; chr 114]
  else if c =? 9 then [chr 92; chr 116]
  else if (c <? 32) || (c =? 60) || (c =? 62) || (c =? 38) then
    [chr 92; chr 117; chr 48; chr 48; hex_digit (c / 16); hex_digit (c mod 16)]
  else [b].

Fixpoint marshal_chars (fuel : nat) (l : bytes) : bytes :=
  match fuel, l with
  | S fuel, b :: rest =>
      if b2z b <? 128 then escape_byte b ++ marshal_chars fuel rest
      else match rune_length l with
      | O => lit "\ufffd" ++ marshal_chars fuel rest
      | n =>
          (if bool_decide (take n l = [chr 226; chr 128; chr 168]) then lit "\u2028"
           else if bool_decide (take n l = [chr 226; chr 128; chr 169]) then lit "\u2029"
           else take n l) ++ marshal_chars fuel (drop n l)
      end
  | _, _ => []
  end.

Definition marshal_string (s : bytes) : bytes := [chr 34] ++ marshal_chars (length s) s ++ [chr 34].

(** A struct: its fields in order, each with its encoded value. *)
Definition marshal_member (m : bytes * bytes) : bytes := marshal_string m.1 ++ [chr 58] ++ m.2.
Fixpoint marshal_members (ms : list (bytes * bytes)) : bytes :=
  match ms with
  | [] => []
  | [m] => marshal_member m
  | m :: ms => marshal_member m ++ [chr 44] ++ marshal_members ms
  end.
Definition marshal_object (ms : list (bytes * bytes)) : bytes := [chr 123] ++ marshal_members ms ++ [chr 125].

(** An array of encoded values. *)
Fixpoint marshal_elements (raws : list bytes) : bytes :=
  match raws with
  | [] => []
  | [raw] => raw
  | raw :: raws => raw ++ [chr 44] ++ marshal_elements raws
  end.
Definition marshal_array (raws : list bytes) : bytes := [chr 91] ++ marshal_elements raws ++ [chr 93].

Definition marshal_bool (b : bool) : bytes := if b then lit "true" else lit "false".

(** [strconv.FormatInt(z, 10)]. *)
Definition FormatInt (z : Z) : bytes := if z <? 0 then [chr 45] ++ FormatUint (- z) else FormatUint z.

(** ** Round trips *)

(** Characters that are written as they are. *)
Definition plain (b : byte) : bool :=
  let c := b2z b in
  in_range 32 127 b && negb ((c =? 34) || (c =? 92) || (c =? 60) || (c =? 62) || (c =? 38)).

Lemma plain_spec b : plain b = true ->
  32 <= b2z b < 128 /\ b2z b <> 34 /\ b2z b <> 92 /\ b2z b <> 60 /\ b2z b <> 62 /\ b2z b <> 38.
Proof. unfold plain, in_range. rewrite andb_true_iff, negb_true_iff, !orb_false_iff. lia. Qed.

Lemma rune_length_ascii b l : b2z b < 128 -> rune_length (b :: l) = 1%nat.
Proof. intros Hb. unfold rune_length. simpl. apply Z.ltb_lt in Hb. by rewrite Hb. Qed.

Lemma escape_plain b : plain b = true -> escape_byte b = [b].
Proof.
  intros Hb%plain_spec. unfold escape_byte.
  repeat match goal with |- (if ?c then _ else _) = _ => replace c with false by (symmetry; lia) end. done.
Qed.

Lemma marshal_chars_plain s : forallb plain s = true -> marshal_chars (length s) s = s.
Proof.
  induction s as [|b s IH]; [done|]. simpl. intros [Hb Hs]%andb_true_iff. rewrite (escape_plain b Hb), (IH Hs).
  apply plain_spec in Hb. by replace (b2z b <? 128) with true by lia.
Qed.

Lemma parse_string_plain s rest fuel : forallb plain s = true -> (length s < fuel)%nat ->
  parse_string fuel (s ++ [chr 34] ++ rest) = Some (s, rest).
Proof.
  revert fuel. induction s as [|b s IH]; intros fuel; destruct fuel as [|fuel]; simpl; try lia; [done|].
  intros [Hb Hs]%andb_true_iff Hf. apply plain_spec in Hb.
  replace (b2z b =? 34) with false by lia. replace (b2z b <? 32) with false by lia.
  replace (b2z b =? 92) with false by lia. rewrite rune_length_ascii by lia. simpl. rewrite drop_0.
  simpl in IH. by rewrite (IH fuel Hs) by lia.
Qed.

(** *** Numbers *)

Lemma digit_z z : 0 <= z < 10 -> b2z (chr (48 + z)) = 48 + z.
Proof. intros ?. unfold chr. rewrite b2z_z2b. apply Z.mod_small. lia. Qed.

Lemma is_digit_chr z : 0 <= z < 10 -> is_digit (chr (48 + z)) = true.
Proof. intros ?. unfold is_digit, in_range. rewrite digit_z by done. lia. Qed.

Lemma digits_value_from l n : foldl (fun n b => 10 * n + (b2z b - 48)) n l = n * 10 ^ len l + digits_value l.
Proof.
  unfold digits_value. revert n. induction l as [|b l IH]; intros n; cbn [foldl].
  { unfold len. simpl. lia. }
  rewrite (IH (10 * n + _)), (IH (10 * 0 + _)). rewrite len_cons, Z.pow_add_r by (unfold len; lia). lia.
Qed.

Lemma decimal_go_value fuel z acc : 0 <= z < 10 ^ Z.of_nat fuel -> (fuel <> 0)%nat ->
  digits_value (decimal_go fuel z acc) = z * 10 ^ len acc + digits_value acc.
Proof.
  revert z acc. induction fuel as [|fuel IH]; intros z acc Hz Hf; [done|]. simpl.
  rewrite Nat2Z.inj_succ, Z.pow_succ_r in Hz by lia.
  destruct (Z.ltb_spec z 10) as [Hs|Hs].
  - unfold digits_value at 1. cbn [foldl]. rewrite digits_value_from, digit_z by lia. lia.
  - destruct fuel as [|fuel]; [change (10 ^ Z.of_nat 0) with 1 in Hz; lia|].
    rewrite IH; [|split; [apply Z.div_pos; lia|apply Z.div_lt_upper_bound; lia]|done].
    unfold digits_value at 1. cbn [foldl]. rewrite digits_value_from, digit_z by (apply Z.mod_pos_bound; lia).
    rewrite len_cons, Z.pow_add_r by (unfold len; lia). pose proof (Z.div_mod z 10). nia.
Qed.

Lemma decimal_go_digits fuel z acc : 0 <= z -> forallb is_digit acc = true -> forallb is_digit (decimal_go fuel z acc) = true.
Proof.
  revert z acc. induction fuel as [|fuel IH]; intros z acc Hz Hacc; [done|]. simpl.
  destruct (Z.ltb_spec z 10); [simpl; by rewrite is_digit_chr|].
  apply IH; [apply Z.div_pos; lia|]. cbn [forallb]. rewrite is_digit_chr; [done|apply Z.mod_pos_bound; lia].
Qed.

(** No leading zero: the value determines the number of digits. *)
Lemma decimal_go_head fuel z acc : 0 < z < 10 ^ Z.of_nat fuel ->
  exists d rest, decimal_go fuel z acc = chr (48 + d) :: rest /\ 0 < d < 10 /\ (length acc <= length rest < length acc + fuel)%nat.
Proof.
  revert z acc. induction fuel as [|fuel IH]; intros z acc Hz; [change (10 ^ Z.of_nat 0) with 1 in Hz; lia|]. simpl.
  rewrite Nat2Z.inj_succ, Z.pow_succ_r in Hz by lia. destruct (Z.ltb_spec z 10); [exists z, acc; split_and!; done || lia|].
  destruct (IH (z / 10) (chr (48 + z mod 10) :: acc)) as (d & rest & Heq & Hd & Hl).
  { split; [apply Z.div_str_pos; lia|apply Z.div_lt_upper_bound; lia]. }
  exists d, rest. simpl in Hl. split_and!; done || lia.
Qed.

Lemma FormatUint_head z : u64 z ->
  exists d rest, FormatUint z = chr (48 + d) :: rest /\ 0 <= d < 10 /\ (d = 0 -> rest = []) /\ (length rest < 20)%nat.
Proof.
  intros Hz. destruct (decide (z = 0)) as [->|]; [exists 0, []; split_and!; try done; simpl; lia|].
  destruct (decimal_go_head 20 z []) as (d & rest & Heq & Hd & Hl).
  { unfold u64, max_uint64 in Hz. change (10 ^ Z.of_nat 20) with 100000000000000000000. lia. }
  exists d, rest. simpl in Hl. split_and!; done || lia.
Qed.

Lemma digits_plain l : forallb is_digit l = true -> forallb plain l = true.
Proof.
  rewrite !forallb_forall. intros Hd b Hb. specialize (Hd b Hb). unfold is_digit, in_range in Hd.
  unfold plain, in_range. lia.
Qed.

Lemma FormatUint_digits z : u64 z -> forallb is_digit (FormatUint z) = true.
Proof. intros Hz. apply decimal_go_digits; [unfold u64 in Hz; lia|done]. Qed.

Lemma digits_value_marshal z : u64 z -> digits_value (FormatUint z) = z.
Proof.
  intros Hz. unfold FormatUint. rewrite decimal_go_value; [|unfold u64, max_uint64 in Hz;
    change (10 ^ Z.of_nat 20) with 100000000000000000000; lia|done].
  unfold digits_value, len. simpl. lia.
Qed.

Lemma parse_uint64_marshal z : u64 z -> parse_uint64 (FormatUint z) = Some z.
Proof.
  intros Hz. unfold parse_uint64. rewrite FormatUint_digits, digits_value_marshal by done.
  destruct (FormatUint_head z Hz) as (d & rest & -> & _). rewrite bool_decide_eq_false_2 by done.
  unfold u64 in Hz. by replace (max_uint64 <? z) with false by lia.
Qed.

(** What may follow a value: nothing, or a delimiter of a container. *)
Definition delimited (rest : bytes) : Prop :=
  match rest with b :: _ => b2z b = 44 \/ b2z b = 125 \/ b2z b = 93 | [] => True end.

Definition no_digit (rest : bytes) : Prop := match rest with b :: _ => is_digit b = false | [] => True end.

Lemma delimited_no_digit rest : delimited rest -> no_digit rest.
Proof. destruct rest; simpl; [done|]. unfold is_digit, in_range. lia. Qed.

Lemma take_digits_all d rest : forallb is_digit d = true -> no_digit rest -> take_digits (d ++ rest) = (d, rest).
Proof.
  intros Hd Hr. induction d as [|b d IH]; simpl in *.
  - destruct rest as [|c rest]; [done|]. simpl in *. by rewrite Hr.
  - apply andb_true_iff in Hd as [-> Hd]. by rewrite IH.
Qed.

(** A raw text that the decoder reads as [v], whatever delimiter follows, if it
    allows [n] levels of nesting. *)
Definition reads_as (n : nat) (raw : bytes) (v : jvalue) : Prop :=
  forall depth rest, (n <= depth)%nat -> delimited rest -> parse_value depth (raw ++ rest) = Some (v, rest).

Lemma reads_more n m raw v : reads_as n raw v -> (n <= m)%nat -> reads_as m raw v.
Proof. intros Hr Hm depth rest Hd. apply Hr. lia. Qed.

Lemma reads_uint64 z : u64 z -> reads_as 0 (FormatUint z) (JNumber (FormatUint z)).
Proof.
  intros Hz depth rest _ Hrest. pose proof (FormatUint_digits z Hz) as Hdig.
  assert (parse_number (FormatUint z ++ rest) = Some (FormatUint z, rest)) as Hn.
  { destruct (FormatUint_head z Hz) as (d & tl & Heq & Hd & Hzero & Hl). unfold parse_number.
    rewrite Heq in *. cbn [app]. rewrite digit_z by done. replace (48 + d =? 45) with false by lia. cbv iota beta.
    change (chr (48 + d) :: tl ++ rest) with ((chr (48 + d) :: tl) ++ rest). rewrite take_digits_all by (done || by apply delimited_no_digit).
    rewrite bool_decide_eq_false_2 by done.
    replace ((1 <? len (chr (48 + d) :: tl)) && (byte_at (chr (48 + d) :: tl) 0 =? 48)) with false.
    2:{ symmetry. apply andb_false_iff. unfold byte_at. simpl. rewrite digit_z by done.
        destruct (decide (d = 0)) as [->|]; [left; by rewrite Hzero|right; lia]. }
    destruct rest as [|c rest]; [simpl; by rewrite app_nil_r|]. simpl in Hrest. simpl. replace (b2z c =? 46) with false by lia.
    replace ((b2z c =? 101) || (b2z c =? 69)) with false by lia. simpl. by rewrite app_nil_r. }
  destruct (FormatUint_head z Hz) as (d & tl & Heq & Hd & _). rewrite Heq in *.
  pose proof (digit_z d Hd) as Hz'.
  destruct depth; cbn [parse_value app skip_space] in *; unfold is_space;
    do 7 match goal with |- context [if ?c then _ else _] => replace c with false by (symmetry; lia); cbv iota end;
    by rewrite Hn.
Qed.

(** A rune beyond ASCII at the head of valid text. *)
Lemma utf8_rune b l : utf8_valid (b :: l) = true -> 128 <= b2z b ->
  exists n, (2 <= n <= length (b :: l))%nat /\ utf8_valid (drop n (b :: l)) = true /\
    forall k, rune_length (take n (b :: l) ++ k) = n.
Proof.
  intros Hv Hb. cbn [utf8_valid] in Hv. replace (b2z b <? 128) with false in Hv by lia.
  assert (Hlow : (b2z b <? 128) = false) by lia.
  destruct l as [|b1 l]; [done|]. destruct (in_range 194 223 b) eqn:H2.
  { apply andb_true_iff in Hv as [H1 Hv]. exists 2%nat. split; [simpl; lia|]. split; [done|]. intros k.
    unfold rune_length. cbn [take app firstn utf8_valid]. by rewrite Hlow, H2, H1. }
  destruct l as [|b2 l]; [done|]. destruct (in_range 224 239 b) eqn:H3.
  { apply andb_true_iff in Hv as [H1 Hv]. exists 3%nat. split; [simpl; lia|]. split; [done|]. intros k.
    unfold rune_length. cbn [take app firstn utf8_valid]. by rewrite Hlow, H2, H3, H1. }
  destruct l as [|b3 l]; [done|]. apply andb_true_iff in Hv as [H1 Hv]. exists 4%nat. split; [simpl; lia|].
  split; [done|]. intros k. unfold rune_length. cbn [take app firstn utf8_valid]. by rewrite Hlow, H2, H3, H1.
Qed.

Lemma hex_digit_read z : 0 <= z < 16 -> hex_value (hex_digit z) = Some z.
Proof.
  intros Hz. assert (Forall (fun z => hex_value (hex_digit z) = Some z) (seqZ 0 16)) as Hall
    by (apply (bool_decide_unpack _); vm_compute; done).
  rewrite Forall_forall in Hall. apply Hall, elem_of_seqZ. lia.
Qed.

(** One escaped ASCII character. *)
Lemma parse_escape b rest fuel : 0 <= b2z b < 128 ->
  parse_string (S fuel) (escape_byte b ++ rest) = '(s, r) ← parse_string fuel rest; Some (b :: s, r).
Proof.
  intros Hb. unfold escape_byte.
  assert (Hc : forall z, b2z b = z -> chr z = b) by (intros z <-; apply z2b_b2z).
  do 7 (match goal with |- context [if b2z b =? ?z then _ else _] => destruct (Z.eqb_spec (b2z b) z) as [He|] end;
    [rewrite <- (Hc _ He); done|]).
  destruct (_ || _ || _ || _) eqn:Hx.
  - cbn [app parse_string]. change (b2z (chr 92)) with 92. change (b2z (chr 117)) with 117. cbn [Z.eqb Z.ltb].
    unfold read_unicode, read_hex4. change (hex_value (chr 48)) with (Some 0).
    pose proof (Z.div_mod (b2z b) 16 ltac:(done)). pose proof (Z.mod_pos_bound (b2z b) 16 ltac:(done)).
    rewrite !hex_digit_read by (Z.to_euclidean_division_equations; lia).
    replace (4096 * 0 + 256 * 0 + 16 * (b2z b / 16) + b2z b mod 16) with (b2z b) by lia.
    replace ((55296 <=? b2z b) && (b2z b <=? 57343)) with false by lia. unfold append_rune.
    replace (b2z b <? 128) with true by lia. rewrite (Hc _ eq_refl). done.
  - cbn [app parse_string]. replace (b2z b =? 34) with false by lia. replace (b2z b <? 32) with false by lia.
    replace (b2z b =? 92) with false by lia. rewrite rune_length_ascii by lia. simpl. by rewrite drop_0.
Qed.

Lemma parse_line_separator rest fuel :
  parse_string (S fuel) (lit "\u2028" ++ rest) = '(s, r) ← parse_string fuel rest; Some ([chr 226; chr 128; chr 168] ++ s, r).
Proof. done. Qed.

Lemma parse_paragraph_separator rest fuel :
  parse_string (S fuel) (lit "\u2029" ++ rest) = '(s, r) ← parse_string fuel rest; Some ([chr 226; chr 128; chr 169] ++ s, r).
Proof. done. Qed.

Lemma escape_length b : (1 <= length (escape_byte b))%nat.
Proof. unfold escape_byte. repeat case_match; simpl; lia. Qed.

Lemma parse_string_marshal n s rest fuel : utf8_valid s = true -> (length s <= n)%nat ->
  (length (marshal_chars n s) < fuel)%nat -> parse_string fuel (marshal_chars n s ++ [chr 34] ++ rest) = Some (s, rest).
Proof.
  revert s fuel. induction n as [n IH] using lt_wf_ind. intros [|b s] fuel Hv Hn Hf.
  { destruct n, fuel; simpl in *; done || lia. }
  destruct n as [|n]; [simpl in Hn; lia|]. cbn [length] in Hn. cbn [marshal_chars] in *. pose proof (b2z_range b).
  destruct (Z.ltb_spec (b2z b) 128) as [Hb|Hb].
  { rewrite <- !app_assoc. rewrite length_app in Hf. destruct fuel as [|fuel]; [lia|]. rewrite parse_escape by lia.
    pose proof (escape_length b). rewrite IH; [done|lia| |lia|lia].
    cbn [utf8_valid] in Hv. by replace (b2z b <? 128) with true in Hv by lia. }
  destruct (utf8_rune b s Hv Hb) as (k & Hk & Hd & Hr).
  assert (rune_length (b :: s) = k) as Hrl by (rewrite <- (Hr (drop k (b :: s))), take_drop; done). rewrite Hrl in *.
  destruct k as [|k]; [lia|]. set (l := b :: s) in *. destruct fuel as [|fuel]; [lia|].
  assert (Hrec : forall f, (length (marshal_chars n (drop (S k) l)) < f)%nat ->
    parse_string f (marshal_chars n (drop (S k) l) ++ [chr 34] ++ rest) = Some (drop (S k) l, rest)).
  { intros f Hlt. apply IH; [lia|done| |done]. rewrite length_drop. unfold l. simpl. lia. }
  rewrite length_app in Hf. rewrite <- app_assoc. revert Hf.
  destruct (bool_decide_reflect (take (S k) l = [chr 226; chr 128; chr 168])) as [Heq|_];
    [|destruct (bool_decide_reflect (take (S k) l = [chr 226; chr 128; chr 169])) as [Heq|_]]; intros Hf.
  - change (length (lit "\u2028")) with 6%nat in Hf. rewrite parse_line_separator, Hrec by lia. cbn [mbind option_bind]. by rewrite <- Heq, take_drop.
  - change (length (lit "\u2029")) with 6%nat in Hf. rewrite parse_paragraph_separator, Hrec by lia. cbn [mbind option_bind]. by rewrite <- Heq, take_drop.
  - rewrite length_take_le in Hf by lia.
    assert (take (S k) l = b :: take k s) as Htk by done. cbn [parse_string]. rewrite Htk at 1. cbn [app].
    replace (b2z b =? 34) with false by lia. replace (b2z b <? 32) with false by lia. replace (b2z b =? 92) with false by lia.
    change (b :: take k s ++ ?x) with (take (S k) l ++ x). rewrite Hr.
    rewrite drop_app_length' by (rewrite length_take_le; lia).
    rewrite take_app_length' by (rewrite length_take_le; lia). rewrite Hrec by lia.
    cbn [mbind option_bind]. by rewrite take_drop.
Qed.

(** *** The text is valid UTF-8 *)

Lemma utf8_valid_app a b : utf8_valid a = true -> utf8_valid (a ++ b) = utf8_valid b.
Proof.
  revert a. fix IH 1. intros [|b0 r0]; [done|]. cbn [utf8_valid app]. destruct (b2z b0 <? 128); [apply IH|].
  destruct r0 as [|b1 r1]; [done|]. cbn [app].
  destruct (in_range 194 223 b0). { destruct (is_cont b1); [apply IH|done]. }
  destruct r1 as [|b2 r2]; [done|]. cbn [app]. destruct (in_range 224 239 b0).
  { match goal with |- ?x && _ = true -> _ => destruct x; [apply IH|done] end. }
  destruct r2 as [|b3 r3]; [done|]. cbn [app].
  match goal with |- ?x && _ = true -> _ => destruct x; [apply IH|done] end.
Qed.

Lemma rune_length_valid l k : rune_length l = S k -> utf8_valid (take (S k) l) = true.
Proof. unfold rune_length. repeat (case_match; [by intros [= <-]|]). done. Qed.

Lemma escape_utf8 b : b2z b < 128 -> utf8_valid (escape_byte b) = true.
Proof.
  intros Hb. unfold escape_byte. pose proof (b2z_range b).
  repeat (match goal with |- context [if ?x then [_; _] else _] => destruct x; [done|] end).
  destruct (_ || _ || _ || _); [|simpl; by replace (b2z b <? 128) with true by lia].
  assert (Forall (fun c => utf8_valid [chr 92; chr 117; chr 48; chr 48; hex_digit (c / 16); hex_digit (c mod 16)] = true)
    (seqZ 0 128)) as Hall by (apply (bool_decide_unpack _); vm_compute; done).
  rewrite Forall_forall in Hall. apply Hall, elem_of_seqZ. lia.
Qed.

Lemma marshal_chars_utf8 n s : utf8_valid (marshal_chars n s) = true.
Proof.
  revert s. induction n as [|n IH]; intros [|b s]; try done. cbn [marshal_chars].
  destruct (Z.ltb_spec (b2z b) 128); [by rewrite utf8_valid_app, IH by (by apply escape_utf8)|].
  destruct (rune_length (b :: s)) as [|k] eqn:Hr; [by rewrite utf8_valid_app, IH|].
  rewrite utf8_valid_app; [apply IH|]. apply rune_length_valid in Hr. by repeat case_match.
Qed.

Lemma marshal_string_utf8 s : utf8_valid (marshal_string s) = true.
Proof. unfold marshal_string. rewrite utf8_valid_app by done. by rewrite utf8_valid_app by apply marshal_chars_utf8. Qed.

Lemma marshal_members_utf8 ms : Forall (fun m => utf8_valid m.2 = true) ms -> utf8_valid (marshal_members ms) = true.
Proof.
  assert (Hm : forall m : bytes * bytes, utf8_valid m.2 = true -> utf8_valid (marshal_member m) = true).
  { intros m Hm. unfold marshal_member. rewrite utf8_valid_app by apply marshal_string_utf8. by rewrite utf8_valid_app. }
  induction 1 as [|m [|m' ms] H2 _ IH]; [done|by apply Hm|].
  cbn [marshal_members]. rewrite utf8_valid_app by (by apply Hm). by rewrite utf8_valid_app.
Qed.

Lemma marshal_object_utf8 ms : Forall (fun m => utf8_valid m.2 = true) ms -> utf8_valid (marshal_object ms) = true.
Proof. intros Hms. unfold marshal_object. rewrite utf8_valid_app by done. by rewrite utf8_valid_app by (by apply marshal_members_utf8). Qed.

Lemma marshal_array_utf8 l : Forall (fun raw => utf8_valid raw = true) l -> utf8_valid (marshal_array l) = true.
Proof.
  intros Hl. unfold marshal_array. rewrite utf8_valid_app by done. rewrite utf8_valid_app; [done|].
  induction Hl as [|x [|y l] Hx _ IH]; [done|done|]. cbn [marshal_elements]. rewrite utf8_valid_app by done. by rewrite utf8_valid_app.
Qed.

Definition jstring (s : bytes) : jvalue := JString s (marshal_chars (length s) s).

Lemma plain_utf8 s : forallb plain s = true -> utf8_valid s = true.
Proof.
  induction s as [|b s IH]; [done|]. simpl. intros [Hb Hs]%andb_true_iff. apply plain_spec in Hb.
  replace (b2z b <? 128) with true by lia. by apply IH.
Qed.

Lemma reads_string s : utf8_valid s = true -> reads_as 0 (marshal_string s) (jstring s).
Proof.
  intros Hs depth rest _ _. unfold marshal_string. rewrite <- !app_assoc.
  set (raw := marshal_chars (length s) s).
  assert (Hp : parse_string (length (raw ++ [chr 34] ++ rest)) (raw ++ [chr 34] ++ rest) = Some (s, rest)).
  { apply parse_string_marshal; [done|done|]. rewrite length_app. fold raw. simpl. lia. }
  assert (Hraw : take (length (raw ++ [chr 34] ++ rest) - length rest - 1) (raw ++ [chr 34] ++ rest) = raw).
  { rewrite !length_app. change (length [chr 34]) with 1%nat.
    replace (length raw + (1 + length rest) - length rest - 1)%nat with (length raw) by lia. by rewrite take_app_length. }
  destruct depth; cbn [app parse_value skip_space]; change (is_space (chr 34)) with false; cbv iota;
    change (b2z (chr 34) =? 34) with true; cbv iota; change (chr 34 :: rest) with ([chr 34] ++ rest);
    rewrite Hp; cbn [mbind option_bind]; by rewrite Hraw.
Qed.

(** *** Objects *)

(** A member of a struct and what the decoder makes of it. *)
Definition reads_member (n : nat) (raw : bytes * bytes) (v : bytes * jvalue) : Prop :=
  raw.1 = v.1 /\ forallb plain raw.1 = true /\ reads_as n raw.2 v.2.

Lemma marshal_string_plain s : forallb plain s = true -> marshal_string s = [chr 34] ++ s ++ [chr 34].
Proof. intros Hs. unfold marshal_string. by rewrite marshal_chars_plain. Qed.

(** What follows a member: a comma or the end of the object. *)
Definition ends_member (tail : bytes) : Prop := match tail with b :: _ => b2z b = 44 \/ b2z b = 125 | [] => False end.

Lemma parse_member n depth fuel raw v tail : reads_member n raw v -> (n <= depth)%nat -> ends_member tail ->
  parse_members (parse_value depth) (S fuel) (marshal_member raw ++ tail) =
  match tail with
  | c :: r => if b2z c =? 125 then Some ([v], r)
              else '(ms, r) ← parse_members (parse_value depth) fuel r; Some (v :: ms, r)
  | [] => None
  end.
Proof.
  intros (Hkey & Hplain & Hv) Hdepth Htail. destruct raw as [key raw], v as [key' v]. simpl in Hkey, Hplain, Hv. subst key'.
  unfold marshal_member. simpl fst. simpl snd. rewrite marshal_string_plain by done. rewrite <- !app_assoc.
  cbn [parse_members app skip_space]. change (is_space (chr 34)) with false. cbv iota.
  change (b2z (chr 34) =? 34) with true. cbn [negb].
  change (chr 34 :: chr 58 :: raw ++ tail) with ([chr 34] ++ chr 58 :: raw ++ tail).
  rewrite parse_string_plain by (done || rewrite length_app; simpl; lia). cbn [mbind option_bind skip_space].
  change (is_space (chr 58)) with false. cbv iota. change (b2z (chr 58) =? 58) with true. cbn [negb].
  rewrite Hv; [|done|by destruct tail; simpl in *; tauto]. cbn [mbind option_bind].
  destruct tail as [|c tail]; [done|]. simpl in Htail.
  cbn [skip_space]. unfold is_space.
  replace ((b2z c =? 32) || (b2z c =? 9) || (b2z c =? 13) || (b2z c =? 10)) with false by lia.
  destruct (b2z c =? 125) eqn:H125; [done|]. by replace (b2z c =? 44) with true by lia.
Qed.

Lemma parse_members_read n depth raws vs fuel rest : Forall2 (reads_member n) raws vs -> raws <> [] ->
  (n <= depth)%nat -> (length raws <= fuel)%nat ->
  parse_members (parse_value depth) fuel (marshal_members raws ++ chr 125 :: rest) = Some (vs, rest).
Proof.
  intros Hms. revert fuel. induction Hms as [|raw v raws vs Hm Hms IH]; intros fuel Hne Hdepth Hf; [done|].
  destruct fuel as [|fuel]; simpl in Hf; [lia|]. destruct raws as [|raw' raws].
  - inversion Hms. subst. cbn [marshal_members]. by rewrite (parse_member n _ _ _ v) by (done || by right).
  - cbn [marshal_members]. rewrite <- !app_assoc. change ([chr 44] ++ ?x) with (chr 44 :: x).
    rewrite (parse_member n _ _ _ v) by (done || by left). change (b2z (chr 44) =? 125) with false. cbv iota.
    cbn [marshal_members] in IH. by rewrite IH by (done || lia).
Qed.

Lemma length_marshal_members ms : (length ms <= length (marshal_members ms))%nat.
Proof.
  induction ms as [|m [|m' ms] IH]; [done| |]; simpl in *; unfold marshal_member, marshal_string in *;
    rewrite !length_app in *; simpl in *; lia.
Qed.

Lemma consumed_app x rest : consumed (x ++ rest) rest = x.
Proof. unfold consumed. rewrite length_app, Nat.add_sub. by rewrite take_app_length. Qed.

Lemma reads_object n raws vs : Forall2 (reads_member n) raws vs -> raws <> [] ->
  reads_as (S n) (marshal_object raws) (JObject vs (marshal_object raws)).
Proof.
  intros Hms Hne depth rest Hd _. destruct depth as [|depth]; [lia|].
  rewrite <- (consumed_app (marshal_object raws) rest) at 2.
  unfold marshal_object. rewrite <- !app_assoc. cbn [app parse_value skip_space].
  change (is_space (chr 123)) with false. cbv iota. change (b2z (chr 123) =? 34) with false.
  change (b2z (chr 123) =? 123) with true. cbv iota.
  rewrite (parse_members_read n _ _ vs); try done; [|lia|].
  2:{ rewrite length_app. pose proof (length_marshal_members raws). lia. }
  destruct Hms as [|raw v raws vs Hm Hms]; [done|].
  assert (exists l, marshal_members (raw :: raws) = chr 34 :: l) as [l ->]; [|done].
  destruct raws; cbn [marshal_members]; unfold marshal_member, marshal_string; eauto.
Qed.

Lemma json_decode_object raws vs : Forall2 (reads_member 0) raws vs -> raws <> [] ->
  json_decode (marshal_object raws) = Some (JObject vs (marshal_object raws), []).
Proof.
  intros Hms Hne. rewrite <- (app_nil_r (marshal_object raws)) at 1. apply (reads_object 0 _ _ Hms Hne); [|done].
  unfold maxNestingDepth. lia.
Qed.

Lemma reads_literal n (word : bytes) v c l : word = c :: l -> is_space c = false ->
  (forall depth rest, parse_value depth (c :: l ++ rest) = literal word v (c :: l ++ rest)) -> reads_as n word v.
Proof.
  intros -> _ Hp depth rest _ _. cbn [app]. rewrite Hp. unfold literal.
  change (c :: l ++ rest) with ((c :: l) ++ rest). by rewrite has_prefix_app, drop_app_length.
Qed.

Lemma reads_null : reads_as 0 (lit "null") JNull.
Proof. eapply reads_literal; [done|done|]. by intros []. Qed.

Lemma reads_bool b : reads_as 0 (marshal_bool b) (JBool b).
Proof. destruct b; (eapply reads_literal; [done|done|]); by intros []. Qed.

Lemma reads_empty_object : reads_as 1 (marshal_object []) (JObject [] (marshal_object [])).
Proof. intros [|depth] rest Hd _; [lia|]. rewrite <- (consumed_app (marshal_object []) rest) at 2. done. Qed.

(** *** Arrays *)

Lemma skip_space_app l k : skip_space l <> [] -> skip_space (l ++ k) = skip_space l ++ k.
Proof. induction l as [|b l IH]; [done|]. simpl. destruct (is_space b); [exact IH|done]. Qed.

Lemma reads_head n raw v : reads_as n raw v -> exists c l, skip_space raw = c :: l /\ b2z c <> 93.
Proof.
  intros Hr. specialize (Hr n [] ltac:(done) I). rewrite app_nil_r in Hr.
  destruct (skip_space raw) as [|c l] eqn:Hs; [destruct n; simpl in Hr; by rewrite Hs in Hr|].
  exists c, l. split; [done|]. intros Hc.
  assert (parse_number (c :: l) = None) as Hn.
  { unfold parse_number. replace (b2z c =? 45) with false by lia. cbn [take_digits]. unfold is_digit, in_range.
    by replace ((48 <=? b2z c) && (b2z c <=? 57)) with false by lia. }
  destruct n; simpl in Hr; rewrite Hs in Hr;
    do 6 match type of Hr with context [if ?x then _ else _] => replace x with false in Hr by (symmetry; lia) end;
    by rewrite Hn in Hr.
Qed.

Lemma parse_elements_read n depth raws vs fuel rest : Forall2 (reads_as n) raws vs -> raws <> [] ->
  (n <= depth)%nat -> (length raws <= fuel)%nat ->
  parse_elements (parse_value depth) fuel (marshal_elements raws ++ chr 93 :: rest) = Some (vs, rest).
Proof.
  intros Hms. revert fuel. induction Hms as [|raw v raws vs Hm Hms IH]; intros fuel Hne Hdepth Hf; [done|].
  destruct fuel as [|fuel]; simpl in Hf; [lia|]. destruct raws as [|raw' raws].
  - inversion Hms. subst. cbn [marshal_elements parse_elements]. rewrite Hm; [done|done|simpl; by right; right].
  - cbn [marshal_elements]. rewrite <- !app_assoc. cbn [parse_elements].
    rewrite Hm; [|done|simpl; by left]. cbn [mbind option_bind app skip_space]. change (is_space (chr 44)) with false. cbv iota.
    change (b2z (chr 44) =? 93) with false. change (b2z (chr 44) =? 44) with true. cbv iota.
    cbn [marshal_elements] in IH. by rewrite IH by (done || lia).
Qed.

Lemma length_marshal_elements n raws vs : Forall2 (reads_as n) raws vs -> (length raws <= length (marshal_elements raws))%nat.
Proof.
  intros Hms. assert (Forall (fun raw : bytes => (1 <= length raw)%nat) raws) as Hall.
  { induction Hms as [|raw v raws vs Hm _ IH]; constructor; [|done]. destruct (reads_head _ _ _ Hm) as (c & l & Hs & _).
    destruct raw; [done|simpl; lia]. }
  clear Hms. induction Hall as [|raw [|raw' raws] Hr _ IH]; cbn [marshal_elements length] in *; [done|lia|].
  rewrite !length_app. change (length [chr 44]) with 1%nat. lia.
Qed.

Lemma reads_array n raws vs : Forall2 (reads_as n) raws vs -> reads_as (S n) (marshal_array raws) (JArray vs (marshal_array raws)).
Proof.
  intros Hms depth rest Hd _. destruct depth as [|depth]; [lia|].
  rewrite <- (consumed_app (marshal_array raws) rest) at 2. destruct raws as [|raw raws].
  { inversion Hms. subst. done. }
  pose proof (length_marshal_elements _ _ _ Hms) as Hlen.
  unfold marshal_array. rewrite <- !app_assoc. cbn [app parse_value skip_space].
  change (is_space (chr 91)) with false. cbv iota. change (b2z (chr 91) =? 34) with false.
  change (b2z (chr 91) =? 123) with false. change (b2z (chr 91) =? 91) with true. cbv iota.
  rewrite (parse_elements_read n _ _ vs); try done; [|lia|rewrite length_app; lia].
  inversion Hms as [|? v ? vs' Hm Hms']; subst. destruct (reads_head _ _ _ Hm) as (c & l & Hs & Hc).
  assert (exists l', skip_space (marshal_elements (raw :: raws) ++ chr 93 :: rest) = c :: l') as [l' ->].
  { destruct raws; cbn [marshal_elements]; rewrite <- ?app_assoc, skip_space_app, Hs by (rewrite Hs; done); cbn [app]; eauto. }
  by replace (b2z c =? 93) with false by lia.
Qed.

(** *** Signed numbers *)

Lemma parse_number_digits sign d tl rest : is_digit d = true -> forallb is_digit tl = true ->
  (b2z d = 48 -> tl = []) -> (sign = [] \/ sign = [chr 45]) -> delimited rest ->
  parse_number (sign ++ (d :: tl) ++ rest) = Some (sign ++ d :: tl, rest).
Proof.
  intros Hd Htl Hzero Hsign Hrest. unfold parse_number.
  assert ((match sign ++ (d :: tl) ++ rest with
           | [] => ([], sign ++ (d :: tl) ++ rest)
           | b :: rest0 => if b2z b =? 45 then ([b], rest0) else ([], sign ++ (d :: tl) ++ rest)
           end) = (sign, (d :: tl) ++ rest)) as ->.
  { destruct Hsign as [-> | ->]; [|done]. cbn [app]. unfold is_digit, in_range in Hd.
    by replace (b2z d =? 45) with false by lia. }
  rewrite take_digits_all by (simpl; by rewrite ?Hd, ?Htl || by apply delimited_no_digit).
  rewrite bool_decide_eq_false_2 by done.
  replace ((1 <? len (d :: tl)) && (byte_at (d :: tl) 0 =? 48)) with false.
  2:{ symmetry. apply andb_false_iff. unfold byte_at. simpl. destruct (Z.eqb_spec (b2z d) 48) as [He|]; [|by right].
      left. by rewrite Hzero. }
  cbn [orb]. destruct rest as [|c rest]; [by rewrite app_nil_r|]. simpl in Hrest.
  replace (b2z c =? 46) with false by lia. replace ((b2z c =? 101) || (b2z c =? 69)) with false by lia.
  cbn [andb]. by rewrite !app_nil_r.
Qed.

Definition i64 (z : Z) : Prop := - 2 ^ 63 <= z <= max_int64.

Lemma reads_int z : i64 z -> reads_as 0 (FormatInt z) (JNumber (FormatInt z)).
Proof.
  unfold i64, max_int64. intros Hz. unfold FormatInt. destruct (Z.ltb_spec z 0) as [Hn|Hn]; [|apply reads_uint64; unfold u64, max_uint64; lia].
  assert (Hu : u64 (- z)) by (unfold u64, max_uint64; lia). intros depth rest _ Hrest.
  destruct (FormatUint_head _ Hu) as (d & tl & Heq & Hd & Hzero & _). pose proof (FormatUint_digits _ Hu) as Hdig.
  rewrite Heq in *. simpl in Hdig. apply andb_true_iff in Hdig as [H1 H2].
  pose proof (parse_number_digits [chr 45] (chr (48 + d)) tl rest H1 H2
    ltac:(rewrite digit_z by done; intros; apply Hzero; lia) (or_intror eq_refl) Hrest) as Hp.
  destruct depth; cbn [parse_value app skip_space]; change (is_space (chr 45)) with false; cbv iota;
    change (b2z (chr 45)) with 45; cbn [Z.eqb Pos.eqb]; cbn [app] in Hp; by rewrite Hp.
Qed.

Lemma parse_int64_marshal z : i64 z -> parse_int64 (FormatInt z) = Some z.
Proof.
  unfold i64, max_int64. intros Hz. unfold FormatInt, parse_int64. destruct (Z.ltb_spec z 0) as [Hn|Hn].
  - assert (Hu : u64 (- z)) by (unfold u64, max_uint64; lia). cbn [app]. change (b2z (chr 45) =? 45) with true. cbv iota beta.
    rewrite FormatUint_digits, digits_value_marshal by done.
    destruct (FormatUint_head _ Hu) as (d & tl & -> & _). rewrite bool_decide_eq_false_2 by done. cbn [negb orb].
    replace (_ || _) with false by (unfold max_int64; lia). f_equal. lia.
  - assert (Hu : u64 z) by (unfold u64, max_uint64; lia). destruct (FormatUint_head _ Hu) as (d & tl & Heq & Hd & _).
    rewrite Heq at 1. rewrite digit_z by done. replace (48 + d =? 45) with false by lia. cbv iota beta.
    rewrite FormatUint_digits, digits_value_marshal by done. rewrite Heq, bool_decide_eq_false_2 by done. cbn [negb orb].
    by replace (_ || _) with false by (unfold max_int64; lia).
Qed.
