(* ===== verification/GoTime.v ===== *)
(** * RFC 3339 times (package time)

    Instants travel as text in UTC with up to nine fractional digits.  This
    file models the proleptic Gregorian calendar, [Format(time.RFC3339Nano)] and
    the strict parser behind [time.Time.UnmarshalJSON], and proves that parsing
    gives a formatted instant back. *)

From stdpp Require Import base list strings.
From Stdlib Require Import ZArith Lia.
From S2P Require Import Prelude.
From S2P Require Import Bytes.
From S2P Require Import ApiTypes.
From S2P Require Import Json.

Local Open Scope Z_scope.

(** ** The calendar *)

Definition is_leap (y : Z) : bool := (y mod 4 =? 0) && (negb (y mod 100 =? 0) || (y mod 400 =? 0)).

Definition days_in (m y : Z) : Z :=
  if m =? 2 then (if is_leap y then 29 else 28)
  else if (m =? 4) || (m =? 6) || (m =? 9) || (m =? 11) then 30 else 31.

(** A day of the year that starts on March 1, as month and day. *)
Definition civil_of_year_day (doy : Z) : Z * Z :=
  let mp := (5 * doy + 2) / 153 in
  (if mp <? 10 then mp + 3 else mp - 9, doy - (153 * mp + 2) / 5 + 1).

(** The day of the era of 400 years that starts on March 1, as year of the
    era, month and day: centuries, groups of four years, years. *)
Definition civil_of_era_day (doe : Z) : Z * Z * Z :=
  let c := Z.min 3 (doe / 36524) in
  let r := doe - c * 36524 in
  let q := r / 1461 in
  let r := r - q * 1461 in
  let a := Z.min 3 (r / 365) in
  let '(m, d) := civil_of_year_day (r - a * 365) in
  (100 * c + 4 * q + a, m, d).

(** The date of a day counted from January 1, 1970. *)
Definition civil_of_days (days : Z) : Z * Z * Z :=
  let z := days + 719468 in
  let '(yoe, m, d) := civil_of_era_day (z mod 146097) in
  (yoe + z / 146097 * 400 + (if m <=? 2 then 1 else 0), m, d).

Definition era_day_of_civil (yoe m d : Z) : Z :=
  let doy := (153 * (if 2 <? m then m - 3 else m + 9) + 2) / 5 + d - 1 in
  yoe * 365 + yoe / 4 - yoe / 100 + doy.

Definition days_of_civil (y m d : Z) : Z :=
  let y := if m <=? 2 then y - 1 else y in
  y / 400 * 146097 + era_day_of_civil (y mod 400) m d - 719468.

(** ** Formatting *)

(** [z] in [w] decimal digits. *)
Fixpoint digits (w : nat) (z : Z) : bytes :=
  match w with
  | O => []
  | S w => digits w (z / 10) ++ [chr (48 + z mod 10)]
  end.

Definition nanosecond : Z := 1000000000.

(** The fraction without trailing zeros. *)
Fixpoint drop_zeros (l : bytes) : bytes :=
  match l with
  | b :: rest => if b2z b =? 48 then drop_zeros rest else l
  | [] => []
  end.
Definition trim_zeros (l : bytes) : bytes := reverse (drop_zeros (reverse l)).
Definition format_fraction (ns : Z) : bytes := if ns =? 0 then [] else [chr 46] ++ trim_zeros (digits 9 ns).

(** [appendInt(year, 4)]. *)
Definition format_year (y : Z) : bytes :=
  (if y <? 0 then [chr 45] else []) ++ (if Z.abs y <? 10000 then digits 4 (Z.abs y) else FormatUint (Z.abs y)).

(** [t.UTC().Format(time.RFC3339Nano)]. *)
Definition FormatRFC3339Nano (t : Time) : bytes :=
  let seconds := t / nanosecond in
  let '(y, m, d) := civil_of_days (seconds / 86400) in
  let sod := seconds mod 86400 in
  format_year y ++ [chr 45] ++ digits 2 m ++ [chr 45] ++ digits 2 d ++ [chr 84]
  ++ digits 2 (sod / 3600) ++ [chr 58] ++ digits 2 (sod / 60 mod 60) ++ [chr 58] ++ digits 2 (sod mod 60)
  ++ format_fraction (t mod nanosecond) ++ [chr 90].

(** ** Parsing *)

(** [parseUint(s, min, max)] *)
Definition parse_field (s : bytes) (min max : Z) : option Z :=
  let v := digits_value s in
  if forallb is_digit s && (min <=? v) && (v <=? max) then Some v else None.

(** The fraction: a point and at least one digit, of which nine count. *)
Definition parse_fraction (s : bytes) : Z * bytes :=
  match s with
  | b :: rest =>
      let (ds, rest') := take_digits rest in
      if (b2z b =? 46) && negb (bool_decide (ds = [])) then
        let ds := take 9 ds in (digits_value ds * 10 ^ (9 - len ds), rest')
      else (0, s)
  | [] => (0, s)
  end.

(** The zone: [Z] or an offset, in seconds. *)
Definition parse_zone (s : bytes) : option Z :=
  if bool_decide (s = [chr 90]) then Some 0
  else if negb (len s =? 6) then None
  else
    hr ← parse_field (slice s 1 3) 0 23;
    mm ← parse_field (slice s 4 6) 0 59;
    let offset := (hr * 60 + mm) * 60 in
    if negb (byte_at s 3 =? 58) then None
    else if byte_at s 0 =? 43 then Some offset
    else if byte_at s 0 =? 45 then Some (- offset) else None.

(** [parseStrictRFC3339]. *)
Definition parseRFC3339 (s : bytes) : option Time :=
  if len s <? 19 then None
  else
    year ← parse_field (slice s 0 4) 0 9999;
    month ← parse_field (slice s 5 7) 1 12;
    day ← parse_field (slice s 8 10) 1 (days_in month year);
    hour ← parse_field (slice s 11 13) 0 23;
    min ← parse_field (slice s 14 16) 0 59;
    sec ← parse_field (slice s 17 19) 0 59;
    if negb ((byte_at s 4 =? 45) && (byte_at s 7 =? 45) && (byte_at s 10 =? 84) && (byte_at s 13 =? 58)
             && (byte_at s 16 =? 58)) then None
    else
      let (nsec, rest) := parse_fraction (slice s 19 (len s)) in
      offset ← parse_zone rest;
      Some ((days_of_civil year month day * 86400 + hour * 3600 + min * 60 + sec - offset) * nanosecond + nsec).

(** The canonical texts: [time.Parse], a [Z] at the end and [Format] giving the
    text back.  [time.Parse] also takes some other texts, which [Format] does
    not give back. *)
Definition parseCanonicalUTC (s : bytes) : option Time :=
  match parseRFC3339 s with
  | Some t => if has_suffix s [chr 90] && bool_decide (FormatRFC3339Nano t = s) then Some t else None
  | None => None
  end.

(** ** Dates *)

(** All days of a year: the date, and which day of the year it is. *)
Definition year_day_ok (doy : Z) : bool :=
  let '(m, d) := civil_of_year_day doy in
  (1 <=? m) && (m <=? 12) && (1 <=? d) && (d <=? (if m =? 2 then 29 else days_in m 1)) && eqb (bool_decide (m = 2 /\ d = 29)) (doy =? 365)
  && ((153 * (if 2 <? m then m - 3 else m + 9) + 2) / 5 + d - 1 =? doy).

Lemma year_days doy : 0 <= doy < 366 -> year_day_ok doy = true.
Proof.
  intros Hd. assert (forallb year_day_ok (seqZ 0 366) = true) as Hall by (vm_compute; reflexivity).
  rewrite forallb_forall in Hall. apply Hall, list_elem_of_In, elem_of_seqZ. lia.
Qed.

Lemma days_in_year m y y' : m <> 2 -> days_in m y = days_in m y'.
Proof. intros Hm. unfold days_in. by replace (m =? 2) with false by lia. Qed.

Lemma is_leap_mod y k : is_leap (y + k * 400) = is_leap y.
Proof.
  unfold is_leap. replace (k * 400) with (k * 100 * 4) at 1 by lia. rewrite Z_mod_plus_full.
  replace (k * 400) with (k * 4 * 100) at 1 by lia. by rewrite !Z_mod_plus_full.
Qed.

Definition date_ok (y m d : Z) : Prop := 1 <= m <= 12 /\ 1 <= d <= days_in m y.

Lemma civil_of_era_day_spec doe yoe m d : 0 <= doe < 146097 -> civil_of_era_day doe = (yoe, m, d) ->
  0 <= yoe < 400 /\ date_ok (yoe + (if m <=? 2 then 1 else 0)) m d /\ era_day_of_civil yoe m d = doe.
Proof.
  intros Hd. unfold civil_of_era_day. set (c := Z.min 3 (doe / 36524)). set (q := (doe - c * 36524) / 1461).
  set (a := Z.min 3 _). set (doy := doe - c * 36524 - q * 1461 - a * 365).
  assert (0 <= c <= 3 /\ 0 <= doe - c * 36524 <= 36523 + c / 3) as [Hc Hr] by (unfold c; Z.to_euclidean_division_equations; lia).
  assert (0 <= q <= 24 /\ 0 <= doe - c * 36524 - q * 1461 <= 1460) as [Hq Hr2] by (unfold q; Z.to_euclidean_division_equations; lia).
  assert (0 <= a <= 3 /\ 0 <= doy <= 365 /\ (doy = 365 -> a = 3)) as (Ha & Hy & Hlast).
  { unfold doy, a. Z.to_euclidean_division_equations. lia. }
  clearbody a q c. destruct (civil_of_year_day doy) as [m' d'] eqn:Hcd. intros [= <- -> ->].
  pose proof (year_days doy ltac:(lia)) as Hok. unfold year_day_ok in Hok. rewrite Hcd in Hok. go_bool.
  match goal with He : eqb _ _ = true |- _ => apply eqb_prop in He; rename He into H29 end. split; [lia|]. split.
  - split; [lia|]. destruct (Z.eqb_spec m 2) as [->|Hm].
    + change (2 <=? 2) with true. cbv iota. unfold days_in. change (2 =? 2) with true. cbv iota.
      destruct (is_leap _) eqn:Hleap; [lia|]. enough (d <> 29) by lia. intros ->. rewrite bool_decide_true in H29 by done.
      assert (doy = 365) as Hl by lia. specialize (Hlast Hl) as ->.
      assert (is_leap (100 * c + 4 * q + 3 + 1) = true); [|congruence].
      unfold is_leap. apply andb_true_iff. split; [apply Z.eqb_eq; Z.to_euclidean_division_equations; lia|].
      apply orb_true_iff. destruct (decide (q = 24)) as [->|]; [right|left].
      * assert (c = 3) as -> by (unfold doy in Hl; Z.to_euclidean_division_equations; lia). done.
      * apply negb_true_iff, Z.eqb_neq. Z.to_euclidean_division_equations. lia.
    + rewrite (days_in_year m _ 1) by done. lia.
  - unfold era_day_of_civil. assert (doe = 36524 * c + 1461 * q + 365 * a + doy) as Hdoe by (unfold doy; lia).
    assert ((100 * c + 4 * q + a) / 4 = 25 * c + q) as -> by (Z.to_euclidean_division_equations; lia).
    assert ((100 * c + 4 * q + a) / 100 = c) as -> by (Z.to_euclidean_division_equations; lia). lia.
Qed.

Lemma date_ok_mod y k m d : date_ok y m d <-> date_ok (y + k * 400) m d.
Proof. unfold date_ok, days_in. by rewrite is_leap_mod. Qed.

Lemma civil_of_days_spec days y m d :
  civil_of_days days = (y, m, d) -> date_ok y m d /\ days_of_civil y m d = days.
Proof.
  unfold civil_of_days. set (z := days + 719468). pose proof (Z.mod_pos_bound z 146097 ltac:(lia)) as Hz.
  destruct (civil_of_era_day (z mod 146097)) as [[yoe m'] d'] eqn:He. intros [= <- -> ->].
  destruct (civil_of_era_day_spec _ _ _ _ Hz He) as (Hy & Hok & Hday). split.
  - replace (yoe + z / 146097 * 400 + _) with (yoe + (if m <=? 2 then 1 else 0) + z / 146097 * 400) by lia.
    by apply date_ok_mod.
  - unfold days_of_civil. replace (if m <=? 2 then _ else _) with (yoe + z / 146097 * 400) by (destruct (m <=? 2); lia).
    rewrite Z.div_add, Z.mod_add, Z.div_small, Z.mod_small, Hday by lia. pose proof (Z.div_mod z 146097 ltac:(lia)). lia.
Qed.

(** The years with four digits. *)
Definition rfc3339_range (t : Time) : Prop := -62167219200 * nanosecond <= t < 253402300800 * nanosecond.

Global Instance rfc3339_range_dec t : Decision (rfc3339_range t).
Proof. unfold rfc3339_range. apply _. Defined.

Lemma days_in_range m y : 28 <= days_in m y <= 31.
Proof. unfold days_in. destruct (m =? 2), (is_leap y); simpl; try lia; by destruct (_ || _). Qed.

Lemma year_range days y m d :
  -719528 <= days < 2932897 -> civil_of_days days = (y, m, d) -> 0 <= y <= 9999.
Proof.
  intros Hd Hc. destruct (civil_of_days_spec _ _ _ _ Hc) as [[Hm Hday] Heq]. pose proof (days_in_range m y).
  unfold days_of_civil, era_day_of_civil in Heq. destruct (Z.leb_spec m 2), (Z.ltb_spec 2 m); try lia;
    Z.to_euclidean_division_equations; lia.
Qed.

(** ** Digits *)

Lemma length_digits w z : length (digits w z) = w.
Proof. revert z. induction w as [|w IH]; intros z; simpl; [done|]. rewrite length_app, IH. simpl. lia. Qed.

Lemma digits_ok w z : forallb is_digit (digits w z) = true.
Proof.
  revert z. induction w as [|w IH]; intros z; [done|]. cbn [digits]. rewrite forallb_app, IH. cbn [forallb].
  rewrite is_digit_chr; [done|apply Z.mod_pos_bound; lia].
Qed.

Lemma digits_value_app l k : digits_value (l ++ k) = digits_value l * 10 ^ len k + digits_value k.
Proof. unfold digits_value at 1. rewrite foldl_app. apply digits_value_from. Qed.

Lemma digits_value_digits w z : 0 <= z < 10 ^ Z.of_nat w -> digits_value (digits w z) = z.
Proof.
  revert z. induction w as [|w IH]; intros z Hz; [change (10 ^ Z.of_nat 0) with 1 in Hz; assert (z = 0) as -> by lia; done|].
  rewrite Nat2Z.inj_succ, Z.pow_succ_r in Hz by lia. cbn [digits]. rewrite digits_value_app, IH.
  - change (len [chr (48 + z mod 10)]) with 1. unfold digits_value. cbn [foldl].
    rewrite digit_z by (apply Z.mod_pos_bound; lia). pose proof (Z.div_mod z 10 ltac:(lia)). lia.
  - split; [apply Z.div_pos; lia|apply Z.div_lt_upper_bound; lia].
Qed.

Lemma parse_field_digits w z min max :
  0 <= z < 10 ^ Z.of_nat w -> min <= z <= max -> parse_field (digits w z) min max = Some z.
Proof.
  intros Hz Hr. unfold parse_field. rewrite digits_ok, digits_value_digits by done.
  by replace (true && (min <=? z) && (z <=? max)) with true by lia.
Qed.

(** ** The fraction *)

Lemma drop_zeros_split l : exists n, l = replicate n (chr 48) ++ drop_zeros l.
Proof.
  induction l as [|b l [n IH]]; [by exists O|]. simpl. destruct (Z.eqb_spec (b2z b) 48) as [Hb|]; [|by exists O].
  exists (S n). simpl. rewrite <- IH. f_equal. apply (inj b2z). by rewrite Hb.
Qed.

Lemma trim_zeros_split l : exists n, l = trim_zeros l ++ replicate n (chr 48).
Proof.
  destruct (drop_zeros_split (reverse l)) as [n Hn]. exists n. unfold trim_zeros.
  rewrite <- (reverse_involutive l) at 1. rewrite Hn at 1. by rewrite reverse_app, reverse_replicate.
Qed.

Lemma digits_value_zeros n : digits_value (replicate n (chr 48)) = 0.
Proof. induction n as [|n IH]; [done|]. change (replicate (S n) (chr 48)) with ([chr 48] ++ replicate n (chr 48)).
  rewrite digits_value_app, IH. done. Qed.

Lemma parse_fraction_format ns rest : 0 <= ns < nanosecond -> no_digit rest -> parse_fraction rest = (0, rest) ->
  parse_fraction (format_fraction ns ++ rest) = (ns, rest).
Proof.
  intros Hns Hrest Hno. unfold format_fraction. destruct (Z.eqb_spec ns 0) as [->|Hz]; [done|].
  destruct (trim_zeros_split (digits 9 ns)) as [n Hn]. set (l := trim_zeros _) in *.
  pose proof (length_digits 9 ns) as Hlen. pose proof (digits_ok 9 ns) as Hd.
  pose proof (digits_value_digits 9 ns ltac:(change (10 ^ Z.of_nat 9) with nanosecond; lia)) as Hv.
  rewrite Hn in Hlen, Hd, Hv. rewrite length_app, length_replicate in Hlen.
  rewrite digits_value_app, digits_value_zeros in Hv. unfold len in Hv. rewrite length_replicate in Hv.
  rewrite forallb_app in Hd. apply andb_true_iff in Hd as [Hd _].
  cbn [app]. unfold parse_fraction. rewrite take_digits_all by done.
  rewrite bool_decide_false by (intros Hl; rewrite Hl in Hv; unfold digits_value in Hv; simpl in Hv; lia).
  change ((b2z (chr 46) =? 46) && negb false) with true. cbv iota. rewrite take_ge by lia.
  unfold len. replace (9 - Z.of_nat (length l)) with (Z.of_nat n) by lia. f_equal. lia.
Qed.

(** ** The round trip *)

(** A text with fields of the layout's widths. *)
Definition rfc3339_text (yy mo dd hh mi ss tail : bytes) : bytes :=
  yy ++ [chr 45] ++ mo ++ [chr 45] ++ dd ++ [chr 84] ++ hh ++ [chr 58] ++ mi ++ [chr 58] ++ ss ++ tail.

Lemma rfc3339_fields yy mo dd hh mi ss tail (s := rfc3339_text yy mo dd hh mi ss tail) :
  len yy = 4 -> len mo = 2 -> len dd = 2 -> len hh = 2 -> len mi = 2 -> len ss = 2 ->
  len s = 19 + len tail /\
  slice s 0 4 = yy /\ slice s 5 7 = mo /\ slice s 8 10 = dd /\ slice s 11 13 = hh /\ slice s 14 16 = mi /\
  slice s 17 19 = ss /\ slice s 19 (len s) = tail /\
  byte_at s 4 = 45 /\ byte_at s 7 = 45 /\ byte_at s 10 = 84 /\ byte_at s 13 = 58 /\ byte_at s 16 = 58.
Proof.
  intros H1 H2 H3 H4 H5 H6. assert (Hlen : len s = 19 + len tail).
  { unfold s, rfc3339_text. rewrite !len_app, H1, H2, H3, H4, H5, H6. unfold len at 1 2 3 4 5. simpl. lia. }
  pose proof (len_nonneg tail). rewrite !byte_at_decode, Hlen by lia. unfold s, rfc3339_text. split; [done|].
  assert (Hc : forall z, len [chr z] = 1) by done.
  pose proof (Hc 45). pose proof (Hc 84). pose proof (Hc 58). split_and!; by slice_fields.
Qed.

Lemma parse_format_time t : rfc3339_range t -> parseRFC3339 (FormatRFC3339Nano t) = Some t.
Proof.
  unfold rfc3339_range. intros Ht. unfold FormatRFC3339Nano. set (secs := t / nanosecond).
  assert (-62167219200 <= secs < 253402300800) as Hs by (unfold secs, nanosecond in *; Z.to_euclidean_division_equations; lia).
  destruct (civil_of_days (secs / 86400)) as [[y m] d] eqn:Hc. set (sod := secs mod 86400).
  assert (0 <= y <= 9999) as Hy by (eapply year_range; [|exact Hc]; Z.to_euclidean_division_equations; lia).
  destruct (civil_of_days_spec _ _ _ _ Hc) as [[Hm Hd] Hdays]. pose proof (days_in_range m y).
  assert (0 <= sod < 86400) as Hsod by (apply Z.mod_pos_bound; lia).
  assert (0 <= t mod nanosecond < nanosecond) as Hns by (apply Z.mod_pos_bound; done).
  assert (format_year y = digits 4 y) as ->.
  { unfold format_year. replace (y <? 0) with false by lia. rewrite Z.abs_eq by lia. by replace (y <? 10000) with true by lia. }
  assert (Hl : forall w z, len (digits w z) = Z.of_nat w) by (intros; unfold len; by rewrite length_digits).
  match goal with |- parseRFC3339 ?s = _ => change s with (rfc3339_text (digits 4 y) (digits 2 m) (digits 2 d)
    (digits 2 (sod / 3600)) (digits 2 (sod / 60 mod 60)) (digits 2 (sod mod 60)) (format_fraction (t mod nanosecond) ++ [chr 90])) end.
  destruct (rfc3339_fields (digits 4 y) (digits 2 m) (digits 2 d) (digits 2 (sod / 3600)) (digits 2 (sod / 60 mod 60))
    (digits 2 (sod mod 60)) (format_fraction (t mod nanosecond) ++ [chr 90]))
    as (Hlen & F1 & F2 & F3 & F4 & F5 & F6 & F7 & B1 & B2 & B3 & B4 & B5); try apply Hl.
  unfold parseRFC3339. rewrite F1, F2, F3, F4, F5, F6, F7, B1, B2, B3, B4, B5.
  match goal with |- context [len ?s <? 19] => replace (len s <? 19) with false
    by (symmetry; pose proof (len_nonneg (format_fraction (t mod nanosecond) ++ [chr 90])); lia) end.
  rewrite (parse_field_digits 4 y) by (simpl; lia). cbn [mbind option_bind].
  rewrite (parse_field_digits 2 m) by (simpl; lia). cbn [mbind option_bind].
  rewrite (parse_field_digits 2 d) by (simpl; lia). cbn [mbind option_bind].
  rewrite (parse_field_digits 2 (sod / 3600)) by (simpl; Z.to_euclidean_division_equations; lia). cbn [mbind option_bind].
  rewrite (parse_field_digits 2 (sod / 60 mod 60)) by (simpl; Z.to_euclidean_division_equations; lia). cbn [mbind option_bind].
  rewrite (parse_field_digits 2 (sod mod 60)) by (simpl; Z.to_euclidean_division_equations; lia). cbn [mbind option_bind].
  rewrite (parse_fraction_format (t mod nanosecond) [chr 90]) by done. cbn [Z.eqb Pos.eqb andb negb].
  change (parse_zone [chr 90]) with (Some 0). cbn [mbind option_bind]. rewrite Hdays. f_equal.
  unfold sod, secs, nanosecond. Z.to_euclidean_division_equations. lia.
Qed.

Lemma parse_canonical_format t : rfc3339_range t -> parseCanonicalUTC (FormatRFC3339Nano t) = Some t.
Proof.
  intros Ht. unfold parseCanonicalUTC. rewrite parse_format_time, bool_decide_true by done.
  assert (has_suffix (FormatRFC3339Nano t) [chr 90] = true) as ->; [|done].
  apply has_suffix_spec. unfold FormatRFC3339Nano. destruct (civil_of_days _) as [[y m] d].
  eexists. by rewrite !app_assoc.
Qed.
