(* ===== verification/GoJson.v ===== *)
(** * encoding/json on Go types

    The protocol marshals and unmarshals structs.  A type is described by its
    fields with their JSON names and [omitempty] options ([jtype]), a value of
    it by a [gval]; [go_decode] and [go_encode] are what [Decoder.Decode] with
    [DisallowUnknownFields] and [Marshal] do for it.  Decoding an encoded value
    gives the value back ([roundtrips_struct] and the lemmas before it). *)

From stdpp Require Import base list strings.
From Stdlib Require Import ZArith Lia.
From S2P Require Import Prelude.
From S2P Require Import Bytes.
From S2P Require Import ApiTypes.
From S2P Require Import Base64.
From S2P Require Import Json.
From S2P Require Import GoTime.

Local Open Scope Z_scope.

(** ** Types and values *)

Inductive jtype :=
| TString
| TUint (max : Z)
| TInt
| TBool
| TBytes       (** [[]byte] *)
| TBase64      (** [protocol.Base64Bytes] *)
| TTime        (** [time.Time] *)
| TInstant     (** [protocol.UTCInstant] *)
| TRaw         (** [json.RawMessage] *)
| TPtr (t : jtype)
| TList (t : jtype)
| TStruct (fields : list (bytes * jtype * bool))  (** name, type, [omitempty] *)
| TRequired (names : list bytes) (t : jtype).     (** an [UnmarshalJSON] that first requires members *)

Inductive gval :=
| GString (s : bytes)
| GNum (z : Z)
| GBool (b : bool)
| GBytes (o : option bytes)
| GTime (t : Time)
| GRaw (o : option jvalue)
| GPtr (o : option gval)
| GList (o : option (list gval))
| GStruct (l : list gval).

Fixpoint zero_value (t : jtype) : gval :=
  match t with
  | TString => GString []
  | TUint _ | TInt => GNum 0
  | TBool => GBool false
  | TBytes | TBase64 => GBytes None
  | TTime | TInstant => GTime (-62135596800 * nanosecond)
  | TRaw => GRaw None
  | TPtr _ => GPtr None
  | TList _ => GList None
  | TStruct fields => GStruct ((fun f => zero_value f.1.2) <$> fields)
  | TRequired _ t => zero_value t
  end.

(** ** Decoding *)

(** [Base64Bytes.UnmarshalJSON]. *)
Definition decode_base64 (text : bytes) : option bytes :=
  decoded ← StdDecodeString true text;
  if bool_decide (StdEncodeToString decoded = text) then Some decoded else None.

(** A number stored into an element of a byte slice. *)
Definition decode_byte (v : jvalue) : option byte :=
  match v with
  | JNumber n => z ← parse_uint64 n; if z <=? 255 then Some (z2b z) else None
  | JNull => Some (z2b 0)
  | _ => None
  end.

Definition has_member (ms : list (bytes * jvalue)) (name : bytes) : bool := bool_decide (name ∈ ms.*1).

Definition field_names (fields : list (bytes * jtype * bool)) : list bytes := (fun f => f.1.1) <$> fields.

Abbreviation decoder := (jvalue -> gval -> option gval).

(** The members of an object stored one after the other into the fields of a
    struct, each by the decoder of its field. *)
Fixpoint store_members (names : list bytes) (decoders : list decoder) (ms : list (bytes * jvalue)) (vals : list gval) :
    option (list gval) :=
  match ms with
  | [] => Some vals
  | (key, v) :: ms =>
      i ← find_field names key;
      decode ← decoders !! i;
      old ← vals !! i;
      x ← decode v old;
      store_members names decoders ms (<[i := x]> vals)
  end.

(** A value stored where [old] is; [None] if the decoder reports an error. *)
Fixpoint go_decode (t : jtype) : decoder :=
  match t with
  | TString => fun v old => match v with JString s _ => Some (GString s) | JNull => Some old | _ => None end
  | TUint max => fun v old =>
      match v with
      | JNumber n => z ← parse_uint64 n; if z <=? max then Some (GNum z) else None
      | JNull => Some old
      | _ => None
      end
  | TInt => fun v old => match v with JNumber n => GNum <$> parse_int64 n | JNull => Some old | _ => None end
  | TBool => fun v old => match v with JBool b => Some (GBool b) | JNull => Some old | _ => None end
  | TBytes => fun v _ =>
      match v with
      | JString s _ => GBytes ∘ Some <$> StdDecodeString false s
      | JArray l _ => GBytes ∘ Some <$> mapM decode_byte l
      | JNull => Some (GBytes None)
      | _ => None
      end
  | TBase64 => fun v _ => match v with JString s _ => GBytes ∘ Some <$> decode_base64 s | _ => None end
  | TTime => fun v old => match v with JString _ raw => GTime <$> parseRFC3339 raw | JNull => Some old | _ => None end
  | TInstant => fun v _ => match v with JString s _ => GTime <$> parseCanonicalUTC s | _ => None end
  | TRaw => fun v _ => Some (GRaw (Some v))
  | TPtr t => fun v old =>
      match v with
      | JNull => Some (GPtr None)
      | _ => GPtr ∘ Some <$> go_decode t v (match old with GPtr (Some x) => x | _ => zero_value t end)
      end
  | TList t => fun v _ =>
      match v with
      | JNull => Some (GList None)
      | JArray l _ => GList ∘ Some <$> mapM (fun v => go_decode t v (zero_value t)) l
      | _ => None
      end
  | TStruct fields => fun v old =>
      match v, old with
      | JNull, _ => Some old
      | JObject ms _, GStruct vals =>
          GStruct <$> store_members (field_names fields) ((fun f => go_decode f.1.2) <$> fields) ms vals
      | _, _ => None
      end
  | TRequired names t => fun v old =>
      match v with
      | JObject ms _ => if forallb (has_member ms) names then go_decode t v (zero_value t) else None
      | _ => None
      end
  end.

(** ** Encoding *)

(** The values that [omitempty] omits. *)
Definition is_empty (g : gval) : bool :=
  match g with
  | GString s => bool_decide (s = [])
  | GNum z => z =? 0
  | GBool b => negb b
  | GBytes o => bool_decide (default [] o = [])
  | GRaw o => bool_decide (o = None)
  | GPtr o => if o then false else true
  | GList o => match o with Some (_ :: _) => false | _ => true end
  | GTime _ | GStruct _ => false
  end.

Abbreviation encoder := (gval -> option bytes).

Fixpoint marshal_fields (fields : list (bytes * encoder * bool)) (vals : list gval) : option (list (bytes * bytes)) :=
  match fields, vals with
  | [], [] => Some []
  | (name, encode, omitempty) :: fields, x :: vals =>
      rest ← marshal_fields fields vals;
      if omitempty && is_empty x then Some rest else raw ← encode x; Some ((name, raw) :: rest)
  | _, _ => None
  end.

(** [json.Marshal]; [None] for an error, which only times outside the years
    0 to 9999 have. *)
Fixpoint go_encode (t : jtype) : encoder :=
  match t with
  | TString => fun g => match g with GString s => Some (marshal_string s) | _ => None end
  | TUint _ => fun g => match g with GNum z => Some (FormatUint z) | _ => None end
  | TInt => fun g => match g with GNum z => Some (FormatInt z) | _ => None end
  | TBool => fun g => match g with GBool b => Some (marshal_bool b) | _ => None end
  | TBytes => fun g =>
      match g with
      | GBytes (Some b) => Some (marshal_string (StdEncodeToString b))
      | GBytes None => Some (lit "null")
      | _ => None
      end
  | TBase64 => fun g => match g with GBytes o => Some (marshal_string (StdEncodeToString (default [] o))) | _ => None end
  | TTime => fun g =>
      match g with
      | GTime t => if bool_decide (rfc3339_range t) then Some (marshal_string (FormatRFC3339Nano t)) else None
      | _ => None
      end
  | TInstant => fun g => match g with GTime t => Some (marshal_string (FormatRFC3339Nano t)) | _ => None end
  | TRaw => fun g => match g with GRaw o => Some (from_option raw_text (lit "null") o) | _ => None end
  | TPtr t => fun g => match g with GPtr (Some x) => go_encode t x | GPtr None => Some (lit "null") | _ => None end
  | TList t => fun g =>
      match g with
      | GList (Some l) => marshal_array <$> mapM (go_encode t) l
      | GList None => Some (lit "null")
      | _ => None
      end
  | TStruct fields => fun g =>
      match g with
      | GStruct vals => marshal_object <$> marshal_fields ((fun f => (f.1.1, go_encode f.1.2, f.2)) <$> fields) vals
      | _ => None
      end
  | TRequired _ t => go_encode t
  end.

(** ** The value behind a text *)

Definition json_text (ms : list (bytes * jvalue)) : list (bytes * bytes) := (fun m => (m.1, raw_text m.2)) <$> ms.

Fixpoint json_fields (fields : list (bytes * (gval -> jvalue) * bool)) (vals : list gval) : list (bytes * jvalue) :=
  match fields, vals with
  | (name, f, omitempty) :: fields, x :: vals =>
      (if omitempty && is_empty x then [] else [(name, f x)]) ++ json_fields fields vals
  | _, _ => []
  end.

Definition jobject (ms : list (bytes * jvalue)) : jvalue := JObject ms (marshal_object (json_text ms)).
Definition jarray (vs : list jvalue) : jvalue := JArray vs (marshal_array (raw_text <$> vs)).

(** What the decoder's parser makes of an encoded value. *)
Fixpoint json_of (t : jtype) : gval -> jvalue :=
  match t with
  | TString => fun g => match g with GString s => jstring s | _ => JNull end
  | TUint _ => fun g => match g with GNum z => JNumber (FormatUint z) | _ => JNull end
  | TInt => fun g => match g with GNum z => JNumber (FormatInt z) | _ => JNull end
  | TBool => fun g => match g with GBool b => JBool b | _ => JNull end
  | TBytes => fun g => match g with GBytes (Some b) => jstring (StdEncodeToString b) | _ => JNull end
  | TBase64 => fun g => match g with GBytes o => jstring (StdEncodeToString (default [] o)) | _ => JNull end
  | TTime | TInstant => fun g => match g with GTime t => jstring (FormatRFC3339Nano t) | _ => JNull end
  | TRaw => fun g => match g with GRaw (Some v) => v | _ => JNull end
  | TPtr t => fun g => match g with GPtr (Some x) => json_of t x | _ => JNull end
  | TList t => fun g => match g with GList (Some l) => jarray (json_of t <$> l) | _ => JNull end
  | TStruct fields => fun g =>
      match g with
      | GStruct vals => jobject (json_fields ((fun f => (f.1.1, json_of f.1.2, f.2)) <$> fields) vals)
      | _ => JNull
      end
  | TRequired _ t => json_of t
  end.

(** ** Duplicate members *)

(** [rejectDuplicateFields] of the protocol's decoders: no object of the value has two members of one
    name. *)
Fixpoint duplicateFree (v : jvalue) : bool :=
  match v with
  | JObject ms _ => bool_decide (NoDup ms.*1) && forallb (fun m => duplicateFree m.2) ms
  | JArray l _ => forallb duplicateFree l
  | _ => true
  end.

(** ** Round trips *)

(** Texts that strict decoding admits. *)
Definition clean (v : jvalue) : Prop := utf8_valid (raw_text v) = true /\ duplicateFree v = true.

(** [g] can be encoded, within [n] levels of nesting, and decoding the text
    into a zero value gives [g] back. *)
Definition roundtrips (n : nat) (t : jtype) (g : gval) : Prop :=
  go_encode t g = Some (raw_text (json_of t g)) /\
  reads_as n (raw_text (json_of t g)) (json_of t g) /\
  go_decode t (json_of t g) (zero_value t) = Some g /\
  clean (json_of t g).

Lemma clean_string s : clean (jstring s).
Proof. split; [apply marshal_string_utf8|done]. Qed.

Lemma clean_plain v : (forall ms raw, v <> JObject ms raw) -> (forall l raw, v <> JArray l raw) ->
  forallb plain (raw_text v) = true -> clean v.
Proof. intros Ho Ha Hp. split; [by apply plain_utf8|]. by destruct v; naive_solver. Qed.

Ltac roundtrip := refine (conj _ (conj _ (conj _ _))); [try done..|].

Lemma roundtrips_more n m t g : roundtrips n t g -> (n <= m)%nat -> roundtrips m t g.
Proof. intros (He & Hr & Hd & Hc) Hm. roundtrip; [by eapply reads_more|done]. Qed.

Lemma roundtrips_string n s : utf8_valid s = true -> roundtrips n TString (GString s).
Proof. intros Hs. roundtrip; [|apply clean_string]. by eapply reads_more; [apply reads_string|lia]. Qed.

Lemma roundtrips_uint n max z : 0 <= z <= max -> max <= max_uint64 -> roundtrips n (TUint max) (GNum z).
Proof.
  intros Hz Hm. assert (Hu : u64 z) by (unfold u64; lia). roundtrip.
  - by eapply reads_more; [apply reads_uint64|lia].
  - simpl. rewrite parse_uint64_marshal by done. simpl. by replace (z <=? max) with true by lia.
  - apply clean_plain; [done..|]. by apply digits_plain, FormatUint_digits.
Qed.

Lemma roundtrips_int n z : i64 z -> roundtrips n TInt (GNum z).
Proof.
  intros Hz. roundtrip; [by eapply reads_more; [apply reads_int|lia]|simpl; by rewrite parse_int64_marshal|].
  apply clean_plain; [done..|]. simpl. unfold FormatInt. destruct (z <? 0) eqn:Hneg; [|apply digits_plain, FormatUint_digits; unfold u64, i64, max_uint64, max_int64 in *; lia].
  rewrite forallb_app, (digits_plain (FormatUint _)); [done|]. apply FormatUint_digits. unfold u64, i64, max_uint64, max_int64 in *. lia.
Qed.

Lemma roundtrips_bool n b : roundtrips n TBool (GBool b).
Proof. roundtrip; [eapply reads_more; [apply reads_bool|lia]|by destruct b]. Qed.

(** Base64 text needs no escapes. *)
Lemma base64_plain src : forallb plain (StdEncodeToString src) = true.
Proof.
  assert (Hpad : forallb plain (replicate (padding (len src)) base64_pad) = true)
    by (apply forallb_forall; intros c Hc; apply list_elem_of_In, elem_of_replicate_inv in Hc; by subst).
  assert (Hall : Forall (fun m => plain (default (z2b 0) (std_alphabet !! Z.to_nat m)) = true) (seqZ 0 64))
    by (apply (bool_decide_unpack _); vm_compute; done).
  assert (Hc : forall v, plain (base64_char std_alphabet v) = true).
  { intros v. unfold base64_char. change 63 with (Z.ones 6). rewrite Z.land_ones by lia.
    rewrite Forall_forall in Hall. apply (Hall (v mod 2 ^ 6)). apply elem_of_seqZ. pose proof (Z.mod_pos_bound v (2 ^ 6)). lia. }
  unfold StdEncodeToString. rewrite forallb_app, Hpad, andb_true_r. clear Hpad. revert src.
  fix IH 1. intros [|a [|b [|c rest]]]; cbn [base64_encode forallb]; rewrite ?Hc; try done. apply IH.
Qed.

Lemma reads_plain n s : forallb plain s = true -> reads_as n (marshal_string s) (jstring s).
Proof. intros Hs. eapply reads_more; [by apply reads_string, plain_utf8|lia]. Qed.

Lemma jstring_plain s : forallb plain s = true -> jstring s = JString s s.
Proof. intros Hs. unfold jstring. by rewrite marshal_chars_plain. Qed.

Lemma roundtrips_bytes n b : roundtrips n TBytes (GBytes (Some b)).
Proof. roundtrip; [apply reads_plain, base64_plain|simpl; by rewrite std_decode_encode|apply clean_string]. Qed.

Lemma roundtrips_nil_bytes n : roundtrips n TBytes (GBytes None).
Proof. roundtrip; [eapply reads_more; [apply reads_null|lia]|done]. Qed.

Lemma roundtrips_base64 n b : roundtrips n TBase64 (GBytes (Some b)).
Proof.
  roundtrip; [apply reads_plain, base64_plain| |apply clean_string].
  simpl. unfold decode_base64. rewrite std_decode_encode. simpl. by rewrite bool_decide_true.
Qed.

Lemma digits_plain_text w z : forallb plain (digits w z) = true.
Proof. apply digits_plain, digits_ok. Qed.

Lemma time_plain t : rfc3339_range t -> forallb plain (FormatRFC3339Nano t) = true.
Proof.
  intros Ht. unfold FormatRFC3339Nano. destruct (civil_of_days _) as [[y m] d] eqn:Hc.
  assert (0 <= y <= 9999) as Hy.
  { eapply year_range; [|exact Hc]. unfold rfc3339_range, nanosecond in *. Z.to_euclidean_division_equations. lia. }
  assert (format_year y = digits 4 y) as ->.
  { unfold format_year. replace (y <? 0) with false by lia. rewrite Z.abs_eq by lia. by replace (y <? 10000) with true by lia. }
  assert (forallb plain (format_fraction (t mod nanosecond)) = true) as Hf.
  { unfold format_fraction. destruct (_ =? 0); [done|]. cbn [app forallb]. change (plain (chr 46)) with true. cbn [andb].
    pose proof (digits_plain_text 9 (t mod nanosecond)) as Hd.
    destruct (trim_zeros_split (digits 9 (t mod nanosecond))) as [k Hk]. rewrite Hk, forallb_app in Hd.
    by apply andb_true_iff in Hd as [? _]. }
  rewrite !forallb_app, !digits_plain_text, Hf. done.
Qed.

Lemma roundtrips_time n t : rfc3339_range t -> roundtrips n TTime (GTime t).
Proof.
  intros Ht. pose proof (time_plain t Ht) as Hp.
  roundtrip; [simpl; by rewrite bool_decide_true|by apply reads_plain| |apply clean_string].
  cbn [json_of]. rewrite jstring_plain by done. simpl. by rewrite parse_format_time.
Qed.

Lemma roundtrips_instant n t : rfc3339_range t -> roundtrips n TInstant (GTime t).
Proof.
  intros Ht. pose proof (time_plain t Ht) as Hp. roundtrip; [by apply reads_plain| |apply clean_string].
  simpl. by rewrite parse_canonical_format.
Qed.

Lemma roundtrips_raw n v : reads_as n (raw_text v) v -> clean v -> roundtrips n TRaw (GRaw (Some v)).
Proof. done. Qed.

Lemma roundtrips_nil n t : roundtrips n (TPtr t) (GPtr None).
Proof. roundtrip; [eapply reads_more; [apply reads_null|lia]|done]. Qed.

Lemma roundtrips_nil_list n t : roundtrips n (TList t) (GList None).
Proof. roundtrip; [eapply reads_more; [apply reads_null|lia]|done]. Qed.

(** A pointer to a value that is not written as [null]. *)
Lemma roundtrips_ptr n t g : json_of t g <> JNull -> roundtrips n t g -> roundtrips n (TPtr t) (GPtr (Some g)).
Proof.
  intros Hnull (He & Hr & Hd & Hc). roundtrip; [|done]. simpl. destruct (json_of t g); [done|..]; by rewrite Hd.
Qed.

Lemma roundtrips_list n t l : Forall (roundtrips n t) l -> roundtrips (S n) (TList t) (GList (Some l)).
Proof.
  intros Hl. assert (mapM (go_encode t) l = Some (raw_text <$> (json_of t <$> l)) /\
    Forall2 (reads_as n) (raw_text <$> (json_of t <$> l)) (json_of t <$> l) /\
    mapM (fun v => go_decode t v (zero_value t)) (json_of t <$> l) = Some l) as (He & Hr & Hd).
  { induction Hl as [|g l (He & Hr & Hd & _) _ (IHe & IHr & IHd)]; [done|]. rewrite !fmap_cons. cbn [mapM].
    rewrite He, IHe, Hd, IHd. split_and!; [done|by constructor|done]. }
  roundtrip.
  - cbn [go_encode json_of jarray raw_text]. by rewrite He.
  - by apply reads_array.
  - cbn [go_decode json_of jarray]. by rewrite Hd.
  - split.
    + apply marshal_array_utf8. rewrite !Forall_fmap. eapply Forall_impl; [exact Hl|]. intros g Hg. apply Hg.
    + cbn [json_of jarray duplicateFree]. rewrite Forall_forall in Hl. apply forallb_forall. intros v Hv.
      apply list_elem_of_In, list_elem_of_fmap in Hv as (g & -> & Hg). by apply (Hl g Hg).
Qed.

(** *** Structs *)

(** Names of struct fields: plain and distinct. *)
Definition names_ok (fields : list (bytes * jtype * bool)) : Prop :=
  NoDup (field_names fields) /\ Forall (fun name => forallb plain name = true) (field_names fields).

Global Instance names_ok_dec fields : Decision (names_ok fields).
Proof. unfold names_ok. apply _. Defined.

(** A field that is omitted has the zero value; any other one is encoded. *)
Definition field_roundtrips (n : nat) (f : bytes * jtype * bool) (x : gval) : Prop :=
  if f.2 && is_empty x then x = zero_value f.1.2 else roundtrips n f.1.2 x.

Lemma find_field_exact names i name : NoDup names -> names !! i = Some name -> find_field names name = Some i.
Proof.
  intros Hnd Hi. unfold find_field.
  destruct (list_find (fun n => n = name) names) as [[j x]|] eqn:Hf.
  - apply list_find_Some in Hf as (Hj & -> & _). f_equal. by eapply NoDup_lookup.
  - exfalso. apply list_find_None in Hf. rewrite Forall_lookup in Hf. by eapply Hf.
Qed.

Definition field_decoders (fields : list (bytes * jtype * bool)) : list decoder := (fun f => go_decode f.1.2) <$> fields.
Definition field_zeros (fields : list (bytes * jtype * bool)) : list gval := (fun f => zero_value f.1.2) <$> fields.
Definition field_values (fields : list (bytes * jtype * bool)) (vals : list gval) : list (bytes * jvalue) :=
  json_fields ((fun f => (f.1.1, json_of f.1.2, f.2)) <$> fields) vals.

Section structs.
Variable n : nat.
Variable fields : list (bytes * jtype * bool).
Hypothesis names_fine : names_ok fields.

Lemma fields_roundtrip pre suf before vals :
  fields = pre ++ suf -> length before = length pre -> Forall2 (field_roundtrips n) suf vals ->
  let ms := field_values suf vals in
  marshal_fields ((fun f => (f.1.1, go_encode f.1.2, f.2)) <$> suf) vals = Some (json_text ms) /\
  Forall2 (reads_member n) (json_text ms) ms /\
  store_members (field_names fields) (field_decoders fields) ms (before ++ field_zeros suf) = Some (before ++ vals).
Proof.
  intros Hsplit Hlen Hvals. revert pre before Hsplit Hlen.
  induction Hvals as [|[[name t] omit] x suf vals Hf Hvals IH]; intros pre before Hsplit Hlen.
  { split_and!; try done. }
  destruct (IH (pre ++ [(name, t, omit)]) (before ++ [x])) as (He & Hr & Hs).
  { by rewrite <- app_assoc. } { rewrite !length_app. simpl. lia. }
  rewrite <- !app_assoc in Hs. cbn [app] in Hs. unfold field_roundtrips in Hf. simpl in Hf.
  unfold field_values in *. rewrite !fmap_cons. cbn [marshal_fields json_fields fst snd]. rewrite He. cbn [mbind option_bind].
  destruct (omit && is_empty x) eqn:Homit; [by subst x|].
  destruct Hf as (Henc & Hread & Hdec & _). rewrite Henc. cbn [mbind option_bind app].
  assert (field_names fields !! length pre = Some name) as Hname.
  { unfold field_names. rewrite Hsplit, fmap_app, lookup_app_r, length_fmap, Nat.sub_diag by (rewrite length_fmap; done). done. }
  split_and!; [done| |].
  - constructor; [|done]. split_and!; try done. simpl.
    destruct names_fine as [_ Hplain]. rewrite Forall_lookup in Hplain. by eapply Hplain.
  - cbn [store_members]. rewrite (find_field_exact _ (length pre)) by (done || apply names_fine). cbn [mbind option_bind].
    assert (field_decoders fields !! length pre = Some (go_decode t)) as ->.
    { unfold field_decoders. rewrite Hsplit, fmap_app, lookup_app_r, length_fmap, Nat.sub_diag by (rewrite length_fmap; done). done. }
    cbn [mbind option_bind]. rewrite lookup_app_r, <- Hlen, Nat.sub_diag by lia.
    change (field_zeros ((name, t, omit) :: suf)) with (zero_value t :: field_zeros suf).
    cbn [lookup list_lookup mbind option_bind]. rewrite Hdec. cbn [mbind option_bind].
    rewrite insert_app_r_alt, Nat.sub_diag by lia. cbn [insert list_insert]. exact Hs.
Qed.

Lemma field_values_sublist suf vals : (field_values suf vals).*1 `sublist_of` field_names suf.
Proof.
  unfold field_values, field_names. revert vals. induction suf as [|[[name t] omit] suf IH]; intros [|x vals]; try done.
  { apply sublist_nil_l. }
  rewrite !fmap_cons. cbn [json_fields fst snd]. rewrite fmap_app.
  destruct (omit && is_empty x); cbn [fmap list_fmap app fst]; [apply sublist_cons|apply sublist_skip]; apply IH.
Qed.

Lemma field_values_clean suf vals : Forall2 (field_roundtrips n) suf vals -> Forall (fun m => clean m.2) (field_values suf vals).
Proof.
  unfold field_values. induction 1 as [|[[name t] omit] x suf vals Hf Hvals IH]; [constructor|].
  rewrite !fmap_cons. cbn [json_fields fst snd]. unfold field_roundtrips in Hf. simpl in Hf.
  destruct (omit && is_empty x); [done|]. constructor; [apply Hf|done].
Qed.

Lemma roundtrips_struct vals : Forall2 (field_roundtrips n) fields vals ->
  roundtrips (S n) (TStruct fields) (GStruct vals).
Proof.
  intros Hvals. destruct (fields_roundtrip [] fields [] vals eq_refl eq_refl Hvals) as (He & Hr & Hs).
  pose proof (field_values_clean _ _ Hvals) as Hc. pose proof (field_values_sublist fields vals) as Hsub.
  unfold field_values in *. roundtrip.
  - cbn [go_encode json_of jobject raw_text]. by rewrite He.
  - cbn [json_of]. destruct (json_fields _ _) as [|m ms]; [eapply reads_more; [apply reads_empty_object|lia]|].
    by apply reads_object.
  - cbn [go_decode json_of jobject zero_value]. cbn [app] in Hs. unfold field_decoders, field_zeros in Hs. by rewrite Hs.
  - cbn [json_of]. set (ms := json_fields _ _) in *. split.
    + apply marshal_object_utf8. unfold json_text. rewrite Forall_fmap. eapply Forall_impl; [exact Hc|]. intros m Hm. apply Hm.
    + cbn [jobject duplicateFree]. rewrite bool_decide_true by (eapply sublist_NoDup; [apply names_fine|exact Hsub]). simpl.
      rewrite Forall_forall in Hc. apply forallb_forall. intros m Hm. apply list_elem_of_In in Hm. apply (Hc m Hm).
Qed.
End structs.
