(* ===== verification/Manifest.v ===== *)
(** * The manifest (internal/persist/manifest.go)

    CURRENT names the snapshot and the log that make up the database.  It is a
    frame around canonical JSON.  The codec is exact: [DecodeManifest] accepts
    the encodings of the valid manifests of the database and nothing else.
    [InstallManifest] replaces the file atomically and moves the generation
    forward by one.  The texts of the errors of [encoding/json] and
    [encoding/hex], which appear only as causes, are not modelled, and
    [bytes.ToLower] is modelled on ASCII. *)

From stdpp Require Import base gmap list strings.
From Stdlib Require Import ZArith Lia.
From S2P Require Import Prelude.
From S2P Require Import Bytes.
From S2P Require Import Errors.
From S2P Require Import Checksum.
From S2P Require Import ApiTypes.
From S2P Require Import FaultFS.
From S2P Require Import StorageErrors.
From S2P Require Import WalScan.
From S2P Require Import WalLog.
From S2P Require Import Storage.
From S2P Require Import Json.

Local Open Scope Z_scope.
Local Open Scope go_scope.
Local Open Scope fsio_scope.

Definition ManifestFilename : string := "CURRENT".
Definition manifestHeaderLen : Z := 16.
Definition manifestTrailer : Z := 4.
Definition maxManifestJSON : Z := 4096.

Record Manifest := MkManifest {
  MfDatabaseID : DatabaseID;
  MfGeneration : Z;
  MfSnapshotFile : string;
  MfSnapshotRevision : Revision;
  MfSnapshotSHA256 : bytes;
  MfWALFile : string;
  MfWALStartRevision : Revision
}.

Record manifestJSON := MkManifestJSON {
  mj_database_id : bytes;
  mj_generation : Z;
  mj_snapshot_file : bytes;
  mj_snapshot_revision : Z;
  mj_snapshot_sha256 : bytes;
  mj_wal_file : bytes;
  mj_wal_start_revision : Z
}.

Definition corruptManifest (reason : string) (cause : error) : goerror :=
  ErrGap (withCause cause
    (newError CodeCorruptManifest "Manifest is corrupt." RetryAfterOperator
      [EvReason reason; EvFile ManifestFilename]
      [ActionInspectOffline; ActionRecoverPropose; ActionRestoreBackup; ActionAbort])).

Definition is_lower (s : bytes) : bool := bool_decide ((lower <$> s) = s).

Definition ParseDatabaseID (value : bytes) : result goerror DatabaseID :=
  reject negb (len value =? 32) || negb (is_lower value)
    with ErrText "database ID must be 32 lowercase hexadecimal characters" ;;
  match hex_DecodeString value with
  | Some decoded => Ok decoded
  | None => Err (ErrText "database ID: encoding/hex: invalid byte")
  end.

Definition validateManifest (m : Manifest) (minimumGeneration : Z) (allowZeroGeneration : bool) : error :=
  if DatabaseID_IsZero (MfDatabaseID m) then Some (corruptManifest "database ID is zero" None)
  else if (negb allowZeroGeneration && (MfGeneration m =? 0)) || (MfGeneration m <? minimumGeneration)
  then Some (corruptManifest "generation is zero or regressed" None)
  else if (MfSnapshotRevision m =? max_uint64)
          || negb (MfWALStartRevision m =? wrap_u64 (MfSnapshotRevision m + 1))
  then Some (corruptManifest "WAL start revision must immediately follow the snapshot" None)
  else if negb (bool_decide (MfSnapshotFile m = snapshotFileName (MfSnapshotRevision m)))
          || negb (bool_decide (filepath_Base (MfSnapshotFile m) = MfSnapshotFile m))
  then Some (corruptManifest "snapshot file is not the canonical base name" None)
  else if negb (bool_decide (MfWALFile m = walFileName (MfWALStartRevision m)))
          || negb (bool_decide (filepath_Base (MfWALFile m) = MfWALFile m))
  then Some (corruptManifest "WAL file is not the canonical base name" None)
  else if negb (len (MfSnapshotSHA256 m) =? 64) || negb (is_lower (MfSnapshotSHA256 m))
  then Some (corruptManifest "snapshot SHA-256 must be 64 lowercase hexadecimal characters" None)
  else match hex_DecodeString (MfSnapshotSHA256 m) with
  | None => Some (corruptManifest "snapshot SHA-256 is not hexadecimal" (Some (ErrText "encoding/hex: invalid byte")))
  | Some _ => None
  end.

(** ** The payload *)

Definition manifestNames : list bytes :=
  lit <$> ["database_id"; "generation"; "snapshot_file"; "snapshot_revision"; "snapshot_sha256";
           "wal_file"; "wal_start_revision"].

Definition manifestValues (w : manifestJSON) : list bytes :=
  [marshal_string (mj_database_id w); FormatUint (mj_generation w); marshal_string (mj_snapshot_file w);
   FormatUint (mj_snapshot_revision w); marshal_string (mj_snapshot_sha256 w);
   marshal_string (mj_wal_file w); FormatUint (mj_wal_start_revision w)].

(** [json.Marshal(wire)]. *)
Definition marshalManifest (w : manifestJSON) : bytes := marshal_object (zip manifestNames (manifestValues w)).

(** One member of the object stored into the struct; [None] is an error, also
    for a field that the struct does not have. *)
Definition storeManifest (w : manifestJSON) (member : bytes * jvalue) : option manifestJSON :=
  let '(key, v) := member in
  let '(MkManifestJSON id gen file rev sha wal start) := w in
  match find_field manifestNames key with
  | Some 0%nat => (fun x => MkManifestJSON x gen file rev sha wal start) <$> store_string v id
  | Some 1%nat => (fun x => MkManifestJSON id x file rev sha wal start) <$> store_uint64 v gen
  | Some 2%nat => (fun x => MkManifestJSON id gen x rev sha wal start) <$> store_string v file
  | Some 3%nat => (fun x => MkManifestJSON id gen file x sha wal start) <$> store_uint64 v rev
  | Some 4%nat => (fun x => MkManifestJSON id gen file rev x wal start) <$> store_string v sha
  | Some 5%nat => (fun x => MkManifestJSON id gen file rev sha x start) <$> store_string v wal
  | Some 6%nat => (fun x => MkManifestJSON id gen file rev sha wal x) <$> store_uint64 v start
  | _ => None
  end.

Definition zeroManifestJSON : manifestJSON := MkManifestJSON [] 0 [] 0 [] [] 0.

Fixpoint storeMembers (w : manifestJSON) (ms : list (bytes * jvalue)) : option manifestJSON :=
  match ms with
  | [] => Some w
  | m :: ms => w' ← storeManifest w m; storeMembers w' ms
  end.

(** [decoder.Decode(&wire)]: the struct and the rest of the input. *)
Definition decodeManifestJSON (payload : bytes) : option (manifestJSON * bytes) :=
  '(v, rest) ← json_decode payload;
  match v with
  | JNull => Some (zeroManifestJSON, rest)
  | JObject ms _ => w ← storeMembers zeroManifestJSON ms; Some (w, rest)
  | _ => None
  end.

(** ** The codec *)

Definition manifestWire (m : Manifest) : manifestJSON :=
  MkManifestJSON (DatabaseID_String (MfDatabaseID m)) (MfGeneration m) (lit (MfSnapshotFile m))
    (MfSnapshotRevision m) (MfSnapshotSHA256 m) (lit (MfWALFile m)) (MfWALStartRevision m).

Definition manifestBody (payload : bytes) : bytes :=
  lit "GAPCUR01" ++ be_encode 2 storageVersion ++ zeros 2 ++ be_encode 4 (len payload) ++ payload.

Definition EncodeManifest (m : Manifest) : result goerror bytes :=
  check validateManifest m 0 false ;;
  let payload := marshalManifest (manifestWire m) in
  reject maxManifestJSON <? len payload with corruptManifest "JSON payload exceeds the format bound" None ;;
  Ok (manifestBody payload ++ be_encode 4 (crc32c (manifestBody payload))).

Definition DecodeManifest (encoded : bytes) (expectedID : DatabaseID) (minimumGeneration : Z)
    : result goerror Manifest :=
  reject len encoded <? manifestHeaderLen + manifestTrailer
    with corruptManifest "frame is shorter than the fixed header and trailer" None ;;
  reject negb (bool_decide (slice encoded 0 8 = lit "GAPCUR01"))
    with corruptManifest "magic does not match GAPCUR01" None ;;
  let version := be_decode (slice encoded 8 10) in
  reject negb (version =? storageVersion) with unknownStorageFormat ManifestFilename version ;;
  reject negb (be_decode (slice encoded 10 12) =? 0) with corruptManifest "flags are nonzero" None ;;
  let payloadLength := be_decode (slice encoded 12 16) in
  reject (maxManifestJSON <? payloadLength)
         || negb (payloadLength + manifestHeaderLen + manifestTrailer =? len encoded)
    with corruptManifest "payload length does not match the frame" None ;;
  reject negb (crc32c (slice encoded 0 (len encoded - 4)) =? be_decode (slice encoded (len encoded - 4) (len encoded)))
    with corruptManifest "CRC32C mismatch" None ;;
  let payload := slice encoded 16 (len encoded - 4) in
  match decodeManifestJSON payload with
  | None => Err (corruptManifest "JSON payload is invalid" (Some (ErrText "json")))
  | Some (wire, rest) =>
      reject negb (bool_decide (skip_space rest = []))
        with corruptManifest "JSON payload has trailing content" None ;;
      reject negb (bool_decide (marshalManifest wire = payload))
        with corruptManifest "JSON payload is not canonical field-ordered JSON" None ;;
      match ParseDatabaseID (mj_database_id wire) with
      | Err e => Err (corruptManifest "database ID is invalid" (Some e))
      | Ok id =>
          let m := MkManifest id (mj_generation wire) (String.string_of_list_byte (mj_snapshot_file wire))
                     (mj_snapshot_revision wire) (mj_snapshot_sha256 wire)
                     (String.string_of_list_byte (mj_wal_file wire)) (mj_wal_start_revision wire) in
          reject negb (bool_decide (id = expectedID)) with databaseIDMismatch expectedID id ManifestFilename ;;
          check validateManifest m minimumGeneration false ;;
          Ok m
      end
  end.

(** ** The file *)

Section files.
Context {E : Type} `{OSEnv E}.

Definition ReadManifest (expectedID : DatabaseID) (minimumGeneration : Z) : fsio E Manifest :=
  let? file := fs_value (ioFailure "open" ManifestFilename)
                 (OpenFile PointOpen ManifestFilename (MkFlags false false)) in
  fs_defer (file_Close file)
    (let? reader := readFile file in
     match ReadAllLimited (manifestHeaderLen + maxManifestJSON + manifestTrailer + 1) reader with
     | Err e => fs_throw (ioFailure "read" ManifestFilename e)
     | Ok encoded =>
         if manifestHeaderLen + maxManifestJSON + manifestTrailer <? len encoded
         then fs_throw (corruptManifest "frame exceeds the format bound" None)
         else fs_lift (DecodeManifest encoded expectedID minimumGeneration)
     end).

Definition manifestPlan : InstallPlan :=
  MkInstallPlan ManifestFilename ("manifest.temp_create", "manifest_temp_create") "manifest_temp_write"
    ("manifest.temp_sync", "manifest_temp_sync") "manifest_temp_close"
    ("manifest.rename", "manifest_rename") ("manifest.directory_sync", "manifest_directory_sync").

Definition InstallManifest (m : Manifest) (previousGeneration : Z) (randomness : Reader) (s : FSState E)
    : result goerror unit * Reader * FSState E :=
  if (previousGeneration =? max_uint64) || negb (MfGeneration m =? wrap_u64 (previousGeneration + 1))
  then (Err (corruptManifest "generation must advance exactly once" None), randomness, s)
  else match validateManifest m (MfGeneration m) false with
  | Some e => (Err e, randomness, s)
  | None =>
      match EncodeManifest m with
      | Err e => (Err e, randomness, s)
      | Ok encoded =>
          replaceFile manifestPlan "generate_temp_name" ManifestFilename (writeAll "manifest.temp_write" encoded)
            randomness s
      end
  end.
End files.

(** ** The codec is exact *)

Definition manifest_wf (m : Manifest) : Prop :=
  length (MfDatabaseID m) = 16%nat /\ u64 (MfGeneration m) /\ u64 (MfSnapshotRevision m) /\ u64 (MfWALStartRevision m).

(** *** Hexadecimal *)

Lemma hex_digit_value z : 0 <= z < 16 -> hex_value (hex_digit z) = Some z /\ plain (hex_digit z) = true /\
  lower (hex_digit z) = hex_digit z.
Proof.
  intros Hz. assert (z = 0 \/ z = 1 \/ z = 2 \/ z = 3 \/ z = 4 \/ z = 5 \/ z = 6 \/ z = 7 \/ z = 8 \/ z = 9 \/ z = 10
    \/ z = 11 \/ z = 12 \/ z = 13 \/ z = 14 \/ z = 15) as Hc by lia.
  destruct_or! Hc; subst z; by vm_compute.
Qed.

Lemma hex_value_digit b z : hex_value b = Some z -> lower b = b -> hex_digit z = b /\ 0 <= z < 16 /\ plain b = true.
Proof.
  intros Hv Hl. unfold hex_value in Hv. unfold hex_digit, plain, in_range, lower, in_range in *.
  destruct (_ && _) eqn:H1 in Hv; [|destruct (_ && _) eqn:H2 in Hv; [|destruct (_ && _) eqn:H3 in Hv; [|done]]];
    injection Hv as <-.
  - replace (b2z b - 48 <? 10) with true by lia. rewrite Z.add_sub_assoc, Z.add_simpl_l, z2b_b2z. split_and!; lia || done.
  - replace (b2z b - 87 <? 10) with false by lia. rewrite Z.add_sub_assoc, Z.add_simpl_l, z2b_b2z. split_and!; lia || done.
  - replace ((65 <=? b2z b) && (b2z b <=? 90)) with true in Hl by lia. apply (f_equal b2z) in Hl.
    rewrite b2z_z2b, Z.mod_small in Hl by lia. lia.
Qed.

Lemma hex_Decode_Encode l : hex_DecodeString (hex_EncodeToString l) = Some l /\
  forallb plain (hex_EncodeToString l) = true /\ is_lower (hex_EncodeToString l) = true /\
  len (hex_EncodeToString l) = 2 * len l.
Proof.
  unfold is_lower. rewrite bool_decide_eq_true. induction l as [|b l (IH1 & IH2 & IH3 & IH4)]; [done|].
  unfold hex_EncodeToString in *. rewrite bind_cons. cbn [app hex_DecodeString forallb].
  pose proof (b2z_range b). pose proof (Z.div_mod (b2z b) 16 ltac:(done)).
  destruct (hex_digit_value (b2z b / 16)) as (-> & Hp1 & Hl1).
  { split; [apply Z.div_pos; lia|apply Z.div_lt_upper_bound; lia]. }
  destruct (hex_digit_value (b2z b mod 16)) as (-> & Hp2 & Hl2); [apply Z.mod_pos_bound; lia|].
  rewrite IH1, IH2, Hp1, Hp2, !fmap_cons, Hl1, Hl2, IH3, !len_cons, IH4. simpl.
  replace (16 * (b2z b / 16) + b2z b mod 16) with (b2z b) by lia. rewrite z2b_b2z.
  split_and!; try done. lia.
Qed.

Lemma hex_Encode_Decode s l : hex_DecodeString s = Some l -> is_lower s = true ->
  hex_EncodeToString l = s /\ forallb plain s = true.
Proof.
  unfold is_lower. rewrite bool_decide_eq_true. revert l. assert (forall n, (length s <= n)%nat -> forall l,
    hex_DecodeString s = Some l -> (lower <$> s) = s -> hex_EncodeToString l = s /\ forallb plain s = true); [|by eauto].
  intros n. revert s. induction n as [|n IH]; intros [|a [|b s]] Hlen l; try done; cbn [hex_DecodeString length] in *;
    try lia; [by intros [= <-]|by intros [= <-]|].
  destruct (hex_value a) as [x|] eqn:Ha; [|done]. destruct (hex_value b) as [y|] eqn:Hb; [|done].
  destruct (hex_DecodeString s) as [r|] eqn:Hs; [|done]. rewrite !fmap_cons. intros [= <-] [= Hla Hlb Hls].
  destruct (IH s ltac:(lia) r Hs Hls) as [<- Hplain].
  destruct (hex_value_digit _ _ Ha Hla) as (<- & Hx & Hpa). destruct (hex_value_digit _ _ Hb Hlb) as (<- & Hy & Hpb).
  unfold hex_EncodeToString. rewrite bind_cons. cbn [app forallb]. rewrite b2z_z2b, Z.mod_small by lia.
  replace (16 * x + y) with (y + x * 16) by lia. rewrite Z.div_add, Z.div_small, Z.mod_add, Z.mod_small by lia.
  unfold hex_EncodeToString in *. rewrite Hpa, Hpb. done.
Qed.

Lemma ParseDatabaseID_String id : length id = 16%nat -> ParseDatabaseID (DatabaseID_String id) = Ok id.
Proof.
  intros Hid. unfold ParseDatabaseID, DatabaseID_String. destruct (hex_Decode_Encode id) as (-> & _ & -> & Hl).
  unfold len in Hl at 2. rewrite Hid in Hl. by rewrite Hl.
Qed.

Lemma DatabaseID_String_Parse v id : ParseDatabaseID v = Ok id -> DatabaseID_String id = v /\ length id = 16%nat.
Proof.
  unfold ParseDatabaseID. destruct (len v =? 32) eqn:Hlen; [|done]. destruct (is_lower v) eqn:Hlow; [|done]. simpl.
  destruct (hex_DecodeString v) as [l|] eqn:Hd; [|done]. intros [= <-].
  destruct (hex_Encode_Decode _ _ Hd Hlow) as [He _]. split; [done|].
  destruct (hex_Decode_Encode l) as (_ & _ & _ & Hl). rewrite He in Hl. unfold len in *. lia.
Qed.

(** *** The payload *)

Definition wire_u64 (w : manifestJSON) : Prop :=
  u64 (mj_generation w) /\ u64 (mj_snapshot_revision w) /\ u64 (mj_wal_start_revision w).

Definition wire_plain (w : manifestJSON) : Prop :=
  forallb plain (mj_database_id w) = true /\ forallb plain (mj_snapshot_file w) = true /\
  forallb plain (mj_snapshot_sha256 w) = true /\ forallb plain (mj_wal_file w) = true.

Lemma digits_value_nonneg l : forallb is_digit l = true -> 0 <= digits_value l.
Proof.
  unfold digits_value. assert (forall n, 0 <= n -> forallb is_digit l = true ->
    0 <= foldl (fun n b => 10 * n + (b2z b - 48)) n l) as Hg; [|by apply Hg].
  induction l as [|b l IH]; intros n Hn; [done|]. cbn [forallb foldl]. intros [Hb Hl]%andb_true_iff.
  apply IH; [|done]. unfold is_digit, in_range in Hb. lia.
Qed.

Lemma store_uint64_u64 v old z : u64 old -> store_uint64 v old = Some z -> u64 z.
Proof.
  intros Hold. destruct v; simpl; try done; [by intros [= <-]|]. unfold parse_uint64.
  destruct (bool_decide _); [done|]. destruct (forallb is_digit literal) eqn:Hd; [|done].
  destruct (max_uint64 <? _) eqn:Hm; [done|]. intros [= <-]. pose proof (digits_value_nonneg _ Hd). unfold u64. lia.
Qed.

Lemma storeManifest_u64 w m w' : wire_u64 w -> storeManifest w m = Some w' -> wire_u64 w'.
Proof.
  destruct m as [key v], w as [id gen file rev sha wal start]. intros (Hg & Hr & Hs) Hst. unfold storeManifest in Hst.
  destruct (find_field manifestNames key) as [n|]; [|done].
  do 7 (destruct n as [|n]; [apply fmap_Some in Hst as (x & Hx & ->);
    try eapply store_uint64_u64 in Hx; try done; by split_and!|]). done.
Qed.

Lemma decodeManifestJSON_u64 payload w rest : decodeManifestJSON payload = Some (w, rest) -> wire_u64 w.
Proof.
  assert (wire_u64 zeroManifestJSON) as Hz by (vm_compute; split_and!; congruence).
  assert (forall ms w0, wire_u64 w0 -> storeMembers w0 ms = Some w -> wire_u64 w) as Hms.
  { induction ms as [|m ms IH]; intros w0 Hw0; simpl; [by intros [= <-]|].
    destruct (storeManifest w0 m) as [w1|] eqn:Hm; [|done]. simpl. apply IH. by eapply storeManifest_u64. }
  unfold decodeManifestJSON. destruct (json_decode payload) as [[v r]|]; [|done]. simpl. destruct v; try done.
  - by intros [= <- <-].
  - destruct (storeMembers _ _) as [w0|] eqn:Hm; [|done]. simpl. intros [= <- <-]. by eapply Hms.
Qed.

Local Ltac store_field name k :=
  change (find_field manifestNames (lit name)) with (Some k);
  cbn -[lit FormatUint find_field manifestNames];
  try (rewrite parse_uint64_marshal by done; cbn -[lit FormatUint find_field manifestNames]).

Lemma decodeManifestJSON_marshal w : wire_plain w -> wire_u64 w ->
  decodeManifestJSON (marshalManifest w) = Some (w, []).
Proof.
  intros (Hid & Hfile & Hsha & Hwal) (Hgen & Hrev & Hstart). unfold decodeManifestJSON, marshalManifest.
  rewrite (json_decode_object _ (zip manifestNames
    [jstring (mj_database_id w); JNumber (FormatUint (mj_generation w)); jstring (mj_snapshot_file w);
     JNumber (FormatUint (mj_snapshot_revision w)); jstring (mj_snapshot_sha256 w);
     jstring (mj_wal_file w); JNumber (FormatUint (mj_wal_start_revision w))])).
  - cbn -[storeManifest lit FormatUint zeroManifestJSON]. destruct w as [id gen file rev sha wal start].
    unfold storeManifest, zeroManifestJSON. cbn [mj_database_id mj_generation mj_snapshot_file mj_snapshot_revision
      mj_snapshot_sha256 mj_wal_file mj_wal_start_revision] in *.
    store_field "database_id" 0%nat. store_field "generation" 1%nat. store_field "snapshot_file" 2%nat.
    store_field "snapshot_revision" 3%nat. store_field "snapshot_sha256" 4%nat. store_field "wal_file" 5%nat.
    by store_field "wal_start_revision" 6%nat.
  - repeat constructor; simpl; try done; by apply reads_string, plain_utf8 || by apply reads_uint64.
  - done.
Qed.

(** *** File names *)

Lemma padRevision_spec rev : u64 rev -> length (padRevision rev) = 20%nat /\ forallb is_digit (padRevision rev) = true /\
  digits_value (padRevision rev) = rev.
Proof.
  intros Hrev. destruct (FormatUint_head rev Hrev) as (d & tl & Heq & _ & _ & Hl). unfold padRevision.
  pose proof (FormatUint_digits rev Hrev) as Hd. pose proof (digits_value_marshal rev Hrev) as Hv. split_and!.
  - rewrite length_app, length_replicate, Heq. simpl. lia.
  - rewrite forallb_app, Hd. by induction (20 - _)%nat.
  - unfold digits_value in *. rewrite foldl_app.
    assert (forall n, foldl (fun n b => 10 * n + (b2z b - 48)) 0 (replicate n (z2b 48)) = 0) as ->; [|done].
    by induction n.
Qed.

Lemma name_plain pre rev : u64 rev -> forallb plain (lit pre) = true ->
  forallb plain (lit (String.string_of_list_byte (lit pre ++ padRevision rev ++ lit ".gdb"))) = true.
Proof.
  intros Hrev Hpre. unfold lit at 1. rewrite String.list_byte_of_string_of_list_byte, !forallb_app, Hpre.
  destruct (padRevision_spec rev Hrev) as (_ & Hd & _). by rewrite (digits_plain _ Hd).
Qed.

(** *** The frame *)

Lemma validateManifest_None m min : validateManifest m min false = None -> 
  min <= MfGeneration m /\ 0 <> MfGeneration m /\ MfSnapshotRevision m <> max_uint64 /\
  MfWALStartRevision m = wrap_u64 (MfSnapshotRevision m + 1) /\
  MfSnapshotFile m = snapshotFileName (MfSnapshotRevision m) /\ MfWALFile m = walFileName (MfWALStartRevision m) /\
  len (MfSnapshotSHA256 m) = 64 /\ forallb plain (MfSnapshotSHA256 m) = true.
Proof.
  unfold validateManifest. intros Hv.
  repeat match type of Hv with (if ?c then _ else _) = _ => destruct c eqn:?; [discriminate Hv|] end.
  destruct (hex_DecodeString _) as [l|] eqn:Hd; [|discriminate Hv]. go_bool.
  destruct (hex_Encode_Decode _ _ Hd) as [_ Hp]; [done|]. rewrite ?Z.eqb_eq, ?Z.eqb_neq, ?bool_decide_eq_true in *.
  split_and!; try done; lia.
Qed.

Lemma validateManifest_min m min min' : min' <= MfGeneration m ->
  validateManifest m min false = None -> validateManifest m min' false = None.
Proof.
  intros Hmin Hv. destruct (validateManifest_None _ _ Hv) as (Hg & _). unfold validateManifest in *.
  replace (MfGeneration m <? min) with false in Hv by lia. by replace (MfGeneration m <? min') with false by lia.
Qed.

Lemma manifestWire_ok m min : manifest_wf m -> validateManifest m min false = None ->
  wire_plain (manifestWire m) /\ wire_u64 (manifestWire m).
Proof.
  intros (Hid & Hgen & Hrev & Hstart) (_ & _ & _ & _ & Hfile & Hwal & _ & Hsha)%validateManifest_None.
  unfold wire_plain, wire_u64. simpl. rewrite Hfile, Hwal. split_and!; try done.
  - apply hex_Decode_Encode.
  - by apply name_plain.
  - by apply name_plain.
Qed.

Lemma len_manifestBody payload : len (manifestBody payload) = 16 + len payload.
Proof. unfold manifestBody. rewrite !len_app, !len_be_encode, len_zeros. change (len (lit "GAPCUR01")) with 8. lia. Qed.

Lemma DecodeManifest_encode m encoded min : manifest_wf m -> EncodeManifest m = Ok encoded -> min <= MfGeneration m ->
  DecodeManifest encoded (MfDatabaseID m) min = Ok m.
Proof.
  intros Hwf Henc Hmin. unfold EncodeManifest in Henc. destruct (validateManifest m 0 false) eqn:Hv; [done|].
  destruct (manifestWire_ok m 0 Hwf Hv) as [Hplain Hu64]. cbv zeta in Henc.
  set (payload := marshalManifest (manifestWire m)) in *. destruct (_ <? _) eqn:Hmax; [done|].
  assert (encoded = manifestBody payload ++ be_encode 4 (crc32c (manifestBody payload))) as -> by congruence.
  clear Henc. unfold maxManifestJSON in *. pose proof (len_manifestBody payload) as Hbody.
  set (body := manifestBody payload) in *. set (crc := be_encode 4 (crc32c body)).
  assert (len (body ++ crc) = 20 + len payload) as Hlen by (unfold crc; rewrite len_app, len_be_encode; lia).
  assert (0 <= len payload) as Hpos by (unfold len; lia).
  unfold DecodeManifest. rewrite Hlen. unfold manifestHeaderLen, manifestTrailer, maxManifestJSON. pass by lia.
  replace (20 + len payload - 4) with (len body) by lia.
  rewrite (slice_app_r body crc (len body) (20 + len payload)), (slice_prefix (len body) body crc (len body)) by lia.
  rewrite Z.sub_diag, (slice_full' crc) by (unfold crc; rewrite len_be_encode; lia).
  pose proof (fun a b Ha Hb => slice_app_l body crc a b Ha Hb) as Hsl. rewrite !Hsl by lia.
  assert (slice body 16 (len body) = payload) as Hpay.
  { rewrite Hbody. unfold body, manifestBody. by slice_fields. }
  assert (slice body 12 16 = be_encode 4 (len payload)) as Hn by (unfold body, manifestBody; by slice_fields).
  rewrite Hpay, Hn. unfold body at 1 2 3, manifestBody. slice_fields. pass by done. pass by done. pass by done.
  pass by (rewrite be4_roundtrip by (unfold max_uint32; lia); lia).
  pass by (pose proof (crc32c_range body); unfold crc; rewrite be4_roundtrip, Z.eqb_refl by (unfold max_uint32; lia); done).
  unfold payload at 1. rewrite decodeManifestJSON_marshal by done. pass by done.
  pass by (by rewrite bool_decide_eq_true_2).
  destruct Hwf as (Hid & _). unfold manifestWire. cbn [mj_database_id mj_generation mj_snapshot_file mj_snapshot_revision
    mj_snapshot_sha256 mj_wal_file mj_wal_start_revision]. rewrite ParseDatabaseID_String by done.
  unfold lit. rewrite !String.string_of_list_byte_of_string. pass by (by rewrite bool_decide_eq_true_2).
  replace (MkManifest _ _ _ _ _ _ _) with m by (by destruct m). by rewrite (validateManifest_min m 0 min).
Qed.

Lemma EncodeManifest_decode encoded id min m : DecodeManifest encoded id min = Ok m ->
  manifest_wf m /\ EncodeManifest m = Ok encoded /\ MfDatabaseID m = id /\ min <= MfGeneration m.
Proof.
  intros Hd. unfold DecodeManifest in Hd. unfold manifestHeaderLen, manifestTrailer, maxManifestJSON in Hd. cbv zeta in Hd.
  do 6 match type of Hd with (if ?c then Err _ else _) = Ok _ => destruct c eqn:?; [discriminate Hd|] end.
  destruct (decodeManifestJSON _) as [[wire rest]|] eqn:Hj; [|discriminate Hd].
  do 2 match type of Hd with (if ?c then Err _ else _) = Ok _ => destruct c eqn:?; [discriminate Hd|] end.
  destruct (ParseDatabaseID _) as [id'|] eqn:Hp; [|discriminate Hd].
  match type of Hd with (if ?c then Err _ else _) = Ok _ => destruct c eqn:?; [discriminate Hd|] end.
  destruct (validateManifest _ _ _) eqn:Hv; [discriminate Hd|]. injection Hd as <-. go_bool.
  rewrite ?Z.eqb_eq, ?bool_decide_eq_true in *. subst id'.
  destruct (decodeManifestJSON_u64 _ _ _ Hj) as (Hg & Hr & Hs).
  destruct (DatabaseID_String_Parse _ _ Hp) as [Hstr Hlen].
  pose proof (validateManifest_None _ _ Hv) as (Hmin & _). split_and!; try done.
  unfold EncodeManifest. rewrite (validateManifest_min _ min 0) by (unfold u64 in Hg; simpl; done || lia).
  match goal with |- context [manifestWire ?m] => replace (manifestWire m) with wire end.
  2:{ unfold manifestWire, lit. cbn [MfDatabaseID MfGeneration MfSnapshotFile MfSnapshotRevision MfSnapshotSHA256 MfWALFile
        MfWALStartRevision]. rewrite !String.list_byte_of_string_of_list_byte, Hstr. by destruct wire. }
  rewrite Heqb6. assert (be_decode (slice encoded 12 16) = len encoded - 20) as Hn by lia.
  pose proof (len_slice encoded 16 (len encoded - 4) ltac:(lia) ltac:(lia)) as Hpl.
  pass by (rewrite Hpl; unfold maxManifestJSON; lia).
  assert (manifestBody (slice encoded 16 (len encoded - 4)) = slice encoded 0 (len encoded - 4)) as ->.
  { unfold manifestBody. rewrite Hpl, <- Heqb0, <- Heqb1, (zeros_slice 2 encoded 10 12) by (done || lia || by apply all_zero_decode).
    replace (len encoded - 4 - 16) with (be_decode (slice encoded 12 16)) by lia.
    rewrite !be_encode_slice by lia. by rewrite <- !slice_split by lia. }
  rewrite Heqb4, be_encode_slice, <- slice_split by lia. by rewrite slice_full.
Qed.

(** C38: [DecodeManifest] accepts exactly the encodings of valid manifests of the
    expected database whose generation has not regressed, and returns that
    manifest; in particular the JSON payload has one accepted spelling. *)
Theorem manifest_codec encoded id min m :
  DecodeManifest encoded id min = Ok m <->
  manifest_wf m /\ EncodeManifest m = Ok encoded /\ MfDatabaseID m = id /\ min <= MfGeneration m.
Proof.
  split; [apply EncodeManifest_decode|]. intros (Hwf & Henc & <- & Hmin). by apply DecodeManifest_encode.
Qed.
