(* ===== verification/Frame.v ===== *)
(** * Frames of the wire protocol (internal/protocol/frame.go, errors.go; gapdb/client.go)

    A message on a connection is a payload behind its length in four bytes.
    This file models the reading and writing of frames by the server and by
    the client.  Whatever the connection does, a frame that was reported
    written is on it in full, and the reader at the other end finds the payload
    and nothing else. *)

From stdpp Require Import base list strings.
From Stdlib Require Import ZArith Lia.
From S2P Require Import Prelude.
From S2P Require Import Bytes.
From S2P Require Import Errors.
From S2P Require Import ApiTypes.
From S2P Require Import WalScan.

Local Open Scope Z_scope.
Local Open Scope go_scope.

Definition framePrefixBytes : Z := 4.

(** ** Errors of the protocol *)

Definition invalidProtocol (field reason : string) (cause : error) : goerror :=
  ErrGap (withCause cause
    (newError CodeInvalidRequest "Protocol request is invalid." RetryNever
      [EvField field; EvReason reason] [ActionFixRequest; ActionAbort])).

Definition SchemaVersion : Z := 1.

Definition unsupportedVersion (received : Z) : goerror :=
  ErrGap (newError CodeUnsupportedVersion "Protocol version is not supported." RetryNever
    [EvReceivedVersion received; EvSupportedVersions [SchemaVersion]]
    [ActionUseSupportedVersion; ActionUpgradeClient; ActionAbort]).

Definition protocolFrameTooLarge (received maximum : Z) : goerror :=
  ErrGap (newError CodeFrameTooLarge "Protocol frame exceeds the configured limit." RetryNever
    [EvReceivedBytes received; EvMaximumBytes maximum] [ActionReduceRequest; ActionAbort]).

(** ** Reading *)

Definition ReadFrame (reader : Reader) (maximum : Z) : result goerror bytes * Reader :=
  if (maximum <=? 0) || (MaxFrameBytes HardLimits <? maximum)
  then (Err (invalidProtocol "maximum_frame_bytes" "is outside the supported range" None), reader)
  else
    let '(prefix, err, reader) := ReadFull framePrefixBytes reader in
    match err with
    | Some e => (Err (invalidProtocol "frame_length" "could not read the complete four-byte prefix" (Some e)), reader)
    | None =>
        let length := be_decode prefix in
        if length =? 0 then (Err (invalidProtocol "frame_length" "must be greater than zero" None), reader)
        else if maximum <? length then (Err (protocolFrameTooLarge length maximum), reader)
        else
          let '(payload, err, reader) := ReadFull length reader in
          match err with
          | Some e => (Err (invalidProtocol "frame_payload" "ended before the declared length" (Some e)), reader)
          | None => (Ok payload, reader)
          end
    end.

(** ["invalid frame length %d"] of the client. *)
Definition invalidFrameLength (length : Z) : goerror :=
  ErrText (String.string_of_list_byte (lit "invalid frame length " ++ FormatUint length)).

(** The client's reader; on 64-bit platforms [int] holds every prefix. *)
Definition readClientFrame (reader : Reader) (maximum : Z) : result goerror bytes * Reader :=
  let '(prefix, err, reader) := ReadFull framePrefixBytes reader in
  match err with
  | Some e => (Err e, reader)
  | None =>
      let length := be_decode prefix in
      if (length <=? 0) || (maximum <? length) then (Err (invalidFrameLength length), reader)
      else
        let '(payload, err, reader) := ReadFull length reader in
        (match err with Some e => Err e | None => Ok payload end, reader)
  end.

(** ** Writing

    An [io.Writer] is a connection with its state; it may write less than it is
    given, and fail. *)

Class Writer (W : Type) := writer_Write : bytes -> W -> Z * error * W.

Section write.
Context {W : Type} `{Writer W}.

Fixpoint writeAll_loop (fuel : nat) (value : bytes) (w : W) : option (error * W) :=
  if len value =? 0 then Some (None, w)
  else match fuel with
  | O => None
  | S fuel =>
      let '(written, err, w) := writer_Write value w in
      if (written <? 0) || (len value <? written) then Some (Some (ErrSys SysShortWrite), w)
      else
        let value := slice value written (len value) in
        match err with
        | Some e => Some (Some e, w)
        | None => if written =? 0 then Some (Some (ErrSys SysShortWrite), w) else writeAll_loop fuel value w
        end
  end.

(** One unit of fuel per byte suffices: [writeAll_loop_spec]. *)
Definition writeAll (value : bytes) (w : W) : error * W :=
  default (Some (ErrSys SysShortWrite), w) (writeAll_loop (length value) value w).

Definition writeFrame (payload : bytes) (maximum ceiling : Z) (w : W) : error * W :=
  if (maximum <=? 0) || (ceiling <? maximum)
  then (Some (invalidProtocol "maximum_frame_bytes" "is outside the supported range" None), w)
  else if len payload =? 0 then (Some (invalidProtocol "frame_length" "must be greater than zero" None), w)
  else if (maximum <? len payload) || (max_uint32 <? len payload)
  then (Some (protocolFrameTooLarge (len payload) maximum), w)
  else
    let (err, w) := writeAll (be_encode 4 (len payload)) w in
    match err with
    | Some e => (Some (invalidProtocol "frame_length" "could not write the complete four-byte prefix" (Some e)), w)
    | None =>
        let (err, w) := writeAll payload w in
        match err with
        | Some e => (Some (invalidProtocol "frame_payload" "could not write the complete payload" (Some e)), w)
        | None => (None, w)
        end
    end.

Definition WriteFrame (payload : bytes) (maximum : Z) (w : W) : error * W :=
  writeFrame payload maximum (MaxFrameBytes HardLimits) w.

(** The client's writer: the prefix and then the payload, in the same loop. *)
Definition writeClientFrame (payload : bytes) (w : W) : error * W :=
  let (err, w) := writeAll (be_encode 4 (len payload)) w in
  match err with Some e => (Some e, w) | None => writeAll payload w end.
End write.

(** ** What is on the connection *)

(** A connection as a stream: [sent] is what the other end will read. *)
Class WriterSpec (W : Type) `{Writer W} := {
  sent : W -> bytes;
  Write_sent v w n e w' : writer_Write v w = (n, e, w') -> 0 <= n <= len v /\ sent w' = sent w ++ slice v 0 n
}.

Definition frame (payload : bytes) : bytes := be_encode 4 (len payload) ++ payload.

Section spec.
Context {W : Type} `{WriterSpec W}.

Lemma writeAll_loop_spec fuel value w : (length value <= fuel)%nat ->
  exists e w' n, writeAll_loop fuel value w = Some (e, w') /\ 0 <= n <= len value /\
    sent w' = sent w ++ slice value 0 n /\ (e = None -> n = len value).
Proof.
  revert value w. induction fuel as [|fuel IH]; intros value w Hf; simpl; pose proof (len_nonneg value);
    destruct (Z.eqb_spec (len value) 0) as [Hz|Hz].
  1,3: eexists None, w, 0; rewrite Hz, slice_empty, app_nil_r by lia; split_and!; done || lia.
  { unfold len in Hz. lia. }
  destruct (writer_Write value w) as [[n e] w'] eqn:Hw. apply Write_sent in Hw as [Hn Hs].
  replace (_ || _) with false by lia.
  destruct e as [e|]; [exists (Some e), w', n; split_and!; done || lia|].
  destruct (Z.eqb_spec n 0) as [->|Hn0]; [eexists (Some _), w', 0; split_and!; done || lia|].
  destruct (IH (slice value n (len value)) w') as (e & w2 & m & -> & Hm & Hs2 & He).
  { pose proof (len_slice value n (len value)). unfold len in *. lia. }
  rewrite len_slice in Hm, He by lia. exists e, w2, (n + m). split_and!; try done; try lia.
  - rewrite Hs2, Hs, <- app_assoc. f_equal.
    rewrite (slice_split value 0 n (n + m)) by lia. f_equal. rewrite slice_slice by lia. f_equal; lia.
  - intros HN. specialize (He HN). lia.
Qed.

Lemma writeAll_spec value w : exists e w' n, writeAll value w = (e, w') /\ 0 <= n <= len value /\
  sent w' = sent w ++ slice value 0 n /\ (e = None -> n = len value).
Proof.
  unfold writeAll. destruct (writeAll_loop_spec (length value) value w) as (e & w' & n & -> & Hn & Hs & He); [done|].
  by exists e, w', n.
Qed.

(** What two writes in a row leave: a prefix of both values. *)
Lemma slice_two x y n : 0 <= n <= len y -> x ++ slice y 0 n = slice (x ++ y) 0 (len x + n).
Proof.
  intros Hn. pose proof (len_nonneg x). rewrite (slice_split _ 0 (len x) (len x + n)) by lia.
  rewrite slice_app_l, slice_full, slice_app_r, Z.sub_diag, Z.add_simpl_l by lia. done.
Qed.

Lemma frame_parts_spec payload w :
  exists e w' n, (let (err, w) := writeAll (be_encode 4 (len payload)) w in
                  match err with Some e => (Some e, w) | None => writeAll payload w end) = (e, w') /\
    0 <= n <= len (frame payload) /\ sent w' = sent w ++ slice (frame payload) 0 n /\ (e = None -> n = len (frame payload)).
Proof.
  pose proof (len_nonneg payload). unfold frame. rewrite len_app, len_be_encode.
  destruct (writeAll_spec (be_encode 4 (len payload)) w) as (e & w1 & n & -> & Hn & Hs & He).
  rewrite len_be_encode in Hn, He. destruct e as [e|].
  { exists (Some e), w1, n. split_and!; try done; try lia. rewrite Hs, slice_app_l by (rewrite ?len_be_encode; lia). done. }
  specialize (He eq_refl) as ->. destruct (writeAll_spec payload w1) as (e & w2 & m & -> & Hm & Hs2 & He2).
  exists e, w2, (4 + m). split_and!; try done; try lia; [|intros HN; specialize (He2 HN); lia].
  rewrite Hs2, Hs, <- app_assoc, slice_full' by (by rewrite len_be_encode). f_equal.
  rewrite slice_two, len_be_encode by lia. done.
Qed.

(** The frames the server sends: within [maximum], which is within [ceiling]. *)
Definition sendable (payload : bytes) (maximum ceiling : Z) : Prop :=
  0 < maximum <= ceiling /\ 0 < len payload <= maximum /\ len payload <= max_uint32.

Lemma writeFrame_spec payload maximum ceiling w :
  exists e w' n, writeFrame payload maximum ceiling w = (e, w') /\ 0 <= n <= len (frame payload) /\
    sent w' = sent w ++ slice (frame payload) 0 n /\
    (e = None -> n = len (frame payload)) /\ (e = None -> sendable payload maximum ceiling).
Proof.
  pose proof (len_nonneg (frame payload)). unfold writeFrame.
  assert (Hnone : sent w = sent w ++ slice (frame payload) 0 0) by (by rewrite slice_empty, app_nil_r by lia).
  destruct ((maximum <=? 0) || (ceiling <? maximum)) eqn:G1; [eexists (Some _), w, 0; split_and!; done || lia|].
  destruct (len payload =? 0) eqn:G2; [eexists (Some _), w, 0; split_and!; done || lia|].
  destruct ((maximum <? len payload) || (max_uint32 <? len payload)) eqn:G3; [eexists (Some _), w, 0; split_and!; done || lia|].
  pose proof (len_nonneg payload).
  destruct (frame_parts_spec payload w) as (e & w' & n & Hp & Hn & Hs & He).
  destruct (writeAll (be_encode 4 (len payload)) w) as [e1 w1]. destruct e1 as [e1|].
  { injection Hp as <- <-. by eexists (Some _), w1, n. }
  rewrite Hp. destruct e as [e|]; [by eexists (Some _), w', n|]. exists None, w', n.
  split_and!; try done; try lia. intros _. unfold sendable. lia.
Qed.
End spec.

(** ** What the other end reads *)

Lemma ReadFrame_frame payload rest fail maximum :
  0 < len payload <= maximum -> maximum <= MaxFrameBytes HardLimits ->
  ReadFrame (MkReader (frame payload ++ rest) fail) maximum = (Ok payload, MkReader rest fail).
Proof.
  change (MaxFrameBytes HardLimits) with 67108864. intros Hl Hm. unfold ReadFrame, frame.
  change (MaxFrameBytes HardLimits) with 67108864. replace (_ || _) with false by lia.
  rewrite <- app_assoc, (ReadFull_app (be_encode 4 _)) by apply len_be_encode.
  rewrite be4_roundtrip by (unfold max_uint32; lia). replace (len payload =? 0) with false by lia.
  replace (maximum <? len payload) with false by lia. by rewrite ReadFull_app.
Qed.

Lemma readClientFrame_frame payload rest fail maximum :
  0 < len payload <= maximum -> len payload <= max_uint32 ->
  readClientFrame (MkReader (frame payload ++ rest) fail) maximum = (Ok payload, MkReader rest fail).
Proof.
  unfold max_uint32. intros Hl Hm. unfold readClientFrame, frame.
  rewrite <- app_assoc, (ReadFull_app (be_encode 4 _)) by apply len_be_encode.
  rewrite be4_roundtrip by (unfold max_uint32; lia). replace (_ || _) with false by lia. by rewrite ReadFull_app.
Qed.

(** A torn frame is not taken for a message. *)
Lemma ReadFrame_torn payload n maximum :
  0 <= n < len (frame payload) -> len payload <= max_uint32 ->
  is_ok (ReadFrame (MkReader (slice (frame payload) 0 n) None) maximum).1 = false.
Proof.
  intros Hn Hmax. unfold ReadFrame. destruct (_ || _); [done|]. unfold frame in *. rewrite len_app, len_be_encode in Hn.
  destruct (decide (n < 4)) as [Hs|Hs].
  { unfold ReadFull. cbn [rd_data]. rewrite len_slice by (rewrite ?len_app, ?len_be_encode; lia).
    by replace (framePrefixBytes <=? n - 0) with false by (unfold framePrefixBytes; lia). }
  replace n with (len (be_encode 4 (len payload)) + (n - 4)) by (rewrite len_be_encode; lia).
  rewrite <- slice_two, (ReadFull_app (be_encode 4 _)) by (rewrite ?len_be_encode; done || lia).
  pose proof (len_nonneg payload). rewrite be4_roundtrip by lia.
  destruct (len payload =? 0); [done|]. destruct (maximum <? len payload); [done|].
  unfold ReadFull. cbn [rd_data]. rewrite len_slice by lia. by replace (len payload <=? n - 4 - 0) with false by lia.
Qed.

(** A torn frame on the client's side. *)
Lemma readClientFrame_torn payload n maximum :
  0 <= n < len (frame payload) -> len payload <= max_uint32 ->
  is_ok (readClientFrame (MkReader (slice (frame payload) 0 n) None) maximum).1 = false.
Proof.
  intros Hn Hmax. unfold readClientFrame, frame in *. rewrite len_app, len_be_encode in Hn.
  destruct (decide (n < 4)) as [Hs|Hs].
  { unfold ReadFull. cbn [rd_data]. rewrite len_slice by (rewrite ?len_app, ?len_be_encode; lia).
    by replace (framePrefixBytes <=? n - 0) with false by (unfold framePrefixBytes; lia). }
  replace n with (len (be_encode 4 (len payload)) + (n - 4)) by (rewrite len_be_encode; lia).
  rewrite <- slice_two, (ReadFull_app (be_encode 4 _)) by (rewrite ?len_be_encode; done || lia).
  pose proof (len_nonneg payload). rewrite be4_roundtrip by lia. destruct (_ || _); [done|].
  unfold ReadFull. cbn [rd_data]. rewrite len_slice by lia. by replace (len payload <=? n - 4 - 0) with false by lia.
Qed.

(** ** Connections that make progress *)

Section progress.
Context {W : Type} `{WriterSpec W}.

(** Every write takes at least one byte and reports no error. *)
Definition progressing : Prop := forall v w, v <> [] -> exists n w', writer_Write v w = (n, None, w') /\ 0 < n.
Hypothesis progress : progressing.

Lemma writeAll_loop_progress fuel value w : (length value <= fuel)%nat -> exists w', writeAll_loop fuel value w = Some (None, w').
Proof.
  revert value w. induction fuel as [|fuel IH]; intros value w Hf; simpl; (destruct (Z.eqb_spec (len value) 0) as [Hz|Hz]; [eauto|]).
  { unfold len in Hz. lia. }
  destruct (progress value w) as (n & w' & Hw & Hpos); [by intros ->|]. rewrite Hw. apply Write_sent in Hw as [Hn _].
  replace (_ || _) with false by lia. replace (n =? 0) with false by lia. apply IH.
  pose proof (len_slice value n (len value)). unfold len in *. lia.
Qed.

Lemma writeAll_progress value w : exists w', writeAll value w = (None, w').
Proof. unfold writeAll. destruct (writeAll_loop_progress (length value) value w) as [w' ->]; [done|]. by exists w'. Qed.

Lemma writeFrame_progress payload maximum ceiling w : sendable payload maximum ceiling -> (writeFrame payload maximum ceiling w).1 = None.
Proof.
  intros (Hm & Hl & Hu). unfold writeFrame. replace (_ || _) with false by lia. replace (len payload =? 0) with false by lia.
  replace (_ || _) with false by lia. destruct (writeAll_progress (be_encode 4 (len payload)) w) as [w1 ->].
  by destruct (writeAll_progress payload w1) as [w2 ->].
Qed.

Lemma writeClientFrame_progress payload w : (writeClientFrame payload w).1 = None.
Proof.
  unfold writeClientFrame. destruct (writeAll_progress (be_encode 4 (len payload)) w) as [w1 ->].
  by destruct (writeAll_progress payload w1) as [w2 ->].
Qed.
End progress.

Lemma writeFrame_refused {W : Type} `{Writer W} payload maximum ceiling w :
  ~ sendable payload maximum ceiling -> exists e, writeFrame payload maximum ceiling w = (Some e, w).
Proof.
  intros Hn. unfold writeFrame. destruct (_ || _) eqn:G1; [eauto|]. destruct (len payload =? 0) eqn:G2; [eauto|].
  destruct ((maximum <? len payload) || _) eqn:G3; [eauto|]. destruct Hn. pose proof (len_nonneg payload). unfold sendable. lia.
Qed.

(** ** Transfers *)

(** What the two readers make of a transfer that put the first [n] bytes of a
    frame on the connection: both find exactly this payload and leave what
    follows it, and neither takes a torn frame for a message. *)
Definition read_back (payload : bytes) (n maximum : Z) : Prop :=
  (n = len (frame payload) -> 0 < len payload <= maximum -> maximum <= MaxFrameBytes HardLimits -> forall rest fail,
     ReadFrame (MkReader (frame payload ++ rest) fail) maximum = (Ok payload, MkReader rest fail) /\
     readClientFrame (MkReader (frame payload ++ rest) fail) maximum = (Ok payload, MkReader rest fail)) /\
  (n < len (frame payload) -> len payload <= max_uint32 -> forall limit,
     is_ok (ReadFrame (MkReader (slice (frame payload) 0 n) None) limit).1 = false /\
     is_ok (readClientFrame (MkReader (slice (frame payload) 0 n) None) limit).1 = false).

Lemma read_back_holds payload n maximum : 0 <= n <= len (frame payload) -> read_back payload n maximum.
Proof.
  intros Hn. split.
  - change (MaxFrameBytes HardLimits) with 67108864. intros _ Hl Hm rest fail.
    split; [apply ReadFrame_frame|apply readClientFrame_frame]; change (MaxFrameBytes HardLimits) with 67108864; unfold max_uint32; lia.
  - intros Hlt Hu limit. split; [apply ReadFrame_torn|apply readClientFrame_torn]; done || lia.
Qed.

(** C39: Frames on a connection that writes any part of what it is given and may
    fail at any point.  What the server's [WriteFrame] and the client's
    [writeClientFrame] put on the connection is a prefix of the frame, all of it
    when they report success; both succeed if every write makes progress, the
    server's only for a payload within the limit, and otherwise it writes
    nothing.  Of a complete frame within their limit, both the server's and the
    client's reader return exactly the payload and leave what follows it; if the
    connection ends before the frame is complete, both report an error. *)
Theorem frame_transfer {W : Type} `{WriterSpec W} payload maximum w :
  (let (err, w') := WriteFrame payload maximum w in
   exists n, 0 <= n <= len (frame payload) /\ sent w' = sent w ++ slice (frame payload) 0 n /\
     (err = None -> n = len (frame payload) /\ sendable payload maximum (MaxFrameBytes HardLimits)) /\
     (~ sendable payload maximum (MaxFrameBytes HardLimits) -> w' = w) /\
     (progressing -> sendable payload maximum (MaxFrameBytes HardLimits) -> err = None) /\
     read_back payload n maximum) /\
  (let (err, w') := writeClientFrame payload w in
   exists n, 0 <= n <= len (frame payload) /\ sent w' = sent w ++ slice (frame payload) 0 n /\
     (err = None -> n = len (frame payload)) /\ (progressing -> err = None) /\ read_back payload n maximum).
Proof.
  split.
  - unfold WriteFrame. destruct (writeFrame_spec payload maximum (MaxFrameBytes HardLimits) w) as (e & w' & n & Hw & Hn & Hs & He & Hok).
    rewrite Hw. exists n. split_and!; try done; try lia.
    + intros HN. split; [by apply He|by apply Hok].
    + intros Hns. destruct (writeFrame_refused payload maximum _ w Hns) as [e' Hr]. congruence.
    + intros Hp Hsend. pose proof (writeFrame_progress Hp payload maximum _ w Hsend) as Hnone. by rewrite Hw in Hnone.
    + by apply read_back_holds.
  - unfold writeClientFrame at 1. destruct (frame_parts_spec payload w) as (e & w' & n & Hw & Hn & Hs & He). rewrite Hw.
    exists n. split_and!; try done; try lia; [|by apply read_back_holds].
    intros Hp. pose proof (writeClientFrame_progress Hp payload w) as Hnone. unfold writeClientFrame in Hnone. by rewrite Hw in Hnone.
Qed.

(** A connection that takes three bytes at a time. *)
Module SampleConn.
Record conn := MkConn { conn_sent : bytes }.

Global Instance conn_Writer : Writer conn := fun v w =>
  let n := Z.min 3 (len v) in (n, None, MkConn (conn_sent w ++ slice v 0 n)).

Global Instance conn_Spec : WriterSpec conn.
Proof.
  refine {| sent := conn_sent |}. intros v w n e w'. unfold writer_Write, conn_Writer. intros [= <- <- <-].
  pose proof (len_nonneg v). split; [lia|done].
Defined.
End SampleConn.

Lemma frame_transfer_witness :
  (ReadFrame (MkReader (sent (WriteFrame (lit "hello") 10 (SampleConn.MkConn [])).2) None) 10) = (Ok (lit "hello"), MkReader [] None) /\
  (readClientFrame (MkReader (sent (writeClientFrame (lit "hello") (SampleConn.MkConn [])).2) None) 10) = (Ok (lit "hello"), MkReader [] None).
Proof.
  destruct (frame_transfer (lit "hello") 10 (SampleConn.MkConn [])) as [Hserver Hclient].
  assert (0 < len (lit "hello") <= 10) as Hl by (vm_compute; split; [reflexivity|discriminate]).
  assert (10 <= MaxFrameBytes HardLimits) as Hm by (vm_compute; discriminate). split.
  - destruct (WriteFrame (lit "hello") 10 (SampleConn.MkConn [])) as [err w] eqn:Hw.
    assert (err = None) as -> by (vm_compute in Hw; congruence).
    destruct Hserver as (n & _ & Hs & Hok & _ & _ & Hr & _). destruct (Hok eq_refl) as [-> _].
    cbn [snd]. rewrite Hs, slice_full, app_nil_l, <- (app_nil_r (frame (lit "hello"))). by apply Hr.
  - destruct (writeClientFrame (lit "hello") (SampleConn.MkConn [])) as [err w] eqn:Hw.
    assert (err = None) as -> by (vm_compute in Hw; congruence).
    destruct Hclient as (n & _ & Hs & Hok & _ & Hr & _). rewrite (Hok eq_refl) in *.
    cbn [snd]. rewrite Hs, slice_full, app_nil_l, <- (app_nil_r (frame (lit "hello"))). by apply Hr.
Defined.
