(* ===== verification/RecoverySnapshot.v ===== *)
(** * Recovery snapshots (gapdb/recovery_snapshot.go, internal/engine/state.go)

    A recovery engine reads all live records under a prefix at one revision as
    one bounded binary frame.  This file models the request and its bounds, the
    codec of the frame and the engine's export.  The export holds exactly the
    live records; the frame of an export can be encoded within the bounds the
    engine checked, and the client decodes it to the same records. *)

From stdpp Require Import base gmap list strings sorting.
From Stdlib Require Import ZArith Lia.
From S2P Require Import Prelude.
From S2P Require Import Bytes.
From S2P Require Import Errors.
From S2P Require Import ApiTypes.
From S2P Require Import Clock.
From S2P Require Import StorageErrors.
From S2P Require Import WalCodec.
From S2P Require Import WalScan.
From S2P Require Import OrderedKeys.
From S2P Require Import Engine.
From S2P Require Import EngineInv.
From S2P Require Import Scan.
From S2P Require Import Sha256.
From S2P Require Import Json.
From S2P Require Import Manifest.
From S2P Require Import Frame.

Local Open Scope Z_scope.
Local Open Scope go_scope.

Definition HardMaxRecoveryRecords : Z := 200000.
Definition HardMaxRecoveryBytes : Z := Z.shiftl 256 20.

Definition recoverySnapshotMagic : bytes := lit "GDBREC1" ++ [z2b 10].

Record RecoverySnapshotRequest := MkRecoveryRequest {
  RrPrefix : bytes;
  RrExpectedRevision : Revision;
  RrMaxRecords : Z;
  RrMaxBytes : Z
}.

Record RecoverySnapshotResult := MkRecoveryResult {
  RsDatabaseID : bytes;
  RsRequestID : bytes;
  RsObservedRevision : Revision;
  RsAsOf : Time;
  RsRecords : list DBRecord
}.

Definition ValidateRecoverySnapshotRequest (request : RecoverySnapshotRequest) (limits : Limits) : error :=
  if bool_decide (RrPrefix request = []) || (MaxKeyBytes limits <? len (RrPrefix request))
     || negb (utf8_valid (RrPrefix request))
  then Some (invalidField "prefix" "must be a bounded non-empty key prefix")
  else if (RrMaxRecords request <=? 0) || (HardMaxRecoveryRecords <? RrMaxRecords request)
  then Some (invalidField "max_records" "exceeds the recovery record bound")
  else if (RrMaxBytes request <=? 0) || (HardMaxRecoveryBytes <? RrMaxBytes request)
  then Some (invalidField "max_bytes" "exceeds the recovery byte bound")
  else None.

(** [Limits{MaxKeyBytes: HardMaxKeyBytes}]. *)
Definition hardKeyLimits : Limits := MkLimits (MaxKeyBytes HardLimits) 0 0 0 0 0 0 0 0 0 0 0.

Definition recoverySnapshotTooLarge (received maximum : Z) : goerror :=
  frameTooLarge "Recovery snapshot exceeds the requested byte limit." received maximum.

Definition recoveryTimeNanoseconds (value : Time) : Z * bool :=
  let nanoseconds := UnixNano value in (nanoseconds, time_Unix0 nanoseconds =? value).

(** ** Encoding *)

Definition max_uint16 : Z := 2 ^ 16 - 1.

(** The strings that identify a snapshot: not empty, short, UTF-8. *)
Definition boundedIdentity (identity : bytes) : bool :=
  negb (bool_decide (identity = [])) && (len identity <=? max_uint16) && utf8_valid identity.

Definition recoverySnapshotHeaderBytes (databaseID requestID : bytes) : result goerror Z :=
  reject negb (boundedIdentity databaseID) || negb (boundedIdentity requestID)
    with ErrText "recovery snapshot identity is unbounded" ;;
  let size := len recoverySnapshotMagic + 2 + len databaseID + 2 + len requestID + 8 + 8 + 4 + 32 in
  reject max_int64 <? size with ErrText "recovery snapshot header is unbounded" ;;
  Ok size.

(** [writeUint16]: a string behind its length. *)
Definition writeIdentity (value payload : bytes) : result goerror bytes :=
  reject negb (boundedIdentity value) with ErrText "recovery snapshot identity is unbounded" ;;
  Ok (payload ++ be_encode 2 (len value) ++ value).

(** The bytes of one record in the frame. *)
Definition recordFrameBytes (record : DBRecord) : Z := 4 + len (RecKey record) + 8 + 8 + 4 + len (RecValue record).

(** The loop over the records: what has been written so far is [payload]. *)
Fixpoint encodeRecoveryRecords (request : RecoverySnapshotRequest) (observed : Revision) (asOf : Time)
    (previous : bytes) (records : list DBRecord) (payload : bytes) : result goerror bytes :=
  match records with
  | [] => Ok payload
  | record :: rest =>
      reject bool_decide (RecKey record = []) || (MaxKeyBytes HardLimits <? len (RecKey record))
             || negb (utf8_valid (RecKey record)) || bytes_leb (RecKey record) previous
             || negb (has_prefix (RecKey record) (RrPrefix request)) || (RecRevision record =? 0)
             || (observed <? RecRevision record) || (RrMaxBytes request <? len (RecValue record))
             || (max_uint32 <? len (RecValue record))
        with ErrText "recovery snapshot record is invalid" ;;
      let recordBytes := recordFrameBytes record in
      let remaining := wrap_u64 (RrMaxBytes request - 32 - len payload) in
      reject remaining <? recordBytes
        with recoverySnapshotTooLarge (Z.min (wrap_u64 (len payload + 32 + recordBytes)) max_int64)
               (RrMaxBytes request) ;;
      let '(expires, valid) :=
        match RecExpiresAt record with
        | None => (-1, true)
        | Some e => let (expires, representable) := recoveryTimeNanoseconds e in
                    (expires, representable && (0 <=? expires) && time_After e asOf)
        end in
      reject negb valid with ErrText "recovery snapshot expiry is invalid" ;;
      encodeRecoveryRecords request observed asOf (RecKey record) rest
        (payload ++ be_encode 4 (len (RecKey record)) ++ RecKey record ++ be_encode 8 (RecRevision record)
         ++ be_encode 8 (wrap_u64 expires) ++ be_encode 4 (len (RecValue record)) ++ RecValue record)
  end.

Definition EncodeRecoverySnapshot (result : RecoverySnapshotResult) (request : RecoverySnapshotRequest) :
    Prelude.result goerror bytes :=
  check ValidateRecoverySnapshotRequest request hardKeyLimits ;;
  reject negb (RsObservedRevision result =? RrExpectedRevision request) || (RsAsOf result =? zero_time)
         || (RrMaxRecords request <? len (RsRecords result)) || (max_uint32 <? len (RsRecords result))
    with ErrText "recovery snapshot identity is incomplete" ;;
  headerBytes ← recoverySnapshotHeaderBytes (RsDatabaseID result) (RsRequestID result);
  reject RrMaxBytes request <? headerBytes with recoverySnapshotTooLarge headerBytes (RrMaxBytes request) ;;
  let (asOfNS, ok) := recoveryTimeNanoseconds (RsAsOf result) in
  reject negb ok with ErrText "recovery snapshot time is unrepresentable" ;;
  payload ← writeIdentity (RsDatabaseID result) recoverySnapshotMagic;
  payload ← writeIdentity (RsRequestID result) payload;
  let payload := payload ++ be_encode 8 (RsObservedRevision result) ++ be_encode 8 (wrap_u64 asOfNS)
                 ++ be_encode 4 (len (RsRecords result)) in
  reject RrMaxBytes request <? len payload + 32
    with recoverySnapshotTooLarge (len payload + 32) (RrMaxBytes request) ;;
  payload ← encodeRecoveryRecords request (RsObservedRevision result) (RsAsOf result) [] (RsRecords result) payload;
  Ok (payload ++ Sum256 payload).

(** ** Decoding

    The reader over the body is what is left of it. *)

(** [io.ReadFull] of [n] bytes. *)
Definition readBytes (n : Z) (reader : bytes) : option (bytes * bytes) :=
  if n <=? len reader then Some (slice reader 0 n, slice reader n (len reader)) else None.

(** [binary.Read] of an unsigned big-endian integer of [n] bytes. *)
Definition readUint (n : Z) (reader : bytes) : option (Z * bytes) :=
  '(field, reader) ← readBytes n reader; Some (be_decode field, reader).

Definition readIdentity (reader : bytes) : result goerror (bytes * bytes) :=
  match readUint 2 reader with
  | None => Err (ErrText "recovery snapshot identity is malformed")
  | Some (size, reader) =>
      reject size =? 0 with ErrText "recovery snapshot identity is malformed" ;;
      match readBytes size reader with
      | None => Err (ErrSys (if len reader =? 0 then SysEOF else SysUnexpectedEOF))
      | Some (value, reader) =>
          reject negb (utf8_valid value) with ErrText "recovery snapshot identity is not UTF-8" ;;
          Ok (value, reader)
      end
  end.

(** One iteration of the loop over the records. *)
Definition decodeRecoveryRecord (request : RecoverySnapshotRequest) (revision : Revision) (asOf : Time)
    (previous reader : bytes) : result goerror (DBRecord * bytes) :=
  match readUint 4 reader with
  | None => Err (ErrText "recovery snapshot key is malformed")
  | Some (keySize, reader) =>
      reject (keySize =? 0) || (MaxKeyBytes HardLimits <? keySize) || (len reader <? keySize)
        with ErrText "recovery snapshot key is malformed" ;;
      match readBytes keySize reader with
      | None => Err (ErrText "recovery snapshot key is malformed")
      | Some (key, reader) =>
          reject negb (utf8_valid key) with ErrText "recovery snapshot key is malformed" ;;
          match '(recordRevision, reader) ← readUint 8 reader;
                '(expires, reader) ← readUint 8 reader;
                '(valueSize, reader) ← readUint 4 reader;
                Some (recordRevision, wrap_i64 expires, valueSize, reader) with
          | None => Err (ErrText "recovery snapshot record is truncated")
          | Some (recordRevision, expiresNS, valueSize, reader) =>
              reject len reader <? valueSize with ErrText "recovery snapshot record is truncated" ;;
              let value := slice reader 0 valueSize in
              let reader := slice reader valueSize (len reader) in
              reject bytes_leb key previous || negb (has_prefix key (RrPrefix request))
                     || (recordRevision =? 0) || (revision <? recordRevision)
                with ErrText "recovery snapshot membership is invalid" ;;
              if 0 <=? expiresNS then
                let expires := time_Unix0 expiresNS in
                reject negb (time_After expires asOf)
                  with ErrText "recovery snapshot contains an expired record" ;;
                Ok (MkRecord key value recordRevision (Some expires), reader)
              else Ok (MkRecord key value recordRevision None, reader)
          end
      end
  end.

Fixpoint decodeRecoveryRecords (count : nat) (request : RecoverySnapshotRequest) (revision : Revision)
    (asOf : Time) (previous reader : bytes) : result goerror (list DBRecord * bytes) :=
  match count with
  | O => Ok ([], reader)
  | S count =>
      '(record, reader) ← decodeRecoveryRecord request revision asOf previous reader;
      '(records, reader) ← decodeRecoveryRecords count request revision asOf (RecKey record) reader;
      Ok (record :: records, reader)
  end.

(** [DecodeRecoverySnapshot]; whether the values are copies of the frame or
    slices of it is not visible here. *)
Definition decodeRecoverySnapshot (payload expectedRequestID : bytes) (request : RecoverySnapshotRequest) :
    result goerror RecoverySnapshotResult :=
  check ValidateRecoverySnapshotRequest request hardKeyLimits ;;
  reject (len payload <? len recoverySnapshotMagic + 32) || (RrMaxBytes request <? len payload)
         || negb (bool_decide (slice payload 0 8 = recoverySnapshotMagic))
    with ErrText "recovery snapshot frame is invalid" ;;
  reject negb (bool_decide (Sum256 (slice payload 0 (len payload - 32))
                            = slice payload (len payload - 32) (len payload)))
    with ErrText "recovery snapshot digest differs" ;;
  let reader := slice payload 8 (len payload - 32) in
  '(databaseID, reader) ← readIdentity reader;
  match readIdentity reader with
  | Err _ => Err (ErrText "recovery snapshot request identity differs")
  | Ok (requestID, reader) =>
      reject negb (bool_decide (requestID = expectedRequestID))
        with ErrText "recovery snapshot request identity differs" ;;
      match '(revision, reader) ← readUint 8 reader;
            '(asOfNS, reader) ← readUint 8 reader;
            '(count, reader) ← readUint 4 reader;
            Some (revision, wrap_i64 asOfNS, count, reader) with
      | None => Err (ErrText "recovery snapshot header is malformed")
      | Some (revision, asOfNS, count, reader) =>
          reject negb (revision =? RrExpectedRevision request) || (wrap_u64 (RrMaxRecords request) <? count)
            with ErrText "recovery snapshot header is malformed" ;;
          let asOf := time_Unix0 asOfNS in
          '(records, reader) ← decodeRecoveryRecords (Z.to_nat count) request revision asOf [] reader;
          reject negb (len reader =? 0) || (asOf =? zero_time)
            with ErrText (String.string_of_list_byte
                   (lit "recovery snapshot has " ++ FormatUint (len reader) ++ lit " trailing bytes")) ;;
          Ok (MkRecoveryResult databaseID requestID revision asOf records)
      end
  end.

(** ** Transfer *)

Definition WriteRecoveryFrame {W : Type} `{Writer W} (payload : bytes) (maximum : Z) (w : W) : error * W :=
  writeFrame payload maximum HardMaxRecoveryBytes w.

(** The client's reader: a success frame, known by its first bytes, has a
    limit of its own. *)
Definition readRecoveryClientFrame (reader : Reader) (successMaximum failureMaximum : Z) :
    result goerror bytes * Reader :=
  let '(prefix, err, reader) := ReadFull 4 reader in
  match err with
  | Some e => (Err e, reader)
  | None =>
      let length := be_decode prefix in
      let absoluteMaximum := Z.max successMaximum failureMaximum in
      if (length =? 0) || (wrap_u64 absoluteMaximum <? length) then (Err (invalidFrameLength length), reader)
      else
        let discriminatorSize := Z.min length (len recoverySnapshotMagic) in
        let '(discriminator, err, reader) := ReadFull discriminatorSize reader in
        match err with
        | Some e => (Err e, reader)
        | None =>
            let maximum :=
              if (len discriminator =? len recoverySnapshotMagic) && bool_decide (discriminator = recoverySnapshotMagic)
              then successMaximum else failureMaximum in
            if wrap_u64 maximum <? length then (Err (invalidFrameLength length), reader)
            else
              let '(rest, err, reader) := ReadFull (length - len discriminator) reader in
              (match err with Some e => Err e | None => Ok (discriminator ++ rest) end, reader)
        end
  end.

(** ** The export of the engine *)

(** The loop over the ordered keys from the first that may have the prefix. *)
Fixpoint recovery_loop (request : RecoverySnapshotRequest) (stored : gmap bytes DBRecord) (asOf : Time)
    (keys : list bytes) (records : list DBRecord) (bytesUsed : Z) : result goerror (list DBRecord) :=
  match keys with
  | [] => Ok records
  | key :: rest =>
      if negb (has_prefix key (RrPrefix request)) then Ok records
      else match (stored !! key : option DBRecord) with
      | None => recovery_loop request stored asOf rest records bytesUsed
      | Some record =>
          if recordExpired record asOf then recovery_loop request stored asOf rest records bytesUsed
          else
            let recordBytes := recordFrameBytes record in
            reject (len records =? RrMaxRecords request) || (RrMaxBytes request - bytesUsed <? recordBytes)
              with frameTooLarge "Recovery snapshot exceeds its declared bound."
                     (if (bytesUsed <=? RrMaxBytes request) && (recordBytes <=? RrMaxBytes request - bytesUsed)
                      then bytesUsed + recordBytes else RrMaxBytes request + 1)
                     (RrMaxBytes request) ;;
            recovery_loop request stored asOf rest (records ++ [record]) (bytesUsed + recordBytes)
      end
  end.

(** The bytes around the records, with the longest request identity. *)
Definition reservedHeaderBytes (id : DatabaseID) : Z := 8 + 2 + len (DatabaseID_String id) + 2 + 256 + 8 + 8 + 4 + 32.

Section export.
Context {C A L F : Type} `{Clock C}.
Implicit Types st : DatabaseState C A L F.

Definition ReadRecoverySnapshot (request : RecoverySnapshotRequest) st :
    result goerror RecoverySnapshotResult * DatabaseState C A L F :=
  match ValidateRecoverySnapshotRequest request (st_limits st) with
  | Some e => (Err e, st)
  | None =>
      if negb (RrExpectedRevision request =? st_current st)
      then (Err (scanStale "Recovery snapshot revision differs from the current owner revision."
                   (RrExpectedRevision request) (st_current st)), st)
      else
        let (asOf, c) := Nondecreasing_Now (st_clock st) in
        let st := set_clock c st in
        let keys := ks_keys (st_orderedKeys st) in
        let start := SearchStrings keys (RrPrefix request) in
        (records ← recovery_loop request (st_records st) asOf (drop (Z.to_nat start) keys) []
                     (reservedHeaderBytes (st_databaseID st));
         Ok (MkRecoveryResult (DatabaseID_String (st_databaseID st)) [] (st_current st) asOf records), st)
  end.
End export.

(** ** The records of a frame *)

Definition expiryNS (r : DBRecord) : Z := from_option UnixNano (-1) (RecExpiresAt r).

Definition recordBody (r : DBRecord) : bytes :=
  be_encode 4 (len (RecKey r)) ++ RecKey r ++ be_encode 8 (RecRevision r) ++ be_encode 8 (wrap_u64 (expiryNS r))
  ++ be_encode 4 (len (RecValue r)) ++ RecValue r.

(** What the codec asks of a record behind the key [previous]. *)
Record frame_record (request : RecoverySnapshotRequest) (observed : Revision) (asOf : Time) (previous : bytes)
    (r : DBRecord) : Prop := {
  fr_key : RecKey r <> [] /\ len (RecKey r) <= MaxKeyBytes HardLimits /\ utf8_valid (RecKey r) = true;
  fr_order : bytes_lt previous (RecKey r);
  fr_prefix : has_prefix (RecKey r) (RrPrefix request) = true;
  fr_revision : 0 < RecRevision r <= observed;
  fr_value : len (RecValue r) <= RrMaxBytes request;
  fr_expiry : forall e, RecExpiresAt r = Some e -> 0 <= e < 2 ^ 63 /\ asOf < e
}.

Fixpoint frame_records (request : RecoverySnapshotRequest) (observed : Revision) (asOf : Time) (previous : bytes)
    (l : list DBRecord) : Prop :=
  match l with
  | [] => True
  | r :: l => frame_record request observed asOf previous r /\ frame_records request observed asOf (RecKey r) l
  end.

Definition frame_bytes (l : list DBRecord) : Z := foldr (fun r n => recordFrameBytes r + n) 0 l.

Lemma len_recordBody r : len (recordBody r) = recordFrameBytes r.
Proof. unfold recordBody, recordFrameBytes. rewrite !len_app, !len_be_encode. lia. Qed.

Lemma recordFrameBytes_pos r : 0 < recordFrameBytes r.
Proof. unfold recordFrameBytes. pose proof (len_nonneg (RecKey r)). pose proof (len_nonneg (RecValue r)). lia. Qed.

Lemma frame_bytes_nonneg l : 0 <= frame_bytes l.
Proof. induction l as [|r l IH]; simpl; [done|]. pose proof (recordFrameBytes_pos r). lia. Qed.

Lemma len_recordBodies l : len (l ≫= recordBody) = frame_bytes l.
Proof. induction l as [|r l IH]; [done|]. rewrite bind_cons, len_app, len_recordBody, IH. done. Qed.

(** The guards of the encoding loop, as one condition. *)
Lemma encode_guards request observed asOf previous r :
  0 <= RecRevision r -> RrMaxBytes request <= HardMaxRecoveryBytes ->
  (frame_record request observed asOf previous r <->
   bool_decide (RecKey r = []) || (MaxKeyBytes HardLimits <? len (RecKey r)) || negb (utf8_valid (RecKey r))
   || bytes_leb (RecKey r) previous || negb (has_prefix (RecKey r) (RrPrefix request)) || (RecRevision r =? 0)
   || (observed <? RecRevision r) || (RrMaxBytes request <? len (RecValue r)) || (max_uint32 <? len (RecValue r)) = false
   /\ match RecExpiresAt r with
      | Some e => (time_Unix0 (UnixNano e) =? e) && (0 <=? UnixNano e) && time_After e asOf = true
      | None => True
      end).
Proof.
  intros Hrev Hmax. change HardMaxRecoveryBytes with 268435456 in Hmax. change max_uint32 with 4294967295.
  rewrite !orb_false_iff, !negb_false_iff, bool_decide_eq_false, bytes_leb_false. unfold time_Unix0, time_After.
  split.
  - intros [(Hne & Hl & Hu) Ho Hp Hr Hv He]. split; [split_and!; try done; lia|].
    destruct (RecExpiresAt r) as [e|]; [|done]. destruct (He e eq_refl) as [Hb Ha].
    unfold UnixNano. rewrite wrap_i64_small by lia. lia.
  - intros (((((((((Hne & Hl) & Hu) & Ho) & Hp) & Hr0) & Hr) & Hv) & _) & He).
    constructor; try done; try lia; [split_and!; done || lia|].
    intros e Hx. rewrite Hx in He. apply andb_true_iff in He as [He Ha]. apply andb_true_iff in He as [He Hn].
    apply Z.eqb_eq, expiryRepresentable_iff in He. unfold UnixNano in Hn. rewrite wrap_i64_small in Hn by lia. lia.
Qed.

Definition typed_record (r : DBRecord) : Prop := u64 (RecRevision r).

Lemma encodeRecoveryRecords_iff request observed asOf previous l payload out :
  Forall typed_record l -> RrMaxBytes request <= HardMaxRecoveryBytes -> len payload + 32 <= RrMaxBytes request ->
  encodeRecoveryRecords request observed asOf previous l payload = Ok out <->
  frame_records request observed asOf previous l /\ out = payload ++ (l ≫= recordBody) /\
  len payload + frame_bytes l + 32 <= RrMaxBytes request.
Proof.
  intros Ht Hmax. revert previous payload. induction Ht as [|r l Hr Ht IH]; intros previous payload Hfit.
  { cbn [encodeRecoveryRecords frame_records frame_bytes foldr]. change ([] ≫= recordBody) with (@nil byte).
    rewrite app_nil_r. split; [intros [= <-]; split_and!; done || lia|by intros (_ & -> & _)]. }
  cbn [encodeRecoveryRecords frame_records frame_bytes foldr]. fold (frame_bytes l). rewrite bind_cons.
  pose proof (encode_guards request observed asOf previous r ltac:(apply Hr) Hmax) as Hg.
  pose proof (frame_bytes_nonneg l). pose proof (len_nonneg payload). pose proof (recordFrameBytes_pos r).
  destruct (_ || _) eqn:Hguard in |- *.
  { split; [done|]. intros ([Hok _] & _). apply Hg in Hok as [Hok _]. congruence. }
  change HardMaxRecoveryBytes with 268435456 in Hmax. rewrite wrap_u64_small by (unfold max_uint64; lia).
  destruct (Z.ltb_spec (RrMaxBytes request - 32 - len payload) (recordFrameBytes r)) as [Hbig|Hsmall].
  { split; [done|]. intros (_ & _ & Hb). lia. }
  assert (match RecExpiresAt r with
          | Some e => let (expires, representable) := recoveryTimeNanoseconds e in
                      (expires, representable && (0 <=? expires) && time_After e asOf)
          | None => (-1, true)
          end = (expiryNS r, match RecExpiresAt r with
                 | Some e => (time_Unix0 (UnixNano e) =? e) && (0 <=? UnixNano e) && time_After e asOf
                 | None => true end)) as -> by (unfold expiryNS; by destruct (RecExpiresAt r)).
  cbv beta iota.
  assert (Hvalid : match RecExpiresAt r with
                 | Some e => (time_Unix0 (UnixNano e) =? e) && (0 <=? UnixNano e) && time_After e asOf
                 | None => true end = true <-> frame_record request observed asOf previous r).
  { rewrite Hg. destruct (RecExpiresAt r); naive_solver. }
  destruct (match RecExpiresAt r with Some _ => _ | None => true end); cbn [negb].
  - replace (payload ++ be_encode 4 _ ++ _) with (payload ++ recordBody r) by done.
    rewrite IH by (rewrite len_app, len_recordBody; lia). rewrite len_app, len_recordBody, <- app_assoc.
    destruct Hvalid as [Hok _]. specialize (Hok eq_refl). split; [intros (? & -> & ?)|intros ((_ & ?) & -> & ?)]; split_and!; done || lia.
  - split; [done|]. intros ((Hok & _) & _). by apply Hvalid in Hok.
Qed.

(** ** Reading what was written *)

Lemma readBytes_app n x y : len x = n -> readBytes n (x ++ y) = Some (x, y).
Proof.
  intros <-. unfold readBytes. rewrite len_app. pose proof (len_nonneg y). replace (_ <=? _) with true by lia.
  by rewrite slice_app_l, slice_full, slice_app_r, Z.sub_diag, Z.add_simpl_l, slice_full by lia.
Qed.

Lemma readUint_app n z y : 0 <= z < 256 ^ Z.of_nat n -> readUint (Z.of_nat n) (be_encode n z ++ y) = Some (z, y).
Proof.
  intros Hz. unfold readUint. rewrite readBytes_app by apply len_be_encode. simpl. by rewrite be_decode_encode_small.
Qed.

Lemma readIdentity_app id rest : boundedIdentity id = true -> readIdentity (be_encode 2 (len id) ++ id ++ rest) = Ok (id, rest).
Proof.
  unfold boundedIdentity. change max_uint16 with 65535. intros Hid. go_bool. pose proof (len_nonneg id).
  unfold readIdentity. rewrite (readUint_app 2) by (simpl; lia).
  pass by (apply Z.eqb_neq; intros Hz%len_nil_iff; done). rewrite readBytes_app by done.
  by pass by (by apply negb_false_iff).
Qed.

Lemma wrap_i64_decode z : - 2 ^ 63 <= z < 2 ^ 63 -> wrap_i64 (wrap_u64 z) = z.
Proof. intros. by rewrite wrap_i64_wrap_u64, wrap_i64_small. Qed.

Lemma readInt64_app z y : readUint 8 (be_encode 8 (wrap_u64 z) ++ y) = Some (wrap_u64 z, y).
Proof. apply (readUint_app 8). apply (Z.mod_pos_bound z (2 ^ 64)). lia. Qed.

Lemma decodeRecoveryRecord_body request observed asOf previous r rest :
  frame_record request observed asOf previous r -> u64 observed -> RrMaxBytes request <= HardMaxRecoveryBytes ->
  decodeRecoveryRecord request observed asOf previous (recordBody r ++ rest) = Ok (r, rest).
Proof.
  intros [(Hne & Hl & Hu) Ho Hp Hr Hv He] Hobs Hmax. change HardMaxRecoveryBytes with 268435456 in Hmax.
  change (MaxKeyBytes HardLimits) with 65536 in Hl. unfold u64, max_uint64 in Hobs.
  pose proof (len_nonneg (RecKey r)). pose proof (len_nonneg (RecValue r)). pose proof (len_nonneg rest).
  assert (len (RecKey r) <> 0) by (by intros ?%len_nil_iff).
  unfold decodeRecoveryRecord, recordBody. rewrite <- !app_assoc, (readUint_app 4) by (simpl; lia).
  change (MaxKeyBytes HardLimits) with 65536.
  pass by (rewrite !orb_false_iff, !len_app, !len_be_encode; split_and!; [by apply Z.eqb_neq|by apply Z.ltb_ge|apply Z.ltb_ge; lia]). rewrite readBytes_app by done.
  pass by (by apply negb_false_iff). rewrite (readUint_app 8) by (simpl; lia). cbn [mbind option_bind result_bind].
  rewrite readInt64_app. cbn [mbind option_bind result_bind]. rewrite (readUint_app 4) by (simpl; lia). cbn [mbind option_bind].
  pass by (rewrite len_app; lia). rewrite slice_app_l, slice_full, slice_app_r by lia.
  rewrite Z.sub_diag, len_app, Z.add_simpl_l, slice_full.
  pass by (rewrite !orb_false_iff, !negb_false_iff, bytes_leb_false; split_and!; done || lia).
  assert (expiryNS r = default (-1) (RecExpiresAt r) /\ - 2 ^ 63 <= expiryNS r < 2 ^ 63) as [Hx Hb].
  { unfold expiryNS. destruct (RecExpiresAt r) as [e|]; simpl; [|split; [done|lia]].
    destruct (He e eq_refl). unfold UnixNano. rewrite wrap_i64_small; lia. }
  rewrite wrap_i64_decode, Hx by done. destruct r as [key value revision expires]. simpl in *.
  destruct expires as [e|]; simpl; [|done]. destruct (He e eq_refl). replace (0 <=? e) with true by lia.
  unfold time_After, time_Unix0. by replace (asOf <? e) with true by lia.
Qed.

Lemma decodeRecoveryRecords_bodies request observed asOf previous l rest :
  frame_records request observed asOf previous l -> u64 observed -> RrMaxBytes request <= HardMaxRecoveryBytes ->
  decodeRecoveryRecords (length l) request observed asOf previous ((l ≫= recordBody) ++ rest) = Ok (l, rest).
Proof.
  intros Hl Hobs Hmax. revert previous Hl. induction l as [|r l IH]; intros previous Hl; [done|].
  destruct Hl as [Hr Hl]. rewrite bind_cons, <- app_assoc. cbn [decodeRecoveryRecords length].
  rewrite decodeRecoveryRecord_body by done. cbn [mbind option_bind result_bind]. rewrite IH by done. done.
Qed.

(** ** The codec *)

(** Everything in front of the records. *)
Definition frameHeader (result : RecoverySnapshotResult) : bytes :=
  recoverySnapshotMagic ++ (be_encode 2 (len (RsDatabaseID result)) ++ RsDatabaseID result)
  ++ (be_encode 2 (len (RsRequestID result)) ++ RsRequestID result)
  ++ be_encode 8 (RsObservedRevision result) ++ be_encode 8 (wrap_u64 (UnixNano (RsAsOf result)))
  ++ be_encode 4 (len (RsRecords result)).

Definition framePayload (result : RecoverySnapshotResult) : bytes :=
  frameHeader result ++ (RsRecords result ≫= recordBody).

(** The results that have a frame. *)
Record exportable (request : RecoverySnapshotRequest) (result : RecoverySnapshotResult) : Prop := {
  ex_request : ValidateRecoverySnapshotRequest request hardKeyLimits = None;
  ex_revision : RsObservedRevision result = RrExpectedRevision request;
  ex_identities : boundedIdentity (RsDatabaseID result) = true /\ boundedIdentity (RsRequestID result) = true;
  ex_asOf : - 2 ^ 63 <= RsAsOf result < 2 ^ 63;
  ex_count : len (RsRecords result) <= RrMaxRecords request;
  ex_records : frame_records request (RsObservedRevision result) (RsAsOf result) [] (RsRecords result);
  ex_bytes : len (framePayload result) + 32 <= RrMaxBytes request
}.

Lemma request_bounds request limits : ValidateRecoverySnapshotRequest request limits = None ->
  RrPrefix request <> [] /\ len (RrPrefix request) <= MaxKeyBytes limits /\ utf8_valid (RrPrefix request) = true /\
  1 <= RrMaxRecords request <= 200000 /\ 1 <= RrMaxBytes request <= 268435456.
Proof.
  unfold ValidateRecoverySnapshotRequest. change HardMaxRecoveryRecords with 200000.
  change HardMaxRecoveryBytes with 268435456. intros Hv.
  destruct (_ || _ || _) eqn:H1; [done|]. destruct (_ || _) eqn:H2 in Hv; [done|]. destruct (_ || _) eqn:H3 in Hv; [done|].
  go_bool. split_and!; done || lia.
Qed.

Lemma len_frameHeader result :
  len (frameHeader result) + 32 = 64 + len (RsDatabaseID result) + len (RsRequestID result).
Proof.
  unfold frameHeader. rewrite !len_app, !len_be_encode. change (len recoverySnapshotMagic) with 8. lia.
Qed.

Definition recoveryFrame (result : RecoverySnapshotResult) : bytes :=
  framePayload result ++ Sum256 (framePayload result).

Lemma header_payload result :
  ((recoverySnapshotMagic ++ be_encode 2 (len (RsDatabaseID result)) ++ RsDatabaseID result)
   ++ be_encode 2 (len (RsRequestID result)) ++ RsRequestID result)
  ++ be_encode 8 (RsObservedRevision result) ++ be_encode 8 (wrap_u64 (UnixNano (RsAsOf result)))
  ++ be_encode 4 (len (RsRecords result)) = frameHeader result.
Proof. unfold frameHeader. by rewrite <- !app_assoc. Qed.

Lemma EncodeRecoverySnapshot_iff request result out : Forall typed_record (RsRecords result) ->
  EncodeRecoverySnapshot result request = Ok out <-> exportable request result /\ out = recoveryFrame result.
Proof.
  intros Ht. unfold EncodeRecoverySnapshot.
  destruct (ValidateRecoverySnapshotRequest request hardKeyLimits) as [e|] eqn:Hreq; [by split; [|intros [[] _]; congruence]|].
  pose proof (request_bounds _ _ Hreq) as (_ & _ & _ & Hrecs & Hbytes).
  destruct (_ || _ || _ || _) eqn:Hid.
  { split; [done|]. intros [[_ Hrev _ Has Hc _ _] _]. rewrite Hrev, Z.eqb_refl in Hid. simpl in Hid.
    change max_uint32 with 4294967295 in Hid. change zero_time with (-62135596800000000000) in Hid. lia. }
  go_bool. unfold recoverySnapshotHeaderBytes, writeIdentity.
  destruct (boundedIdentity (RsDatabaseID result)) eqn:Hdb; cbn [negb orb]; [|by split; [|intros [[_ _ [] _ _ _ _] _]; congruence]].
  destruct (boundedIdentity (RsRequestID result)) eqn:Hrq; cbn [negb orb]; [|by split; [|intros [[_ _ [] _ _ _ _] _]; congruence]].
  assert (len (RsDatabaseID result) <= 65535 /\ len (RsRequestID result) <= 65535) as [Hl1 Hl2].
  { unfold boundedIdentity in Hdb, Hrq. change max_uint16 with 65535 in *. go_bool. lia. }
  change max_int64 with 9223372036854775807. change (len recoverySnapshotMagic) with 8. pass by lia.
  unfold recoveryTimeNanoseconds, time_Unix0. cbn [mbind result_bind]. rewrite header_payload, len_frameHeader. pose proof (frame_bytes_nonneg (RsRecords result)).
  assert (Hlen : len (framePayload result) + 32 =
    64 + len (RsDatabaseID result) + len (RsRequestID result) + frame_bytes (RsRecords result)).
  { unfold framePayload. rewrite len_app, len_recordBodies. pose proof (len_frameHeader result). lia. }
  destruct (RrMaxBytes request <? _) eqn:Hfit; [split; [done|]; intros [[_ _ _ _ _ _ Hb] _]; lia|].
  destruct (UnixNano (RsAsOf result) =? RsAsOf result) eqn:Has; cbn [negb].
  2:{ split; [done|]. intros [[_ _ _ Hb _ _ _] _]. apply expiryRepresentable_iff in Hb. lia. }
  apply Z.eqb_eq in Has. replace (RrMaxBytes request <? _) with false by lia.
  pose proof (len_frameHeader result). change 268435456 with HardMaxRecoveryBytes in Hbytes.
  destruct (encodeRecoveryRecords _ _ _ _ _ _) as [payload|e] eqn:Henc; cbn [mbind result_bind].
  - apply encodeRecoveryRecords_iff in Henc as (Hf & -> & Hb); [|done|lia|lia]. fold (framePayload result).
    fold (recoveryFrame result). split; [|by intros [_ ->]]. intros [= <-]. split; [|done].
    constructor; try done; try lia. by apply expiryRepresentable_iff.
  - split; [done|]. intros [[_ _ _ _ _ Hf Hb] _]. exfalso.
    assert (encodeRecoveryRecords request (RsObservedRevision result) (RsAsOf result) [] (RsRecords result)
              (frameHeader result) = Ok (framePayload result)) as Hok; [|congruence].
    apply encodeRecoveryRecords_iff; [done|lia|lia|]. split_and!; [done|done|lia].
Qed.

Lemma decodeRecoverySnapshot_frame request result :
  exportable request result -> u64 (RsObservedRevision result) ->
  decodeRecoverySnapshot (recoveryFrame result) (RsRequestID result) request = Ok result.
Proof.
  intros [Hreq Hrev [Hdb Hrq] Has Hc Hf Hb] Hobs. unfold decodeRecoverySnapshot. rewrite Hreq.
  pose proof (request_bounds _ _ Hreq) as (_ & _ & _ & Hrecs & Hbytes). change (len recoverySnapshotMagic) with 8.
  assert (Hl : len (recoveryFrame result) = len (framePayload result) + 32).
  { unfold recoveryFrame. rewrite len_app. unfold len at 2. by rewrite length_Sum256. }
  pose proof (len_frameHeader result). pose proof (len_nonneg (RsDatabaseID result)).
  pose proof (len_nonneg (RsRequestID result)). pose proof (frame_bytes_nonneg (RsRecords result)).
  pose proof (len_nonneg (RsRecords result)).
  assert (Hp : len (framePayload result) = len (frameHeader result) + frame_bytes (RsRecords result)).
  { unfold framePayload. by rewrite len_app, len_recordBodies. }
  rewrite Hl, Z.add_simpl_r. set (body := (be_encode 2 (len (RsDatabaseID result)) ++ RsDatabaseID result)
    ++ (be_encode 2 (len (RsRequestID result)) ++ RsRequestID result)
    ++ be_encode 8 (RsObservedRevision result) ++ be_encode 8 (wrap_u64 (UnixNano (RsAsOf result)))
    ++ be_encode 4 (len (RsRecords result)) ++ (RsRecords result ≫= recordBody)).
  assert (Hbody : framePayload result = recoverySnapshotMagic ++ body).
  { unfold framePayload, frameHeader, body. by rewrite <- !app_assoc. }
  assert (len body = len (framePayload result) - 8) as Hlb by (rewrite Hbody, len_app; change (len recoverySnapshotMagic) with 8; lia).
  unfold recoveryFrame. rewrite (slice_app_l _ _ 0 (len _)), slice_full by lia.
  rewrite (slice_app_r _ _ (len _) _), Z.sub_diag, Z.add_simpl_l by lia.
  rewrite (slice_full' (Sum256 _)) by (unfold len; by rewrite length_Sum256).
  assert (slice (framePayload result ++ Sum256 (framePayload result)) 0 8 = recoverySnapshotMagic) as ->.
  { by rewrite slice_app_l, Hbody by lia. }
  rewrite bool_decide_true by done. pass by (cbn [negb]; lia).
  pass by (by rewrite bool_decide_true).
  assert (slice (framePayload result ++ Sum256 (framePayload result)) 8 (len (framePayload result)) = body) as ->.
  { rewrite slice_app_l by lia. rewrite Hbody at 1. rewrite slice_app_r by done. change (len recoverySnapshotMagic) with 8.
    apply slice_full'. lia. }
  unfold body. rewrite <- !app_assoc, readIdentity_app by done. cbn [mbind result_bind].
  rewrite readIdentity_app by done. pass by (by rewrite bool_decide_true).
  unfold u64, max_uint64 in Hobs. rewrite (readUint_app 8) by (simpl; lia). cbn [mbind option_bind].
  rewrite readInt64_app. cbn [mbind option_bind]. rewrite (readUint_app 4) by (simpl; lia). cbn [mbind option_bind].
  rewrite wrap_u64_small by (unfold max_uint64; lia). pass by (rewrite Hrev, Z.eqb_refl; simpl; lia).
  unfold UnixNano, time_Unix0. rewrite (wrap_i64_small (RsAsOf result)), wrap_i64_decode by lia.
  replace (Z.to_nat (len (RsRecords result))) with (length (RsRecords result)) by (unfold len; lia).
  rewrite <- (app_nil_r (RsRecords result ≫= recordBody)).
  rewrite decodeRecoveryRecords_bodies; [|done|done|apply Hbytes]. cbn [mbind result_bind].
  pass by (change zero_time with (-62135596800000000000); simpl; lia). by destruct result.
Qed.

(** ** The export *)

Lemma frame_bytes_app l k : frame_bytes (l ++ k) = frame_bytes l + frame_bytes k.
Proof. induction l as [|r l IH]; simpl; [done|]. rewrite IH. lia. Qed.

(** What the bounds allow: all records fit, or the export is refused. *)
Definition export_fits (request : RecoverySnapshotRequest) (base : Z) (l : list DBRecord) : Prop :=
  len l <= RrMaxRecords request /\ (l = [] \/ base + frame_bytes l <= RrMaxBytes request).

Lemma recovery_loop_spec request stored asOf base keys done :
  strictly_sorted keys -> Forall (fun k => bytes_le (RrPrefix request) k) keys -> export_fits request base done ->
  let all := done ++ visible stored (RrPrefix request) asOf keys in
  match recovery_loop request stored asOf keys done (base + frame_bytes done) with
  | Ok l => l = all /\ export_fits request base all
  | Err e => ~ export_fits request base all /\
             exists received, e = frameTooLarge "Recovery snapshot exceeds its declared bound." received (RrMaxBytes request)
  end.
Proof.
  intros Hs Hle. revert done. induction keys as [|key keys IH]; intros done Hfit all; subst all.
  { simpl. by rewrite app_nil_r. }
  rewrite visible_cons. cbn [recovery_loop].
  apply Forall_cons in Hle as [Hpk Hle]. apply StronglySorted_inv in Hs as [Hs Hall]. specialize (IH Hs Hle).
  destruct (has_prefix key (RrPrefix request)) eqn:Hp; cbn [negb].
  2:{ rewrite shown_other, visible_nil, !app_nil_r; [done| |done].
      eapply Forall_impl; [exact Hall|]. intros k Hk. eapply has_prefix_break; [exact Hpk|done|by apply bytes_lt_le]. }
  destruct (stored !! key) as [record|] eqn:Hr.
  2:{ assert (shown stored (RrPrefix request) asOf key = []) as -> by (unfold shown, visible; simpl; by rewrite Hp, Hr).
      exact (IH done Hfit). }
  rewrite (shown_live _ _ _ _ record) by done. destruct (recordExpired record asOf); [exact (IH done Hfit)|].
  destruct (_ || _) eqn:Hfull.
  - split; [|eauto]. intros [Hc Hb]. cbn [app] in Hc, Hb. rewrite len_app, len_cons in Hc. rewrite frame_bytes_app in Hb.
    pose proof (len_nonneg (visible stored (RrPrefix request) asOf keys)).
    pose proof (frame_bytes_nonneg (visible stored (RrPrefix request) asOf keys)).
    cbn [frame_bytes foldr] in Hb. fold (frame_bytes (visible stored (RrPrefix request) asOf keys)) in Hb.
    destruct Hb as [Hb|Hb]; [by apply app_eq_nil in Hb as [_ ?]|]. apply orb_true_iff in Hfull. lia.
  - apply orb_false_iff in Hfull as [Hn Hbytes]. destruct Hfit as [Hc _].
    specialize (IH (done ++ [record])). rewrite <- app_assoc, frame_bytes_app, Z.add_assoc in IH.
    cbn [frame_bytes foldr] in IH. rewrite Z.add_0_r in IH. apply IH.
    split; [rewrite len_app; change (len [record]) with 1; lia|right]. rewrite frame_bytes_app.
    cbn [frame_bytes foldr]. lia.
Qed.

Lemma len_DatabaseID_String id : length id = 16%nat -> len (DatabaseID_String id) = 32.
Proof. intros Hid. unfold DatabaseID_String. destruct (hex_Decode_Encode id) as (_ & _ & _ & ->). unfold len. by rewrite Hid. Qed.

Lemma databaseID_identity id : length id = 16%nat -> boundedIdentity (DatabaseID_String id) = true.
Proof.
  intros Hid. pose proof (len_DatabaseID_String id Hid) as Hl. unfold boundedIdentity.
  rewrite Hl, plain_utf8 by apply hex_Decode_Encode. rewrite bool_decide_false; [done|]. intros Hn. by rewrite Hn in Hl.
Qed.

Section exact.
Context {C A L F : Type} `{Clock C}.
Implicit Types st : DatabaseState C A L F.

(** The live records of a database satisfy what the codec asks of records. *)
Lemma live_frame_records request asOf st :
  scannable st -> 0 <= asOf -> frame_bytes (live_records (RrPrefix request) asOf st) <= RrMaxBytes request ->
  frame_records request (st_current st) asOf [] (live_records (RrPrefix request) asOf st).
Proof.
  intros [Hc Hk _ _] Has Hb. destruct (ci_index _ Hc) as (Hs & _). pose proof (core_keyed _ Hc) as Hkey.
  pose proof (limits_ok_fields _ (ci_limits _ Hc)) as Hf.
  assert (Hall : forall r, r ∈ live_records (RrPrefix request) asOf st -> forall previous, bytes_lt previous (RecKey r) ->
    len (RecValue r) <= RrMaxBytes request -> frame_record request (st_current st) asOf previous r).
  { intros r (Hin & Hl & Hp & Hx)%(elem_of_visible _ Hkey) previous Hprev Hv.
    destruct (ci_records _ Hc _ _ Hl) as (_ & (Hne & Hu & Hlen) & Hrev & _ & He).
    constructor; try done; [split_and!; try done; change (MaxKeyBytes HardLimits) with 65536; lia|].
    intros e Hex. unfold recordExpired, IsExpired, time_Before in Hx. rewrite Hex in He, Hx.
    apply negb_false_iff in Hx. lia. }
  assert (Hsort : strictly_sorted (RecKey <$> live_records (RrPrefix request) asOf st)) by (by apply visible_sorted).
  assert (forall r, r ∈ live_records (RrPrefix request) asOf st -> bytes_lt [] (RecKey r)) as Hnil.
  { intros r (Hin & Hl & _)%(elem_of_visible _ Hkey). destruct (ci_records _ Hc _ _ Hl) as (_ & (Hne & _) & _).
    by destruct (RecKey r). }
  revert Hall Hsort Hb. assert (forall r, r ∈ live_records (RrPrefix request) asOf st -> bytes_lt [] (RecKey r)) as Hprev by done.
  clear Hnil. revert Hprev. generalize (@nil byte). induction (live_records _ _ st) as [|r l IH]; [done|].
  intros previous Hprev Hall Hsort Hb. simpl in Hsort. apply StronglySorted_inv in Hsort as [Hsort Hgt].
  cbn [frame_bytes foldr] in Hb. fold (frame_bytes l) in Hb. pose proof (frame_bytes_nonneg l).
  pose proof (len_nonneg (RecKey r)). pose proof (recordFrameBytes_pos r). split.
  - apply Hall; [left|apply Hprev; left|]. unfold recordFrameBytes in *. lia.
  - apply IH; [|intros ? ?; apply Hall; by right|done|lia]. intros r' Hr'. rewrite Forall_fmap, Forall_forall in Hgt. by apply Hgt.
Qed.

(** The result as the server sends it: with the identity of the request. *)
Definition for_request (requestID : bytes) (result : RecoverySnapshotResult) : RecoverySnapshotResult :=
  MkRecoveryResult (RsDatabaseID result) requestID (RsObservedRevision result) (RsAsOf result) (RsRecords result).

Lemma ReadRecoverySnapshot_spec request st :
  scannable st -> ValidateRecoverySnapshotRequest request (st_limits st) = None ->
  let asOf := (Nondecreasing_Now (st_clock st)).1 in
  let base := reservedHeaderBytes (st_databaseID st) in
  let all := live_records (RrPrefix request) asOf st in
  match (ReadRecoverySnapshot request st).1 with
  | Ok r => RrExpectedRevision request = st_current st /\ export_fits request base all /\
            r = MkRecoveryResult (DatabaseID_String (st_databaseID st)) [] (st_current st) asOf all
  | Err e =>
      RrExpectedRevision request <> st_current st /\
        e = scanStale "Recovery snapshot revision differs from the current owner revision."
              (RrExpectedRevision request) (st_current st) \/
      RrExpectedRevision request = st_current st /\ ~ export_fits request base all /\
        exists received, e = frameTooLarge "Recovery snapshot exceeds its declared bound." received (RrMaxBytes request)
  end.
Proof.
  intros [Hc Hk _ _] Hv asOf base all. subst base all. unfold ReadRecoverySnapshot. rewrite Hv.
  destruct (Z.eqb_spec (RrExpectedRevision request) (st_current st)) as [Hr|Hr]; cbn [negb fst]; [|by left].
  subst asOf. destruct (Nondecreasing_Now (st_clock st)) as [asOf c]. cbn [fst set_clock st_orderedKeys st_records
    st_databaseID st_current]. destruct (ci_index _ Hc) as (Hs & _). unfold SearchStrings.
  rewrite (search_drop (fun k => negb (bytes_ltb k (RrPrefix request)))); [|done|done|].
  2:{ intros a b Hab Ha. eapply bytes_lt_le, bytes_le_lt_trans; [exact Ha|done]. }
  set (from := filter _ _). pose proof (request_bounds _ _ Hv) as (_ & _ & _ & Hrecs & _).
  assert (live_records (RrPrefix request) asOf st = visible (st_records st) (RrPrefix request) asOf from) as ->.
  { unfold live_records, from. by rewrite visible_from. }
  opose proof* (recovery_loop_spec request (st_records st) asOf (reservedHeaderBytes (st_databaseID st)) from []) as Hloop.
  - by apply sorted_filter.
  - apply Forall_forall. intros k [Hp _]%list_elem_of_filter. exact Hp.
  - split; [unfold len; simpl; lia|by left].
  - change (frame_bytes []) with 0 in Hloop. rewrite Z.add_0_r, app_nil_l in Hloop.
    destruct (recovery_loop _ _ _ _ _ _) as [l|e]; cbn [mbind result_bind]; [destruct Hloop as [-> Hfit]; done|by right].
Qed.

(** The frame of an export within the bounds the engine has checked. *)
Lemma export_exportable request requestID asOf st :
  scannable st -> ValidateRecoverySnapshotRequest request (st_limits st) = None ->
  RrExpectedRevision request = st_current st ->
  export_fits request (reservedHeaderBytes (st_databaseID st)) (live_records (RrPrefix request) asOf st) ->
  boundedIdentity requestID = true -> len requestID <= 256 -> 0 <= asOf < 2 ^ 63 ->
  96 + len requestID <= RrMaxBytes request ->
  exportable request (MkRecoveryResult (DatabaseID_String (st_databaseID st)) requestID (st_current st) asOf
                        (live_records (RrPrefix request) asOf st)).
Proof.
  intros Hsc Hv Hr [Hc Hb] Hid Hlen Has Hmin. pose proof (request_bounds _ _ Hv) as (Hp & Hpl & Hpu & Hrecs & Hbytes).
  pose proof (len_DatabaseID_String _ (sc_id _ Hsc)) as Hdb. unfold reservedHeaderBytes in Hb. rewrite Hdb in Hb.
  pose proof (limits_ok_fields _ (ci_limits _ (sc_core _ Hsc))) as Hf. pose proof (len_nonneg requestID).
  assert (Hbytes' : 96 + len requestID + frame_bytes (live_records (RrPrefix request) asOf st) <= RrMaxBytes request).
  { destruct Hb as [->|Hb]; [simpl; lia|lia]. }
  constructor; cbn [RsDatabaseID RsRequestID RsObservedRevision RsAsOf RsRecords]; try done; try lia.
  - unfold ValidateRecoverySnapshotRequest. change (MaxKeyBytes hardKeyLimits) with 65536.
    change HardMaxRecoveryRecords with 200000. change HardMaxRecoveryBytes with 268435456.
    rewrite bool_decide_false, Hpu by done. cbn [negb orb]. by repeat match goal with |- context [if ?c then _ else _] =>
      replace c with false by lia end.
  - split; [|done]. apply databaseID_identity, Hsc.
  - apply live_frame_records; [done|lia|]. lia.
  - unfold framePayload. rewrite len_app, len_recordBodies. cbn [RsRecords].
    pose proof (len_frameHeader (MkRecoveryResult (DatabaseID_String (st_databaseID st)) requestID (st_current st) asOf
      (live_records (RrPrefix request) asOf st))) as Hh. cbn [RsDatabaseID RsRequestID] in Hh. lia.
Qed.
End exact.

(** ** From the engine to the client *)

Lemma readRecoveryClientFrame_frame payload rest fail successMaximum failureMaximum :
  slice payload 0 8 = recoverySnapshotMagic -> 8 <= len payload <= successMaximum ->
  successMaximum <= HardMaxRecoveryBytes -> 0 <= failureMaximum <= max_int64 ->
  readRecoveryClientFrame (MkReader (frame payload ++ rest) fail) successMaximum failureMaximum
  = (Ok payload, MkReader rest fail).
Proof.
  change HardMaxRecoveryBytes with 268435456. unfold max_int64. intros Hmagic Hl Hs Hf. unfold readRecoveryClientFrame, frame.
  rewrite <- app_assoc, (ReadFull_app (be_encode 4 _)) by apply len_be_encode.
  rewrite be4_roundtrip by (unfold max_uint32; lia). rewrite !wrap_u64_small by (unfold max_uint64; lia).
  replace (_ || _) with false by lia. change (len recoverySnapshotMagic) with 8. replace (Z.min (len payload) 8) with 8 by lia.
  rewrite <- (slice_0_app payload 8) at 1 by lia. rewrite <- app_assoc, (ReadFull_app (slice payload 0 8)) by (rewrite len_slice; lia).
  rewrite len_slice, (bool_decide_true (slice payload 0 8 = _)) by (done || lia).
  change ((8 - 0 =? 8) && true) with true. cbn iota. rewrite wrap_u64_small by (unfold max_uint64; lia).
  replace (successMaximum <? len payload) with false by lia.
  rewrite ReadFull_app by (rewrite len_slice; lia). by rewrite slice_0_app by lia.
Qed.

Lemma recoveryFrame_start result : slice (recoveryFrame result) 0 8 = recoverySnapshotMagic /\ 8 <= len (recoveryFrame result).
Proof.
  unfold recoveryFrame, framePayload, frameHeader. rewrite <- !app_assoc. split.
  - by apply (slice_prefix 8).
  - rewrite len_app. change (len recoverySnapshotMagic) with 8. 
    match goal with |- _ <= _ + ?n => assert (0 <= n) by apply len_nonneg end. lia.
Qed.

(** C27: A recovery snapshot is exact, from the engine to the client.  A valid request at another revision is
    answered by [SCAN_STALE]; one whose records exceed the requested bounds by [FRAME_TOO_LARGE]; every other one by
    exactly the live records under the prefix, in key order, at the current revision.  The server can always encode
    such an export for a request with an identity, within the requested size; what it writes successfully is
    one frame, from which the client reads the payload, and decoding that payload gives the export back. *)
Theorem recovery_snapshot_exact {C A L F W : Type} `{Clock C} `{WriterSpec W} request (st : DatabaseState C A L F) :
  scannable st -> ValidateRecoverySnapshotRequest request (st_limits st) = None ->
  let asOf := (Nondecreasing_Now (st_clock st)).1 in
  match (ReadRecoverySnapshot request st).1 with
  | Err e =>
      RrExpectedRevision request <> st_current st /\
        e = scanStale "Recovery snapshot revision differs from the current owner revision."
              (RrExpectedRevision request) (st_current st) \/
      RrExpectedRevision request = st_current st /\
        ~ export_fits request (reservedHeaderBytes (st_databaseID st)) (live_records (RrPrefix request) asOf st) /\
        exists received, e = frameTooLarge "Recovery snapshot exceeds its declared bound." received (RrMaxBytes request)
  | Ok r =>
      RsObservedRevision r = RrExpectedRevision request /\ RsObservedRevision r = st_current st /\ RsAsOf r = asOf /\
      strictly_sorted (RecKey <$> RsRecords r) /\
      (forall x, x ∈ RsRecords r <-> st_records st !! RecKey x = Some x /\
         has_prefix (RecKey x) (RrPrefix request) = true /\ recordExpired x asOf = false) /\
      forall requestID, boundedIdentity requestID = true -> len requestID <= 256 -> 0 <= asOf < 2 ^ 63 ->
        96 + len requestID <= RrMaxBytes request ->
        exists payload, EncodeRecoverySnapshot (for_request requestID r) request = Ok payload /\
          len payload <= RrMaxBytes request /\
          (forall w w' : W, WriteRecoveryFrame payload (RrMaxBytes request) w = (None, w') ->
             sent w' = sent w ++ frame payload) /\
          (forall failureMaximum rest fail, 0 <= failureMaximum <= max_int64 ->
             readRecoveryClientFrame (MkReader (frame payload ++ rest) fail) (RrMaxBytes request) failureMaximum
             = (Ok payload, MkReader rest fail)) /\
          decodeRecoverySnapshot payload requestID request = Ok (for_request requestID r)
  end.
Proof.
  intros Hsc Hv asOf. pose proof (ReadRecoverySnapshot_spec request st Hsc Hv) as Hread.
  pose proof (core_keyed _ (sc_core _ Hsc)) as Hkey. destruct (ci_index _ (sc_core _ Hsc)) as (Hs & Hin & _).
  destruct (ReadRecoverySnapshot request st).1 as [r|e]; [|exact Hread]. destruct Hread as (Hr & Hfit & ->).
  cbn [RsObservedRevision RsAsOf RsRecords]. fold asOf in Hfit. split; [done|]. split; [done|]. split; [done|].
  split; [by apply visible_sorted|]. split.
  { intros x. unfold live_records. rewrite elem_of_visible by done. split; [tauto|]. intros (Hx & ? & ?).
    split; [|done]. apply Hin. eauto. }
  intros requestID Hid Hlen Has Hmin. unfold for_request. cbn [RsDatabaseID RsObservedRevision RsAsOf RsRecords].
  pose proof (export_exportable request requestID asOf st Hsc Hv Hr Hfit Hid Hlen Has Hmin) as Hex.
  set (res := MkRecoveryResult _ requestID _ _ _) in *. exists (recoveryFrame res).
  pose proof (request_bounds _ _ Hv) as (_ & _ & _ & _ & Hbytes). pose proof (ex_bytes _ _ Hex) as Hb.
  assert (Hl : len (recoveryFrame res) = len (framePayload res) + 32).
  { unfold recoveryFrame. rewrite len_app. unfold len at 2. by rewrite length_Sum256. }
  destruct (recoveryFrame_start res) as [Hmagic H8]. split_and!.
  - apply EncodeRecoverySnapshot_iff; [|done]. apply Forall_forall. intros x (_ & Hx & _)%(elem_of_visible _ Hkey).
    destruct (ci_records _ (sc_core _ Hsc) _ _ Hx) as (_ & _ & Hrev & _). pose proof (sc_current _ Hsc).
    unfold typed_record, u64. lia.
  - lia.
  - intros w w' Hw. destruct (writeFrame_spec (recoveryFrame res) (RrMaxBytes request) HardMaxRecoveryBytes w)
      as (e & w2 & n & He & _ & Hsent & Hall & _). unfold WriteRecoveryFrame in Hw. rewrite He in Hw. injection Hw as -> ->.
    by rewrite Hsent, Hall, slice_full.
  - intros failureMaximum rest fail Hf. apply readRecoveryClientFrame_frame; [done|lia|apply Hbytes|done].
  - apply (decodeRecoverySnapshot_frame request res Hex). pose proof (ci_current _ (sc_core _ Hsc)).
    pose proof (sc_current _ Hsc). unfold u64. simpl. lia.
Qed.

(** ** Two properties of the format *)

(** A result without a request identity has no frame. *)
Theorem recovery_needs_request_identity request result :
  RsRequestID result = [] -> is_ok (EncodeRecoverySnapshot result request) = false.
Proof.
  intros Hid. unfold EncodeRecoverySnapshot. destruct (ValidateRecoverySnapshotRequest _ _); [done|].
  destruct (_ || _); [done|]. unfold recoverySnapshotHeaderBytes. rewrite Hid. cbn [boundedIdentity]. by rewrite orb_true_r.
Qed.

Module SampleExport.
Definition request : RecoverySnapshotRequest := MkRecoveryRequest (lit "a") 7 10 4096.

Definition frame_with (expires : Z) : bytes :=
  let payload := recoverySnapshotMagic ++ be_encode 2 2 ++ lit "db" ++ be_encode 2 2 ++ lit "r1"
    ++ be_encode 8 7 ++ be_encode 8 1000 ++ be_encode 4 1
    ++ be_encode 4 2 ++ lit "ab" ++ be_encode 8 3 ++ be_encode 8 (wrap_u64 expires) ++ be_encode 4 1 ++ lit "v" in
  payload ++ Sum256 payload.

Definition exported : RecoverySnapshotResult :=
  MkRecoveryResult (lit "db") (lit "r1") 7 1000 [MkRecord (lit "ab") (lit "v") 3 None].
End SampleExport.

(** The decoder takes every negative expiry for none, the encoder writes [-1]:
    the frame of a result is not unique. *)
Theorem recovery_frame_not_canonical :
  EncodeRecoverySnapshot SampleExport.exported SampleExport.request = Ok (SampleExport.frame_with (-1)) /\
  decodeRecoverySnapshot (SampleExport.frame_with (-2)) (lit "r1") SampleExport.request = Ok SampleExport.exported /\
  SampleExport.frame_with (-1) <> SampleExport.frame_with (-2).
Proof. split; [|split]; [vm_compute; reflexivity..|]. intros H. apply (f_equal (fun l => slice l 56 64)) in H. vm_compute in H. discriminate H. Qed.
