(* ===== verification/Envelope.v ===== *)
(** * Requests of the wire protocol (internal/protocol/envelope.go)

    A request is a JSON envelope with a version, an optional identity, an
    operation and its arguments.  This file models the argument structs, their
    validation, and the two directions of the codec.  A valid request is
    encoded, and decoding the text gives the request back.

    The texts of the errors of encoding/json, and names quoted in an error
    text, are not modelled ([jsonReason]). *)

From stdpp Require Import base gmap list strings.
From Stdlib Require Import ZArith Lia.
From S2P Require Import Prelude.
From S2P Require Import Bytes.
From S2P Require Import Errors.
From S2P Require Import ApiTypes.
From S2P Require Import Base64.
From S2P Require Import Json.
From S2P Require Import GoTime.
From S2P Require Import GoJson.
From S2P Require Import Frame.
From S2P Require Import RecoverySnapshot.

Local Open Scope Z_scope.
Local Open Scope go_scope.

(** ** Operations *)

Inductive Operation :=
| OperationGet | OperationGetMany | OperationReadRecoverySnapshot | OperationPut | OperationPutIfAbsent
| OperationCompareAndSwap | OperationDeleteIfRevision | OperationAtomicBatch | OperationScanPrefix | OperationWatch
| OperationStatus | OperationHealth | OperationStats | OperationDescribeConfig | OperationVerify
| OperationCreateSnapshot | OperationCompact | OperationBackup | OperationOfflineInspect | OperationOfflineVerify
| OperationOfflineRecoverPropose | OperationOfflineRecoverApply.

Global Instance Operation_eq_dec : EqDecision Operation.
Proof. solve_decision. Defined.

Definition operationName (o : Operation) : bytes :=
  lit match o with
  | OperationGet => "get" | OperationGetMany => "get_many"
  | OperationReadRecoverySnapshot => "read_recovery_snapshot" | OperationPut => "put"
  | OperationPutIfAbsent => "put_if_absent" | OperationCompareAndSwap => "compare_and_swap"
  | OperationDeleteIfRevision => "delete_if_revision" | OperationAtomicBatch => "atomic_batch"
  | OperationScanPrefix => "scan_prefix" | OperationWatch => "watch" | OperationStatus => "status"
  | OperationHealth => "health" | OperationStats => "stats" | OperationDescribeConfig => "describe_config"
  | OperationVerify => "verify" | OperationCreateSnapshot => "create_snapshot" | OperationCompact => "compact"
  | OperationBackup => "backup" | OperationOfflineInspect => "offline_inspect"
  | OperationOfflineVerify => "offline_verify" | OperationOfflineRecoverPropose => "offline_recover_propose"
  | OperationOfflineRecoverApply => "offline_recover_apply"
  end.

Definition allOperations : list Operation :=
  [OperationGet; OperationGetMany; OperationReadRecoverySnapshot; OperationPut; OperationPutIfAbsent;
   OperationCompareAndSwap; OperationDeleteIfRevision; OperationAtomicBatch; OperationScanPrefix; OperationWatch;
   OperationStatus; OperationHealth; OperationStats; OperationDescribeConfig; OperationVerify;
   OperationCreateSnapshot; OperationCompact; OperationBackup; OperationOfflineInspect; OperationOfflineVerify;
   OperationOfflineRecoverPropose; OperationOfflineRecoverApply].

(** [Operation.Valid]: the operation a text names. *)
Definition validOperation (text : bytes) : option Operation :=
  snd <$> list_find (fun o => operationName o = text) allOperations.

(** ** Texts of the enumerations *)

Definition ackText (a : AckMode) : bytes :=
  match a with AckMemory => lit "memory" | AckDurable => lit "durable" | AckUnknown s => lit s end.
Definition ackOf (text : bytes) : AckMode :=
  if bool_decide (text = lit "memory") then AckMemory
  else if bool_decide (text = lit "durable") then AckDurable
  else AckUnknown (String.string_of_list_byte text).

Definition conditionText (k : ConditionKind) : bytes :=
  match k with
  | ConditionAny => lit "any" | ConditionAbsent => lit "absent" | ConditionRevision => lit "revision"
  | ConditionUnknown s => lit s
  end.
Definition conditionOf (text : bytes) : ConditionKind :=
  if bool_decide (text = lit "any") then ConditionAny
  else if bool_decide (text = lit "absent") then ConditionAbsent
  else if bool_decide (text = lit "revision") then ConditionRevision
  else ConditionUnknown (String.string_of_list_byte text).

Definition mutationText (k : MutationKind) : bytes :=
  match k with MutationPut => lit "put" | MutationDelete => lit "delete" | MutationUnknown s => lit s end.
Definition mutationOf (text : bytes) : MutationKind :=
  if bool_decide (text = lit "put") then MutationPut
  else if bool_decide (text = lit "delete") then MutationDelete
  else MutationUnknown (String.string_of_list_byte text).

(** ** Arguments *)

Inductive Arguments :=
| GetArguments (key : bytes)
| GetManyArguments (keys : list bytes)
| RecoverySnapshotArguments (request : RecoverySnapshotRequest)
| PutArguments (key value : bytes) (expiresAt : option Time) (ack : AckMode)
| CompareAndSwapArguments (key : bytes) (expectedRevision : Revision) (value : bytes) (expiresAt : option Time)
    (ack : AckMode)
| DeleteIfRevisionArguments (key : bytes) (expectedRevision : Revision) (ack : AckMode)
| BatchArguments (batch : Batch)
| ScanArguments (prefix : bytes) (limit : Z) (cursor : bytes)
| WatchArguments (prefix : bytes) (afterRevision : Revision)
| VerifyArguments (mode : bytes)
| SnapshotArguments (expectedDatabaseID : bytes) (expectedRevision : Revision)
| CompactArguments (expectedDatabaseID : bytes) (throughRevision : Revision)
| BackupArguments (expectedDatabaseID : bytes) (expectedRevision : Revision) (destination : bytes)
| OfflineInspectArguments (databasePath : bytes)
| OfflineVerifyArguments (databasePath mode : bytes)
| OfflineRecoverProposeArguments (databasePath : bytes)
| OfflineRecoverApplyArguments (databasePath actionID expectedDatabaseID : bytes) (expectedManifestGeneration : Z)
    (destination : bytes)
| EmptyArguments.

Record Request := MkRequest {
  RqSchemaVersion : Z;
  RqRequestID : bytes;
  RqOperation : Operation;
  RqArguments : Arguments
}.

(** *** The structs and their JSON tags *)

Definition TRevision : jtype := TUint max_uint64.
Definition field (name : string) (t : jtype) : bytes * jtype * bool := (lit name, t, false).
Definition omitempty (name : string) (t : jtype) : bytes * jtype * bool := (lit name, t, true).

Definition ConditionType : jtype := TStruct [field "kind" TString; omitempty "expected_revision" TRevision].
Definition AssertionType : jtype := TStruct [field "key" TString; field "condition" ConditionType].
Definition MutationType : jtype :=
  TStruct [field "kind" TString; field "key" TString; field "condition" ConditionType;
           omitempty "value_base64" TBytes; omitempty "expires_at" (TPtr TTime)].

Definition argumentsType (o : Operation) : jtype :=
  TStruct match o with
  | OperationGet => [field "key" TString]
  | OperationGetMany => [field "keys" (TList TString)]
  | OperationReadRecoverySnapshot =>
      [field "prefix" TString; field "expected_revision" TRevision; field "max_records" TInt; field "max_bytes" TInt]
  | OperationPut | OperationPutIfAbsent =>
      [field "key" TString; field "value_base64" TBase64; omitempty "expires_at" (TPtr TTime); field "ack" TString]
  | OperationCompareAndSwap =>
      [field "key" TString; field "expected_revision" TRevision; field "value_base64" TBase64;
       omitempty "expires_at" (TPtr TTime); field "ack" TString]
  | OperationDeleteIfRevision => [field "key" TString; field "expected_revision" TRevision; field "ack" TString]
  | OperationAtomicBatch =>
      [field "ack" TString; omitempty "assertions" (TList AssertionType); field "mutations" (TList MutationType)]
  | OperationScanPrefix => [field "prefix" TString; field "limit" TInt; omitempty "cursor" TString]
  | OperationWatch => [field "prefix" TString; field "after_revision" TRevision]
  | OperationVerify => [omitempty "mode" TString]
  | OperationCreateSnapshot => [field "expected_database_id" TString; field "expected_revision" TRevision]
  | OperationCompact => [field "expected_database_id" TString; field "through_revision" TRevision]
  | OperationBackup =>
      [field "expected_database_id" TString; field "expected_revision" TRevision; field "destination" TString]
  | OperationOfflineInspect | OperationOfflineRecoverPropose => [field "database_path" TString]
  | OperationOfflineVerify => [field "database_path" TString; omitempty "mode" TString]
  | OperationOfflineRecoverApply =>
      [field "database_path" TString; field "action_id" TString; field "expected_database_id" TString;
       field "expected_manifest_generation" (TUint max_uint64); field "destination" TString]
  | OperationStatus | OperationHealth | OperationStats | OperationDescribeConfig => []
  end.

Definition timeValue (t : option Time) : gval := GPtr (GTime <$> t).

Definition conditionValue (c : Condition) : gval := GStruct [GString (conditionText (CondKind c)); GNum (CondExpected c)].
Definition assertionValue (a : Assertion) : gval := GStruct [GString (AssKey a); conditionValue (AssCondition a)].
Definition mutationValue (m : Mutation) : gval :=
  GStruct [GString (mutationText (MutKind m)); GString (MutKey m); conditionValue (MutCondition m);
           GBytes (MutValue m); timeValue (MutExpiresAt m)].

(** A slice that is [nil] when it is empty. *)
Definition sliceValue {A} (f : A -> gval) (l : list A) : gval :=
  GList (match l with [] => None | _ => Some (f <$> l) end).

Definition argumentsValue (a : Arguments) : gval :=
  GStruct match a with
  | GetArguments key => [GString key]
  | GetManyArguments keys => [GList (Some (GString <$> keys))]
  | RecoverySnapshotArguments r =>
      [GString (RrPrefix r); GNum (RrExpectedRevision r); GNum (RrMaxRecords r); GNum (RrMaxBytes r)]
  | PutArguments key value expiresAt ack => [GString key; GBytes (Some value); timeValue expiresAt; GString (ackText ack)]
  | CompareAndSwapArguments key rev value expiresAt ack =>
      [GString key; GNum rev; GBytes (Some value); timeValue expiresAt; GString (ackText ack)]
  | DeleteIfRevisionArguments key rev ack => [GString key; GNum rev; GString (ackText ack)]
  | BatchArguments b =>
      [GString (ackText (BatchAck b)); sliceValue assertionValue (BatchAssertions b);
       GList (Some (mutationValue <$> BatchMutations b))]
  | ScanArguments prefix limit cursor => [GString prefix; GNum limit; GString cursor]
  | WatchArguments prefix rev => [GString prefix; GNum rev]
  | VerifyArguments mode => [GString mode]
  | SnapshotArguments id rev | CompactArguments id rev => [GString id; GNum rev]
  | BackupArguments id rev dest => [GString id; GNum rev; GString dest]
  | OfflineInspectArguments path | OfflineRecoverProposeArguments path => [GString path]
  | OfflineVerifyArguments path mode => [GString path; GString mode]
  | OfflineRecoverApplyArguments path action id generation dest =>
      [GString path; GString action; GString id; GNum generation; GString dest]
  | EmptyArguments => []
  end.

(** *** From decoded structs *)

Definition timeOf (g : gval) : option (option Time) :=
  match g with GPtr None => Some None | GPtr (Some (GTime t)) => Some (Some t) | _ => None end.

Definition conditionOfValue (g : gval) : option Condition :=
  match g with
  | GStruct [GString kind; GNum rev] => Some (MkCondition (conditionOf kind) rev)
  | _ => None
  end.
Definition assertionOfValue (g : gval) : option Assertion :=
  match g with
  | GStruct [GString key; c] => MkAssertion key <$> conditionOfValue c
  | _ => None
  end.
Definition mutationOfValue (g : gval) : option Mutation :=
  match g with
  | GStruct [GString kind; GString key; c; GBytes value; t] =>
      c ← conditionOfValue c; t ← timeOf t; Some (MkMutation (mutationOf kind) key c value t)
  | _ => None
  end.
Definition stringOfValue (g : gval) : option bytes := match g with GString s => Some s | _ => None end.

(** The elements of a slice, [nil] or not. *)
Definition sliceOf {A} (f : gval -> option A) (g : gval) : option (list A) :=
  match g with GList None => Some [] | GList (Some l) => mapM f l | _ => None end.

Definition argumentsOf (o : Operation) (g : gval) : option Arguments :=
  match o, g with
  | OperationGet, GStruct [GString key] => Some (GetArguments key)
  | OperationGetMany, GStruct [keys] => GetManyArguments <$> sliceOf stringOfValue keys
  | OperationReadRecoverySnapshot, GStruct [GString prefix; GNum rev; GNum maxRecords; GNum maxBytes] =>
      Some (RecoverySnapshotArguments (MkRecoveryRequest prefix rev maxRecords maxBytes))
  | (OperationPut | OperationPutIfAbsent), GStruct [GString key; GBytes value; t; GString ack] =>
      t ← timeOf t; Some (PutArguments key (default [] value) t (ackOf ack))
  | OperationCompareAndSwap, GStruct [GString key; GNum rev; GBytes value; t; GString ack] =>
      t ← timeOf t; Some (CompareAndSwapArguments key rev (default [] value) t (ackOf ack))
  | OperationDeleteIfRevision, GStruct [GString key; GNum rev; GString ack] =>
      Some (DeleteIfRevisionArguments key rev (ackOf ack))
  | OperationAtomicBatch, GStruct [GString ack; assertions; mutations] =>
      assertions ← sliceOf assertionOfValue assertions;
      mutations ← sliceOf mutationOfValue mutations;
      Some (BatchArguments (MkBatch (ackOf ack) assertions mutations))
  | OperationScanPrefix, GStruct [GString prefix; GNum limit; GString cursor] => Some (ScanArguments prefix limit cursor)
  | OperationWatch, GStruct [GString prefix; GNum rev] => Some (WatchArguments prefix rev)
  | OperationVerify, GStruct [GString mode] => Some (VerifyArguments mode)
  | OperationCreateSnapshot, GStruct [GString id; GNum rev] => Some (SnapshotArguments id rev)
  | OperationCompact, GStruct [GString id; GNum rev] => Some (CompactArguments id rev)
  | OperationBackup, GStruct [GString id; GNum rev; GString dest] => Some (BackupArguments id rev dest)
  | OperationOfflineInspect, GStruct [GString path] => Some (OfflineInspectArguments path)
  | OperationOfflineRecoverPropose, GStruct [GString path] => Some (OfflineRecoverProposeArguments path)
  | OperationOfflineVerify, GStruct [GString path; GString mode] => Some (OfflineVerifyArguments path mode)
  | OperationOfflineRecoverApply, GStruct [GString path; GString action; GString id; GNum generation; GString dest] =>
      Some (OfflineRecoverApplyArguments path action id generation dest)
  | (OperationStatus | OperationHealth | OperationStats | OperationDescribeConfig), GStruct [] => Some EmptyArguments
  | _, _ => None
  end.

(** ** Strict decoding *)

Definition jsonReason : string := "JSON is invalid".

(** [decodeStrict] up to the type of the destination: one JSON value in valid
    UTF-8, without duplicate members and without anything behind it. *)
Definition decodeStrict (payload : bytes) : result goerror jvalue :=
  reject bool_decide (payload = []) with ErrText "empty JSON" ;;
  reject negb (utf8_valid payload) with ErrText "JSON is not valid UTF-8" ;;
  match json_decode payload with
  | None => Err (ErrText jsonReason)
  | Some (v, rest) =>
      reject negb (duplicateFree v) || negb (bool_decide (skip_space rest = [])) with ErrText jsonReason ;;
      Ok v
  end.

Definition member (ms : list (bytes * jvalue)) (name : string) : option jvalue :=
  snd ∘ snd <$> list_find (fun m => m.1 = lit name) ms.

(** [json.Unmarshal(raw, &object)] into a map: a member by its exact name. *)
Definition objectMember (v : jvalue) (name : string) : option jvalue :=
  match v with JObject ms _ => member ms name | _ => None end.

Definition objectHasField (v : jvalue) (name : string) : bool := if objectMember v name then true else false.
Definition objectHasNonNullField (v : jvalue) (name : string) : bool :=
  match objectMember v name with None | Some JNull => false | Some _ => true end.

Definition validateOptionalUTCTimeField (v : jvalue) (name : string) : error :=
  match v with
  | JObject ms _ =>
      match member ms name with
      | None | Some JNull => None
      | Some (JString text _) =>
          match parseCanonicalUTC text with
          | Some _ => None
          | None => Some (invalidProtocol name "must be canonical RFC3339Nano UTC with a Z suffix" None)
          end
      | Some _ => Some (invalidProtocol name "must be an RFC3339Nano UTC string" (Some (ErrText jsonReason)))
      end
  | JNull => None
  | _ => Some (invalidProtocol name "could not inspect timestamp" (Some (ErrText jsonReason)))
  end.

Definition decodeAcknowledgement (v : jvalue) : result goerror AckMode :=
  let invalid cause := invalidProtocol "arguments.ack" "must be memory or durable when present" cause in
  match v with
  | JObject ms _ =>
      match member ms "ack" with
      | None => Ok AckMemory
      | Some (JString text _) => if AckMode_Valid (ackOf text) then Ok (ackOf text) else Err (invalid None)
      | Some JNull => Err (invalid None)
      | Some _ => Err (invalid (Some (ErrText jsonReason)))
      end
  | JNull => Ok AckMemory
  | _ => Err (invalidProtocol "arguments.ack" "could not inspect acknowledgement" (Some (ErrText jsonReason)))
  end.

(** *** Absolute paths: [filepath.IsAbs] and [filepath.Clean] of one *)

Fixpoint pathElements (l : bytes) : list bytes :=
  match l with
  | [] => [[]]
  | b :: rest =>
      if b2z b =? 47 then [] :: pathElements rest
      else match pathElements rest with e :: es => (b :: e) :: es | [] => [[b]] end
  end.

(** The elements of a rooted path without empty ones, [.] and [..]; the result
    is in reverse order. *)
Fixpoint cleanElements (es done : list bytes) : list bytes :=
  match es with
  | [] => done
  | e :: es =>
      if bool_decide (e = []) || bool_decide (e = lit ".") then cleanElements es done
      else if bool_decide (e = lit "..") then cleanElements es (tail done)
      else cleanElements es (e :: done)
  end.

Definition cleanRooted (path : bytes) : bytes :=
  match reverse (cleanElements (pathElements path) []) with
  | [] => [chr 47]
  | es => es ≫= (fun e => chr 47 :: e)
  end.

Definition isAbs (path : bytes) : bool := has_prefix path [chr 47].

Definition validateAbsolutePath (name : string) (value : bytes) : error :=
  if bool_decide (value = []) || negb (isAbs value) || negb (bool_decide (cleanRooted value = value))
  then Some (invalidProtocol name "must be a clean absolute path" None) else None.

(** ** Validation of the arguments *)

(** [json.Unmarshal] of one element into a map. *)
Definition objectMembers (v : jvalue) : option (list (bytes * jvalue)) :=
  match v with JObject ms _ => Some ms | JNull => Some [] | _ => None end.

(** The members called [mutations] in any case, each as a slice of maps; the
    last one counts. *)
Fixpoint wireMutations (ms : list (bytes * jvalue)) (found : list (list (bytes * jvalue))) :
    option (list (list (bytes * jvalue))) :=
  match ms with
  | [] => Some found
  | (key, v) :: ms =>
      match find_field [lit "mutations"] key with
      | None => wireMutations ms found
      | Some _ =>
          match v with
          | JNull => wireMutations ms []
          | JArray l _ => found ← mapM objectMembers l; wireMutations ms found
          | _ => None
          end
      end
  end.

(** ["arguments.mutations[%d]"] with a suffix. *)
Definition mutationField (index : Z) (suffix : string) : string :=
  String.string_of_list_byte (lit "arguments.mutations[" ++ FormatUint index ++ lit "]" ++ lit suffix).

(** One iteration of the loop of [validateBatchWire]. *)
Definition validateMutationWire (index : Z) (ms : list (bytes * jvalue)) : error :=
  match member ms "kind" with
  | Some (JString _ _) | Some JNull =>
      let kind := match member ms "kind" with Some (JString text _) => mutationOf text | _ => mutationOf [] end in
      let expiry := member ms "expires_at" in
      try (if expiry then validateOptionalUTCTimeField (JObject ms []) "expires_at" else None) ;;
      match kind with
      | MutationPut =>
          match member ms "value_base64" with
          | None => Some (invalidProtocol (mutationField index ".value_base64") "is required for put" None)
          | Some v =>
              match go_decode TBase64 v (zero_value TBase64) with
              | Some _ => None
              | None => Some (invalidProtocol (mutationField index ".value_base64") jsonReason (Some (ErrText jsonReason)))
              end
          end
      | MutationDelete =>
          if member ms "value_base64" then
            Some (invalidProtocol (mutationField index "") "delete cannot carry value_base64 or expires_at" None)
          else if expiry then
            Some (invalidProtocol (mutationField index "") "delete cannot carry value_base64 or expires_at" None)
          else None
      | MutationUnknown _ => None
      end
  | _ => Some (invalidProtocol (mutationField index ".kind") "must be put or delete" (Some (ErrText jsonReason)))
  end.

Fixpoint validateMutationsWire (index : Z) (l : list (list (bytes * jvalue))) : error :=
  match l with
  | [] => None
  | ms :: l => try validateMutationWire index ms ;; validateMutationsWire (index + 1) l
  end.

Definition validateBatchWire (v : jvalue) : error :=
  let unreadable := Some (invalidProtocol "arguments.mutations" "could not inspect mutation values" (Some (ErrText jsonReason))) in
  match v with
  | JObject ms _ => match wireMutations ms [] with Some l => validateMutationsWire 0 l | None => unreadable end
  | JNull => None
  | _ => unreadable
  end.

Definition anyCondition : Condition := MkCondition ConditionAny 0.

(** [validateMutation(NewPutMutation(key, nil, any, nil))]. *)
Definition validateReadKey (limits : Limits) (key : bytes) : error :=
  Mutation_Validate limits (NewPutMutation key None anyCondition None).

Definition exactReadDuplicate (key : bytes) : goerror :=
  ErrGap (newError CodeDuplicateKey "Exact read keys must be unique." RetryNever [EvKey key]
    [ActionDeduplicateBatch; ActionAbort]).

Fixpoint validateReadKeys (limits : Limits) (seen keys : list bytes) : error :=
  match keys with
  | [] => None
  | key :: keys =>
      try validateReadKey limits key ;;
      if bool_decide (key ∈ seen) then Some (exactReadDuplicate key)
      else validateReadKeys limits (key :: seen) keys
  end.

Definition requestTooLarge (message : string) (received maximum : Z) : goerror :=
  ErrGap (newError CodeBatchTooLarge message RetryNever [EvReceivedBytes received; EvMaximumBytes maximum]
    [ActionSplitBatch; ActionAbort]).

Definition validMode (mode : bytes) : bool :=
  bool_decide (mode = []) || bool_decide (mode = lit "sampled") || bool_decide (mode = lit "full").

(** The checks behind decoding, for the operations whose arguments do not carry
    an acknowledgement. *)
Definition validateArguments (v : jvalue) (limits : Limits) (a : Arguments) : error :=
  match a with
  | GetArguments key => validateReadKey limits key
  | RecoverySnapshotArguments request => ValidateRecoverySnapshotRequest request limits
  | GetManyArguments keys =>
      if bool_decide (keys = []) || (MaxBatchOperations limits <? len keys)
      then Some (invalidProtocol "arguments.keys" "is outside the configured batch-operation limit" None)
      else if MaxBatchBytes limits <? len (raw_text v)
      then Some (requestTooLarge "Exact read request exceeds the configured byte limit." (len (raw_text v)) (MaxBatchBytes limits))
      else validateReadKeys limits [] keys
  | ScanArguments prefix limit _ =>
      if negb (utf8_valid prefix) || (MaxKeyBytes limits <? len prefix)
      then Some (invalidProtocol "arguments.prefix" "must be valid UTF-8 within the key limit" None)
      else if (limit <=? 0) || (MaxScanRecords limits <? limit)
      then Some (invalidProtocol "arguments.limit" "is outside the configured scan limit" None) else None
  | WatchArguments prefix _ =>
      if negb (utf8_valid prefix) || (MaxKeyBytes limits <? len prefix)
      then Some (invalidProtocol "arguments.prefix" "must be valid UTF-8 within the key limit" None) else None
  | VerifyArguments mode =>
      if validMode mode then None else Some (invalidProtocol "arguments.mode" "must be sampled or full" None)
  | OfflineInspectArguments path | OfflineRecoverProposeArguments path =>
      validateAbsolutePath "arguments.database_path" path
  | OfflineVerifyArguments path mode =>
      try validateAbsolutePath "arguments.database_path" path ;;
      if validMode mode then None else Some (invalidProtocol "arguments.mode" "must be sampled or full" None)
  | OfflineRecoverApplyArguments path action id _ destination =>
      try validateAbsolutePath "arguments.database_path" path ;;
      try validateAbsolutePath "arguments.destination" destination ;;
      if bool_decide (cleanRooted path = cleanRooted destination)
      then Some (invalidProtocol "arguments.destination" "must differ from database_path" None)
      else if bool_decide (action = []) || (256 <? len action)
      then Some (invalidProtocol "arguments.action_id" "must be non-empty and at most 256 bytes" None)
      else if bool_decide (id = [])
      then Some (invalidProtocol "arguments.expected_database_id" "must not be empty" None)
      else if negb (objectHasNonNullField v "expected_manifest_generation")
      then Some (invalidProtocol "arguments.expected_manifest_generation" "is required" None) else None
  | SnapshotArguments id _ | CompactArguments id _ =>
      if bool_decide (id = []) then Some (invalidProtocol "arguments.expected_database_id" "must not be empty" None)
      else None
  | BackupArguments id _ destination =>
      if bool_decide (id = []) || bool_decide (destination = [])
      then Some (invalidProtocol "arguments" "database ID and destination are required" None) else None
  | PutArguments _ _ _ _ | CompareAndSwapArguments _ _ _ _ _ | DeleteIfRevisionArguments _ _ _ | BatchArguments _
  | EmptyArguments => None
  end.

(** The same for a mutation: its acknowledgement is [memory] when absent. *)
Definition acknowledged (v : jvalue) (limits : Limits) (o : Operation) (a : Arguments) : result goerror Arguments :=
  match a with
  | PutArguments key value expiresAt _ =>
      check validateOptionalUTCTimeField v "expires_at" ;;
      ack ← decodeAcknowledgement v;
      let condition := match o with OperationPutIfAbsent => MkCondition ConditionAbsent 0 | _ => anyCondition end in
      check Mutation_Validate limits (NewPutMutation key (Some value) condition expiresAt) ;;
      Ok (PutArguments key value expiresAt ack)
  | CompareAndSwapArguments key rev value expiresAt _ =>
      check validateOptionalUTCTimeField v "expires_at" ;;
      ack ← decodeAcknowledgement v;
      check Mutation_Validate limits (NewPutMutation key (Some value) (MkCondition ConditionRevision rev) expiresAt) ;;
      Ok (CompareAndSwapArguments key rev value expiresAt ack)
  | DeleteIfRevisionArguments key rev _ =>
      ack ← decodeAcknowledgement v;
      check Mutation_Validate limits (NewDeleteMutation key rev) ;;
      Ok (DeleteIfRevisionArguments key rev ack)
  | BatchArguments batch =>
      check validateBatchWire v ;;
      ack ← decodeAcknowledgement v;
      let batch := MkBatch ack (BatchAssertions batch) (BatchMutations batch) in
      check Batch_Validate limits batch ;;
      reject MaxBatchBytes limits <? len (raw_text v)
        with requestTooLarge "Batch exceeds the configured byte limit." (len (raw_text v)) (MaxBatchBytes limits) ;;
      Ok (BatchArguments batch)
  | a => Ok a
  end.

Definition carriesValue (o : Operation) : bool :=
  match o with OperationPut | OperationPutIfAbsent | OperationCompareAndSwap => true | _ => false end.

Definition decodeArguments (o : Operation) (v : jvalue) (limits : Limits) : result goerror Arguments :=
  reject carriesValue o && negb (objectHasField v "value_base64")
    with invalidProtocol "arguments.value_base64" "is required" None ;;
  match go_decode (argumentsType o) v (zero_value (argumentsType o)) ≫= argumentsOf o with
  | None => Err (invalidProtocol "arguments" jsonReason (Some (ErrText jsonReason)))
  | Some a =>
      check validateArguments v limits a ;;
      acknowledged v limits o a
  end.

(** ** The envelope *)

Definition requestEnvelope (arguments : jtype) : jtype :=
  TStruct [field "schema_version" (TPtr (TUint max_uint64)); omitempty "request_id" TString;
           field "operation" TString; field "arguments" arguments].

Definition DecodeRequest (payload : bytes) (limits : Limits) : result goerror Request :=
  reject MaxFrameBytes limits <? len payload with protocolFrameTooLarge (len payload) (MaxFrameBytes limits) ;;
  match decodeStrict payload with
  | Err e => Err (invalidProtocol "envelope" jsonReason (Some e))
  | Ok v =>
      match go_decode (requestEnvelope TRaw) v (zero_value (requestEnvelope TRaw)) with
      | Some (GStruct [GPtr version; GString requestID; GString operation; GRaw arguments]) =>
          match version with
          | Some (GNum version) =>
              reject negb (version =? SchemaVersion) with unsupportedVersion version ;;
              reject 256 <? len requestID with invalidProtocol "request_id" "must not exceed 256 bytes" None ;;
              match validOperation operation with
              | None => Err (invalidProtocol "operation" "is not a protocol v1 operation" None)
              | Some o =>
                  match arguments with
                  | None | Some JNull => Err (invalidProtocol "arguments" "must be an object" None)
                  | Some v =>
                      arguments ← decodeArguments o v limits;
                      Ok (MkRequest version requestID o arguments)
                  end
              end
          | _ => Err (invalidProtocol "schema_version" "is required" None)
          end
      | _ => Err (invalidProtocol "envelope" jsonReason (Some (ErrText jsonReason)))
      end
  end.

(** The type of the arguments an operation takes. *)
Definition validateArgumentsType (o : Operation) (a : Arguments) : error :=
  let valid :=
    match o, a with
    | OperationGet, GetArguments _ | OperationGetMany, GetManyArguments _
    | OperationReadRecoverySnapshot, RecoverySnapshotArguments _
    | (OperationPut | OperationPutIfAbsent), PutArguments _ _ _ _
    | OperationCompareAndSwap, CompareAndSwapArguments _ _ _ _ _
    | OperationDeleteIfRevision, DeleteIfRevisionArguments _ _ _
    | OperationAtomicBatch, BatchArguments _ | OperationScanPrefix, ScanArguments _ _ _
    | OperationWatch, WatchArguments _ _ | OperationVerify, VerifyArguments _
    | OperationCreateSnapshot, SnapshotArguments _ _ | OperationCompact, CompactArguments _ _
    | OperationBackup, BackupArguments _ _ _ | OperationOfflineInspect, OfflineInspectArguments _
    | OperationOfflineVerify, OfflineVerifyArguments _ _
    | OperationOfflineRecoverPropose, OfflineRecoverProposeArguments _
    | OperationOfflineRecoverApply, OfflineRecoverApplyArguments _ _ _ _ _
    | (OperationStatus | OperationHealth | OperationStats | OperationDescribeConfig), EmptyArguments => true
    | _, _ => false
    end in
  if valid : bool then None else Some (invalidProtocol "arguments" "unexpected arguments type" None).

Definition defaultAck (a : AckMode) : AckMode :=
  match a with AckUnknown s => if String.eqb s "" then AckMemory else a | _ => a end.

Definition normalizeRequestArguments (a : Arguments) : Arguments :=
  match a with
  | PutArguments key value expiresAt ack => PutArguments key value expiresAt (defaultAck ack)
  | CompareAndSwapArguments key rev value expiresAt ack => CompareAndSwapArguments key rev value expiresAt (defaultAck ack)
  | DeleteIfRevisionArguments key rev ack => DeleteIfRevisionArguments key rev (defaultAck ack)
  | BatchArguments b =>
      BatchArguments (Batch_Clone (MkBatch (defaultAck (BatchAck b)) (BatchAssertions b) (BatchMutations b)))
  | a => a
  end.

Definition requestValue (version : Z) (requestID : bytes) (o : Operation) (arguments : gval) : gval :=
  GStruct [GPtr (Some (GNum version)); GString requestID; GString (operationName o); arguments].

Definition EncodeRequest (request : Request) (limits : Limits) : result goerror bytes :=
  reject negb (RqSchemaVersion request =? SchemaVersion) with unsupportedVersion (RqSchemaVersion request) ;;
  reject 256 <? len (RqRequestID request) with invalidProtocol "request_id" "must not exceed 256 bytes" None ;;
  check validateArgumentsType (RqOperation request) (RqArguments request) ;;
  let arguments := normalizeRequestArguments (RqArguments request) in
  match go_encode (requestEnvelope (argumentsType (RqOperation request)))
          (requestValue (RqSchemaVersion request) (RqRequestID request) (RqOperation request) (argumentsValue arguments)) with
  | None => Err (invalidProtocol "arguments" "could not encode" (Some (ErrText jsonReason)))
  | Some payload =>
      _ ← DecodeRequest payload limits;
      Ok payload
  end.

(** ** Members of an encoded struct *)

Lemma member_cons name key v ms : member ((key, v) :: ms) name =
  if bool_decide (key = lit name) then Some v else member ms name.
Proof.
  unfold member. cbn [list_find]. case_bool_decide as Hk; [by rewrite decide_True|]. rewrite decide_False by done.
  by destruct (list_find _ ms) as [[]|].
Qed.

Lemma member_None ms name : lit name ∉ ms.*1 -> member ms name = None.
Proof.
  induction ms as [|[key v] ms IH]; [done|]. rewrite fmap_cons, not_elem_of_cons, member_cons. intros [Hk Hms].
  rewrite bool_decide_false by (simpl in Hk; congruence). by apply IH.
Qed.

(** A field of an encoded struct, by its place. *)
Lemma member_field_values fields vals i name t o x : NoDup (field_names fields) ->
  fields !! i = Some (lit name, t, o) -> vals !! i = Some x ->
  member (field_values fields vals) name = if o && is_empty x then None else Some (json_of t x).
Proof.
  unfold field_values. revert vals i. induction fields as [|[[n' t'] o'] fields IH]; intros vals i Hnd Hi Hx; [done|].
  unfold field_names in Hnd. rewrite fmap_cons in Hnd. apply NoDup_cons in Hnd as [Hn Hnd]. cbn [fst] in Hn.
  destruct vals as [|y vals]; [done|]. rewrite fmap_cons. cbn [json_fields fst snd].
  destruct i as [|i]; simpl in Hi, Hx.
  - injection Hi as -> -> ->. injection Hx as ->. destruct (o && is_empty x); cbn [app].
    + apply member_None. intros Hin. apply Hn. eapply elem_of_sublist; [exact Hin|apply field_values_sublist].
    + rewrite member_cons. by rewrite bool_decide_true.
  - assert (n' <> lit name) as Hne.
    { intros ->. apply Hn. apply list_elem_of_fmap. exists (lit name, t, o). split; [done|]. by eapply list_elem_of_lookup_2. }
    destruct (o' && is_empty y); cbn [app]; [by apply (IH _ i)|]. rewrite member_cons, bool_decide_false by done. by apply (IH _ i).
Qed.

(** ** Fields on the wire *)

Definition wire_time (t : option Time) : Prop := match t with Some t => rfc3339_range t | None => True end.

Create HintDb wire.

Lemma field_required n name t x : roundtrips n t x -> field_roundtrips n (field name t) x.
Proof. done. Qed.

Lemma field_optional n name t x : roundtrips n t x -> (is_empty x = true -> x = zero_value t) ->
  field_roundtrips n (omitempty name t) x.
Proof. intros Hr Hz. unfold field_roundtrips. simpl. destruct (is_empty x); [by apply Hz|done]. Qed.

Lemma roundtrips_revision n z : u64 z -> roundtrips n TRevision (GNum z).
Proof. intros Hz. apply roundtrips_uint; [exact Hz|done]. Qed.

Lemma roundtrips_optional_time n t : wire_time t -> roundtrips n (TPtr TTime) (timeValue t).
Proof. destruct t as [t|]; simpl; intros Ht; [apply roundtrips_ptr; [done|by apply roundtrips_time]|apply roundtrips_nil]. Qed.

#[export] Hint Resolve roundtrips_string roundtrips_revision roundtrips_int roundtrips_bool roundtrips_base64 roundtrips_bytes
  roundtrips_time roundtrips_optional_time roundtrips_nil_bytes roundtrips_nil_list : wire.

(** A pointer to a struct, and a struct whose decoder requires members. *)
Lemma roundtrips_pointer {A} n fields (f : A -> list gval) (x : option A) :
  (forall a, x = Some a -> roundtrips n (TStruct fields) (GStruct (f a))) ->
  roundtrips n (TPtr (TStruct fields)) (GPtr ((fun a => GStruct (f a)) <$> x)).
Proof. destruct x as [a|]; intros Hx; [apply roundtrips_ptr; [done|by apply Hx]|apply roundtrips_nil]. Qed.

Lemma roundtrips_required n names t g ms raw : roundtrips n t g -> json_of t g = JObject ms raw ->
  forallb (has_member ms) names = true -> roundtrips n (TRequired names t) g.
Proof.
  intros (He & Hr & Hd & Hc) Hj Hn. roundtrip; [|exact Hc]. cbn [go_decode json_of zero_value]. rewrite Hj in *. by rewrite Hn.
Qed.

(** A struct whose fields are round trips. *)
Ltac wire_fields :=
  apply roundtrips_struct; [apply (bool_decide_unpack _); vm_compute; done|];
  repeat (apply Forall2_cons; split); [..|apply Forall2_nil; done];
  lazymatch goal with
  | |- field_roundtrips _ (field _ _) _ => apply field_required
  | |- field_roundtrips _ (omitempty _ _) _ =>
      apply field_optional;
      [|try (simpl; intros Hempty; first [apply Z.eqb_eq in Hempty|apply bool_decide_eq_true in Hempty]; by rewrite Hempty)]
  end; eauto with wire.

(** Look a field of a concrete struct up. *)
Ltac find_member :=
  cbn [json_of jobject json_fields fmap list_fmap fst snd field omitempty app andb objectMember];
  repeat (rewrite member_cons; cbn [fst snd];
    match goal with |- context [bool_decide (lit ?x = lit ?y)] =>
      let r := eval vm_compute in (bool_decide (lit x = lit y)) in change (bool_decide (lit x = lit y)) with r
    end; cbv iota).
