(* ===== verification/Requests.v ===== *)
(** * The request codec is exact

    What [DecodeRequest] lets through satisfies the limits, whatever bytes
    arrive, and a request that fits the wire is received as it was sent.  The
    last part shows requests that do not: the codec refuses or changes them. *)

From stdpp Require Import base gmap list strings.
From Stdlib Require Import ZArith Lia.
From S2P Require Import Prelude.
From S2P Require Import Bytes.
From S2P Require Import Errors.
From S2P Require Import ApiTypes.
From S2P Require Import Base64.
From S2P Require Import Json.
From S2P Require Import GoTime.
From S2P Require Import GoJson.
From S2P Require Import Frame.
From S2P Require Import RecoverySnapshot.
From S2P Require Import Envelope.

Local Open Scope Z_scope.
Local Open Scope go_scope.

(** ** Acceptable arguments *)

Definition clean_absolute (path : bytes) : Prop := isAbs path = true /\ cleanRooted path = path.

Definition put_condition (o : Operation) : Condition :=
  match o with OperationPutIfAbsent => MkCondition ConditionAbsent 0 | _ => anyCondition end.

(** The declarative reading of the checks of [decodeArguments] for arguments
    whose text has [size] bytes. *)
Definition acceptable (limits : Limits) (o : Operation) (a : Arguments) (size : Z) : Prop :=
  match a with
  | GetArguments key => key_wf limits key
  | GetManyArguments keys =>
      keys <> [] /\ len keys <= MaxBatchOperations limits /\ size <= MaxBatchBytes limits /\
      Forall (key_wf limits) keys /\ NoDup keys
  | RecoverySnapshotArguments request => ValidateRecoverySnapshotRequest request limits = None
  | PutArguments key value expiresAt ack =>
      AckMode_Valid ack = true /\ mutation_wf limits (NewPutMutation key (Some value) (put_condition o) expiresAt)
  | CompareAndSwapArguments key rev value expiresAt ack =>
      AckMode_Valid ack = true /\
      mutation_wf limits (NewPutMutation key (Some value) (MkCondition ConditionRevision rev) expiresAt)
  | DeleteIfRevisionArguments key rev ack =>
      AckMode_Valid ack = true /\ mutation_wf limits (NewDeleteMutation key rev)
  | BatchArguments batch => Batch_Validate limits batch = None /\ size <= MaxBatchBytes limits
  | ScanArguments prefix limit _ =>
      utf8_valid prefix = true /\ len prefix <= MaxKeyBytes limits /\ 0 < limit <= MaxScanRecords limits
  | WatchArguments prefix _ => utf8_valid prefix = true /\ len prefix <= MaxKeyBytes limits
  | VerifyArguments mode => validMode mode = true
  | SnapshotArguments id _ | CompactArguments id _ => id <> []
  | BackupArguments id _ destination => id <> [] /\ destination <> []
  | OfflineInspectArguments path | OfflineRecoverProposeArguments path => clean_absolute path
  | OfflineVerifyArguments path mode => clean_absolute path /\ validMode mode = true
  | OfflineRecoverApplyArguments path action id _ destination =>
      clean_absolute path /\ clean_absolute destination /\ path <> destination /\
      action <> [] /\ len action <= 256 /\ id <> []
  | EmptyArguments => True
  end.

Definition carriesAck (a : Arguments) : bool :=
  match a with
  | PutArguments _ _ _ _ | CompareAndSwapArguments _ _ _ _ _ | DeleteIfRevisionArguments _ _ _ | BatchArguments _ => true
  | _ => false
  end.

Section acceptable.
Variable limits : Limits.
Hypothesis value_limit : 0 <= MaxValueBytes limits.

Lemma validateReadKey_None key : validateReadKey limits key = None <-> key_wf limits key.
Proof.
  unfold validateReadKey. rewrite Mutation_Validate_None. unfold mutation_wf. simpl.
  unfold value_len, condition_wf, len. simpl. tauto.
Qed.

Lemma validateReadKeys_None seen keys : validateReadKeys limits seen keys = None <->
  Forall (key_wf limits) keys /\ NoDup keys /\ Forall (fun key => key ∉ seen) keys.
Proof.
  revert seen. induction keys as [|key keys IH]; intros seen; simpl.
  { split; [intros _; split_and!; constructor|done]. }
  destruct (validateReadKey limits key) eqn:Hk; rewrite !Forall_cons, NoDup_cons.
  { split; [done|]. intros ((Hw & _) & _). apply validateReadKey_None in Hw. congruence. }
  apply validateReadKey_None in Hk. case_bool_decide as Hin; [split; [done|naive_solver]|].
  rewrite IH. rewrite !Forall_forall. split.
  - intros (Hw & Hn & Hs). split_and!; try done; [|intros k Hk'; specialize (Hs k Hk'); set_solver].
    intros Hkey. specialize (Hs key Hkey). set_solver.
  - intros ((_ & Hw) & (Hni & Hn) & _ & Hs). split_and!; try done. intros k Hk'. specialize (Hs k Hk'). set_solver.
Qed.

Lemma validateAbsolutePath_None name path : validateAbsolutePath name path = None <-> clean_absolute path.
Proof.
  unfold validateAbsolutePath, clean_absolute.
  destruct (bool_decide_reflect (path = [])) as [->|Hne]; [simpl; naive_solver|].
  destruct (isAbs path); [|simpl; naive_solver]. destruct (bool_decide_reflect (cleanRooted path = path)); simpl; naive_solver.
Qed.

(** The checks of the arguments without an acknowledgement. *)
(** Case analysis on the conditions of the goal. *)
Ltac conditions :=
  repeat match goal with
  | |- context [bool_decide ?P] => destruct (bool_decide_reflect P); simpl
  | |- context [?x <? ?y] => destruct (Z.ltb_spec x y); simpl
  | |- context [?x <=? ?y] => destruct (Z.leb_spec x y); simpl
  | |- context [utf8_valid ?x] => destruct (utf8_valid x); simpl
  | |- context [validMode ?x] => destruct (validMode x); simpl
  end;
  try solve [intuition (congruence || lia)].

Lemma validateArguments_None v o a : carriesAck a = false ->
  validateArguments v limits a = None <->
  acceptable limits o a (len (raw_text v)) /\
  match a with
  | OfflineRecoverApplyArguments _ _ _ _ _ => objectHasNonNullField v "expected_manifest_generation" = true
  | _ => True
  end.
Proof.
  intros Hack. destruct a; simpl in Hack |- *; try done; rewrite ?validateReadKey_None, ?validateAbsolutePath_None;
    try solve [conditions].
  - destruct (bool_decide_reflect (keys = [])); [simpl; intuition congruence|].
    destruct (Z.ltb_spec (MaxBatchOperations limits) (len keys)); [simpl; intuition (congruence || lia)|].
    destruct (Z.ltb_spec (MaxBatchBytes limits) (len (raw_text v))); [simpl; intuition (congruence || lia)|].
    simpl. rewrite validateReadKeys_None. split; [intuition|]. intros [(_ & _ & _ & Hw & Hn) _].
    split_and!; try done. apply Forall_forall. intros k _. apply not_elem_of_nil.
  - pose proof (validateAbsolutePath_None "arguments.database_path" databasePath) as Hp.
    destruct (validateAbsolutePath _ _); [intuition congruence|]. conditions.
  - pose proof (validateAbsolutePath_None "arguments.database_path" databasePath) as Hp.
    pose proof (validateAbsolutePath_None "arguments.destination" destination) as Hd.
    destruct (validateAbsolutePath "arguments.database_path" _); [intuition congruence|].
    destruct (validateAbsolutePath _ _); [intuition congruence|].
    destruct Hp as [Hp _], Hd as [Hd _]. specialize (Hp eq_refl). specialize (Hd eq_refl).
    destruct (Hp) as [_ ->], (Hd) as [_ ->]. destruct (objectHasNonNullField _ _); conditions.
Qed.

Lemma argumentsOf_type o g a : argumentsOf o g = Some a -> validateArgumentsType o a = None.
Proof.
  unfold argumentsOf, validateArgumentsType. intros Ha.
  destruct o; repeat (match type of Ha with context [match ?x with _ => _ end] => is_var x; destruct x; simplify_eq/= end);
    try done;
    repeat match type of Ha with
    | context [timeOf ?t] => destruct (timeOf t); simplify_eq/=
    | context [sliceOf ?f ?t] => destruct (sliceOf f t); simplify_eq/=
    end; done.
Qed.

Lemma decodeAcknowledgement_valid v ack : decodeAcknowledgement v = Ok ack -> AckMode_Valid ack = true.
Proof. unfold decodeAcknowledgement. intros Ha. repeat (case_match; simplify_eq/=); done. Qed.

(** Mutations: the acknowledgement and the typed arguments are valid. *)
Lemma acknowledged_Ok v o a a' : carriesAck a = true -> acknowledged v limits o a = Ok a' ->
  acceptable limits o a' (len (raw_text v)) /\ validateArgumentsType o a' = validateArgumentsType o a.
Proof.
  intros Hack. destruct a; simpl in Hack |- *; try done.
  - destruct (validateOptionalUTCTimeField _ _); [done|]. destruct (decodeAcknowledgement v) as [ack'|] eqn:Ha; [|done]. simpl.
    destruct (Mutation_Validate _ _) eqn:Hm; [done|]. intros [= <-]. apply Mutation_Validate_None in Hm.
    split; [split; [by eapply decodeAcknowledgement_valid|exact Hm]|by destruct o].
  - destruct (validateOptionalUTCTimeField _ _); [done|]. destruct (decodeAcknowledgement v) as [ack'|] eqn:Ha; [|done]. simpl.
    destruct (Mutation_Validate _ _) eqn:Hm; [done|]. intros [= <-]. apply Mutation_Validate_None in Hm.
    split; [split; [by eapply decodeAcknowledgement_valid|exact Hm]|by destruct o].
  - destruct (decodeAcknowledgement v) as [ack'|] eqn:Ha; [|done]. simpl.
    destruct (Mutation_Validate _ _) eqn:Hm; [done|]. intros [= <-]. apply Mutation_Validate_None in Hm.
    split; [split; [by eapply decodeAcknowledgement_valid|exact Hm]|by destruct o].
  - destruct (validateBatchWire v); [done|]. destruct (decodeAcknowledgement v) as [ack'|] eqn:Ha; [|done]. simpl.
    destruct (Batch_Validate _ _) eqn:Hm; [done|].
    destruct (Z.ltb_spec (MaxBatchBytes limits) (len (raw_text v))); [done|]. intros [= <-].
    split; [done|by destruct o].
Qed.

Lemma decodeArguments_Ok v o a : decodeArguments o v limits = Ok a ->
  acceptable limits o a (len (raw_text v)) /\ validateArgumentsType o a = None.
Proof.
  unfold decodeArguments. destruct (_ && _); [done|].
  destruct (go_decode _ _ _ ≫= argumentsOf o) as [a0|] eqn:Hd; [|done].
  apply bind_Some in Hd as (g & _ & Ht%argumentsOf_type).
  destruct (validateArguments v limits a0) eqn:Hv; [done|]. intros Ha.
  destruct (carriesAck a0) eqn:Hack; [apply acknowledged_Ok in Ha as [? ->]; done|].
  assert (a = a0) as -> by (destruct a0; simpl in *; congruence).
  split; [|done]. by apply (validateArguments_None v o) in Hv as [? _].
Qed.

End acceptable.

(** C21: whatever bytes arrive, a request that [DecodeRequest] lets through has
    the version of the protocol, an identity of at most 256 bytes, the
    arguments of its operation, and these are within the limits: keys,
    prefixes, conditions, values, acknowledgements and paths are valid. *)
Theorem decoded_request_acceptable limits payload r : 0 <= MaxValueBytes limits ->
  DecodeRequest payload limits = Ok r ->
  RqSchemaVersion r = SchemaVersion /\ len (RqRequestID r) <= 256 /\ len payload <= MaxFrameBytes limits /\
  validateArgumentsType (RqOperation r) (RqArguments r) = None /\
  exists arguments, decodeArguments (RqOperation r) arguments limits = Ok (RqArguments r) /\
    acceptable limits (RqOperation r) (RqArguments r) (len (raw_text arguments)).
Proof.
  intros Hvl. unfold DecodeRequest. destruct (Z.ltb_spec (MaxFrameBytes limits) (len payload)); [done|].
  destruct (decodeStrict payload) as [v|]; [|done].
  destruct (go_decode _ v _) as [[]|]; try done.
  repeat match goal with |- match ?l with _ => _ end = _ -> _ => is_var l; destruct l; try done end.
  destruct (Z.eqb_spec z SchemaVersion) as [->|]; [|done]. cbn [negb].
  destruct (Z.ltb_spec 256 (len s)); [done|]. destruct (validOperation s0) as [o|]; [|done].
  intros Hd. assert (exists arguments a, decodeArguments o arguments limits = Ok a /\ r = MkRequest SchemaVersion s o a)
    as (arguments & a & Ha & ->).
  { destruct o0 as [[]|]; try done; match type of Hd with (mbind _ (decodeArguments o ?x limits) = _) => exists x end;
      destruct (decodeArguments _ _ _) as [a|]; try done; exists a; by simplify_eq/=. }
  destruct (decodeArguments_Ok _ Hvl _ _ _ Ha) as [Hacc Ht]. split_and!; try done. by exists arguments.
Qed.

(** ** Arguments that fit the wire *)

Definition wire_text {K} (read : bytes -> K) (text : K -> bytes) (k : K) : Prop := read (text k) = k /\ utf8_valid (text k) = true.
Definition wire_ack : AckMode -> Prop := wire_text ackOf ackText.
Definition wire_condition (c : Condition) : Prop :=
  wire_text conditionOf conditionText (CondKind c) /\ u64 (CondExpected c).
Definition wire_assertion (a : Assertion) : Prop := utf8_valid (AssKey a) = true /\ wire_condition (AssCondition a).

(** A put has a value; the wire cannot tell an empty value from no value. *)
Definition wire_value (m : Mutation) : Prop :=
  MutValue m <> Some [] /\ (MutKind m = MutationPut -> MutValue m <> None).

Definition wire_mutation (m : Mutation) : Prop :=
  wire_text mutationOf mutationText (MutKind m) /\ utf8_valid (MutKey m) = true /\ wire_condition (MutCondition m) /\
  wire_value m /\ wire_time (MutExpiresAt m).

Definition wire_arguments (a : Arguments) : Prop :=
  match a with
  | GetArguments key => utf8_valid key = true
  | GetManyArguments keys => Forall (fun key => utf8_valid key = true) keys
  | RecoverySnapshotArguments r =>
      utf8_valid (RrPrefix r) = true /\ u64 (RrExpectedRevision r) /\ i64 (RrMaxRecords r) /\ i64 (RrMaxBytes r)
  | PutArguments key _ expiresAt ack => utf8_valid key = true /\ wire_time expiresAt /\ wire_ack ack
  | CompareAndSwapArguments key rev _ expiresAt ack =>
      utf8_valid key = true /\ u64 rev /\ wire_time expiresAt /\ wire_ack ack
  | DeleteIfRevisionArguments key rev ack => utf8_valid key = true /\ u64 rev /\ wire_ack ack
  | BatchArguments b =>
      wire_ack (BatchAck b) /\ Forall wire_assertion (BatchAssertions b) /\ Forall wire_mutation (BatchMutations b)
  | ScanArguments prefix limit cursor => utf8_valid prefix = true /\ i64 limit /\ utf8_valid cursor = true
  | WatchArguments prefix rev => utf8_valid prefix = true /\ u64 rev
  | VerifyArguments mode => utf8_valid mode = true
  | SnapshotArguments id rev | CompactArguments id rev => utf8_valid id = true /\ u64 rev
  | BackupArguments id rev destination => utf8_valid id = true /\ u64 rev /\ utf8_valid destination = true
  | OfflineInspectArguments path | OfflineRecoverProposeArguments path => utf8_valid path = true
  | OfflineVerifyArguments path mode => utf8_valid path = true /\ utf8_valid mode = true
  | OfflineRecoverApplyArguments path action id generation destination =>
      utf8_valid path = true /\ utf8_valid action = true /\ utf8_valid id = true /\ u64 generation /\
      utf8_valid destination = true
  | EmptyArguments => True
  end.

(** *** Structs *)

Lemma roundtrips_condition n c : wire_condition c -> roundtrips (S n) ConditionType (conditionValue c).
Proof. intros [[_ Ht] He]. unfold ConditionType. wire_fields. Qed.

#[local] Hint Resolve roundtrips_condition : wire.

Lemma roundtrips_assertion n a : wire_assertion a -> roundtrips (S (S n)) AssertionType (assertionValue a).
Proof. intros [Hk Hc]. unfold AssertionType. wire_fields. Qed.

Lemma roundtrips_mutation n m : wire_mutation m -> roundtrips (S (S n)) MutationType (mutationValue m).
Proof.
  intros ([_ Ht] & Hk & Hc & [Hv _] & Hm). unfold MutationType. wire_fields.
  - by destruct (MutValue m); eauto with wire.
  - destruct (MutValue m) as [[]|]; done.
  - by destruct (MutExpiresAt m).
Qed.

Lemma roundtrips_slice {A} n t (f : A -> gval) l : Forall (fun x => roundtrips n t (f x)) l ->
  roundtrips (S n) (TList t) (GList (Some (f <$> l))).
Proof. intros Hl. apply roundtrips_list. by rewrite Forall_fmap. Qed.

Lemma roundtrips_keys n keys : Forall (fun key => utf8_valid key = true) keys ->
  roundtrips (S n) (TList TString) (GList (Some (GString <$> keys))).
Proof. intros Hk. apply roundtrips_slice. eapply Forall_impl; [exact Hk|]. auto with wire. Qed.

Lemma roundtrips_assertions n l : Forall wire_assertion l ->
  roundtrips (S (S (S n))) (TList AssertionType) (sliceValue assertionValue l).
Proof.
  intros Hl. destruct l as [|a l]; [auto with wire|]. apply roundtrips_slice. eapply Forall_impl; [exact Hl|].
  intros. by apply roundtrips_assertion.
Qed.

Lemma roundtrips_mutations n l : Forall wire_mutation l ->
  roundtrips (S (S (S n))) (TList MutationType) (GList (Some (mutationValue <$> l))).
Proof. intros Hl. apply roundtrips_slice. eapply Forall_impl; [exact Hl|]. intros. by apply roundtrips_mutation. Qed.

#[local] Hint Resolve roundtrips_keys roundtrips_assertions roundtrips_mutations : wire.

Lemma arguments_roundtrip o a : validateArgumentsType o a = None -> wire_arguments a ->
  roundtrips 4 (argumentsType o) (argumentsValue a).
Proof.
  intros Ht Hw. unfold wire_ack, wire_text in *.
  destruct o, a; try discriminate; clear Ht; simpl in Hw; unfold wire_ack, wire_text in Hw; destruct_and? Hw;
    unfold argumentsType, argumentsValue; wire_fields; try by destruct expiresAt.
  by destruct (BatchAssertions batch).
Qed.

(** *** Back from the decoded struct *)

Lemma timeOf_value t : timeOf (timeValue t) = Some t.
Proof. by destruct t. Qed.

Lemma conditionOf_value c : wire_condition c -> conditionOfValue (conditionValue c) = Some c.
Proof. intros [[Hk _] _]. unfold conditionOfValue, conditionValue. rewrite Hk. by destruct c. Qed.

Lemma sliceOf_values {A} (f : A -> gval) (g : gval -> option A) l : Forall (fun x => g (f x) = Some x) l ->
  mapM g (f <$> l) = Some l.
Proof. induction 1 as [|x l Hx _ IH]; [done|]. rewrite fmap_cons. cbn [mapM]. by rewrite Hx, IH. Qed.

Lemma assertionsOf_values l : Forall wire_assertion l -> sliceOf assertionOfValue (sliceValue assertionValue l) = Some l.
Proof.
  intros Hl. destruct l as [|a l]; [done|]. cbn [sliceValue sliceOf]. apply sliceOf_values.
  eapply Forall_impl; [exact Hl|]. intros x [_ Hc]. unfold assertionOfValue, assertionValue.
  rewrite conditionOf_value by done. by destruct x.
Qed.

Lemma mutationsOf_values l : Forall wire_mutation l -> sliceOf mutationOfValue (GList (Some (mutationValue <$> l))) = Some l.
Proof.
  intros Hl. cbn [sliceOf]. apply sliceOf_values. eapply Forall_impl; [exact Hl|].
  intros x ([Hk _] & _ & Hc & _). unfold mutationOfValue, mutationValue.
  rewrite conditionOf_value by done. cbn [mbind option_bind]. rewrite timeOf_value. cbn [mbind option_bind]. rewrite Hk. by destruct x.
Qed.

Lemma argumentsOf_value o a : validateArgumentsType o a = None -> wire_arguments a ->
  argumentsOf o (argumentsValue a) = Some a.
Proof.
  intros Ht Hw. destruct o, a; try discriminate; clear Ht; simpl in Hw; unfold wire_ack, wire_text in Hw; destruct_and? Hw;
    cbn [argumentsOf argumentsValue]; rewrite ?timeOf_value; cbn [mbind option_bind default]; unfold id; try congruence.
  - cbn [sliceOf]. by rewrite sliceOf_values by (by apply Forall_forall).
  - by destruct request.
  - rewrite assertionsOf_values, mutationsOf_values by done. cbn [mbind option_bind]. destruct batch. simpl in *. congruence.
Qed.

(** *** The checks on the value that arrives *)

Definition arrived (o : Operation) (a : Arguments) : jvalue := json_of (argumentsType o) (argumentsValue a).

Lemma time_field_ok ms name t raw : wire_time t ->
  member ms name = (match t with Some t => Some (jstring (FormatRFC3339Nano t)) | None => None end) ->
  validateOptionalUTCTimeField (JObject ms raw) name = None.
Proof.
  intros Ht Hm. unfold validateOptionalUTCTimeField. rewrite Hm. destruct t as [t|]; [|done]. simpl.
  by rewrite parse_canonical_format.
Qed.

(** The acknowledgement arguments carry. *)
Definition argumentsAck (a : Arguments) : AckMode :=
  match a with
  | PutArguments _ _ _ ack | CompareAndSwapArguments _ _ _ _ ack | DeleteIfRevisionArguments _ _ ack => ack
  | BatchArguments b => BatchAck b
  | _ => AckMemory
  end.

Lemma arrived_time o a : validateArgumentsType o a = None -> wire_arguments a -> carriesValue o = true ->
  validateOptionalUTCTimeField (arrived o a) "expires_at" = None.
Proof.
  intros Ht Hw Ho. destruct o, a; try discriminate; simpl in Hw; unfold arrived;
    cbn [json_of argumentsType argumentsValue jobject]; apply (time_field_ok _ _ expiresAt); try tauto;
    destruct expiresAt; find_member; done.
Qed.

Lemma arrived_value o a : validateArgumentsType o a = None -> carriesValue o = true ->
  objectHasField (arrived o a) "value_base64" = true.
Proof.
  intros Ht Ho. unfold objectHasField. destruct o, a; try discriminate; unfold arrived; cbn [argumentsType argumentsValue];
    by find_member.
Qed.

Lemma decodeAcknowledgement_member ms raw ack : wire_ack ack -> member ms "ack" = Some (jstring (ackText ack)) ->
  decodeAcknowledgement (JObject ms raw) =
  if AckMode_Valid ack then Ok ack else Err (invalidProtocol "arguments.ack" "must be memory or durable when present" None).
Proof. intros [Ha _] Hm. unfold decodeAcknowledgement. rewrite Hm. simpl. by rewrite Ha. Qed.

Lemma arrived_ack o a : validateArgumentsType o a = None -> wire_arguments a -> carriesAck a = true ->
  decodeAcknowledgement (arrived o a) =
  if AckMode_Valid (argumentsAck a) then Ok (argumentsAck a)
  else Err (invalidProtocol "arguments.ack" "must be memory or durable when present" None).
Proof.
  intros Ht Hw Ha. destruct o, a; try discriminate; simpl in Hw; unfold arrived;
    cbn [json_of argumentsType argumentsValue jobject argumentsAck]; apply decodeAcknowledgement_member; try tauto;
    try (destruct expiresAt; by find_member); by find_member.
Qed.

Lemma arrived_generation path action id generation destination :
  objectHasNonNullField (arrived OperationOfflineRecoverApply (OfflineRecoverApplyArguments path action id generation destination))
    "expected_manifest_generation" = true.
Proof. unfold objectHasNonNullField, arrived. cbn [argumentsType argumentsValue]. by find_member. Qed.

(** **** Batches *)

Definition mutationMembers (m : Mutation) : list (bytes * jvalue) :=
  match json_of MutationType (mutationValue m) with JObject ms _ => ms | _ => [] end.

Lemma mutation_wire_ok limits i m : wire_mutation m -> mutation_wf limits m ->
  validateMutationWire i (mutationMembers m) = None.
Proof.
  intros ([Hk _] & _ & _ & [Hne Hv] & Ht) (_ & _ & Hwf).
  assert (Hm : member (mutationMembers m) "expires_at" = 
    match MutExpiresAt m with Some t => Some (jstring (FormatRFC3339Nano t)) | None => None end).
  { unfold mutationMembers, mutationValue, MutationType.
    destruct (MutValue m) as [[]|], (MutExpiresAt m); find_member; done. }
  assert (Hb : member (mutationMembers m) "value_base64" =
    match MutValue m with Some (b :: l) => Some (jstring (StdEncodeToString (b :: l))) | _ => None end).
  { clear Hm. unfold mutationMembers, mutationValue, MutationType.
    destruct (MutValue m) as [[]|], (MutExpiresAt m); find_member; done. }
  assert (Hkind : member (mutationMembers m) "kind" = Some (jstring (mutationText (MutKind m)))).
  { clear Hm Hb. unfold mutationMembers, mutationValue, MutationType. by find_member. }
  unfold validateMutationWire. rewrite Hkind. cbn [jstring]. rewrite Hk, Hb, Hm.
  assert (Htime : validateOptionalUTCTimeField (JObject (mutationMembers m) []) "expires_at" = None)
    by (by apply (time_field_ok _ _ (MutExpiresAt m))).
  rewrite Htime. destruct (MutKind m); [|destruct Hwf as (_ & -> & ->); done|done].
  destruct (MutValue m) as [[|b l]|]; [done| |by destruct Hv]. 
  destruct (roundtrips_base64 0 (b :: l)) as (_ & _ & Hd & _). cbn [json_of default] in Hd. unfold id in Hd. rewrite Hd.
  by destruct (MutExpiresAt m).
Qed.

Lemma Batch_Validate_mutations limits b : Batch_Validate limits b = None -> Forall (mutation_wf limits) (BatchMutations b).
Proof.
  unfold Batch_Validate. destruct (negb _); [done|]. destruct (_ =? 0); [done|]. cbv zeta. destruct (_ || _); [done|].
  destruct (validateAssertions _ _ _ _ _) as [[seen n]|]; [|done]. by intros (? & _)%validateMutations_None.
Qed.

Lemma batch_wire_ok limits o b : o = OperationAtomicBatch -> wire_arguments (BatchArguments b) ->
  Batch_Validate limits b = None -> validateBatchWire (arrived o (BatchArguments b)) = None.
Proof.
  intros -> (_ & _ & Hw) Hv%Batch_Validate_mutations.
  assert (Hm : forall found, exists l, mapM objectMembers (json_of MutationType <$> (mutationValue <$> BatchMutations b)) = Some l /\
    validateMutationsWire found l = None).
  { revert Hv. induction Hw as [|m l Hm _ IH]; intros Hv found; [by exists []|].
    apply Forall_cons in Hv as [Hv Hvs]. destruct (IH Hvs (found + 1)) as (l' & Hl & Hn).
    exists (mutationMembers m :: l'). rewrite !fmap_cons. cbn [mapM].
    change (objectMembers (json_of MutationType (mutationValue m))) with (Some (mutationMembers m)).
    rewrite Hl. split; [done|]. cbn [validateMutationsWire]. by rewrite (mutation_wire_ok limits). }
  destruct (Hm 0) as (l & Hl & Hn). unfold arrived, validateBatchWire.
  cbn [json_of argumentsType argumentsValue jobject json_fields fmap list_fmap fst snd field omitempty app andb].
  assert (wireMutations [(lit "mutations", jarray (json_of MutationType <$> (mutationValue <$> BatchMutations b)))] [] = Some l) as Hwm.
  { cbn [wireMutations jarray]. change (find_field [lit "mutations"] (lit "mutations")) with (Some 0%nat). cbv iota. by rewrite Hl. }
  assert (Hskip : forall key v ms, find_field [lit "mutations"] (lit key) = None ->
    wireMutations ((lit key, v) :: ms) [] = wireMutations ms []) by (intros key v ms Hf; cbn [wireMutations]; by rewrite Hf).
  rewrite Hskip by done. destruct (is_empty _); cbn [app]; [|rewrite Hskip by done]; by rewrite Hwm.
Qed.

Lemma decodeArguments_arrived limits o a : 0 <= MaxValueBytes limits -> validateArgumentsType o a = None -> wire_arguments a ->
  acceptable limits o a (len (raw_text (arrived o a))) -> decodeArguments o (arrived o a) limits = Ok a.
Proof.
  intros Hvl Ht Hw Hacc. unfold decodeArguments.
  assert (carriesValue o && negb (objectHasField (arrived o a) "value_base64") = false) as ->
    by (destruct (carriesValue o) eqn:Hc; [rewrite arrived_value by done|]; done).
  destruct (arguments_roundtrip o a Ht Hw) as (_ & _ & Hd & _). unfold arrived at 1. rewrite Hd. cbn [mbind option_bind].
  rewrite argumentsOf_value by done. destruct (carriesAck a) eqn:Hack.
  - pose proof (arrived_ack o a Ht Hw Hack) as Ha. pose proof (arrived_time o a Ht Hw) as Htime.
    destruct o, a; try discriminate; cbn [validateArguments acknowledged acceptable argumentsAck put_condition] in *;
      rewrite ?Htime, ?Ha by done; destruct Hacc as [Hok Hrest];
      try (apply Mutation_Validate_None in Hrest; by rewrite Hok; cbn [mbind result_bind]; rewrite Hrest).
    rewrite (batch_wire_ok limits) by done.
    assert (AckMode_Valid (BatchAck batch) = true) as -> by (unfold Batch_Validate in Hok; by destruct (AckMode_Valid _)).
    cbn [mbind result_bind]. destruct batch as [ack assertions mutations]. cbn [BatchAck BatchAssertions BatchMutations] in *.
    rewrite Hok. by replace (_ <? _) with false by lia.
  - assert (validateArguments (arrived o a) limits a = None) as ->.
    { apply (validateArguments_None limits Hvl _ o); [done|]. split; [done|].
      destruct a; try done. destruct o; try discriminate. apply arrived_generation. }
    by destruct a.
Qed.

(** No other arguments arrive. *)
Lemma decodeArguments_same limits o a a' : validateArgumentsType o a = None -> wire_arguments a ->
  decodeArguments o (arrived o a) limits = Ok a' -> a' = a.
Proof.
  intros Ht Hw. unfold decodeArguments. destruct (_ && _); [done|].
  destruct (arguments_roundtrip o a Ht Hw) as (_ & _ & Hd & _). unfold arrived at 1. rewrite Hd. cbn [mbind option_bind].
  rewrite argumentsOf_value by done. destruct (validateArguments _ _ _); [done|].
  destruct (carriesAck a) eqn:Hack; [|by destruct a; try done; intros [= <-]].
  pose proof (arrived_ack o a Ht Hw Hack) as Ha. 
  destruct a; try discriminate; cbn [acknowledged argumentsAck] in *;
    repeat match goal with |- match ?x with Some _ => _ | None => _ end = _ -> _ => destruct x; [done|] end;
    rewrite Ha; destruct (AckMode_Valid _); try done; cbn [mbind result_bind];
    repeat match goal with |- match ?x with Some _ => _ | None => _ end = _ -> _ => destruct x; [done|] end;
    try (by intros [= <-]). destruct (_ <? _); [done|]. intros [= <-]. by destruct batch.
Qed.

(** ** The envelope *)

Lemma validOperation_name o : validOperation (operationName o) = Some o.
Proof. by destruct o; vm_compute. Qed.

Lemma operationName_utf8 o : utf8_valid (operationName o) = true.
Proof. by destruct o. Qed.

(** A request that the wire can carry. *)
Record wire_request (r : Request) : Prop := {
  wr_version : RqSchemaVersion r = SchemaVersion;
  wr_identity : len (RqRequestID r) <= 256 /\ utf8_valid (RqRequestID r) = true;
  wr_type : validateArgumentsType (RqOperation r) (RqArguments r) = None;
  wr_arguments : wire_arguments (normalizeRequestArguments (RqArguments r))
}.

(** The request with [memory] as the acknowledgement where it has none. *)
Definition normalized (r : Request) : Request :=
  MkRequest (RqSchemaVersion r) (RqRequestID r) (RqOperation r) (normalizeRequestArguments (RqArguments r)).

Definition argumentsText (r : Request) : bytes :=
  raw_text (arrived (RqOperation r) (normalizeRequestArguments (RqArguments r))).

Definition requestJson (r : Request) : jvalue :=
  json_of (requestEnvelope (argumentsType (RqOperation r)))
    (requestValue (RqSchemaVersion r) (RqRequestID r) (RqOperation r)
       (argumentsValue (normalizeRequestArguments (RqArguments r)))).
Definition requestText (r : Request) : bytes := raw_text (requestJson r).

Lemma normalize_type o a : validateArgumentsType o (normalizeRequestArguments a) = validateArgumentsType o a.
Proof. by destruct o, a. Qed.

(** The envelope around arguments of any type. *)
Lemma envelope_roundtrip t r g : wire_request r -> roundtrips 4 t g -> roundtrips 5 (requestEnvelope t)
  (requestValue (RqSchemaVersion r) (RqRequestID r) (RqOperation r) g).
Proof.
  intros Hr Hg. destruct (wr_identity _ Hr) as [_ Hid]. pose proof (operationName_utf8 (RqOperation r)) as Hop.
  unfold requestEnvelope, requestValue. wire_fields.
  rewrite (wr_version _ Hr). apply roundtrips_ptr; [done|]. by apply roundtrips_uint.
Qed.

Lemma decodeStrict_reads payload v : reads_as 5 payload v -> clean v -> raw_text v = payload -> payload <> [] ->
  decodeStrict payload = Ok v.
Proof.
  intros Hr [Hu Hd] Hraw Hne. unfold decodeStrict. rewrite bool_decide_false by done. rewrite <- Hraw in *. rewrite Hu. cbn [negb].
  assert (json_decode (raw_text v) = Some (v, [])) as ->.
  { rewrite <- (app_nil_r (raw_text v)). apply Hr; [|done]. unfold maxNestingDepth. lia. }
  rewrite Hd. done.
Qed.

Lemma DecodeRequest_text limits r : wire_request r -> len (requestText r) <= MaxFrameBytes limits ->
  DecodeRequest (requestText r) limits =
  arguments ← decodeArguments (RqOperation r) (arrived (RqOperation r) (normalizeRequestArguments (RqArguments r))) limits;
  Ok (MkRequest (RqSchemaVersion r) (RqRequestID r) (RqOperation r) arguments).
Proof.
  intros Hr Hlen. set (a := normalizeRequestArguments (RqArguments r)).
  assert (Ha : roundtrips 4 (argumentsType (RqOperation r)) (argumentsValue a)).
  { apply arguments_roundtrip; [unfold a; rewrite normalize_type; apply Hr|apply Hr]. }
  assert (Hraw : roundtrips 4 TRaw (GRaw (Some (arrived (RqOperation r) a)))) by (apply roundtrips_raw; apply Ha).
  destruct (envelope_roundtrip TRaw r _ Hr Hraw) as (_ & Hread & Hdec & Hclean).
  change (json_of (requestEnvelope TRaw) _) with (requestJson r) in Hread, Hdec, Hclean.
  unfold DecodeRequest. replace (_ <? _) with false by lia.
  rewrite (decodeStrict_reads _ (requestJson r)) by done. rewrite Hdec.
  unfold requestValue. destruct (wr_identity _ Hr) as [Hid _]. rewrite (wr_version _ Hr), Z.eqb_refl. cbn [negb].
  replace (_ <? _) with false by lia. rewrite validOperation_name. fold a.
  assert (exists ms, arrived (RqOperation r) a = JObject ms (raw_text (arrived (RqOperation r) a))) as [ms Hms]; [|by rewrite Hms].
  unfold arrived, argumentsType, argumentsValue. eexists. reflexivity.
Qed.

(** C20: the request codec is exact.  A request that the wire can carry is
    encoded exactly when its arguments are acceptable and it fits the frame,
    and then the decoder returns the request that was encoded, with [memory] as
    the acknowledgement where none was given; any other one is refused by
    both sides with the same error. *)
Theorem request_codec_exact limits r : 0 <= MaxValueBytes limits -> wire_request r ->
  let fits := acceptable limits (RqOperation r) (RqArguments (normalized r)) (len (argumentsText r)) /\
              len (requestText r) <= MaxFrameBytes limits in
  (fits -> EncodeRequest r limits = Ok (requestText r) /\ DecodeRequest (requestText r) limits = Ok (normalized r)) /\
  (~ fits -> exists e, EncodeRequest r limits = Err e /\ DecodeRequest (requestText r) limits = Err e).
Proof.
  intros Hvl Hr fits. pose proof (normalize_type (RqOperation r) (RqArguments r)) as Ht. rewrite (wr_type _ Hr) in Ht.
  pose proof (wr_arguments _ Hr) as Hw.
  assert (Henc : EncodeRequest r limits = (_ ← DecodeRequest (requestText r) limits; Ok (requestText r))).
  { unfold EncodeRequest. rewrite (wr_version _ Hr), Z.eqb_refl, (wr_type _ Hr). cbn [negb].
    destruct (wr_identity _ Hr) as [Hid _]. replace (256 <? _) with false by lia. rewrite <- (wr_version _ Hr). cbv zeta.
    by destruct (envelope_roundtrip _ r _ Hr (arguments_roundtrip _ _ Ht Hw)) as (-> & _). }
  rewrite Henc. destruct (Z.leb_spec (len (requestText r)) (MaxFrameBytes limits)) as [Hlen|Hlen].
  2:{ split; [intros [_ ?]; lia|]. intros _. unfold DecodeRequest. replace (MaxFrameBytes limits <? _) with true by lia. by eexists. }
  rewrite DecodeRequest_text by done. split; intros Hacc.
  - rewrite decodeArguments_arrived; try done. apply Hacc.
  - destruct (decodeArguments _ _ _) as [a|e] eqn:Hd; [|by exists e]. exfalso. apply Hacc. split; [|done].
    pose proof (decodeArguments_Ok _ Hvl _ _ _ Hd) as [Ha _]. by rewrite (decodeArguments_same _ _ _ _ Ht Hw Hd) in Ha.
Qed.

(** ** A sample, and requests that do not survive *)

Module SampleRequest.
Definition batch : Batch := MkBatch AckDurable
  [MkAssertion (lit "jobs/1") (MkCondition ConditionRevision 7)]
  [NewPutMutation (lit "jobs/2") (Some (lit "queued")) (MkCondition ConditionAbsent 0) (Some 1700000000500000000);
   NewDeleteMutation (lit "jobs/3") 4].
Definition request : Request := MkRequest SchemaVersion (lit "r-1") OperationAtomicBatch (BatchArguments batch).

(** Text with single quotes for double ones. *)
Definition json (s : string) : bytes := (fun b => if b2z b =? 39 then chr 34 else b) <$> lit s.

Lemma wire_sample : wire_request request.
Proof.
  split; try done. split_and!; [by vm_compute|repeat constructor; by vm_compute|].
  repeat constructor; try by vm_compute. 
Qed.
End SampleRequest.

Lemma request_codec_exact_witness :
  EncodeRequest SampleRequest.request DefaultOptions = Ok (requestText SampleRequest.request) /\
  DecodeRequest (requestText SampleRequest.request) DefaultOptions = Ok (normalized SampleRequest.request).
Proof.
  destruct (request_codec_exact DefaultOptions SampleRequest.request) as [Hok _]; [done|apply SampleRequest.wire_sample|].
  apply Hok. split; [split; vm_compute; done|vm_compute; done].
Defined.

Lemma decoded_request_acceptable_witness : exists arguments,
  acceptable DefaultOptions OperationPut (PutArguments (lit "k") (lit "v") None AckDurable) (len (raw_text arguments)).
Proof.
  destruct (decoded_request_acceptable DefaultOptions
    (SampleRequest.json "{'schema_version':1,'operation':'put','arguments':{'key':'k','value_base64':'dg==','ack':'durable'}}")
    (MkRequest 1 [] OperationPut (PutArguments (lit "k") (lit "v") None AckDurable)))
    as (_ & _ & _ & _ & arguments & _ & Ha); [done|vm_compute; reflexivity|by exists arguments].
Defined.

(** A batch may put an empty value, but [Mutation.Value] is marked [omitempty]:
    the request has no [value_base64] for it and is refused. *)
Example empty_value_batch_refused :
  let batch := MkBatch AckMemory [] [NewPutMutation (lit "k") (Some []) anyCondition None] in
  Batch_Validate DefaultOptions batch = None /\
  EncodeRequest (MkRequest SchemaVersion [] OperationAtomicBatch (BatchArguments batch)) DefaultOptions =
    Err (invalidProtocol "arguments.mutations[0].value_base64" "is required for put" None).
Proof. vm_compute. split; reflexivity. Qed.

(** The struct takes [ACK] for the field [ack] as encoding/json does, but the
    acknowledgement is looked up by its exact name: a durable acknowledgement
    is asked for and [memory] is given. *)
Example acknowledgement_case_folded :
  DecodeRequest
    (SampleRequest.json "{'schema_version':1,'operation':'put','arguments':{'key':'k','value_base64':'dg==','ACK':'durable'}}")
    DefaultOptions =
  Ok (MkRequest 1 [] OperationPut (PutArguments (lit "k") (lit "v") None AckMemory)).
Proof. vm_compute. reflexivity. Qed.

(** A prefix that is not UTF-8 is not refused: encoding/json replaces it, and
    another prefix is scanned. *)
Example invalid_prefix_replaced :
  let request prefix := MkRequest SchemaVersion [] OperationScanPrefix (ScanArguments prefix 10 []) in
  exists payload, EncodeRequest (request [z2b 255]) DefaultOptions = Ok payload /\
    DecodeRequest payload DefaultOptions = Ok (request [z2b 239; z2b 191; z2b 189]).
Proof.
  exists (SampleRequest.json "{'schema_version':1,'operation':'scan_prefix','arguments':{'prefix':'\ufffd','limit':10}}").
  vm_compute. split; reflexivity.
Qed.
