(* ===== verification/ReadMany.v ===== *)
(** * Batched reads (gapdb/read_many.go, internal/engine/state.go)

    A batched read returns one entry per requested key, in the order of the
    request, all at one revision and one time.  Its result is bounded by the
    length of its JSON encoding. *)

From stdpp Require Import base gmap list strings.
From Stdlib Require Import ZArith Lia.
From S2P Require Import Prelude.
From S2P Require Import Bytes.
From S2P Require Import Errors.
From S2P Require Import ApiTypes.
From S2P Require Import Clock.
From S2P Require Import Engine.
From S2P Require Import EngineInv.
From S2P Require Import Scan.
From S2P Require Import Base64.
From S2P Require Import Json.
From S2P Require Import GoTime.
From S2P Require Import GoJson.
From S2P Require Import Envelope.

Local Open Scope Z_scope.
Local Open Scope go_scope.

(** ** JSON of records and entries *)

Definition RecordType : jtype :=
  TStruct [field "key" TString; field "value_base64" TBytes; field "revision" TRevision;
           omitempty "expires_at" (TPtr TTime)].
Definition ReadManyEntryType : jtype :=
  TStruct [field "key" TString; field "found" TBool; omitempty "record" (TPtr RecordType)].
Definition ReadManyResultType : jtype :=
  TStruct [field "observed_revision" TRevision; field "as_of" TTime; field "entries" (TList ReadManyEntryType)].

Definition recordValue (r : DBRecord) : gval :=
  GStruct [GString (RecKey r); GBytes (Some (RecValue r)); GNum (RecRevision r); timeValue (RecExpiresAt r)].
Definition entryValue (e : ReadManyEntry) : gval :=
  GStruct [GString (EntryKey e); GBool (EntryFound e); GPtr (recordValue <$> EntryRecord e)].
Definition readManyValue (r : ReadManyResult) : gval :=
  GStruct [GNum (ManyObserved r); GTime (ManyAsOf r); sliceValue entryValue (ManyEntries r)].

(** ** Validation of a result *)

Definition readManyTooLarge (received maximum : Z) : goerror :=
  frameTooLarge "Exact read response exceeds the configured scan limit." received maximum.

(** The loop over the entries. *)
Fixpoint validateReadManyEntries (limits : Limits) (observed : Revision) (asOf : Time) (seen : list bytes)
    (entries : list ReadManyEntry) : error :=
  match entries with
  | [] => None
  | entry :: entries =>
      match Mutation_Validate limits (MkMutation MutationPut (EntryKey entry) anyCondition None None) with
      | Some e => Some (ErrWrap "read-many entry key" e)
      | None =>
          if bool_decide (EntryKey entry ∈ seen) then Some (ErrText "read-many entry keys must be unique")
          else if negb (Bool.eqb (EntryFound entry) (if EntryRecord entry then true else false))
          then Some (ErrText "read-many found flag and record presence differ")
          else match EntryRecord entry with
          | None => validateReadManyEntries limits observed asOf (EntryKey entry :: seen) entries
          | Some record =>
              if negb (bool_decide (RecKey record = EntryKey entry)) || (RecRevision record =? 0) || (observed <? RecRevision record)
              then Some (ErrText "read-many record identity or revision is inconsistent")
              else if match RecExpiresAt record with Some t => negb (time_After t asOf) | None => false end
              then Some (ErrText "read-many record is expired at the observation time")
              else validateReadManyEntries limits observed asOf (EntryKey entry :: seen) entries
          end
      end
  end.

(** The result with what [json.Marshal] returns for it, which depends on whether
    an empty value is [nil].  Times are instants here: the offset of their zone
    is that of UTC. *)
Definition validateEncodedMany (r : ReadManyResult) (marshalled : option bytes) (limits : Limits) : error :=
  if bool_decide (ManyEntries r = []) || (MaxBatchOperations limits <? len (ManyEntries r))
  then Some (ErrText "read-many entry count is outside the configured limit")
  else if ManyAsOf r =? zero_time then Some (ErrText "read-many observation time is required")
  else
    try validateReadManyEntries limits (ManyObserved r) (ManyAsOf r) [] (ManyEntries r) ;;
    match marshalled with
    | None => Some (ErrWrap "encode read-many result" (ErrText jsonReason))
    | Some encoded =>
        if (MaxScanBytes limits <=? 0) || (MaxScanBytes limits <? len encoded)
        then Some (readManyTooLarge (len encoded) (MaxScanBytes limits)) else None
    end.

Definition ValidateReadManyResult (r : ReadManyResult) (limits : Limits) : error :=
  validateEncodedMany r (go_encode ReadManyResultType (readManyValue r)) limits.

(** ** The read of the engine *)

Fixpoint validateManyKeys (limits : Limits) (seen keys : list bytes) : error :=
  match keys with
  | [] => None
  | key :: keys =>
      try engineValidateKey key limits ;;
      if bool_decide (key ∈ seen) then Some (exactReadDuplicate key) else validateManyKeys limits (key :: seen) keys
  end.

Definition readEntry (records : gmap bytes DBRecord) (asOf : Time) (key : bytes) : ReadManyEntry :=
  match (records !! key : option DBRecord) with
  | Some record => if recordExpired record asOf then MkReadManyEntry key false None else MkReadManyEntry key true (Some record)
  | None => MkReadManyEntry key false None
  end.

Section engine.
Context {C A L F : Type} `{Clock C}.
Implicit Types st : DatabaseState C A L F.

Definition ReadMany (keys : list bytes) st : result goerror ReadManyResult * DatabaseState C A L F :=
  if bool_decide (keys = []) || (MaxBatchOperations (st_limits st) <? len keys)
  then (Err (invalidField "keys" "must contain between 1 and the configured batch-operation limit"), st)
  else match validateManyKeys (st_limits st) [] keys with
  | Some e => (Err e, st)
  | None =>
      let (asOf, c) := Nondecreasing_Now (st_clock st) in
      let st := set_clock c st in
      let result := MkReadManyResult (st_current st) asOf (readEntry (st_records st) asOf <$> keys) in
      (check ValidateReadManyResult result (st_limits st) ;; Ok result, st)
  end.
End engine.

(** ** Encodings *)

(** A record that the wire can carry. *)
Definition wire_record (r : DBRecord) : Prop :=
  utf8_valid (RecKey r) = true /\ u64 (RecRevision r) /\ wire_time (RecExpiresAt r).

Lemma roundtrips_record n r : wire_record r -> roundtrips (S n) RecordType (recordValue r).
Proof. intros (Hk & Hr & Ht). unfold RecordType, recordValue. wire_fields. by destruct (RecExpiresAt r). Qed.

Definition wire_entry (e : ReadManyEntry) : Prop :=
  utf8_valid (EntryKey e) = true /\ match EntryRecord e with Some r => wire_record r | None => True end.

Lemma roundtrips_entry n e : wire_entry e -> roundtrips (S (S n)) ReadManyEntryType (entryValue e).
Proof.
  intros [Hk Hr]. unfold ReadManyEntryType, entryValue. wire_fields; [|by destruct (EntryRecord e)].
  apply (roundtrips_pointer _ _ (fun r => [GString (RecKey r); GBytes (Some (RecValue r)); GNum (RecRevision r); timeValue (RecExpiresAt r)])).
  intros r Heq. rewrite Heq in Hr. by apply roundtrips_record.
Qed.

Definition wire_many (r : ReadManyResult) : Prop :=
  u64 (ManyObserved r) /\ rfc3339_range (ManyAsOf r) /\ Forall wire_entry (ManyEntries r).

Lemma roundtrips_many n r : wire_many r -> roundtrips (S (S (S (S n)))) ReadManyResultType (readManyValue r).
Proof.
  intros (Ho & Ht & He). unfold ReadManyResultType, readManyValue. wire_fields.
  unfold sliceValue. destruct (ManyEntries r) as [|e l]; [apply roundtrips_nil_list|]. apply roundtrips_list.
  rewrite Forall_fmap. eapply Forall_impl; [exact He|]. intros x Hx. by apply roundtrips_entry.
Qed.

(** ** The read is exact *)

Lemma engineValidateKey_None limits k : engineValidateKey k limits = None <-> key_wf limits k.
Proof. apply validateKey_None. Qed.

Lemma validateManyKeys_spec limits seen keys :
  match validateManyKeys limits seen keys with
  | None => Forall (key_wf limits) keys /\ NoDup keys /\ Forall (fun k => k ∉ seen) keys
  | Some e =>
      (exists k, k ∈ keys /\ ~ key_wf limits k /\ engineValidateKey k limits = Some e) \/
      (exists k, k ∈ keys /\ (~ NoDup keys \/ k ∈ seen) /\ e = exactReadDuplicate k)
  end.
Proof.
  revert seen. induction keys as [|key keys IH]; intros seen; simpl; [split_and!; constructor|].
  destruct (engineValidateKey key limits) as [e|] eqn:Hk.
  { left. exists key. split_and!; [by left| |done]. rewrite <- engineValidateKey_None. by rewrite Hk. }
  apply engineValidateKey_None in Hk. case_bool_decide as Hin.
  { right. exists key. split_and!; [by left|by right|done]. }
  specialize (IH (key :: seen)). destruct (validateManyKeys limits (key :: seen) keys) as [e|].
  - destruct IH as [(k & Hk' & ?)|(k & Hk' & Hd & ->)]; [left; exists k; by split; [right|]|].
    right. destruct (decide (key ∈ keys)) as [Hdup|Hn].
    + exists k. split_and!; [by right| |done]. left. rewrite NoDup_cons. tauto.
    + exists k. split_and!; [by right| |done]. rewrite elem_of_cons, NoDup_cons in *. destruct Hd as [?|[->|?]]; tauto.
  - destruct IH as (Hw & Hn & Hs). rewrite Forall_forall in Hs. split_and!; [by constructor| |].
    + constructor; [|done]. intros Hk'. specialize (Hs key Hk'). set_solver.
    + constructor; [done|]. apply Forall_forall. intros k Hk'. specialize (Hs k Hk'). set_solver.
Qed.

Lemma readEntry_key records asOf key : EntryKey (readEntry records asOf key) = key.
Proof. unfold readEntry. destruct (records !! key) as [r|]; [destruct (recordExpired r asOf)|]; done. Qed.

Lemma readEntry_live records asOf key r : EntryRecord (readEntry records asOf key) = Some r <->
  records !! key = Some r /\ recordExpired r asOf = false.
Proof.
  unfold readEntry. destruct (records !! key) as [x|]; [|simpl; intuition congruence].
  destruct (recordExpired x asOf) eqn:Hx; simpl; split; [done|intros [[= <-] ?]; congruence|intros [= <-]; done|by intros [[= <-] _]].
Qed.

Lemma readEntry_found records asOf key :
  EntryFound (readEntry records asOf key) = if EntryRecord (readEntry records asOf key) then true else false.
Proof. unfold readEntry. destruct (records !! key) as [r|]; [destruct (recordExpired r asOf)|]; done. Qed.

Section exact.
Context {C A L F : Type} `{Clock C}.
Implicit Types st : DatabaseState C A L F.

(** The entries a consistent database returns pass the validation. *)
Lemma entries_valid st asOf seen keys : core_inv st -> Forall (key_wf (st_limits st)) keys -> NoDup keys ->
  Forall (fun k => k ∉ seen) keys ->
  validateReadManyEntries (st_limits st) (st_current st) asOf seen (readEntry (st_records st) asOf <$> keys) = None.
Proof.
  intros Hinv Hw. revert seen. induction Hw as [|key keys Hk _ IH]; intros seen Hnd Hs; [done|].
  apply NoDup_cons in Hnd as [Hni Hnd]. apply Forall_cons in Hs as [Hseen Hs].
  rewrite fmap_cons. cbn [validateReadManyEntries]. rewrite readEntry_key.
  assert (Mutation_Validate (st_limits st) (MkMutation MutationPut key anyCondition None None) = None) as ->.
  { apply Mutation_Validate_None. split; [done|]. split; [done|]. simpl.
    pose proof (limits_ok_fields _ (ci_limits _ Hinv)). unfold value_len, len. simpl. lia. }
  rewrite bool_decide_false by done. rewrite readEntry_found, Bool.eqb_reflx. cbn [negb].
  assert (Forall (fun k => k ∉ key :: seen) keys) as Hs'.
  { rewrite Forall_forall in *. intros k Hk' Hin. apply elem_of_cons in Hin as [->|]; [done|by apply (Hs k)]. }
  destruct (EntryRecord (readEntry (st_records st) asOf key)) as [r|] eqn:Hr; [|by apply IH].
  apply readEntry_live in Hr as [Hr Hlive]. destruct (ci_records _ Hinv _ _ Hr) as (Hkey & _ & Hrev & _ & _).
  rewrite bool_decide_true by done. replace (_ || _ || _) with false by lia.
  assert (match RecExpiresAt r with Some t => negb (time_After t asOf) | None => false end = false) as ->; [|by apply IH].
  unfold recordExpired in Hlive. destruct (RecExpiresAt r) as [t|]; [|done]. unfold IsExpired, time_After, time_Before in *. lia.
Qed.

Lemma entries_wire st asOf keys : core_inv st -> st_current st <= max_uint64 -> Forall (key_wf (st_limits st)) keys ->
  Forall wire_entry (readEntry (st_records st) asOf <$> keys).
Proof.
  intros Hinv Hc Hw. rewrite Forall_fmap. eapply Forall_impl; [exact Hw|]. intros key (_ & Hu & _). split; [by rewrite readEntry_key|].
  destruct (EntryRecord _) as [r|] eqn:Hr; [|done]. apply readEntry_live in Hr as [Hr _].
  destruct (ci_records _ Hinv _ _ Hr) as (Hkey & _ & Hrev & _ & Hexp). split_and!; [by rewrite Hkey|unfold u64; lia|].
  unfold wire_time. destruct (RecExpiresAt r) as [t|]; [|done]. unfold rfc3339_range, nanosecond. lia.
Qed.

(** The entries that a batched read at [asOf] must have. *)
Definition entries_exact st (asOf : Time) (keys : list bytes) (entries : list ReadManyEntry) : Prop :=
  EntryKey <$> entries = keys /\
  forall e, e ∈ entries ->
    EntryFound e = (if EntryRecord e then true else false) /\
    forall x, EntryRecord e = Some x <-> st_records st !! EntryKey e = Some x /\ recordExpired x asOf = false.

Lemma readEntries_exact st asOf keys : entries_exact st asOf keys (readEntry (st_records st) asOf <$> keys).
Proof.
  split.
  - rewrite <- list_fmap_compose. rewrite <- (list_fmap_id keys) at 2. apply list_fmap_ext. intros i k _. apply readEntry_key.
  - intros e He. apply list_elem_of_fmap in He as (k & -> & _). split; [apply readEntry_found|]. intros x.
    rewrite readEntry_key. apply readEntry_live.
Qed.

(** Only the length of the encoding is left to check. *)
Lemma readMany_valid keys st asOf :
  core_inv st -> st_current st <= max_uint64 -> keys <> [] -> len keys <= MaxBatchOperations (st_limits st) ->
  Forall (key_wf (st_limits st)) keys -> NoDup keys -> rfc3339_range asOf -> asOf <> zero_time ->
  let r := MkReadManyResult (st_current st) asOf (readEntry (st_records st) asOf <$> keys) in
  exists encoded, go_encode ReadManyResultType (readManyValue r) = Some encoded /\
    ValidateReadManyResult r (st_limits st) =
      if MaxScanBytes (st_limits st) <? len encoded then Some (readManyTooLarge (len encoded) (MaxScanBytes (st_limits st))) else None.
Proof.
  intros Hinv Hcur Hne Hlen Hw Hnd Has Hz r.
  assert (Hwire : wire_many r).
  { split_and!; [pose proof (ci_current _ Hinv); unfold u64; simpl; lia|done|exact (entries_wire st asOf keys Hinv Hcur Hw)]. }
  destruct (roundtrips_many 0 r Hwire) as (Henc & _). eexists. split; [exact Henc|].
  unfold ValidateReadManyResult, validateEncodedMany. rewrite Henc. unfold r. cbn [ManyEntries ManyAsOf ManyObserved].
  rewrite bool_decide_false by (by destruct keys). unfold len at 1 in Hlen. unfold len at 1. rewrite length_fmap.
  replace (_ <? _) with false by lia. cbn [orb]. replace (asOf =? zero_time) with false by lia.
  rewrite (entries_valid st asOf [] keys Hinv Hw Hnd) by (apply Forall_forall; intros k _; apply not_elem_of_nil).
  pose proof (limits_ok_fields _ (ci_limits _ Hinv)) as Hlim. by replace (MaxScanBytes (st_limits st) <=? 0) with false by lia.
Qed.

(** C26: A batched read of a consistent database.  A request without keys or
    with more than the limit is refused, as is one with an invalid or a repeated
    key.  Every other request has one result: one entry per key in the order of
    the request, at the current revision and one time, with a record exactly when
    the key has one that is live at that time.  It is returned if its JSON
    encoding is within the limit on scans, and otherwise refused with the length
    of that encoding.  Nothing but the clock changes. *)
Theorem read_many_exact keys st :
  core_inv st -> st_current st <= max_uint64 ->
  let asOf := (Nondecreasing_Now (st_clock st)).1 in rfc3339_range asOf -> asOf <> zero_time ->
  (keys = [] \/ MaxBatchOperations (st_limits st) < len keys ->
     ReadMany keys st = (Err (invalidField "keys" "must contain between 1 and the configured batch-operation limit"), st)) /\
  (keys <> [] -> len keys <= MaxBatchOperations (st_limits st) -> ~ (Forall (key_wf (st_limits st)) keys /\ NoDup keys) ->
     exists k e, k ∈ keys /\ ReadMany keys st = (Err e, st) /\
       (~ key_wf (st_limits st) k /\ engineValidateKey k (st_limits st) = Some e \/ ~ NoDup keys /\ e = exactReadDuplicate k)) /\
  (keys <> [] -> len keys <= MaxBatchOperations (st_limits st) -> Forall (key_wf (st_limits st)) keys -> NoDup keys ->
     exists r encoded, ManyObserved r = st_current st /\ ManyAsOf r = asOf /\ entries_exact st asOf keys (ManyEntries r) /\
       go_encode ReadManyResultType (readManyValue r) = Some encoded /\
       ReadMany keys st =
         (if MaxScanBytes (st_limits st) <? len encoded
          then Err (readManyTooLarge (len encoded) (MaxScanBytes (st_limits st))) else Ok r,
          set_clock (Nondecreasing_Now (st_clock st)).2 st)).
Proof.
  intros Hinv Hcur asOf Has Hz. unfold ReadMany. split_and!.
  - intros Hbad. replace (_ || _) with true; [done|]. symmetry. rewrite orb_true_iff, bool_decide_eq_true, Z.ltb_lt. done.
  - intros Hne Hlen Hbad. rewrite bool_decide_false by done. replace (_ <? _) with false by lia. cbn [orb].
    pose proof (validateManyKeys_spec (st_limits st) [] keys) as Hk. destruct (validateManyKeys _ _ _) as [e|]; [|tauto].
    destruct Hk as [(k & Hk & ? & ?)|(k & Hk & [?|?%elem_of_nil] & ->)]; [| |done]; eexists k, _; split_and!; try done; tauto.
  - intros Hne Hlen Hw Hnd. rewrite bool_decide_false by done. replace (_ <? _) with false by lia. cbn [orb].
    pose proof (validateManyKeys_spec (st_limits st) [] keys) as Hk. destruct (validateManyKeys _ _ _) as [e|].
    { rewrite Forall_forall in Hw. destruct Hk as [(k & Hk & ? & _)|(k & Hk & [?|?%elem_of_nil] & _)]; [specialize (Hw k Hk)|..]; done. }
    destruct (readMany_valid keys st asOf Hinv Hcur Hne Hlen Hw Hnd Has Hz) as (encoded & Henc & Hvalid).
    eexists _, encoded. split_and!; [..|exact Henc|]; [done|done|apply readEntries_exact|].
    unfold asOf in *. destruct (Nondecreasing_Now (st_clock st)) as [now c]. cbn [fst snd set_clock st_current st_records st_limits] in *.
    rewrite Hvalid. by destruct (_ <? _).
Qed.
End exact.
