(* ===== verification/AdminResults.v ===== *)
(** * Results of administration (gapdb/client.go)

    The public results of the administrative operations with their JSON forms:
    the type of each struct, its value, and the struct a decoded value stands
    for.  Enumerations are kept as their texts and slices may be [nil], as they
    arrive. *)

From stdpp Require Import base gmap list strings.
From Stdlib Require Import ZArith Lia.
From S2P Require Import Prelude.
From S2P Require Import Bytes.
From S2P Require Import Errors.
From S2P Require Import ApiTypes.
From S2P Require Import Json.
From S2P Require Import GoTime.
From S2P Require Import GoJson.
From S2P Require Import Envelope.
From S2P Require Import Requests.

Local Open Scope Z_scope.

Definition stringsValue (l : option (list bytes)) : gval := GList (option_map (fun l => GString <$> l) l).
Definition stringsOf (g : gval) : option (option (list bytes)) :=
  match g with
  | GList None => Some None
  | GList (Some l) => Some <$> mapM stringOfValue l
  | _ => None
  end.

Definition LimitsType : jtype :=
  TStruct [field "max_key_bytes" TInt; field "max_value_bytes" TInt; field "max_frame_bytes" TInt;
           field "max_batch_bytes" TInt; field "max_batch_operations" TInt; field "max_scan_records" TInt;
           field "max_scan_bytes" TInt; field "watch_buffer_events" TInt; field "max_watch_clients" TInt;
           field "max_concurrent_clients" TInt; field "max_history_events" TInt;
           field "max_history_bytes" TInt].
Definition limitsValue (x : Limits) : gval :=
  GStruct [GNum (MaxKeyBytes x); GNum (MaxValueBytes x); GNum (MaxFrameBytes x); GNum (MaxBatchBytes x);
           GNum (MaxBatchOperations x); GNum (MaxScanRecords x); GNum (MaxScanBytes x);
           GNum (WatchBufferEvents x); GNum (MaxWatchClients x); GNum (MaxConcurrentClients x);
           GNum (MaxHistoryEvents x); GNum (MaxHistoryBytes x)].

Definition limitsOf (g : gval) : option Limits :=
  match g with
  | GStruct [GNum maxKeyBytes; GNum maxValueBytes; GNum maxFrameBytes; GNum maxBatchBytes;
             GNum maxBatchOperations; GNum maxScanRecords; GNum maxScanBytes; GNum watchBufferEvents;
             GNum maxWatchClients; GNum maxConcurrentClients; GNum maxHistoryEvents; GNum maxHistoryBytes] =>
      Some (MkLimits maxKeyBytes maxValueBytes maxFrameBytes maxBatchBytes maxBatchOperations maxScanRecords
        maxScanBytes watchBufferEvents maxWatchClients maxConcurrentClients maxHistoryEvents maxHistoryBytes)
  | _ => None
  end.

Record HealthResult := MkHealthResult {
  HealthLifecycle : bytes;
  HealthHealthy : bool;
  HealthFailingSubsystems : option (list bytes);
  HealthSafeActions : option (list bytes)
}.

Definition HealthResultType : jtype :=
  TStruct [field "lifecycle" TString; field "healthy" TBool; field "failing_subsystems" (TList TString);
           field "safe_actions" (TList TString)].
Definition healthResultValue (x : HealthResult) : gval :=
  GStruct [GString (HealthLifecycle x); GBool (HealthHealthy x); stringsValue (HealthFailingSubsystems x);
           stringsValue (HealthSafeActions x)].

Definition healthResultOf (g : gval) : option HealthResult :=
  match g with
  | GStruct [GString lifecycle; GBool healthy; failingSubsystems; safeActions] =>
      failingSubsystems ← stringsOf failingSubsystems;
      safeActions ← stringsOf safeActions;
      Some (MkHealthResult lifecycle healthy failingSubsystems safeActions)
  | _ => None
  end.

Record StatusResult := MkStatusResult {
  StatLifecycle : bytes;
  StatDatabaseID : bytes;
  StatCurrentRevision : Revision;
  StatDurableThroughRevision : Revision;
  StatReservedRevisionEnd : Revision;
  StatSnapshotRevision : Revision;
  StatActiveWALStart : Revision;
  StatEarliestWatchRevision : Revision;
  StatRecordCount : Z;
  StatWatchCount : Z;
  StatQueueDepth : Z;
  StatActiveClients : Z;
  StatLimits : Limits;
  StatOwnerPID : Z;
  StatOwnerStartedAt : bytes;
  StatSnapshotInProgress : bool;
  StatBackupInProgress : bool
}.

Definition StatusResultType : jtype :=
  TStruct [field "lifecycle" TString; field "database_id" TString; field "current_revision" TRevision;
           field "durable_through_revision" TRevision; field "reserved_revision_end" TRevision;
           field "snapshot_revision" TRevision; field "active_wal_start" TRevision;
           field "earliest_watch_revision" TRevision; field "record_count" TInt; field "watch_count" TInt;
           field "queue_depth" TInt; field "active_clients" TInt; field "limits" LimitsType;
           field "owner_pid" TInt; field "owner_started_at" TString; field "snapshot_in_progress" TBool;
           field "backup_in_progress" TBool].
Definition statusResultValue (x : StatusResult) : gval :=
  GStruct [GString (StatLifecycle x); GString (StatDatabaseID x); GNum (StatCurrentRevision x);
           GNum (StatDurableThroughRevision x); GNum (StatReservedRevisionEnd x); GNum (StatSnapshotRevision x);
           GNum (StatActiveWALStart x); GNum (StatEarliestWatchRevision x); GNum (StatRecordCount x);
           GNum (StatWatchCount x); GNum (StatQueueDepth x); GNum (StatActiveClients x);
           limitsValue (StatLimits x); GNum (StatOwnerPID x); GString (StatOwnerStartedAt x);
           GBool (StatSnapshotInProgress x); GBool (StatBackupInProgress x)].

Definition statusResultOf (g : gval) : option StatusResult :=
  match g with
  | GStruct [GString lifecycle; GString databaseID; GNum currentRevision; GNum durableThroughRevision;
             GNum reservedRevisionEnd; GNum snapshotRevision; GNum activeWALStart; GNum earliestWatchRevision;
             GNum recordCount; GNum watchCount; GNum queueDepth; GNum activeClients; limits0; GNum ownerPID;
             GString ownerStartedAt; GBool snapshotInProgress; GBool backupInProgress] =>
      limits0 ← limitsOf limits0;
      Some (MkStatusResult lifecycle databaseID currentRevision durableThroughRevision reservedRevisionEnd
        snapshotRevision activeWALStart earliestWatchRevision recordCount watchCount queueDepth activeClients
        limits0 ownerPID ownerStartedAt snapshotInProgress backupInProgress)
  | _ => None
  end.

Record StatsResult := MkStatsResult {
  StatsSchemaVersion : Z;
  StatsLiveRecords : Z;
  StatsExpiredRecords : Z;
  StatsApproximateValueBytes : Z;
  StatsCommits : Z;
  StatsConditionFailures : Z;
  StatsWALBytes : Z;
  StatsSyncCount : Z;
  StatsSyncErrors : Z;
  StatsWatchers : Z;
  StatsLaggedWatches : Z;
  StatsClients : Z;
  StatsQueueDepth : Z;
  StatsSnapshotDurationNanos : Z;
  StatsRecoveryDurationNanos : Z
}.

Definition StatsResultType : jtype :=
  TStruct [field "schema_version" (TUint 65535); field "live_records" TInt; field "expired_records" TInt;
           field "approximate_value_bytes" TInt; field "commits" (TUint max_uint64);
           field "condition_failures" (TUint max_uint64); field "wal_bytes" TInt;
           field "sync_count" (TUint max_uint64); field "sync_errors" (TUint max_uint64); field "watchers" TInt;
           field "lagged_watches" (TUint max_uint64); field "clients" TInt; field "queue_depth" TInt;
           field "snapshot_duration_nanos" TInt; field "recovery_duration_nanos" TInt].
Definition statsResultValue (x : StatsResult) : gval :=
  GStruct [GNum (StatsSchemaVersion x); GNum (StatsLiveRecords x); GNum (StatsExpiredRecords x);
           GNum (StatsApproximateValueBytes x); GNum (StatsCommits x); GNum (StatsConditionFailures x);
           GNum (StatsWALBytes x); GNum (StatsSyncCount x); GNum (StatsSyncErrors x); GNum (StatsWatchers x);
           GNum (StatsLaggedWatches x); GNum (StatsClients x); GNum (StatsQueueDepth x);
           GNum (StatsSnapshotDurationNanos x); GNum (StatsRecoveryDurationNanos x)].

Definition statsResultOf (g : gval) : option StatsResult :=
  match g with
  | GStruct [GNum schemaVersion; GNum liveRecords; GNum expiredRecords; GNum approximateValueBytes;
             GNum commits; GNum conditionFailures; GNum wALBytes; GNum syncCount; GNum syncErrors;
             GNum watchers; GNum laggedWatches; GNum clients; GNum queueDepth; GNum snapshotDurationNanos;
             GNum recoveryDurationNanos] =>
      Some (MkStatsResult schemaVersion liveRecords expiredRecords approximateValueBytes commits
        conditionFailures wALBytes syncCount syncErrors watchers laggedWatches clients queueDepth
        snapshotDurationNanos recoveryDurationNanos)
  | _ => None
  end.

Record ConfigValues := MkConfigValues {
  CvLimits : Limits;
  CvMutationQueueCapacity : Z;
  CvWALBufferBytes : Z;
  CvAuditMaxLineBytes : Z;
  CvAuditMaxFileBytes : Z;
  CvAuditKeepGenerations : Z;
  CvMaxAdminPaths : Z
}.

Definition ConfigValuesType : jtype :=
  TStruct [field "limits" LimitsType; field "mutation_queue_capacity" TInt; field "wal_buffer_bytes" TInt;
           field "audit_max_line_bytes" TInt; field "audit_max_file_bytes" TInt;
           field "audit_keep_generations" TInt; field "max_admin_paths" TInt].
Definition configValuesValue (x : ConfigValues) : gval :=
  GStruct [limitsValue (CvLimits x); GNum (CvMutationQueueCapacity x); GNum (CvWALBufferBytes x);
           GNum (CvAuditMaxLineBytes x); GNum (CvAuditMaxFileBytes x); GNum (CvAuditKeepGenerations x);
           GNum (CvMaxAdminPaths x)].

Definition configValuesOf (g : gval) : option ConfigValues :=
  match g with
  | GStruct [limits0; GNum mutationQueueCapacity; GNum wALBufferBytes; GNum auditMaxLineBytes;
             GNum auditMaxFileBytes; GNum auditKeepGenerations; GNum maxAdminPaths] =>
      limits0 ← limitsOf limits0;
      Some (MkConfigValues limits0 mutationQueueCapacity wALBufferBytes auditMaxLineBytes auditMaxFileBytes
        auditKeepGenerations maxAdminPaths)
  | _ => None
  end.

Record ConfigResult := MkConfigResult {
  CrEffective : ConfigValues;
  CrSource : bytes;
  CrSafeCeilings : Limits;
  CrRestartRequired : bool
}.

Definition ConfigResultType : jtype :=
  TStruct [field "effective" ConfigValuesType; field "source" TString; field "safe_ceilings" LimitsType;
           field "restart_required" TBool].
Definition configResultValue (x : ConfigResult) : gval :=
  GStruct [configValuesValue (CrEffective x); GString (CrSource x); limitsValue (CrSafeCeilings x);
           GBool (CrRestartRequired x)].

Definition configResultOf (g : gval) : option ConfigResult :=
  match g with
  | GStruct [effective; GString source; safeCeilings; GBool restartRequired] =>
      effective ← configValuesOf effective;
      safeCeilings ← limitsOf safeCeilings;
      Some (MkConfigResult effective source safeCeilings restartRequired)
  | _ => None
  end.

Record VerifyResult := MkVerifyResult {
  VerMode : bytes;
  VerVerified : bool;
  VerDatabaseID : bytes;
  VerManifestGeneration : Z;
  VerCurrentRevision : Revision;
  VerSnapshotRevision : Revision;
  VerActiveWALStart : Revision;
  VerCheckedFiles : option (list bytes)
}.

Definition VerifyResultType : jtype :=
  TStruct [field "mode" TString; field "verified" TBool; field "database_id" TString;
           field "manifest_generation" (TUint max_uint64); field "current_revision" TRevision;
           field "snapshot_revision" TRevision; field "active_wal_start" TRevision;
           field "checked_files" (TList TString)].
Definition verifyResultValue (x : VerifyResult) : gval :=
  GStruct [GString (VerMode x); GBool (VerVerified x); GString (VerDatabaseID x);
           GNum (VerManifestGeneration x); GNum (VerCurrentRevision x); GNum (VerSnapshotRevision x);
           GNum (VerActiveWALStart x); stringsValue (VerCheckedFiles x)].

Definition verifyResultOf (g : gval) : option VerifyResult :=
  match g with
  | GStruct [GString mode0; GBool verified; GString databaseID; GNum manifestGeneration; GNum currentRevision;
             GNum snapshotRevision; GNum activeWALStart; checkedFiles] =>
      checkedFiles ← stringsOf checkedFiles;
      Some (MkVerifyResult mode0 verified databaseID manifestGeneration currentRevision snapshotRevision
        activeWALStart checkedFiles)
  | _ => None
  end.

Record WireSnapshotResult := MkWireSnapshotResult {
  WsnRevision : Revision;
  WsnFilename : bytes;
  WsnChecksum : bytes;
  WsnNewWALStart : Revision;
  WsnDuration : Z
}.

Definition WireSnapshotResultType : jtype :=
  TStruct [field "revision" TRevision; field "filename" TString; field "checksum" TString;
           field "new_wal_start" TRevision; field "duration" TInt].
Definition wireSnapshotResultValue (x : WireSnapshotResult) : gval :=
  GStruct [GNum (WsnRevision x); GString (WsnFilename x); GString (WsnChecksum x); GNum (WsnNewWALStart x);
           GNum (WsnDuration x)].

Definition wireSnapshotResultOf (g : gval) : option WireSnapshotResult :=
  match g with
  | GStruct [GNum revision0; GString filename; GString checksum; GNum newWALStart; GNum duration] =>
      Some (MkWireSnapshotResult revision0 filename checksum newWALStart duration)
  | _ => None
  end.

Record WireCompactionResult := MkWireCompactionResult {
  WcoBeforeRevision : Revision;
  WcoAfterRevision : Revision;
  WcoRemoved : option (list bytes);
  WcoRemovedCount : Z;
  WcoSkippedCount : Z;
  WcoPathsTruncated : bool;
  WcoDirectorySynced : bool
}.

Definition WireCompactionResultType : jtype :=
  TStruct [field "before_revision" TRevision; field "after_revision" TRevision; field "removed" (TList TString);
           field "removed_count" TInt; field "skipped_count" TInt; field "paths_truncated" TBool;
           field "directory_synced" TBool].
Definition wireCompactionResultValue (x : WireCompactionResult) : gval :=
  GStruct [GNum (WcoBeforeRevision x); GNum (WcoAfterRevision x); stringsValue (WcoRemoved x);
           GNum (WcoRemovedCount x); GNum (WcoSkippedCount x); GBool (WcoPathsTruncated x);
           GBool (WcoDirectorySynced x)].

Definition wireCompactionResultOf (g : gval) : option WireCompactionResult :=
  match g with
  | GStruct [GNum beforeRevision; GNum afterRevision; removed; GNum removedCount; GNum skippedCount;
             GBool pathsTruncated; GBool directorySynced] =>
      removed ← stringsOf removed;
      Some (MkWireCompactionResult beforeRevision afterRevision removed removedCount skippedCount pathsTruncated
        directorySynced)
  | _ => None
  end.

Record BackupFile := MkBackupFile {
  BfName : bytes;
  BfSize : Z;
  BfSHA256 : bytes
}.

Definition BackupFileType : jtype :=
  TStruct [field "name" TString; field "size" TInt; field "sha256" TString].
Definition backupFileValue (x : BackupFile) : gval :=
  GStruct [GString (BfName x); GNum (BfSize x); GString (BfSHA256 x)].

Definition backupFileOf (g : gval) : option BackupFile :=
  match g with
  | GStruct [GString name0; GNum size0; GString sHA256] =>
      Some (MkBackupFile name0 size0 sHA256)
  | _ => None
  end.

Definition backupFilesOf (g : gval) : option (option (list BackupFile)) :=
  match g with
  | GList None => Some None
  | GList (Some l) => Some <$> mapM backupFileOf l
  | _ => None
  end.

Record BackupResult := MkBackupResult {
  BrDatabaseID : bytes;
  BrRevision : Revision;
  BrManifestChecksum : bytes;
  BrFiles : option (list BackupFile);
  BrByteCount : Z;
  BrVerified : bool
}.

Definition BackupResultType : jtype :=
  TStruct [field "database_id" TString; field "revision" TRevision; field "manifest_checksum" TString;
           field "files" (TList BackupFileType); field "byte_count" TInt; field "verified" TBool].
Definition backupResultValue (x : BackupResult) : gval :=
  GStruct [GString (BrDatabaseID x); GNum (BrRevision x); GString (BrManifestChecksum x);
           GList (option_map (fun l => backupFileValue <$> l) (BrFiles x)); GNum (BrByteCount x);
           GBool (BrVerified x)].

Definition backupResultOf (g : gval) : option BackupResult :=
  match g with
  | GStruct [GString databaseID; GNum revision0; GString manifestChecksum; files0; GNum byteCount;
             GBool verified] =>
      files0 ← backupFilesOf files0;
      Some (MkBackupResult databaseID revision0 manifestChecksum files0 byteCount verified)
  | _ => None
  end.

(** ** Round trips *)

Create HintDb wire_values.

Definition wire_strings (l : option (list bytes)) : Prop :=
  match l with Some l => Forall (fun s => utf8_valid s = true) l | None => True end.

Lemma roundtrips_strings n l : wire_strings l -> roundtrips (S n) (TList TString) (stringsValue l).
Proof.
  destruct l as [l|]; intros Hl; [|apply roundtrips_nil_list]. apply roundtrips_list. rewrite Forall_fmap.
  eapply Forall_impl; [exact Hl|]. intros x Hx. by apply roundtrips_string.
Qed.

Lemma strings_of_value l : stringsOf (stringsValue l) = Some l.
Proof.
  destruct l as [l|]; [|done]. unfold stringsValue. cbn [option_map stringsOf].
  rewrite sliceOf_values; [done|]. by apply Forall_forall.
Qed.

Definition u16 (z : Z) : Prop := 0 <= z <= 65535.

Lemma roundtrips_u16 n z : u16 z -> roundtrips n (TUint 65535) (GNum z).
Proof. intros Hz. by apply roundtrips_uint. Qed.

Lemma roundtrips_u64 n z : u64 z -> roundtrips n (TUint max_uint64) (GNum z).
Proof. intros Hz. by apply roundtrips_uint. Qed.

#[export] Hint Resolve roundtrips_strings roundtrips_u16 roundtrips_u64 : wire.
#[export] Hint Rewrite strings_of_value : wire_values.

(** Read the nested values of a struct back. *)
Ltac simplify_values := repeat (autorewrite with wire_values; cbn [mbind option_bind]).

Definition wire_limits (x : Limits) : Prop :=
  i64 (MaxKeyBytes x) /\ i64 (MaxValueBytes x) /\ i64 (MaxFrameBytes x) /\ i64 (MaxBatchBytes x) /\
  i64 (MaxBatchOperations x) /\ i64 (MaxScanRecords x) /\ i64 (MaxScanBytes x) /\ i64 (WatchBufferEvents x) /\
  i64 (MaxWatchClients x) /\ i64 (MaxConcurrentClients x) /\ i64 (MaxHistoryEvents x) /\
  i64 (MaxHistoryBytes x).

Lemma roundtrips_limits n x : wire_limits x -> roundtrips (S n) LimitsType (limitsValue x).
Proof.
  intros Hw. unfold wire_limits in Hw. destruct_and? Hw. unfold LimitsType, limitsValue. wire_fields.
Qed.

Lemma limits_of_value x : limitsOf (limitsValue x) = Some x.
Proof.
  destruct x. unfold limitsOf, limitsValue. simplify_values. done.
Qed.

#[export] Hint Resolve roundtrips_limits : wire.
#[export] Hint Rewrite limits_of_value : wire_values.

Definition wire_healthResult (x : HealthResult) : Prop :=
  utf8_valid (HealthLifecycle x) = true /\ wire_strings (HealthFailingSubsystems x) /\
  wire_strings (HealthSafeActions x).

Lemma roundtrips_healthResult n x : wire_healthResult x -> roundtrips (S (S n)) HealthResultType (healthResultValue x).
Proof.
  intros Hw. unfold wire_healthResult in Hw. destruct_and? Hw. unfold HealthResultType, healthResultValue. wire_fields.
Qed.

Lemma healthResult_of_value x : healthResultOf (healthResultValue x) = Some x.
Proof.
  destruct x. unfold healthResultOf, healthResultValue. simplify_values. done.
Qed.

#[export] Hint Resolve roundtrips_healthResult : wire.
#[export] Hint Rewrite healthResult_of_value : wire_values.

Definition wire_statusResult (x : StatusResult) : Prop :=
  utf8_valid (StatLifecycle x) = true /\ utf8_valid (StatDatabaseID x) = true /\ u64 (StatCurrentRevision x) /\
  u64 (StatDurableThroughRevision x) /\ u64 (StatReservedRevisionEnd x) /\ u64 (StatSnapshotRevision x) /\
  u64 (StatActiveWALStart x) /\ u64 (StatEarliestWatchRevision x) /\ i64 (StatRecordCount x) /\
  i64 (StatWatchCount x) /\ i64 (StatQueueDepth x) /\ i64 (StatActiveClients x) /\ wire_limits (StatLimits x) /\
  i64 (StatOwnerPID x) /\ utf8_valid (StatOwnerStartedAt x) = true.

Lemma roundtrips_statusResult n x : wire_statusResult x -> roundtrips (S (S n)) StatusResultType (statusResultValue x).
Proof.
  intros Hw. unfold wire_statusResult in Hw. destruct_and? Hw. unfold StatusResultType, statusResultValue. wire_fields.
Qed.

Lemma statusResult_of_value x : statusResultOf (statusResultValue x) = Some x.
Proof.
  destruct x. unfold statusResultOf, statusResultValue. simplify_values. done.
Qed.

#[export] Hint Resolve roundtrips_statusResult : wire.
#[export] Hint Rewrite statusResult_of_value : wire_values.

Definition wire_statsResult (x : StatsResult) : Prop :=
  u16 (StatsSchemaVersion x) /\ i64 (StatsLiveRecords x) /\ i64 (StatsExpiredRecords x) /\
  i64 (StatsApproximateValueBytes x) /\ u64 (StatsCommits x) /\ u64 (StatsConditionFailures x) /\
  i64 (StatsWALBytes x) /\ u64 (StatsSyncCount x) /\ u64 (StatsSyncErrors x) /\ i64 (StatsWatchers x) /\
  u64 (StatsLaggedWatches x) /\ i64 (StatsClients x) /\ i64 (StatsQueueDepth x) /\
  i64 (StatsSnapshotDurationNanos x) /\ i64 (StatsRecoveryDurationNanos x).

Lemma roundtrips_statsResult n x : wire_statsResult x -> roundtrips (S (S n)) StatsResultType (statsResultValue x).
Proof.
  intros Hw. unfold wire_statsResult in Hw. destruct_and? Hw. unfold StatsResultType, statsResultValue. wire_fields.
Qed.

Lemma statsResult_of_value x : statsResultOf (statsResultValue x) = Some x.
Proof.
  destruct x. unfold statsResultOf, statsResultValue. simplify_values. done.
Qed.

#[export] Hint Resolve roundtrips_statsResult : wire.
#[export] Hint Rewrite statsResult_of_value : wire_values.

Definition wire_configValues (x : ConfigValues) : Prop :=
  wire_limits (CvLimits x) /\ i64 (CvMutationQueueCapacity x) /\ i64 (CvWALBufferBytes x) /\
  i64 (CvAuditMaxLineBytes x) /\ i64 (CvAuditMaxFileBytes x) /\ i64 (CvAuditKeepGenerations x) /\
  i64 (CvMaxAdminPaths x).

Lemma roundtrips_configValues n x : wire_configValues x -> roundtrips (S (S n)) ConfigValuesType (configValuesValue x).
Proof.
  intros Hw. unfold wire_configValues in Hw. destruct_and? Hw. unfold ConfigValuesType, configValuesValue. wire_fields.
Qed.

Lemma configValues_of_value x : configValuesOf (configValuesValue x) = Some x.
Proof.
  destruct x. unfold configValuesOf, configValuesValue. simplify_values. done.
Qed.

#[export] Hint Resolve roundtrips_configValues : wire.
#[export] Hint Rewrite configValues_of_value : wire_values.

Definition wire_configResult (x : ConfigResult) : Prop :=
  wire_configValues (CrEffective x) /\ utf8_valid (CrSource x) = true /\ wire_limits (CrSafeCeilings x).

Lemma roundtrips_configResult n x : wire_configResult x -> roundtrips (S (S (S n))) ConfigResultType (configResultValue x).
Proof.
  intros Hw. unfold wire_configResult in Hw. destruct_and? Hw. unfold ConfigResultType, configResultValue. wire_fields.
Qed.

Lemma configResult_of_value x : configResultOf (configResultValue x) = Some x.
Proof.
  destruct x. unfold configResultOf, configResultValue. simplify_values. done.
Qed.

#[export] Hint Resolve roundtrips_configResult : wire.
#[export] Hint Rewrite configResult_of_value : wire_values.

Definition wire_verifyResult (x : VerifyResult) : Prop :=
  utf8_valid (VerMode x) = true /\ utf8_valid (VerDatabaseID x) = true /\ u64 (VerManifestGeneration x) /\
  u64 (VerCurrentRevision x) /\ u64 (VerSnapshotRevision x) /\ u64 (VerActiveWALStart x) /\
  wire_strings (VerCheckedFiles x).

Lemma roundtrips_verifyResult n x : wire_verifyResult x -> roundtrips (S (S n)) VerifyResultType (verifyResultValue x).
Proof.
  intros Hw. unfold wire_verifyResult in Hw. destruct_and? Hw. unfold VerifyResultType, verifyResultValue. wire_fields.
Qed.

Lemma verifyResult_of_value x : verifyResultOf (verifyResultValue x) = Some x.
Proof.
  destruct x. unfold verifyResultOf, verifyResultValue. simplify_values. done.
Qed.

#[export] Hint Resolve roundtrips_verifyResult : wire.
#[export] Hint Rewrite verifyResult_of_value : wire_values.

Definition wire_wireSnapshotResult (x : WireSnapshotResult) : Prop :=
  u64 (WsnRevision x) /\ utf8_valid (WsnFilename x) = true /\ utf8_valid (WsnChecksum x) = true /\
  u64 (WsnNewWALStart x) /\ i64 (WsnDuration x).

Lemma roundtrips_wireSnapshotResult n x : wire_wireSnapshotResult x -> roundtrips (S (S n)) WireSnapshotResultType (wireSnapshotResultValue x).
Proof.
  intros Hw. unfold wire_wireSnapshotResult in Hw. destruct_and? Hw. unfold WireSnapshotResultType, wireSnapshotResultValue. wire_fields.
Qed.

Lemma wireSnapshotResult_of_value x : wireSnapshotResultOf (wireSnapshotResultValue x) = Some x.
Proof.
  destruct x. unfold wireSnapshotResultOf, wireSnapshotResultValue. simplify_values. done.
Qed.

#[export] Hint Resolve roundtrips_wireSnapshotResult : wire.
#[export] Hint Rewrite wireSnapshotResult_of_value : wire_values.

Definition wire_wireCompactionResult (x : WireCompactionResult) : Prop :=
  u64 (WcoBeforeRevision x) /\ u64 (WcoAfterRevision x) /\ wire_strings (WcoRemoved x) /\
  i64 (WcoRemovedCount x) /\ i64 (WcoSkippedCount x).

Lemma roundtrips_wireCompactionResult n x : wire_wireCompactionResult x -> roundtrips (S (S n)) WireCompactionResultType (wireCompactionResultValue x).
Proof.
  intros Hw. unfold wire_wireCompactionResult in Hw. destruct_and? Hw. unfold WireCompactionResultType, wireCompactionResultValue. wire_fields.
Qed.

Lemma wireCompactionResult_of_value x : wireCompactionResultOf (wireCompactionResultValue x) = Some x.
Proof.
  destruct x. unfold wireCompactionResultOf, wireCompactionResultValue. simplify_values. done.
Qed.

#[export] Hint Resolve roundtrips_wireCompactionResult : wire.
#[export] Hint Rewrite wireCompactionResult_of_value : wire_values.

Definition wire_backupFile (x : BackupFile) : Prop :=
  utf8_valid (BfName x) = true /\ i64 (BfSize x) /\ utf8_valid (BfSHA256 x) = true.

Lemma roundtrips_backupFile n x : wire_backupFile x -> roundtrips (S n) BackupFileType (backupFileValue x).
Proof.
  intros Hw. unfold wire_backupFile in Hw. destruct_and? Hw. unfold BackupFileType, backupFileValue. wire_fields.
Qed.

Lemma backupFile_of_value x : backupFileOf (backupFileValue x) = Some x.
Proof.
  destruct x. unfold backupFileOf, backupFileValue. simplify_values. done.
Qed.

#[export] Hint Resolve roundtrips_backupFile : wire.
#[export] Hint Rewrite backupFile_of_value : wire_values.

Definition wire_backupFiles (l : option (list BackupFile)) : Prop :=
  match l with Some l => Forall wire_backupFile l | None => True end.

Lemma roundtrips_backupFiles n l : wire_backupFiles l ->
  roundtrips (S (S n)) (TList BackupFileType) (GList (option_map (fun l => backupFileValue <$> l) l)).
Proof.
  destruct l as [l|]; intros Hl; [|apply roundtrips_nil_list]. apply roundtrips_list. rewrite Forall_fmap.
  eapply Forall_impl; [exact Hl|]. intros x Hx. by apply roundtrips_backupFile.
Qed.

Lemma backupFiles_of_value l : backupFilesOf (GList (option_map (fun l => backupFileValue <$> l) l)) = Some l.
Proof.
  destruct l as [l|]; [|done]. cbn [option_map backupFilesOf].
  rewrite sliceOf_values; [done|]. apply Forall_forall. intros x _. apply backupFile_of_value.
Qed.

#[export] Hint Resolve roundtrips_backupFiles : wire.
#[export] Hint Rewrite backupFiles_of_value : wire_values.

Definition wire_backupResult (x : BackupResult) : Prop :=
  utf8_valid (BrDatabaseID x) = true /\ u64 (BrRevision x) /\ utf8_valid (BrManifestChecksum x) = true /\
  wire_backupFiles (BrFiles x) /\ i64 (BrByteCount x).

Lemma roundtrips_backupResult n x : wire_backupResult x -> roundtrips (S (S (S n))) BackupResultType (backupResultValue x).
Proof.
  intros Hw. unfold wire_backupResult in Hw. destruct_and? Hw. unfold BackupResultType, backupResultValue. wire_fields.
Qed.

Lemma backupResult_of_value x : backupResultOf (backupResultValue x) = Some x.
Proof.
  destruct x. unfold backupResultOf, backupResultValue. simplify_values. done.
Qed.

#[export] Hint Resolve roundtrips_backupResult : wire.
#[export] Hint Rewrite backupResult_of_value : wire_values.
