(* ===== verification/WireErrors.v ===== *)
(** * Errors on the wire (internal/protocol/envelope.go, gapdb/types.go)

    A [gapdb.Error] travels as a JSON object with the fields its code asks for.
    This file gives the struct its JSON form, and translates the validation of
    the object: the catalog entry, the evidence schema of the code and the
    alternatives some codes have.

    The object is visited in the order of its members; Go's maps leave the order
    open, which decides only which of several faults is reported. *)

From stdpp Require Import base gmap list strings.
From Stdlib Require Import ZArith Lia.
From S2P Require Import Prelude.
From S2P Require Import Bytes.
From S2P Require Import Errors.
From S2P Require Import ApiTypes.
From S2P Require Import Base64.
From S2P Require Import Json.
From S2P Require Import GoTime.
From S2P Require Import GoJson.
From S2P Require Import Frame.
From S2P Require Import Envelope.

Local Open Scope Z_scope.
Local Open Scope go_scope.

(** ** Texts *)

Definition codeText (c : ErrorCode) : string :=
  match c with
  | CodeInvalidRequest => "INVALID_REQUEST" | CodeUnsupportedVersion => "UNSUPPORTED_VERSION"
  | CodeFrameTooLarge => "FRAME_TOO_LARGE" | CodeKeyTooLarge => "KEY_TOO_LARGE"
  | CodeValueTooLarge => "VALUE_TOO_LARGE" | CodeBatchTooLarge => "BATCH_TOO_LARGE"
  | CodeDuplicateKey => "DUPLICATE_KEY" | CodeExpiryNotFuture => "EXPIRY_NOT_FUTURE"
  | CodeInvalidCursor => "INVALID_CURSOR" | CodeNotFound => "NOT_FOUND" | CodeAlreadyExists => "ALREADY_EXISTS"
  | CodeRevisionMismatch => "REVISION_MISMATCH" | CodeConditionFailed => "CONDITION_FAILED"
  | CodeScanStale => "SCAN_STALE" | CodeRevisionAhead => "REVISION_AHEAD"
  | CodeRevisionCompacted => "REVISION_COMPACTED" | CodeWatchLagged => "WATCH_LAGGED"
  | CodeOwnerExists => "OWNER_EXISTS" | CodeServerBusy => "SERVER_BUSY"
  | CodeServerShuttingDown => "SERVER_SHUTTING_DOWN" | CodeDeadlineExceeded => "DEADLINE_EXCEEDED"
  | CodeServerUnavailable => "SERVER_UNAVAILABLE" | CodePermissionDenied => "PERMISSION_DENIED"
  | CodeStorageDegraded => "STORAGE_DEGRADED" | CodeCorruptIdentity => "CORRUPT_IDENTITY"
  | CodeCorruptManifest => "CORRUPT_MANIFEST" | CodeCorruptSnapshot => "CORRUPT_SNAPSHOT"
  | CodeCorruptWAL => "CORRUPT_WAL" | CodeUnknownFormat => "UNKNOWN_FORMAT"
  | CodeDatabaseIDMismatch => "DATABASE_ID_MISMATCH" | CodeRevisionRangeExhausted => "REVISION_RANGE_EXHAUSTED"
  | CodeIOError => "IO_ERROR" | CodeAdminPreconditionFailed => "ADMIN_PRECONDITION_FAILED"
  | CodeSnapshotInProgress => "SNAPSHOT_IN_PROGRESS" | CodeCompactionNotSafe => "COMPACTION_NOT_SAFE"
  | CodeBackupDestinationExists => "BACKUP_DESTINATION_EXISTS" | CodeBackupInvalid => "BACKUP_INVALID"
  | CodeRecoveryRequired => "RECOVERY_REQUIRED" | CodeRecoveryActionMismatch => "RECOVERY_ACTION_MISMATCH"
  | CodeAuditFailedAfterApply => "AUDIT_FAILED_AFTER_APPLY" | CodeInternal => "INTERNAL"
  end.

Definition retryText (r : RetryClass) : string :=
  match r with
  | RetryNever => "never" | RetryImmediate => "immediate" | RetryAfterReconcile => "after_reconcile"
  | RetryAfterRescan => "after_rescan" | RetryAfterRestart => "after_restart"
  | RetryAfterOperator => "after_operator"
  end.

Definition actionText (a : SafeAction) : string :=
  match a with
  | ActionAbort => "abort" | ActionFixRequest => "fix_request"
  | ActionUseSupportedVersion => "use_supported_version" | ActionUpgradeClient => "upgrade_client"
  | ActionReduceRequest => "reduce_request" | ActionReduceKey => "reduce_key"
  | ActionReduceValue => "reduce_value" | ActionSplitBatch => "split_batch"
  | ActionDeduplicateBatch => "deduplicate_batch" | ActionChooseFutureExpiry => "choose_future_expiry"
  | ActionRestartScan => "restart_scan" | ActionGet => "get" | ActionPutIfAbsent => "put_if_absent"
  | ActionCompareAndSwap => "compare_and_swap" | ActionRetryWithNewCondition => "retry_with_new_condition"
  | ActionRebuildBatch => "rebuild_batch" | ActionScanPrefix => "scan_prefix"
  | ActionRestartWatch => "restart_watch" | ActionStatus => "status" | ActionWait => "wait"
  | ActionRetryWithBackoff => "retry_with_backoff" | ActionWaitForRestart => "wait_for_restart"
  | ActionReconcile => "reconcile" | ActionStatusOffline => "status_offline" | ActionStartServer => "start_server"
  | ActionFixPermissions => "fix_permissions" | ActionVerify => "verify"
  | ActionRestartAfterRecovery => "restart_after_recovery" | ActionInspectOffline => "inspect_offline"
  | ActionRestoreBackup => "restore_backup" | ActionRecoverPropose => "recover_propose"
  | ActionUpgradeGapdb => "upgrade_gapdb" | ActionUseCompatibleBinary => "use_compatible_binary"
  | ActionSelectCorrectDatabase => "select_correct_database" | ActionVerifyStorage => "verify_storage"
  | ActionCheckStorage => "check_storage" | ActionRebuildRequest => "rebuild_request"
  | ActionCreateSnapshot => "create_snapshot" | ActionChooseNewDestination => "choose_new_destination"
  | ActionVerifyBackup => "verify_backup" | ActionChooseOtherBackup => "choose_other_backup"
  | ActionRepairAuditStorage => "repair_audit_storage"
  end.

Definition lifecycleText (l : LifecycleState) : string :=
  match l with
  | LifecycleReady => "ready" | LifecycleDegradedReadOnly => "degraded_read_only"
  | LifecycleDraining => "draining" | LifecycleInspectionOnly => "inspection_only"
  end.

(** ** The struct *)

(** The fields of the evidence, in the order of the struct; all are
    [omitempty]. *)
Definition evidenceTypes : list (string * jtype) :=
  [("field", TString); ("path", TString); ("reason", TString); ("key", TString); ("operation", TString);
   ("deadline", TString); ("os_error_category", TString); ("expected_revision", TPtr TRevision);
   ("actual_revision", TPtr TRevision); ("current_revision", TPtr TRevision);
   ("requested_revision", TPtr TRevision); ("cursor_revision", TPtr TRevision);
   ("earliest_available_revision", TPtr TRevision); ("last_delivered_revision", TPtr TRevision);
   ("durable_through_revision", TPtr TRevision); ("reserved_revision_end", TPtr TRevision);
   ("through_revision", TPtr TRevision); ("active_snapshot_revision", TPtr TRevision);
   ("mutation_index", TPtr TInt); ("mutation_indexes", TList TInt); ("assertion_index", TPtr TInt);
   ("received_version", TPtr (TUint max_uint64)); ("supported_versions", TList (TUint max_uint64));
   ("expected_manifest_generation", TPtr (TUint max_uint64));
   ("actual_manifest_generation", TPtr (TUint max_uint64)); ("offset", TPtr TInt); ("active_clients", TPtr TInt);
   ("maximum_clients", TPtr TInt); ("queue_depth", TPtr TInt); ("received_bytes", TInt); ("maximum_bytes", TInt);
   ("received_operations", TInt); ("maximum_operations", TInt); ("expected_database_id", TString);
   ("actual_database_id", TString); ("condition", TString); ("actual_state", TString); ("lifecycle", TString);
   ("failed_stage", TString); ("file", TString); ("socket_path", TString); ("connection_reason", TString);
   ("operation_id", TString); ("started_at", TString); ("destination", TString); ("backup_path", TString);
   ("proposal_id", TString); ("detected_corruption", TString); ("proposal_available", TPtr TBool);
   ("correlation_id", TString); ("supplied_expiry", TString); ("effective_time", TString)].

Definition errorFields : list (bytes * jtype * bool) :=
  [field "code" TString; field "message" TString; field "retry" TString]
  ++ ((fun f => omitempty f.1 f.2) <$> evidenceTypes)
  ++ [omitempty "operation_applied" TBool; field "safe_actions" (TList TString)].

Definition ErrorType : jtype := TStruct errorFields.

Definition evidenceName (ev : Evidence) : string :=
  match ev with
  | EvField _ => "field" | EvPath _ => "path" | EvReason _ => "reason" | EvKey _ => "key"
  | EvOperation _ => "operation" | EvOSErrorCategory _ => "os_error_category"
  | EvExpectedRevision _ => "expected_revision" | EvActualRevision _ => "actual_revision"
  | EvCurrentRevision _ => "current_revision" | EvRequestedRevision _ => "requested_revision"
  | EvCursorRevision _ => "cursor_revision" | EvEarliestRevision _ => "earliest_available_revision"
  | EvLastDeliveredRevision _ => "last_delivered_revision"
  | EvDurableThroughRevision _ => "durable_through_revision" | EvReservedRevisionEnd _ => "reserved_revision_end"
  | EvMutationIndex _ => "mutation_index" | EvMutationIndexes _ => "mutation_indexes"
  | EvAssertionIndex _ => "assertion_index" | EvReceivedVersion _ => "received_version"
  | EvSupportedVersions _ => "supported_versions" | EvOffset _ => "offset" | EvActiveClients _ => "active_clients"
  | EvMaximumClients _ => "maximum_clients" | EvQueueDepth _ => "queue_depth"
  | EvReceivedBytes _ => "received_bytes" | EvMaximumBytes _ => "maximum_bytes"
  | EvReceivedOperations _ => "received_operations" | EvMaximumOperations _ => "maximum_operations"
  | EvExpectedDatabaseID _ => "expected_database_id" | EvActualDatabaseID _ => "actual_database_id"
  | EvCondition _ => "condition" | EvActualState _ => "actual_state" | EvLifecycle _ => "lifecycle"
  | EvFailedStage _ => "failed_stage" | EvFile _ => "file" | EvCorrelationID _ => "correlation_id"
  | EvSuppliedExpiry _ => "supplied_expiry" | EvEffectiveTime _ => "effective_time"
  | EvDetectedCorruption _ => "detected_corruption" | EvProposalAvailable _ => "proposal_available"
  | EvDeadline _ => "deadline" | EvThroughRevision _ => "through_revision"
  | EvActiveSnapshotRevision _ => "active_snapshot_revision"
  | EvExpectedManifestGeneration _ => "expected_manifest_generation"
  | EvActualManifestGeneration _ => "actual_manifest_generation" | EvSocketPath _ => "socket_path"
  | EvConnectionReason _ => "connection_reason" | EvOperationID _ => "operation_id"
  | EvStartedAt _ => "started_at" | EvDestination _ => "destination" | EvBackupPath _ => "backup_path"
  | EvProposalID _ => "proposal_id"
  end.

Definition evidenceValue (ev : Evidence) : gval :=
  match ev with
  | EvField s => GString (lit s) | EvPath s => GString (lit s) | EvReason s => GString (lit s)
  | EvKey k => GString k | EvOperation s => GString (lit s) | EvOSErrorCategory s => GString (lit s)
  | EvExpectedRevision r => GPtr (Some (GNum r)) | EvActualRevision r => GPtr (Some (GNum r))
  | EvCurrentRevision r => GPtr (Some (GNum r)) | EvRequestedRevision r => GPtr (Some (GNum r))
  | EvCursorRevision r => GPtr (Some (GNum r)) | EvEarliestRevision r => GPtr (Some (GNum r))
  | EvLastDeliveredRevision r => GPtr (Some (GNum r)) | EvDurableThroughRevision r => GPtr (Some (GNum r))
  | EvReservedRevisionEnd r => GPtr (Some (GNum r)) | EvMutationIndex i => GPtr (Some (GNum i))
  | EvMutationIndexes l => sliceValue GNum l | EvAssertionIndex i => GPtr (Some (GNum i))
  | EvReceivedVersion v => GPtr (Some (GNum v)) | EvSupportedVersions l => sliceValue GNum l
  | EvOffset o => GPtr (Some (GNum o)) | EvActiveClients n => GPtr (Some (GNum n))
  | EvMaximumClients n => GPtr (Some (GNum n)) | EvQueueDepth n => GPtr (Some (GNum n))
  | EvReceivedBytes n => GNum n | EvMaximumBytes n => GNum n | EvReceivedOperations n => GNum n
  | EvMaximumOperations n => GNum n | EvExpectedDatabaseID id => GString id | EvActualDatabaseID id => GString id
  | EvCondition k => GString (conditionText k) | EvActualState s => GString (lit s)
  | EvLifecycle l => GString (lit (lifecycleText l)) | EvFailedStage s => GString (lit s)
  | EvFile s => GString (lit s) | EvCorrelationID s => GString (lit s)
  | EvSuppliedExpiry t => GString (FormatRFC3339Nano t) | EvEffectiveTime t => GString (FormatRFC3339Nano t)
  | EvDetectedCorruption s => GString (lit s) | EvProposalAvailable b => GPtr (Some (GBool b))
  | EvDeadline s => GString (lit s) | EvThroughRevision r => GPtr (Some (GNum r))
  | EvActiveSnapshotRevision r => GPtr (Some (GNum r)) | EvExpectedManifestGeneration g => GPtr (Some (GNum g))
  | EvActualManifestGeneration g => GPtr (Some (GNum g)) | EvSocketPath s => GString (lit s)
  | EvConnectionReason s => GString (lit s) | EvOperationID s => GString (lit s)
  | EvStartedAt s => GString (lit s) | EvDestination s => GString (lit s) | EvBackupPath s => GString (lit s)
  | EvProposalID s => GString (lit s)
  end.

(** A field of the struct: the evidence of its name, or the zero value. *)
Definition evidenceField (evs : list Evidence) (f : string * jtype) : gval :=
  match list_find (fun ev => evidenceName ev = f.1) evs with
  | Some (_, ev) => evidenceValue ev
  | None => zero_value f.2
  end.

(** The struct that [Clone] returns for an error. *)
Definition errorValues (e : Error) : list gval :=
  [GString (lit (codeText (Code e))); GString (lit (Message e)); GString (lit (retryText (Retry e)))]
  ++ (evidenceField (Evidences e) <$> evidenceTypes)
  ++ [GBool (OperationApplied e); sliceValue (fun a => GString (lit (actionText a))) (SafeActions e)].
Definition errorValue (e : Error) : gval := GStruct (errorValues e).

(** ** The evidence a code asks for *)

Record errorEvidenceSchema := MkSchema {
  schema_required : list string;
  schema_requiredAny : list (list string);
  schema_allowed : list string
}.

Definition evidenceSchema (required optional : list string) (requiredAny : list (list string)) : errorEvidenceSchema :=
  MkSchema required requiredAny ("operation_applied"%string :: required ++ optional ++ mjoin requiredAny).

Definition errorSchema (code : ErrorCode) : errorEvidenceSchema :=
  match code with
  | CodeInvalidRequest =>
      evidenceSchema ["reason"] [] [["field"; "path"]]
  | CodeUnsupportedVersion =>
      evidenceSchema ["received_version"; "supported_versions"] [] []
  | CodeFrameTooLarge =>
      evidenceSchema ["received_bytes"; "maximum_bytes"] [] []
  | CodeKeyTooLarge | CodeValueTooLarge =>
      evidenceSchema ["received_bytes"; "maximum_bytes"] ["field"] []
  | CodeBatchTooLarge =>
      evidenceSchema [] ["received_operations"; "maximum_operations"; "received_bytes"; "maximum_bytes"] []
  | CodeDuplicateKey =>
      evidenceSchema ["key"] ["mutation_index"] [["mutation_indexes"; "assertion_index"]]
  | CodeExpiryNotFuture =>
      evidenceSchema ["supplied_expiry"; "effective_time"] [] []
  | CodeInvalidCursor =>
      evidenceSchema ["reason"] [] []
  | CodeNotFound =>
      evidenceSchema ["key"; "current_revision"] [] []
  | CodeAlreadyExists =>
      evidenceSchema ["key"; "actual_revision"] [] []
  | CodeRevisionMismatch =>
      evidenceSchema ["key"; "expected_revision"; "actual_revision"] [] []
  | CodeConditionFailed =>
      evidenceSchema ["key"; "condition"] ["expected_revision"] [["mutation_index"; "assertion_index"]; ["actual_state"; "actual_revision"]]
  | CodeScanStale =>
      evidenceSchema ["cursor_revision"; "current_revision"] [] []
  | CodeRevisionAhead =>
      evidenceSchema ["requested_revision"; "current_revision"] [] []
  | CodeRevisionCompacted =>
      evidenceSchema ["requested_revision"; "earliest_available_revision"] [] []
  | CodeWatchLagged =>
      evidenceSchema ["last_delivered_revision"; "current_revision"] [] []
  | CodeOwnerExists =>
      evidenceSchema ["path"] [] []
  | CodeServerBusy =>
      evidenceSchema ["active_clients"; "maximum_clients"; "queue_depth"] [] []
  | CodeServerShuttingDown =>
      evidenceSchema ["lifecycle"] [] []
  | CodeDeadlineExceeded =>
      evidenceSchema ["operation"; "deadline"] ["operation_applied"] []
  | CodeServerUnavailable =>
      evidenceSchema ["socket_path"; "connection_reason"] [] []
  | CodePermissionDenied =>
      evidenceSchema ["path"; "operation"] [] []
  | CodeStorageDegraded =>
      evidenceSchema ["failed_stage"; "current_revision"; "durable_through_revision"] [] []
  | CodeCorruptIdentity =>
      evidenceSchema ["file"] ["expected_database_id"] [["offset"; "reason"]]
  | CodeCorruptManifest =>
      evidenceSchema ["file"; "reason"] [] []
  | CodeCorruptSnapshot =>
      evidenceSchema ["file"; "offset"; "reason"] [] []
  | CodeCorruptWAL =>
      evidenceSchema ["file"; "offset"; "reason"] ["actual_revision"] []
  | CodeUnknownFormat =>
      evidenceSchema ["file"; "received_version"; "supported_versions"] [] []
  | CodeDatabaseIDMismatch =>
      evidenceSchema ["expected_database_id"; "actual_database_id"] [] [["file"; "operation"]]
  | CodeRevisionRangeExhausted =>
      evidenceSchema ["reserved_revision_end"; "reason"] [] []
  | CodeIOError =>
      evidenceSchema ["operation"; "path"; "os_error_category"] ["operation_applied"] []
  | CodeAdminPreconditionFailed =>
      evidenceSchema [] ["expected_database_id"; "actual_database_id"; "expected_revision"; "actual_revision"; "expected_manifest_generation"; "actual_manifest_generation"] []
  | CodeSnapshotInProgress =>
      evidenceSchema ["operation_id"; "started_at"] [] []
  | CodeCompactionNotSafe =>
      evidenceSchema ["through_revision"; "active_snapshot_revision"] [] []
  | CodeBackupDestinationExists =>
      evidenceSchema ["destination"] [] []
  | CodeBackupInvalid =>
      evidenceSchema ["backup_path"] [] [["file"; "reason"]]
  | CodeRecoveryRequired =>
      evidenceSchema ["detected_corruption"; "proposal_available"] [] []
  | CodeRecoveryActionMismatch =>
      evidenceSchema ["expected_database_id"; "actual_database_id"; "expected_manifest_generation"; "actual_manifest_generation"; "proposal_id"] [] []
  | CodeAuditFailedAfterApply =>
      evidenceSchema ["operation"; "reason"; "current_revision"; "operation_applied"] [] []
  | CodeInternal =>
      evidenceSchema ["correlation_id"] ["lifecycle"; "reason"; "operation_applied"] []
  end.

(** ** Validation of an error that arrives *)

(** A field of a struct by its name. *)
Definition fieldIndex (fields : list (bytes * jtype * bool)) (name : string) : option nat :=
  fst <$> list_find (fun f => f.1.1 = lit name) fields.
Definition getField (fields : list (bytes * jtype * bool)) (g : gval) (name : string) : option gval :=
  match g with GStruct vals => i ← fieldIndex fields name; vals !! i | _ => None end.

Definition errorText (g : gval) (name : string) : bytes :=
  match getField errorFields g name with Some (GString s) => s | _ => [] end.
Definition errorAssertionIndex (g : gval) : option Z :=
  match getField errorFields g "assertion_index" with Some (GPtr (Some (GNum i))) => Some i | _ => None end.
Definition errorActions (g : gval) : list bytes :=
  match getField errorFields g "safe_actions" with Some l => default [] (sliceOf stringOfValue l) | None => [] end.

Definition maxAssertionDiagnosticBytes : Z := Z.shiftl 4 10.
Definition maxAssertionDiagnosticKeyBytes : nat := 256.

Definition boundedAssertionDiagnosticKey (key : bytes) : bytes :=
  if bool_decide (length key <= maxAssertionDiagnosticKeyBytes)%nat then key
  else take (trimToValid key maxAssertionDiagnosticKeyBytes) key.

Definition meaningfulEvidence (v : option jvalue) : bool :=
  match v with
  | None | Some JNull => false
  | Some (JString s _) => negb (bool_decide (s = []))
  | Some (JArray l _) => negb (bool_decide (l = []))
  | Some _ => true
  end.

Definition baseNames : list string := ["code"; "message"; "retry"; "safe_actions"].

(** [error.<name>] with the name of a field. *)
Definition errorField (name : string) : string := String.append "error." name.

(** The loop over the members of the object. *)
Fixpoint validateEvidence (allowed : list string) (ms : list (bytes * jvalue)) : error :=
  match ms with
  | [] => None
  | (name, v) :: ms =>
      if bool_decide (name ∈ (lit <$> baseNames)) then validateEvidence allowed ms
      else if negb (bool_decide (name ∈ (lit <$> allowed)))
      then Some (invalidProtocol (errorField (String.string_of_list_byte name)) "is not relevant to this error code" None)
      else if negb (meaningfulEvidence (Some v))
      then Some (invalidProtocol (errorField (String.string_of_list_byte name)) "must be omitted when evidence is absent" None)
      else validateEvidence allowed ms
  end.

Definition rawStringValue (v : option jvalue) : bytes := match v with Some (JString s _) => s | _ => [] end.

Definition validateAlternativeEvidence (code : ErrorCode) (ms : list (bytes * jvalue)) : error :=
  let has name := meaningfulEvidence (member ms name) in
  let pair left right := has left && has right in
  match code with
  | CodeBatchTooLarge =>
      if negb (pair "received_operations" "maximum_operations") && negb (pair "received_bytes" "maximum_bytes")
      then Some (invalidProtocol "error" "batch evidence must provide an operations or bytes pair" None) else None
  | CodeAdminPreconditionFailed =>
      if negb (pair "expected_database_id" "actual_database_id") && negb (pair "expected_revision" "actual_revision")
         && negb (pair "expected_manifest_generation" "actual_manifest_generation")
      then Some (invalidProtocol "error" "admin evidence must provide one complete expected/actual pair" None) else None
  | CodeConditionFailed =>
      if Bool.eqb (has "mutation_index"%string) (has "assertion_index"%string)
      then Some (invalidProtocol "error" "condition evidence must identify exactly one mutation or assertion" None)
      else if negb (has "assertion_index"%string) then None
      else match conditionOf (rawStringValue (member ms "condition")) with
      | ConditionAbsent =>
          if member ms "expected_revision"
          then Some (invalidProtocol "error.expected_revision" "must be omitted for an absent assertion" None) else None
      | ConditionRevision =>
          match member ms "expected_revision" with
          | Some (JNumber n) =>
              match parse_uint64 n with
              | Some z => if z =? 0 then Some (invalidProtocol "error.expected_revision" "must be a positive revision" None) else None
              | None => Some (invalidProtocol "error.expected_revision" "must be a positive revision" None)
              end
          | _ => Some (invalidProtocol "error.expected_revision" "must be a positive revision" None)
          end
      | _ => Some (invalidProtocol "error.condition" "must be absent or revision for an assertion" None)
      end
  | _ => None
  end.

(** The value [g] of the struct and the object [v] it was decoded from. *)
Definition validateStructuredError (g : gval) (v : jvalue) : error :=
  if bool_decide (errorText g "message" = []) then Some (invalidProtocol "error.message" "must not be empty" None)
  else match list_find (fun d => lit (codeText d.1.1) = errorText g "code") ErrorDefinitions with
  | None => Some (invalidProtocol "error.code" "is not a protocol v1 error code" None)
  | Some (_, (code, retry, actions)) =>
      if negb (bool_decide (lit (retryText retry) = errorText g "retry"))
      then Some (invalidProtocol "error.retry" "does not match the stable code" None)
      else if match errorAssertionIndex g with Some i => i <? 0 | None => false end
      then Some (invalidProtocol "error.assertion_index" "must not be negative" None)
      else if match errorAssertionIndex g with
              | Some _ => (maxAssertionDiagnosticBytes <=? len (raw_text v))
                          || negb (bool_decide (errorText g "key" = boundedAssertionDiagnosticKey (errorText g "key")))
              | None => false
              end
      then Some (invalidProtocol "error" "assertion diagnostic exceeds its safe bound" None)
      else if negb (bool_decide (errorActions g = (fun a => lit (actionText a)) <$> actions))
      then Some (invalidProtocol "error.safe_actions" "must exactly match the stable code-specific actions" None)
      else match objectMembers v with
      | None => Some (invalidProtocol "error" "could not inspect evidence" (Some (ErrText jsonReason)))
      | Some ms =>
          let schema := errorSchema code in
          try validateEvidence (schema_allowed schema) ms ;;
          match list_find (fun name => meaningfulEvidence (member ms name) = false) (schema_required schema) with
          | Some (_, name) => Some (invalidProtocol (errorField name) "is required for this error code" None)
          | None =>
              if negb (forallb (existsb (fun name => meaningfulEvidence (member ms name))) (schema_requiredAny schema))
              then Some (invalidProtocol "error" "is missing required code-specific evidence" None)
              else if match member ms "operation_applied" with None | Some (JBool true) => false | _ => true end
              then Some (invalidProtocol "error.operation_applied" "must be true when present" None)
              else validateAlternativeEvidence code ms
          end
      end
  end.

(** ** Errors that can be reported *)

Definition evidenceType (ev : Evidence) : jtype :=
  from_option (fun f => f.2.2) TString (list_find (fun f => f.1 = evidenceName ev) evidenceTypes).

Lemma evidence_known ev : (evidenceName ev, evidenceType ev) ∈ evidenceTypes.
Proof. destruct ev; vm_compute; repeat first [apply list_elem_of_here | apply list_elem_of_further]. Qed.

Lemma evidence_names_distinct : NoDup evidenceTypes.*1.
Proof. apply (bool_decide_unpack _). vm_compute. done. Qed.

Lemma evidence_type ev name t : (name, t) ∈ evidenceTypes -> evidenceName ev = name -> evidenceType ev = t.
Proof.
  intros Ht <-. pose proof (evidence_known ev) as Hk. pose proof evidence_names_distinct as Hnd.
  apply list_elem_of_lookup in Ht as [i Hi], Hk as [j Hj].
  assert (evidenceTypes.*1 !! i = Some (evidenceName ev)) as Hi' by (by rewrite list_lookup_fmap, Hi).
  assert (evidenceTypes.*1 !! j = Some (evidenceName ev)) as Hj' by (by rewrite list_lookup_fmap, Hj).
  pose proof (NoDup_lookup _ _ _ _ Hnd Hi' Hj'). subst. congruence.
Qed.

(** Evidence that the wire carries: its value is encoded and not empty. *)
Definition wire_evidence (ev : Evidence) : Prop :=
  roundtrips 1 (evidenceType ev) (evidenceValue ev) /\ is_empty (evidenceValue ev) = false.

Lemma evidence_meaningful ev : wire_evidence ev ->
  meaningfulEvidence (Some (json_of (evidenceType ev) (evidenceValue ev))) = true.
Proof.
  intros [_ Hne]. destruct ev; cbn [evidenceValue] in *;
    lazymatch goal with |- context [evidenceType ?x] => let t := eval vm_compute in (evidenceType x) in change (evidenceType x) with t end;
    cbn [json_of jstring meaningfulEvidence is_empty] in *; try done; try (by rewrite Hne);
    destruct l; done.
Qed.


(** *** The object of an error *)

Definition errorMembers (e : Error) : list (bytes * jvalue) := field_values errorFields (errorValues e).

Record wire_error (e : Error) : Prop := {
  we_message : Message e <> ""%string /\ utf8_valid (lit (Message e)) = true;
  we_distinct : NoDup (evidenceName <$> Evidences e);
  we_evidence : Forall wire_evidence (Evidences e);
  we_condition : Forall (fun ev => match ev with EvCondition (ConditionUnknown _) => False | _ => True end) (Evidences e)
}.

Lemma errorFields_ok : names_ok errorFields.
Proof. apply (bool_decide_unpack _). vm_compute. done. Qed.

Lemma evidence_zero name t : (name, t) ∈ evidenceTypes -> is_empty (zero_value t) = true.
Proof.
  assert (Forall (fun f => is_empty (zero_value f.2) = true) evidenceTypes) as Hall by (apply (bool_decide_unpack _); vm_compute; done).
  rewrite Forall_forall in Hall. apply (Hall (name, t)).
Qed.

Lemma evidenceField_found evs ev : NoDup (evidenceName <$> evs) -> ev ∈ evs ->
  evidenceField evs (evidenceName ev, evidenceType ev) = evidenceValue ev.
Proof.
  intros Hnd Hin. unfold evidenceField. simpl.
  destruct (list_find (fun ev' => evidenceName ev' = evidenceName ev) evs) as [[i ev']|] eqn:Hf.
  - apply list_find_Some in Hf as (Hi & Hn & _). apply list_elem_of_lookup in Hin as [j Hj].
    assert (i = j) as <- by (eapply NoDup_lookup; [exact Hnd|by rewrite list_lookup_fmap, Hi|by rewrite list_lookup_fmap, Hj; simpl; rewrite Hn]).
    congruence.
  - exfalso. apply list_find_None in Hf. rewrite Forall_forall in Hf. by apply (Hf ev).
Qed.

Lemma evidenceField_absent evs name t : name ∉ (evidenceName <$> evs) -> evidenceField evs (name, t) = zero_value t.
Proof.
  intros Hn. unfold evidenceField. simpl. destruct (list_find _ evs) as [[i ev]|] eqn:Hf; [|done].
  apply list_find_Some in Hf as (Hi & Hname & _). exfalso. apply Hn, list_elem_of_fmap. exists ev. split; [done|].
  by eapply list_elem_of_lookup_2.
Qed.

(** Every field of the evidence is there and not empty, or has its zero value. *)
Lemma evidenceField_cases e name t : wire_error e -> (name, t) ∈ evidenceTypes ->
  (exists ev, ev ∈ Evidences e /\ evidenceName ev = name /\ evidenceType ev = t /\ wire_evidence ev /\
     evidenceField (Evidences e) (name, t) = evidenceValue ev) \/
  (name ∉ (evidenceName <$> Evidences e) /\ evidenceField (Evidences e) (name, t) = zero_value t).
Proof.
  intros He Ht. destruct (decide (name ∈ (evidenceName <$> Evidences e))) as [Hin|Hn]; [left|right; by rewrite evidenceField_absent].
  apply list_elem_of_fmap in Hin as (ev & -> & Hev). pose proof (evidence_type ev _ t Ht eq_refl) as <-.
  exists ev. split_and!; try done; [|by apply evidenceField_found; [apply He|]].
  pose proof (we_evidence _ He) as Hall. rewrite Forall_forall in Hall. by apply Hall.
Qed.

Lemma texts_utf8 : (forall c, utf8_valid (lit (codeText c)) = true) /\ (forall r, utf8_valid (lit (retryText r)) = true) /\
  (forall a, utf8_valid (lit (actionText a)) = true).
Proof. split_and!; intros []; done. Qed.

Lemma roundtrips_actions n l :
  roundtrips (S n) (TList TString) (sliceValue (fun a => GString (lit (actionText a))) l).
Proof.
  destruct texts_utf8 as (_ & _ & Ha). destruct l as [|a l]; [apply roundtrips_nil_list|]. apply roundtrips_list.
  rewrite Forall_fmap. apply Forall_forall. intros x _. apply roundtrips_string, Ha.
Qed.

Lemma error_fields e : wire_error e -> Forall2 (field_roundtrips 1) errorFields (errorValues e).
Proof.
  intros He. destruct texts_utf8 as (Hc & Hr & _). destruct (we_message _ He) as [_ Hm]. unfold errorFields, errorValues.
  apply Forall2_app; [|apply Forall2_app].
  - repeat (apply Forall2_cons; split); [..|done]; apply roundtrips_string; done.
  - apply Forall2_fmap_2, Forall_Forall2_diag, Forall_forall. intros [name t] Ht. unfold field_roundtrips. simpl.
    destruct (evidenceField_cases e name t He Ht) as [(ev & _ & _ & <- & [Hev Hne] & ->)|[_ ->]]; [by rewrite Hne|].
    by rewrite (evidence_zero name).
  - repeat (apply Forall2_cons; split); [..|done].
    + unfold field_roundtrips. simpl. destruct (OperationApplied e); [apply roundtrips_bool|done].
    + apply roundtrips_actions.
Qed.

Lemma error_roundtrip e : wire_error e -> roundtrips 2 ErrorType (errorValue e).
Proof. intros He. apply roundtrips_struct; [apply errorFields_ok|]. by apply error_fields. Qed.

(** *** What the schema says about an error *)

(** The evidence of a name. *)
Definition hasEvidence (e : Error) (name : string) : bool :=
  bool_decide (name ∈ (evidenceName <$> Evidences e)) || (bool_decide (name = "operation_applied"%string) && OperationApplied e).
Definition evidenceOf (e : Error) (name : string) : option Evidence :=
  snd <$> list_find (fun ev => evidenceName ev = name) (Evidences e).

Definition alternatives_hold (e : Error) : bool :=
  let pair left right := hasEvidence e left && hasEvidence e right in
  match Code e with
  | CodeBatchTooLarge => pair "received_operations" "maximum_operations" || pair "received_bytes" "maximum_bytes"
  | CodeAdminPreconditionFailed =>
      pair "expected_database_id" "actual_database_id" || pair "expected_revision" "actual_revision"
      || pair "expected_manifest_generation" "actual_manifest_generation"
  | CodeConditionFailed =>
      xorb (hasEvidence e "mutation_index") (hasEvidence e "assertion_index") &&
      (negb (hasEvidence e "assertion_index") ||
       match evidenceOf e "condition", evidenceOf e "expected_revision" with
       | Some (EvCondition ConditionAbsent), None => true
       | Some (EvCondition ConditionRevision), Some (EvExpectedRevision z) => negb (z =? 0)
       | _, _ => false
       end)
  | _ => true
  end.

Definition schema_holds (e : Error) : bool :=
  let schema := errorSchema (Code e) in
  forallb (fun ev => bool_decide (evidenceName ev ∈ schema_allowed schema)) (Evidences e) &&
  forallb (hasEvidence e) (schema_required schema) &&
  forallb (existsb (hasEvidence e)) (schema_requiredAny schema) &&
  alternatives_hold e.

Definition keyEvidence (e : Error) : bytes := match evidenceOf e "key" with Some (EvKey k) => k | _ => [] end.

(** An error about an assertion is small. *)
Definition diagnostic_bounded (e : Error) : Prop :=
  match evidenceOf e "assertion_index" with
  | Some (EvAssertionIndex i) =>
      0 <= i /\ len (raw_text (json_of ErrorType (errorValue e))) < maxAssertionDiagnosticBytes /\
      boundedAssertionDiagnosticKey (keyEvidence e) = keyEvidence e
  | _ => True
  end.

(** An error that a response can carry. *)
Definition reportable (e : Error) : Prop :=
  wire_error e /\ conforms e /\ schema_holds e = true /\ diagnostic_bounded e.

Lemma error_member e name t : wire_error e -> (name, t) ∈ evidenceTypes ->
  member (errorMembers e) name =
  let x := evidenceField (Evidences e) (name, t) in if is_empty x then None else Some (json_of t x).
Proof.
  intros He Ht. apply list_elem_of_lookup in Ht as [i Hi]. pose proof errorFields_ok as [Hnd _].
  apply (member_field_values _ _ (3 + i) name t true); [done| |].
  - unfold errorFields. rewrite lookup_app_r by (simpl; lia). simpl length. replace (3 + i - 3)%nat with i by lia.
    apply lookup_app_l_Some. by rewrite list_lookup_fmap, Hi.
  - unfold errorValues. rewrite lookup_app_r by (simpl; lia). simpl length. replace (3 + i - 3)%nat with i by lia.
    apply lookup_app_l_Some. by rewrite list_lookup_fmap, Hi.
Qed.

Lemma applied_member e : member (errorMembers e) "operation_applied" = if OperationApplied e then Some (JBool true) else None.
Proof.
  pose proof errorFields_ok as [Hnd _]. unfold errorMembers.
  rewrite (member_field_values _ _ 55 _ TBool true (GBool (OperationApplied e))); [by destruct (OperationApplied e)|done|done|].
  reflexivity.
Qed.

Definition known_name (name : string) : Prop := name ∈ evidenceTypes.*1 \/ name = "operation_applied"%string.

Lemma meaningful_member e name : wire_error e -> known_name name ->
  meaningfulEvidence (member (errorMembers e) name) = hasEvidence e name.
Proof.
  intros He [Hn| ->]; unfold hasEvidence.
  - apply list_elem_of_fmap in Hn as ([n t] & -> & Ht). cbn [fst]. rewrite (error_member e n t) by done.
    assert (n <> "operation_applied"%string) as Hne.
    { intros ->. assert ("operation_applied"%string ∉ evidenceTypes.*1) as Hno by (apply (bool_decide_unpack _); vm_compute; done).
      apply Hno, list_elem_of_fmap. by exists ("operation_applied"%string, t). }
    rewrite (bool_decide_false (n = _)) by done. rewrite orb_false_r. cbv zeta.
    destruct (evidenceField_cases e n t He Ht) as [(ev & Hin & <- & <- & Hw & ->)|[Hni ->]].
    + rewrite bool_decide_true by (apply list_elem_of_fmap; by exists ev). pose proof Hw as [_ ->]. by apply evidence_meaningful.
    + rewrite bool_decide_false by done. by rewrite (evidence_zero n).
  - rewrite applied_member. rewrite (bool_decide_true ("operation_applied"%string = _)) by done.
    rewrite bool_decide_false; [by destruct (OperationApplied e)|]. intros Hin.
    apply list_elem_of_fmap in Hin as (ev & Hev & _). by destruct ev.
Qed.

Global Instance lit_inj : Inj (=) (=) lit.
Proof. intros x y H. unfold lit in H. apply (f_equal String.string_of_list_byte) in H. by rewrite !String.string_of_list_byte_of_string in H. Qed.

Lemma validateEvidence_None allowed ms : validateEvidence allowed ms = None <->
  Forall (fun m => m.1 ∈ (lit <$> baseNames) \/ (m.1 ∈ (lit <$> allowed) /\ meaningfulEvidence (Some m.2) = true)) ms.
Proof.
  induction ms as [|[name v] ms IH]; [split; [constructor|done]|]. rewrite Forall_cons, <- IH. cbn [validateEvidence fst snd].
  destruct (bool_decide_reflect (name ∈ (lit <$> baseNames))); [tauto|].
  destruct (bool_decide_reflect (name ∈ (lit <$> allowed))); cbn [negb]; [|naive_solver].
  destruct (meaningfulEvidence (Some v)); cbn [negb].
  - split; [intros ->; split; [by right|done]|by intros [_ ?]].
  - split; [done|]. by intros [[?|[_ ?]] _].
Qed.

Lemma member_NoDup ms name v : NoDup ms.*1 -> (lit name, v) ∈ ms -> member ms name = Some v.
Proof.
  induction ms as [|[key w] ms IH]; [by intros _ ?%elem_of_nil|]. rewrite fmap_cons, NoDup_cons, member_cons. intros [Hk Hnd].
  rewrite elem_of_cons. intros [[= -> ->]|Hin]; [by rewrite bool_decide_true|].
  rewrite bool_decide_false; [by apply IH|]. intros ->. apply Hk, list_elem_of_fmap. by exists (lit name, v).
Qed.

Lemma errorFields_names : field_names errorFields =
  lit <$> (["code"%string; "message"%string; "retry"%string] ++ evidenceTypes.*1 ++ ["operation_applied"%string; "safe_actions"%string]).
Proof. reflexivity. Qed.

Lemma errorMembers_NoDup e : NoDup (errorMembers e).*1.
Proof. eapply sublist_NoDup; [apply errorFields_ok|apply field_values_sublist]. Qed.

(** The names of the object: the base names, the evidence and the flag. *)
Lemma errorMembers_cases e m : wire_error e -> m ∈ errorMembers e ->
  m.1 ∈ (lit <$> baseNames) \/
  (exists name, m.1 = lit name /\ known_name name /\ hasEvidence e name = true /\ meaningfulEvidence (Some m.2) = true).
Proof.
  intros He Hm. assert (m.1 ∈ field_names errorFields) as Hn.
  { eapply elem_of_sublist; [|apply (field_values_sublist _ (errorValues e))]. by apply list_elem_of_fmap_2. }
  rewrite errorFields_names in Hn. apply list_elem_of_fmap in Hn as (name & Hname & Hn). destruct m as [key v]. cbn [fst snd] in *. subst key.
  pose proof (member_NoDup _ _ _ (errorMembers_NoDup e) Hm) as Hmem.
  assert (known_name name \/ lit name ∈ (lit <$> baseNames)) as [Hk|]; [|right; exists name|by left].
  { unfold known_name. rewrite !elem_of_app, !elem_of_cons, !elem_of_nil in Hn.
    destruct Hn as [[-> |[-> |[-> |[]]]]|[?|[-> |[-> |[]]]]]; try tauto; right; apply list_elem_of_fmap_2; apply (bool_decide_unpack _); vm_compute; done. }
  assert (meaningfulEvidence (Some v) = true) as Hmv; [|split_and!; try done; by rewrite <- meaningful_member, Hmem].
  destruct Hk as [Ht| ->]; [|rewrite applied_member in Hmem; destruct (OperationApplied e); by simplify_eq].
  apply list_elem_of_fmap in Ht as ([n t] & -> & Ht). cbn [fst] in *. rewrite (error_member e n t) in Hmem by done. cbv zeta in Hmem.
  destruct (evidenceField_cases e n t He Ht) as [(ev & _ & _ & <- & Hw & Hv)|[_ Hv]]; rewrite Hv in Hmem.
  - pose proof Hw as [_ Hne]. rewrite Hne in Hmem. simplify_eq. by apply evidence_meaningful.
  - by rewrite (evidence_zero n) in Hmem.
Qed.

Lemma evidenceOf_name e name ev : evidenceOf e name = Some ev -> evidenceName ev = name /\ ev ∈ Evidences e.
Proof.
  unfold evidenceOf. destruct (list_find _ _) as [[i x]|] eqn:Hf; [|done]. simpl. intros [= ->].
  apply list_find_Some in Hf as (Hi & Hn & _). split; [done|by eapply list_elem_of_lookup_2].
Qed.

Lemma evidenceOf_has e name : known_name name -> name <> "operation_applied"%string ->
  hasEvidence e name = if evidenceOf e name then true else false.
Proof.
  intros _ Hn. unfold hasEvidence. rewrite (bool_decide_false (name = _)) by done. rewrite orb_false_r. unfold evidenceOf.
  destruct (list_find _ _) as [[i x]|] eqn:Hf; simpl.
  - apply list_find_Some in Hf as (Hi & Hx & _). apply bool_decide_true. apply list_elem_of_fmap. exists x. split; [done|by eapply list_elem_of_lookup_2].
  - apply bool_decide_false. intros Hin. apply list_elem_of_fmap in Hin as (x & -> & Hx).
    apply list_find_None in Hf. rewrite Forall_forall in Hf. by apply (Hf x).
Qed.

(** The fields the validation reads. *)
Lemma errorText_fields e : errorText (errorValue e) "code" = lit (codeText (Code e)) /\
  errorText (errorValue e) "message" = lit (Message e) /\ errorText (errorValue e) "retry" = lit (retryText (Retry e)).
Proof. split_and!; reflexivity. Qed.

Lemma errorText_key e : errorText (errorValue e) "key" = keyEvidence e.
Proof.
  change (errorText (errorValue e) "key") with (match evidenceField (Evidences e) ("key"%string, TString) with GString s => s | _ => [] end).
  unfold keyEvidence, evidenceOf, evidenceField. simpl. destruct (list_find _ _) as [[i ev]|] eqn:Hf; [|done].
  apply list_find_Some in Hf as (_ & Hn & _). simpl. by destruct ev.
Qed.

Lemma errorAssertionIndex_value e : errorAssertionIndex (errorValue e) =
  match evidenceOf e "assertion_index" with Some (EvAssertionIndex i) => Some i | _ => None end.
Proof.
  change (errorAssertionIndex (errorValue e)) with
    (match evidenceField (Evidences e) ("assertion_index"%string, TPtr TInt) with GPtr (Some (GNum i)) => Some i | _ => None end).
  unfold evidenceOf, evidenceField. simpl. destruct (list_find _ _) as [[i ev]|] eqn:Hf; [|done].
  apply list_find_Some in Hf as (_ & Hn & _). simpl. by destruct ev.
Qed.

Lemma errorActions_value e : errorActions (errorValue e) = (fun a => lit (actionText a)) <$> SafeActions e.
Proof.
  change (errorActions (errorValue e)) with
    (default [] (sliceOf stringOfValue (sliceValue (fun a => GString (lit (actionText a))) (SafeActions e)))).
  destruct (SafeActions e) as [|a l]; [done|]. cbn [sliceValue sliceOf].
  assert (forall l, mapM stringOfValue ((fun a => GString (lit (actionText a))) <$> l) = Some ((fun a => lit (actionText a)) <$> l)) as Hm.
  { clear. intros l. induction l as [|a l IH]; [done|]. rewrite !fmap_cons. cbn [mapM]. simpl stringOfValue. cbn [mbind option_bind]. by rewrite IH. }
  by rewrite Hm.
Qed.

Global Instance actionText_inj : Inj (=) (=) (fun a => lit (actionText a)).
Proof. intros x y Hxy%lit_inj. destruct x, y; done. Qed.
Global Instance retryText_inj : Inj (=) (=) (fun r => lit (retryText r)).
Proof. intros x y Hxy%lit_inj. destruct x, y; done. Qed.

Lemma definition_by_text c : exists i r a, errorDefinition c = Some (r, a) /\
  list_find (fun d => lit (codeText d.1.1) = lit (codeText c)) ErrorDefinitions = Some (i, (c, r, a)).
Proof. destruct c; vm_compute; do 3 eexists; split; reflexivity. Qed.

Lemma schema_known c name : name ∈ schema_allowed (errorSchema c) -> known_name name.
Proof.
  assert (Forall (fun c => Forall known_name (schema_allowed (errorSchema c))) ((fun d => d.1.1) <$> ErrorDefinitions)) as Hall.
  { unfold known_name. apply (bool_decide_unpack _). vm_compute. done. }
  rewrite Forall_forall in Hall. assert (c ∈ ((fun d => d.1.1) <$> ErrorDefinitions)) as Hc.
  { destruct c; apply (bool_decide_unpack _); vm_compute; done. }
  specialize (Hall c Hc). rewrite Forall_forall in Hall. apply Hall.
Qed.

Section structured.
Variable e : Error.
Hypothesis e_wire : wire_error e.

Lemma errorSchema_shape c : exists required optional groups, errorSchema c = evidenceSchema required optional groups.
Proof. destruct c; do 3 eexists; reflexivity. Qed.

Lemma required_known name : name ∈ schema_required (errorSchema (Code e)) -> known_name name.
Proof.
  intros Hn. apply (schema_known (Code e)). destruct (errorSchema_shape (Code e)) as (r & o & g & Hs). rewrite Hs in *. simpl in *.
  right. apply elem_of_app. by left.
Qed.

Lemma requiredAny_known group name : group ∈ schema_requiredAny (errorSchema (Code e)) -> name ∈ group -> known_name name.
Proof.
  intros Hg Hn. apply (schema_known (Code e)). destruct (errorSchema_shape (Code e)) as (r & o & g & Hs). rewrite Hs in *. simpl in *.
  right. rewrite !elem_of_app, list_elem_of_join. right. right. by exists group.
Qed.

Lemma evidence_not_base ev : lit (evidenceName ev) ∉ (lit <$> baseNames).
Proof.
  assert (Forall (fun name => name ∉ baseNames) evidenceTypes.*1) as Hall by (apply (bool_decide_unpack _); vm_compute; done).
  rewrite Forall_forall in Hall. intros Hb. apply list_elem_of_fmap in Hb as (b & Hb%lit_inj & Hin). subst b.
  apply (Hall (evidenceName ev)); [|done]. apply list_elem_of_fmap. by exists (evidenceName ev, evidenceType ev); split; [|apply evidence_known].
Qed.

Lemma evidence_allowed : validateEvidence (schema_allowed (errorSchema (Code e))) (errorMembers e) = None <->
  forallb (fun ev => bool_decide (evidenceName ev ∈ schema_allowed (errorSchema (Code e)))) (Evidences e) = true.
Proof.
  rewrite validateEvidence_None, forallb_forall, Forall_forall. split.
  - intros Hall ev Hin%list_elem_of_In. apply bool_decide_eq_true.
    pose proof (evidence_known ev) as Hk. pose proof (we_evidence _ e_wire) as Hw. rewrite Forall_forall in Hw.
    assert (member (errorMembers e) (evidenceName ev) = Some (json_of (evidenceType ev) (evidenceValue ev))) as Hm.
    { rewrite (error_member _ _ _ e_wire Hk). rewrite evidenceField_found by (done || apply e_wire). cbv zeta. by destruct (Hw ev Hin) as [_ ->]. }
    unfold member in Hm. destruct (list_find _ _) as [[i [key v]]|] eqn:Hf; [|done]. simpl in Hm.
    apply list_find_Some in Hf as (Hi & Hkey & _). simpl in Hkey. subst key.
    destruct (Hall (lit (evidenceName ev), v)) as [Hb|[Ha _]]; [by eapply list_elem_of_lookup_2| |].
    + exfalso. by apply (evidence_not_base ev).
    + cbn [fst] in Ha. apply list_elem_of_fmap in Ha as (b & Hb%lit_inj & Hin'). by subst b.
  - intros Hall m Hm. destruct (errorMembers_cases e m e_wire Hm) as [?|(name & -> & Hk & Hh & Hmv)]; [by left|right; split; [|done]].
    apply list_elem_of_fmap_2. unfold hasEvidence in Hh. apply orb_true_iff in Hh as [Hh|Hh]; go_bool.
    + apply list_elem_of_fmap in Hh as (ev & -> & Hev). specialize (Hall ev). rewrite bool_decide_eq_true in Hall. apply Hall. by apply list_elem_of_In.
    + subst name. destruct (Code e); simpl; by left.
Qed.
Lemma required_found :
  list_find (fun name => meaningfulEvidence (member (errorMembers e) name) = false) (schema_required (errorSchema (Code e))) = None <->
  forallb (hasEvidence e) (schema_required (errorSchema (Code e))) = true.
Proof.
  rewrite list_find_None, forallb_forall, Forall_forall. split; intros Hall name Hin.
  - apply list_elem_of_In in Hin. specialize (Hall name Hin). rewrite (meaningful_member _ _ e_wire (required_known name Hin)) in Hall.
    by destruct (hasEvidence e name).
  - rewrite (meaningful_member _ _ e_wire (required_known name Hin)). rewrite Hall by (by apply list_elem_of_In). done.
Qed.

Lemma groups_found :
  forallb (existsb (fun name => meaningfulEvidence (member (errorMembers e) name))) (schema_requiredAny (errorSchema (Code e))) =
  forallb (existsb (hasEvidence e)) (schema_requiredAny (errorSchema (Code e))).
Proof.
  pose proof requiredAny_known as Hk. induction (schema_requiredAny (errorSchema (Code e))) as [|group groups IH]; [done|].
  simpl. f_equal; [|apply IH; intros g n Hg; apply (Hk g n); by right].
  assert (Forall known_name group) as Hg by (apply Forall_forall; intros n Hn; by apply (Hk group n); [left|]).
  clear -e_wire Hg. induction Hg as [|name group Hn _ IH]; [done|]. simpl. by rewrite (meaningful_member _ _ e_wire Hn), IH.
Qed.

(** The texts of an assertion's evidence. *)
Lemma condition_member : rawStringValue (member (errorMembers e) "condition") =
  match evidenceOf e "condition" with Some (EvCondition k) => conditionText k | _ => [] end.
Proof.
  assert (("condition"%string, TString) ∈ evidenceTypes) as Ht by (apply (evidence_known (EvCondition ConditionAny))).
  rewrite (error_member _ _ _ e_wire Ht). cbv zeta.
  unfold evidenceOf, evidenceField. cbn [fst snd]. destruct (list_find _ _) as [[i ev]|] eqn:Hf; [|done].
  apply list_find_Some in Hf as (_ & Hn & _). destruct ev; try done. simpl. case_bool_decide as Hc; [by rewrite Hc|done].
Qed.

Lemma expected_member : member (errorMembers e) "expected_revision" =
  match evidenceOf e "expected_revision" with Some (EvExpectedRevision z) => Some (JNumber (FormatUint z)) | _ => None end.
Proof.
  assert (("expected_revision"%string, TPtr TRevision) ∈ evidenceTypes) as Ht by (apply (evidence_known (EvExpectedRevision 0))).
  rewrite (error_member _ _ _ e_wire Ht). cbv zeta.
  unfold evidenceOf, evidenceField. cbn [fst snd]. destruct (list_find _ _) as [[i ev]|] eqn:Hf; [|done].
  apply list_find_Some in Hf as (_ & Hn & _). by destruct ev.
Qed.

Lemma expected_parse z : evidenceOf e "expected_revision" = Some (EvExpectedRevision z) -> parse_uint64 (FormatUint z) = Some z.
Proof.
  intros [_ Hin]%evidenceOf_name. pose proof (we_evidence _ e_wire) as Hw. rewrite Forall_forall in Hw.
  destruct (Hw _ Hin) as [(_ & _ & Hd & _) _]. change (evidenceType (EvExpectedRevision z)) with (TPtr TRevision) in Hd.
  simpl in Hd. destruct (parse_uint64 (FormatUint z)) as [y|]; [|done]. simpl in Hd. destruct (y <=? max_uint64); [|done]. by simplify_eq/=.
Qed.

Lemma alternatives_found :
  validateAlternativeEvidence (Code e) (errorMembers e) = None <-> alternatives_hold e = true.
Proof.
  pose proof (we_condition _ e_wire) as Hcanon. rewrite Forall_forall in Hcanon. unfold validateAlternativeEvidence, alternatives_hold.
  destruct (Code e) eqn:Hcode; try done; rewrite ?meaningful_member by (done || apply (schema_known (Code e)); rewrite Hcode; apply (bool_decide_unpack _); vm_compute; done).
  - destruct (hasEvidence e "received_operations" && _), (hasEvidence e "received_bytes" && _); done.
  - destruct (hasEvidence e "mutation_index"), (hasEvidence e "assertion_index"); try done.
    cbn [Bool.eqb negb orb xorb andb]. rewrite condition_member, expected_member.
    destruct (evidenceOf e "condition") as [ev|] eqn:Hc; [|done]. apply evidenceOf_name in Hc as [Hname Hin]. specialize (Hcanon _ Hin).
    destruct ev; try done. destruct k; try done; simpl conditionText; vm_compute (conditionOf _);
      (destruct (evidenceOf e "expected_revision") as [x|] eqn:Hx; [|done]); pose proof (evidenceOf_name _ _ _ Hx) as [Hxn _]; destruct x; try done.
    rewrite (expected_parse _ Hx). by destruct (_ =? 0).
  - destruct (hasEvidence e "expected_database_id" && _), (hasEvidence e "expected_revision" && _), (hasEvidence e "expected_manifest_generation" && _); done.
Qed.

(** The bound on an error about an assertion. *)
Lemma diagnostic_checked :
  match errorAssertionIndex (errorValue e) with Some i => i <? 0 | None => false end = false /\
  match errorAssertionIndex (errorValue e) with
  | Some _ => (maxAssertionDiagnosticBytes <=? len (raw_text (json_of ErrorType (errorValue e))))
              || negb (bool_decide (errorText (errorValue e) "key" = boundedAssertionDiagnosticKey (errorText (errorValue e) "key")))
  | None => false
  end = false <-> diagnostic_bounded e.
Proof.
  rewrite errorAssertionIndex_value, errorText_key. unfold diagnostic_bounded.
  destruct (evidenceOf e "assertion_index") as [ev|]; [|tauto]. destruct ev; try tauto.
  rewrite Z.ltb_ge, orb_false_iff, Z.leb_gt, negb_false_iff, bool_decide_eq_true. intuition congruence.
Qed.

Lemma validateStructuredError_None :
  validateStructuredError (errorValue e) (json_of ErrorType (errorValue e)) = None <->
  conforms e /\ schema_holds e = true /\ diagnostic_bounded e.
Proof.
  unfold validateStructuredError. destruct (errorText_fields e) as (-> & -> & ->).
  destruct (we_message _ e_wire) as [Hmsg _]. rewrite bool_decide_false by (intros Hm; apply Hmsg, lit_inj; by rewrite Hm).
  destruct (definition_by_text (Code e)) as (i & r & acts & Hdef & ->). unfold conforms. rewrite Hdef.
  destruct (bool_decide_reflect (lit (retryText r) = lit (retryText (Retry e)))) as [Hr|Hr]; cbn [negb].
  2:{ split; [done|]. intros [[= -> _] _]. done. }
  apply retryText_inj in Hr as ->. rewrite <- diagnostic_checked.
  destruct (match errorAssertionIndex _ with Some i => i <? 0 | None => false end); [split; [done|intuition congruence]|].
  destruct (match errorAssertionIndex _ with Some _ => _ | None => false end); [split; [done|intuition congruence]|].
  rewrite errorActions_value.
  destruct (bool_decide_reflect (((fun a => lit (actionText a)) <$> SafeActions e) = (fun a => lit (actionText a)) <$> acts)) as [Ha|Ha]; cbn [negb].
  2:{ split; [done|]. intros [[= Heq] _]. by rewrite Heq in Ha. }
  apply (inj (fmap _)) in Ha as <-.
  change (objectMembers (json_of ErrorType (errorValue e))) with (Some (errorMembers e)). cbv iota.
  assert (match member (errorMembers e) "operation_applied" with None | Some (JBool true) => false | _ => true end = false) as ->
    by (rewrite applied_member; by destruct (OperationApplied e)).
  unfold schema_holds. rewrite groups_found, !andb_true_iff, <- evidence_allowed, <- required_found, <- alternatives_found.
  destruct (validateEvidence _ _); [intuition congruence|]. destruct (list_find _ (schema_required _)) as [[]|]; [intuition congruence|].
  destruct (forallb _ _); cbn [negb]; intuition congruence.
Qed.
End structured.
