(* ===== verification/ClientErrors.v ===== *)
(** * Errors in the client (gapdb/client_codec.go, gapdb/client.go)

    The client checks an error that arrives on its own, with its own table of
    the evidence of each code.  It accepts exactly the errors that the
    protocol's decoder accepts ([error_checks_agree]). *)

From stdpp Require Import base gmap list strings.
From Stdlib Require Import ZArith Lia.
From S2P Require Import Prelude.
From S2P Require Import Bytes.
From S2P Require Import Errors.
From S2P Require Import ApiTypes.
From S2P Require Import Json.
From S2P Require Import GoTime.
From S2P Require Import GoJson.
From S2P Require Import Frame.
From S2P Require Import Envelope.
From S2P Require Import WireErrors.

Local Open Scope Z_scope.
Local Open Scope go_scope.

(** ** The client's table *)

Definition clientEvidence (required optional : list string) (groups : list (list string)) : errorEvidenceSchema :=
  MkSchema required groups ("operation_applied"%string :: required ++ optional ++ mjoin groups).

Definition clientErrorSchemaFor (code : ErrorCode) : errorEvidenceSchema :=
  match code with
  | CodeInvalidRequest =>
      clientEvidence ["reason"] [] [["field"; "path"]]
  | CodeUnsupportedVersion =>
      clientEvidence ["received_version"; "supported_versions"] [] []
  | CodeFrameTooLarge =>
      clientEvidence ["received_bytes"; "maximum_bytes"] [] []
  | CodeKeyTooLarge | CodeValueTooLarge =>
      clientEvidence ["received_bytes"; "maximum_bytes"] ["field"] []
  | CodeBatchTooLarge =>
      clientEvidence [] ["received_operations"; "maximum_operations"; "received_bytes"; "maximum_bytes"] []
  | CodeDuplicateKey =>
      clientEvidence ["key"] ["mutation_index"] [["mutation_indexes"; "assertion_index"]]
  | CodeExpiryNotFuture =>
      clientEvidence ["supplied_expiry"; "effective_time"] [] []
  | CodeInvalidCursor =>
      clientEvidence ["reason"] [] []
  | CodeNotFound =>
      clientEvidence ["key"; "current_revision"] [] []
  | CodeAlreadyExists =>
      clientEvidence ["key"; "actual_revision"] [] []
  | CodeRevisionMismatch =>
      clientEvidence ["key"; "expected_revision"; "actual_revision"] [] []
  | CodeConditionFailed =>
      clientEvidence ["key"; "condition"] ["expected_revision"] [["mutation_index"; "assertion_index"]; ["actual_state"; "actual_revision"]]
  | CodeScanStale =>
      clientEvidence ["cursor_revision"; "current_revision"] [] []
  | CodeRevisionAhead =>
      clientEvidence ["requested_revision"; "current_revision"] [] []
  | CodeRevisionCompacted =>
      clientEvidence ["requested_revision"; "earliest_available_revision"] [] []
  | CodeWatchLagged =>
      clientEvidence ["last_delivered_revision"; "current_revision"] [] []
  | CodeOwnerExists =>
      clientEvidence ["path"] [] []
  | CodeServerBusy =>
      clientEvidence ["active_clients"; "maximum_clients"; "queue_depth"] [] []
  | CodeServerShuttingDown =>
      clientEvidence ["lifecycle"] [] []
  | CodeDeadlineExceeded =>
      clientEvidence ["operation"; "deadline"] [] []
  | CodeServerUnavailable =>
      clientEvidence ["socket_path"; "connection_reason"] [] []
  | CodePermissionDenied =>
      clientEvidence ["path"; "operation"] [] []
  | CodeStorageDegraded =>
      clientEvidence ["failed_stage"; "current_revision"; "durable_through_revision"] [] []
  | CodeCorruptIdentity =>
      clientEvidence ["file"] ["expected_database_id"] [["offset"; "reason"]]
  | CodeCorruptManifest =>
      clientEvidence ["file"; "reason"] [] []
  | CodeCorruptSnapshot =>
      clientEvidence ["file"; "offset"; "reason"] [] []
  | CodeCorruptWAL =>
      clientEvidence ["file"; "offset"; "reason"] ["actual_revision"] []
  | CodeUnknownFormat =>
      clientEvidence ["file"; "received_version"; "supported_versions"] [] []
  | CodeDatabaseIDMismatch =>
      clientEvidence ["expected_database_id"; "actual_database_id"] [] [["file"; "operation"]]
  | CodeRevisionRangeExhausted =>
      clientEvidence ["reserved_revision_end"; "reason"] [] []
  | CodeIOError =>
      clientEvidence ["operation"; "path"; "os_error_category"] [] []
  | CodeAdminPreconditionFailed =>
      clientEvidence [] ["expected_database_id"; "actual_database_id"; "expected_revision"; "actual_revision"; "expected_manifest_generation"; "actual_manifest_generation"] []
  | CodeSnapshotInProgress =>
      clientEvidence ["operation_id"; "started_at"] [] []
  | CodeCompactionNotSafe =>
      clientEvidence ["through_revision"; "active_snapshot_revision"] [] []
  | CodeBackupDestinationExists =>
      clientEvidence ["destination"] [] []
  | CodeBackupInvalid =>
      clientEvidence ["backup_path"] [] [["file"; "reason"]]
  | CodeRecoveryRequired =>
      clientEvidence ["detected_corruption"; "proposal_available"] [] []
  | CodeRecoveryActionMismatch =>
      clientEvidence ["expected_database_id"; "actual_database_id"; "expected_manifest_generation"; "actual_manifest_generation"; "proposal_id"] [] []
  | CodeAuditFailedAfterApply =>
      clientEvidence ["operation"; "reason"; "current_revision"; "operation_applied"] [] []
  | CodeInternal =>
      clientEvidence ["correlation_id"] ["lifecycle"; "reason"] []
  end%string.

(** ** The checks *)

(** [validateRemoteError], with the code that was found. *)
Definition validateRemoteError (g : gval) : result goerror ErrorCode :=
  reject bool_decide (errorText g "message" = []) with ErrText "remote error is incomplete" ;;
  match list_find (fun d => lit (codeText d.1.1) = errorText g "code") ErrorDefinitions with
  | None => Err (ErrText "remote error code is unknown")
  | Some (_, (code, retry, actions)) =>
      reject negb (bool_decide (lit (retryText retry) = errorText g "retry"))
             || negb (bool_decide (length actions = length (errorActions g)))
        with ErrText "remote error classification does not match its code" ;;
      reject negb (bool_decide ((fun a => lit (actionText a)) <$> actions = errorActions g))
        with ErrText "remote error actions do not match its code" ;;
      Ok code
  end.

Definition clientMeaningfulEvidence (v : option jvalue) : bool :=
  match v with
  | None | Some JNull => false
  | Some (JString s _) => negb (bool_decide (s = []))
  | Some (JArray l _) => negb (bool_decide (l = []))
  | Some _ => true
  end.

Definition evidenceInvalid (name : string) : goerror :=
  ErrText (String.append "remote error evidence is invalid: " name).

(** The loop over the members, in the order of the text. *)
Fixpoint clientEvidenceLoop (allowed : list string) (ms : list (bytes * jvalue)) : error :=
  match ms with
  | [] => None
  | (name, v) :: ms =>
      if bool_decide (name ∈ (lit <$> baseNames)) then clientEvidenceLoop allowed ms
      else if negb (bool_decide (name ∈ (lit <$> allowed))) || negb (clientMeaningfulEvidence (Some v))
      then Some (evidenceInvalid (String.string_of_list_byte name))
      else clientEvidenceLoop allowed ms
  end.

Definition errorRevision (g : gval) : option Z :=
  match getField errorFields g "expected_revision" with Some (GPtr (Some (GNum r))) => Some r | _ => None end.

(** The rules of single codes. *)
Definition clientAlternatives (code : ErrorCode) (g : gval) (ms : list (bytes * jvalue)) : error :=
  let has name := clientMeaningfulEvidence (member ms name) in
  let pair left right := has left && has right in
  let present name := if member ms name then true else false in
  match code with
  | CodeBatchTooLarge =>
      if negb (pair "received_operations" "maximum_operations") && negb (pair "received_bytes" "maximum_bytes")
      then Some (ErrText "batch evidence requires a complete pair") else None
  | CodeAdminPreconditionFailed =>
      if negb (pair "expected_database_id" "actual_database_id") && negb (pair "expected_revision" "actual_revision")
         && negb (pair "expected_manifest_generation" "actual_manifest_generation")
      then Some (ErrText "admin evidence requires a complete pair") else None
  | CodeConditionFailed =>
      if Bool.eqb (present "mutation_index"%string) (present "assertion_index"%string)
      then Some (ErrText "condition evidence must identify exactly one mutation or assertion")
      else if negb (present "assertion_index"%string) then None
      else match conditionOf (errorText g "condition") with
      | ConditionAbsent =>
          if present "expected_revision"%string
          then Some (ErrText "expected_revision is invalid for an absent assertion") else None
      | ConditionRevision =>
          match errorRevision g with
          | Some z => if z =? 0 then Some (ErrText "expected_revision must be positive for a revision assertion") else None
          | None => Some (ErrText "expected_revision must be positive for a revision assertion")
          end
      | _ => Some (ErrText "assertion condition must be absent or revision")
      end
  | _ => None
  end.

Definition clientAssertionDiagnosticBytes : Z := Z.shiftl 4 10.

Definition validateRemoteErrorRaw (g : gval) (v : jvalue) : error :=
  match validateRemoteError g with
  | Err e => Some e
  | Ok code =>
      if match errorAssertionIndex g with Some i => i <? 0 | None => false end
      then Some (ErrText "remote assertion index is invalid")
      else if match errorAssertionIndex g with
              | Some _ => (clientAssertionDiagnosticBytes <=? len (raw_text v))
                          || negb (bool_decide (errorText g "key" = diagnosticKey (errorText g "key")))
              | None => false
              end
      then Some (ErrText "remote assertion diagnostic exceeds its safe bound")
      else match objectMembers v with
      | None => Some (ErrText jsonReason)
      | Some ms =>
          let schema := clientErrorSchemaFor code in
          try clientEvidenceLoop (schema_allowed schema) ms ;;
          match list_find (fun name => clientMeaningfulEvidence (member ms name) = false) (schema_required schema) with
          | Some (_, name) => Some (ErrText (String.append "remote error evidence is required: " name))
          | None =>
              if negb (forallb (existsb (fun name => clientMeaningfulEvidence (member ms name))) (schema_requiredAny schema))
              then Some (ErrText "remote error is missing required alternative evidence")
              else if match member ms "operation_applied" with None | Some (JBool true) => false | _ => true end
              then Some (ErrText "operation_applied must be true when present")
              else clientAlternatives code g ms
          end
      end
  end.

(** ** Both tables are the same *)

Lemma schemas_agree code :
  schema_required (clientErrorSchemaFor code) = schema_required (errorSchema code) /\
  schema_requiredAny (clientErrorSchemaFor code) = schema_requiredAny (errorSchema code) /\
  Forall (fun name => name ∈ schema_allowed (errorSchema code)) (schema_allowed (clientErrorSchemaFor code)) /\
  Forall (fun name => name ∈ schema_allowed (clientErrorSchemaFor code)) (schema_allowed (errorSchema code)).
Proof. destruct code; apply (bool_decide_unpack _); vm_compute; done. Qed.

Lemma allowed_fields code : Forall (fun name => lit name ∈ field_names errorFields) (schema_allowed (errorSchema code)).
Proof. destruct code; apply (bool_decide_unpack _); vm_compute; done. Qed.

Lemma evidence_loops code ms :
  clientEvidenceLoop (schema_allowed (clientErrorSchemaFor code)) ms = None <->
  validateEvidence (schema_allowed (errorSchema code)) ms = None.
Proof.
  destruct (schemas_agree code) as (_ & _ & Hc & Hs). rewrite Forall_forall in Hc, Hs.
  induction ms as [|[name v] ms IH]; [done|]. cbn [clientEvidenceLoop validateEvidence].
  destruct (bool_decide (name ∈ (lit <$> baseNames))); [done|].
  assert (bool_decide (name ∈ (lit <$> schema_allowed (clientErrorSchemaFor code))) =
    bool_decide (name ∈ (lit <$> schema_allowed (errorSchema code)))) as ->.
  { apply bool_decide_ext. rewrite !list_elem_of_fmap. split; intros (x & -> & Hx); exists x; auto. }
  change (clientMeaningfulEvidence (Some v)) with (meaningfulEvidence (Some v)).
  destruct (bool_decide _); [|done]. destruct (meaningfulEvidence (Some v)); done.
Qed.

(** ** Fields of a decoded struct *)

(** A member with the exact name of a field is stored there, once. *)
Lemma store_exact names decoders ms vals vals' : NoDup names -> NoDup ms.*1 -> Forall (fun m => m.1 ∈ names) ms ->
  store_members names decoders ms vals = Some vals' -> forall i name, names !! i = Some name ->
  match list_find (fun m => m.1 = name) ms with
  | Some (_, (_, v)) => exists decode old, decoders !! i = Some decode /\ vals !! i = Some old /\ vals' !! i = decode v old
  | None => vals' !! i = vals !! i
  end.
Proof.
  intros Hnd. revert vals. induction ms as [|[key v] ms IH]; intros vals Hms Hin; [by intros [= <-]|].
  rewrite fmap_cons in Hms. apply NoDup_cons in Hms as [Hkey Hms]. apply Forall_cons in Hin as [Hk Hin]. cbn [fst] in *.
  cbn [store_members]. apply list_elem_of_lookup in Hk as [j Hj]. rewrite (find_field_exact names j key) by done. cbn [mbind option_bind].
  destruct (decoders !! j) as [decode|] eqn:Hdec; [|done]. destruct (vals !! j) as [old|] eqn:Hold; [|done]. cbn [mbind option_bind].
  destruct (decode v old) as [x|] eqn:Hx; [|done]. cbn [mbind option_bind]. intros Hst i name Hi.
  specialize (IH _ Hms Hin Hst i name Hi). cbn [list_find fst]. destruct (decide (key = name)) as [->|Hne].
  - assert (i = j) as -> by (eapply (NoDup_lookup names); eauto).
    assert (list_find (fun m : bytes * jvalue => m.1 = name) ms = None) as Hnone.
    { apply list_find_None. apply Forall_forall. intros m Hm Heq. apply Hkey. rewrite <- Heq. by apply list_elem_of_fmap_2. }
    rewrite Hnone in IH. exists decode, old. split_and!; try done. rewrite IH, list_lookup_insert_eq, Hx; [done|]. by eapply lookup_lt_Some.
  - assert (i <> j) as Hij by (intros ->; congruence). rewrite list_lookup_insert_ne in IH by done.
    destruct (list_find _ ms) as [[? [? ?]]|]; done.
Qed.

Section agree.
Variables (g : gval) (v : jvalue).
Hypothesis decoded : go_decode ErrorType v (zero_value ErrorType) = Some g.
Hypothesis no_duplicates : duplicateFree v = true.
Variables (code : ErrorCode) (ms : list (bytes * jvalue)).
Hypothesis members : objectMembers v = Some ms.
Hypothesis evidence_allowed : validateEvidence (schema_allowed (errorSchema code)) ms = None.

Lemma exact_names : Forall (fun m => m.1 ∈ field_names errorFields) ms.
Proof.
  clear decoded members no_duplicates. induction ms as [|[name x] l IH]; [done|]. cbn [validateEvidence] in evidence_allowed.
  case_bool_decide as Hb.
  - constructor; [|by apply IH]. cbn [fst]. apply list_elem_of_fmap in Hb as (n & -> & Hn).
    assert (Forall (fun n => lit n ∈ field_names errorFields) baseNames) as Hall by (apply (bool_decide_unpack _); vm_compute; done).
    rewrite Forall_forall in Hall. by apply Hall.
  - destruct (negb (bool_decide _)) eqn:Ha; [done|]. destruct (negb _) in evidence_allowed; [done|]. constructor; [|by apply IH].
    go_bool. cbn [fst]. apply list_elem_of_fmap in Ha as (n & -> & Hn). pose proof (allowed_fields code) as Hall.
    rewrite Forall_forall in Hall. by apply Hall.
Qed.

(** What a field of the error holds, by the member of its name. *)
Lemma error_field_member i name t omit : errorFields !! i = Some (lit name, t, omit) ->
  getField errorFields g name = match member ms name with Some x => go_decode t x (zero_value t) | None => Some (zero_value t) end.
Proof.
  intros Hi. pose proof exact_names as Hexact. assert (fieldIndex errorFields name = Some i) as Hidx.
  { unfold fieldIndex. destruct (list_find _ _) as [[j f]|] eqn:Hf.
    - apply list_find_Some in Hf as (Hj & Hn & _). simpl. f_equal. destruct errorFields_ok as [Hnd _].
      eapply (NoDup_lookup (field_names errorFields)); [done|..]; unfold field_names; rewrite list_lookup_fmap; [by rewrite Hj; simpl; rewrite Hn|by rewrite Hi].
    - apply list_find_None in Hf. rewrite Forall_forall in Hf. by destruct (Hf _ (list_elem_of_lookup_2 _ _ _ Hi)). }
  assert (Hzero : field_zeros errorFields !! i = Some (zero_value t)) by (unfold field_zeros; by rewrite list_lookup_fmap, Hi).
  unfold getField. destruct v as [| | | | |l raw]; try done; cbn [objectMembers] in members; injection members as <-.
  { cbn [go_decode ErrorType] in decoded. injection decoded as <-. change (zero_value ErrorType) with (GStruct (field_zeros errorFields)) in *.
    by rewrite Hidx. }
  change (zero_value ErrorType) with (GStruct (field_zeros errorFields)) in *. cbn [go_decode ErrorType] in decoded.
  destruct (store_members _ _ _ _) as [vals|] eqn:Hst; [|done]. injection decoded as <-. rewrite Hidx. cbn [mbind option_bind].
  destruct errorFields_ok as [Hnd _]. cbn [duplicateFree] in no_duplicates. go_bool.
  pose proof (store_exact _ _ _ _ _ Hnd ltac:(done) Hexact Hst i (lit name)) as Hex.
  unfold member. specialize (Hex ltac:(unfold field_names; by rewrite list_lookup_fmap, Hi)).
  destruct (list_find _ l) as [[? [? x]]|]; cbn [fmap option_fmap option_map compose snd].
  - destruct Hex as (decode & old & Hd & Ho & ->). rewrite list_lookup_fmap, Hi in Hd. injection Hd as <-.
    rewrite Hzero in Ho. by injection Ho as <-.
  - by rewrite Hex.
Qed.

(** Evidence that is present is meaningful. *)
Lemma present_meaningful name : name ∉ baseNames -> meaningfulEvidence (member ms name) = if member ms name then true else false.
Proof.
  clear decoded members no_duplicates. intros Hn. induction ms as [|[key x] l IH]; [done|]. rewrite member_cons. cbn [validateEvidence] in evidence_allowed.
  case_bool_decide as Hb.
  - rewrite bool_decide_false; [by apply IH|]. intros ->. apply Hn. apply list_elem_of_fmap in Hb as (n & Hl & Hin). by apply lit_inj in Hl as ->.
  - destruct (negb (bool_decide _)); [done|]. destruct (meaningfulEvidence (Some x)) eqn:Hm; [|done]. cbn [negb] in evidence_allowed.
    case_bool_decide; [done|]. by apply IH.
Qed.

Lemma condition_field : errorText g "condition" = rawStringValue (member ms "condition").
Proof.
  unfold errorText. rewrite (error_field_member 38 "condition" TString true) by done.
  by destruct (member ms "condition") as [[]|].
Qed.

Lemma revision_field : errorRevision g =
  match member ms "expected_revision" with Some (JNumber n) => parse_uint64 n | _ => None end.
Proof.
  unfold errorRevision. rewrite (error_field_member 10 "expected_revision" (TPtr TRevision) true) by done.
  destruct (member ms "expected_revision") as [[]|]; try done. cbn [go_decode TRevision].
  destruct (parse_uint64 literal) as [z|] eqn:Hz; [|done]. cbn [mbind option_bind].
  assert (z <= max_uint64) by (unfold parse_uint64 in Hz; destruct (_ || _ || _) eqn:Hb; [done|]; injection Hz as <-; lia).
  by replace (z <=? max_uint64) with true by lia.
Qed.

Lemma alternatives_agree : clientAlternatives code g ms = None <-> validateAlternativeEvidence code ms = None.
Proof.
  unfold clientAlternatives, validateAlternativeEvidence. rewrite condition_field, revision_field.
  change clientMeaningfulEvidence with meaningfulEvidence. pose proof present_meaningful as Hp. cbv zeta beta. destruct code; try done.
  - by destruct (negb _ && _).
  - rewrite !Hp by (apply (bool_decide_unpack _); vm_compute; done).
    destruct (Bool.eqb _ _); [done|]. destruct (negb _); [done|]. destruct (conditionOf _); try done.
    + by destruct (member ms "expected_revision").
    + destruct (member ms "expected_revision") as [[]|]; try done. by destruct (parse_uint64 _) as [z|]; [destruct (z =? 0)|].
  - by destruct (negb _ && _ && _).
Qed.
End agree.

Lemma remote_checks g v : go_decode ErrorType v (zero_value ErrorType) = Some g -> duplicateFree v = true ->
  validateRemoteErrorRaw g v = None <-> validateStructuredError g v = None.
Proof.
  intros Hdec Hdup. unfold validateRemoteErrorRaw, validateStructuredError, validateRemoteError.
  case_bool_decide; [done|]. destruct (list_find _ _) as [[i [[code retry] actions]]|]; [|done].
  case_bool_decide; cbn [negb orb]; [|done].
  assert (errorActions g = (fun a => lit (actionText a)) <$> actions <-> (fun a => lit (actionText a)) <$> actions = errorActions g) as Hsym by (split; congruence).
  change (diagnosticKey ?k) with (boundedAssertionDiagnosticKey k). change clientAssertionDiagnosticBytes with maxAssertionDiagnosticBytes.
  destruct (decide ((fun a => lit (actionText a)) <$> actions = errorActions g)) as [Ha|Ha].
  - rewrite (bool_decide_true (length actions = _)) by (rewrite <- Ha; by rewrite length_fmap). rewrite (bool_decide_true _ Ha).
    rewrite (bool_decide_true (errorActions g = _)) by done. cbn [negb mbind result_bind].
    destruct (match errorAssertionIndex g with Some i => i <? 0 | None => false end); [done|].
    destruct (match errorAssertionIndex g with Some _ => _ | None => false end); [done|].
    destruct (objectMembers v) as [ms|] eqn:Hms; [|done]. destruct (schemas_agree code) as (-> & -> & _).
    pose proof (evidence_loops code ms) as Hloop.
    destruct (validateEvidence _ ms) eqn:He; [destruct (clientEvidenceLoop _ ms); [done|by destruct Hloop as [Hl _]; specialize (Hl eq_refl)]|].
    destruct (clientEvidenceLoop _ ms); [by destruct Hloop as [_ Hl]; specialize (Hl eq_refl)|].
    change clientMeaningfulEvidence with meaningfulEvidence. destruct (list_find _ _) as [[? ?]|]; [done|].
    destruct (negb _); [done|]. destruct (match member ms "operation_applied" with Some _ => _ | None => _ end); [done|].
    by apply (alternatives_agree g v).
  - rewrite (bool_decide_false _ Ha), (bool_decide_false (errorActions g = _)) by (by rewrite Hsym). cbn [negb].
    destruct (negb _); simpl; repeat case_match; done.
Qed.

(** C25: the client and the protocol's decoder accept the same errors.  For
    every error object that arrives, without duplicate members and decoded into
    the public struct, the client's checks against its own table of evidence
    pass exactly when those of the server's decoder do. *)
Theorem error_checks_agree g v : go_decode ErrorType v (zero_value ErrorType) = Some g -> duplicateFree v = true ->
  validateRemoteErrorRaw g v = None <-> validateStructuredError g v = None.
Proof. apply remote_checks. Qed.

Module SampleError.
Definition failure : Error :=
  newError CodeNotFound "The key is not present at the current effective time." RetryAfterReconcile
    [EvKey (lit "workflows/1"); EvCurrentRevision 7] [ActionGet; ActionPutIfAbsent; ActionAbort].
End SampleError.

Lemma error_checks_agree_witness :
  validateRemoteErrorRaw (errorValue SampleError.failure) (json_of ErrorType (errorValue SampleError.failure)) = None.
Proof. apply error_checks_agree; vm_compute; reflexivity. Defined.
