(* ===== verification/Responses.v ===== *)
(** * Responses of the protocol (internal/protocol/envelope.go)

    A response is one JSON object.  [EncodeResponse] writes it and
    [DecodeResponse] reads and checks it; the encoder refuses what the decoder
    would not accept. *)

From stdpp Require Import base gmap list strings.
From Stdlib Require Import ZArith Lia.
From S2P Require Import Prelude.
From S2P Require Import Bytes.
From S2P Require Import Errors.
From S2P Require Import ApiTypes.
From S2P Require Import Scan.
From S2P Require Import Base64.
From S2P Require Import Json.
From S2P Require Import GoTime.
From S2P Require Import GoJson.
From S2P Require Import Frame.
From S2P Require Import Envelope.
From S2P Require Import Requests.
From S2P Require Import ReadMany.
From S2P Require Import AdminResults.
From S2P Require Import WireErrors.

Local Open Scope Z_scope.
Local Open Scope go_scope.

(** ** Data *)

(** The results that the server sends or the decoder returns. *)
Inductive Result :=
| GetResult (record : DBRecord)
| ManyResult (r : ReadManyResult)
| MutationRes (r : MutationResult)
| PageResult (p : ScanPage)
| StatusRes (r : StatusResult)
| HealthRes (r : HealthResult)
| StatsRes (r : StatsResult)
| ConfigRes (r : ConfigResult)
| VerifyRes (r : VerifyResult)
| SnapshotRes (r : WireSnapshotResult)
| CompactionRes (r : WireCompactionResult)
| BackupRes (r : BackupResult)
| RawResult (v : jvalue).

Definition StreamStarted : bytes := lit "started".
Definition StreamEvent : bytes := lit "event".
Definition StreamEnded : bytes := lit "ended".

Definition reasonText (r : WatchEndReason) : bytes :=
  match r with
  | WatchEndedByClient => lit "client_closed"
  | WatchEndedByShutdown => lit "server_shutdown"
  | WatchEndedByError => lit "error"
  end.

(** The structured error is kept as the value of its struct; the end reason
    and the kind of the stream are their texts, empty where there is none. *)
Record Response := MkResponse {
  RspSchemaVersion : Z;
  RspOK : bool;
  RspRequestID : bytes;
  RspDatabaseID : bytes;
  RspOperation : Operation;
  RspResult : option Result;
  RspStream : bytes;
  RspRegistrationRevision : Revision;
  RspEvent : option ChangeEvent;
  RspEndReason : bytes;
  RspError : option gval
}.

Definition changeText (k : ChangeKind) : bytes :=
  match k with
  | ChangePut => lit "put" | ChangeDelete => lit "delete" | ChangeExpire => lit "expire" | ChangeUnknown s => lit s
  end.
Definition changeOf (text : bytes) : ChangeKind :=
  if bool_decide (text = lit "put") then ChangePut
  else if bool_decide (text = lit "delete") then ChangeDelete
  else if bool_decide (text = lit "expire") then ChangeExpire
  else ChangeUnknown (String.string_of_list_byte text).

(** *** The structs and their JSON tags *)

Definition MutationResultType : jtype :=
  TStruct [field "revision" TRevision; field "ack" TString; field "durable_through_revision" TRevision;
           omitempty "mutation_count" TInt; omitempty "assertion_count" TInt].
Definition ScanPageType : jtype :=
  TStruct [field "observed_revision" TRevision; field "as_of" TTime; field "records" (TList RecordType);
           omitempty "cursor" TString; field "truncated" TBool].
Definition GetResultType : jtype := TStruct [field "record" RecordType].
Definition ChangeEventType : jtype :=
  TStruct [field "revision" TRevision; field "order" (TUint max_uint32); field "kind" TString; field "key" TString;
           omitempty "record" (TPtr RecordType)].

(** Those of the decoder. *)
Definition wireRecord : jtype :=
  TRequired [lit "key"; lit "value_base64"; lit "revision"]
    (TStruct [field "key" TString; field "value_base64" TBase64; field "revision" TRevision;
              omitempty "expires_at" (TPtr TInstant)]).
Definition wireGet : jtype := TStruct [field "record" wireRecord].
Definition wireEntry : jtype :=
  TStruct [field "key" TString; field "found" (TPtr TBool); omitempty "record" (TPtr wireRecord)].
Definition wireMany : jtype :=
  TStruct [field "observed_revision" TRevision; field "as_of" TInstant; field "entries" (TList wireEntry)].
Definition wirePage : jtype :=
  TStruct [field "observed_revision" TRevision; field "as_of" TInstant; field "records" (TList wireRecord);
           omitempty "cursor" TString; field "truncated" TBool].
Definition wireEvent : jtype :=
  TStruct [field "revision" TRevision; field "order" (TUint max_uint32); field "kind" TString; field "key" TString;
           omitempty "record" (TPtr wireRecord)].

Definition mutationResultValue (r : MutationResult) : gval :=
  GStruct [GNum (ResRevision r); GString (ackText (ResAck r)); GNum (ResDurableThrough r); GNum (ResMutationCount r);
           GNum (ResAssertionCount r)].
(** [ScanPage.Clone] makes the slice of records. *)
Definition pageValue (p : ScanPage) : gval :=
  GStruct [GNum (PageObserved p); GTime (PageAsOf p); GList (Some (recordValue <$> PageRecords p));
           GString (PageCursor p); GBool (PageTruncated p)].
Definition eventValue (e : ChangeEvent) : gval :=
  GStruct [GNum (EvtRevision e); GNum (EvtOrder e); GString (changeText (EvtKind e)); GString (EvtKey e);
           GPtr (recordValue <$> EvtRecord e)].

(** What [Marshal] writes for a raw message: its text without space and with
    the characters of HTML escaped. *)
Fixpoint compact (quoted escaped : bool) (s : bytes) : bytes :=
  match s with
  | [] => []
  | c :: rest =>
      if negb quoted && bool_decide (b2z c ∈ [9; 10; 13; 32]) then compact quoted escaped rest
      else if bool_decide (b2z c = 38) then lit "\u0026" ++ compact quoted false rest
      else if bool_decide (b2z c = 60) then lit "\u003c" ++ compact quoted false rest
      else if bool_decide (b2z c = 62) then lit "\u003e" ++ compact quoted false rest
      else match rest with
      | c1 :: c2 :: rest' =>
          if bool_decide (b2z c = 226 /\ b2z c1 = 128 /\ b2z c2 = 168) then lit "\u2028" ++ compact quoted false rest'
          else if bool_decide (b2z c = 226 /\ b2z c1 = 128 /\ b2z c2 = 169) then lit "\u2029" ++ compact quoted false rest'
          else c :: compact (if bool_decide (b2z c = 34) && negb escaped then negb quoted else quoted)
                      (bool_decide (b2z c = 92) && negb escaped) rest
      | _ => c :: compact (if bool_decide (b2z c = 34) && negb escaped then negb quoted else quoted)
                    (bool_decide (b2z c = 92) && negb escaped) rest
      end
  end.

(** The struct that [normalizeResult] returns for a result. *)
Definition resultType (r : Result) : jtype :=
  match r with
  | GetResult _ => GetResultType
  | ManyResult _ => ReadManyResultType
  | MutationRes _ => MutationResultType
  | PageResult _ => ScanPageType
  | StatusRes _ => StatusResultType
  | HealthRes _ => HealthResultType
  | StatsRes _ => StatsResultType
  | ConfigRes _ => ConfigResultType
  | VerifyRes _ => VerifyResultType
  | SnapshotRes _ => WireSnapshotResultType
  | CompactionRes _ => WireCompactionResultType
  | BackupRes _ => BackupResultType
  | RawResult _ => TRaw
  end.
Definition normalizeResult (r : Result) : gval :=
  match r with
  | GetResult record => GStruct [recordValue record]
  | ManyResult r => readManyValue r
  | MutationRes r => mutationResultValue r
  | PageResult p => pageValue p
  | StatusRes r => statusResultValue r
  | HealthRes r => healthResultValue r
  | StatsRes r => statsResultValue r
  | ConfigRes r => configResultValue r
  | VerifyRes r => verifyResultValue r
  | SnapshotRes r => wireSnapshotResultValue r
  | CompactionRes r => wireCompactionResultValue r
  | BackupRes r => backupResultValue r
  | RawResult v => GRaw (Some (JNumber (compact false false (raw_text v))))
  end.

(** ** Decoding *)

Definition recordOf (g : gval) : option DBRecord :=
  match g with
  | GStruct [GString key; GBytes value; GNum revision; expiresAt] =>
      t ← timeOf expiresAt; Some (MkRecord key (default [] value) revision t)
  | _ => None
  end.
Definition pointerOf {A} (f : gval -> option A) (g : gval) : option (option A) :=
  match g with GPtr None => Some None | GPtr (Some x) => Some <$> f x | _ => None end.

(** [limits] with the hard bounds on keys and values. *)
Definition recordLimits : Limits :=
  let l := DefaultOptions in
  MkLimits (MaxKeyBytes HardLimits) (MaxValueBytes HardLimits) (MaxFrameBytes l) (MaxBatchBytes l) (MaxBatchOperations l)
    (MaxScanRecords l) (MaxScanBytes l) (WatchBufferEvents l) (MaxWatchClients l) (MaxConcurrentClients l)
    (MaxHistoryEvents l) (MaxHistoryBytes l).

(** [wireRecord.public]. *)
Definition public (r : DBRecord) : result goerror DBRecord :=
  check Mutation_Validate recordLimits (MkMutation MutationPut (RecKey r) anyCondition (Some (RecValue r)) (RecExpiresAt r)) ;;
  reject RecRevision r =? 0 with invalidProtocol "record.revision" "must be greater than zero" None ;;
  Ok r.

(** [decodeStrict] into a struct. *)
Definition decodeInto {A} (name : string) (t : jtype) (of_value : gval -> option A) (v : jvalue) : result goerror A :=
  match go_decode t v (zero_value t) ≫= of_value with
  | None => Err (invalidProtocol name jsonReason (Some (ErrText jsonReason)))
  | Some x => Ok x
  end.

(** *** Fields that must be present *)

Definition requiredFields (o : Operation) : list string :=
  match o with
  | OperationGet => ["record"]
  | OperationGetMany => ["observed_revision"; "as_of"; "entries"]
  | OperationPut | OperationPutIfAbsent | OperationCompareAndSwap | OperationDeleteIfRevision =>
      ["revision"; "ack"; "durable_through_revision"]
  | OperationAtomicBatch => ["revision"; "ack"; "durable_through_revision"; "mutation_count"]
  | OperationScanPrefix => ["observed_revision"; "as_of"; "records"; "truncated"]
  | OperationStatus =>
      ["lifecycle"; "database_id"; "current_revision"; "durable_through_revision"; "reserved_revision_end";
       "snapshot_revision"; "active_wal_start"; "earliest_watch_revision"; "record_count"; "watch_count";
       "queue_depth"; "active_clients"; "limits"; "owner_pid"; "owner_started_at"; "snapshot_in_progress";
       "backup_in_progress"]
  | OperationHealth => ["lifecycle"; "healthy"; "failing_subsystems"; "safe_actions"]
  | OperationStats =>
      ["schema_version"; "live_records"; "expired_records"; "approximate_value_bytes"; "commits";
       "condition_failures"; "wal_bytes"; "sync_count"; "sync_errors"; "watchers"; "lagged_watches"; "clients";
       "queue_depth"; "snapshot_duration_nanos"; "recovery_duration_nanos"]
  | OperationDescribeConfig => ["effective"; "source"; "safe_ceilings"; "restart_required"]
  | OperationVerify =>
      ["mode"; "verified"; "database_id"; "manifest_generation"; "current_revision"; "snapshot_revision";
       "active_wal_start"; "checked_files"]
  | OperationCreateSnapshot => ["revision"; "filename"; "checksum"; "new_wal_start"; "duration"]
  | OperationCompact =>
      ["before_revision"; "after_revision"; "removed"; "removed_count"; "skipped_count"; "paths_truncated";
       "directory_synced"]
  | OperationBackup => ["database_id"; "revision"; "manifest_checksum"; "files"; "byte_count"; "verified"]
  | _ => []
  end%string.

Definition resultField (name : string) : string := String.append "result." name.

Definition requireResultFields (o : Operation) (v : jvalue) : error :=
  match requiredFields o with
  | [] => None
  | required =>
      match objectMembers v with
      | None => Some (invalidProtocol "result" "must be an object" (Some (ErrText jsonReason)))
      | Some ms =>
          match list_find (fun name => member ms name = None) required with
          | Some (_, name) => Some (invalidProtocol (resultField name) "is required" None)
          | None => None
          end
      end
  end.

(** *** Batched reads *)

Definition wireEntryOf (g : gval) : option (bytes * option bool * option DBRecord) :=
  match g with
  | GStruct [GString key; GPtr found; record] =>
      found ← match found with None => Some None | Some (GBool b) => Some (Some b) | _ => None end;
      record ← pointerOf recordOf record;
      Some (key, found, record)
  | _ => None
  end.
Definition wireManyOf (g : gval) : option (Revision * Time * list (bytes * option bool * option DBRecord)) :=
  match g with
  | GStruct [GNum observed; GTime asOf; entries] => l ← sliceOf wireEntryOf entries; Some (observed, asOf, l)
  | _ => None
  end.

Fixpoint publicEntries (seen : list bytes) (entries : list (bytes * option bool * option DBRecord)) :
    result goerror (list ReadManyEntry) :=
  match entries with
  | [] => Ok []
  | (key, found, record) :: entries =>
      match found with
      | Some found =>
          reject bool_decide (key = []) || negb (Bool.eqb found (if record then true else false))
            with invalidProtocol "result.entries" "must contain a key, found flag, and matching record presence" None ;;
          reject bool_decide (key ∈ seen) with invalidProtocol "result.entries" "must contain unique keys" None ;;
          match record with
          | None => rest ← publicEntries (key :: seen) entries; Ok (MkReadManyEntry key found None :: rest)
          | Some record =>
              match public record with
              | Err e => Err (invalidProtocol "result.entries.record" "must be canonical and match the entry key" (Some e))
              | Ok record =>
                  reject negb (bool_decide (RecKey record = key))
                    with invalidProtocol "result.entries.record" "must be canonical and match the entry key" None ;;
                  rest ← publicEntries (key :: seen) entries; Ok (MkReadManyEntry key found (Some record) :: rest)
              end
          end
      | None =>
          Err (invalidProtocol "result.entries" "must contain a key, found flag, and matching record presence" None)
      end
  end.

Definition manyLimits (maximum : Z) : Limits :=
  let l := DefaultOptions in
  MkLimits (MaxKeyBytes HardLimits) (MaxValueBytes l) maximum (MaxBatchBytes l) (MaxBatchOperations HardLimits)
    (MaxScanRecords l) maximum (WatchBufferEvents l) (MaxWatchClients l) (MaxConcurrentClients l)
    (MaxHistoryEvents l) (MaxHistoryBytes l).

Definition reasonOf (e : goerror) : string := match e with ErrText s => s | _ => jsonReason end.

Definition decodeMany (v : jvalue) (maximum : Z) : result goerror Result :=
  '(observed, asOf, wire) ← decodeInto "result" wireMany wireManyOf v;
  reject bool_decide (wire = []) with invalidProtocol "result" "must contain entries" None ;;
  entries ← publicEntries [] wire;
  let result := MkReadManyResult observed asOf entries in
  match ValidateReadManyResult result (manyLimits maximum) with
  | Some e => Err (invalidProtocol "result" (reasonOf e) (Some e))
  | None => Ok (ManyResult result)
  end.

(** *** Pages *)

Definition pageOf (g : gval) : option ScanPage :=
  match g with
  | GStruct [GNum observed; GTime asOf; records; GString cursor; GBool truncated] =>
      l ← sliceOf recordOf records; Some (MkScanPage observed asOf l cursor truncated)
  | _ => None
  end.

Fixpoint publicRecords (previous : option bytes) (records : list DBRecord) : result goerror (list DBRecord) :=
  match records with
  | [] => Ok []
  | record :: records =>
      record ← public record;
      reject match previous with Some key => bytes_leb (RecKey record) key | None => false end
        with invalidProtocol "result.records" "must be strictly key-sorted" None ;;
      rest ← publicRecords (Some (RecKey record)) records;
      Ok (record :: rest)
  end.

Definition decodePage (v : jvalue) : result goerror Result :=
  wire ← decodeInto "result" wirePage pageOf v;
  records ← publicRecords None (PageRecords wire);
  reject negb (Bool.eqb (PageTruncated wire) (negb (bool_decide (PageCursor wire = []))))
    with invalidProtocol "result.cursor" "must be present exactly when truncated is true" None ;;
  Ok (PageResult (MkScanPage (PageObserved wire) (PageAsOf wire) records (PageCursor wire) (PageTruncated wire))).

(** *** Results without further structure *)

Definition mutationResultOf (g : gval) : option MutationResult :=
  match g with
  | GStruct [GNum revision; GString ack; GNum durable; GNum mutations; GNum assertions] =>
      Some (MkMutationResult revision (ackOf ack) durable mutations assertions)
  | _ => None
  end.

Definition checkMutation (r : MutationResult) : error :=
  if (ResRevision r =? 0) || negb (AckMode_Valid (ResAck r)) || (ResRevision r <? ResDurableThrough r)
     || (ResMutationCount r <? 0) || (ResAssertionCount r <? 0)
  then Some (invalidProtocol "result" "contains an invalid mutation acknowledgement" None)
  else if bool_decide (ackText (ResAck r) = ackText AckDurable) && (ResDurableThrough r <? ResRevision r)
  then Some (invalidProtocol "result.durable_through_revision" "must cover a durable acknowledgement" None)
  else None.

Definition limitsInvalid (l : Limits) : bool := if Options_Validate l then true else false.

Definition checkStatus (r : StatusResult) : error :=
  if bool_decide (StatDatabaseID r = []) || (StatOwnerPID r <=? 0) || bool_decide (StatOwnerStartedAt r = [])
     || limitsInvalid (StatLimits r)
  then Some (invalidProtocol "result" "contains invalid status evidence" None) else None.

Definition checkHealth (r : HealthResult) : error :=
  if bool_decide (HealthFailingSubsystems r = None) || bool_decide (HealthSafeActions r = None)
  then Some (invalidProtocol "result" "contains invalid health evidence" None) else None.

Definition checkStats (r : StatsResult) : error :=
  if negb (StatsSchemaVersion r =? 1) || (StatsLiveRecords r <? 0) || (StatsWatchers r <? 0) || (StatsClients r <? 0)
     || (StatsQueueDepth r <? 0)
  then Some (invalidProtocol "result" "contains invalid statistics" None) else None.

Definition checkConfig (r : ConfigResult) : error :=
  if negb (bool_decide (CrSource r ∈ [lit "default"; lit "file"; lit "flag"])) || limitsInvalid (CvLimits (CrEffective r))
     || negb (MaxFrameBytes (CrSafeCeilings r) =? MaxFrameBytes HardLimits)
  then Some (invalidProtocol "result" "contains invalid effective configuration" None) else None.

Definition checkVerify (r : VerifyResult) : error :=
  if negb (bool_decide (VerMode r ∈ [lit "sampled"; lit "full"])) || negb (VerVerified r)
     || bool_decide (VerDatabaseID r = []) || (VerManifestGeneration r =? 0) || bool_decide (VerCheckedFiles r = None)
  then Some (invalidProtocol "result" "contains invalid verification evidence" None) else None.

Definition checkSnapshot (r : WireSnapshotResult) : error :=
  if bool_decide (WsnFilename r = []) || bool_decide (WsnChecksum r = []) || (WsnRevision r =? max_uint64)
     || negb (WsnNewWALStart r =? WsnRevision r + 1) || (WsnDuration r <? 0)
  then Some (invalidProtocol "result" "contains invalid snapshot evidence" None) else None.

Definition checkCompaction (r : WireCompactionResult) : error :=
  if bool_decide (WcoRemoved r = None) || (WcoRemovedCount r <? len (default [] (WcoRemoved r))) || (WcoSkippedCount r <? 0)
     || negb (WcoDirectorySynced r)
  then Some (invalidProtocol "result" "contains invalid compaction evidence" None) else None.

(** The loop over the files, with the sum of their sizes. *)
Fixpoint checkBackupFiles (previous : option bytes) (total : Z) (files : list BackupFile) : result goerror Z :=
  match files with
  | [] => Ok total
  | file :: files =>
      reject bool_decide (BfName file = []) || (BfSize file <? 0) || bool_decide (BfSHA256 file = [])
             || match previous with Some name => bytes_leb (BfName file) name | None => false end
        with invalidProtocol "result.files" "must be a sorted complete evidence list" None ;;
      checkBackupFiles (Some (BfName file)) (wrap_i64 (total + BfSize file)) files
  end.

Definition checkBackup (r : BackupResult) : error :=
  if bool_decide (BrDatabaseID r = []) || bool_decide (BrManifestChecksum r = []) || bool_decide (BrFiles r = None)
     || (BrByteCount r <? 0) || negb (BrVerified r)
  then Some (invalidProtocol "result" "contains invalid backup evidence" None)
  else match checkBackupFiles None 0 (default [] (BrFiles r)) with
  | Err e => Some e
  | Ok total =>
      if negb (total =? BrByteCount r)
      then Some (invalidProtocol "result.byte_count" "must equal the file byte count" None) else None
  end.

(** Decode into the struct of a result and check it. *)
Definition decodeChecked {A} (t : jtype) (of_value : gval -> option A) (checks : A -> error) (make : A -> Result) (v : jvalue) :
    result goerror Result :=
  x ← decodeInto "result" t of_value v;
  check checks x ;;
  Ok (make x).

Definition getOf (g : gval) : option DBRecord := match g with GStruct [record] => recordOf record | _ => None end.

Definition decodeResult (o : Operation) (raw : option jvalue) (maximum : Z) : result goerror (option Result) :=
  match raw with
  | None => Ok None
  | Some v =>
      check requireResultFields o v ;;
      reject negb (bool_decide (o = OperationAtomicBatch)) && objectHasField v "assertion_count"
        with invalidProtocol "result.assertion_count" "is valid only for atomic_batch" None ;;
      result ← match o with
        | OperationGet => record ← decodeInto "result" wireGet getOf v; record ← public record; Ok (GetResult record)
        | OperationGetMany => decodeMany v maximum
        | OperationPut | OperationPutIfAbsent | OperationCompareAndSwap | OperationDeleteIfRevision | OperationAtomicBatch =>
            decodeChecked MutationResultType mutationResultOf checkMutation MutationRes v
        | OperationScanPrefix => decodePage v
        | OperationStatus => decodeChecked StatusResultType statusResultOf checkStatus StatusRes v
        | OperationHealth => decodeChecked HealthResultType healthResultOf checkHealth HealthRes v
        | OperationStats => decodeChecked StatsResultType statsResultOf checkStats StatsRes v
        | OperationDescribeConfig => decodeChecked ConfigResultType configResultOf checkConfig ConfigRes v
        | OperationVerify => decodeChecked VerifyResultType verifyResultOf checkVerify VerifyRes v
        | OperationCreateSnapshot => decodeChecked WireSnapshotResultType wireSnapshotResultOf checkSnapshot SnapshotRes v
        | OperationCompact => decodeChecked WireCompactionResultType wireCompactionResultOf checkCompaction CompactionRes v
        | OperationBackup => decodeChecked BackupResultType backupResultOf checkBackup BackupRes v
        | _ => Ok (RawResult v)
        end;
      Ok (Some result)
  end.

(** *** Events *)

Definition eventOf (g : gval) : option ChangeEvent :=
  match g with
  | GStruct [GNum revision; GNum order; GString kind; GString key; record] =>
      record ← pointerOf recordOf record; Some (MkChangeEvent revision order (changeOf kind) key record)
  | _ => None
  end.

Definition decodeEvent (v : jvalue) : result goerror ChangeEvent :=
  wire ← decodeInto "event" wireEvent eventOf v;
  reject EvtRevision wire =? 0 with invalidProtocol "event.revision" "must be greater than zero" None ;;
  match EvtKind wire with
  | ChangePut =>
      match EvtRecord wire with
      | None => Err (invalidProtocol "event.record" "is required for put" None)
      | Some record =>
          record ← public record;
          reject negb (bool_decide (RecKey record = EvtKey wire)) || negb (RecRevision record =? EvtRevision wire)
            with invalidProtocol "event.record" "must match the event key and revision" None ;;
          Ok (MkChangeEvent (EvtRevision wire) (EvtOrder wire) (EvtKind wire) (EvtKey wire) (Some record))
      end
  | ChangeDelete | ChangeExpire =>
      match EvtRecord wire with
      | Some _ => Err (invalidProtocol "event.record" "must be omitted for delete and expire" None)
      | None => Ok (MkChangeEvent (EvtRevision wire) (EvtOrder wire) (EvtKind wire) (EvtKey wire) None)
      end
  | ChangeUnknown _ => Err (invalidProtocol "event.kind" "must be put, delete, or expire" None)
  end.

(** *** The envelope *)

Definition responseEnvelope (result event failure : jtype) : jtype :=
  TStruct [field "schema_version" (TPtr (TUint max_uint64)); field "ok" (TPtr TBool); omitempty "request_id" TString;
           field "database_id" TString; field "operation" TString; omitempty "result" result;
           omitempty "stream" TString; omitempty "registration_revision" (TPtr TRevision); omitempty "event" event;
           omitempty "reason" TString; omitempty "error" failure].

(** The checks of the stream fields at the end of [DecodeResponse]. *)
Definition checkStream (o : Operation) (ok : bool) (stream : bytes) (registration : option gval) (event : option ChangeEvent)
    (reason : bytes) (hasError : bool) : error :=
  let registered := if registration then true else false in
  let evented := if event then true else false in
  if negb (bool_decide (stream = [])) then
    if negb (bool_decide (o = OperationWatch)) then Some (invalidProtocol "stream" "is valid only for watch" None)
    else if bool_decide (stream = StreamStarted) then
      if negb ok || negb registered || evented || negb (bool_decide (reason = [])) || hasError
      then Some (invalidProtocol "registration_revision" "is required for a started watch" None) else None
    else if bool_decide (stream = StreamEvent) then
      if negb ok || registered || negb evented || negb (bool_decide (reason = [])) || hasError
      then Some (invalidProtocol "event" "is required for a watch event" None) else None
    else if bool_decide (stream = StreamEnded) then
      if registered || evented
         || (ok && negb (bool_decide (reason ∈ [reasonText WatchEndedByClient; reasonText WatchEndedByShutdown])))
         || (negb ok && negb (bool_decide (reason = reasonText WatchEndedByError)))
      then Some (invalidProtocol "reason" "is required for a normal watch end" None) else None
    else Some (invalidProtocol "stream" "must be started, event, or ended" None)
  else if bool_decide (o = OperationWatch) then Some (invalidProtocol "stream" "is required for watch" None) else None.

(** Which members an operation may have. *)
Definition checkPresence (o : Operation) (ok : bool) (v : jvalue) : error :=
  let present := objectHasNonNullField v in
  if negb (bool_decide (o = OperationWatch)) then
    if present "stream"%string || present "registration_revision"%string || present "event"%string || present "reason"%string
    then Some (invalidProtocol "stream" "watch fields are invalid for a unary response" None)
    else if negb (Bool.eqb ok (present "result"%string))
    then Some (invalidProtocol "result" "must be present exactly for successful unary responses" None) else None
  else if present "result"%string then Some (invalidProtocol "result" "must be omitted for watch" None) else None.

Definition decodeError (o : Operation) (payload : bytes) (v : jvalue) : result goerror gval :=
  failure ← decodeInto "error" ErrorType Some v;
  check validateStructuredError failure v ;;
  let asserted := if errorAssertionIndex failure then true else false in
  reject asserted && negb (bool_decide (o = OperationAtomicBatch))
    with invalidProtocol "error.assertion_index" "is valid only for atomic_batch" None ;;
  reject asserted && (maxAssertionDiagnosticBytes <=? len payload)
    with invalidProtocol "error" "assertion diagnostic exceeds its safe bound" None ;;
  Ok failure.

Definition revisionValue (registration : option gval) : Revision :=
  match registration with Some (GNum r) => r | _ => 0 end.

(** The part of [DecodeResponse] behind the envelope's own fields. *)
Definition decodeBody (payload : bytes) (v : jvalue) (maximum version : Z) (ok : bool) (requestID databaseID : bytes) (o : Operation)
    (result : option jvalue) (stream : bytes) (registration : option gval) (event : option jvalue) (reason : bytes)
    (failure : option jvalue) : Prelude.result goerror Response :=
  let hasError := match failure with None | Some JNull => false | Some _ => true end in
  reject ok && hasError with invalidProtocol "error" "must be omitted when ok is true" None ;;
  reject negb ok && negb hasError with invalidProtocol "error" "is required when ok is false" None ;;
  check checkPresence o ok v ;;
  structuredError ← match failure with
    | None | Some JNull => Ok None
    | Some v => failure ← decodeError o payload v; Ok (Some failure)
    end;
  result ← decodeResult o result maximum;
  event ← match event with None => Ok None | Some v => event ← decodeEvent v; Ok (Some event) end;
  check checkStream o ok stream registration event reason hasError ;;
  Ok (MkResponse version ok requestID databaseID o result stream (revisionValue registration) event reason structuredError).

Definition DecodeResponse (payload : bytes) (maximum : Z) : result goerror Response :=
  reject (maximum <=? 0) || (MaxFrameBytes HardLimits <? maximum)
    with invalidProtocol "maximum_frame_bytes" "is outside the supported range" None ;;
  reject maximum <? len payload with protocolFrameTooLarge (len payload) maximum ;;
  match decodeStrict payload with
  | Err e => Err (invalidProtocol "envelope" jsonReason (Some e))
  | Ok v =>
      let t := responseEnvelope TRaw TRaw TRaw in
      match go_decode t v (zero_value t) with
      | Some (GStruct [GPtr version; GPtr ok; GString requestID; GString databaseID; GString operation; GRaw result;
                       GString stream; GPtr registration; GRaw event; GString reason; GRaw failure]) =>
          match version with
          | Some (GNum version) =>
              reject negb (version =? SchemaVersion) with unsupportedVersion version ;;
              match ok with
              | Some (GBool ok) =>
                  reject 256 <? len requestID with invalidProtocol "request_id" "must not exceed 256 bytes" None ;;
                  reject bool_decide (databaseID = []) with invalidProtocol "database_id" "is required" None ;;
                  match validOperation operation with
                  | None => Err (invalidProtocol "operation" "is not a protocol v1 operation" None)
                  | Some o =>
                      decodeBody payload v maximum version ok requestID databaseID o result stream registration event
                        reason failure
                  end
              | _ => Err (invalidProtocol "ok" "is required" None)
              end
          | _ => Err (invalidProtocol "schema_version" "is required" None)
          end
      | _ => Err (invalidProtocol "envelope" jsonReason (Some (ErrText jsonReason)))
      end
  end.

(** ** Encoding *)

Definition setField (fields : list (bytes * jtype * bool)) (g : gval) (name : string) (x : gval) : gval :=
  match g, fieldIndex fields name with GStruct vals, Some i => GStruct (<[i := x]> vals) | _, _ => g end.

(** The key of an assertion's diagnostic is cut to a bounded prefix. *)
Definition boundDiagnostic (g : gval) : gval :=
  if errorAssertionIndex g then setField errorFields g "key" (GString (boundedAssertionDiagnosticKey (errorText g "key"))) else g.

(** The struct that is marshalled. *)
Definition responseValue (r : Response) (result : option gval) : gval :=
  GStruct [GPtr (Some (GNum (RspSchemaVersion r))); GPtr (Some (GBool (RspOK r))); GString (RspRequestID r);
           GString (RspDatabaseID r); GString (operationName (RspOperation r)); GPtr result; GString (RspStream r);
           GPtr (if bool_decide (RspStream r = StreamStarted) then Some (GNum (RspRegistrationRevision r)) else None);
           GPtr (eventValue <$> RspEvent r); GString (RspEndReason r); GPtr (boundDiagnostic <$> RspError r)].

(** The type of [any]: that of the result it holds. *)
Definition responseType (r : Response) : jtype :=
  responseEnvelope (TPtr (from_option resultType TRaw (RspResult r))) (TPtr ChangeEventType) (TPtr ErrorType).

Definition EncodeResponse (r : Response) : result goerror bytes :=
  reject negb (RspSchemaVersion r =? SchemaVersion) with unsupportedVersion (RspSchemaVersion r) ;;
  reject 256 <? len (RspRequestID r) with invalidProtocol "request_id" "must not exceed 256 bytes" None ;;
  let failed := if RspError r then true else false in
  reject failed && RspOK r with invalidProtocol "ok" "cannot be true when error is present" None ;;
  reject negb failed && negb (RspOK r) with invalidProtocol "error" "is required when ok is false" None ;;
  match go_encode (responseType r) (responseValue r (normalizeResult <$> RspResult r)) with
  | None => Err (invalidProtocol "response" "could not encode" (Some (ErrText jsonReason)))
  | Some payload =>
      reject MaxFrameBytes HardLimits <? len payload with protocolFrameTooLarge (len payload) (MaxFrameBytes HardLimits) ;;
      reject match RspError r with Some g => if errorAssertionIndex g then maxAssertionDiagnosticBytes <=? len payload else false | None => false end
        with invalidProtocol "error" "assertion diagnostic exceeds its safe bound" None ;;
      _ ← DecodeResponse payload (MaxFrameBytes HardLimits);
      Ok payload
  end.

