(* ===== verification/ResultCodec.v ===== *)
(** * Results, events and errors on the wire

    What the response decoder makes of an encoded result, event or error, and
    which of them it accepts: a decoder [decides] a property when it accepts
    exactly the values that have it and returns them unchanged. *)

From stdpp Require Import base gmap list strings.
From Stdlib Require Import ZArith Lia Sorted.
From S2P Require Import Prelude.
From S2P Require Import Bytes.
From S2P Require Import Errors.
From S2P Require Import ApiTypes.
From S2P Require Import Scan.
From S2P Require Import Base64.
From S2P Require Import Json.
From S2P Require Import GoTime.
From S2P Require Import GoJson.
From S2P Require Import Frame.
From S2P Require Import Envelope.
From S2P Require Import Requests.
From S2P Require Import ReadMany.
From S2P Require Import AdminResults.
From S2P Require Import WireErrors.
From S2P Require Import Responses.

Local Open Scope Z_scope.
Local Open Scope go_scope.

(** ** Decoders that decide a property *)

(** The decoder accepts exactly where [P] holds, and then returns [x]. *)
Definition decides {A} (m : result goerror A) (x : A) (P : Prop) : Prop :=
  match m with Ok y => y = x /\ P | Err _ => ~ P end.

Lemma decides_ok {A} (x : A) : decides (Ok x) x True.
Proof. done. Qed.

Lemma decides_bind {A B} (m : result goerror A) (k : A -> result goerror B) x y P Q :
  decides m x P -> decides (k x) y Q -> decides (m ≫= k) y (P /\ Q).
Proof. unfold decides. destruct m as [a|]; cbn [mbind result_bind]; [intros [-> HP]|tauto]. destruct (k x); tauto. Qed.

Lemma decides_iff {A} (m : result goerror A) x P Q : decides m x P -> (P <-> Q) -> decides m x Q.
Proof. unfold decides. destruct m; tauto. Qed.

(** The rest may rely on what has been checked. *)
Lemma decides_reject_then {A} (b : bool) e (m : result goerror A) x P Q :
  (b = false <-> P) -> (P -> decides m x Q) -> decides (reject b with e ;; m) x (P /\ Q).
Proof. intros HP HQ. unfold decides in *. destruct b; [destruct HP; intuition congruence|]. destruct m; tauto. Qed.

Lemma decides_check_then {A} (err : error) (m : result goerror A) x P Q :
  (err = None <-> P) -> (P -> decides m x Q) -> decides (check err ;; m) x (P /\ Q).
Proof. intros HP HQ. unfold decides in *. destruct err; [destruct HP; intuition congruence|]. destruct m; tauto. Qed.

Lemma decides_reject {A} (b : bool) e (m : result goerror A) x P Q :
  (b = false <-> P) -> decides m x Q -> decides (reject b with e ;; m) x (P /\ Q).
Proof. intros HP HQ. by apply decides_reject_then. Qed.

Lemma decides_check {A} (err : error) (m : result goerror A) x P Q :
  (err = None <-> P) -> decides m x Q -> decides (check err ;; m) x (P /\ Q).
Proof. intros HP HQ. by apply decides_check_then. Qed.

(** ** Records on the wire *)

Lemma roundtrips_optional_instant n t : wire_time t -> roundtrips n (TPtr TInstant) (timeValue t).
Proof. destruct t as [t|]; simpl; intros Ht; [apply roundtrips_ptr; [done|by apply roundtrips_instant]|apply roundtrips_nil]. Qed.

#[export] Hint Resolve roundtrips_optional_instant roundtrips_instant : wire.

Lemma roundtrips_wireRecord n r : wire_record r -> roundtrips (S n) wireRecord (recordValue r).
Proof.
  intros (Hk & Hr & Ht). unfold wireRecord. eapply roundtrips_required; [|reflexivity|].
  - unfold recordValue. wire_fields. by destruct (RecExpiresAt r).
  - cbn [forallb]. rewrite !andb_true_iff. split_and!; try done; apply bool_decide_eq_true; simpl; set_solver.
Qed.

Lemma recordOf_value r : recordOf (recordValue r) = Some r.
Proof. unfold recordOf, recordValue. rewrite timeOf_value. by destruct r. Qed.

Lemma pointerOf_record r : pointerOf recordOf (GPtr (recordValue <$> r)) = Some r.
Proof. destruct r as [r|]; [|done]. cbn [fmap option_fmap option_map pointerOf]. by rewrite recordOf_value. Qed.

Lemma roundtrips_wireRecord_pointer n r : match r with Some r => wire_record r | None => True end ->
  roundtrips (S n) (TPtr wireRecord) (GPtr (recordValue <$> r)).
Proof.
  destruct r as [r|]; intros Hr; [|apply roundtrips_nil]. apply roundtrips_ptr; [done|]. by apply roundtrips_wireRecord.
Qed.

#[export] Hint Resolve roundtrips_wireRecord roundtrips_wireRecord_pointer : wire.

(** A record that the decoder accepts. *)
Definition record_ok (r : DBRecord) : Prop :=
  key_wf HardLimits (RecKey r) /\ len (RecValue r) <= MaxValueBytes HardLimits /\ RecRevision r <> 0.

Lemma public_decides r : decides (public r) r (record_ok r).
Proof.
  unfold public. eapply decides_iff.
  - apply decides_check; [apply Mutation_Validate_None|]. apply decides_reject; [|apply decides_ok]. apply Z.eqb_neq.
  - change (mutation_wf _ _) with (key_wf HardLimits (RecKey r) /\ 0 = 0 /\ len (RecValue r) <= MaxValueBytes HardLimits).
    unfold record_ok. intuition.
Qed.

(** ** Results that can be sent *)

(** The members that are never omitted are present. *)
Definition mandatory (t : jtype) : list bytes :=
  match t with TStruct fields => field_names (filter (fun f => f.2 = false) fields) | _ => [] end.

Lemma member_present ms name : lit name ∈ ms.*1 -> member ms name <> None.
Proof.
  induction ms as [|[key v] ms IH]; [by intros ?%elem_of_nil|]. rewrite fmap_cons, elem_of_cons, member_cons. cbn [fst].
  case_bool_decide; [done|]. intros [?|?]; [congruence|]. by apply IH.
Qed.

Lemma mandatory_present fields vals name : length vals = length fields -> name ∈ mandatory (TStruct fields) ->
  name ∈ (field_values fields vals).*1.
Proof.
  unfold field_values. revert vals. induction fields as [|[[n t] omit] fields IH]; intros [|x vals] Hl Hin; try done.
  rewrite fmap_cons. cbn [json_fields fst snd]. rewrite fmap_app. apply elem_of_app. cbn [mandatory] in Hin.
  rewrite filter_cons in Hin. case_decide as Ho; cbn [snd] in Ho.
  - subst omit. cbn [andb]. unfold field_names in Hin. rewrite fmap_cons in Hin. apply elem_of_cons in Hin as [->|Hin].
    + left. by left.
    + right. apply IH; [by injection Hl|done].
  - right. apply IH; [by injection Hl|done].
Qed.

Lemma required_present o fields vals : length vals = length fields ->
  Forall (fun name => lit name ∈ mandatory (TStruct fields)) (requiredFields o) ->
  requireResultFields o (json_of (TStruct fields) (GStruct vals)) = None.
Proof.
  intros Hl Hreq. unfold requireResultFields. destruct (requiredFields o) as [|first rest]; [done|].
  change (objectMembers _) with (Some (field_values fields vals)). cbv iota.
  assert (list_find (fun name => member (field_values fields vals) name = None) (first :: rest) = None) as ->; [|done].
  apply list_find_None. eapply Forall_impl; [exact Hreq|]. intros name Hn. by apply member_present, mandatory_present.
Qed.

Lemma field_absent fields vals name : lit name ∉ field_names fields ->
  objectHasField (json_of (TStruct fields) (GStruct vals)) name = false.
Proof.
  intros Hn. unfold objectHasField. change (objectMember _ _) with (member (field_values fields vals) name).
  rewrite member_None; [done|]. intros Hin. apply Hn. eapply elem_of_sublist; [exact Hin|apply field_values_sublist].
Qed.

(** A result that the wire can carry. *)
Definition wire_result (r : Result) : Prop :=
  match r with
  | GetResult x => wire_record x
  | ManyResult m => wire_many m
  | MutationRes m =>
      u64 (ResRevision m) /\ u64 (ResDurableThrough m) /\ i64 (ResMutationCount m) /\ i64 (ResAssertionCount m) /\
      AckMode_Valid (ResAck m) = true
  | PageResult p =>
      u64 (PageObserved p) /\ rfc3339_range (PageAsOf p) /\ Forall wire_record (PageRecords p) /\
      utf8_valid (PageCursor p) = true
  | StatusRes x => wire_statusResult x
  | HealthRes x => wire_healthResult x
  | StatsRes x => wire_statsResult x
  | ConfigRes x => wire_configResult x
  | VerifyRes x => wire_verifyResult x
  | SnapshotRes x => wire_wireSnapshotResult x
  | CompactionRes x => wire_wireCompactionResult x
  | BackupRes x => wire_backupResult x
  | RawResult _ => False
  end.

(** The result that an operation has. *)
Definition result_for (o : Operation) (r : Result) : Prop :=
  match o, r with
  | OperationGet, GetResult _ | OperationGetMany, ManyResult _ | OperationScanPrefix, PageResult _
  | (OperationPut | OperationPutIfAbsent | OperationCompareAndSwap | OperationDeleteIfRevision | OperationAtomicBatch), MutationRes _
  | OperationStatus, StatusRes _ | OperationHealth, HealthRes _ | OperationStats, StatsRes _
  | OperationDescribeConfig, ConfigRes _ | OperationVerify, VerifyRes _ | OperationCreateSnapshot, SnapshotRes _
  | OperationCompact, CompactionRes _ | OperationBackup, BackupRes _ => True
  | _, _ => False
  end.

(** What the decoder asks of a result. *)
Definition mutation_ok (o : Operation) (m : MutationResult) : Prop :=
  ResRevision m <> 0 /\ ResDurableThrough m <= ResRevision m /\
  (ResAck m = AckDurable -> ResDurableThrough m = ResRevision m) /\
  0 <= ResMutationCount m /\ 0 <= ResAssertionCount m /\
  (if decide (o = OperationAtomicBatch) then ResMutationCount m <> 0 else ResAssertionCount m = 0).

Definition page_ok (p : ScanPage) : Prop :=
  Forall record_ok (PageRecords p) /\ StronglySorted bytes_lt (RecKey <$> PageRecords p) /\
  (PageTruncated p = true <-> PageCursor p <> []).

Definition many_ok (m : ReadManyResult) : Prop :=
  ValidateReadManyResult m (manyLimits (MaxFrameBytes HardLimits)) = None /\
  Forall (fun e => match EntryRecord e with Some r => record_ok r | None => True end) (ManyEntries m).

Definition result_ok (o : Operation) (r : Result) : Prop :=
  match r with
  | GetResult x => record_ok x
  | ManyResult m => many_ok m
  | MutationRes m => mutation_ok o m
  | PageResult p => page_ok p
  | StatusRes x => checkStatus x = None
  | HealthRes x => checkHealth x = None
  | StatsRes x => checkStats x = None
  | ConfigRes x => checkConfig x = None
  | VerifyRes x => checkVerify x = None
  | SnapshotRes x => checkSnapshot x = None
  | CompactionRes x => checkCompaction x = None
  | BackupRes x => checkBackup x = None
  | RawResult _ => True
  end.

(** *** Deciding each of them *)

Lemma decodeInto_roundtrip {A} name n t (of_value : gval -> option A) g x : roundtrips n t g -> of_value g = Some x ->
  decodeInto name t of_value (json_of t g) = Ok x.
Proof. intros (_ & _ & Hd & _) Hx. unfold decodeInto. rewrite Hd. cbn [mbind option_bind]. by rewrite Hx. Qed.

Lemma decodeChecked_decides {A} n t (of_value : gval -> option A) checks make g x : roundtrips n t g -> of_value g = Some x ->
  decides (decodeChecked t of_value checks make (json_of t g)) (make x) (checks x = None).
Proof.
  intros Hr Hx. unfold decodeChecked. rewrite (decodeInto_roundtrip _ n _ _ _ x) by done. cbn [mbind result_bind].
  by destruct (checks x).
Qed.

(** An entry as it arrives. *)
Definition wireEntryValue (e : ReadManyEntry) : gval :=
  GStruct [GString (EntryKey e); GPtr (Some (GBool (EntryFound e))); GPtr (recordValue <$> EntryRecord e)].
Definition arrivedEntry (e : ReadManyEntry) : bytes * option bool * option DBRecord :=
  (EntryKey e, Some (EntryFound e), EntryRecord e).
Definition wireManyValue (m : ReadManyResult) : gval :=
  GStruct [GNum (ManyObserved m); GTime (ManyAsOf m); sliceValue wireEntryValue (ManyEntries m)].

Lemma roundtrips_wireEntry n e : wire_entry e -> roundtrips (S (S n)) wireEntry (wireEntryValue e).
Proof.
  intros [Hk Hr]. unfold wireEntry, wireEntryValue. wire_fields.
  - apply roundtrips_ptr; [done|]. apply roundtrips_bool.
  - by destruct (EntryRecord e).
Qed.

Lemma roundtrips_wireMany n m : wire_many m -> roundtrips (S (S (S (S n)))) wireMany (wireManyValue m).
Proof.
  intros (Ho & Ht & He). unfold wireMany, wireManyValue. wire_fields.
  unfold sliceValue. destruct (ManyEntries m) as [|e l]; [apply roundtrips_nil_list|]. apply roundtrips_list.
  rewrite Forall_fmap. eapply Forall_impl; [exact He|]. intros x Hx. by apply roundtrips_wireEntry.
Qed.

Lemma wireManyOf_value m : wireManyOf (wireManyValue m) = Some (ManyObserved m, ManyAsOf m, arrivedEntry <$> ManyEntries m).
Proof.
  unfold wireManyOf, wireManyValue, sliceValue. destruct (ManyEntries m) as [|e l]; [done|]. cbn [sliceOf].
  assert (mapM wireEntryOf (wireEntryValue <$> e :: l) = Some (arrivedEntry <$> e :: l)) as ->; [|done].
  induction (e :: l) as [|x l' IH]; [done|]. rewrite !fmap_cons. cbn [mapM]. rewrite IH. unfold wireEntryOf, wireEntryValue.
  cbn [mbind option_bind]. by rewrite pointerOf_record.
Qed.

Lemma many_json m : json_of ReadManyResultType (readManyValue m) = json_of wireMany (wireManyValue m).
Proof.
  unfold readManyValue, wireManyValue, sliceValue. destruct (ManyEntries m) as [|e l]; [done|].
  assert (json_of ReadManyEntryType <$> (entryValue <$> e :: l) = json_of wireEntry <$> (wireEntryValue <$> e :: l)) as Hl.
  { rewrite <- !list_fmap_compose. apply list_fmap_ext. intros _ [k f [r|]] _; done. }
  unfold ReadManyResultType, wireMany.
  cbn [json_of jobject json_fields fmap list_fmap fst snd field omitempty app andb] in *. by rewrite Hl.
Qed.

Definition entry_record_ok (e : ReadManyEntry) : Prop := match EntryRecord e with Some r => record_ok r | None => True end.

Lemma publicEntries_sound seen l l' : publicEntries seen (arrivedEntry <$> l) = Ok l' -> l' = l /\ Forall entry_record_ok l.
Proof.
  revert seen l'. induction l as [|[key found record] l IH]; intros seen l'; [by intros [= <-]|].
  rewrite fmap_cons. cbn [publicEntries arrivedEntry EntryKey EntryFound EntryRecord]. destruct (_ || _); [done|].
  case_bool_decide; [done|]. destruct record as [r|].
  - pose proof (public_decides r) as Hp. destruct (public r) as [r'|]; [destruct Hp as [-> Hok]|done]. destruct (negb _); [done|].
    destruct (publicEntries _ _) as [rest|] eqn:Hrest; [|done]. intros [= <-]. destruct (IH _ _ Hrest) as [-> Hall]. split; [done|by constructor].
  - destruct (publicEntries _ _) as [rest|] eqn:Hrest; [|done]. intros [= <-]. destruct (IH _ _ Hrest) as [-> Hall]. split; [done|by constructor].
Qed.

(** The decoder's own checks on the entries follow from the validation of the
    result, but for the size of the values. *)
Lemma publicEntries_complete limits observed asOf seen l : validateReadManyEntries limits observed asOf seen l = None ->
  Forall entry_record_ok l -> publicEntries seen (arrivedEntry <$> l) = Ok l.
Proof.
  intros Hv Hl. revert seen Hv. induction Hl as [|[key found record] l Hr _ IH]; intros seen; [done|].
  rewrite fmap_cons. cbn [validateReadManyEntries publicEntries arrivedEntry EntryKey EntryFound EntryRecord].
  destruct (Mutation_Validate _ _) eqn:Hm; [done|]. apply Mutation_Validate_None in Hm as [(Hne & _) _]. cbn [MutKey] in Hne.
  rewrite (bool_decide_false _ Hne). cbn [orb]. case_bool_decide; [done|].
  destruct (negb _); [done|]. destruct record as [r|]; [|intros Hv; by rewrite (IH _ Hv)].
  pose proof (public_decides r) as Hp. unfold entry_record_ok in Hr. cbn [EntryRecord] in Hr.
  destruct (public r) as [r'|]; [destruct Hp as [-> _]|done]. destruct (negb (bool_decide _)); [done|]. cbn [orb].
  destruct (_ || _); [done|]. destruct (match RecExpiresAt r with Some _ => _ | None => _ end); [done|].
  intros Hv. by rewrite (IH _ Hv).
Qed.

Lemma ValidateReadManyResult_entries m limits : ValidateReadManyResult m limits = None ->
  ManyEntries m <> [] /\ validateReadManyEntries limits (ManyObserved m) (ManyAsOf m) [] (ManyEntries m) = None.
Proof.
  unfold ValidateReadManyResult, validateEncodedMany. case_bool_decide; [done|]. destruct (_ || _); [done|]. destruct (_ =? _); [done|].
  by destruct (validateReadManyEntries _ _ _ _ _).
Qed.

Lemma decodeMany_decides m : wire_many m ->
  decides (decodeMany (json_of ReadManyResultType (readManyValue m)) (MaxFrameBytes HardLimits)) (ManyResult m) (many_ok m).
Proof.
  intros Hw. rewrite many_json. unfold decodeMany, many_ok. set (limits := manyLimits _). fold entry_record_ok.
  rewrite (decodeInto_roundtrip _ _ _ _ _ _ (roundtrips_wireMany 0 m Hw) (wireManyOf_value m)). cbn [mbind result_bind].
  assert (Hm : MkReadManyResult (ManyObserved m) (ManyAsOf m) (ManyEntries m) = m) by (by destruct m).
  destruct (publicEntries [] (arrivedEntry <$> ManyEntries m)) as [l|e] eqn:Hp.
  - apply publicEntries_sound in Hp as [-> Hall]. cbn [mbind result_bind]. rewrite Hm.
    destruct (ValidateReadManyResult m limits) as [e|] eqn:Hv.
    + destruct (bool_decide _); by intros [? _].
    + destruct (ValidateReadManyResult_entries _ _ Hv) as [Hne _]. rewrite bool_decide_false by (by destruct (ManyEntries m)). done.
  - destruct (bool_decide _); intros [Hv Hall]; apply ValidateReadManyResult_entries in Hv as [_ Hv];
      by rewrite (publicEntries_complete _ _ _ _ _ Hv Hall) in Hp.
Qed.

(** *** Pages *)

Lemma Sorted_two (a b : bytes) l : Sorted bytes_lt (a :: b :: l) <-> bytes_lt a b /\ Sorted bytes_lt (b :: l).
Proof.
  split; [intros [Hs Hh]%Sorted_inv; by apply HdRel_inv in Hh|]. intros [Hab Hs]. constructor; [done|by constructor].
Qed.

Lemma publicRecords_decides previous l : decides (publicRecords previous l) l
  (Forall record_ok l /\ Sorted bytes_lt (option_list previous ++ (RecKey <$> l))).
Proof.
  revert previous. induction l as [|r l IH]; intros previous; cbn [publicRecords].
  { eapply decides_iff; [apply decides_ok|]. split; [|done]. intros _. split; [done|]. destruct previous; repeat constructor. }
  eapply decides_iff.
  - eapply decides_bind; [apply public_decides|].
    apply decides_reject with (P := match previous with Some k => bytes_lt k (RecKey r) | None => True end);
      [destruct previous; [apply bytes_leb_false|done]|].
    eapply decides_bind; [apply IH|apply decides_ok].
  - rewrite fmap_cons, Forall_cons. destruct previous as [k|]; simpl; rewrite ?Sorted_two; tauto.
Qed.

Lemma roundtrips_wirePage n p : u64 (PageObserved p) -> rfc3339_range (PageAsOf p) -> Forall wire_record (PageRecords p) ->
  utf8_valid (PageCursor p) = true -> roundtrips (S (S (S n))) wirePage (pageValue p).
Proof.
  intros Ho Ht Hr Hc. unfold wirePage, pageValue. wire_fields.
  apply roundtrips_list. rewrite Forall_fmap. eapply Forall_impl; [exact Hr|]. intros x Hx. by apply roundtrips_wireRecord.
Qed.

Lemma roundtrips_page n p : u64 (PageObserved p) -> rfc3339_range (PageAsOf p) -> Forall wire_record (PageRecords p) ->
  utf8_valid (PageCursor p) = true -> roundtrips (S (S (S n))) ScanPageType (pageValue p).
Proof.
  intros Ho Ht Hr Hc. unfold ScanPageType, pageValue. wire_fields.
  apply roundtrips_list. rewrite Forall_fmap. eapply Forall_impl; [exact Hr|]. intros x Hx. by apply roundtrips_record.
Qed.

Lemma page_json p : json_of ScanPageType (pageValue p) = json_of wirePage (pageValue p).
Proof.
  unfold pageValue. assert (json_of RecordType <$> (recordValue <$> PageRecords p) = json_of wireRecord <$> (recordValue <$> PageRecords p)) as Hl.
  { rewrite <- !list_fmap_compose. apply list_fmap_ext. done. }
  unfold ScanPageType, wirePage. cbn [json_of jobject json_fields fmap list_fmap fst snd field omitempty app andb] in *. by rewrite Hl.
Qed.

Lemma pageOf_value p : pageOf (pageValue p) = Some p.
Proof.
  unfold pageOf, pageValue. cbn [sliceOf]. rewrite sliceOf_values; [by destruct p|]. apply Forall_forall. intros r _. apply recordOf_value.
Qed.

Lemma decodePage_decides p : wire_result (PageResult p) ->
  decides (decodePage (json_of ScanPageType (pageValue p))) (PageResult p) (page_ok p).
Proof.
  intros (Ho & Ht & Hr & Hc). rewrite page_json. unfold decodePage.
  rewrite (decodeInto_roundtrip _ _ _ _ _ _ (roundtrips_wirePage 0 p Ho Ht Hr Hc) (pageOf_value p)). cbn [mbind result_bind].
  eapply decides_iff.
  - eapply decides_bind; [apply publicRecords_decides|].
    apply decides_reject with (P := PageTruncated p = true <-> PageCursor p <> []).
    { rewrite negb_false_iff, Bool.eqb_true_iff. case_bool_decide; destruct (PageTruncated p); simpl; intuition congruence. }
    destruct p. apply decides_ok.
  - unfold page_ok. cbn [option_list app]. split; [|intros (? & Hs%StronglySorted_Sorted & ?); tauto].
    intros ((? & Hs) & ? & _). apply Sorted_StronglySorted in Hs; [tauto|exact bytes_lt_trans].
Qed.

(** *** Mutations *)

Lemma mutation_roundtrip n m : wire_result (MutationRes m) -> roundtrips (S n) MutationResultType (mutationResultValue m).
Proof.
  intros (Hr & Hd & Hm & Ha & Hack). unfold MutationResultType, mutationResultValue.
  assert (utf8_valid (ackText (ResAck m)) = true) by (by destruct (ResAck m)). wire_fields.
Qed.

Lemma mutationResultOf_value m : AckMode_Valid (ResAck m) = true -> mutationResultOf (mutationResultValue m) = Some m.
Proof. destruct m as [r [| |s] d mc ac]; intros Hv; by vm_compute in Hv || done. Qed.

Lemma checkMutation_None m : AckMode_Valid (ResAck m) = true -> checkMutation m = None <->
  ResRevision m <> 0 /\ ResDurableThrough m <= ResRevision m /\
  (ResAck m = AckDurable -> ResDurableThrough m = ResRevision m) /\ 0 <= ResMutationCount m /\ 0 <= ResAssertionCount m.
Proof.
  intros Hv. unfold checkMutation. rewrite Hv. cbn [negb].
  destruct (_ || _ || _ || _ || _) eqn:Hb; [split; [done|intros (? & ? & _ & ? & ?); lia]|].
  destruct (ResAck m) eqn:Ha; [..|done].
  - split; [intros _; split_and!; [lia..| |lia|lia]; done|done].
  - change (bool_decide _) with true. cbn [andb]. destruct (Z.ltb_spec (ResDurableThrough m) (ResRevision m)); split; try done.
    + intros (_ & _ & Hd & _). specialize (Hd eq_refl). lia.
    + intros _. split_and!; [lia..| |lia|lia]. intros _. lia.
Qed.

(** The members that a mutation's result may omit. *)
Definition mutationMembers (m : MutationResult) : list (bytes * jvalue) :=
  match json_of MutationResultType (mutationResultValue m) with JObject ms _ => ms | _ => [] end.

Lemma mutation_member m i name t omit x :
  (match MutationResultType with TStruct fields => fields | _ => [] end) !! i = Some (lit name, t, omit) ->
  (match mutationResultValue m with GStruct vals => vals | _ => [] end) !! i = Some x ->
  member (mutationMembers m) name = if omit && is_empty x then None else Some (json_of t x).
Proof. intros Hi Hx. eapply member_field_values; [|exact Hi|exact Hx]. apply (bool_decide_unpack _). vm_compute. done. Qed.

Lemma mutation_assertions m : objectHasField (json_of MutationResultType (mutationResultValue m)) "assertion_count" =
  negb (ResAssertionCount m =? 0).
Proof.
  unfold objectHasField. change (objectMember _ _) with (member (mutationMembers m) "assertion_count").
  rewrite (mutation_member m 4 "assertion_count" TInt true (GNum (ResAssertionCount m))) by done. simpl. by destruct (_ =? 0).
Qed.

Lemma mutation_required m : requireResultFields OperationAtomicBatch (json_of MutationResultType (mutationResultValue m)) = None <->
  ResMutationCount m <> 0.
Proof.
  unfold requireResultFields. change (objectMembers _) with (Some (mutationMembers m)). cbn [requiredFields list_find].
  rewrite (mutation_member m 0 "revision" TRevision false (GNum (ResRevision m))) by done.
  rewrite (mutation_member m 1 "ack" TString false (GString (ackText (ResAck m)))) by done.
  rewrite (mutation_member m 2 "durable_through_revision" TRevision false (GNum (ResDurableThrough m))) by done.
  rewrite (mutation_member m 3 "mutation_count" TInt true (GNum (ResMutationCount m))) by done. simpl.
  destruct (Z.eqb_spec (ResMutationCount m) 0); case_decide; simpl; try done; intuition congruence.
Qed.

Lemma mutation_decides o m : result_for o (MutationRes m) -> wire_result (MutationRes m) ->
  decides (decodeResult o (Some (json_of MutationResultType (mutationResultValue m))) (MaxFrameBytes HardLimits))
    (Some (MutationRes m)) (mutation_ok o m).
Proof.
  intros Ho Hw. unfold decodeResult, mutation_ok. rewrite mutation_assertions.
  assert (Hdec := decodeChecked_decides _ _ mutationResultOf checkMutation MutationRes _ m (mutation_roundtrip 0 m Hw)).
  destruct Hw as (_ & _ & _ & _ & Hack). specialize (Hdec (mutationResultOf_value m Hack)). pose proof (checkMutation_None m Hack) as Hc.
  assert (Hbind : forall P, (P <-> checkMutation m = None) ->
    decides (result ← decodeChecked MutationResultType mutationResultOf checkMutation MutationRes
       (json_of MutationResultType (mutationResultValue m)); Ok (Some result)) (Some (MutationRes m)) P).
  { intros P HP. eapply decides_iff; [eapply decides_bind; [exact Hdec|apply decides_ok]|]. tauto. }
  destruct (decide (o = OperationAtomicBatch)) as [->|Hne].
  - eapply decides_iff; [apply decides_check; [apply mutation_required|apply Hbind; reflexivity]|]. rewrite Hc. tauto.
  - assert (requireResultFields o (json_of MutationResultType (mutationResultValue m)) = None) as ->.
    { apply required_present; [done|]. destruct o; first [exfalso; exact Ho|apply (bool_decide_unpack _); vm_compute; done|by destruct Hne]. }
    rewrite bool_decide_false by done. cbn [negb andb]. eapply decides_iff.
    + apply decides_reject with (P := ResAssertionCount m = 0) (Q := checkMutation m = None); [rewrite negb_false_iff; apply Z.eqb_eq|].
      destruct o; first [exfalso; exact Ho|apply Hbind; reflexivity].
    + rewrite Hc. tauto.
Qed.

(** *** All results *)

Lemma result_roundtrip r : wire_result r -> roundtrips 4 (resultType r) (normalizeResult r).
Proof.
  destruct r; cbn [wire_result resultType normalizeResult]; intros Hw; try done.
  - unfold GetResultType. wire_fields. by apply roundtrips_record.
  - by apply roundtrips_many.
  - by apply mutation_roundtrip.
  - destruct_and! Hw. by apply roundtrips_page.
  - by apply roundtrips_statusResult.
  - by apply roundtrips_healthResult.
  - by apply roundtrips_statsResult.
  - by apply roundtrips_configResult.
  - by apply roundtrips_verifyResult.
  - by apply roundtrips_wireSnapshotResult.
  - by apply roundtrips_wireCompactionResult.
  - by apply roundtrips_backupResult.
Qed.

(** A result that is an object with all the fields its operation asks for. *)
Lemma decodeResult_plain o fields vals (m : result goerror Result) r P : length vals = length fields ->
  Forall (fun name => lit name ∈ mandatory (TStruct fields)) (requiredFields o) ->
  lit "assertion_count" ∉ field_names fields ->
  decides m r P -> decides (
    check requireResultFields o (json_of (TStruct fields) (GStruct vals)) ;;
    reject negb (bool_decide (o = OperationAtomicBatch)) && objectHasField (json_of (TStruct fields) (GStruct vals)) "assertion_count"
      with invalidProtocol "result.assertion_count" "is valid only for atomic_batch" None ;;
    result ← m; Ok (Some result)) (Some r) P.
Proof.
  intros Hl Hreq Hn Hm. rewrite required_present by done. rewrite field_absent by done. rewrite andb_false_r.
  eapply decides_iff; [eapply decides_bind; [exact Hm|apply decides_ok]|]. tauto.
Qed.

Ltac decode_plain :=
  apply decodeResult_plain;
  [reflexivity|apply (bool_decide_unpack _); vm_compute; done|apply (bool_decide_unpack _); vm_compute; done|].

Lemma decodeResult_decides o r : result_for o r -> wire_result r ->
  decides (decodeResult o (Some (json_of (resultType r) (normalizeResult r))) (MaxFrameBytes HardLimits)) (Some r) (result_ok o r).
Proof.
  intros Ho Hw. assert (Hr := result_roundtrip r Hw).
  destruct o, r; first [exfalso; exact Ho|by apply mutation_decides|idtac]; unfold decodeResult; cbn [resultType normalizeResult result_ok] in *; decode_plain.
  - eapply decides_iff; [eapply decides_bind; [|eapply decides_bind; [apply public_decides|apply decides_ok]]|].
    + change (json_of _ _) with (json_of wireGet (GStruct [recordValue record])).
      rewrite (decodeInto_roundtrip "result" 2 wireGet getOf (GStruct [recordValue record]) record); [apply decides_ok| |apply recordOf_value].
      unfold wireGet. wire_fields.
    + tauto.
  - by apply decodeMany_decides.
  - by apply decodePage_decides.
  - eapply decodeChecked_decides; [exact Hr|apply statusResult_of_value].
  - eapply decodeChecked_decides; [exact Hr|apply healthResult_of_value].
  - eapply decodeChecked_decides; [exact Hr|apply statsResult_of_value].
  - eapply decodeChecked_decides; [exact Hr|apply configResult_of_value].
  - eapply decodeChecked_decides; [exact Hr|apply verifyResult_of_value].
  - eapply decodeChecked_decides; [exact Hr|apply wireSnapshotResult_of_value].
  - eapply decodeChecked_decides; [exact Hr|apply wireCompactionResult_of_value].
  - eapply decodeChecked_decides; [exact Hr|apply backupResult_of_value].
Qed.

(** ** Events *)

Definition wire_event (e : ChangeEvent) : Prop :=
  u64 (EvtRevision e) /\ 0 <= EvtOrder e <= max_uint32 /\ utf8_valid (EvtKey e) = true /\
  match EvtKind e with ChangeUnknown _ => False | _ => True end /\
  match EvtRecord e with Some r => wire_record r | None => True end.

Definition event_ok (e : ChangeEvent) : Prop :=
  EvtRevision e <> 0 /\
  match EvtKind e with
  | ChangePut => exists r, EvtRecord e = Some r /\ record_ok r /\ RecKey r = EvtKey e /\ RecRevision r = EvtRevision e
  | _ => EvtRecord e = None
  end.

Lemma roundtrips_u32 n z : 0 <= z <= max_uint32 -> roundtrips n (TUint max_uint32) (GNum z).
Proof. intros Hz. by apply roundtrips_uint. Qed.

Lemma roundtrips_record_pointer n r : match r with Some r => wire_record r | None => True end ->
  roundtrips (S n) (TPtr RecordType) (GPtr (recordValue <$> r)).
Proof. destruct r as [r|]; intros Hr; [|apply roundtrips_nil]. apply roundtrips_ptr; [done|]. by apply roundtrips_record. Qed.

#[export] Hint Resolve roundtrips_u32 roundtrips_record_pointer : wire.

Lemma event_roundtrips n e : wire_event e ->
  roundtrips (S (S n)) ChangeEventType (eventValue e) /\ roundtrips (S (S n)) wireEvent (eventValue e) /\
  json_of ChangeEventType (eventValue e) = json_of wireEvent (eventValue e).
Proof.
  intros (Hr & Ho & Hk & Hc & Hrec). assert (utf8_valid (changeText (EvtKind e)) = true) by (by destruct (EvtKind e)).
  unfold ChangeEventType, wireEvent, eventValue. split_and!; [wire_fields; by destruct (EvtRecord e)..|by destruct (EvtRecord e)].
Qed.

Lemma eventOf_value e : wire_event e -> eventOf (eventValue e) = Some e.
Proof.
  intros (_ & _ & _ & Hc & _). unfold eventOf, eventValue. rewrite pointerOf_record. cbn [mbind option_bind].
  destruct e as [r o [| | |s] k x]; done.
Qed.

Lemma decodeEvent_decides e : wire_event e -> decides (decodeEvent (json_of ChangeEventType (eventValue e))) e (event_ok e).
Proof.
  intros Hw. destruct (event_roundtrips 0 e Hw) as (_ & Hr & ->). unfold decodeEvent.
  rewrite (decodeInto_roundtrip _ _ _ _ _ _ Hr (eventOf_value e Hw)). cbn [mbind result_bind]. unfold event_ok.
  apply decides_reject; [apply Z.eqb_neq|]. destruct Hw as (_ & _ & _ & Hc & _).
  destruct e as [rev order kind key record]. cbn [EvtRevision EvtOrder EvtKind EvtKey EvtRecord] in *.
  destruct kind; [|destruct record; simpl; intuition congruence..|done].
  destruct record as [r|]; [|intros (? & ? & _); done]. eapply decides_iff.
  - eapply decides_bind; [apply public_decides|].
    apply decides_reject with (P := RecKey r = key /\ RecRevision r = rev); [|apply decides_ok].
    rewrite orb_false_iff, !negb_false_iff, bool_decide_eq_true, Z.eqb_eq. done.
  - split; [intros (? & ? & _); by exists r|]. intros (? & [= <-] & ?). tauto.
Qed.

(** ** Errors *)

Definition boundedEvidence (ev : Evidence) : Evidence :=
  match ev with EvKey k => EvKey (boundedAssertionDiagnosticKey k) | ev => ev end.

(** The error of an assertion with its key cut. *)
Definition boundedError (e : Error) : Error :=
  match evidenceOf e "assertion_index" with
  | Some (EvAssertionIndex _) =>
      MkError (Code e) (Message e) (Retry e) (boundedEvidence <$> Evidences e) (OperationApplied e) (SafeActions e) (Cause e)
  | _ => e
  end.

Lemma boundedEvidence_field evs name t : evidenceField (boundedEvidence <$> evs) (name, t) =
  match list_find (fun ev => evidenceName ev = name) evs with
  | Some (_, ev) => evidenceValue (boundedEvidence ev)
  | None => zero_value t
  end.
Proof.
  unfold evidenceField. cbn [fst snd]. induction evs as [|ev evs IH]; [done|]. rewrite fmap_cons. cbn [list_find].
  assert (evidenceName (boundedEvidence ev) = evidenceName ev) as -> by (by destruct ev).
  destruct (decide _); [done|].
  by destruct (list_find _ (boundedEvidence <$> evs)) as [[]|], (list_find _ evs) as [[]|].
Qed.

Lemma insert_keyed {A} (f g : string * jtype -> A) types k x : NoDup types.*1 -> types !! k = Some x ->
  (forall y, y.1 <> x.1 -> f y = g y) -> <[k := g x]> (f <$> types) = g <$> types.
Proof.
  intros Hnd Hk Hoff. apply list_eq. intros j. destruct (decide (k = j)) as [<-|Hj].
  - rewrite list_lookup_insert_eq, list_lookup_fmap, Hk; [done|]. rewrite length_fmap. by eapply lookup_lt_Some.
  - rewrite list_lookup_insert_ne by done. rewrite !list_lookup_fmap. destruct (types !! j) as [y|] eqn:Hy; [|done]. simpl. f_equal.
    apply Hoff. intros Heq. apply Hj. eapply NoDup_lookup; [exact Hnd| |]; rewrite list_lookup_fmap; [by rewrite Hk|by rewrite Hy, <- Heq].
Qed.

Lemma boundDiagnostic_value e : boundDiagnostic (errorValue e) = errorValue (boundedError e).
Proof.
  unfold boundDiagnostic, boundedError. rewrite errorAssertionIndex_value, errorText_key.
  destruct (evidenceOf e "assertion_index") as [[]|]; try done.
  assert (exists k, evidenceTypes !! k = Some ("key"%string, TString) /\ fieldIndex errorFields "key" = Some (3 + k)%nat) as (k & Hk & Hi)
    by (eexists; split; [|vm_compute; reflexivity]; reflexivity).
  unfold setField, errorValue. rewrite Hi. f_equal. unfold errorValues. cbn [Code Message Retry OperationApplied SafeActions Evidences app Nat.add].
  lazymatch goal with |- <[_ := ?x]> (?a :: ?b :: ?c :: ?l) = ?r => change (a :: b :: c :: <[k := x]> l = r) end.
  do 3 (apply (f_equal2 cons); [done|]). rewrite insert_app_l by (rewrite length_fmap; by eapply lookup_lt_Some). f_equal.
  assert (GString (boundedAssertionDiagnosticKey (keyEvidence e)) =
    evidenceField (boundedEvidence <$> Evidences e) ("key"%string, TString)) as ->.
  { rewrite boundedEvidence_field. unfold keyEvidence, evidenceOf. destruct (list_find _ _) as [[j ev]|] eqn:Hf; [|done].
    apply list_find_Some in Hf as (_ & Hn & _). simpl. by destruct ev. }
  apply insert_keyed; [apply evidence_names_distinct|done|]. intros [name t] Hne. rewrite boundedEvidence_field. unfold evidenceField. cbn [fst snd] in *.
  destruct (list_find _ _) as [[j ev]|] eqn:Hf; [|done]. apply list_find_Some in Hf as (_ & Hn & _). by destruct ev.
Qed.

Lemma assertion_bounded e : errorAssertionIndex (errorValue (boundedError e)) = errorAssertionIndex (errorValue e).
Proof.
  unfold boundedError. destruct (evidenceOf e "assertion_index") as [[]|]; try done.
  change (errorAssertionIndex (errorValue ?x)) with
    (match evidenceField (Evidences x) ("assertion_index"%string, TPtr TInt) with GPtr (Some (GNum i)) => Some i | _ => None end).
  cbn [Evidences]. rewrite boundedEvidence_field. unfold evidenceField. cbn [fst snd].
  destruct (list_find _ _) as [[j ev]|] eqn:Hf; [|done]. apply list_find_Some in Hf as (_ & Hn & _). by destruct ev.
Qed.

(** An error about an assertion. *)
Definition asserted (e : Error) : Prop := evidenceOf e "assertion_index" <> None.

Lemma asserted_index e : (if errorAssertionIndex (errorValue e) then true else false) = true <-> asserted e.
Proof.
  rewrite errorAssertionIndex_value. unfold asserted, evidenceOf.
  destruct (list_find _ _) as [[j ev]|] eqn:Hf; [|by split]. apply list_find_Some in Hf as (_ & Hn & _). by destruct ev.
Qed.
