(* ===== verification/ResponseCodec.v ===== *)
(** * The response codec is exact

    Which responses [EncodeResponse] writes ([coherent]), and that
    [DecodeResponse] returns each of them as it was sent
    ([response_codec_exact]). *)

From stdpp Require Import base gmap list strings.
From Stdlib Require Import ZArith Lia Sorted.
From S2P Require Import Prelude.
From S2P Require Import Bytes.
From S2P Require Import Errors.
From S2P Require Import ApiTypes.
From S2P Require Import Scan.
From S2P Require Import Base64.
From S2P Require Import Json.
From S2P Require Import GoTime.
From S2P Require Import GoJson.
From S2P Require Import Frame.
From S2P Require Import Envelope.
From S2P Require Import Requests.
From S2P Require Import ReadMany.
From S2P Require Import AdminResults.
From S2P Require Import WireErrors.
From S2P Require Import Responses.
From S2P Require Import ResultCodec.

Local Open Scope Z_scope.
Local Open Scope go_scope.

(** ** The envelope *)

Section envelope.
Variables (r : Response) (err : option Error).

Definition sentError : option Error := boundedError <$> err.

(** A response that the wire can carry. *)
Record wire_response : Prop := {
  wp_version : RspSchemaVersion r = SchemaVersion;
  wp_texts : utf8_valid (RspRequestID r) = true /\ utf8_valid (RspDatabaseID r) = true /\ utf8_valid (RspStream r) = true /\
             utf8_valid (RspEndReason r) = true;
  wp_registration : u64 (RspRegistrationRevision r);
  wp_result : forall x, RspResult r = Some x -> wire_result x /\ result_for (RspOperation r) x;
  wp_event : forall e, RspEvent r = Some e -> wire_event e;
  wp_error : RspError r = errorValue <$> err /\ forall e, sentError = Some e -> wire_error e
}.
Hypothesis Hwire : wire_response.

Definition responseJson : jvalue := json_of (responseType r) (responseValue r (normalizeResult <$> RspResult r)).
Definition responseText : bytes := raw_text responseJson.

(** The fields of a watch. *)
Definition stream_ok : Prop :=
  (RspStream r = StreamStarted /\ RspOK r = true /\ RspEvent r = None /\ RspEndReason r = []) \/
  (RspStream r = StreamEvent /\ RspOK r = true /\ RspEvent r <> None /\ RspEndReason r = []) \/
  (RspStream r = StreamEnded /\ RspEvent r = None /\
   if RspOK r then RspEndReason r ∈ [reasonText WatchEndedByClient; reasonText WatchEndedByShutdown]
   else RspEndReason r = reasonText WatchEndedByError).
Definition unary_ok : Prop :=
  RspStream r = [] /\ RspEvent r = None /\ RspEndReason r = [] /\ (RspOK r = true <-> RspResult r <> None).

(** What makes sense together in a response. *)
Record coherent : Prop := {
  co_request : len (RspRequestID r) <= 256;
  co_database : RspDatabaseID r <> [];
  co_outcome : RspOK r = true <-> err = None;
  co_shape : if decide (RspOperation r = OperationWatch) then stream_ok else unary_ok;
  co_result : forall x, RspResult r = Some x -> result_ok (RspOperation r) x;
  co_event : forall e, RspEvent r = Some e -> event_ok e;
  co_error : forall e, sentError = Some e -> conforms e /\ schema_holds e = true /\ diagnostic_bounded e /\
    (asserted e -> RspOperation r = OperationAtomicBatch /\ len responseText < maxAssertionDiagnosticBytes)
}.

(** The response as it arrives. *)
Definition arrivedResponse : Response :=
  MkResponse (RspSchemaVersion r) (RspOK r) (RspRequestID r) (RspDatabaseID r) (RspOperation r) (RspResult r) (RspStream r)
    (if bool_decide (RspStream r = StreamStarted) then RspRegistrationRevision r else 0) (RspEvent r) (RspEndReason r)
    (errorValue <$> sentError).

Definition sentRegistration : option gval :=
  if bool_decide (RspStream r = StreamStarted) then Some (GNum (RspRegistrationRevision r)) else None.
Definition sentResult : option jvalue := (fun x => json_of (resultType x) (normalizeResult x)) <$> RspResult r.
Definition sentEvent : option jvalue := (fun e => json_of ChangeEventType (eventValue e)) <$> RspEvent r.
Definition sentFailure : option jvalue := (fun e => json_of ErrorType (errorValue e)) <$> sentError.

Definition sentEnvelope : gval :=
  GStruct [GPtr (Some (GNum (RspSchemaVersion r))); GPtr (Some (GBool (RspOK r))); GString (RspRequestID r);
           GString (RspDatabaseID r); GString (operationName (RspOperation r)); GRaw sentResult; GString (RspStream r);
           GPtr sentRegistration; GRaw sentEvent; GString (RspEndReason r); GRaw sentFailure].

Lemma sent_value : boundDiagnostic <$> RspError r = errorValue <$> sentError.
Proof.
  destruct (wp_error Hwire) as [-> _]. unfold sentError. destruct err as [e|]; [|done]. cbn [fmap option_fmap option_map].
  by rewrite boundDiagnostic_value.
Qed.

Lemma responseJson_raw : responseJson = json_of (responseEnvelope TRaw TRaw TRaw) sentEnvelope.
Proof.
  unfold responseJson, responseValue, responseType, sentEnvelope, sentResult, sentEvent, sentFailure. rewrite sent_value.
  unfold sentRegistration. destruct (RspResult r), (RspEvent r), sentError; reflexivity.
Qed.

Lemma response_fields result event failure x y z :
  field_roundtrips 4 (omitempty "result" result) x -> field_roundtrips 4 (omitempty "event" event) y ->
  field_roundtrips 4 (omitempty "error" failure) z ->
  roundtrips 5 (responseEnvelope result event failure)
    (GStruct [GPtr (Some (GNum (RspSchemaVersion r))); GPtr (Some (GBool (RspOK r))); GString (RspRequestID r);
              GString (RspDatabaseID r); GString (operationName (RspOperation r)); x; GString (RspStream r);
              GPtr sentRegistration; y; GString (RspEndReason r); z]).
Proof.
  intros Hx Hy Hz. destruct (wp_texts Hwire) as (Hid & Hdb & Hst & Her). pose proof (operationName_utf8 (RspOperation r)) as Hop.
  pose proof (wp_registration Hwire) as Hreg.
  assert (roundtrips 4 (TPtr (TUint max_uint64)) (GPtr (Some (GNum (RspSchemaVersion r)))))
    by (rewrite (wp_version Hwire); apply roundtrips_ptr; [done|by apply roundtrips_uint]).
  assert (roundtrips 4 (TPtr TBool) (GPtr (Some (GBool (RspOK r))))) by (apply roundtrips_ptr; [done|apply roundtrips_bool]).
  assert (roundtrips 4 (TPtr TRevision) (GPtr sentRegistration)).
  { unfold sentRegistration. case_bool_decide; [|apply roundtrips_nil]. apply roundtrips_ptr; [done|by apply roundtrips_revision]. }
  unfold responseEnvelope. apply roundtrips_struct; [apply (bool_decide_unpack _); vm_compute; done|].
  repeat (apply Forall2_cons; split); [..|apply Forall2_nil; exact I];
    first [assumption|apply field_required; first [assumption|by apply roundtrips_string]|apply field_optional];
    first [assumption|by apply roundtrips_string|simpl; intros Hempty];
    first [apply bool_decide_eq_true in Hempty; by rewrite Hempty|by destruct sentRegistration].
Qed.

Lemma raw_field name (o : option jvalue) : (forall v, o = Some v -> reads_as 4 (raw_text v) v /\ clean v) ->
  field_roundtrips 4 (omitempty name TRaw) (GRaw o).
Proof.
  intros Ho. unfold field_roundtrips. destruct o as [v|]; [|done]. destruct (Ho v eq_refl). by apply roundtrips_raw.
Qed.

Lemma pointer_field {A} name t (f : A -> gval) (o : option A) : (forall x, o = Some x -> roundtrips 4 t (f x) /\ json_of t (f x) <> JNull) ->
  field_roundtrips 4 (omitempty name (TPtr t)) (GPtr (f <$> o)).
Proof.
  intros Ho. unfold field_roundtrips. destruct o as [x|]; [|done]. destruct (Ho x eq_refl). by apply roundtrips_ptr.
Qed.

Lemma result_object x : wire_result x -> exists ms raw, json_of (resultType x) (normalizeResult x) = JObject ms raw.
Proof. destruct x; try done; intros _; eexists _, _; reflexivity. Qed.

Lemma raw_roundtrip : roundtrips 5 (responseEnvelope TRaw TRaw TRaw) sentEnvelope.
Proof.
  apply response_fields; apply raw_field; unfold sentResult, sentEvent, sentFailure; intros v Hv; apply fmap_Some in Hv as (x & Hx & ->).
  - destruct (wp_result Hwire x Hx) as [Hw _]. destruct (result_roundtrip x Hw) as (_ & Hr & _ & Hc). done.
  - destruct (event_roundtrips 2 x (wp_event Hwire x Hx)) as ((_ & Hr & _ & Hc) & _). done.
  - destruct (wp_error Hwire) as [_ He]. destruct (roundtrips_more _ 4 _ _ (error_roundtrip x (He x Hx))) as (_ & Hr & _ & Hc); [lia|done].
Qed.

Lemma typed_roundtrip : roundtrips 5 (responseType r) (responseValue r (normalizeResult <$> RspResult r)).
Proof.
  unfold responseValue, responseType. rewrite sent_value. fold sentRegistration. apply response_fields.
  - destruct (RspResult r) as [x|] eqn:Hx; [|done]. destruct (wp_result Hwire x Hx) as [Hw _].
    apply (pointer_field _ _ normalizeResult (Some x)). intros ? [= <-]. split; [by apply result_roundtrip|].
    destruct (result_object x Hw) as (? & ? & Hobj). cbn [from_option]. by rewrite Hobj.
  - apply pointer_field. intros e He. destruct (event_roundtrips 2 e (wp_event Hwire e He)) as [Hr _]. split; [exact Hr|discriminate].
  - apply pointer_field. intros e He. split; [|discriminate]. eapply roundtrips_more; [apply error_roundtrip; by apply (wp_error Hwire)|lia].
Qed.

(** *** Which members are present *)

Lemma response_member i name t omit x : (match responseEnvelope TRaw TRaw TRaw with TStruct fields => fields | _ => [] end) !! i = Some (lit name, t, omit) ->
  (match sentEnvelope with GStruct vals => vals | _ => [] end) !! i = Some x ->
  objectHasNonNullField responseJson name = if omit && is_empty x then false else match json_of t x with JNull => false | _ => true end.
Proof.
  intros Hi Hx. unfold objectHasNonNullField. rewrite responseJson_raw.
  change (objectMember _ _) with (member (field_values (match responseEnvelope TRaw TRaw TRaw with TStruct fields => fields | _ => [] end)
    (match sentEnvelope with GStruct vals => vals | _ => [] end)) name).
  rewrite (member_field_values _ _ i name t omit x); [|apply (bool_decide_unpack _); vm_compute; done|done|done].
  destruct (omit && is_empty x); [done|]. by destruct (json_of t x).
Qed.

Lemma present_text i name s : (match responseEnvelope TRaw TRaw TRaw with TStruct fields => fields | _ => [] end) !! i = Some (lit name, TString, true) ->
  (match sentEnvelope with GStruct vals => vals | _ => [] end) !! i = Some (GString s) ->
  objectHasNonNullField responseJson name = negb (bool_decide (s = [])).
Proof. intros Hi Hx. rewrite (response_member i name _ _ _ Hi Hx). simpl. by destruct (bool_decide _). Qed.

Lemma present_raw {A} i name (f : A -> jvalue) (o : option A) :
  (match responseEnvelope TRaw TRaw TRaw with TStruct fields => fields | _ => [] end) !! i = Some (lit name, TRaw, true) ->
  (match sentEnvelope with GStruct vals => vals | _ => [] end) !! i = Some (GRaw (f <$> o)) ->
  (forall x, o = Some x -> f x <> JNull) -> objectHasNonNullField responseJson name = if o then true else false.
Proof.
  intros Hi Hx Hf. rewrite (response_member i name _ _ _ Hi Hx). destruct o as [x|]; [|done].
  specialize (Hf x eq_refl). cbn [fmap option_fmap option_map is_empty json_of andb]. rewrite bool_decide_false by done. by destruct (f x).
Qed.

Lemma result_present : objectHasNonNullField responseJson "result" = if RspResult r then true else false.
Proof.
  eapply (present_raw 5); [done|done|]. intros x Hx. destruct (wp_result Hwire x Hx) as [Hw _].
  destruct (result_object x Hw) as (? & ? & Hobj). cbv beta. by rewrite Hobj.
Qed.

Lemma registration_present : objectHasNonNullField responseJson "registration_revision" = bool_decide (RspStream r = StreamStarted).
Proof.
  rewrite (response_member 7 "registration_revision" (TPtr TRevision) true (GPtr sentRegistration)) by done. unfold sentRegistration.
  by case_bool_decide.
Qed.

Lemma checkPresence_None : checkPresence (RspOperation r) (RspOK r) responseJson = None <->
  if decide (RspOperation r = OperationWatch) then RspResult r = None else unary_ok.
Proof.
  unfold checkPresence, unary_ok.
  rewrite (present_text 6 "stream" (RspStream r)), (present_text 9 "reason" (RspEndReason r)) by done.
  rewrite registration_present, result_present.
  rewrite (present_raw 8 "event" (fun e => json_of ChangeEventType (eventValue e)) (RspEvent r)) by done.
  destruct (decide (RspOperation r = OperationWatch)) as [Hw|Hw].
  - rewrite bool_decide_true by done. cbn [negb]. by destruct (RspResult r).
  - rewrite bool_decide_false by done. cbn [negb].
    destruct (decide (RspStream r = [])) as [->|Hs]; [|rewrite (bool_decide_false _ Hs); intuition done].
    change (bool_decide ([] = StreamStarted)) with false. rewrite bool_decide_true by done. cbn [negb orb].
    destruct (RspEvent r); [intuition done|]. case_bool_decide as Hr; cbn [negb orb]; [|intuition done].
    destruct (RspOK r), (RspResult r); simpl; intuition done.
Qed.

Lemma checkStream_None hasError : hasError = negb (RspOK r) ->
  (if decide (RspOperation r = OperationWatch) then True else unary_ok) ->
  checkStream (RspOperation r) (RspOK r) (RspStream r) sentRegistration (RspEvent r) (RspEndReason r) hasError = None <->
  if decide (RspOperation r = OperationWatch) then stream_ok else unary_ok.
Proof.
  intros -> Hun. unfold checkStream. destruct (decide (RspOperation r = OperationWatch)) as [Hw|Hw].
  - rewrite (bool_decide_true _ Hw). clear Hun. cbn [negb]. unfold stream_ok, sentRegistration.
    destruct (decide (RspStream r = [])) as [->|H0]; [change (bool_decide ([] = [])) with true; intuition done|].
    rewrite (bool_decide_false _ H0). cbn [negb].
    destruct (decide (RspStream r = StreamStarted)) as [->|H1].
    { change (bool_decide (StreamStarted = StreamStarted)) with true. cbv iota.
      destruct (RspOK r), (RspEvent r); cbn [negb orb andb]; try case_bool_decide; cbn [negb orb]; intuition done. }
    rewrite (bool_decide_false _ H1). destruct (decide (RspStream r = StreamEvent)) as [->|H2].
    { change (bool_decide (StreamEvent = StreamEvent)) with true. cbv iota.
      destruct (RspOK r), (RspEvent r); cbn [negb orb andb]; try case_bool_decide; cbn [negb orb]; intuition done. }
    rewrite (bool_decide_false _ H2). destruct (decide (RspStream r = StreamEnded)) as [->|H3].
    { change (bool_decide (StreamEnded = StreamEnded)) with true. cbv iota.
      destruct (RspOK r), (RspEvent r); cbn [negb orb andb]; try case_bool_decide; cbn [negb orb]; intuition done. }
    rewrite (bool_decide_false _ H3). intuition done.
  - unfold unary_ok in *. destruct Hun as (-> & Hrest). rewrite bool_decide_true by done. cbn [negb]. rewrite bool_decide_false by done. done.
Qed.

(** *** Decoding *)

Lemma decodeError_decides e : wire_error e ->
  decides (decodeError (RspOperation r) responseText (json_of ErrorType (errorValue e))) (errorValue e)
    (conforms e /\ schema_holds e = true /\ diagnostic_bounded e /\
     (asserted e -> RspOperation r = OperationAtomicBatch /\ len responseText < maxAssertionDiagnosticBytes)).
Proof.
  intros He. unfold decodeError. rewrite (decodeInto_roundtrip _ _ _ _ _ _ (error_roundtrip e He) eq_refl). cbn [mbind result_bind].
  pose proof (asserted_index e) as Ha. set (a := if errorAssertionIndex (errorValue e) then true else false) in *.
  eapply decides_iff.
  - apply decides_check; [by apply validateStructuredError_None|].
    apply decides_reject with (P := asserted e -> RspOperation r = OperationAtomicBatch).
    { rewrite <- Ha. destruct a; cbn [andb]; [|intuition done]. rewrite negb_false_iff, bool_decide_eq_true. intuition. }
    apply decides_reject with (P := asserted e -> len responseText < maxAssertionDiagnosticBytes); [|apply decides_ok].
    rewrite <- Ha. destruct a; cbn [andb]; [|intuition done]. rewrite Z.leb_gt. intuition.
  - tauto.
Qed.

Lemma decodeBody_decides :
  decides (decodeBody responseText responseJson (MaxFrameBytes HardLimits) (RspSchemaVersion r) (RspOK r) (RspRequestID r) (RspDatabaseID r)
     (RspOperation r) sentResult (RspStream r) sentRegistration sentEvent (RspEndReason r) sentFailure) arrivedResponse
    ((RspOK r = true <-> err = None) /\
     (if decide (RspOperation r = OperationWatch) then stream_ok else unary_ok) /\
     (forall x, RspResult r = Some x -> result_ok (RspOperation r) x) /\
     (forall e, RspEvent r = Some e -> event_ok e) /\
     (forall e, sentError = Some e -> conforms e /\ schema_holds e = true /\ diagnostic_bounded e /\
       (asserted e -> RspOperation r = OperationAtomicBatch /\ len responseText < maxAssertionDiagnosticBytes))).
Proof.
  unfold decodeBody.
  assert (match sentFailure with None | Some JNull => false | Some _ => true end = if err then true else false) as ->
    by (unfold sentFailure, sentError; by destruct err).
  assert (Herr : decides (match sentFailure with
    | None | Some JNull => Ok None
    | Some v => failure ← decodeError (RspOperation r) responseText v; Ok (Some failure)
    end) (errorValue <$> sentError) (forall e, sentError = Some e -> conforms e /\ schema_holds e = true /\ diagnostic_bounded e /\
      (asserted e -> RspOperation r = OperationAtomicBatch /\ len responseText < maxAssertionDiagnosticBytes))).
  { destruct (wp_error Hwire) as [_ He]. unfold sentFailure. destruct sentError as [e|]; [|done]. eapply decides_iff.
    - eapply decides_bind; [apply decodeError_decides; by apply He|apply decides_ok].
    - split; [by intros (? & _) ? [= <-]|]. intros Hall. split; [by apply Hall|done]. }
  assert (Hres : decides (decodeResult (RspOperation r) sentResult (MaxFrameBytes HardLimits)) (RspResult r)
    (forall x, RspResult r = Some x -> result_ok (RspOperation r) x)).
  { unfold sentResult. destruct (RspResult r) as [x|] eqn:Hx; [|done]. destruct (wp_result Hwire x Hx) as [Hw Ho].
    eapply decides_iff; [by apply decodeResult_decides|]. split; [by intros ? ? [= <-]|]. intros Hall. by apply Hall. }
  assert (Hev : decides (match sentEvent with None => Ok None | Some v => event ← decodeEvent v; Ok (Some event) end) (RspEvent r)
    (forall e, RspEvent r = Some e -> event_ok e)).
  { unfold sentEvent. destruct (RspEvent r) as [e|] eqn:He; [|done]. eapply decides_iff.
    - eapply decides_bind; [by apply decodeEvent_decides, (wp_event Hwire)|apply decides_ok].
    - split; [by intros (? & _) ? [= <-]|]. intros Hall. split; [by apply Hall|done]. }
  eapply decides_iff.
  - apply decides_reject_then; [reflexivity|intros H1]. apply decides_reject_then; [reflexivity|intros H2].
    apply decides_check_then; [apply checkPresence_None|intros H3].
    eapply decides_bind; [exact Herr|]. eapply decides_bind; [exact Hres|]. eapply decides_bind; [exact Hev|].
    apply decides_check_then; [apply checkStream_None|intros _].
    + by destruct (RspOK r), err.
    + by destruct (decide _).
    + assert (revisionValue sentRegistration = if bool_decide (RspStream r = StreamStarted) then RspRegistrationRevision r else 0) as ->
        by (unfold sentRegistration; by case_bool_decide).
      apply decides_ok.
  - assert (Hwatch : RspOperation r = OperationWatch -> RspResult r = None).
    { intros Hop. destruct (RspResult r) as [x|] eqn:Hx; [|done]. destruct (wp_result Hwire x Hx) as [_ Hfor]. by rewrite Hop in Hfor. }
    assert (Hout : RspOK r && (if err then true else false) = false /\ negb (RspOK r) && negb (if err then true else false) = false <->
      (RspOK r = true <-> err = None)) by (destruct (RspOK r), err; simpl; intuition done).
    rewrite <- Hout. destruct (decide _) as [Hop|Hop]; [specialize (Hwatch Hop)|]; tauto.
Qed.

Lemma DecodeResponse_decides : len responseText <= MaxFrameBytes HardLimits ->
  decides (DecodeResponse responseText (MaxFrameBytes HardLimits)) arrivedResponse coherent.
Proof.
  intros Hlen. destruct raw_roundtrip as (_ & Hread & Hdec & Hclean). rewrite <- responseJson_raw in Hread, Hdec, Hclean.
  unfold DecodeResponse. change ((_ <=? 0) || _) with false. cbv iota. replace (_ <? len _) with false by lia.
  rewrite (decodeStrict_reads _ responseJson) by done. rewrite Hdec. unfold sentEnvelope. rewrite (wp_version Hwire), Z.eqb_refl. cbn [negb].
  rewrite validOperation_name. eapply decides_iff.
  - apply decides_reject with (P := len (RspRequestID r) <= 256); [rewrite Z.ltb_ge; done|].
    apply decides_reject with (P := RspDatabaseID r <> []); [by rewrite bool_decide_eq_false|].
    rewrite <- (wp_version Hwire). apply decodeBody_decides.
  - split; [intros (? & ? & ? & ? & ? & ? & ?); by constructor|]. intros []. tauto.
Qed.

Lemma encode_exact :
  (coherent /\ len responseText <= MaxFrameBytes HardLimits ->
   EncodeResponse r = Ok responseText /\ DecodeResponse responseText (MaxFrameBytes HardLimits) = Ok arrivedResponse) /\
  (~ (coherent /\ len responseText <= MaxFrameBytes HardLimits) -> exists e, EncodeResponse r = Err e).
Proof.
  pose proof DecodeResponse_decides as Hdec. destruct typed_roundtrip as (Henc & _). fold responseJson in Henc. fold responseText in Henc.
  unfold EncodeResponse. rewrite (wp_version Hwire), Z.eqb_refl, Henc. cbn [negb].
  destruct (wp_error Hwire) as [Hfail _]. split.
  - intros [Hc Hlen]. specialize (Hdec Hlen). destruct (DecodeResponse _ _) as [x|] eqn:Hd; [destruct Hdec as [-> _]|done].
    pose proof (co_request Hc). replace (256 <? _) with false by lia. rewrite Hfail. replace (_ <? len responseText) with false by lia.
    pose proof (co_outcome Hc) as Hout. pose proof (co_error Hc) as Herr. unfold sentError in Herr.
    destruct err as [e|]; cbn [fmap option_fmap option_map andb negb] in *; [|by rewrite (proj2 Hout eq_refl)].
    destruct (RspOK r); [by destruct Hout as [Hout _]; specialize (Hout eq_refl)|]. cbn [negb].
    destruct (Herr _ eq_refl) as (_ & _ & _ & Ha). rewrite <- asserted_index, assertion_bounded in Ha.
    destruct (errorAssertionIndex (errorValue e)); [|done]. destruct Ha as [_ Hs]; [done|]. by replace (_ <=? len responseText) with false by lia.
  - intros Hn. repeat match goal with |- exists e, (if ?b then _ else _) = _ => destruct b eqn:?; [by eexists|] end.
    specialize (Hdec ltac:(lia)). destruct (DecodeResponse _ _) as [x|e] eqn:Hd; [|by exists e]. destruct Hdec as [_ Hc].
    destruct Hn. split; [done|lia].
Qed.

(** A coherent response that is too long is refused with its length. *)
Lemma encode_oversized : coherent -> MaxFrameBytes HardLimits < len responseText ->
  EncodeResponse r = Err (protocolFrameTooLarge (len responseText) (MaxFrameBytes HardLimits)).
Proof.
  intros Hc Hlen. destruct typed_roundtrip as (Henc & _). fold responseJson in Henc. fold responseText in Henc.
  unfold EncodeResponse. rewrite (wp_version Hwire), Z.eqb_refl, Henc. cbn [negb]. destruct (wp_error Hwire) as [Hfail _].
  pose proof (co_request Hc). replace (256 <? _) with false by lia. rewrite Hfail. pose proof (co_outcome Hc) as Hout.
  replace (_ <? len responseText) with true by lia.
  destruct err as [e|]; cbn [fmap option_fmap option_map andb negb] in *; [|by rewrite (proj2 Hout eq_refl)].
  destruct (RspOK r); [by destruct Hout as [Hout _]; specialize (Hout eq_refl)|done].
Qed.

(** C22: the response codec is exact.  A response that the wire can carry is
    encoded exactly when it is coherent and fits the largest frame: success and
    error exclude each other, a unary response has a result exactly when it
    succeeded, the fields of a watch fit its phase, the result fits the
    operation and its own rules, and the error has the retry class, the actions
    and the evidence of its code.  The decoder then returns the response that
    was encoded, with the key of an assertion's diagnostic cut to its bound. *)
Theorem response_codec_exact :
  (coherent /\ len responseText <= MaxFrameBytes HardLimits ->
   EncodeResponse r = Ok responseText /\ DecodeResponse responseText (MaxFrameBytes HardLimits) = Ok arrivedResponse) /\
  (~ (coherent /\ len responseText <= MaxFrameBytes HardLimits) -> exists e, EncodeResponse r = Err e).
Proof. exact encode_exact. Qed.
End envelope.

(** ** A response *)

Module SampleResponse.
Definition record : DBRecord := MkRecord (lit "workflows/1") (lit "state") 7 None.
Definition response : Response :=
  MkResponse 1 true (lit "go-1") (lit "0198f4d4f26a7b1ca3df00c30ca93e73") OperationGet (Some (GetResult record)) [] 0 None [] None.

Lemma carried : wire_response response None.
Proof.
  split; try done.
  intros x [= <-]. split; [|done]. split_and!; try done.
Qed.

Lemma sensible : coherent response None.
Proof.
  split; try done.
  - intros x [= <-]. split_and!; done.
Qed.
End SampleResponse.

Lemma response_codec_exact_witness :
  EncodeResponse SampleResponse.response = Ok (responseText SampleResponse.response) /\
  DecodeResponse (responseText SampleResponse.response) (MaxFrameBytes HardLimits) =
    Ok (arrivedResponse SampleResponse.response None).
Proof.
  apply (response_codec_exact SampleResponse.response None SampleResponse.carried).
  split; [exact SampleResponse.sensible|]. vm_compute. done.
Defined.
