(* ===== verification/ClientCodec.v ===== *)
(** * The client's reading of responses (gapdb/client_codec.go)

    Before a response is decoded into public types, [validateClientResponse]
    checks every part of it again, independently of the protocol package. *)

From stdpp Require Import base gmap list strings.
From Stdlib Require Import ZArith Lia.
From S2P Require Import Prelude.
From S2P Require Import Bytes.
From S2P Require Import Errors.
From S2P Require Import ApiTypes.
From S2P Require Import Json.
From S2P Require Import GoTime.
From S2P Require Import GoJson.
From S2P Require Import Frame.
From S2P Require Import Envelope.
From S2P Require Import ReadMany.
From S2P Require Import AdminResults.
From S2P Require Import WireErrors.
From S2P Require Import ClientErrors.
From S2P Require Import Responses.

Local Open Scope Z_scope.
Local Open Scope go_scope.

Definition clientSchemaVersion : Z := 1.

(** ** Operations and their required fields *)

Definition clientOperations : list Operation :=
  [OperationGet; OperationGetMany; OperationReadRecoverySnapshot; OperationPut; OperationPutIfAbsent;
   OperationCompareAndSwap; OperationDeleteIfRevision; OperationAtomicBatch; OperationScanPrefix;
   OperationWatch; OperationStatus; OperationHealth; OperationStats; OperationDescribeConfig; OperationVerify;
   OperationCreateSnapshot; OperationCompact; OperationBackup; OperationOfflineInspect;
   OperationOfflineVerify; OperationOfflineRecoverPropose; OperationOfflineRecoverApply].

(** [clientOperation]: the operation a text names. *)
Definition clientOperation (text : bytes) : option Operation :=
  snd <$> list_find (fun o => operationName o = text) clientOperations.

Definition clientRequiredFields (o : Operation) : list string :=
  match o with
  | OperationGet =>
      ["record"]
  | OperationGetMany =>
      ["observed_revision"; "as_of"; "entries"]
  | OperationPut =>
      ["revision"; "ack"; "durable_through_revision"]
  | OperationPutIfAbsent =>
      ["revision"; "ack"; "durable_through_revision"]
  | OperationCompareAndSwap =>
      ["revision"; "ack"; "durable_through_revision"]
  | OperationDeleteIfRevision =>
      ["revision"; "ack"; "durable_through_revision"]
  | OperationAtomicBatch =>
      ["revision"; "ack"; "durable_through_revision"; "mutation_count"]
  | OperationScanPrefix =>
      ["observed_revision"; "as_of"; "records"; "truncated"]
  | OperationStatus =>
      ["lifecycle"; "database_id"; "current_revision"; "durable_through_revision"; "reserved_revision_end";
       "snapshot_revision"; "active_wal_start"; "earliest_watch_revision"; "record_count"; "watch_count";
       "queue_depth"; "active_clients"; "limits"; "owner_pid"; "owner_started_at"; "snapshot_in_progress";
       "backup_in_progress"]
  | OperationHealth =>
      ["lifecycle"; "healthy"; "failing_subsystems"; "safe_actions"]
  | OperationStats =>
      ["schema_version"; "live_records"; "expired_records"; "approximate_value_bytes"; "commits";
       "condition_failures"; "wal_bytes"; "sync_count"; "sync_errors"; "watchers"; "lagged_watches";
       "clients"; "queue_depth"; "snapshot_duration_nanos"; "recovery_duration_nanos"]
  | OperationDescribeConfig =>
      ["effective"; "source"; "safe_ceilings"; "restart_required"]
  | OperationVerify =>
      ["mode"; "verified"; "database_id"; "manifest_generation"; "current_revision"; "snapshot_revision";
       "active_wal_start"; "checked_files"]
  | OperationCreateSnapshot =>
      ["revision"; "filename"; "checksum"; "new_wal_start"; "duration"]
  | OperationCompact =>
      ["before_revision"; "after_revision"; "removed"; "removed_count"; "skipped_count"; "paths_truncated";
       "directory_synced"]
  | OperationBackup =>
      ["database_id"; "revision"; "manifest_checksum"; "files"; "byte_count"; "verified"]
  | _ => []
  end%string.

(** ** Structs *)

Definition clientWireRecord : jtype :=
  TRequired [lit "key"; lit "value_base64"; lit "revision"]
    (TStruct [field "key" TString; field "value_base64" TBase64; field "revision" TRevision;
              omitempty "expires_at" (TPtr TInstant)]).
Definition clientGet : jtype := TStruct [field "record" clientWireRecord].
Definition clientEntry : jtype :=
  TStruct [field "key" TString; field "found" (TPtr TBool); omitempty "record" (TPtr clientWireRecord)].
Definition clientMany : jtype :=
  TStruct [field "observed_revision" TRevision; field "as_of" TInstant; field "entries" (TList clientEntry)].
Definition clientPage : jtype :=
  TStruct [field "observed_revision" TRevision; field "as_of" TInstant; field "records" (TList clientWireRecord);
           omitempty "cursor" TString; field "truncated" TBool].
Definition clientEvent : jtype :=
  TStruct [field "revision" TRevision; field "order" (TUint max_uint32); field "kind" TString; field "key" TString;
           omitempty "record" (TPtr clientWireRecord)].

(** [clientDecodeStrict] up to the type of the destination. *)
Definition clientDecodeStrict (payload : bytes) : result goerror jvalue :=
  reject bool_decide (payload = []) || negb (utf8_valid payload) with ErrText "empty or invalid UTF-8 JSON" ;;
  match json_decode payload with
  | None => Err (ErrText jsonReason)
  | Some (v, rest) =>
      reject negb (duplicateFree v) || negb (bool_decide (skip_space rest = [])) with ErrText jsonReason ;;
      Ok v
  end.

Definition clientDecode {A} (t : jtype) (of_value : gval -> option A) (v : jvalue) : result goerror A :=
  match go_decode t v (zero_value t) ≫= of_value with None => Err (ErrText jsonReason) | Some x => Ok x end.

Definition fails (b : bool) (message : string) : error := if b then Some (ErrText message) else None.

(** [clientWireRecord.validate]. *)
Definition clientRecordValid (r : DBRecord) : error :=
  try Mutation_Validate recordLimits (MkMutation MutationPut (RecKey r) anyCondition (Some (RecValue r)) None) ;;
  fails (RecRevision r =? 0) "record revision must be nonzero".

(** ** Results *)

(** Before anything is decoded: the members that must be there. *)
Definition clientPresence (o : Operation) (v : jvalue) : error :=
  match clientRequiredFields o with
  | [] => None
  | required =>
      match objectMembers v with
      | None => Some (ErrText jsonReason)
      | Some ms =>
          if negb (bool_decide (o = OperationAtomicBatch)) && (if member ms "assertion_count" then true else false)
          then Some (ErrText "assertion_count is invalid outside atomic_batch")
          else match list_find (fun name => member ms name = None) required with
          | Some (_, name) => Some (ErrText (String.append "result field is required: " name))
          | None => None
          end
      end
  end.

(** The loop over the entries of a batched read. *)
Fixpoint clientEntries (seen : list bytes) (entries : list (bytes * option bool * option DBRecord)) :
    result goerror (list ReadManyEntry) :=
  match entries with
  | [] => Ok []
  | (key, found, record) :: entries =>
      match found with
      | None => Err (ErrText "read-many entry presence is invalid")
      | Some found =>
          reject bool_decide (key = []) || negb (Bool.eqb found (if record then true else false))
            with ErrText "read-many entry presence is invalid" ;;
          reject bool_decide (key ∈ seen) with ErrText "read-many entry keys are not unique" ;;
          check match record with
            | Some record =>
                try clientRecordValid record ;;
                fails (negb (bool_decide (RecKey record = key))) "read-many record does not match entry key"
            | None => None
            end ;;
          rest ← clientEntries (key :: seen) entries;
          Ok (MkReadManyEntry key found record :: rest)
      end
  end.

(** The values of the records are copies by [append([]byte(nil), ...)]: an
    empty one is [nil], which is written as [null]. *)
Definition clientRecordValue (r : DBRecord) : gval :=
  GStruct [GString (RecKey r); GBytes (if bool_decide (RecValue r = []) then None else Some (RecValue r)); GNum (RecRevision r);
           timeValue (RecExpiresAt r)].
Definition clientEntryValue (e : ReadManyEntry) : gval :=
  GStruct [GString (EntryKey e); GBool (EntryFound e); GPtr (clientRecordValue <$> EntryRecord e)].
Definition clientManyValue (r : ReadManyResult) : gval :=
  GStruct [GNum (ManyObserved r); GTime (ManyAsOf r); sliceValue clientEntryValue (ManyEntries r)].

Definition clientManyValid (v : jvalue) (limits : Limits) : error :=
  match clientDecode clientMany wireManyOf v with
  | Err e => Some e
  | Ok (observed, asOf, wire) =>
      if bool_decide (wire = []) then Some (ErrText "read-many entries are required")
      else match clientEntries [] wire with
      | Err e => Some e
      | Ok entries =>
          let result := MkReadManyResult observed asOf entries in
          validateEncodedMany result (go_encode ReadManyResultType (clientManyValue result)) limits
      end
  end.

Fixpoint clientRecordsValid (previous : option bytes) (records : list DBRecord) : error :=
  match records with
  | [] => None
  | record :: records =>
      try clientRecordValid record ;;
      try fails (match previous with Some key => bytes_leb (RecKey record) key | None => false end)
            "scan records are not strictly sorted" ;;
      clientRecordsValid (Some (RecKey record)) records
  end.

Definition clientPageValid (v : jvalue) : error :=
  match clientDecode clientPage pageOf v with
  | Err e => Some e
  | Ok page =>
      try clientRecordsValid None (PageRecords page) ;;
      fails (negb (Bool.eqb (PageTruncated page) (negb (bool_decide (PageCursor page = [])))))
        "scan cursor presence is inconsistent"
  end.

Definition clientLifecycle (text : bytes) : bool :=
  bool_decide (text ∈ ((fun l => lit (lifecycleText l)) <$>
    [LifecycleReady; LifecycleDegradedReadOnly; LifecycleDraining; LifecycleInspectionOnly])).

Definition clientMutationValid (r : MutationResult) : error :=
  fails ((ResRevision r =? 0) || negb (AckMode_Valid (ResAck r)) || (ResRevision r <? ResDurableThrough r)
         || (bool_decide (ackText (ResAck r) = ackText AckDurable) && (ResDurableThrough r <? ResRevision r))
         || (ResMutationCount r <? 0) || (ResAssertionCount r <? 0)) "mutation acknowledgement is invalid".

Definition clientStatusValid (r : StatusResult) : error :=
  try fails (negb (clientLifecycle (StatLifecycle r)) || bool_decide (StatDatabaseID r = []) || (StatOwnerPID r <=? 0)
             || bool_decide (StatOwnerStartedAt r = []) || limitsInvalid (StatLimits r)) "status result is invalid" ;;
  fails (if parseCanonicalUTC (StatOwnerStartedAt r) then false else true) "owner_started_at is invalid".

Definition clientHealthValid (r : HealthResult) : error :=
  fails (negb (clientLifecycle (HealthLifecycle r)) || bool_decide (HealthFailingSubsystems r = None)
         || bool_decide (HealthSafeActions r = None)) "health result is invalid".

Definition clientStatsValid (r : StatsResult) : error :=
  fails (negb (StatsSchemaVersion r =? 1) || (StatsLiveRecords r <? 0) || (StatsExpiredRecords r <? 0)
         || (StatsWatchers r <? 0) || (StatsClients r <? 0) || (StatsQueueDepth r <? 0)) "stats result is invalid".

Definition clientConfigValid (r : ConfigResult) : error :=
  fails (negb (bool_decide (CrSource r ∈ [lit "default"; lit "file"; lit "flag"])) || limitsInvalid (CvLimits (CrEffective r))
         || negb (MaxFrameBytes (CrSafeCeilings r) =? MaxFrameBytes HardLimits)) "config result is invalid".

Definition clientVerifyValid (r : VerifyResult) : error :=
  fails (negb (bool_decide (VerMode r ∈ [lit "sampled"; lit "full"])) || negb (VerVerified r)
         || bool_decide (VerDatabaseID r = []) || (VerManifestGeneration r =? 0) || bool_decide (VerCheckedFiles r = None))
    "verify result is invalid".

Definition clientSnapshotValid (r : WireSnapshotResult) : error :=
  fails (bool_decide (WsnFilename r = []) || bool_decide (WsnChecksum r = []) || (WsnRevision r =? max_uint64)
         || negb (WsnNewWALStart r =? WsnRevision r + 1) || (WsnDuration r <? 0)) "snapshot result is invalid".

Definition clientCompactionValid (r : WireCompactionResult) : error :=
  fails (bool_decide (WcoRemoved r = None) || (WcoRemovedCount r <? len (default [] (WcoRemoved r)))
         || (WcoSkippedCount r <? 0) || negb (WcoDirectorySynced r)) "compaction result is invalid".

Fixpoint clientFilesValid (previous : option bytes) (total : Z) (files : list BackupFile) : result goerror Z :=
  match files with
  | [] => Ok total
  | file :: files =>
      reject bool_decide (BfName file = []) || (BfSize file <? 0) || bool_decide (BfSHA256 file = [])
             || match previous with Some name => bytes_leb (BfName file) name | None => false end
        with ErrText "backup file list is invalid" ;;
      clientFilesValid (Some (BfName file)) (wrap_i64 (total + BfSize file)) files
  end.

Definition clientBackupValid (r : BackupResult) : error :=
  try fails (bool_decide (BrDatabaseID r = []) || bool_decide (BrManifestChecksum r = []) || bool_decide (BrFiles r = None)
             || (BrByteCount r <? 0) || negb (BrVerified r)) "backup result is invalid" ;;
  match clientFilesValid None 0 (default [] (BrFiles r)) with
  | Err e => Some e
  | Ok total => fails (negb (total =? BrByteCount r)) "backup byte count is invalid"
  end.

Definition clientChecked {A} (t : jtype) (of_value : gval -> option A) (valid : A -> error) (v : jvalue) : error :=
  match clientDecode t of_value v with Err e => Some e | Ok x => valid x end.

Definition validateClientResult (o : Operation) (v : jvalue) (limits : Limits) : error :=
  try clientPresence o v ;;
  match o with
  | OperationGet => clientChecked clientGet getOf clientRecordValid v
  | OperationGetMany => clientManyValid v limits
  | OperationPut | OperationPutIfAbsent | OperationCompareAndSwap | OperationDeleteIfRevision | OperationAtomicBatch =>
      clientChecked MutationResultType mutationResultOf clientMutationValid v
  | OperationScanPrefix => clientPageValid v
  | OperationStatus => clientChecked StatusResultType statusResultOf clientStatusValid v
  | OperationHealth => clientChecked HealthResultType healthResultOf clientHealthValid v
  | OperationStats => clientChecked StatsResultType statsResultOf clientStatsValid v
  | OperationDescribeConfig => clientChecked ConfigResultType configResultOf clientConfigValid v
  | OperationVerify => clientChecked VerifyResultType verifyResultOf clientVerifyValid v
  | OperationCreateSnapshot => clientChecked WireSnapshotResultType wireSnapshotResultOf clientSnapshotValid v
  | OperationCompact => clientChecked WireCompactionResultType wireCompactionResultOf clientCompactionValid v
  | OperationBackup => clientChecked BackupResultType backupResultOf clientBackupValid v
  | _ => Some (ErrText "operation has no client result schema")
  end.

(** ** Events and responses *)

Definition validateClientEvent (v : jvalue) : error :=
  match clientDecode clientEvent eventOf v with
  | Err e => Some e
  | Ok event =>
      try fails (EvtRevision event =? 0) "event revision must be nonzero" ;;
      match EvtKind event with
      | ChangePut =>
          match EvtRecord event with
          | Some record =>
              try fails (negb (bool_decide (RecKey record = EvtKey event)) || negb (RecRevision record =? EvtRevision event))
                    "put event record must match event" ;;
              clientRecordValid record
          | None => Some (ErrText "put event record must match event")
          end
      | ChangeDelete | ChangeExpire =>
          fails (if EvtRecord event then true else false) "delete/expire event cannot contain record"
      | ChangeUnknown _ => Some (ErrText "event kind is invalid")
      end
  end.

Definition clientFailure (o : Operation) (payload : bytes) (v : jvalue) : error :=
  match clientDecode ErrorType Some v with
  | Err e => Some e
  | Ok remote =>
      let asserted := if errorAssertionIndex remote then true else false in
      try validateRemoteErrorRaw remote v ;;
      try fails (asserted && negb (bool_decide (o = OperationAtomicBatch))) "assertion_index is invalid outside atomic_batch" ;;
      fails (asserted && (clientAssertionDiagnosticBytes <=? len payload)) "assertion diagnostic exceeds its safe bound"
  end.

(** The frames of a watch. *)
Definition clientStream (has : string -> bool) (ok : bool) (stream : bytes) (registration : option gval) (event : option jvalue)
    (reason : bytes) : error :=
  let registered := if registration then true else false in
  try fails (has "result"%string) "watch result must be omitted" ;;
  if bool_decide (stream = lit "started") then
    fails (negb ok || negb registered || has "event"%string || has "reason"%string || has "error"%string) "invalid watch started frame"
  else if bool_decide (stream = lit "event") then
    try fails (negb ok || registered || negb (has "event"%string) || has "reason"%string || has "error"%string) "invalid watch event frame" ;;
    match event with Some v => validateClientEvent v | None => Some (ErrText jsonReason) end
  else if bool_decide (stream = lit "ended") then
    try fails (registered || has "event"%string) "invalid watch ended frame" ;;
    if ok then fails (negb (bool_decide (reason ∈ [reasonText WatchEndedByClient; reasonText WatchEndedByShutdown])))
                 "normal watch end reason is invalid"
    else fails (negb (bool_decide (reason = reasonText WatchEndedByError))) "error watch end reason is invalid"
  else Some (ErrText "watch stream kind is invalid").

Definition clientUnary (has : string -> bool) (o : Operation) (ok : bool) (result : option jvalue) (limits : Limits) : error :=
  try fails (has "stream"%string || has "registration_revision"%string || has "event"%string || has "reason"%string)
        "watch fields are invalid for unary response" ;;
  if ok then
    try fails (negb (has "result"%string)) "successful unary result is required" ;;
    match result with Some v => validateClientResult o v limits | None => Some (ErrText jsonReason) end
  else fails (has "result"%string) "failed unary result must be omitted".

Definition validateClientResponse (payload : bytes) (limits : Limits) : error :=
  let t := responseEnvelope TRaw TRaw TRaw in
  match clientDecodeStrict payload with
  | Err e => Some e
  | Ok v =>
      match go_decode t v (zero_value t) with
      | Some (GStruct [GPtr version; GPtr ok; GString requestID; GString databaseID; GString operation; GRaw result;
                       GString stream; GPtr registration; GRaw event; GString reason; GRaw failure]) =>
          match version, ok, clientOperation operation with
          | Some (GNum version), Some (GBool ok), Some o =>
              try fails (negb (version =? clientSchemaVersion) || bool_decide (databaseID = []) || (256 <? len requestID))
                    "response envelope is incomplete" ;;
              let has := objectHasNonNullField v in
              let hasError := has "error"%string in
              try fails (Bool.eqb ok hasError) "response ok/error presence is inconsistent" ;;
              try (if hasError then match failure with Some v => clientFailure o payload v | None => Some (ErrText jsonReason) end
                   else None) ;;
              if bool_decide (o = OperationWatch) then clientStream has ok stream registration event reason
              else clientUnary has o ok result limits
          | _, _, _ => Some (ErrText "response envelope is incomplete")
          end
      | _ => Some (ErrText jsonReason)
      end
  end.
