(* ===== verification/ClientAccept.v ===== *)
(** * The client accepts what the server sends

    A coherent response passes all of the client's checks exactly when its
    result passes the few that only the client makes ([client_accepts_exact]). *)

From stdpp Require Import base gmap list strings.
From Stdlib Require Import ZArith Lia Sorted.
From S2P Require Import Prelude.
From S2P Require Import Bytes.
From S2P Require Import Errors.
From S2P Require Import ApiTypes.
From S2P Require Import Json.
From S2P Require Import GoTime.
From S2P Require Import GoJson.
From S2P Require Import Frame.
From S2P Require Import Envelope.
From S2P Require Import Requests.
From S2P Require Import ReadMany.
From S2P Require Import AdminResults.
From S2P Require Import WireErrors.
From S2P Require Import ClientErrors.
From S2P Require Import Responses.
From S2P Require Import ResultCodec.
From S2P Require Import ResponseCodec.
From S2P Require Import ClientCodec.

Local Open Scope Z_scope.
Local Open Scope go_scope.

Lemma clientOperation_name o : clientOperation (operationName o) = Some o.
Proof. destruct o; vm_compute; reflexivity. Qed.

Lemma required_agree o : clientRequiredFields o = requiredFields o.
Proof. by destruct o. Qed.

Lemma strict_agree payload v : clientDecodeStrict payload = Ok v <-> decodeStrict payload = Ok v.
Proof. unfold clientDecodeStrict, decodeStrict. destruct (bool_decide (payload = [])), (utf8_valid payload); simpl; done. Qed.

Lemma fails_None b message : fails b message = None <-> b = false.
Proof. by destruct b. Qed.

(** ** Results *)

(** What only the client asks of a result: the states of the database that it
    knows, a canonical start of the owner, a count that is not negative, and a
    batched read within its own limits. *)
Definition client_result_ok (limits : Limits) (r : Result) : Prop :=
  match r with
  | ManyResult m => validateEncodedMany m (go_encode ReadManyResultType (clientManyValue m)) limits = None
  | StatusRes x => clientLifecycle (StatLifecycle x) = true /\ parseCanonicalUTC (StatOwnerStartedAt x) <> None
  | HealthRes x => clientLifecycle (HealthLifecycle x) = true
  | StatsRes x => 0 <= StatsExpiredRecords x
  | _ => True
  end.

Lemma clientDecode_roundtrip {A} n t (of_value : gval -> option A) g x : roundtrips n t g -> of_value g = Some x ->
  clientDecode t of_value (json_of t g) = Ok x.
Proof. intros (_ & _ & Hd & _) Hx. unfold clientDecode. rewrite Hd. cbn [mbind option_bind]. by rewrite Hx. Qed.

Lemma clientChecked_roundtrip {A} n t (of_value : gval -> option A) valid g x : roundtrips n t g -> of_value g = Some x ->
  clientChecked t of_value valid (json_of t g) = valid x.
Proof. intros Hr Hx. unfold clientChecked. by rewrite (clientDecode_roundtrip n t of_value g x). Qed.

Lemma clientRecordValid_None r : clientRecordValid r = None <-> record_ok r.
Proof.
  unfold clientRecordValid. pose proof (Mutation_Validate_None recordLimits
    (MkMutation MutationPut (RecKey r) anyCondition (Some (RecValue r)) None)) as Hm.
  change (mutation_wf _ _) with (key_wf HardLimits (RecKey r) /\ 0 = 0 /\ len (RecValue r) <= MaxValueBytes HardLimits) in Hm.
  unfold record_ok. destruct (Mutation_Validate _ _).
  - split; [done|]. intros (? & ? & ?). destruct Hm as [_ Hm]. by discriminate Hm.
  - rewrite fails_None, Z.eqb_neq. destruct Hm as [Hm _]. specialize (Hm eq_refl). tauto.
Qed.

(** The entries pass when the result is valid under any limits. *)
Lemma clientEntries_complete limits observed asOf seen l : validateReadManyEntries limits observed asOf seen l = None ->
  Forall entry_record_ok l -> clientEntries seen (arrivedEntry <$> l) = Ok l.
Proof.
  intros Hv Hl. revert seen Hv. induction Hl as [|[key found record] l Hr _ IH]; intros seen; [done|].
  rewrite fmap_cons. cbn [validateReadManyEntries clientEntries arrivedEntry EntryKey EntryFound EntryRecord].
  destruct (Mutation_Validate _ _) eqn:Hm; [done|]. apply Mutation_Validate_None in Hm as [(Hne & _) _]. cbn [MutKey] in Hne.
  rewrite (bool_decide_false _ Hne). cbn [orb]. case_bool_decide; [done|].
  destruct (negb _); [done|]. destruct record as [r|]; [|intros Hv; by rewrite (IH _ Hv)].
  unfold entry_record_ok in Hr. cbn [EntryRecord] in Hr. apply clientRecordValid_None in Hr as ->.
  destruct (negb (bool_decide _)); [done|]. cbn [orb fails].
  destruct (_ || _); [done|]. destruct (match RecExpiresAt r with Some _ => _ | None => _ end); [done|].
  intros Hv. by rewrite (IH _ Hv).
Qed.

Lemma clientMany_accepts m limits : wire_many m -> many_ok m ->
  clientManyValid (json_of ReadManyResultType (readManyValue m)) limits =
  validateEncodedMany m (go_encode ReadManyResultType (clientManyValue m)) limits.
Proof.
  intros Hw [Hv Hall]. apply ValidateReadManyResult_entries in Hv as [Hne Hv]. rewrite many_json. unfold clientManyValid. change clientMany with wireMany.
  rewrite (clientDecode_roundtrip _ _ _ _ _ (roundtrips_wireMany 0 m Hw) (wireManyOf_value m)).
  rewrite bool_decide_false by (by destruct (ManyEntries m)). rewrite (clientEntries_complete _ _ _ _ _ Hv Hall). by destruct m.
Qed.

Lemma clientRecordsValid_None previous l : clientRecordsValid previous l = None <->
  Forall record_ok l /\ Sorted bytes_lt (option_list previous ++ (RecKey <$> l)).
Proof.
  revert previous. induction l as [|r l IH]; intros previous; cbn [clientRecordsValid].
  { split; [intros _|done]. split; [done|]. destruct previous; repeat constructor. }
  pose proof (clientRecordValid_None r) as Hr. rewrite Forall_cons, fmap_cons. destruct (clientRecordValid r).
  { split; [done|]. intros [[Hok _] _]. by apply Hr in Hok. }
  destruct previous as [k|]; [|cbn [fails]; rewrite IH; simpl; tauto]. simpl option_list. cbn [app]. rewrite Sorted_two.
  pose proof (bytes_leb_false (RecKey r) k) as Hle. destruct (bytes_leb (RecKey r) k).
  { split; [done|]. intros (_ & Hlt & _). by apply Hle in Hlt. }
  cbn [fails]. rewrite IH. simpl. tauto.
Qed.

Lemma clientPage_accepts p : wire_result (PageResult p) -> page_ok p ->
  clientPageValid (json_of ScanPageType (pageValue p)) = None.
Proof.
  intros (Ho & Ht & Hr & Hc) (Hall & Hs%StronglySorted_Sorted & Hcur). rewrite page_json. unfold clientPageValid. change clientPage with wirePage.
  rewrite (clientDecode_roundtrip _ _ _ _ _ (roundtrips_wirePage 0 p Ho Ht Hr Hc) (pageOf_value p)).
  rewrite (proj2 (clientRecordsValid_None None (PageRecords p))) by done. apply fails_None.
  rewrite negb_false_iff, Bool.eqb_true_iff. case_bool_decide; destruct (PageTruncated p); simpl; intuition congruence.
Qed.

Lemma clientMutation_accepts o m : AckMode_Valid (ResAck m) = true -> mutation_ok o m -> clientMutationValid m = None.
Proof.
  intros Hv (Hr & Hd & Hdur & Hm & Ha & _). unfold clientMutationValid. rewrite fails_None, Hv. cbn [negb].
  replace (ResRevision m =? 0) with false by lia. replace (ResRevision m <? _) with false by lia.
  replace (_ <? 0) with false by lia. replace (_ <? 0) with false by lia. rewrite !orb_false_r. cbn [orb].
  apply andb_false_iff. destruct (ResAck m); [by left|right; specialize (Hdur eq_refl); lia|done].
Qed.

Lemma clientFiles_agree previous total files :
  match checkBackupFiles previous total files, clientFilesValid previous total files with
  | Ok a, Ok b => a = b
  | Err _, Err _ => True
  | _, _ => False
  end.
Proof.
  revert previous total. induction files as [|file files IH]; intros previous total; cbn [checkBackupFiles clientFilesValid]; [done|].
  destruct (_ || _); [done|]. apply IH.
Qed.

Lemma clientBackup_accepts b : checkBackup b = None -> clientBackupValid b = None.
Proof.
  unfold checkBackup, clientBackupValid. destruct (_ || _); [done|]. cbn [fails].
  pose proof (clientFiles_agree None 0 (default [] (BrFiles b))) as Hf.
  destruct (checkBackupFiles _ _ _), (clientFilesValid _ _ _); try done. subst. by destruct (negb _).
Qed.

(** The members that are required are there when the server's decoder takes
    the result. *)
Lemma clientPresence_accepts o v maximum r : requiredFields o <> [] -> decodeResult o (Some v) maximum = Ok r ->
  clientPresence o v = None.
Proof.
  intros Hne. unfold clientPresence. rewrite required_agree. unfold decodeResult, requireResultFields, objectHasField, objectMember.
  destruct (requiredFields o) as [|first rest]; [done|]. destruct v as [| | | | |ms raw]; cbn [objectMembers]; try done;
    destruct (list_find _ _) as [[i name]|]; try done; by destruct (negb (bool_decide _) && _).
Qed.

Lemma client_result_accepts o r limits : result_for o r -> wire_result r -> result_ok o r ->
  validateClientResult o (json_of (resultType r) (normalizeResult r)) limits = None <-> client_result_ok limits r.
Proof.
  intros Ho Hw Hok. assert (Hr := result_roundtrip r Hw). pose proof (decodeResult_decides o r Ho Hw) as Hdec.
  assert (clientPresence o (json_of (resultType r) (normalizeResult r)) = None) as Hpres.
  { destruct (decodeResult _ _ _) eqn:Hd; [|by destruct Hdec]. eapply clientPresence_accepts; [|exact Hd].
    clear -Ho. intros Hn. destruct o, r; first [exact Ho|discriminate Hn]. }
  unfold validateClientResult. rewrite Hpres. clear Hdec Hpres.
  destruct o, r; first [exfalso; exact Ho|idtac]; cbn [resultType normalizeResult result_ok client_result_ok wire_result] in *.
  all: try (rewrite (clientChecked_roundtrip _ MutationResultType mutationResultOf clientMutationValid _ _ Hr
    (mutationResultOf_value _ (proj2 (proj2 (proj2 (proj2 Hw)))))); rewrite (clientMutation_accepts _ _ (proj2 (proj2 (proj2 (proj2 Hw)))) Hok); tauto).
  - change (json_of _ _) with (json_of clientGet (GStruct [recordValue record])).
    rewrite (clientChecked_roundtrip 2 clientGet getOf clientRecordValid (GStruct [recordValue record]) record);
      [|change clientGet with wireGet; unfold wireGet; wire_fields|apply recordOf_value].
    split; [done|]. intros _. by apply clientRecordValid_None.
  - by rewrite clientMany_accepts.
  - split; [done|]. intros _. by apply clientPage_accepts.
  - rewrite (clientChecked_roundtrip _ _ _ _ _ _ Hr (statusResult_of_value _)). revert Hok. unfold checkStatus, clientStatusValid.
    destruct (clientLifecycle _); cbn [negb orb]; [|intros _; split; [done|by intros [? _]]]. destruct (_ || _); [done|]. intros _. cbn [fails].
    destruct (parseCanonicalUTC _); simpl; intuition congruence.
  - rewrite (clientChecked_roundtrip _ _ _ _ _ _ Hr (healthResult_of_value _)). revert Hok. unfold checkHealth, clientHealthValid.
    destruct (clientLifecycle _); cbn [negb orb]; [|done]. by destruct (_ || _).
  - rewrite (clientChecked_roundtrip _ _ _ _ _ _ Hr (statsResult_of_value _)). revert Hok. unfold checkStats, clientStatsValid.
    rewrite fails_None. destruct (_ || _ || _ || _ || _) eqn:Hb; [done|]. intros _. go_bool. lia.
  - rewrite (clientChecked_roundtrip _ _ _ _ _ _ Hr (configResult_of_value _)). revert Hok. unfold checkConfig, clientConfigValid.
    by destruct (_ || _).
  - rewrite (clientChecked_roundtrip _ _ _ _ _ _ Hr (verifyResult_of_value _)). revert Hok. unfold checkVerify, clientVerifyValid.
    by destruct (_ || _).
  - rewrite (clientChecked_roundtrip _ _ _ _ _ _ Hr (wireSnapshotResult_of_value _)). revert Hok. unfold checkSnapshot, clientSnapshotValid.
    by destruct (_ || _).
  - rewrite (clientChecked_roundtrip _ _ _ _ _ _ Hr (wireCompactionResult_of_value _)). revert Hok. unfold checkCompaction, clientCompactionValid.
    by destruct (_ || _).
  - rewrite (clientChecked_roundtrip _ _ _ _ _ _ Hr (backupResult_of_value _)). split; [done|]. intros _. by apply clientBackup_accepts.
Qed.

(** ** Events and errors *)

Lemma clientEvent_accepts e : wire_event e -> event_ok e -> validateClientEvent (json_of ChangeEventType (eventValue e)) = None.
Proof.
  intros Hw [Hrev Hkind]. destruct (event_roundtrips 0 e Hw) as (_ & Hr & ->). unfold validateClientEvent. change clientEvent with wireEvent.
  rewrite (clientDecode_roundtrip _ _ _ _ _ Hr (eventOf_value e Hw)). rewrite (proj2 (fails_None _ _)) by lia.
  destruct Hw as (_ & _ & _ & Hc & _). destruct (EvtKind e); [|by rewrite Hkind..|done].
  destruct Hkind as (record & -> & Hok & -> & ->). rewrite bool_decide_true, Z.eqb_refl by done. by apply clientRecordValid_None.
Qed.

Lemma clientFailure_accepts o payload e : wire_error e -> conforms e -> schema_holds e = true -> diagnostic_bounded e ->
  (asserted e -> o = OperationAtomicBatch /\ len payload < maxAssertionDiagnosticBytes) ->
  clientFailure o payload (json_of ErrorType (errorValue e)) = None.
Proof.
  intros He Hc Hs Hb Ha. unfold clientFailure. pose proof (error_roundtrip e He) as Hr.
  rewrite (clientDecode_roundtrip _ _ _ _ _ Hr eq_refl). destruct Hr as (_ & _ & Hd & _ & Hdup).
  rewrite (proj2 (remote_checks _ _ Hd Hdup)); [|by apply validateStructuredError_None].
  rewrite <- asserted_index in Ha. destruct (if errorAssertionIndex _ then _ else _); [|done].
  destruct Ha as [-> Hlen]; [done|]. change clientAssertionDiagnosticBytes with maxAssertionDiagnosticBytes. rewrite bool_decide_true by done. cbn [negb andb fails].
  by replace (_ <=? len payload) with false by lia.
Qed.

(** ** Responses *)

Section accepts.
Variables (r : Response) (err : option Error) (limits : Limits).
Hypothesis Hwire : wire_response r err.
Hypothesis Hcoherent : coherent r err.

Let has := objectHasNonNullField (responseJson r).

Lemma has_members :
  has "result" = (if RspResult r then true else false) /\ has "stream" = negb (bool_decide (RspStream r = [])) /\
  has "registration_revision" = bool_decide (RspStream r = StreamStarted) /\
  has "event" = (if RspEvent r then true else false) /\ has "reason" = negb (bool_decide (RspEndReason r = [])) /\
  has "error" = (if err then true else false).
Proof.
  unfold has. split_and!.
  - by eapply result_present.
  - by eapply (present_text r err Hwire 6).
  - by eapply registration_present.
  - by eapply (present_raw r err Hwire 8 _ (fun e => json_of ChangeEventType (eventValue e))).
  - by eapply (present_text r err Hwire 9).
  - rewrite (present_raw r err Hwire 10 "error" (fun e => json_of ErrorType (errorValue e)) (sentError err)) by done.
    unfold sentError. by destruct err.
Qed.

Lemma clientStream_accepts : RspOperation r = OperationWatch ->
  clientStream has (RspOK r) (RspStream r) (sentRegistration r) (sentEvent r) (RspEndReason r) = None.
Proof.
  intros Hop. destruct Hcoherent as [_ _ Hout Hshape _ Hev _]. rewrite decide_True in Hshape by done.
  destruct has_members as (Hres & _ & _ & Hhe & Hhr & Hherr). unfold clientStream. rewrite Hres, Hhe, Hhr, Hherr.
  assert (RspResult r = None) as ->.
  { destruct (RspResult r) as [x|] eqn:Hx; [|done]. destruct (wp_result _ _ Hwire x Hx) as [_ Hfor]. by rewrite Hop in Hfor. }
  unfold sentRegistration, sentEvent. cbn [fails].
  destruct Hshape as [(-> & Hok & He & Hreason)|[(-> & Hok & He & Hreason)|(-> & He & Hreason)]].
  - rewrite He, Hreason, Hok, (proj1 Hout Hok). done.
  - rewrite Hreason, Hok, (proj1 Hout Hok). destruct (RspEvent r) as [e|] eqn:Hx; [|done]. cbn.
    apply clientEvent_accepts; [by apply (wp_event _ _ Hwire)|by apply Hev].
  - rewrite He. destruct (RspOK r); [by rewrite (bool_decide_true _ Hreason)|by rewrite Hreason].
Qed.

Lemma clientUnary_accepts : RspOperation r <> OperationWatch ->
  clientUnary has (RspOperation r) (RspOK r) (sentResult r) limits = None <->
  forall x, RspResult r = Some x -> client_result_ok limits x.
Proof.
  intros Hop. destruct Hcoherent as [_ _ _ Hshape Hok _ _]. rewrite decide_False in Hshape by done.
  destruct Hshape as (Hs & He & Hreason & Hres). destruct has_members as (Hhres & Hhs & Hhreg & Hhe & Hhr & _).
  unfold clientUnary. rewrite Hhres, Hhs, Hhreg, Hhe, Hhr, Hs, He, Hreason. cbn [fails]. unfold sentResult.
  destruct (RspResult r) as [x|] eqn:Hx.
  - rewrite (proj2 Hres) by done. destruct (wp_result _ _ Hwire x Hx) as [Hw Hfor]. cbn [negb fails fmap option_fmap option_map].
    change (fails _ _) with (@None goerror). cbv iota. rewrite client_result_accepts by auto. split; [by intros ? ? [= <-]|]. intros Hall. by apply Hall.
  - destruct (RspOK r); [destruct Hres as [Hres _]; by destruct (Hres eq_refl)|]. by split.
Qed.

Lemma client_accepts :
  validateClientResponse (responseText r) limits = None <-> forall x, RspResult r = Some x -> client_result_ok limits x.
Proof.
  destruct (raw_roundtrip r err Hwire) as (_ & Hread & Hdec & Hclean). rewrite <- (responseJson_raw r err Hwire) in Hread, Hdec, Hclean.
  unfold validateClientResponse. rewrite (proj2 (strict_agree (responseText r) (responseJson r))) by (by apply decodeStrict_reads).
  rewrite Hdec. unfold sentEnvelope. rewrite clientOperation_name, (wp_version _ _ Hwire).
  destruct Hcoherent as [Hid Hdb Hout _ _ _ Herr]. rewrite (bool_decide_false _ Hdb). replace (256 <? _) with false by lia.
  change (negb (SchemaVersion =? clientSchemaVersion) || false || false) with false. cbn [fails]. cbv zeta. fold has.
  destruct has_members as (_ & _ & _ & _ & _ & ->).
  assert (Bool.eqb (RspOK r) (if err then true else false) = false) as -> by (destruct (RspOK r), err; simpl; intuition done).
  cbn [fails].
  assert ((if if err then true else false then match sentFailure err with Some v => clientFailure (RspOperation r) (responseText r) v | None => Some (ErrText jsonReason) end
    else None) = None) as ->.
  { destruct (wp_error _ _ Hwire) as [_ He]. unfold sentFailure, sentError in *. destruct err as [e|]; [|done].
    cbn [fmap option_fmap option_map] in *. destruct (Herr _ eq_refl) as (? & ? & ? & ?). by apply clientFailure_accepts; auto. }
  destruct (decide (RspOperation r = OperationWatch)) as [Hop|Hop].
  - rewrite (bool_decide_true _ Hop). rewrite clientStream_accepts by done. split; [|done]. intros _ x Hx.
    destruct (wp_result _ _ Hwire x Hx) as [_ Hfor]. by rewrite Hop in Hfor.
  - rewrite (bool_decide_false _ Hop). by apply clientUnary_accepts.
Qed.

(** C24: the client accepts the responses of the server.  A coherent response
    passes every check that the client repeats on what arrives (structure,
    members, results, events, errors) exactly when its result also passes the
    checks that only the client makes: a known lifecycle and a canonical start
    time in a status, a known lifecycle in a health report, a count of expired
    records that is not negative, and a batched read within the client's own
    limits. *)
Theorem client_accepts_exact :
  validateClientResponse (responseText r) limits = None <-> forall x, RspResult r = Some x -> client_result_ok limits x.
Proof. exact client_accepts. Qed.
End accepts.

Lemma client_accepts_exact_witness : validateClientResponse (responseText SampleResponse.response) DefaultOptions = None.
Proof.
  apply (client_accepts_exact SampleResponse.response None DefaultOptions SampleResponse.carried SampleResponse.sensible).
  intros x [= <-]. exact I.
Defined.
