(* ===== verification/Client.v ===== *)
(** * The client (gapdb/client.go)

    A client sends one request per call and reads one response, over a fresh
    connection or over one that it keeps; a watch has a connection of its own.
    The network is an interface: connections by number, with what can be read
    from each.  Deadlines, contexts and the concurrency of callers are not part
    of the model: calls happen one after the other. *)

From stdpp Require Import base gmap list strings.
From Stdlib Require Import ZArith Lia.
From S2P Require Import Prelude.
From S2P Require Import Bytes.
From S2P Require Import Errors.
From S2P Require Import ApiTypes.
From S2P Require Import WalScan.
From S2P Require Import Json.
From S2P Require Import GoTime.
From S2P Require Import GoJson.
From S2P Require Import Frame.
From S2P Require Import Envelope.
From S2P Require Import ReadMany.
From S2P Require Import AdminResults.
From S2P Require Import WireErrors.
From S2P Require Import ClientErrors.
From S2P Require Import Responses.
From S2P Require Import ClientCodec.

Local Open Scope Z_scope.
Local Open Scope go_scope.

(** ** Data *)

(** What a call returns instead of a result: a transport error, which is
    ambiguous when the request may have reached the owner, the structured error
    of a response, or an error found before anything was sent. *)
Inductive clientError :=
| TransportError (operation : bytes) (ambiguous : bool) (cause : goerror)
| RemoteError (failure : gval)
| LocalError (e : goerror).

Record Client := MkClient {
  ClLimits : Limits;
  ClRequests : Z;                     (* [requests], the counter of request ids *)
  ClWatchIDs : Z;
  ClClosed : bool;
  ClWatches : gmap Z (option Z);      (* the reservations with their connections *)
  ClReuseUnary : bool;
  ClUnaryConn : option Z
}.

Definition setRequests (n : Z) (c : Client) : Client :=
  MkClient (ClLimits c) n (ClWatchIDs c) (ClClosed c) (ClWatches c) (ClReuseUnary c) (ClUnaryConn c).
Definition setUnaryConn (conn : option Z) (c : Client) : Client :=
  MkClient (ClLimits c) (ClRequests c) (ClWatchIDs c) (ClClosed c) (ClWatches c) (ClReuseUnary c) conn.
Definition setWatches (n : Z) (watches : gmap Z (option Z)) (c : Client) : Client :=
  MkClient (ClLimits c) (ClRequests c) n (ClClosed c) watches (ClReuseUnary c) (ClUnaryConn c).

(** *** Requests *)

(** The structs of the arguments; their fields are those of the protocol's. *)
Definition putArguments : jtype :=
  TStruct [field "key" TString; field "value_base64" TBytes; omitempty "expires_at" (TPtr TTime); field "ack" TString].
Definition casArguments : jtype :=
  TStruct [field "key" TString; field "expected_revision" TRevision; field "value_base64" TBytes;
           omitempty "expires_at" (TPtr TTime); field "ack" TString].
Definition deleteArguments : jtype :=
  TStruct [field "key" TString; field "expected_revision" TRevision; field "ack" TString].
Definition BatchType : jtype :=
  TStruct [field "ack" TString; omitempty "assertions" (TList AssertionType); field "mutations" (TList MutationType)].

Definition clientArguments (o : Operation) : jtype :=
  match o with
  | OperationGet => TStruct [field "key" TString]
  | OperationGetMany => TStruct [field "keys" (TList TString)]
  | OperationPut | OperationPutIfAbsent => putArguments
  | OperationCompareAndSwap => casArguments
  | OperationDeleteIfRevision => deleteArguments
  | OperationAtomicBatch => BatchType
  | OperationScanPrefix => TStruct [field "prefix" TString; field "limit" TInt; omitempty "cursor" TString]
  | OperationWatch => TStruct [field "prefix" TString; field "after_revision" TRevision]
  | OperationVerify => TStruct [omitempty "mode" TString]
  | OperationCreateSnapshot => TStruct [field "expected_database_id" TString; field "expected_revision" TRevision]
  | OperationCompact => TStruct [field "expected_database_id" TString; field "through_revision" TRevision]
  | OperationBackup =>
      TStruct [field "expected_database_id" TString; field "expected_revision" TRevision; field "destination" TString]
  | _ => TStruct []
  end.

Definition wireRequest (o : Operation) : jtype :=
  TStruct [field "schema_version" (TUint max_uint64); omitempty "request_id" TString; field "operation" TString;
           field "arguments" (clientArguments o)].
Definition wireRequestValue (id : bytes) (o : Operation) (arguments : Arguments) : gval :=
  GStruct [GNum clientSchemaVersion; GString id; GString (operationName o); argumentsValue arguments].

(** *** Responses *)

Definition wireResponseType : jtype := responseEnvelope TRaw (TPtr ChangeEventType) (TPtr ErrorType).

Record wireResponse := MkWireResponse {
  WrSchemaVersion : option Z;
  WrOK : option bool;
  WrRequestID : bytes;
  WrDatabaseID : bytes;
  WrOperation : bytes;
  WrResult : option jvalue;
  WrStream : bytes;
  WrRegistrationRevision : option Revision;
  WrEvent : option ChangeEvent;
  WrReason : bytes;
  WrError : option gval
}.

Definition numberOf (g : gval) : option Z := match g with GNum z => Some z | _ => None end.
Definition boolOf (g : gval) : option bool := match g with GBool b => Some b | _ => None end.

Definition wireResponseOf (g : gval) : option wireResponse :=
  match g with
  | GStruct [version; ok; GString requestID; GString databaseID; GString operation; GRaw result; GString stream;
             registration; event; GString reason; failure] =>
      version ← pointerOf numberOf version;
      ok ← pointerOf boolOf ok;
      registration ← pointerOf numberOf registration;
      event ← pointerOf eventOf event;
      failure ← pointerOf Some failure;
      Some (MkWireResponse version ok requestID databaseID operation result stream registration event reason failure)
  | _ => None
  end.

Definition invalidResult (o : Operation) (cause : error) : clientError :=
  TransportError (operationName o) true (default (ErrText "server response does not match request") cause).

(** What [readResponse] does with a frame. *)
Definition acceptResponse (limits : Limits) (o : Operation) (id payload : bytes) : result clientError wireResponse :=
  match validateClientResponse payload limits with
  | Some e => Err (invalidResult o (Some e))
  | None =>
      match json_decode payload with
      | None => Err (invalidResult o (Some (ErrText jsonReason)))
      | Some (v, rest) =>
          match go_decode wireResponseType v (zero_value wireResponseType) ≫= wireResponseOf with
          | None => Err (invalidResult o (Some (ErrText jsonReason)))
          | Some response =>
              if negb (bool_decide (skip_space rest = [])) then Err (invalidResult o (Some (ErrText "response has trailing JSON")))
              else
                let preAdmissionBusy :=
                  match WrError response with
                  | Some g => bool_decide (errorText g "code" = lit (codeText CodeServerBusy))
                  | None => false
                  end in
                match WrSchemaVersion response, WrOK response with
                | Some version, Some ok =>
                    if negb (version =? clientSchemaVersion) || bool_decide (WrDatabaseID response = [])
                       || (negb preAdmissionBusy
                           && (negb (bool_decide (WrOperation response = operationName o))
                               || negb (bool_decide (WrRequestID response = id))))
                    then Err (invalidResult o None)
                    else if ok then Ok response
                    else match WrError response with
                    | None => Err (invalidResult o (Some (ErrText "error missing")))
                    | Some g =>
                        match validateRemoteError g with
                        | Err e => Err (invalidResult o (Some e))
                        | Ok _ =>
                            if bool_decide (o = OperationWatch) && bool_decide (WrStream response = lit "ended") then Ok response
                            else Err (RemoteError g)
                        end
                    end
                | _, _ => Err (invalidResult o None)
                end
          end
      end
  end.

(** ** The network *)

Class Network (X : Type) := {
  net_dial : X -> result goerror Z * X;
  net_Write : Z -> bytes -> X -> Z * error * X;
  net_receive : Z -> X -> Reader;
  net_consume : Z -> Reader -> X -> X;
  net_close : Z -> X -> X
}.

Section client.
Context {X : Type} `{Network X}.

Definition connWriter (conn : Z) : Writer X := net_Write conn.

Definition closedError (operation : string) : clientError := TransportError (lit operation) false (ErrText "client is closed").

Definition Client_dial (c : Client) (x : X) : result clientError Z * X :=
  if ClClosed c then (Err (closedError "dial"), x)
  else match net_dial x with
  | (Err e, x) => (Err (TransportError (lit "dial") false e), x)
  | (Ok conn, x) => (Ok conn, x)
  end.

(** [requestID]: the id of the context, or the next of the client's own. *)
Definition requestID (given : option bytes) (c : Client) : bytes * Client :=
  match given with
  | Some id => (id, c)
  | None => let n := wrap_u64 (ClRequests c + 1) in (lit "go-" ++ FormatUint n, setRequests n c)
  end.

Definition writeRequest (c : Client) (conn : Z) (id : bytes) (o : Operation) (arguments : Arguments) (x : X) :
    option clientError * X :=
  match go_encode (wireRequest o) (wireRequestValue id o arguments) with
  | None => (Some (LocalError (ErrText jsonReason)), x)
  | Some payload =>
      if MaxFrameBytes (ClLimits c) <? len payload
      then (Some (LocalError (protocolFrameTooLarge (len payload) (MaxFrameBytes (ClLimits c)))), x)
      else match writeClientFrame (H := connWriter conn) payload x with
      | (Some e, x) => (Some (TransportError (operationName o) true e), x)
      | (None, x) => (None, x)
      end
  end.

Definition readResponse (c : Client) (conn : Z) (o : Operation) (id : bytes) (x : X) : result clientError wireResponse * X :=
  let (payload, reader) := readClientFrame (net_receive conn x) (MaxFrameBytes (ClLimits c)) in
  let x := net_consume conn reader x in
  match payload with
  | Err e => (Err (TransportError (operationName o) true e), x)
  | Ok payload => (acceptResponse (ClLimits c) o id payload, x)
  end.

Definition discardUnaryConnection (conn : Z) (c : Client) (x : X) : Client * X :=
  (if bool_decide (ClUnaryConn c = Some conn) then setUnaryConn None c else c, net_close conn x).

(** [reusableUnary] once the connection is there. *)
Definition reusableExchange (given : option bytes) (o : Operation) (arguments : Arguments) (conn : Z) (c : Client) (x : X) :
    result clientError wireResponse * Client * X :=
  let (id, c) := requestID given c in
  match writeRequest c conn id o arguments x with
  | (Some e, x) => let (c, x) := discardUnaryConnection conn c x in (Err e, c, x)
  | (None, x) =>
      let (response, x) := readResponse c conn o id x in
      match response with
      | Err (TransportError _ _ _) => let (c, x) := discardUnaryConnection conn c x in (response, c, x)
      | _ => (response, c, x)
      end
  end.

Definition reusableUnary (given : option bytes) (o : Operation) (arguments : Arguments) (c : Client) (x : X) :
    result clientError wireResponse * Client * X :=
  if ClClosed c then (Err (TransportError (operationName o) false (ErrText "client is closed")), c, x)
  else match ClUnaryConn c with
  | Some conn => reusableExchange given o arguments conn c x
  | None =>
      match Client_dial c x with
      | (Err e, x) => (Err e, c, x)
      | (Ok conn, x) => reusableExchange given o arguments conn (setUnaryConn (Some conn) c) x
      end
  end.

Definition unary (given : option bytes) (o : Operation) (arguments : Arguments) (c : Client) (x : X) :
    result clientError wireResponse * Client * X :=
  if ClReuseUnary c then reusableUnary given o arguments c x
  else match Client_dial c x with
  | (Err e, x) => (Err e, c, x)
  | (Ok conn, x) =>
      let (id, c) := requestID given c in
      match writeRequest c conn id o arguments x with
      | (Some e, x) => (Err e, c, net_close conn x)
      | (None, x) => let (response, x) := readResponse c conn o id x in (response, c, net_close conn x)
      end
  end.

(** ** Calls *)

(** A call that fails before anything is sent. *)
Definition refuse {A} (e : goerror) (c : Client) (x : X) : result clientError A * Client * X := (Err (LocalError e), c, x).

(** The rest of a call, on the result of its response. *)
Definition call {A} (given : option bytes) (o : Operation) (arguments : Arguments) (finish : option jvalue -> result clientError A)
    (c : Client) (x : X) : result clientError A * Client * X :=
  let '(response, c, x) := unary given o arguments c x in
  (response ← response; finish (WrResult response), c, x).

(** [json.Unmarshal] of a result: its members have been checked. *)
Definition unmarshal {A} (t : jtype) (of_value : gval -> option A) (raw : option jvalue) : option A :=
  v ← raw; g ← go_decode t v (zero_value t); of_value g.

Definition finishGet (raw : option jvalue) : result clientError DBRecord :=
  match unmarshal GetResultType getOf raw with
  | Some record => if RecRevision record =? 0 then Err (invalidResult OperationGet None) else Ok record
  | None => Err (invalidResult OperationGet (Some (ErrText jsonReason)))
  end.
Definition Client_Get (given : option bytes) (key : bytes) (c : Client) (x : X) : result clientError DBRecord * Client * X :=
  match Mutation_Validate (ClLimits c) (MkMutation MutationPut key anyCondition None None) with
  | Some e => refuse e c x
  | None => call given OperationGet (GetArguments key) finishGet c x
  end.

Definition manyEntryOf (g : gval) : option ReadManyEntry :=
  match g with
  | GStruct [GString key; GBool found; record] => record ← pointerOf recordOf record; Some (MkReadManyEntry key found record)
  | _ => None
  end.
Definition readManyOf (g : gval) : option ReadManyResult :=
  match g with
  | GStruct [GNum observed; GTime asOf; entries] => l ← sliceOf manyEntryOf entries; Some (MkReadManyResult observed asOf l)
  | _ => None
  end.

Definition validateManyRequest (limits : Limits) (keys : list bytes) : error :=
  if bool_decide (keys = []) || (MaxBatchOperations limits <? len keys)
  then Some (invalidField "keys" "must contain between 1 and the configured batch-operation limit")
  else
    try validateReadKeys limits [] keys ;;
    let t := TStruct [field "keys" (TList TString)] in
    match go_encode t (GStruct [GList (Some (GString <$> keys))]) with
    | None => Some (requestTooLarge "Exact read request exceeds the configured byte limit." 0 (MaxBatchBytes limits))
    | Some arguments =>
        if MaxBatchBytes limits <? len arguments
        then Some (requestTooLarge "Exact read request exceeds the configured byte limit." (len arguments) (MaxBatchBytes limits))
        else None
    end.

(** The entries are those that were asked for. *)
Definition entryMatches (e : ReadManyEntry) (key : bytes) : bool :=
  bool_decide (EntryKey e = key) && Bool.eqb (EntryFound e) (if EntryRecord e then true else false)
  && match EntryRecord e with
     | Some record => bool_decide (RecKey record = EntryKey e) && negb (RecRevision record =? 0)
     | None => true
     end.
Definition finishMany (limits : Limits) (keys : list bytes) (raw : option jvalue) : result clientError ReadManyResult :=
  match unmarshal ReadManyResultType readManyOf raw with
  | None => Err (invalidResult OperationGetMany (Some (ErrText jsonReason)))
  | Some r =>
      if negb (len (ManyEntries r) =? len keys) then Err (invalidResult OperationGetMany None)
      else match ValidateReadManyResult r limits with
      | Some e => Err (invalidResult OperationGetMany (Some e))
      | None =>
          if negb (forallb (fun p => entryMatches p.1 p.2) (zip (ManyEntries r) keys))
          then Err (invalidResult OperationGetMany (Some (ErrText "entries do not exactly match requested keys")))
          else Ok r
      end
  end.
Definition Client_ReadMany (given : option bytes) (keys : list bytes) (c : Client) (x : X) :
    result clientError ReadManyResult * Client * X :=
  match validateManyRequest (ClLimits c) keys with
  | Some e => refuse e c x
  | None => call given OperationGetMany (GetManyArguments keys) (finishMany (ClLimits c) keys) c x
  end.

(** [mutate]: the acknowledgement is checked before anything is sent. *)
Definition acknowledgementOf (arguments : Arguments) : option AckMode :=
  match arguments with
  | PutArguments _ _ _ ack | CompareAndSwapArguments _ _ _ _ ack | DeleteIfRevisionArguments _ _ ack => Some ack
  | BatchArguments batch => Some (BatchAck batch)
  | _ => None
  end.
Definition finishMutation (o : Operation) (raw : option jvalue) : result clientError MutationResult :=
  match unmarshal MutationResultType mutationResultOf raw with
  | Some r =>
      if (ResRevision r =? 0) || negb (AckMode_Valid (ResAck r)) then Err (invalidResult o None) else Ok r
  | None => Err (invalidResult o (Some (ErrText jsonReason)))
  end.
Definition mutate (given : option bytes) (o : Operation) (arguments : Arguments) (c : Client) (x : X) :
    result clientError MutationResult * Client * X :=
  if match acknowledgementOf arguments with Some ack => AckMode_Valid ack | None => false end
  then call given o arguments (finishMutation o) c x
  else refuse (invalidField "ack" "must be memory or durable") c x.

(** A mutation that is validated first. *)
Definition mutateValid (m : Mutation) (given : option bytes) (o : Operation) (arguments : Arguments) (c : Client) (x : X) :
    result clientError MutationResult * Client * X :=
  match Mutation_Validate (ClLimits c) m with Some e => refuse e c x | None => mutate given o arguments c x end.

Definition Client_Put (given : option bytes) (key value : bytes) (expiry : option Time) (ack : AckMode) :=
  mutateValid (NewPutMutation key (Some value) anyCondition expiry) given OperationPut (PutArguments key value expiry ack).
Definition Client_PutIfAbsent (given : option bytes) (key value : bytes) (expiry : option Time) (ack : AckMode) :=
  mutateValid (NewPutMutation key (Some value) (MkCondition ConditionAbsent 0) expiry) given OperationPutIfAbsent
    (PutArguments key value expiry ack).
Definition Client_CompareAndSwap (given : option bytes) (key : bytes) (expected : Revision) (value : bytes)
    (expiry : option Time) (ack : AckMode) :=
  mutateValid (NewPutMutation key (Some value) (MkCondition ConditionRevision expected) expiry) given OperationCompareAndSwap
    (CompareAndSwapArguments key expected value expiry ack).
Definition Client_DeleteIfRevision (given : option bytes) (key : bytes) (expected : Revision) (ack : AckMode) :=
  mutateValid (NewDeleteMutation key expected) given OperationDeleteIfRevision (DeleteIfRevisionArguments key expected ack).

Definition countsMatch (batch : Batch) (r : MutationResult) : result clientError MutationResult :=
  if negb (ResMutationCount r =? len (BatchMutations batch)) || negb (ResAssertionCount r =? len (BatchAssertions batch))
  then Err (invalidResult OperationAtomicBatch (Some (ErrText "batch evidence counts do not match the request")))
  else Ok r.
Definition Client_AtomicBatch (given : option bytes) (batch : Batch) (c : Client) (x : X) :
    result clientError MutationResult * Client * X :=
  let copy := Batch_Clone batch in
  match Batch_Validate (ClLimits c) copy with
  | Some e => refuse e c x
  | None =>
      let '(r, c, x) := mutate given OperationAtomicBatch (BatchArguments copy) c x in
      (r ← r; countsMatch copy r, c, x)
  end.

Definition prefixTooLarge (received maximum : Z) : goerror :=
  ErrGap (newError CodeKeyTooLarge "Prefix exceeds the configured key limit." RetryNever
    [EvField "prefix"; EvReceivedBytes received; EvMaximumBytes maximum] [ActionReduceKey; ActionAbort]).

Definition finishAdmin {A} (o : Operation) (t : jtype) (of_value : gval -> option A) (raw : option jvalue) : result clientError A :=
  match unmarshal t of_value raw with
  | Some r => Ok r
  | None => Err (invalidResult o (Some (ErrText jsonReason)))
  end.

Definition Client_ScanPrefix (given : option bytes) (prefix : bytes) (limit : Z) (cursor : bytes) (c : Client) (x : X) :
    result clientError ScanPage * Client * X :=
  if (limit <=? 0) || (MaxScanRecords (ClLimits c) <? limit)
  then refuse (invalidField "limit" "is outside the configured scan limit") c x
  else if MaxKeyBytes (ClLimits c) <? len prefix then refuse (prefixTooLarge (len prefix) (MaxKeyBytes (ClLimits c))) c x
  else call given OperationScanPrefix (ScanArguments prefix limit cursor) (finishAdmin OperationScanPrefix ScanPageType pageOf) c x.

(** [admin], and the inspections and administrative calls that go through it. *)
Definition Client_admin {A} (given : option bytes) (o : Operation) (arguments : Arguments) (t : jtype) (of_value : gval -> option A) :
    Client -> X -> result clientError A * Client * X :=
  call given o arguments (finishAdmin o t of_value).

Definition Client_Status (given : option bytes) := Client_admin given OperationStatus EmptyArguments StatusResultType statusResultOf.
Definition Client_Health (given : option bytes) := Client_admin given OperationHealth EmptyArguments HealthResultType healthResultOf.
Definition Client_Stats (given : option bytes) := Client_admin given OperationStats EmptyArguments StatsResultType statsResultOf.
Definition Client_DescribeConfig (given : option bytes) :=
  Client_admin given OperationDescribeConfig EmptyArguments ConfigResultType configResultOf.
Definition Client_Verify (given : option bytes) (mode : bytes) :=
  Client_admin given OperationVerify (VerifyArguments mode) VerifyResultType verifyResultOf.
Definition Client_CreateSnapshot (given : option bytes) (id : bytes) (revision : Revision) :=
  Client_admin given OperationCreateSnapshot (SnapshotArguments id revision) WireSnapshotResultType wireSnapshotResultOf.
Definition Client_Compact (given : option bytes) (id : bytes) (through : Revision) :=
  Client_admin given OperationCompact (CompactArguments id through) WireCompactionResultType wireCompactionResultOf.
Definition Client_Backup (given : option bytes) (id : bytes) (revision : Revision) (destination : bytes) :=
  Client_admin given OperationBackup (BackupArguments id revision destination) BackupResultType backupResultOf.

(** ** Watches *)

Record ClientWatch := MkClientWatch {
  CwRegistrationRevision : Revision;
  CwConn : Z;
  CwRequestID : bytes;
  CwAfter : Revision;
  CwID : Z
}.

Definition cancelWatch (id : Z) (c : Client) (x : X) : Client * X :=
  (setWatches (ClWatchIDs c) (delete id (ClWatches c)) c,
   match ClWatches c !! id : option (option Z) with Some (Some conn) => net_close conn x | _ => x end).

Definition abandonWatch (id : Z) (e : clientError) (c : Client) (x : X) : result clientError ClientWatch * Client * X :=
  let (c, x) := cancelWatch id c x in (Err e, c, x).

Definition Client_Watch (given : option bytes) (prefix : bytes) (after : Revision) (c : Client) (x : X) :
    result clientError ClientWatch * Client * X :=
  let id := wrap_u64 (ClWatchIDs c + 1) in
  if ClClosed c then (Err (closedError "watch"), setWatches id (ClWatches c) c, x)
  else
    let c := setWatches id (<[id := None]> (ClWatches c)) c in
    let rollback e c x := abandonWatch id e c x in
    match net_dial x with
    | (Err e, x) => rollback (TransportError (lit "dial") false e) c x
    | (Ok conn, x) =>
        let c := setWatches id (<[id := Some conn]> (ClWatches c)) c in
        let (request, c) := requestID given c in
        match writeRequest c conn request OperationWatch (WatchArguments prefix after) x with
        | (Some e, x) => rollback e c x
        | (None, x) =>
            match readResponse c conn OperationWatch request x with
            | (Err e, x) => rollback e c x
            | (Ok response, x) =>
                match bool_decide (WrStream response = lit "ended"), WrError response with
                | true, Some g => rollback (RemoteError g) c x
                | _, _ =>
                    match bool_decide (WrStream response = lit "started"), WrRegistrationRevision response with
                    | true, Some registration => (Ok (MkClientWatch registration conn request after id), c, x)
                    | _, _ => rollback (invalidResult OperationWatch None) c x
                    end
                end
            end
        end
    end.

(** Why a watch ended with an error: the error of the server, or
    [unavailableWatchError] with its cause. *)
Inductive watchFailure := WatchRemote (failure : gval) | WatchUnavailable (cause : clientError).

Record ClientTermination := MkClientTermination {
  CtReason : bytes;
  CtLastDelivered : Revision;
  CtError : option watchFailure
}.

Definition lastDeliveredField (g : gval) : option Revision :=
  match getField errorFields g "last_delivered_revision" with Some (GPtr (Some (GNum r))) => Some r | _ => None end.

Definition endedFrame (last : Revision) (response : wireResponse) : ClientTermination :=
  MkClientTermination (if bool_decide (WrReason response = []) then reasonText WatchEndedByError else WrReason response)
    (default last (WrError response ≫= lastDeliveredField)) (WatchRemote <$> WrError response).

(** The first [n] rounds of [receiveWatch]: the events that were delivered and
    the termination, once it came.  The loop ends only there. *)
Fixpoint receiveWatch (n : nat) (c : Client) (w : ClientWatch) (last : Revision) (x : X) :
    list ChangeEvent * option ClientTermination * X :=
  match n with
  | O => ([], None, x)
  | S n =>
      let unavailable cause :=
        Some (MkClientTermination (reasonText WatchEndedByError) last (Some (WatchUnavailable cause))) in
      match readResponse c (CwConn w) OperationWatch (CwRequestID w) x with
      | (Err e, x) => ([], unavailable e, x)
      | (Ok response, x) =>
          if bool_decide (WrStream response = lit "event") then
            match WrEvent response with
            | None => ([], unavailable (LocalError (ErrText "event missing")), x)
            | Some event =>
                let '(events, termination, x) := receiveWatch n c w (EvtRevision event) x in
                (event :: events, termination, x)
            end
          else if bool_decide (WrStream response = lit "ended") then ([], Some (endedFrame last response), x)
          else ([], unavailable (LocalError (ErrText "invalid stream frame")), x)
      end
  end.

(** After the loop: the connection is closed and the reservation removed. *)
Definition removeWatch (w : ClientWatch) (c : Client) (x : X) : Client * X :=
  (setWatches (ClWatchIDs c) (delete (CwID w) (ClWatches c)) c, net_close (CwConn w) x).

(** ** Opening and closing *)

Definition Dial (socketPath : bytes) (limits : option Limits) (reuse : bool) (x : X) : result clientError Client * X :=
  if bool_decide (socketPath = []) then (Err (TransportError (lit "dial") false (ErrText "socket path is required")), x)
  else
    let limits := default DefaultOptions limits in
    match Options_Validate limits with
    | Some e => (Err (LocalError e), x)
    | None =>
        let client := MkClient limits 0 0 false ∅ reuse None in
        match Client_dial client x with
        | (Err e, x) => (Err e, x)
        | (Ok conn, x) => (Ok client, net_close conn x)
        end
    end.

Definition Client_Close (c : Client) (x : X) : Client * X :=
  if ClClosed c then (c, x)
  else
    let x := foldr (fun reservation x => match snd reservation with Some conn => net_close conn x | None => x end) x
               (map_to_list (ClWatches c)) in
    let x := match ClUnaryConn c with Some conn => net_close conn x | None => x end in
    (MkClient (ClLimits c) (ClRequests c) (ClWatchIDs c) true ∅ (ClReuseUnary c) None, x).
End client.
