(* ===== verification/ClientFacts.v ===== *)
(** * What the client reads is what the server sent

    The text of the client's requests is that of the protocol, and a response
    of the server that answers the request is returned to the caller as it was
    sent, or as the error that it carries. *)

From stdpp Require Import base gmap list strings.
From Stdlib Require Import ZArith Lia.
From S2P Require Import Prelude.
From S2P Require Import Bytes.
From S2P Require Import Errors.
From S2P Require Import ApiTypes.
From S2P Require Import WalScan.
From S2P Require Import Json.
From S2P Require Import GoTime.
From S2P Require Import GoJson.
From S2P Require Import Frame.
From S2P Require Import Envelope.
From S2P Require Import Requests.
From S2P Require Import ReadMany.
From S2P Require Import AdminResults.
From S2P Require Import WireErrors.
From S2P Require Import ClientErrors.
From S2P Require Import Responses.
From S2P Require Import ResultCodec.
From S2P Require Import ResponseCodec.
From S2P Require Import ClientCodec.
From S2P Require Import ClientAccept.
From S2P Require Import Client.

Local Open Scope Z_scope.
Local Open Scope go_scope.

(** ** Requests *)

(** The operations that the client sends. *)
Definition clientSends (o : Operation) : bool :=
  match o with
  | OperationReadRecoverySnapshot | OperationOfflineInspect | OperationOfflineVerify | OperationOfflineRecoverPropose
  | OperationOfflineRecoverApply => false
  | _ => true
  end.

(** The structs of the client have the fields of the protocol's. *)
Lemma client_encodes o id a : clientSends o = true -> validateArgumentsType o a = None ->
  go_encode (wireRequest o) (wireRequestValue id o a) =
  go_encode (requestEnvelope (argumentsType o)) (requestValue SchemaVersion id o (argumentsValue a)).
Proof. intros Hs Ht. destruct o; try discriminate Hs; destruct a; try discriminate Ht; reflexivity. Qed.

Lemma client_request_text o id a : clientSends o = true -> normalizeRequestArguments a = a ->
  wire_request (MkRequest SchemaVersion id o a) ->
  go_encode (wireRequest o) (wireRequestValue id o a) = Some (requestText (MkRequest SchemaVersion id o a)).
Proof.
  intros Hs Hn Hw. rewrite client_encodes by (first [done|apply (wr_type _ Hw)]).
  destruct (envelope_roundtrip (argumentsType o) (MkRequest SchemaVersion id o a) (argumentsValue a) Hw) as (Henc & _).
  - apply arguments_roundtrip; [apply (wr_type _ Hw)|]. rewrite <- Hn. apply (wr_arguments _ Hw).
  - cbn [RqOperation RqSchemaVersion RqRequestID] in Henc. rewrite Henc. unfold requestText, requestJson. cbn [RqOperation RqSchemaVersion RqRequestID RqArguments]. by rewrite Hn.
Qed.

(** ** Responses *)

Section reading.
Variables (r : Response) (err : option Error) (limits : Limits).
Hypothesis Hwire : wire_response r err.
Hypothesis Hcoherent : coherent r err.

(** The response as the client keeps it. *)
Definition receivedResponse : wireResponse :=
  MkWireResponse (Some (RspSchemaVersion r)) (Some (RspOK r)) (RspRequestID r) (RspDatabaseID r) (operationName (RspOperation r))
    (sentResult r) (RspStream r) (if bool_decide (RspStream r = StreamStarted) then Some (RspRegistrationRevision r) else None)
    (RspEvent r) (RspEndReason r) (errorValue <$> sentError err).

Let value : gval :=
  GStruct [GPtr (Some (GNum (RspSchemaVersion r))); GPtr (Some (GBool (RspOK r))); GString (RspRequestID r);
           GString (RspDatabaseID r); GString (operationName (RspOperation r)); GRaw (sentResult r); GString (RspStream r);
           GPtr (sentRegistration r); GPtr (eventValue <$> RspEvent r); GString (RspEndReason r);
           GPtr (errorValue <$> sentError err)].

Lemma received_json : responseJson r = json_of wireResponseType value.
Proof.
  rewrite (responseJson_raw r err Hwire). unfold sentEnvelope, value, sentEvent, sentFailure.
  destruct (RspEvent r), (sentError err); reflexivity.
Qed.

Lemma received_roundtrip : roundtrips 5 wireResponseType value.
Proof.
  unfold wireResponseType, value. apply (response_fields r err Hwire).
  - apply raw_field. unfold sentResult. intros v Hv. apply fmap_Some in Hv as (x & Hx & ->).
    destruct (wp_result _ _ Hwire x Hx) as [Hw _]. destruct (result_roundtrip x Hw) as (_ & Hr & _ & Hc). done.
  - apply pointer_field. intros e He. destruct (event_roundtrips 2 e (wp_event _ _ Hwire e He)) as [Hr _]. split; [exact Hr|discriminate].
  - apply pointer_field. intros e He. split; [|discriminate]. eapply roundtrips_more; [apply error_roundtrip; by apply (wp_error _ _ Hwire)|lia].
Qed.

Lemma received_value : wireResponseOf value = Some receivedResponse.
Proof.
  unfold wireResponseOf, value, receivedResponse, sentRegistration. cbn [pointerOf numberOf boolOf fmap option_fmap option_map mbind option_bind].
  destruct (bool_decide (RspStream r = StreamStarted)); cbn [pointerOf numberOf fmap option_fmap option_map mbind option_bind];
    (destruct (RspEvent r) as [e|] eqn:He; cbn [pointerOf fmap option_fmap option_map mbind option_bind];
      [rewrite eventOf_value by (by apply (wp_event _ _ Hwire)); cbn [fmap option_fmap option_map mbind option_bind]|]);
    by destruct (sentError err).
Qed.

(** An answer to the request is read as it was sent; the error of a call that
    is not a watch becomes the caller's. *)
Lemma acceptResponse_exact : (forall x, RspResult r = Some x -> client_result_ok limits x) ->
  acceptResponse limits (RspOperation r) (RspRequestID r) (responseText r) =
  match sentError err with
  | Some e =>
      if bool_decide (RspOperation r = OperationWatch) && bool_decide (RspStream r = StreamEnded) then Ok receivedResponse
      else Err (RemoteError (errorValue e))
  | None => Ok receivedResponse
  end.
Proof.
  intros Hok. unfold acceptResponse. rewrite (proj2 (client_accepts r err limits Hwire Hcoherent) Hok).
  destruct received_roundtrip as (_ & Hread & Hdec & _). rewrite <- received_json in Hread, Hdec.
  assert (json_decode (responseText r) = Some (responseJson r, [])) as ->.
  { unfold responseText. rewrite <- (app_nil_r (raw_text _)). apply Hread; [|done]. unfold maxNestingDepth. lia. }
  rewrite Hdec. cbn [mbind option_bind]. rewrite received_value. change (bool_decide (skip_space [] = [])) with true. cbn [negb].
  change (WrError receivedResponse) with (errorValue <$> sentError err). change (WrStream receivedResponse) with (RspStream r).
  change (WrSchemaVersion receivedResponse) with (Some (RspSchemaVersion r)). change (WrOK receivedResponse) with (Some (RspOK r)).
  change (WrDatabaseID receivedResponse) with (RspDatabaseID r). change (WrRequestID receivedResponse) with (RspRequestID r).
  change (WrOperation receivedResponse) with (operationName (RspOperation r)). rewrite (wp_version _ _ Hwire).
  rewrite (bool_decide_false _ (co_database _ _ Hcoherent)), (bool_decide_true (operationName _ = _)) by done.
  rewrite (bool_decide_true (RspRequestID r = _)) by done. cbn [negb orb]. rewrite andb_false_r.
  change (negb (SchemaVersion =? clientSchemaVersion)) with false. cbn [orb].
  pose proof (co_outcome _ _ Hcoherent) as Hout. pose proof (co_error _ _ Hcoherent) as Herr. destruct (wp_error _ _ Hwire) as [_ He].
  unfold sentError in *. destruct err as [e|]; cbn [fmap option_fmap option_map] in *; [|by rewrite (proj2 Hout eq_refl)].
  destruct (RspOK r); [by destruct Hout as [Hout _]; specialize (Hout eq_refl)|].
  destruct (Herr _ eq_refl) as (Hc & Hs & Hb & _). specialize (He _ eq_refl).
  assert (exists code, validateRemoteError (errorValue (boundedError e)) = Ok code) as [code ->]; [|done].
  destruct (error_roundtrip _ He) as (_ & _ & Hd & _ & Hdup).
  assert (validateRemoteErrorRaw (errorValue (boundedError e)) (json_of ErrorType (errorValue (boundedError e))) = None) as Hraw.
  { apply remote_checks; [done|done|]. by apply validateStructuredError_None. }
  unfold validateRemoteErrorRaw in Hraw. destruct (validateRemoteError _) as [code|]; [by exists code|done].
Qed.
End reading.
