(* ===== verification/Server.v ===== *)
(** * The server (internal/server/server.go, handler.go; internal/admin/admin.go)

    A connection is served in a loop: read a frame, decode the request, run it
    on the engine, and write one response, or for a watch a stream of them.
    The administrative commands (verify, snapshot, compaction, backup) are an
    interface here. *)

From stdpp Require Import base gmap list strings.
From Stdlib Require Import ZArith Lia.
From S2P Require Import Prelude.
From S2P Require Import Bytes.
From S2P Require Import Errors.
From S2P Require Import ApiTypes.
From S2P Require Import Clock.
From S2P Require Import Allocator.
From S2P Require Import WalScan.
From S2P Require Import Watch.
From S2P Require Import Engine.
From S2P Require Import Writer.
From S2P Require Import Commands.
From S2P Require Import Scan.
From S2P Require Import Json.
From S2P Require Import GoTime.
From S2P Require Import Manifest.
From S2P Require Import Frame.
From S2P Require Import RecoverySnapshot.
From S2P Require Import Envelope.
From S2P Require Import ReadMany.
From S2P Require Import AdminResults.
From S2P Require Import WireErrors.
From S2P Require Import Responses.

Local Open Scope Z_scope.
Local Open Scope go_scope.

(** ** The administrative view *)

Record AuditOptions := MkAuditOptions { AudMaxLineBytes : Z; AudMaxFileBytes : Z; AudKeepGenerations : Z }.

(** The audit options with their defaults. *)
Definition normalizedAudit (options : AuditOptions) : AuditOptions :=
  let line := if AudMaxLineBytes options <=? 0 then Z.shiftl 64 10 else AudMaxLineBytes options in
  let file := if AudMaxFileBytes options <? line then Z.shiftl 4 20 else AudMaxFileBytes options in
  MkAuditOptions line file (if AudKeepGenerations options <? 1 then 1 else AudKeepGenerations options).

(** [RunningView]; its effective configuration has the fields of the wire's. *)
Record RunningView := MkRunningView {
  RvStatus : Status;
  RvHealthy : bool;
  RvDegradedReason : bytes;
  RvRecordCount : Z;
  RvWatchCount : Z;
  RvQueueDepth : Z;
  RvEffectiveConfig : ConfigValues
}.

(** What the controller knows besides the engine. *)
Record Controller := MkController {
  CtManifest : Manifest;
  CtWALBufferSize : Z;
  CtAudit : AuditOptions;
  CtMaxAdminPaths : Z
}.

Definition invalidRequest (name reason : string) : goerror :=
  ErrGap (newError CodeInvalidRequest "Request validation failed." RetryNever [EvField name; EvReason reason]
    [ActionFixRequest; ActionAbort]).

(** ** Errors as responses carry them *)

(** [structuredError] at the time [now]: a structured error with the actions of
    the catalog, else a deadline or an internal failure. *)
Definition structuredError (now : Time) (err : goerror) (o : Operation) (status : Status) : Error :=
  match asError err with
  | Some e =>
      MkError (Code e) (Message e) (Retry e) (Evidences e) (OperationApplied e)
        (match list_find (fun d => d.1.1 = Code e) ErrorDefinitions with Some (_, (_, actions)) => actions | None => SafeActions e end)
        (Cause e)
  | None =>
      if errors_Is err SysDeadlineExceeded
      then withCause (Some err) (newError CodeDeadlineExceeded "The request deadline elapsed." RetryAfterReconcile
             [EvOperation (String.string_of_list_byte (operationName o));
              EvDeadline (String.string_of_list_byte (FormatRFC3339Nano now))]
             [ActionStatus; ActionReconcile; ActionAbort])
      else withCause (Some err) (newError CodeInternal "The server failed safely." RetryAfterOperator
             [EvCorrelationID (String.string_of_list_byte (lit "server-" ++ FormatInt (UnixNano now)));
              EvLifecycle (StLifecycle status)]
             [ActionStatus; ActionVerify; ActionAbort])
  end.

(** ** The server *)

Section server.
Context {C A L F H G : Type} `{Clock C, !RevisionAllocator A, !CommitLog L, !Faults F}.

(** [sv_admin] is the state of the administrative interface; [sv_pid],
    [sv_startedAt] and [sv_active] (the number of active connections) are those
    of the process. *)
Record Server := MkServer {
  sv_owner : owner C A L F;
  sv_controller : Controller;
  sv_limits : Limits;
  sv_active : Z;
  sv_recovery : bool;             (* the slot of recovery snapshots is taken *)
  sv_requests : Z;
  sv_draining : bool;
  sv_pid : Z;
  sv_startedAt : Time;
  sv_admin : G
}.
Implicit Types sv : Server.

Definition with_owner (o : owner C A L F) sv : Server :=
  MkServer o (sv_controller sv) (sv_limits sv) (sv_active sv) (sv_recovery sv) (sv_requests sv) (sv_draining sv)
    (sv_pid sv) (sv_startedAt sv) (sv_admin sv).
Definition with_requests (n : Z) sv : Server :=
  MkServer (sv_owner sv) (sv_controller sv) (sv_limits sv) (sv_active sv) (sv_recovery sv) n (sv_draining sv)
    (sv_pid sv) (sv_startedAt sv) (sv_admin sv).

(** [admin.Status] with what the controller adds to it. *)
Definition RunningStatus sv : RunningView :=
  let st := AdminStatus (sv_owner sv) in
  let '(records, watches, queueDepth, queueCapacity) := AdminCounts (sv_owner sv) in
  let ct := sv_controller sv in
  let audit := normalizedAudit (CtAudit ct) in
  let healthy := bool_decide (StLifecycle st = LifecycleReady) in
  MkRunningView
    (MkStatus (StLifecycle st) (StDatabaseID st) (StCurrentRevision st) (StDurableThroughRevision st)
       (StReservedRevisionEnd st) (MfSnapshotRevision (CtManifest ct)) (MfWALStartRevision (CtManifest ct))
       (StEarliestWatchRevision st) (StLimits st))
    healthy (if healthy then [] else lit (lifecycleText (StLifecycle st))) records watches queueDepth
    (MkConfigValues (StLimits st) queueCapacity (CtWALBufferSize ct) (AudMaxLineBytes audit) (AudMaxFileBytes audit)
       (AudKeepGenerations audit) (CtMaxAdminPaths ct)).

Definition databaseID sv : bytes := StDatabaseID (RvStatus (RunningStatus sv)).

Definition boundedFailures (view : RunningView) : list bytes := if RvHealthy view then [] else [RvDegradedReason view].
Definition healthActions (view : RunningView) : list bytes :=
  if RvHealthy view then [] else (fun a => lit (actionText a)) <$> [ActionStatus; ActionVerify; ActionAbort].

Definition dispatchInspection (o : Operation) sv : result goerror Result :=
  let view := RunningStatus sv in
  let status := RvStatus view in
  match o with
  | OperationStatus =>
      Ok (StatusRes (MkStatusResult (lit (lifecycleText (StLifecycle status))) (StDatabaseID status) (StCurrentRevision status)
        (StDurableThroughRevision status) (StReservedRevisionEnd status) (StSnapshotRevision status) (StActiveWALStart status)
        (StEarliestWatchRevision status) (RvRecordCount view) (RvWatchCount view) (RvQueueDepth view) (sv_active sv)
        (StLimits status) (sv_pid sv) (FormatRFC3339Nano (sv_startedAt sv)) false false))
  | OperationHealth =>
      Ok (HealthRes (MkHealthResult (lit (lifecycleText (StLifecycle status))) (RvHealthy view) (Some (boundedFailures view))
        (Some (healthActions view))))
  | OperationStats =>
      Ok (StatsRes (MkStatsResult 1 (RvRecordCount view) 0 0 (StCurrentRevision status) 0 0 0 0 (RvWatchCount view) 0
        (sv_active sv) (RvQueueDepth view) 0 0))
  | OperationDescribeConfig => Ok (ConfigRes (MkConfigResult (RvEffectiveConfig view) (lit "flag") HardLimits false))
  | _ => Err (invalidRequest "operation" "operation requires non-empty arguments")
  end.

(** *** Waiting for the writer *)

(** A caller that has submitted a command waits for its reply while the writer
    runs; [None] if the writer cannot go on. *)
Fixpoint awaitReply (n : nat) (ticket : Z) (o : owner C A L F) : option (reply * owner C A L F) :=
  match (ow_replies o !! ticket : option reply) with
  | Some r => Some (r, o)
  | None => match n with O => None | S n => o ← runCommand o; awaitReply n ticket o end
  end.

Definition mutation (submitted : outcome (result goerror Z) * owner C A L F) sv :
    option (outcome (result goerror Result) * Server) :=
  match submitted with
  | (Panicked v, o) => Some (Panicked v, with_owner o sv)
  | (Returned (Err e), o) => Some (Returned (Err e), with_owner o sv)
  | (Returned (Ok ticket), o) =>
      match awaitReply (length (ow_queue o)) ticket o with
      | Some (replyCommit r, o) => Some (Returned (r ← r; Ok (MutationRes (CrResult r))), with_owner o sv)
      | _ => None
      end
  end.

(** A read runs in the caller. *)
Definition reading {X} (make : X -> Result) (run : DatabaseState C A L F -> result goerror X * DatabaseState C A L F) sv :
    option (outcome (result goerror Result) * Server) :=
  let (r, st) := run (ow_state (sv_owner sv)) in
  Some (Returned (r ← r; Ok (make r)), with_owner (with_state st (sv_owner sv)) sv).

(** The administrative commands: verify, snapshot, compaction and backup. *)
Class Administration := {
  administer : Operation -> Arguments -> bytes -> Server -> option (outcome (result goerror Result) * Server)
}.
Context `{Administration}.

(** The switch of [dispatch] on the arguments; [ctx] is the context with the read
    timeout, or [background] if there is none. *)
Definition execRequest (ctx : context) (request : Request) sv : option (outcome (result goerror Result) * Server) :=
  match RqArguments request with
  | GetArguments key => reading GetResult (Get key) sv
  | GetManyArguments keys => reading ManyResult (ReadMany keys) sv
  | PutArguments key value expiresAt ack =>
      if bool_decide (RqOperation request = OperationPut) then mutation (Put ctx key (Some value) expiresAt ack (sv_owner sv)) sv
      else mutation (PutIfAbsent ctx key (Some value) expiresAt ack (sv_owner sv)) sv
  | CompareAndSwapArguments key expected value expiresAt ack =>
      mutation (CompareAndSwap ctx key expected (Some value) expiresAt ack (sv_owner sv)) sv
  | DeleteIfRevisionArguments key expected ack => mutation (DeleteIfRevision ctx key expected ack (sv_owner sv)) sv
  | BatchArguments batch => mutation (AtomicBatch ctx batch (sv_owner sv)) sv
  | ScanArguments prefix limit cursor => reading PageResult (ScanPrefix prefix limit cursor) sv
  | EmptyArguments => Some (Returned (dispatchInspection (RqOperation request) sv), sv)
  | VerifyArguments _ | SnapshotArguments _ _ | CompactArguments _ _ | BackupArguments _ _ _ =>
      administer (RqOperation request) (RqArguments request) (RqRequestID request) sv
  | OfflineInspectArguments _ | OfflineVerifyArguments _ _ | OfflineRecoverProposeArguments _ | OfflineRecoverApplyArguments _ _ _ _ _ =>
      Some (Returned (Err (invalidRequest "operation" "offline operations are not available on the owner socket")), sv)
  | RecoverySnapshotArguments _ | WatchArguments _ _ =>
      Some (Returned (Err (invalidRequest "operation" "operation is not implemented by the owner")), sv)
  end.

(** A response without stream fields. *)
Definition unaryResponse (ok : bool) (id : bytes) (o : Operation) (result : option Result) (failure : option Error) sv : Response :=
  MkResponse SchemaVersion ok id (databaseID sv) o result [] 0 None [] (errorValue <$> failure).

(** [dispatch]; the database id is that of the status before the request. *)
Definition dispatch (ctx : context) (now : Time) (request : Request) sv : option (outcome Response * Server) :=
  '(outcome, sv') ← execRequest ctx request sv;
  Some (match outcome with
    | Panicked v => Panicked v
    | Returned (Ok result) => Returned (unaryResponse true (RqRequestID request) (RqOperation request) (Some result) None sv)
    | Returned (Err e) =>
        Returned (unaryResponse false (RqRequestID request) (RqOperation request) None
          (Some (structuredError now e (RqOperation request) (RvStatus (RunningStatus sv')))) sv)
    end, sv').

(** ** Writing responses *)

Definition responseTooLarge (received maximum : Z) : Error :=
  newError CodeFrameTooLarge "Protocol response exceeds the configured frame limit." RetryNever
    [EvReceivedBytes received; EvMaximumBytes maximum] [ActionReduceRequest; ActionAbort].

Definition receivedBytesOf (e : Error) : Z :=
  match evidenceOf e "received_bytes" with Some (EvReceivedBytes n) => n | _ => 0 end.

(** The answer in place of a response that does not fit. *)
Definition fallbackResponse (received maximum : Z) (r : Response) : Response :=
  MkResponse SchemaVersion false (RspRequestID r) (RspDatabaseID r) (RspOperation r) None [] 0 None []
    (Some (errorValue (responseTooLarge received maximum))).

Definition encodeFallback (limits : Limits) (received : Z) (r : Response) : result goerror bytes :=
  payload ← EncodeResponse (fallbackResponse received (MaxFrameBytes limits) r);
  reject MaxFrameBytes limits <? len payload with ErrGap (responseTooLarge received (MaxFrameBytes limits)) ;;
  Ok payload.

Definition encodeResponseForFrame (limits : Limits) (r : Response) : result goerror bytes :=
  match EncodeResponse r with
  | Err e =>
      match asError e with
      | Some oversized =>
          if bool_decide (Code oversized = CodeFrameTooLarge) then encodeFallback limits (receivedBytesOf oversized) r else Err e
      | None => Err e
      end
  | Ok payload => if MaxFrameBytes limits <? len payload then encodeFallback limits (len payload) r else Ok payload
  end.

Definition PointResponsePublish : string := "response.publish".

Context {W : Type} `{Writer W, !Faults H}.

(** A connection with the hooks around the publication of a response. *)
Definition writeResponse (limits : Limits) (r : Response) (w : W) (h : H) : error * W * H :=
  match encodeResponseForFrame limits r with
  | Err e => (Some e, w, h)
  | Ok payload =>
      let (e, h) := fault_Checkpoint PointResponsePublish Before h in
      match e with
      | Some e => (Some e, w, h)
      | None =>
          match WriteFrame payload (MaxFrameBytes limits) w with
          | (Some e, w) => (Some e, w, h)
          | (None, w) => let (e, h) := fault_Checkpoint PointResponsePublish After h in (e, w, h)
          end
      end
  end.

Definition writeFailure (now : Time) (o : Operation) (id : bytes) (err : goerror) sv (w : W) (h : H) : error * W * H :=
  writeResponse (sv_limits sv)
    (unaryResponse false id o None (Some (structuredError now err o (RvStatus (RunningStatus sv)))) sv) w h.

Definition busyError (message : string) (active maximum depth : Z) : Error :=
  newError CodeServerBusy message RetryImmediate [EvActiveClients active; EvMaximumClients maximum; EvQueueDepth depth]
    [ActionRetryWithBackoff; ActionAbort].

(** The answer of [accept] when all slots for connections are taken. *)
Definition rejectConnection sv (w : W) (h : H) : error * W * H :=
  writeResponse (sv_limits sv)
    (unaryResponse false [] OperationStatus None
       (Some (busyError "The configured client limit is active." (sv_active sv) (MaxConcurrentClients (sv_limits sv))
                (RvQueueDepth (RunningStatus sv)))) sv) w h.

Definition handleRecoverySnapshot (now : Time) (id : bytes) (request : RecoverySnapshotRequest) sv (w : W) (h : H) :
    error * Server * W * H :=
  let (r, st) := ReadRecoverySnapshot request (ow_state (sv_owner sv)) in
  let sv := with_owner (with_state st (sv_owner sv)) sv in
  match r with
  | Err e => let '(e, w, h) := writeFailure now OperationReadRecoverySnapshot id e sv w h in (e, sv, w, h)
  | Ok exported =>
      match EncodeRecoverySnapshot (MkRecoveryResult (RsDatabaseID exported) id (RsObservedRevision exported) (RsAsOf exported)
               (RsRecords exported)) request with
      | Err e => let '(e, w, h) := writeFailure now OperationReadRecoverySnapshot id e sv w h in (e, sv, w, h)
      | Ok payload =>
          let (e, h) := fault_Checkpoint PointResponsePublish Before h in
          match e with
          | Some e => (Some e, sv, w, h)
          | None =>
              match WriteRecoveryFrame payload (RrMaxBytes request) w with
              | (Some e, w) => (Some e, sv, w, h)
              | (None, w) => let (e, h) := fault_Checkpoint PointResponsePublish After h in (e, sv, w, h)
              end
          end
      end
  end.

(** *** Watches *)

Definition watchResponse (ok : bool) (id database : bytes) (stream : bytes) (registration : Revision) (event : option ChangeEvent)
    (reason : bytes) (failure : option Error) : Response :=
  MkResponse SchemaVersion ok id database OperationWatch None stream registration event reason (errorValue <$> failure).

(** What the loop of [handleWatch] selects: an event or the end of the
    subscription, or the shutdown of the server. *)
Inductive watchItem := WatchItemEvent (e : ChangeEvent) | WatchItemEnded (t : WatchTermination) | WatchItemShutdown.

Definition endedResponse (id database : bytes) (lastWritten : Revision) (t : WatchTermination) : Response :=
  match TermError t with
  | Some e => watchResponse false id database StreamEnded 0 None (reasonText WatchEndedByError) (Some (setLastDelivered lastWritten e))
  | None => watchResponse true id database StreamEnded 0 None (reasonText (TermReason t)) None
  end.

Fixpoint watchLoop (limits : Limits) (id database : bytes) (lastWritten : Revision) (items : list watchItem) (w : W) (h : H) : W * H :=
  match items with
  | [] => (w, h)
  | WatchItemEvent e :: items =>
      match writeResponse limits (watchResponse true id database StreamEvent 0 (Some e) [] None) w h with
      | (Some _, w, h) => (w, h)
      | (None, w, h) => watchLoop limits id database (EvtRevision e) items w h
      end
  | WatchItemEnded t :: _ => let '(_, w, h) := writeResponse limits (endedResponse id database lastWritten t) w h in (w, h)
  | WatchItemShutdown :: _ =>
      let '(_, w, h) := writeResponse limits
        (watchResponse true id database StreamEnded 0 None (reasonText WatchEndedByShutdown) None) w h in (w, h)
  end.

(** [handleWatch] on the answer of the engine to the registration and on what
    the subscription then delivers. *)
Definition handleWatch (now : Time) (id : bytes) (after : Revision) (subscribed : result goerror Revision) (items : list watchItem)
    sv (w : W) (h : H) : W * H :=
  match subscribed with
  | Err e =>
      let '(_, w, h) := writeResponse (sv_limits sv)
        (watchResponse false id (databaseID sv) StreamEnded 0 None (reasonText WatchEndedByError)
           (Some (structuredError now e OperationWatch (RvStatus (RunningStatus sv))))) w h in (w, h)
  | Ok registration =>
      match writeResponse (sv_limits sv) (watchResponse true id (databaseID sv) StreamStarted registration None [] None) w h with
      | (Some _, w, h) => (w, h)
      | (None, w, h) => watchLoop (sv_limits sv) id (databaseID sv) after items w h
      end
  end.

(** ** Connections *)

(** What one round of the loop meets: the time, the context of the request, and
    for a watch the answer of the engine and what the subscription delivers. *)
Record Round := MkRound { ro_now : Time; ro_context : context; ro_subscribed : result goerror Revision; ro_items : list watchItem }.

(** The recovery of [serveConnection] from a panic of a handler. *)
Definition recoverHandler sv (w : W) (h : H) : Server * W * H :=
  let n := wrap_u64 (sv_requests sv + 1) in
  let sv := with_requests n (with_owner (MarkAdminDegraded (sv_owner sv)) sv) in
  let failure := newError CodeInternal "A server handler failed safely." RetryAfterOperator
    [EvCorrelationID (String.string_of_list_byte (lit "panic-" ++ FormatUint n)); EvLifecycle LifecycleDegradedReadOnly]
    [ActionStatus; ActionVerify; ActionAbort] in
  let '(_, w, h) := writeResponse (sv_limits sv) (unaryResponse false [] OperationStatus None (Some failure) sv) w h in
  (sv, w, h).

(** The round behind a frame; the boolean says whether the connection goes on.
    [None] if the writer of the engine cannot go on. *)
Definition serveFrame (round : Round) (payload : bytes) sv (w : W) (h : H) : option (bool * Server * W * H) :=
  match DecodeRequest payload (sv_limits sv) with
  | Err e => let '(_, w, h) := writeFailure (ro_now round) OperationStatus [] e sv w h in Some (true, sv, w, h)
  | Ok request =>
      match RqArguments request with
      | WatchArguments prefix after =>
          let (w, h) := handleWatch (ro_now round) (RqRequestID request) after (ro_subscribed round) (ro_items round) sv w h in
          Some (false, sv, w, h)
      | RecoverySnapshotArguments arguments =>
          if sv_recovery sv then
            let '(_, w, h) := writeFailure (ro_now round) (RqOperation request) (RqRequestID request)
              (ErrGap (busyError "The bounded recovery snapshot slot is active." (sv_active sv)
                         (MaxConcurrentClients (sv_limits sv)) (RvQueueDepth (RunningStatus sv)))) sv w h in
            Some (true, sv, w, h)
          else
            let '(e, sv, w, h) := handleRecoverySnapshot (ro_now round) (RqRequestID request) arguments sv w h in
            Some (match e with Some _ => false | None => true end, sv, w, h)
      | _ =>
          '(response, sv) ← dispatch (ro_context round) (ro_now round) request sv;
          match response with
          | Panicked _ => let '(sv, w, h) := recoverHandler sv w h in Some (false, sv, w, h)
          | Returned response =>
              let '(e, w, h) := writeResponse (sv_limits sv) response w h in
              Some (match e with Some _ => false | None => true end, sv, w, h)
          end
      end
  end.

(** [serveConnection], one round for each frame that is read; the connection is
    still open when the rounds are used up. *)
Fixpoint serveConnection (rounds : list Round) (reader : Reader) sv (w : W) (h : H) : option (bool * Reader * Server * W * H) :=
  match rounds with
  | [] => Some (true, reader, sv, w, h)
  | round :: rounds =>
      if sv_draining sv then Some (false, reader, sv, w, h)
      else
        let (payload, reader) := ReadFrame reader (MaxFrameBytes (sv_limits sv)) in
        match payload with
        | Err e =>
            if errors_Is e SysEOF || errors_Is e SysClosed then Some (false, reader, sv, w, h)
            else
              let '(_, w, h) := writeFailure (ro_now round) OperationStatus [] e sv w h in
              Some (false, reader, sv, w, h)
        | Ok payload =>
            '(open, sv, w, h) ← serveFrame round payload sv w h;
            if (open : bool) then serveConnection rounds reader sv w h else Some (false, reader, sv, w, h)
        end
  end.
End server.
Arguments Server : clear implicits.
