(* ===== verification/ServerFacts.v ===== *)
(** * Every response is framed

    The answer that replaces a response too long for a frame always fits one:
    every request but a watch is answered ([response_always_framed]). *)

From stdpp Require Import base gmap list strings.
From Stdlib Require Import ZArith Lia.
From S2P Require Import Prelude.
From S2P Require Import Bytes.
From S2P Require Import Errors.
From S2P Require Import ApiTypes.
From S2P Require Import Json.
From S2P Require Import GoTime.
From S2P Require Import GoJson.
From S2P Require Import Frame.
From S2P Require Import Envelope.
From S2P Require Import Requests.
From S2P Require Import AdminResults.
From S2P Require Import WireErrors.
From S2P Require Import Responses.
From S2P Require Import ResultCodec.
From S2P Require Import ResponseCodec.
From S2P Require Import Server.

Local Open Scope Z_scope.
Local Open Scope go_scope.

(** ** Lengths of encodings *)

Lemma escape_byte_length b : (length (escape_byte b) <= 6)%nat.
Proof. unfold escape_byte. repeat case_match; simpl; lia. Qed.

(** The escapes that [Marshal] writes for runes. *)
Ltac literal_length := match goal with |- context [len (lit ?s)] => change (len (lit s)) with 6 end.

Lemma marshal_chars_length fuel s : len (marshal_chars fuel s) <= 6 * len s.
Proof.
  revert s. induction fuel as [|fuel IH]; intros s; [destruct s; unfold len; simpl; lia|]. destruct s as [|b s]; [done|].
  cbn [marshal_chars]. destruct (b2z b <? 128).
  - rewrite len_app. pose proof (escape_byte_length b). specialize (IH s). unfold len in *. cbn [length] in *. lia.
  - destruct (rune_length (b :: s)) as [|n].
    + rewrite len_app. specialize (IH s). literal_length. unfold len in *. cbn [length] in *. lia.
    + rewrite len_app. specialize (IH (drop (S n) (b :: s))).
      assert (len (take (S n) (b :: s)) + len (drop (S n) (b :: s)) = len (b :: s)) as Hsum by (rewrite <- len_app; by rewrite take_drop).
      assert (1 <= len (take (S n) (b :: s))) by (unfold len; cbn [take length]; lia).
      repeat case_bool_decide; try literal_length; lia.
Qed.

Lemma string_text_length s : len (raw_text (jstring s)) <= 6 * len s + 2.
Proof. pose proof (marshal_chars_length (length s) s). unfold jstring. cbn [raw_text]. rewrite !len_app. change (len [chr 34]) with 1. lia. Qed.

Lemma FormatUint_length z : u64 z -> len (FormatUint z) <= 20.
Proof. intros Hz. destruct (FormatUint_head z Hz) as (d & rest & -> & _ & _ & Hl). unfold len. cbn [length]. lia. Qed.

Lemma FormatInt_length z : i64 z -> len (FormatInt z) <= 21.
Proof.
  unfold i64, max_int64. intros Hz. unfold FormatInt. destruct (Z.ltb_spec z 0).
  - rewrite len_app. change (len [chr 45]) with 1. pose proof (FormatUint_length (- z) ltac:(unfold u64, max_uint64; lia)). lia.
  - pose proof (FormatUint_length z ltac:(unfold u64, max_uint64; lia)). lia.
Qed.

(** The text of an object, member by member. *)
Definition members_length (ms : list (bytes * jvalue)) : Z :=
  foldr (fun m n => len (marshal_string m.1) + len (raw_text m.2) + 2 + n) 0 ms.

Lemma object_text_length ms : len (raw_text (jobject ms)) <= members_length ms + 2.
Proof.
  unfold jobject. cbn [raw_text]. unfold marshal_object. rewrite !len_app. change (len [chr 123]) with 1. change (len [chr 125]) with 1.
  assert (len (marshal_members (json_text ms)) <= members_length ms); [|lia].
  induction ms as [|[name v] ms IH]; [done|]. unfold json_text in *. rewrite fmap_cons. cbn [members_length foldr fst snd] in *.
  fold (members_length ms). destruct ms as [|m ms]; cbn [fmap list_fmap marshal_members] in *; unfold marshal_member at 1; cbn [fst snd];
    rewrite !len_app; change (len [chr 58]) with 1; [cbn [members_length foldr]; lia|change (len [chr 44]) with 1; lia].
Qed.

(** Lengths of texts that are known. *)
Ltac closed_lengths :=
  repeat match goal with
  | |- context [len (marshal_string (lit ?s))] =>
      let n := eval vm_compute in (len (marshal_string (lit s))) in change (len (marshal_string (lit s))) with n
  | |- context [len (raw_text ?v)] =>
      lazymatch v with jstring (lit _) => idtac | jarray _ => idtac | JBool _ => idtac | JNumber (FormatUint 1) => idtac end;
      let n := eval vm_compute in (len (raw_text v)) in change (len (raw_text v)) with n
  end.

Lemma operation_text_length o : len (raw_text (jstring (operationName o))) <= 25.
Proof. apply (bool_decide_unpack _). destruct o; vm_compute; done. Qed.

(** The members of a unary response: its last is the result or the error. *)
Definition envelopeMembers (ok : bool) (id database : bytes) (o : Operation) (name : string) (v : jvalue) : list (bytes * jvalue) :=
  [(lit "schema_version", JNumber (FormatUint 1)); (lit "ok", JBool ok)]
  ++ (if bool_decide (id = []) then [] else [(lit "request_id", jstring id)])
  ++ [(lit "database_id", jstring database); (lit "operation", jstring (operationName o)); (lit name, v)].

Lemma envelope_length ok id database o name v :
  len id <= 256 -> forallb plain database = true -> len database <= 64 ->
  len (raw_text (jobject (envelopeMembers ok id database o name v))) <= 1740 + len (marshal_string (lit name)) + len (raw_text v).
Proof.
  intros Hid Hplain Hdb. etransitivity; [apply object_text_length|].
  pose proof (string_text_length id). pose proof (operation_text_length o).
  assert (len (raw_text (jstring database)) <= 66).
  { unfold jstring. cbn [raw_text]. rewrite marshal_chars_plain by done. rewrite !len_app. change (len [chr 34]) with 1. lia. }
  unfold envelopeMembers. destruct ok; case_bool_decide; cbn [app members_length foldr fst snd];
    generalize (marshal_string (lit name)); intros text; closed_lengths; lia.
Qed.

(** ** The fallback *)

Section fallback.
Variables (r : Response) (received maximum : Z).
Hypothesis received_ok : 0 < received < 2 ^ 63.
Hypothesis maximum_ok : 0 < maximum < 2 ^ 63.
Hypothesis id_ok : utf8_valid (RspRequestID r) = true /\ len (RspRequestID r) <= 256.
Hypothesis database_ok : forallb plain (RspDatabaseID r) = true /\ RspDatabaseID r <> [] /\ len (RspDatabaseID r) <= 64.
Hypothesis unary : RspOperation r <> OperationWatch.

Let e : Error := responseTooLarge received maximum.
Let fb : Response := fallbackResponse received maximum r.

Lemma fallback_error : wire_error e.
Proof.
  split; [done|apply (bool_decide_unpack _); vm_compute; done| |repeat (apply Forall_cons; split; [exact I|]); by apply Forall_nil].
  repeat (apply Forall_cons; split); [| |by apply Forall_nil];
    (split; [change (evidenceType _) with TInt; apply roundtrips_int; unfold i64, max_int64; lia|simpl; lia]).
Qed.

Lemma fallback_wire : wire_response fb (Some e).
Proof.
  split; try done.
  - cbn. destruct database_ok as (Hp%plain_utf8 & _). tauto.
  - split; [done|]. intros ? [= <-]. exact fallback_error.
Qed.

Lemma fallback_members : errorMembers e =
  [(lit "code", jstring (lit "FRAME_TOO_LARGE")); (lit "message", jstring (lit (Message e))); (lit "retry", jstring (lit "never"));
   (lit "received_bytes", JNumber (FormatInt received)); (lit "maximum_bytes", JNumber (FormatInt maximum));
   (lit "safe_actions", jarray [jstring (lit "reduce_request"); jstring (lit "abort")])].
Proof.
  assert (Hr : (received =? 0) = false) by lia. assert (Hm : (maximum =? 0) = false) by lia.
  unfold errorMembers. cbv -[FormatInt Z.eqb jstring jarray lit]. rewrite Hr, Hm. reflexivity.
Qed.
Lemma fallback_json : responseJson fb = jobject
  (envelopeMembers false (RspRequestID r) (RspDatabaseID r) (RspOperation r) "error" (jobject (errorMembers e))).
Proof. rewrite (responseJson_raw fb (Some e) fallback_wire). reflexivity. Qed.

Lemma fallback_error_length : len (raw_text (jobject (errorMembers e))) <= 260.
Proof.
  etransitivity; [apply object_text_length|]. rewrite fallback_members. cbn [members_length foldr fst snd]. closed_lengths.
  cbn [raw_text]. unfold FormatInt. replace (received <? 0) with false by lia. replace (maximum <? 0) with false by lia.
  pose proof (FormatUint_length received ltac:(unfold u64, max_uint64; lia)).
  pose proof (FormatUint_length maximum ltac:(unfold u64, max_uint64; lia)). lia.
Qed.

Lemma fallback_fits : len (responseText fb) <= MinimumMaxFrameBytes.
Proof.
  unfold responseText. rewrite fallback_json. pose proof fallback_error_length. change MinimumMaxFrameBytes with 2048.
  etransitivity; [apply envelope_length; tauto|]. closed_lengths. lia.
Qed.

Lemma fallback_coherent : coherent fb (Some e).
Proof.
  split; try done.
  - cbn. tauto.
  - cbn. tauto.
  - rewrite decide_False by done. done.
  - intros ? [= <-]. by split_and!.
Qed.
End fallback.

(** ** Answers *)

(** The response that is sent for [r], and its error. *)
Definition framed (limits : Limits) (r : Response) : Response :=
  if MaxFrameBytes limits <? len (responseText r) then fallbackResponse (len (responseText r)) (MaxFrameBytes limits) r else r.
Definition framedError (limits : Limits) (r : Response) (err : option Error) : option Error :=
  if MaxFrameBytes limits <? len (responseText r) then Some (responseTooLarge (len (responseText r)) (MaxFrameBytes limits)) else err.

Section answers.
Variables (limits : Limits) (r : Response) (err : option Error).
Hypothesis limits_valid : Options_Validate limits = None.
Hypothesis Hwire : wire_response r err.
Hypothesis Hcoherent : coherent r err.
Hypothesis database_ok : forallb plain (RspDatabaseID r) = true /\ len (RspDatabaseID r) <= 64.
Hypothesis unary : RspOperation r <> OperationWatch.
Hypothesis memory : len (responseText r) < 2 ^ 63.

Lemma frame_bounds : MinimumMaxFrameBytes <= MaxFrameBytes limits <= MaxFrameBytes HardLimits.
Proof. clear -limits_valid. apply Options_Validate_iff in limits_valid. pose proof (lo_frame_min _ limits_valid). pose proof (limits_ok_fields _ limits_valid) as Hf. tauto. Qed.

Lemma framed_ok : wire_response (framed limits r) (framedError limits r err) /\ coherent (framed limits r) (framedError limits r err) /\
  len (responseText (framed limits r)) <= MaxFrameBytes limits.
Proof.
  pose proof frame_bounds as Hb. change MinimumMaxFrameBytes with 2048 in Hb. change (MaxFrameBytes HardLimits) with 67108864 in Hb.
  unfold framed, framedError. destruct (Z.ltb_spec (MaxFrameBytes limits) (len (responseText r))); [|done].
  destruct (wp_texts _ _ Hwire) as (Hid & _). pose proof (co_request _ _ Hcoherent). pose proof (co_database _ _ Hcoherent).
  split_and!; [apply fallback_wire|apply fallback_coherent|etransitivity; [apply fallback_fits|]]; try lia; tauto.
Qed.

Lemma encode_framed : encodeResponseForFrame limits r = Ok (responseText (framed limits r)).
Proof.
  pose proof frame_bounds as Hb. destruct framed_ok as (Hw & Hc & Hlen). unfold encodeResponseForFrame.
  assert (Hfall : MaxFrameBytes limits < len (responseText r) ->
    encodeFallback limits (len (responseText r)) r = Ok (responseText (framed limits r))).
  { intros Hlt. unfold encodeFallback. revert Hw Hc Hlen. unfold framed, framedError.
    replace (MaxFrameBytes limits <? len (responseText r)) with true by lia. intros Hw Hc Hlen.
    destruct (proj1 (encode_exact _ _ Hw)) as [-> _]; [split; [done|lia]|]. cbn [mbind result_bind].
    by destruct (Z.ltb_spec (MaxFrameBytes limits) (len (responseText (fallbackResponse (len (responseText r)) (MaxFrameBytes limits) r)))); [lia|]. }
  destruct (Z.lt_ge_cases (MaxFrameBytes HardLimits) (len (responseText r))) as [Hbig|Hsmall].
  - rewrite (encode_oversized r err Hwire Hcoherent Hbig). cbn [asError protocolFrameTooLarge]. apply Hfall. lia.
  - rewrite (proj1 (proj1 (encode_exact _ _ Hwire) (conj Hcoherent Hsmall))).
    destruct (Z.ltb_spec (MaxFrameBytes limits) (len (responseText r))); [by apply Hfall|].
    unfold framed. by replace (MaxFrameBytes limits <? len (responseText r)) with false by lia.
Qed.

(** C23: every request is answered in one frame.  With valid limits, a coherent
    response to any operation but a watch is encoded within the configured frame
    limit, whatever the length of its result and of the request id that it
    echoes: as it is, or as the error that it is too large, for the same request
    and operation; and the other side decodes what was sent. *)
Theorem response_always_framed :
  encodeResponseForFrame limits r = Ok (responseText (framed limits r)) /\
  len (responseText (framed limits r)) <= MaxFrameBytes limits /\
  DecodeResponse (responseText (framed limits r)) (MaxFrameBytes HardLimits) =
    Ok (arrivedResponse (framed limits r) (framedError limits r err)).
Proof.
  destruct framed_ok as (Hw & Hc & Hlen). pose proof frame_bounds. split_and!; [exact encode_framed|done|].
  apply (encode_exact _ _ Hw). split; [done|lia].
Qed.
End answers.

(** ** Responses that are not answers *)

(** The error for a repeated key of a batched read lacks the index that the
    catalog requires with it: no response carries it. *)
Lemma duplicate_read_unreportable key e : exactReadDuplicate key = ErrGap e -> ~ reportable e.
Proof. intros [= <-] (_ & _ & Hs & _). by vm_compute in Hs. Qed.

(** The fallback says nothing of a stream, as a watch must. *)
Lemma watch_fallback_incoherent received maximum r err :
  RspOperation r = OperationWatch -> ~ coherent (fallbackResponse received maximum r) err.
Proof. intros Ho Hc. pose proof (co_shape _ _ Hc) as Hs. cbn in Hs. rewrite decide_True in Hs by done. by destruct Hs as [(? & _)|[(? & _)|(? & _)]]. Qed.

Lemma response_always_framed_witness :
  encodeResponseForFrame DefaultOptions SampleResponse.response = Ok (responseText (framed DefaultOptions SampleResponse.response)).
Proof.
  apply (response_always_framed DefaultOptions SampleResponse.response None ltac:(vm_compute; reflexivity) SampleResponse.carried
    SampleResponse.sensible ltac:(vm_compute; split; done) ltac:(discriminate) ltac:(vm_compute; reflexivity)).
Defined.
