(* ===== verification/FileFrames.v ===== *)
(** * Frames: what a storage operation leaves alone

    Data is kept under regular names (those without [".tmp-"]).
    [keeps_files names s s'] says that, whatever directory a crash exposes
    after the operation, every regular name outside [names] refers to the file
    it referred to before, with the same bytes. *)

From stdpp Require Import base gmap list strings.
From Stdlib Require Import ZArith Lia.
From S2P Require Import Prelude.
From S2P Require Import Bytes.
From S2P Require Import Errors.
From S2P Require Import FaultFS.
From S2P Require Import StorageErrors.
From S2P Require Import Storage.
From S2P Require Import Identity.
From S2P Require Import Json.
From S2P Require Import Manifest.

Local Open Scope Z_scope.

(** ** Names *)

(** A name is regular if at most four characters are left at its first dot, so
    that it has no [".tmp-"] in it; all the files that hold data have such
    names. *)
Fixpoint from_dot (l : bytes) : bytes :=
  match l with
  | [] => []
  | b :: rest => if b2z b =? 46 then l else from_dot rest
  end.
Definition regular (name : string) : Prop := len (from_dot (lit name)) <= 4.

Lemma lit_app a b : lit (a +:+ b) = lit a ++ lit b.
Proof.
  unfold lit, String.list_byte_of_string. rewrite <- map_app. f_equal.
  induction a as [|c a IH]; [done|]. exact (f_equal (cons c) IH).
Qed.

Lemma from_dot_app l x : 1 + len x <= len (from_dot (l ++ chr 46 :: x)).
Proof.
  induction l as [|b l IH]; cbn [app from_dot].
  - change (b2z (chr 46) =? 46) with true. cbv iota. rewrite len_cons. lia.
  - destruct (_ =? _); [|done]. change (b :: l ++ chr 46 :: x) with ((b :: l) ++ chr 46 :: x).
    rewrite len_app, !len_cons. pose proof (len_nonneg l). lia.
Qed.

Lemma regular_temp final suffix : ~ regular (final +:+ ".tmp-" +:+ suffix).
Proof.
  unfold regular. rewrite lit_app, lit_app. change (lit ".tmp-") with (chr 46 :: lit "tmp-"). cbn [app].
  pose proof (from_dot_app (lit final) (lit "tmp-" ++ lit suffix)) as Hl. rewrite len_app in Hl.
  change (len (lit "tmp-")) with 4 in Hl. pose proof (len_nonneg (lit suffix)).
  lia.
Qed.

Lemma from_dot_skip l x : forallb (fun b => negb (b2z b =? 46)) l = true -> from_dot (l ++ x) = from_dot x.
Proof.
  induction l as [|b l IH]; [done|]. cbn [app forallb from_dot]. intros [Hb Hl]%andb_true_iff.
  apply negb_true_iff in Hb. rewrite Hb. by apply IH.
Qed.

Lemma padRevision_no_dot rev : u64 rev -> forallb (fun b => negb (b2z b =? 46)) (padRevision rev) = true.
Proof.
  intros (_ & Hd & _)%padRevision_spec. rewrite forallb_forall in *. intros b Hb. specialize (Hd b Hb).
  unfold is_digit, in_range in Hd. lia.
Qed.

Lemma lit_name l : lit (String.string_of_list_byte l) = l.
Proof. apply String.list_byte_of_string_of_list_byte. Qed.

Lemma snapshotFileName_regular rev : u64 rev -> regular (snapshotFileName rev).
Proof.
  intros Hrev. unfold regular, snapshotFileName. rewrite lit_name, from_dot_skip, from_dot_skip; [done| |done].
  by apply padRevision_no_dot.
Qed.

Lemma walFileName_regular rev : u64 rev -> regular (walFileName rev).
Proof.
  intros Hrev. unfold regular, walFileName. rewrite lit_name, from_dot_skip, from_dot_skip; [done| |done].
  by apply padRevision_no_dot.
Qed.

Lemma identity_regular : regular IdentityFilename.
Proof. by vm_compute. Qed.
Lemma manifest_regular : regular ManifestFilename.
Proof. by vm_compute. Qed.
#[export] Hint Resolve snapshotFileName_regular walFileName_regular identity_regular manifest_regular : gapdb.

Lemma padRevision_inj r r' : u64 r -> u64 r' -> padRevision r = padRevision r' -> r = r'.
Proof. intros (_ & _ & H1)%padRevision_spec (_ & _ & H2)%padRevision_spec Heq. congruence. Qed.

Lemma name_inj pre r r' : u64 r -> u64 r' ->
  String.string_of_list_byte (lit pre ++ padRevision r ++ lit ".gdb") =
  String.string_of_list_byte (lit pre ++ padRevision r' ++ lit ".gdb") -> r = r'.
Proof.
  intros Hr Hr' Heq. apply (f_equal lit) in Heq. rewrite !lit_name in Heq. apply (inj (app _)) in Heq.
  apply app_inv_tail in Heq. by apply padRevision_inj.
Qed.

(** Names of different kinds differ in their first letter. *)
Lemma snapshot_wal_name r r' : snapshotFileName r <> walFileName r'.
Proof. intros Heq. apply (f_equal lit) in Heq. unfold snapshotFileName, walFileName in Heq. by rewrite !lit_name in Heq. Qed.
Lemma snapshot_fixed_name r : snapshotFileName r <> ManifestFilename /\ snapshotFileName r <> IdentityFilename.
Proof.
  split; intros Heq; apply (f_equal lit) in Heq; unfold snapshotFileName in Heq; by rewrite lit_name in Heq.
Qed.
Lemma wal_fixed_name r : walFileName r <> ManifestFilename /\ walFileName r <> IdentityFilename.
Proof.
  split; intros Heq; apply (f_equal lit) in Heq; unfold walFileName in Heq; by rewrite lit_name in Heq.
Qed.

(** ** Frames *)

Section frames.
Context {E : Type} `{OSEnv E}.
Implicit Types s : FSState E.

(** The regular names but those of [names] have the same files. *)
Definition same_files (names : gset string) s s' (d d' : Directory) : Prop :=
  forall n, regular n -> n ∉ names ->
    d' !! n = d !! n /\ forall i, d' !! n = Some i -> fs_inodes s' !! i = fs_inodes s !! i.

Record keeps_files (names : gset string) s s' : Prop := {
  kf_crash : forall d', crash_dir s' d' -> exists d, crash_dir s d /\ same_files names s s' d d';
  kf_dir : same_files names s s' (fs_dir s) (fs_dir s')
}.

Lemma same_files_trans names s1 s2 s3 d1 d2 d3 :
  same_files names s1 s2 d1 d2 -> same_files names s2 s3 d2 d3 -> same_files names s1 s3 d1 d3.
Proof.
  intros H1 H2 n Hr Hn. destruct (H1 n Hr Hn) as [He1 Hi1], (H2 n Hr Hn) as [He2 Hi2].
  split; [congruence|]. intros i Hi. rewrite (Hi2 i Hi). apply Hi1. congruence.
Qed.

Lemma keeps_files_trans names s1 s2 s3 :
  keeps_files names s1 s2 -> keeps_files names s2 s3 -> keeps_files names s1 s3.
Proof.
  intros [Hc1 Hd1] [Hc2 Hd2]. split; [|by eapply same_files_trans]. intros d3 (d2 & Hd & H2)%Hc2.
  destruct (Hc1 d2 Hd) as (d1 & ? & H1). exists d1. split; [done|]. by eapply same_files_trans.
Qed.

Lemma keeps_files_mono names names' s s' : names ⊆ names' -> keeps_files names s s' -> keeps_files names' s s'.
Proof.
  intros Hsub [Hc Hd]. split; [|intros n Hr Hn; apply Hd; [done|set_solver]].
  intros d' (d & ? & Heq)%Hc. exists d. split; [done|]. intros n Hr Hn. apply Heq; [done|set_solver].
Qed.

Lemma keeps_files_disk names s s' : disk s' = disk s -> keeps_files names s s'.
Proof.
  unfold disk. intros [= Hi Hd Hp].
  assert (forall d, same_files names s s' d d) as Hsame by (intros d n _ _; by rewrite Hi).
  split; [|by rewrite Hd]. unfold crash_dir. rewrite Hd, Hp. eauto.
Qed.

Lemma keeps_files_refl names s : keeps_files names s s.
Proof. by apply keeps_files_disk. Qed.

Lemma touches_keeps names names' s s' : fs_wf s -> (forall n, regular n -> n ∉ names' -> n ∉ names) ->
  touches names s s' -> keeps_files names' s s'.
Proof.
  intros Hwf Hsub [Hi Hc Hd].
  assert (forall d d', crash_dir s d -> (forall m, m ∉ names -> d' !! m = d !! m) -> same_files names' s s' d d') as Hs.
  { intros d d' Hcd Heq n Hr Hn. specialize (Heq n (Hsub n Hr Hn)). split; [done|]. intros i Hl. rewrite Heq in Hl.
    destruct (wf_inodes _ Hwf d n i Hcd Hl) as [x Hx]. by rewrite (Hi _ _ Hx). }
  split; [|apply Hs; [by left|done]]. intros d' (d & Hcd & Heq)%Hc. eauto.
Qed.

Lemma replaces_keeps names final s s' : fs_wf s -> final ∈ names -> replaces final s s' -> keeps_files names s s'.
Proof.
  intros Hwf Hin (suffix & Ht). eapply touches_keeps; [done| |done]. intros n Hr Hn.
  rewrite not_elem_of_union, !not_elem_of_singleton. split; [|by intros ->]. intros ->. by apply regular_temp in Hr.
Qed.

Lemma keeps_files_holds names s s' name P :
  keeps_files names s s' -> regular name -> name ∉ names -> holds s name P -> holds s' name P.
Proof.
  intros [Hc _] Hreg Hname HP d' (d & Hd & Heq)%Hc. destruct (HP d Hd) as (f & Hf & Hin). exists f. split; [done|].
  destruct (Heq name Hreg Hname) as [He Hi]. unfold file_in, inode in *. rewrite <- He in Hin.
  destruct (d' !! name) as [i|]; [|done]. by rewrite (Hi i).
Qed.

(** The name belongs to the inode [i] whatever directory a crash exposes. *)
Definition named s (name : string) (i : positive) : Prop := forall d, crash_dir s d -> d !! name = Some i.

Lemma keeps_files_named names s s' name i :
  keeps_files names s s' -> regular name -> name ∉ names -> named s name i ->
  named s' name i /\ fs_inodes s' !! i = fs_inodes s !! i.
Proof.
  intros [Hc Hd] Hreg Hname Hn. destruct (Hd name Hreg Hname) as [He Hi]. split.
  - intros d' (d & Hcd & Heq)%Hc. destruct (Heq name Hreg Hname) as [-> _]. by apply Hn.
  - apply Hi. rewrite He. apply Hn. by left.
Qed.

Lemma keeps_files_now names s s' name i :
  keeps_files names s s' -> regular name -> name ∉ names -> fs_dir s !! name = Some i ->
  fs_dir s' !! name = Some i /\ inode i s' = inode i s.
Proof.
  intros [_ Hd] Hreg Hname Hi. destruct (Hd name Hreg Hname) as [He Hino]. rewrite Hi in He. split; [done|].
  unfold inode. by rewrite (Hino i He).
Qed.

(** No file has this name. *)
Definition absent s (name : string) : Prop := forall d, crash_dir s d -> d !! name = None.

Lemma absent_holds s name : absent s name -> holds s name (fun f => f = None).
Proof. intros Ha d Hd. exists None. split; [done|]. unfold file_in. by rewrite Ha. Qed.

Lemma absent_disk s s' name : disk s' = disk s -> absent s name -> absent s' name.
Proof. unfold disk, absent, crash_dir. by intros [= _ -> ->]. Qed.

Lemma keeps_files_absent names s s' name :
  keeps_files names s s' -> regular name -> name ∉ names -> absent s name -> absent s' name.
Proof. intros [Hc _] Hreg Hname Hn d' (d & Hd & Heq)%Hc. destruct (Heq name Hreg Hname) as [-> _]. by apply Hn. Qed.
End frames.
