(* ===== verification/FaultFree.v ===== *)
(** * Runs without faults

    In an environment where no system call fails and no hook intervenes, the
    storage operations return, with a result that is a function of the disk.
    [runs] is the total-correctness judgement for them; the rules follow the
    monad of [Storage]. *)

From stdpp Require Import base gmap list strings sorting.
From Stdlib Require Import ZArith Lia.
From S2P Require Import Prelude.
From S2P Require Import Bytes.
From S2P Require Import Errors.
From S2P Require Import FaultFS.
From S2P Require Import StorageErrors.
From S2P Require Import WalScan.
From S2P Require Import WalLog.
From S2P Require Import Storage.

Local Open Scope Z_scope.

Class FaultFree (E : Type) `{OSEnv E} : Prop := {
  free_visit : forall e event, (env_visit e event).1 = None;
  free_fail : forall e call, (env_fail e call).1 = None;
  free_transfer : forall e n, n <= (env_transfer e n).1
}.

Global Instance quiet_free : FaultFree (H := quiet) unit.
Proof. split; try done. Qed.

(** The operation returns a value, and [Q] holds of it and of the state. *)
Definition runs {E A} (m : fsio E A) (s : FSState E) (Q : A -> FSState E -> Prop) : Prop :=
  exists a s', m s = (Ok a, s') /\ Q a s'.

Section rules.
Context {E : Type}.
Implicit Types s : FSState E.

Lemma runs_ret {A} (a : A) s (Q : A -> FSState E -> Prop) : Q a s -> runs (fs_ret a) s Q.
Proof. intros HQ. by exists a, s. Qed.

Lemma runs_lift {A} (a : A) r s (Q : A -> FSState E -> Prop) : r = Ok a -> Q a s -> runs (fs_lift r) s Q.
Proof. intros -> HQ. by exists a, s. Qed.

Lemma runs_bind {A B} (m : fsio E A) (k : A -> fsio E B) s (Q : A -> FSState E -> Prop) R :
  runs m s Q -> (forall a s', Q a s' -> runs (k a) s' R) -> runs (fs_bind m k) s R.
Proof.
  intros (a & s1 & Hm & HQ) Hk. destruct (Hk a s1 HQ) as (b & s2 & Hk2 & HR). exists b, s2. split; [|done].
  unfold fs_bind. by rewrite Hm.
Qed.

Lemma runs_mono {A} (m : fsio E A) s (Q R : A -> FSState E -> Prop) :
  runs m s Q -> (forall a s', Q a s' -> R a s') -> runs m s R.
Proof. intros (a & s1 & Hm & HQ) HQR. exists a, s1. auto. Qed.

Lemma runs_value {A} wrap (m : fsio E A) s Q : runs m s Q -> runs (fs_value wrap m) s Q.
Proof. intros (a & s1 & Hm & HQ). exists a, s1. split; [|done]. unfold fs_value. by rewrite Hm. Qed.

Lemma runs_call wrap (call : FSState E -> error * FSState E) s (Q : unit -> FSState E -> Prop) :
  (exists s', call s = (None, s') /\ Q tt s') -> runs (fs_call wrap call) s Q.
Proof. intros (s1 & Hm & HQ). exists tt, s1. split; [|done]. unfold fs_call. by rewrite Hm. Qed.

Lemma runs_on_error {A} cleanup (m : fsio E A) s Q : runs m s Q -> runs (fs_on_error cleanup m) s Q.
Proof. intros (a & s1 & Hm & HQ). exists a, s1. split; [|done]. unfold fs_on_error. by rewrite Hm. Qed.

Lemma runs_defer {A} cleanup (m : fsio E A) s (Q : A -> FSState E -> Prop) :
  runs m s (fun a s' => Q a (cleanup s').2) -> runs (fs_defer cleanup m) s Q.
Proof. intros (a & s1 & Hm & HQ). exists a, (cleanup s1).2. split; [|done]. unfold fs_defer. by rewrite Hm. Qed.
End rules.

Section calls.
Context {E : Type} `{FaultFree E}.
Implicit Types s : FSState E.

Lemma visit_free p ph s : exists s', visit p ph s = (None, s') /\ disk s' = disk s.
Proof.
  unfold visit. pose proof (free_visit (fs_env s) (MkEvent p ph)) as Hv.
  destruct (env_visit _ _) as [r env]. simpl in Hv. subst r. by eexists.
Qed.

Lemma os_fail_free c s : exists s', os_fail c s = (None, s') /\ disk s' = disk s.
Proof.
  unfold os_fail. pose proof (free_fail (fs_env s) c) as Hv.
  destruct (env_fail _ _) as [r env]. simpl in Hv. subst r. by eexists.
Qed.

Lemma file_Close_free i s : exists s', file_Close i s = (None, s') /\ disk s' = disk s.
Proof. apply os_fail_free. Qed.

(** A hooked call: the hooks are silent. *)
Lemma hooked_free p call s (Q : FSState E -> Prop) :
  (forall s1, disk s1 = disk s -> exists s2, call s1 = (None, s2) /\ forall s3, disk s3 = disk s2 -> Q s3) ->
  exists s', hooked p call s = (None, s') /\ Q s'.
Proof.
  intros Hc. unfold hooked. destruct (visit_free p Before s) as (s1 & -> & Hd1).
  destruct (Hc s1 Hd1) as (s2 & -> & HQ). destruct (visit_free p After s2) as (s3 & -> & Hd3). eauto.
Qed.

Lemma OpenFile_free p name i s : fs_dir s !! name = Some i ->
  runs (OpenFile p name (MkFlags false false)) s (fun j s' => j = i /\ disk s' = disk s).
Proof.
  intros Hl. unfold runs, OpenFile, os_open. destruct (visit_free p Before s) as (s1 & -> & Hd1).
  destruct (os_fail_free SysOpen s1) as (s2 & -> & Hd2). rewrite Hd1 in Hd2.
  pose proof Hd2 as Hdir. unfold disk in Hdir. injection Hdir as _ -> _. rewrite Hl. simpl.
  destruct (visit_free p After s2) as (s3 & -> & Hd3). exists i, s3. split_and!; congruence.
Qed.

Lemma readFile_free i s :
  runs (readFile i) s (fun r s' => r = MkReader (ino_data (inode i s)) None /\ disk s' = disk s).
Proof.
  unfold runs, readFile, fileReader. destruct (os_fail_free SysRead s) as (s1 & -> & Hd1).
  destruct (env_transfer _ _) as [k env]. eexists _, _. split; [done|]. split; [|done].
  pose proof (disk_inode i s s1 Hd1) as Hi. unfold inode in *. simpl. by rewrite Hi.
Qed.

Lemma ReadDir_free p s :
  runs (ReadDir p) s (fun l s' => l = merge_sort String.le (map_to_list (fs_dir s)).*1 /\ disk s' = disk s).
Proof.
  unfold runs, ReadDir, hooked_value, os_readdir. destruct (visit_free p Before s) as (s1 & -> & Hd1).
  destruct (os_fail_free SysReadDir s1) as (s2 & -> & Hd2). rewrite Hd1 in Hd2.
  destruct (visit_free p After s2) as (s3 & -> & Hd3). eexists _, s3. split; [done|].
  pose proof Hd2 as Hdir. unfold disk in Hdir. injection Hdir as _ -> _. split; congruence.
Qed.

Lemma Truncate_free p i n s : exists s', Truncate p i n s = (None, s') /\
  disk s' = disk (setInode i (MkInode (slice (ino_data (inode i s)) 0 n) (Z.min (ino_synced (inode i s)) n)) s).
Proof.
  apply hooked_free. intros s1 Hd1. unfold file_Truncate.
  destruct (os_fail_free SysTruncate s1) as (s2 & -> & Hd2). rewrite Hd1 in Hd2. eexists. split; [done|].
  intros s3 ->. rewrite (disk_inode i s s2) by done. unfold disk in *. simpl. congruence.
Qed.

Lemma Sync_free p i s : exists s', Sync p i s = (None, s') /\
  disk s' = disk (setInode i (MkInode (ino_data (inode i s)) (len (ino_data (inode i s)))) s).
Proof.
  apply hooked_free. intros s1 Hd1. unfold file_Sync.
  destruct (os_fail_free SysFsync s1) as (s2 & -> & Hd2). rewrite Hd1 in Hd2. eexists. split; [done|].
  intros s3 ->. rewrite (disk_inode i s s2) by done. unfold disk in *. simpl. congruence.
Qed.

(** Every byte is taken. *)
Lemma file_Write_free i v s : exists s', file_Write i v s = (len v, None, s').
Proof.
  unfold file_Write. destruct (os_fail_free SysWrite s) as (s1 & -> & _).
  pose proof (free_transfer (fs_env s1) (len v)) as Ht. destruct (env_transfer _ _) as [k env]. simpl in Ht.
  rewrite (proj2 (Z.ltb_ge _ _)) by lia. rewrite Z.ltb_irrefl. eauto.
Qed.

Lemma writeAll_free point v i s : exists s', writeAll point v i s = (None, s').
Proof.
  unfold writeAll, writeFull. destruct v as [|b v]; [by eexists|]. set (l := b :: v).
  assert (exists s', writeFull_loop (length l) point (fileWriter i) l (tt, s) = Some (None, (tt, s'))) as (s' & ->);
    [|by eexists].
  assert (0 < len l) as Hl by (unfold l; rewrite len_cons; pose proof (len_nonneg v); lia).
  change (length l) with (S (length v)). cbn [writeFull_loop]. rewrite (proj2 (Z.eqb_neq _ _)) by lia.
  unfold Write. destruct (visit_free point Before s) as (s1 & -> & _). unfold fileWriter at 1. simpl snd.
  destruct (file_Write_free i l s1) as (s2 & ->). destruct (visit_free point After s2) as (s3 & -> & _).
  rewrite (proj2 (Z.ltb_ge (len l) 0)), Z.ltb_irrefl by lia. simpl orb. cbv iota.
  rewrite (proj2 (Z.eqb_neq _ _)) by lia. rewrite slice_empty by lia. exists s3. by destruct (length v).
Qed.

Lemma os_open_free name s : fs_dir s !! name = None -> exists i s', os_open (MkFlags true true) name s = (Ok i, s') /\
  fs_dir s' !! name = Some i.
Proof.
  intros Hl. unfold os_open. destruct (os_fail_free SysOpen s) as (s1 & -> & Hd).
  unfold disk in Hd. injection Hd as _ -> _. rewrite Hl. simpl. eexists _, _. split; [done|]. simpl. apply lookup_insert_eq.
Qed.

(** The replacement of a file succeeds if its temporary name is free. *)
Lemma replaceFile_free p op final point data rnd s suffix rnd' :
  fs_wf s -> randomSuffix rnd = (Ok suffix, rnd') -> fs_dir s !! (final +:+ ".tmp-" +:+ suffix) = None ->
  exists s', replaceFile p op final (writeAll point data) rnd s = (Ok tt, rnd', s').
Proof.
  intros Hwf Hrnd Hfree. unfold replaceFile. rewrite Hrnd. set (temp := final +:+ ".tmp-" +:+ suffix) in *.
  assert (exists s1, prepareFile p temp (writeAll point data) s = (Ok tt, s1)) as (s1 & Hp).
  { unfold prepareFile, fs_bind, fs_value, OpenFile. destruct (visit_free (in_create p).1 Before s) as (s1 & -> & Hd1).
    destruct (os_open_free temp s1) as (i & s2 & -> & Hi).
    { unfold disk in Hd1. injection Hd1 as _ -> _. done. }
    destruct (visit_free (in_create p).1 After s2) as (s3 & -> & _). unfold fs_on_error, fs_call.
    destruct (writeAll_free point data i s3) as (s4 & ->). destruct (Sync_free (in_sync p).1 i s4) as (s5 & -> & _).
    destruct (file_Close_free i s5) as (s6 & -> & _). by eexists. }
  unfold installFile, fs_bind. rewrite Hp.
  eapply prepareFile_spec in Hp as (_ & _ & i & _ & _ & Hi); [|done|apply writeAll_writes].
  unfold fs_call. assert (exists s2, Rename (in_rename p).1 temp final s1 = (None, s2)) as (s2 & ->).
  { edestruct (hooked_free (in_rename p).1 (os_rename temp final) s1 (fun _ => True)) as (s2 & Hr & _); [|by eexists].
    intros s2 Hd2. unfold os_rename. destruct (os_fail_free SysRename s2) as (s3 & -> & Hd3). rewrite Hd2 in Hd3.
    unfold disk in Hd3. injection Hd3 as _ -> _. rewrite Hi. eauto. }
  assert (exists s3, SyncDir (in_dir p).1 s2 = (None, s3)) as (s3 & ->); [|by eexists].
  edestruct (hooked_free (in_dir p).1 os_syncdir s2 (fun _ => True)) as (s3 & Hr & _); [|by eexists].
  intros s3 Hd3. unfold os_syncdir. destruct (os_fail_free SysSyncDir s3) as (s4 & -> & _). eauto.
Qed.
End calls.
