(* ===== verification/Recovery.v ===== *)
(** * Recovery of a database from its files (internal/persist/recovery.go)

    [recoverOwned] is [RecoverDatabase] once the owner lock is held: it reads
    the identity and the manifest, loads the snapshot they name, scans the log,
    cuts off a torn tail, and reserves the next revisions.  A restart is
    modelled by [restarts]: the new process finds one of the directories that
    a crash may expose, each file with its synced bytes and any number of the
    bytes after them.  What recovery returns is a function of those files, in
    any environment; in one without faults it does return. *)

From stdpp Require Import base gmap list strings sorting.
From Stdlib Require Import ZArith Lia.
From S2P Require Import Prelude.
From S2P Require Import Bytes.
From S2P Require Import Errors.
From S2P Require Import ApiTypes.
From S2P Require Import Allocator.
From S2P Require Import FaultFS.
From S2P Require Import StorageErrors.
From S2P Require Import WalCodec.
From S2P Require Import WalScan.
From S2P Require Import WalLog.
From S2P Require Import OrderedKeys.
From S2P Require Import Storage.
From S2P Require Import Identity.
From S2P Require Import Sha256.
From S2P Require Import Snapshot.
From S2P Require Import Manifest.
From S2P Require Import FileFrames.
From S2P Require Import FaultFree.

Local Open Scope Z_scope.
Local Open Scope go_scope.
Local Open Scope fsio_scope.

(** ** The snapshot *)

Definition defaultLimits (limits : Limits) : Limits :=
  if (MaxKeyBytes limits <=? 0) || (MaxValueBytes limits <=? 0) then DefaultOptions else limits.

Definition withSnapshotFile (err : goerror) (file : string) : goerror :=
  match asError err with
  | None => err
  | Some e =>
      match Code e with
      | CodeCorruptSnapshot | CodeUnknownFormat | CodeDatabaseIDMismatch =>
          ErrGap (withEvidence (setFile (filepath_Base file) (Evidences e)) e)
      | _ => ErrGap e
      end
  end.

(** The decoding part of [SnapshotFileStore.Load]. *)
Definition loadSnapshot (limits : Limits) (m : Manifest) (encoded : bytes) : result goerror SnapshotState :=
  reject MaxSnapshotBytes <? len encoded
    with corruptSnapshot "snapshot exceeds the format size bound" (MfSnapshotFile m) 0 None ;;
  match hex_DecodeString (MfSnapshotSHA256 m) with
  | None => Err (corruptSnapshot "manifest snapshot digest is invalid" (MfSnapshotFile m) 0
                   (Some (ErrText "encoding/hex: invalid byte")))
  | Some digest =>
      reject negb (len digest =? 32)
        with corruptSnapshot "manifest snapshot digest is invalid" (MfSnapshotFile m) 0 None ;;
      match DecodeSnapshot encoded (MfDatabaseID m) digest limits with
      | Err e => Err (withSnapshotFile e (MfSnapshotFile m))
      | Ok state => Ok state
      end
  end.

(** The loop of [validateSnapshotState]; [seen] holds the keys before. *)
Fixpoint validateRecords (revision : Revision) (file : string) (index : Z) (previous : option bytes)
    (seen : gset bytes) (records : list DBRecord) : error :=
  match records with
  | [] => None
  | r :: rest =>
      if bool_decide (RecKey r = []) || negb (utf8_valid (RecKey r)) || (RecRevision r =? 0)
         || (revision <? RecRevision r)
      then Some (corruptSnapshot "snapshot record fields are invalid" file index None)
      else if match previous with Some p => bytes_leb (RecKey r) p | None => false end
      then Some (corruptSnapshot "snapshot records are not strictly key-sorted" file index None)
      else if bool_decide (RecKey r ∈ seen)
      then Some (corruptSnapshot "snapshot contains duplicate keys" file index None)
      else validateRecords revision file (index + 1) (Some (RecKey r)) ({[RecKey r]} ∪ seen) rest
  end.

Definition validateSnapshotState (state : SnapshotState) (m : Manifest) : error :=
  if negb (SnRevision state =? MfSnapshotRevision m)
  then Some (corruptSnapshot "snapshot revision does not match CURRENT" (MfSnapshotFile m) 0 None)
  else validateRecords (SnRevision state) (MfSnapshotFile m) 0 None ∅ (SnRecords state).

(** ** The log *)

Definition PointReadDir : string := "filesystem.read_dir".
Definition PointWALTailTruncate : string := "wal.tail_truncate".
Definition PointWALTailSync : string := "wal.tail_sync".

(** A generation file that the manifest does not name. *)
Definition isCleanupCandidate (m : Manifest) (name : string) : bool :=
  negb (bool_decide (name = MfSnapshotFile m) || bool_decide (name = MfWALFile m))
  && (has_prefix (lit name) (lit "snapshot-") || has_prefix (lit name) (lit "wal-"))
  && has_suffix (lit name) (lit ".gdb").

Section recovery.
Context {E : Type} `{OSEnv E}.

Definition Load (limits : Limits) (m : Manifest) : fsio E SnapshotState :=
  let limits := defaultLimits limits in
  let? file := fs_value (ioFailure "snapshot_open" (MfSnapshotFile m))
                 (OpenFile PointOpen (MfSnapshotFile m) (MkFlags false false)) in
  fs_defer (file_Close file)
    (let? reader := readFile file in
     match ReadAllLimited (MaxSnapshotBytes + 1) reader with
     | Err e => fs_throw (ioFailure "snapshot_read" (MfSnapshotFile m) e)
     | Ok encoded => fs_lift (loadSnapshot limits m encoded)
     end).

(** The open file, at its place in the directory, and what it replays to. *)
Definition scanWALFile (path : string) (expectedID : DatabaseID) (afterRevision reservedEnd : Revision)
    (limits : Limits) : fsio E (positive * WALReplay) :=
  let base := filepath_Base path in
  let? i := fs_value (ioFailure "wal_open" base) (OpenFile PointOpen path (MkFlags false false)) in
  fs_on_error (file_Close i)
    (do? fs_call (ioFailure "wal_stat" base) (os_fail SysStat);
     let? size := (fun s => (Ok (len (ino_data (inode i s))), s)) in
     let? reader := readFile i in
     match ScanWAL reader size expectedID afterRevision reservedEnd limits with
     | Err e => fs_throw (withWALContext e base 0)
     | Ok r =>
         fs_ret (i, MkReplay (RpHeader r) (RpCommits r) (RpRecovered r) (RpCompleteOffset r)
                      ((fun t => MkTail (TailCode t) base (TailOldSize t) (TailNewSize t) (TailLastComplete t))
                         <$> RpTail r))
     end).

Definition applyWALTail (i : positive) (base : string) (tail : option TailTruncation) : fsio E unit :=
  match tail with
  | None => fs_ret tt
  | Some t =>
      do? fs_call (ioFailureApplied "wal_tail_truncate" base) (Truncate PointWALTailTruncate i (TailNewSize t));
      fs_call (ioFailureApplied "wal_tail_sync" base) (Sync PointWALTailSync i)
  end.

Definition RecoverWALFile (path : string) (expectedID : DatabaseID) (afterRevision reservedEnd : Revision)
    (limits : Limits) : fsio E WALReplay :=
  let? opened := scanWALFile path expectedID afterRevision reservedEnd limits in
  let (i, r) := opened in
  fs_defer (file_Close i) (do? applyWALTail i (filepath_Base path) (RpTail r); fs_ret r).

Definition cleanupCandidates (directory : string) (m : Manifest) : fsio E (list string) :=
  let? names := fs_value (ioFailure "read_directory" (filepath_Base directory)) (ReadDir PointReadDir) in
  fs_ret (merge_sort String.le (base.filter (fun n => isCleanupCandidate m n = true) names)).

(** ** The database *)

Record RecoveryOptions := MkRecoveryOptions {
  RoLimits : Limits;
  RoReservationSize : Z;
  RoSnapshotLoader : option (Manifest -> fsio E SnapshotState);
  RoAuditTail : option (TailTruncation -> FSState E -> error * FSState E)
}.

Record RecoveryResult := MkRecoveryResult {
  RrIdentity : Identity;
  RrManifest : Manifest;
  RrSnapshot : SnapshotState;
  RrCommits : list CommitFrame;
  RrCurrent : Revision;
  RrDurableThrough : Revision;
  RrAllocation : RevisionRange;
  RrTail : option TailTruncation;
  RrCleanup : list string
}.

(** Everything that follows the repair of the log's tail. *)
Definition finishRecovery (directory : string) (options : RecoveryOptions) (randomness : Reader)
    (identity : Identity) (m : Manifest) (snapshot : SnapshotState) (replay : WALReplay)
    : fsio E (RecoveryResult * Reader) :=
  let applied := bool_decide (RpTail replay <> None) in
  let after err := withRecoveryAppliedState err applied in
  do? match RpTail replay, RoAuditTail options with
      | None, _ => fs_ret tt
      | Some _, None =>
          fs_throw (after (auditAfterApplyError "startup_tail_truncate" "tail audit callback is required"
                             (RpRecovered replay) None))
      | Some tail, Some audit =>
          fs_call (fun err => after (auditAfterApplyError "startup_tail_truncate" "tail audit failed"
                                       (RpRecovered replay) (Some err))) (audit tail)
      end;
  if RoReservationSize options =? 0
  then fs_throw (after (revisionRangeError (IdReservedEnd identity) "reservation size must be greater than zero" None))
  else
    let? candidates := fs_value after (cleanupCandidates directory m) in
    let? reserved := fs_value after
      (fs_random (ReserveRevisions identity (RpRecovered replay) (RoReservationSize options)) randomness) in
    let '(updated, allocation, randomness) := reserved in
    fs_ret (MkRecoveryResult updated m snapshot (RpCommits replay) (RpRecovered replay) (RpRecovered replay)
              allocation (RpTail replay) candidates, randomness).

Definition recoverOwned (directory : string) (options : RecoveryOptions) (randomness : Reader)
    : fsio E (RecoveryResult * Reader) :=
  let? identity := ReadIdentity in
  let? m := ReadManifest (IdDatabaseID identity) 1 in
  match RoSnapshotLoader options with
  | None => fs_throw (corruptSnapshot "no snapshot validator is configured" (MfSnapshotFile m) 0 None)
  | Some load =>
      let? snapshot := load m in
      do? fs_lift match validateSnapshotState snapshot m with Some e => Err e | None => Ok tt end;
      let? opened := scanWALFile (MfWALFile m) (IdDatabaseID identity) (MfSnapshotRevision m)
                       (IdReservedEnd identity) (RoLimits options) in
      let (walFile, replay) := opened in
      fs_defer (file_Close walFile)
        (if negb (WhGeneration (RpHeader replay) =? MfGeneration m)
            || negb (WhFirstRevision (RpHeader replay) =? MfWALStartRevision m)
         then fs_throw (corruptWAL "WAL generation or start does not match CURRENT" (MfWALFile m) 0 None)
         else
           do? applyWALTail walFile (MfWALFile m) (RpTail replay);
           finishRecovery directory options randomness identity m snapshot replay)
  end.
End recovery.
Arguments RecoveryOptions : clear implicits.

(** ** Recovery without faults *)

Section reads.
Context {E : Type} `{FaultFree E}.
Implicit Types s : FSState E.

(** The file of this name, as a reader sees it. *)
Definition file_now s (name : string) (data : bytes) : Prop :=
  exists i, fs_dir s !! name = Some i /\ ino_data (inode i s) = data.

Lemma file_now_disk s s' name data : disk s' = disk s -> file_now s name data -> file_now s' name data.
Proof.
  intros Hd (i & Hi & Hdata). exists i. rewrite (disk_inode i s s') by done. unfold disk in Hd. by injection Hd as _ -> _.
Qed.

(** [m] returns [a] and changes nothing. *)
Abbreviation returns m s a := (runs m s (fun a' s' => a' = a /\ disk s' = disk s)).

(** Opening, reading and closing a file. *)
Lemma read_file_runs {A} p name wrap data (k : Reader -> fsio E A) s a :
  file_now s name data ->
  (forall s', disk s' = disk s -> returns (k (MkReader data None)) s' a) ->
  returns (fs_bind (fs_value wrap (OpenFile p name (MkFlags false false)))
             (fun i => fs_defer (file_Close i) (fs_bind (readFile i) k))) s a.
Proof.
  intros (i & Hi & <-) Hk. eapply runs_bind; [apply runs_value, OpenFile_free, Hi|]. intros j s1 [-> Hd1].
  apply runs_defer. eapply runs_bind; [apply readFile_free|]. intros r s2 [-> Hd2].
  rewrite (disk_inode i s s1) by done. assert (disk s2 = disk s) as Hd by congruence.
  eapply runs_mono; [by apply Hk|]. intros b s3 [-> Hd3]. split; [done|].
  destruct (file_Close_free i s3) as (s4 & -> & Hd4). simpl. congruence.
Qed.

Lemma DecodeIdentity_len encoded id : DecodeIdentity encoded = Ok id -> len encoded = IdentitySize.
Proof. unfold DecodeIdentity. destruct (Z.eqb_spec (len encoded) IdentitySize); done. Qed.

Lemma ReadIdentity_runs s encoded id :
  file_now s IdentityFilename encoded -> DecodeIdentity encoded = Ok id -> returns ReadIdentity s id.
Proof.
  intros Hf Hd. pose proof (DecodeIdentity_len _ _ Hd) as Hlen. unfold IdentitySize in Hlen.
  eapply read_file_runs; [done|]. intros s1 Hd1. cbv zeta.
  assert (ReadFull (IdentitySize + 1) (MkReader encoded None) =
          (encoded, Some (ErrSys SysUnexpectedEOF), MkReader [] None)) as ->.
  { apply ReadFull_short; [unfold IdentitySize; lia|by intros ->]. }
  apply (runs_bind _ _ _ (fun _ s' => s' = s1)); [by apply runs_ret|]. intros [] s2 ->. rewrite Hlen. simpl.
  eapply runs_lift; [|done]. rewrite (slice_full' encoded) by done. exact Hd.
Qed.

Lemma ReadManifest_runs s encoded id min m :
  file_now s ManifestFilename encoded -> DecodeManifest encoded id min = Ok m -> returns (ReadManifest id min) s m.
Proof.
  intros Hf Hd. eapply read_file_runs; [done|]. intros s1 Hd1.
  assert (len encoded <= 4116) as Hlen.
  { unfold DecodeManifest, manifestHeaderLen, manifestTrailer, maxManifestJSON in Hd. cbv zeta in Hd.
    do 5 match type of Hd with (if ?c then Err _ else _) = Ok _ => destruct c eqn:?; [discriminate Hd|] end.
    go_bool. lia. }
  unfold ReadAllLimited, manifestHeaderLen, maxManifestJSON, manifestTrailer. simpl rd_data.
  rewrite (proj2 (Z.leb_gt _ _)) by lia. simpl rd_fail. cbv iota. rewrite (proj2 (Z.ltb_ge _ _)) by lia.
  by eapply runs_lift.
Qed.

Lemma Load_runs s limits m encoded state :
  file_now s (MfSnapshotFile m) encoded -> loadSnapshot (defaultLimits limits) m encoded = Ok state ->
  returns (Load limits m) s state.
Proof.
  intros Hf Hl. eapply read_file_runs; [done|]. intros s1 Hd1.
  assert (len encoded <= MaxSnapshotBytes) as Hlen.
  { unfold loadSnapshot in Hl. destruct (_ <? _) eqn:Hb in Hl; [done|]. lia. }
  unfold ReadAllLimited. simpl rd_data. rewrite (proj2 (Z.leb_gt _ _)) by lia. simpl rd_fail. cbv iota.
  by eapply runs_lift.
Qed.

(** The replay with the file's name in its tail. *)
Definition renameTail (base : string) (r : WALReplay) : WALReplay :=
  MkReplay (RpHeader r) (RpCommits r) (RpRecovered r) (RpCompleteOffset r)
    ((fun t => MkTail (TailCode t) base (TailOldSize t) (TailNewSize t) (TailLastComplete t)) <$> RpTail r).

Lemma scanWALFile_runs s path i id after reservedEnd limits replay :
  fs_dir s !! path = Some i ->
  ScanWAL (MkReader (ino_data (inode i s)) None) (len (ino_data (inode i s))) id after reservedEnd limits = Ok replay ->
  returns (scanWALFile path id after reservedEnd limits) s (i, renameTail (filepath_Base path) replay).
Proof.
  intros Hi Hscan. unfold scanWALFile. cbv zeta. eapply runs_bind; [apply runs_value, OpenFile_free, Hi|]. intros j s1 [-> Hd1].
  apply runs_on_error. apply (runs_bind _ _ _ (fun _ s' => disk s' = disk s)).
  { apply runs_call. destruct (os_fail_free SysStat s1) as (s2 & -> & Hd2). exists s2. split; [done|].
    exact (eq_trans Hd2 Hd1). }
  intros _ s2 Hd2. eapply (runs_bind _ _ _ (fun n s' => n = len (ino_data (inode i s)) /\ disk s' = disk s)).
  { eexists _, s2. split; [done|]. by rewrite (disk_inode i s s2). }
  intros n s3 [-> Hd3]. eapply runs_bind; [apply readFile_free|]. intros r s4 [-> Hd4].
  rewrite (disk_inode i s s3), Hscan by done. apply runs_ret. split; [done|congruence].
Qed.

(** The log after its torn tail has been cut off. *)
Definition repaired (replay : WALReplay) (n : Inode) : Inode :=
  match RpTail replay with
  | None => n
  | Some _ => let data := cut_tail (ino_data n) (RpTail replay) in MkInode data (len data)
  end.

Lemma applyWALTail_runs i base replay s : is_Some (fs_inodes s !! i) ->
  runs (applyWALTail i base (RpTail replay)) s (fun _ s' =>
    fs_dir s' = fs_dir s /\ fs_pending s' = fs_pending s /\
    fs_inodes s' = <[i := repaired replay (inode i s)]> (fs_inodes s)).
Proof.
  intros Hi. unfold applyWALTail, repaired, cut_tail. destruct (RpTail replay) as [t|].
  - apply (runs_bind _ _ _ (fun _ s' => disk s' =
      disk (setInode i (MkInode (slice (ino_data (inode i s)) 0 (TailNewSize t)) (Z.min (ino_synced (inode i s)) (TailNewSize t))) s))).
    { apply runs_call. destruct (Truncate_free PointWALTailTruncate i (TailNewSize t) s) as (s1 & -> & Hd). eauto. }
    intros _ s1 Hd1. apply runs_call. destruct (Sync_free PointWALTailSync i s1) as (s2 & -> & Hd2). exists s2. split; [done|].
    unfold disk in *. injection Hd1 as Hi1 Hdir1 Hp1. injection Hd2 as Hi2 Hdir2 Hp2. simpl in *.
    assert (ino_data (inode i s1) = slice (ino_data (inode i s)) 0 (TailNewSize t)) as Hdata
      by (unfold inode; by rewrite Hi1, lookup_insert_eq).
    rewrite Hi2, Hdir2, Hp2, Hdata, Hi1. split_and!; try done. by rewrite insert_insert_eq.
  - apply runs_ret. split_and!; try done. rewrite insert_id; [done|]. by apply inode_is_Some.
Qed.

Definition auditName : bytes := lit "audit.jsonl".

(** An audit that succeeds and writes to its own files. *)
Definition audit_fine (audit : TailTruncation -> FSState E -> error * FSState E) : Prop :=
  forall t s, fs_wf s -> exists s', audit t s = (None, s') /\ fs_wf s' /\ keeps_files ∅ s s' /\
    forall n, has_prefix (lit n) auditName = false -> fs_dir s' !! n = fs_dir s !! n.

Lemma ReserveRevisions_runs id recovered size rnd suffix rnd' s :
  identity_wf id -> DatabaseID_IsZero (IdDatabaseID id) = false -> recovered <= IdReservedEnd id -> 0 < size ->
  IdReservedEnd id + size <= max_uint64 -> IdGeneration id < max_uint64 -> fs_wf s ->
  randomSuffix rnd = (Ok suffix, rnd') -> fs_dir s !! (IdentityFilename +:+ ".tmp-" +:+ suffix) = None ->
  exists s', ReserveRevisions id recovered size rnd s =
    (Ok (grow size id, MkRevisionRange (IdReservedEnd id + 1) (IdReservedEnd id + size)), rnd', s').
Proof.
  intros (Hid & Hend & Hgen) Hz Hrec Hsize Hov Hg Hwf Hrnd Hfree. unfold ReserveRevisions, u64 in *. cbv zeta.
  rewrite (proj2 (Z.ltb_ge _ _)), (proj2 (Z.eqb_neq _ _)), (proj2 (Z.ltb_ge _ _)), (proj2 (Z.eqb_neq _ _)) by lia.
  rewrite !wrap_u64_small by lia. change (MkIdentity _ (IdReservedEnd id + size) (IdGeneration id + 1)) with (grow size id).
  assert (exists encoded, EncodeIdentity (grow size id) = Ok encoded) as (encoded & ->).
  { unfold EncodeIdentity. cbn [IdDatabaseID IdGeneration grow]. rewrite Hz, (proj2 (Z.eqb_neq _ _)) by lia. eauto. }
  destruct (replaceFile_free identityPlan "generate_temp_name" IdentityFilename "identity.temp_write" encoded
    rnd s suffix rnd' Hwf Hrnd Hfree) as (s' & Hr).
  unfold installIdentity. rewrite Hr. eauto.
Qed.

Lemma holds_now s name data : holds s name (fun f => f = Some data) -> file_now s name data.
Proof.
  intros Hh. destruct (Hh (fs_dir s) (or_introl eq_refl)) as (f & -> & Hin). unfold file_in in Hin.
  destruct (fs_dir s !! name) as [i|] eqn:Hi; [|done]. exists i. by rewrite Hin.
Qed.

(** What a process needs to start again: the identity has room for another
    reservation, there is randomness for a name that is free, and the audit
    works. *)
Record startable (options : RecoveryOptions E) (id : Identity) (rnd rnd' : Reader) (suffix : string) s : Prop := {
  sb_identity : identity_wf id;
  sb_nonzero : DatabaseID_IsZero (IdDatabaseID id) = false;
  sb_size : 0 < RoReservationSize options;
  sb_room : IdReservedEnd id + RoReservationSize options <= max_uint64;
  sb_generation : IdGeneration id < max_uint64;
  sb_random : randomSuffix rnd = (Ok suffix, rnd');
  sb_free : fs_dir s !! (IdentityFilename +:+ ".tmp-" +:+ suffix) = None;
  sb_audit : exists audit, RoAuditTail options = Some audit /\ audit_fine audit
}.

Definition identity_on s (id : Identity) : Prop :=
  holds s IdentityFilename (fun f => exists encoded, f = Some encoded /\ EncodeIdentity id = Ok encoded).

Lemma temp_not_audit suffix : has_prefix (lit (IdentityFilename +:+ ".tmp-" +:+ suffix)) auditName = false.
Proof. done. Qed.

Lemma finishRecovery_runs directory options id rnd rnd' suffix m state replay s :
  startable options id rnd rnd' suffix s -> fs_wf s -> identity_on s id -> RpRecovered replay <= IdReservedEnd id ->
  runs (finishRecovery directory options rnd id m state replay) s (fun p s' =>
    p.2 = rnd' /\ fs_wf s' /\ keeps_files {[IdentityFilename]} s s' /\
    identity_on s' (grow (RoReservationSize options) id) /\
    exists candidates, p.1 = MkRecoveryResult (grow (RoReservationSize options) id) m state (RpCommits replay)
      (RpRecovered replay) (RpRecovered replay)
      (MkRevisionRange (IdReservedEnd id + 1) (IdReservedEnd id + RoReservationSize options)) (RpTail replay) candidates).
Proof.
  intros [Hid Hz Hsize Hroom Hgen Hrnd Hfree (audit & Haudit & Hfine)] Hwf Hon Hrec. unfold finishRecovery. cbv zeta.
  apply (runs_bind _ _ _ (fun _ s' => fs_wf s' /\ keeps_files ∅ s s' /\
    fs_dir s' !! (IdentityFilename +:+ ".tmp-" +:+ suffix) = None)).
  { rewrite Haudit. destruct (RpTail replay) as [t|]; [|apply runs_ret; auto using keeps_files_refl]. apply runs_call.
    destruct (Hfine t s Hwf) as (s1 & -> & Hwf1 & Hk1 & Hsame). exists s1. split_and!; try done.
    by rewrite Hsame by apply temp_not_audit. }
  intros _ s1 (Hwf1 & Hk1 & Hfree1). rewrite (proj2 (Z.eqb_neq _ _)) by lia.
  apply (runs_bind _ _ _ (fun _ s' => disk s' = disk s1)).
  { apply runs_value. unfold cleanupCandidates. eapply runs_bind; [apply runs_value, ReadDir_free|].
    intros l s2 [-> Hd2]. by apply runs_ret. }
  intros candidates s2 Hd2. pose proof (keeps_files_disk {[IdentityFilename]} _ _ Hd2) as Hk2.
  assert (fs_dir s2 = fs_dir s1) as Hdir2 by (unfold disk in Hd2; congruence).
  assert (identity_on s2 id) as Hon2.
  { apply (keeps_files_holds ∅ s1); [by apply keeps_files_disk|by auto with gapdb|set_solver|].
    apply (keeps_files_holds ∅ s); [done|by auto with gapdb|set_solver|done]. }
  assert (fs_wf s2) as Hwf2 by (by eapply wf_disk).
  destruct (ReserveRevisions_runs id (RpRecovered replay) (RoReservationSize options) rnd suffix rnd' s2) as (s3 & Hres); try done.
  { by rewrite Hdir2. }
  pose proof (ReserveRevisions_spec _ _ _ _ _ _ _ _ Hid Hsize Hwf2
    ltac:(eapply holds_impl; [|exact Hon2]; intros f (e & -> & He); exists e; auto) Hres) as (Hwf3 & Hrep & _ & _ & _ & _ & _ & Hon3).
  eapply (runs_bind _ _ _ (fun a s' => a = (grow (RoReservationSize options) id,
    MkRevisionRange (IdReservedEnd id + 1) (IdReservedEnd id + RoReservationSize options), rnd') /\ s' = s3)).
  { apply runs_value. eexists _, s3. unfold fs_random. by rewrite Hres. }
  intros a s4 [-> ->]. apply runs_ret. split_and!; try done; [|by eexists].
  eapply keeps_files_trans; [eapply keeps_files_mono; [|done]; set_solver|].
  eapply keeps_files_trans; [exact Hk2|]. apply (replaces_keeps _ IdentityFilename); [done|set_solver|done].
Qed.

(** The files of a database whose manifest is [m]. *)
Record database_files (limits : Limits) (id : Identity) (m : Manifest) (state : SnapshotState) s : Prop := {
  df_identity : identity_on s id;
  df_manifest : exists encoded, holds s ManifestFilename (fun f => f = Some encoded) /\
    DecodeManifest encoded (IdDatabaseID id) 1 = Ok m;
  df_snapshot : exists encoded, holds s (MfSnapshotFile m) (fun f => f = Some encoded) /\
    loadSnapshot (defaultLimits limits) m encoded = Ok state;
  df_state : validateSnapshotState state m = None
}.

Lemma identity_read s id : identity_wf id -> identity_on s id ->
  exists encoded, file_now s IdentityFilename encoded /\ DecodeIdentity encoded = Ok id.
Proof.
  intros Hid Hon. destruct (Hon (fs_dir s) (or_introl eq_refl)) as (f & (encoded & -> & He) & Hin).
  exists encoded. split; [|by apply DecodeIdentity_encode]. unfold file_in in Hin.
  destruct (fs_dir s !! IdentityFilename) as [i|] eqn:Hi; [|done]. exists i. by rewrite Hin.
Qed.

(** Changing the bytes of one file. *)
Lemma set_inode_keeps s s' name i n :
  fs_wf s -> fs_pending s = [] -> fs_dir s !! name = Some i ->
  fs_dir s' = fs_dir s -> fs_pending s' = fs_pending s -> fs_inodes s' = <[i := n]> (fs_inodes s) ->
  fs_wf s' /\ keeps_files {[name]} s s'.
Proof.
  intros Hwf Hpend Hi Hdir' Hpend' Hino'. assert (forall d, crash_dir s' d <-> d = fs_dir s) as Hcd.
  { intros d. unfold crash_dir. rewrite Hdir', Hpend', Hpend, elem_of_nil. tauto. }
  assert (same_files {[name]} s s' (fs_dir s) (fs_dir s)) as Hsame.
  { intros m _ Hm. split; [done|]. intros j Hj. rewrite Hino', lookup_insert_ne; [done|]. intros ->. apply Hm, elem_of_singleton.
    by eapply (wf_inj _ Hwf _ _ _ _ (or_introl eq_refl)). }
  split.
  - split.
    + intros d m j ->%Hcd Hm. rewrite Hino'. destruct (decide (j = i)) as [->|]; [by rewrite lookup_insert_eq|].
      rewrite lookup_insert_ne by done. by eapply (wf_inodes _ Hwf _ _ _ (or_introl eq_refl)).
    + intros d m m' j ->%Hcd. apply (wf_inj _ Hwf). by left.
  - split; [|by rewrite Hdir']. intros d ->%Hcd. exists (fs_dir s). split; [by left|done].
Qed.

Lemma recoverOwned_runs directory options limits id rnd rnd' suffix m state i replay s :
  startable options id rnd rnd' suffix s -> fs_wf s -> fs_pending s = [] -> database_files limits id m state s ->
  RoSnapshotLoader options = Some (Load limits) -> fs_dir s !! MfWALFile m = Some i -> regular (MfWALFile m) ->
  MfWALFile m <> IdentityFilename ->
  ScanWAL (MkReader (ino_data (inode i s)) None) (len (ino_data (inode i s))) (IdDatabaseID id) (MfSnapshotRevision m)
    (IdReservedEnd id) (RoLimits options) = Ok replay ->
  WhGeneration (RpHeader replay) = MfGeneration m -> WhFirstRevision (RpHeader replay) = MfWALStartRevision m ->
  RpRecovered replay <= IdReservedEnd id ->
  runs (recoverOwned directory options rnd) s (fun p s' =>
    p.2 = rnd' /\ fs_wf s' /\ keeps_files {[IdentityFilename; MfWALFile m]} s s' /\
    identity_on s' (grow (RoReservationSize options) id) /\
    named s' (MfWALFile m) i /\ fs_inodes s' !! i = Some (repaired replay (inode i s)) /\
    RrIdentity p.1 = grow (RoReservationSize options) id /\ RrManifest p.1 = m /\ RrSnapshot p.1 = state /\
    RrCommits p.1 = RpCommits replay /\ RrCurrent p.1 = RpRecovered replay /\
    RrDurableThrough p.1 = RpRecovered replay /\
    RrAllocation p.1 = MkRevisionRange (IdReservedEnd id + 1) (IdReservedEnd id + RoReservationSize options)).
Proof.
  intros Hst Hwf Hpend [Hon (mb & Hm & Hdm) (sb & Hs & Hls) Hval] Hload Hi Hreg Hne Hscan Hgen Hfirst Hrec.
  pose proof Hst as [Hid _ _ _ _ _ Hfree _]. destruct (identity_read s id Hid Hon) as (ib & Hib & Hdi).
  unfold recoverOwned. eapply runs_bind; [by eapply ReadIdentity_runs|]. intros ? s1 [-> Hd1].
  assert (forall s', disk s' = disk s -> file_now s' ManifestFilename mb /\ file_now s' (MfSnapshotFile m) sb) as Hfiles.
  { intros s' Hd. split; (eapply file_now_disk; [done|]; by apply holds_now). }
  eapply runs_bind; [eapply ReadManifest_runs; [by apply Hfiles|done]|]. intros ? s2 [-> Hd2]. rewrite Hd1 in Hd2.
  rewrite Hload. eapply runs_bind; [eapply Load_runs; [by apply Hfiles|done]|]. intros ? s3 [-> Hd3]. rewrite Hd2 in Hd3.
  rewrite Hval. eapply (runs_bind _ _ _ (fun _ s' => s' = s3)); [by eapply runs_lift|]. intros _ ? ->.
  assert (fs_dir s3 = fs_dir s /\ fs_inodes s3 = fs_inodes s /\ fs_pending s3 = fs_pending s) as (Hdir3 & Hino3 & Hpend3)
    by (unfold disk in Hd3; split_and!; congruence).
  eapply runs_bind; [eapply (scanWALFile_runs s3 _ i); [by rewrite Hdir3|]|].
  { rewrite (disk_inode i s s3) by done. exact Hscan. }
  intros ? s4 [-> Hd4]. rewrite Hd3 in Hd4. apply runs_defer.
  unfold renameTail at 1 2. cbn [RpHeader]. rewrite Hgen, Hfirst, !Z.eqb_refl. simpl orb. cbv iota.
  assert (forall base, repaired (renameTail base replay) = repaired replay) as Hren.
  { intros base. unfold repaired, renameTail. simpl. by destruct (RpTail replay). }
  pose proof (wf_inodes _ Hwf (fs_dir s) (MfWALFile m) i (or_introl eq_refl) Hi) as Hsome.
  assert (fs_dir s4 = fs_dir s /\ fs_inodes s4 = fs_inodes s /\ fs_pending s4 = fs_pending s) as (Hdir4 & Hino4 & Hpend4)
    by (unfold disk in Hd4; split_and!; congruence).
  eapply runs_bind; [apply applyWALTail_runs; by rewrite Hino4|]. rewrite Hren, (disk_inode i s s4) by done.
  intros _ s5 (Hdir5 & Hpend5 & Hino5). rewrite Hdir4 in Hdir5. rewrite Hpend4 in Hpend5. rewrite Hino4 in Hino5.
  destruct (set_inode_keeps s s5 (MfWALFile m) i _ Hwf Hpend Hi Hdir5 Hpend5 Hino5) as [Hwf5 Hk5].
  eapply runs_mono; [apply (finishRecovery_runs _ _ _ _ rnd' suffix); try done|].
  - destruct Hst. split; try done. by rewrite Hdir5.
  - apply (keeps_files_holds _ _ _ _ _ Hk5); [by auto with gapdb|set_solver|done].
  - intros [result rnd1] s6 (Hrnd & Hwf6 & Hk6 & Hon6 & candidates & Hres). simpl in Hrnd, Hres. subst.
    destruct (file_Close_free i s6) as (s7 & Hc & Hd7). rewrite Hc. simpl.
    pose proof (keeps_files_disk {[IdentityFilename]} _ _ Hd7) as Hk7.
    pose proof (keeps_files_trans _ _ _ _ Hk6 Hk7) as Hk67.
    destruct (keeps_files_named _ _ _ (MfWALFile m) i Hk67) as [Hwal Hinode]; [done|set_solver| |].
    { intros d. unfold crash_dir. rewrite Hdir5, Hpend5, Hpend, elem_of_nil. by intros [->|[]]. }
    split_and!; try done.
    + by eapply wf_disk.
    + eapply keeps_files_trans; eapply keeps_files_mono; [|exact Hk5| |exact Hk67]; set_solver.
    + apply (keeps_files_holds ∅ s6); [by apply keeps_files_disk|by auto with gapdb|set_solver|done].
    + rewrite Hinode, Hino5. apply lookup_insert_eq.
Qed.
End reads.
