(* ===== verification/Generation.v ===== *)
(** * Installing a generation (internal/persist/snapshot.go)

    A snapshot starts a new generation: the snapshot file, an empty log after
    it and, last, the manifest that names both.  [InstallSnapshotGeneration]
    is proved crash safe: at every instant the directory that a restart finds
    is the old generation, untouched, or the new one, complete. *)

From stdpp Require Import base gmap list strings sorting.
From Stdlib Require Import ZArith Lia.
From S2P Require Import Prelude.
From S2P Require Import Bytes.
From S2P Require Import Errors.
From S2P Require Import ApiTypes.
From S2P Require Import FaultFS.
From S2P Require Import StorageErrors.
From S2P Require Import WalCodec.
From S2P Require Import WalScan.
From S2P Require Import WalLog.
From S2P Require Import Storage.
From S2P Require Import Identity.
From S2P Require Import Sha256.
From S2P Require Import Snapshot.
From S2P Require Import Json.
From S2P Require Import Manifest.
From S2P Require Import FileFrames.
From S2P Require Import Recovery.

Local Open Scope Z_scope.
Local Open Scope go_scope.
Local Open Scope fsio_scope.

Definition PointStat : string := "filesystem.stat".

Definition snapshotPlan (name : string) : InstallPlan :=
  MkInstallPlan name ("snapshot.temp_create", "snapshot_temp_create") "snapshot_temp_write"
    ("snapshot.temp_sync", "snapshot_temp_sync") "snapshot_temp_close"
    ("snapshot.rename", "snapshot_rename") ("snapshot.directory_sync", "snapshot_directory_sync").

Definition nextWALPlan (name : string) : InstallPlan :=
  MkInstallPlan name ("next_wal.create", "next_wal_create") "next_wal_write"
    ("next_wal.sync", "next_wal_sync") "next_wal_close"
    ("next_wal.rename", "next_wal_rename") ("next_wal.sync", "next_wal_directory_sync").

(** ** Model *)

Section model.
Context {E : Type} `{OSEnv E}.
Implicit Types s : FSState E.

(** The destination must not exist. *)
Definition statAbsent (existsOp statOp name : string) : fsio E unit := fun s =>
  let (r, s) := Stat PointStat name s in
  match r with
  | Ok _ => (Err (ioFailure existsOp name (ErrSys SysExist)), s)
  | Err e => if errors_Is e SysNotExist then (Ok tt, s) else (Err (ioFailure statOp name e), s)
  end.

Definition installSnapshotFile (name : string) (encoded : bytes) (randomness : Reader) s
    : result goerror unit * Reader * FSState E :=
  let (r, s) := statAbsent "snapshot_destination_exists" "snapshot_stat" name s in
  match r with
  | Err e => (Err e, randomness, s)
  | Ok _ => replaceFile (snapshotPlan name) "snapshot_temp_name" name (writeAll "snapshot.temp_write" encoded) randomness s
  end.

Definition installNextWAL (name : string) (header : WALHeader) (randomness : Reader) s
    : result goerror unit * Reader * FSState E :=
  let (r, s) := statAbsent "next_wal_destination_exists" "next_wal_stat" name s in
  match r with
  | Err e => (Err e, randomness, s)
  | Ok _ =>
      match EncodeWALHeader header with
      | Err e => (Err e, randomness, s)
      | Ok encoded => replaceFile (nextWALPlan name) "next_wal_temp_name" name (writeOnce encoded) randomness s
      end
  end.

Record SnapshotInstallOptions := MkInstallOptions {
  SiCurrent : Manifest;
  SiState : SnapshotState;
  SiAsOf : Time;
  SiLimits : Limits;
  SiWALBufferSize : Z;
  SiBarrier : option (FSState E -> error * FSState E)
}.

(** [None] is the zero manifest and the nil log. *)
Record SnapshotInstallResult := MkInstallResult { SrManifest : option Manifest; SrWAL : option WAL }.
Definition noInstall : SnapshotInstallResult := MkInstallResult None None.

Definition nextManifest (current : Manifest) (revision : Revision) (digest : bytes) : Manifest :=
  MkManifest (MfDatabaseID current) (wrap_u64 (MfGeneration current + 1)) (snapshotFileName revision) revision
    (hex_EncodeToString digest) (walFileName (wrap_u64 (revision + 1))) (wrap_u64 (revision + 1)).

(** From the encoded snapshot on. *)
Definition installGeneration (current : Manifest) (revision : Revision) (encoded digest : bytes) (limits : Limits)
    (bufferSize : Z) (randomness : Reader) s : SnapshotInstallResult * error * Reader * FSState E :=
  let '(r, randomness, s) := installSnapshotFile (snapshotFileName revision) encoded randomness s in
  match r with
  | Err e => (noInstall, Some e, randomness, s)
  | Ok _ =>
      let nextRevision := wrap_u64 (revision + 1) in
      let header := MkWALHeader (MfDatabaseID current) nextRevision (wrap_u64 (MfGeneration current + 1)) in
      let '(r, randomness, s) := installNextWAL (walFileName nextRevision) header randomness s in
      match r with
      | Err e => (noInstall, Some e, randomness, s)
      | Ok _ =>
          let (r, s) := OpenWALForAppend (walFileName nextRevision) header revision revision bufferSize limits s in
          match r with
          | Err e => (noInstall, Some e, randomness, s)
          | Ok wal =>
              let m := nextManifest current revision digest in
              let '(r, randomness, s) := InstallManifest m (MfGeneration current) randomness s in
              match r with
              | Err e => let '(_, (_, s)) := WAL_Close (wal, s) in (MkInstallResult (Some m) None, Some e, randomness, s)
              | Ok _ => (MkInstallResult (Some m) (Some wal), None, randomness, s)
              end
          end
      end
  end.

Definition InstallSnapshotGeneration (options : SnapshotInstallOptions) (randomness : Reader) s
    : SnapshotInstallResult * error * Reader * FSState E :=
  let current := SiCurrent options in
  let state := SiState options in
  let invalid := (noInstall, Some (corruptSnapshot "snapshot installation options are invalid" "" 0 None), randomness, s) in
  match SiBarrier options with
  | None => invalid
  | Some barrier =>
      if DatabaseID_IsZero (MfDatabaseID current) || (MfGeneration current =? max_uint64)
         || (SnRevision state <? MfSnapshotRevision current) || (SnRevision state =? max_uint64)
      then invalid
      else
        let limits := defaultLimits (SiLimits options) in
        let bufferSize := if SiWALBufferSize options <=? 0 then 4096 else SiWALBufferSize options in
        let (e, s) := barrier s in
        match e with
        | Some err => (noInstall, Some err, randomness, s)
        | None =>
            match EncodeSnapshot (MfDatabaseID current) state (SiAsOf options) limits with
            | Err err => (noInstall, Some err, randomness, s)
            | Ok (encoded, digest) =>
                installGeneration current (SnRevision state) encoded digest limits bufferSize randomness s
            end
        end
  end.
End model.
Arguments SnapshotInstallOptions : clear implicits.

Section steps.
Context {E : Type} `{OSEnv E}.
Implicit Types s : FSState E.

(** ** The steps *)

Lemma statAbsent_disk op op' name s r s' : statAbsent op op' name s = (r, s') ->
  disk s' = disk s /\ match r with Err e => claims_applied e = false | Ok _ => True end.
Proof.
  unfold statAbsent, Stat, hooked_value, os_stat.
  destruct (visit _ Before s) as [[err|] s1] eqn:H1; apply visit_disk in H1.
  { destruct (errors_Is err SysNotExist); intros [= <- <-]; by split. }
  destruct (os_fail SysStat s1) as [[err|] s2] eqn:H2; apply os_fail_disk in H2; rewrite H1 in H2.
  { destruct (errors_Is err SysNotExist); intros [= <- <-]; by split. }
  destruct (fs_dir s2 !! name) as [i|].
  - destruct (visit _ After s2) as [[err|] s3] eqn:H3; apply visit_disk in H3; rewrite H2 in H3; [|by intros [= <- <-]].
    destruct (errors_Is err SysNotExist); intros [= <- <-]; by split.
  - intros [= <- <-]. by split.
Qed.

(** A new file is put in place, or its name stays free. *)
Definition new_file s s' (name : string) (data : bytes) (r : result goerror unit) : Prop :=
  fs_wf s' /\ keeps_files {[name]} s s' /\
  match r with
  | Ok _ => holds s' name (fun f => f = Some data) /\ fs_pending s' = []
  | Err _ => True
  end.

Lemma replaceFile_new p op name data write rnd s r rnd' s' :
  fs_wf s -> absent s name -> writes data write -> replaceFile p op name write rnd s = (r, rnd', s') ->
  new_file s s' name data r.
Proof.
  intros Hwf Ha Hw Hr. eapply replaceFile_spec in Hr as (Hwf1 & Ht & _ & Hr); [|done|done|by apply absent_holds].
  split; [done|]. split; [eapply replaces_keeps; [done| |done]; set_solver|]. by destruct r.
Qed.

Lemma new_file_disk s s1 s2 name data r :
  disk s1 = disk s -> new_file s1 s2 name data r -> new_file s s2 name data r.
Proof.
  intros Hd (Hwf & Hk & Hr). split; [done|]. split; [|done].
  eapply keeps_files_trans; [|done]. by apply keeps_files_disk.
Qed.

Lemma new_file_same s s' name data e : fs_wf s -> disk s' = disk s -> new_file s s' name data (Err e).
Proof. intros Hwf Hd. split; [by eapply wf_disk|]. split; [by apply keeps_files_disk|done]. Qed.

Lemma installSnapshotFile_spec name encoded rnd s r rnd' s' :
  fs_wf s -> absent s name -> installSnapshotFile name encoded rnd s = (r, rnd', s') -> new_file s s' name encoded r.
Proof.
  intros Hwf Ha. unfold installSnapshotFile. destruct (statAbsent _ _ name s) as [[u|e] s1] eqn:Hs;
    apply statAbsent_disk in Hs as [Hd Hc]; [|intros [= <- _ <-]; by apply new_file_same].
  intros Hr. eapply new_file_disk; [done|]. eapply replaceFile_new; eauto using wf_disk, absent_disk, writeAll_writes.
Qed.

Lemma installNextWAL_spec name header rnd s r rnd' s' :
  fs_wf s -> absent s name -> installNextWAL name header rnd s = (r, rnd', s') ->
  exists encoded, new_file s s' name encoded r /\
    match r with Ok _ => EncodeWALHeader header = Ok encoded | Err _ => True end.
Proof.
  intros Hwf Ha. unfold installNextWAL. destruct (statAbsent _ _ name s) as [[u|e] s1] eqn:Hs;
    apply statAbsent_disk in Hs as [Hd Hc]; [|intros [= <- _ <-]; exists []; split; [by apply new_file_same|done]].
  destruct (EncodeWALHeader header) as [encoded|e] eqn:He.
  - intros Hr. exists encoded. split; [|by destruct r]. eapply new_file_disk; [done|].
    eapply replaceFile_new; eauto using wf_disk, absent_disk, writeOnce_writes.
  - intros [= <- _ <-]. exists []. split; [by apply new_file_same|done].
Qed.

Lemma OpenFile_existing point name s r s' :
  OpenFile point name (MkFlags false false) s = (r, s') ->
  disk s' = disk s /\ match r with Ok i => fs_dir s !! name = Some i | Err _ => True end.
Proof.
  unfold OpenFile, os_open. destruct (visit point Before s) as [[err|] s1] eqn:H1; apply visit_disk in H1;
    [intros [= <- <-]; by split|].
  destruct (os_fail SysOpen s1) as [[err|] s2] eqn:H2; apply os_fail_disk in H2; rewrite H1 in H2;
    [intros [= <- <-]; by split|].
  pose proof H2 as Hdir. unfold disk in Hdir. injection Hdir as _ Hdir _.
  destruct (fs_dir s2 !! name) as [i|] eqn:Hl; simpl; [|intros [= <- <-]; by split]. rewrite Hdir in Hl.
  destruct (visit point After s2) as [[err|] s3] eqn:H3; apply visit_disk in H3; rewrite H2 in H3.
  - destruct (file_Close i s3) as [e s4] eqn:H4. apply file_Close_disk in H4. rewrite H3 in H4. intros [= <- <-]. by split.
  - intros [= <- <-]. by split.
Qed.

Lemma fileReader_disk i s r s' : fileReader i s = (r, s') -> disk s' = disk s.
Proof.
  unfold fileReader. destruct (os_fail SysRead s) as [e s1] eqn:H1. apply os_fail_disk in H1.
  destruct (env_transfer _ _) as [k env]. destruct e; by intros [= _ <-].
Qed.

Lemma OpenWALForAppend_spec path header last durable size limits s r s' :
  OpenWALForAppend path header last durable size limits s = (r, s') ->
  disk s' = disk s /\
  match r with
  | Ok w => exists i, fs_dir s !! path = Some i /\ 0 < size /\
      w = MkWAL (Some i) (MkBufio [] size None) (filepath_Base path) header limits last durable false false
  | Err _ => True
  end.
Proof.
  unfold OpenWALForAppend. destruct (_ || _) eqn:Hg; [intros [= <- <-]; by split|].
  destruct (OpenFile _ _ _ s) as [[i|e] s1] eqn:Ho; apply OpenFile_existing in Ho as [Hd1 Hi]; [|intros [= <- <-]; by split].
  assert (forall err s2 r' s3, disk s2 = disk s ->
    (let (_, s0) := file_Close i s2 in (Err err : result goerror WAL, s0)) = (r', s3) ->
    disk s3 = disk s /\ match r' with Ok _ => False | Err _ => True end) as Hfail.
  { intros err s2 r' s3 Hd2. destruct (file_Close i s2) as [e s4] eqn:Hc. apply file_Close_disk in Hc.
    intros [= <- <-]. split; [congruence|done]. }
  destruct (os_fail SysStat s1) as [[err|] s2] eqn:H2; apply os_fail_disk in H2; rewrite Hd1 in H2;
    [intros Hf; apply Hfail in Hf as [? ?]; [by destruct r|done]|].
  destruct (fileReader i s2) as [reader s3] eqn:H3; apply fileReader_disk in H3; rewrite H2 in H3.
  destruct (ScanWAL _ _ _ _ _ _) as [replay|e]; [|intros Hf; apply Hfail in Hf as [? ?]; [by destruct r|done]].
  match goal with |- (if ?c then _ else _) = _ -> _ => destruct c end;
    [intros Hf; apply Hfail in Hf as [? ?]; [by destruct r|done]|].
  destruct (os_fail SysSeek s3) as [[err|] s4] eqn:H4; apply os_fail_disk in H4; rewrite H3 in H4;
    [intros Hf; apply Hfail in Hf as [? ?]; [by destruct r|done]|].
  intros [= <- <-]. split; [done|]. exists i. go_bool. split_and!; try done. lia.
Qed.

Lemma WAL_Close_idle w s e ws' : wal_pending w = false -> wal_failed w = false ->
  WAL_Close (w, s) = (e, ws') -> disk ws'.2 = disk s.
Proof.
  intros Hp Hf. unfold WAL_Close. destruct (wal_file w) as [i|]; [|by intros [= <- <-]]. rewrite Hp, Hf. cbn [orb].
  destruct (file_Close i s) as [e1 s1] eqn:Hc. apply file_Close_disk in Hc. by intros [= <- <-].
Qed.

Lemma InstallManifest_spec m prev rnd s r rnd' s' P :
  fs_wf s -> holds s ManifestFilename P -> InstallManifest m prev rnd s = (r, rnd', s') ->
  fs_wf s' /\ keeps_files {[ManifestFilename]} s s' /\
  (holds s' ManifestFilename P /\ match r with Ok _ => False | Err _ => True end \/
   exists encoded, EncodeManifest m = Ok encoded /\ holds s' ManifestFilename (fun f => P f \/ f = Some encoded) /\
     match r with
     | Ok _ => holds s' ManifestFilename (fun f => f = Some encoded) /\ fs_pending s' = []
     | Err e => claims_applied e = true
     end).
Proof.
  intros Hwf HP. unfold InstallManifest.
  destruct (_ || _).
  { intros [= <- _ <-]. split_and!; [done|by apply keeps_files_disk|by left]. }
  destruct (validateManifest _ _ _) as [e|].
  { intros [= <- _ <-]. split_and!; [done|by apply keeps_files_disk|by left]. }
  destruct (EncodeManifest m) as [encoded|e] eqn:He.
  2:{ intros [= <- _ <-]. split_and!; [done|by apply keeps_files_disk|by left]. }
  intros Hr. eapply replaceFile_spec in Hr as (Hwf1 & Ht & HP1 & Hr); [|done|apply writeAll_writes|done].
  split_and!; [done|eapply replaces_keeps; [done| |done]; set_solver|]. destruct r as [u|e].
  - right. by exists encoded.
  - destruct (claims_applied e) eqn:Ha; [right|left; auto]. exists encoded. auto.
Qed.

(** The files of the next generation are complete before the manifest that
    names them can be seen. *)
Definition generationNames (revision : Revision) : gset string :=
  {[snapshotFileName revision; walFileName (revision + 1); ManifestFilename]}.

Definition nextHeader (current : Manifest) (revision : Revision) : WALHeader :=
  MkWALHeader (MfDatabaseID current) (revision + 1) (MfGeneration current + 1).

Local Tactic Notation "stays" uconstr(lem) := apply lem; [by auto with gapdb|set_solver|try done].

Lemma installGeneration_spec current rev encoded digest limits size rnd s res e rnd' s' P :
  fs_wf s -> u64 rev -> rev <> max_uint64 -> u64 (MfGeneration current) -> MfGeneration current <> max_uint64 ->
  absent s (snapshotFileName rev) -> absent s (walFileName (rev + 1)) -> holds s ManifestFilename P ->
  installGeneration current rev encoded digest limits size rnd s = (res, e, rnd', s') ->
  let m := nextManifest current rev digest in
  fs_wf s' /\ keeps_files (generationNames rev) s s' /\
  (holds s' ManifestFilename P /\ e <> None \/
   exists manifest header, EncodeManifest m = Ok manifest /\ EncodeWALHeader (nextHeader current rev) = Ok header /\
     holds s' ManifestFilename (fun f => P f \/ f = Some manifest) /\
     holds s' (snapshotFileName rev) (fun f => f = Some encoded) /\
     holds s' (walFileName (rev + 1)) (fun f => f = Some header) /\
     match e with
     | Some err => claims_applied err = true
     | None => holds s' ManifestFilename (fun f => f = Some manifest) /\
         exists i, res = MkInstallResult (Some m) (Some (MkWAL (Some i) (MkBufio [] size None)
             (filepath_Base (walFileName (rev + 1))) (nextHeader current rev) limits rev rev false false)) /\
           0 < size /\ fs_inodes s' !! i = Some (MkInode header (len header)) /\ named s' (walFileName (rev + 1)) i
     end).
Proof.
  intros Hwf Hrev Hmax Hgen Hgmax Hsnap Hwal HP. unfold installGeneration. cbv zeta.
  rewrite !wrap_u64_small by (unfold u64, max_uint64 in *; lia).
  change (MkWALHeader _ (rev + 1) (MfGeneration current + 1)) with (nextHeader current rev).
  set (m := nextManifest current rev digest).
  destruct (snapshot_fixed_name rev) as [Hsm _]. destruct (wal_fixed_name (rev + 1)) as [Hwm _].
  pose proof (snapshot_wal_name rev (rev + 1)) as Hsw.
  assert (u64 (rev + 1)) as Hrev1 by (unfold u64 in *; lia).
  destruct (installSnapshotFile _ _ _ s) as [[[u|e1] rnd1] s1] eqn:H1;
    apply installSnapshotFile_spec in H1 as (Hwf1 & Hk1 & Hr1); try done.
  2:{ intros [= <- <- _ <-]. split_and!; [done|eapply keeps_files_mono; [|done]; set_solver|left; split; [|done]].
      stays (keeps_files_holds _ _ _ _ _ Hk1). }
  assert (holds s1 ManifestFilename P) as HP1 by stays (keeps_files_holds _ _ _ _ _ Hk1).
  assert (absent s1 (walFileName (rev + 1))) as Hwal1 by stays (keeps_files_absent _ _ _ _ Hk1).
  assert (keeps_files (generationNames rev) s s1) as Hk1' by (eapply keeps_files_mono; [|done]; set_solver).
  destruct (installNextWAL _ _ _ s1) as [[[u2|e2] rnd2] s2] eqn:H2;
    apply installNextWAL_spec in H2 as (header & (Hwf2 & Hk2 & Hr2) & Hh); try done;
    (assert (keeps_files (generationNames rev) s s2) as Hk2'
      by (eapply keeps_files_trans; [done|]; eapply keeps_files_mono; [|done]; set_solver));
    (assert (holds s2 ManifestFilename P) as HP2 by stays (keeps_files_holds _ _ _ _ _ Hk2)).
  2:{ intros [= <- <- _ <-]. split_and!; [done|done|by left]. }
  assert (holds s2 (snapshotFileName rev) (fun f => f = Some encoded)) as Hsnap2.
  { destruct Hr1. stays (keeps_files_holds _ _ _ _ _ Hk2). }
  destruct Hr2 as [Hwal2 Hpend2].
  destruct (OpenWALForAppend _ _ _ _ _ _ s2) as [[w|e3] s3] eqn:H3; apply OpenWALForAppend_spec in H3 as [Hd3 Hw].
  2:{ intros [= <- <- _ <-]. split_and!; [by eapply wf_disk|eapply keeps_files_trans; [done|by apply keeps_files_disk]|left].
      split; [|done]. stays (keeps_files_holds _ _ _ _ _ (keeps_files_disk ∅ _ _ Hd3)). }
  destruct Hw as (i & Hi & Hsize & ->).
  assert (fs_inodes s2 !! i = Some (MkInode header (len header)) /\ named s2 (walFileName (rev + 1)) i) as [Hi2 Hn2].
  { split.
    - rewrite inode_is_Some by (apply (wf_inodes _ Hwf2 _ _ _ (or_introl eq_refl) Hi)).
      destruct (Hwal2 (fs_dir s2) (or_introl eq_refl)) as (f & -> & Hin). unfold file_in in Hin. rewrite Hi in Hin. by rewrite Hin.
    - intros d [->|Hd]; [done|]. rewrite Hpend2 in Hd. by apply not_elem_of_nil in Hd. }
  assert (fs_wf s3) as Hwf3 by (by eapply wf_disk).
  pose proof (keeps_files_disk ∅ _ _ Hd3) as Hk3. pose proof (keeps_files_disk (generationNames rev) _ _ Hd3) as Hk3'.
  destruct (InstallManifest m _ rnd2 s3) as [[r4 rnd4] s4] eqn:H4.
  apply (InstallManifest_spec _ _ _ _ _ _ _ P) in H4 as (Hwf4 & Hk4 & Hr4);
    [|done|stays (keeps_files_holds _ _ _ _ _ Hk3)].
  assert (keeps_files (generationNames rev) s s4) as Hk.
  { do 2 (eapply keeps_files_trans; [done|]). eapply keeps_files_mono; [|done]. set_solver. }
  assert (holds s4 (snapshotFileName rev) (fun f => f = Some encoded)) as Hsnap4.
  { stays (keeps_files_holds _ _ _ _ _ Hk4). stays (keeps_files_holds _ _ _ _ _ Hk3). }
  assert (holds s4 (walFileName (rev + 1)) (fun f => f = Some header)) as Hwal4.
  { stays (keeps_files_holds _ _ _ _ _ Hk4). stays (keeps_files_holds _ _ _ _ _ Hk3). }
  destruct r4 as [u4|e4].
  - destruct (keeps_files_named _ _ _ (walFileName (rev + 1)) i Hk3) as [Hn3 Hi3]; [by auto with gapdb|set_solver|done|].
    destruct (keeps_files_named _ _ _ (walFileName (rev + 1)) i Hk4) as [Hn4 Hi4]; [by auto with gapdb|set_solver|done|].
    intros [= <- <- _ <-]. split_and!; [done|done|]. destruct Hr4 as [[_ []]|(manifest & He & Hboth & Hsure & _)]. right.
    exists manifest, header. split_and!; try done. exists i. split_and!; try done.
    by rewrite Hi4, Hi3.
  - destruct (WAL_Close _) as [e5 [w5 s5]] eqn:H5. apply WAL_Close_idle in H5; [|done..]. simpl in H5.
    intros [= <- <- _ <-]. pose proof (keeps_files_disk ∅ _ _ H5) as Hk5.
    split_and!; [by eapply wf_disk|eapply keeps_files_trans; [done|by apply keeps_files_disk]|].
    destruct Hr4 as [[Hold _]|(manifest & He & Hboth & Hsure)]; [left|right].
    + split; [|done]. stays (keeps_files_holds _ _ _ _ _ Hk5).
    + exists manifest, header. split_and!; try done; stays (keeps_files_holds _ _ _ _ _ Hk5).
Qed.
End steps.
