(* ===== verification/CrashRestart.v ===== *)
(** * Crashes and restarts

    [restarts s s'] relates the disk of a process that stopped at any moment
    to the disk its successor finds.  A restart after (a part of) the
    installation of a generation recovers: the old generation with all its
    durable commits, or the new one. *)

From stdpp Require Import base gmap list strings sorting.
From Stdlib Require Import ZArith Lia.
From S2P Require Import Prelude.
From S2P Require Import Bytes.
From S2P Require Import Errors.
From S2P Require Import ApiTypes.
From S2P Require Import Allocator.
From S2P Require Import FaultFS.
From S2P Require Import StorageErrors.
From S2P Require Import WalCodec.
From S2P Require Import WalScan.
From S2P Require Import WalLog.
From S2P Require Import OrderedKeys.
From S2P Require Import Storage.
From S2P Require Import Identity.
From S2P Require Import Sha256.
From S2P Require Import Snapshot.
From S2P Require Import Json.
From S2P Require Import Manifest.
From S2P Require Import FileFrames.
From S2P Require Import FaultFree.
From S2P Require Import Recovery.
From S2P Require Import Generation.

Local Open Scope Z_scope.

(** ** Restarts *)

Section restarts.
Context {E E' : Type} `{OSEnv E, OSEnv E'}.
Implicit Types (s : FSState E) (t : FSState E').

Definition restarts s t : Prop :=
  crash_dir s (fs_dir t) /\ fs_pending t = [] /\
  forall name i, fs_dir t !! name = Some i ->
    exists b, crash_inode (inode i s) b /\ fs_inodes t !! i = Some (MkInode b (len b)).

Lemma restarts_wf s t : fs_wf s -> restarts s t -> fs_wf t.
Proof.
  intros Hwf (Hd & Hp & Hf). assert (forall d, crash_dir t d -> d = fs_dir t) as Hcd.
  { intros d. unfold crash_dir. rewrite Hp, elem_of_nil. tauto. }
  split.
  - intros d name i ->%Hcd Hl. destruct (Hf name i Hl) as (b & _ & ->). eauto.
  - intros d n n' i ->%Hcd. by apply (wf_inj _ Hwf).
Qed.

Lemma restarts_holds s t name P : holds s name P -> restarts s t -> holds t name P.
Proof.
  intros HP (Hd & Hp & Hf) d Hcd. assert (d = fs_dir t) as ->.
  { unfold crash_dir in Hcd. rewrite Hp, elem_of_nil in Hcd. tauto. }
  destruct (HP _ Hd) as (f & HPf & Hin). exists f. split; [done|]. unfold file_in in *.
  destruct (fs_dir t !! name) as [i|] eqn:Hl; [|done]. destruct f as [b|]; [|done].
  destruct (Hf name i Hl) as (b' & (k & Hk & ->) & Hi). rewrite Hin in *. simpl in *.
  rewrite (slice_full' b k) in Hi by lia. unfold inode. by rewrite Hi.
Qed.

Lemma restarts_named s t name i : named s name i -> restarts s t ->
  fs_dir t !! name = Some i /\ exists b, crash_inode (inode i s) b /\ inode i t = MkInode b (len b).
Proof.
  intros Hn (Hd & Hp & Hf). pose proof (Hn _ Hd) as Hl. split; [done|].
  destruct (Hf name i Hl) as (b & Hb & Hi). exists b. split; [done|]. unfold inode. by rewrite Hi.
Qed.

(** After a restart a file has one content. *)
Lemma restarts_one s t name (P Q : option bytes -> Prop) : restarts s t -> holds t name (fun f => P f \/ Q f) ->
  holds t name P \/ holds t name Q.
Proof.
  intros (_ & Hp & _) HPQ. destruct (HPQ (fs_dir t) (or_introl eq_refl)) as (f & [Hf|Hf] & Hin); [left|right];
    (intros d Hcd; unfold crash_dir in Hcd; rewrite Hp, elem_of_nil in Hcd; destruct Hcd as [->|[]]; eauto).
Qed.
End restarts.

(** ** Snapshots that recovery accepts *)

Section snapshots.
Variable limits : Limits.
Hypothesis limits_fine : limits_ok limits.

Lemma defaultLimits_ok : defaultLimits limits = limits.
Proof.
  destruct (limits_ok_fields limits limits_fine) as [(Hk & Hv & _) _]. unfold defaultLimits.
  by rewrite !(proj2 (Z.leb_gt _ _)) by lia.
Qed.

Lemma validateRecords_wf revision file index previous seen records :
  Forall (record_wf limits revision) records -> strictly_sorted (RecKey <$> records) ->
  (forall k, k ∈ seen -> Forall (bytes_lt k) (RecKey <$> records)) ->
  match previous with Some p => p ∈ seen | None => True end ->
  validateRecords revision file index previous seen records = None.
Proof.
  revert index previous seen. induction records as [|r records IH]; intros index previous seen Hwf Hs Hseen Hp; [done|].
  rewrite fmap_cons in *. inversion_clear Hwf as [|? ? (Hkey & _ & Hrev & _) Hwf']. inversion_clear Hs as [|? ? Hs' Hall].
  assert (forall k, k ∈ seen -> bytes_lt k (RecKey r)) as Hlt.
  { intros k Hk. by pose proof (Hseen k Hk) as Ha; inversion_clear Ha. }
  destruct Hkey as (Hne & Hutf & _). cbn [validateRecords].
  rewrite (bool_decide_eq_false_2 _ Hne), Hutf, (proj2 (Z.eqb_neq _ _)), (proj2 (Z.ltb_ge _ _)) by lia. simpl orb. cbv iota.
  assert (match previous with Some p => bytes_leb (RecKey r) p | None => false end = false) as ->.
  { destruct previous as [p|]; [|done]. apply not_true_iff_false. intros Hle. apply (proj2 (bytes_not_lt p (RecKey r)) Hle). by apply Hlt. }
  rewrite bool_decide_eq_false_2.
  2:{ intros Hin. specialize (Hlt _ Hin). unfold bytes_lt in Hlt. by rewrite bytes_ltb_irrefl in Hlt. }
  apply IH; try done; [|set_solver]. intros k [->%elem_of_singleton|Hk]%elem_of_union; [done|].
  by pose proof (Hseen k Hk) as Ha; inversion_clear Ha.
Qed.

Lemma snapshot_loads (m : Manifest) st :
  length (MfDatabaseID m) = 16%nat -> snapshot_wf limits st -> MfSnapshotRevision m = SnRevision st ->
  MfSnapshotSHA256 m = hex_EncodeToString (Sum256 (snapshotContent (MfDatabaseID m) st)) ->
  loadSnapshot (defaultLimits limits) m (snapshotImage (MfDatabaseID m) st) = Ok st /\ validateSnapshotState st m = None.
Proof.
  intros Hid Hwf Hrev Hsha. pose proof Hwf as [_ Hs Hrecs Hb]. rewrite defaultLimits_ok. split.
  - unfold loadSnapshot. rewrite len_snapshotImage by done. unfold SnapshotHeaderSize, snapshotTrailer in *.
    pass by lia. rewrite Hsha. destruct (hex_Decode_Encode (Sum256 (snapshotContent (MfDatabaseID m) st))) as (-> & _).
    unfold len. rewrite length_Sum256. simpl. by rewrite DecodeSnapshot_image.
  - unfold validateSnapshotState. rewrite Hrev, Z.eqb_refl. simpl. apply validateRecords_wf; done.
Qed.
End snapshots.

(** ** The disk of a running database *)

Lemma wal_inv_frame {E} `{OSEnv E} reservedEnd i header w (s s' : FSState E) cs fl :
  inode i s' = inode i s -> wal_inv reservedEnd i header (w, s) cs fl -> wal_inv reservedEnd i header (w, s') cs fl.
Proof. intros Hi [H1 H2 H3 H4 H5 H6 H7 H8 H9 H10 H11 H12 H13]. split; simpl in *; by rewrite ?Hi. Qed.

Section crash.
Context {E E' : Type} `{OSEnv E, FaultFree E'}.
Variable limits : Limits.
Hypothesis limits_fine : limits_ok limits.
Implicit Types (s : FSState E) (t : FSState E').

(** The header of the log that goes with a manifest. *)
Definition manifestHeader (m : Manifest) : WALHeader :=
  MkWALHeader (MfDatabaseID m) (MfWALStartRevision m) (MfGeneration m).

(** The database [id] is on the disk with the generation [m], whose snapshot is
    [state] and whose log, open as [w], has the acknowledged commits [cs]. *)
Record running (id : Identity) (m : Manifest) (state : SnapshotState) (w : WAL) (i : positive) (header : bytes)
    (cs fl : list CommitFrame) s : Prop := {
  rn_wf : fs_wf s;
  rn_identity : identity_wf id;
  rn_files : database_files limits id m state s;
  rn_log : named s (MfWALFile m) i;
  rn_inv : wal_inv (IdReservedEnd id) i header (w, s) cs fl;
  rn_header : wal_header w = manifestHeader m;
  rn_limits : wal_limits w = limits;
  rn_reserved : MfSnapshotRevision m <= IdReservedEnd id
}.

(** What a new process finds: complete commits [found] of the log, and possibly
    a torn frame after them. *)
Record found_disk (id : Identity) (m : Manifest) (state : SnapshotState) (header : bytes)
    (found : list CommitFrame) t : Prop := {
  fd_wf : fs_wf t;
  fd_synced : fs_pending t = [];
  fd_files : database_files limits id m state t;
  fd_log : exists i b replay, fs_dir t !! MfWALFile m = Some i /\ inode i t = MkInode b (len b) /\
    ScanWAL (MkReader b None) (len b) (IdDatabaseID id) (MfSnapshotRevision m) (IdReservedEnd id) limits = Ok replay /\
    RpHeader replay = manifestHeader m /\ RpCommits replay = found /\
    RpRecovered replay = last_revision (MfSnapshotRevision m) found /\
    RpRecovered replay <= IdReservedEnd id /\ cut_tail b (RpTail replay) = log_image header found
}.

Lemma database_files_restart id m state s t :
  database_files limits id m state s -> restarts s t -> database_files limits id m state t.
Proof.
  intros [Hid (mb & Hm & Hdm) (sb & Hs & Hls) Hv] Hr. split; try done.
  - by eapply restarts_holds.
  - exists mb. split; [|done]. by eapply restarts_holds.
  - exists sb. split; [|done]. by eapply restarts_holds.
Qed.

(** The manifest of a database on disk is valid. *)
Lemma database_files_manifest {E0} `{OSEnv E0} id m state (s : FSState E0) : database_files limits id m state s ->
  manifest_wf m /\ MfDatabaseID m = IdDatabaseID id /\ 1 <= MfGeneration m /\ MfSnapshotRevision m < max_uint64 /\
  MfWALStartRevision m = MfSnapshotRevision m + 1 /\ MfWALFile m = walFileName (MfSnapshotRevision m + 1) /\
  MfSnapshotFile m = snapshotFileName (MfSnapshotRevision m).
Proof.
  intros [_ (mb & _ & Hd) _ _]. apply EncodeManifest_decode in Hd as (Hwf & He & Hid & Hgen).
  unfold EncodeManifest in He. destruct (validateManifest m 0 false) eqn:Hv; [done|].
  apply validateManifest_None in Hv as (_ & _ & Hmax & Hstart & Hfile & Hwal & _).
  pose proof Hwf as (_ & _ & Hrev & _). unfold u64 in Hrev. rewrite wrap_u64_small in Hstart by lia.
  split_and!; try done; [lia|by rewrite Hwal, Hstart].
Qed.

(** A crash leaves a disk to start from, with all the durable commits of the
    log, provided the new process finds the other files. *)
Lemma log_restart id m state w i header cs fl s t :
  fs_wf s -> named s (MfWALFile m) i -> wal_inv (IdReservedEnd id) i header (w, s) cs fl ->
  wal_header w = manifestHeader m -> wal_limits w = limits -> MfSnapshotRevision m <= IdReservedEnd id ->
  restarts s t -> database_files limits id m state t ->
  exists found, found_disk id m state header found t /\ found `prefix_of` cs ++ fl /\
    forall c, c ∈ cs -> FrRevision c <= wal_durable w -> c ∈ found.
Proof.
  intros Hwf Hlog Hinv Hhead Hlim Hres Hr Hfiles.
  destruct (database_files_manifest _ _ _ _ Hfiles) as (Hmwf & Hmid & _ & Hmax & Hstart & _).
  destruct (restarts_named _ _ _ _ Hlog Hr) as (Hi & b & Hb & Hino).
  destruct (wal_inv_crash _ _ _ _ _ _ _ (len b) Hinv Hb) as (replay & Hscan & Hh & Hcut & Hpre & Hrec & Hdur).
  simpl in *. rewrite Hhead, Hlim in *. unfold manifestHeader in Hscan, Hrec. cbn [WhDatabaseID WhFirstRevision] in *.
  rewrite Hmid, Hstart, Z.add_simpl_r in *.
  exists (RpCommits replay). split_and!; try done. split; try done.
  - by eapply restarts_wf.
  - by destruct Hr as (_ & Hp & _).
  - exists i, b, replay. split_and!; try done. rewrite Hrec. apply last_revision_bound; [|done].
    pose proof (wi_revisions _ _ _ _ _ _ Hinv) as Hrev. simpl in Hrev. rewrite Hhead in Hrev. simpl in Hrev.
    rewrite Hstart, Z.add_simpl_r in Hrev. destruct Hpre as [more Hmore]. rewrite Hmore in Hrev.
    by apply revisions_from_app in Hrev as [? _].
Qed.

Lemma running_restart id m state w i header cs fl s t :
  running id m state w i header cs fl s -> restarts s t ->
  exists found, found_disk id m state header found t /\ found `prefix_of` cs ++ fl /\
    forall c, c ∈ cs -> FrRevision c <= wal_durable w -> c ∈ found.
Proof. intros [Hwf Hid Hfiles Hlog Hinv Hhead Hlim Hres] Hr. eapply log_restart; eauto using database_files_restart. Qed.

(** Recovery returns exactly what was found, and repairs the log. *)
Lemma found_recovers directory options id m state header found rnd rnd' suffix t :
  found_disk id m state header found t -> startable options id rnd rnd' suffix t ->
  RoLimits options = limits -> RoSnapshotLoader options = Some (Load limits) ->
  let id' := grow (RoReservationSize options) id in
  runs (recoverOwned directory options rnd) t (fun p t' =>
    p.2 = rnd' /\ RrIdentity p.1 = id' /\ RrManifest p.1 = m /\ RrSnapshot p.1 = state /\ RrCommits p.1 = found /\
    RrCurrent p.1 = last_revision (MfSnapshotRevision m) found /\ RrDurableThrough p.1 = RrCurrent p.1 /\
    RrAllocation p.1 = MkRevisionRange (IdReservedEnd id + 1) (IdReservedEnd id') /\
    fs_wf t' /\ database_files limits id' m state t' /\
    exists i, named t' (MfWALFile m) i /\
      fs_inodes t' !! i = Some (MkInode (log_image header found) (len (log_image header found)))).
Proof.
  intros [Hwf Hpend Hfiles (i & b & replay & Hi & Hino & Hscan & Hh & Hc & Hrec & Hle & Hcut)] Hst Hlim Hload id'.
  destruct (database_files_manifest _ _ _ _ Hfiles) as (Hmwf & Hmid & _ & Hmax & Hstart & Hwal & Hsnap).
  pose proof Hmwf as (_ & _ & Hrev & _).
  assert (regular (MfWALFile m)) as Hreg by (rewrite Hwal; apply walFileName_regular; unfold u64 in *; lia).
  assert (regular (MfSnapshotFile m)) as Hregs by (rewrite Hsnap; by apply snapshotFileName_regular).
  destruct (wal_fixed_name (MfSnapshotRevision m + 1)) as [Hwm Hwi]. rewrite <- Hwal in Hwm, Hwi.
  destruct (snapshot_fixed_name (MfSnapshotRevision m)) as [Hsm Hsi]. rewrite <- Hsnap in Hsm, Hsi.
  assert (MfSnapshotFile m <> MfWALFile m) as Hsw by (rewrite Hsnap, Hwal; apply snapshot_wal_name).
  eapply runs_mono; [eapply (recoverOwned_runs directory options limits id rnd rnd' suffix m state i replay); try done|].
  { rewrite Hino, Hlim. exact Hscan. }
  { by rewrite Hh. }
  { by rewrite Hh. }
  intros [res rnd1] t' (Hrnd & Hwf' & Hk & Hon & Hn & Hi' & Hid' & Hm & Hs & Hcm & Hcur & Hdur & Hal). simpl in *.
  split_and!; try done; [congruence..| |].
  - destruct Hfiles as [_ (mb & Hmb & Hdm) (sb & Hsb & Hls) Hval]. split; try done.
    + exists mb. split; [|done]. apply (keeps_files_holds _ _ _ _ _ Hk); [by auto with gapdb|set_solver|done].
    + exists sb. split; [|done]. apply (keeps_files_holds _ _ _ _ _ Hk); [by auto with gapdb|set_solver|done].
  - exists i. split; [done|]. rewrite Hi', Hino. unfold repaired. cbn [ino_data]. rewrite Hcut.
    destruct (RpTail replay); [done|]. unfold cut_tail in Hcut. by rewrite Hcut.
Qed.

(** The repaired log opens, with the recovered commits behind it. *)
Lemma OpenWALForAppend_runs m header found size i reservedEnd t :
  header_wf (manifestHeader m) -> EncodeWALHeader (manifestHeader m) = Ok header ->
  Forall (loggable limits) found -> revisions_from (MfWALStartRevision m - 1) reservedEnd found -> 0 < size ->
  reservedEnd <= max_uint64 -> fs_dir t !! MfWALFile m = Some i ->
  inode i t = MkInode (log_image header found) (len (log_image header found)) ->
  let last := last_revision (MfWALStartRevision m - 1) found in
  exists w t', OpenWALForAppend (MfWALFile m) (manifestHeader m) last last size limits t = (Ok w, t') /\
    disk t' = disk t /\ wal_inv reservedEnd i header (w, t') found [] /\ wal_header w = manifestHeader m /\
    wal_limits w = limits /\ wal_durable w = last /\ wal_last w = last /\ bf_err (wal_buffer w) = None.
Proof.
  intros Hh Henc Hlog Hrev Hsize Hmax Hi Hino last. destruct (DecodeWALHeader_encode _ _ Hh Henc) as [_ Hlen].
  pose proof Hh as (_ & Hfirst & _). cbn [WhFirstRevision manifestHeader] in Hfirst.
  assert (MfWALStartRevision m <> 0) as Hnz.
  { unfold EncodeWALHeader in Henc. destruct (_ || _) eqn:Hg in Henc; [done|]. go_bool. by apply Z.eqb_neq. }
  destruct (revisions_from_ge _ _ _ Hrev) as [Hge _].
  assert (exists w t', OpenWALForAppend (MfWALFile m) (manifestHeader m) last last size limits t = (Ok w, t')) as (w & t' & Ho).
  { unfold OpenWALForAppend. cbn [WhFirstRevision WhDatabaseID WhGeneration manifestHeader]. rewrite wrap_u64_small by lia.
    rewrite (proj2 (Z.leb_gt _ _)), !(proj2 (Z.ltb_ge _ _)) by (unfold last; lia). simpl orb. cbv iota zeta.
    destruct (OpenFile_free PointOpen _ _ _ Hi) as (j & t1 & -> & -> & Hd1).
    destruct (os_fail_free SysStat t1) as (t2 & -> & Hd2). rewrite Hd1 in Hd2.
    destruct (readFile_free i t2) as (r & t3 & Hr & -> & Hd3). unfold readFile in Hr.
    destruct (fileReader i t2) as [r' t3']. injection Hr as -> <-. rewrite (disk_inode i t t2), Hino by done. cbn [ino_data].
    pose proof (ScanWAL_image limits limits_fine (manifestHeader m) header (len (log_image header found)) last Hh Henc
      found [] Hlog) as Hscan. rewrite app_nil_r in Hscan.
    cbn [WhFirstRevision WhDatabaseID manifestHeader] in Hscan. rewrite Hscan; clear Hscan.
    2:{ by eapply revisions_from_tight. }
    2:{ by right. }
    cbv zeta. unfold tail_of. change (len [] =? 0) with true. cbn [RpTail RpHeader RpRecovered].
    rewrite bool_decide_eq_false_2 by (intros Hne; by apply Hne). rewrite bool_decide_eq_true_2 by done.
    fold last. rewrite Z.eqb_refl. simpl orb. cbv iota.
    destruct (os_fail_free SysSeek t3') as (t4 & -> & _). eauto. }
  pose proof (OpenWALForAppend_spec _ _ _ _ _ _ _ _ _ Ho) as [Hd (j & Hj & _ & ->)].
  assert (j = i) as -> by congruence. eexists _, t'. split; [exact Ho|]. split; [done|]. split; [|done].
  rewrite <- (disk_inode i t t') in Hino by done. pose proof (len_nonneg (encodedFrames found)).
  split; simpl; rewrite ?Hino, ?app_nil_r; cbn [ino_data ino_synced]; try done; try lia.
  - unfold log_image. rewrite len_app. lia.
  - intros _. split_and!; try done. change (len (@nil byte)) with 0. lia.
  - exists (length found). rewrite firstn_all, drop_all. split; [done|constructor].
Qed.

(** ** Installing a generation *)

(** The names that a new generation does not use stay with their files. *)
Lemma old_names m revision : u64 revision -> u64 (MfSnapshotRevision m) -> MfSnapshotRevision m < revision ->
  revision < max_uint64 -> MfWALFile m = walFileName (MfSnapshotRevision m + 1) ->
  MfSnapshotFile m = snapshotFileName (MfSnapshotRevision m) ->
  regular (MfWALFile m) /\ regular (MfSnapshotFile m) /\
  MfWALFile m ∉ generationNames revision /\ MfSnapshotFile m ∉ generationNames revision /\
  IdentityFilename ∉ generationNames revision.
Proof.
  intros Hr Hm Hlt Hmax -> ->. unfold u64 in *.
  assert (u64 (MfSnapshotRevision m + 1) /\ u64 (revision + 1)) as [Hm1 Hr1] by (unfold u64; lia).
  pose proof (snapshot_fixed_name revision) as [_ Hsi]. pose proof (wal_fixed_name (revision + 1)) as [_ Hwi].
  pose proof (snapshot_fixed_name (MfSnapshotRevision m)) as [Hsm' _].
  pose proof (wal_fixed_name (MfSnapshotRevision m + 1)) as [Hwm' _].
  pose proof (snapshot_wal_name revision (MfSnapshotRevision m + 1)) as Hx.
  pose proof (snapshot_wal_name (MfSnapshotRevision m) (revision + 1)) as Hy.
  split_and!; [by apply walFileName_regular|by apply snapshotFileName_regular|..]; unfold generationNames;
    rewrite !not_elem_of_union, !not_elem_of_singleton.
  - split_and!; [congruence| |done]. intros Heq%name_inj; [lia|done..].
  - split_and!; [|done|done]. intros Heq%name_inj; [lia|done..].
  - split_and!; [congruence..|done].
Qed.

Record install_input (m : Manifest) (id : Identity) (options : SnapshotInstallOptions E) s : Prop := {
  ii_current : SiCurrent options = m;
  ii_limits : SiLimits options = limits;
  ii_barrier : SiBarrier options = Some (fun s => (None, s));
  ii_revision : MfSnapshotRevision m < SnRevision (SiState options) <= IdReservedEnd id;
  ii_records : Forall (fun r => 0 <= RecRevision r) (SnRecords (SiState options));
  ii_bytes : records_bytes (SnRecords (liveSnapshot (SiState options) (SiAsOf options))) < 2 ^ 63;
  ii_snapshot : absent s (snapshotFileName (SnRevision (SiState options)));
  ii_wal : absent s (walFileName (SnRevision (SiState options) + 1))
}.

Lemma new_generation_found id m (st : SnapshotState) manifest header t :
  identity_wf id -> manifest_wf m -> MfDatabaseID m = IdDatabaseID id -> 1 <= MfGeneration m < max_uint64 ->
  SnRevision st < max_uint64 -> snapshot_wf limits st -> SnRevision st <= IdReservedEnd id ->
  let m' := nextManifest m (SnRevision st) (Sum256 (snapshotContent (MfDatabaseID m) st)) in
  EncodeManifest m' = Ok manifest -> EncodeWALHeader (manifestHeader m') = Ok header ->
  fs_wf t -> fs_pending t = [] -> identity_on t id ->
  holds t ManifestFilename (fun f => f = Some manifest) ->
  holds t (MfSnapshotFile m') (fun f => f = Some (snapshotImage (MfDatabaseID m) st)) ->
  holds t (MfWALFile m') (fun f => f = Some header) ->
  found_disk id m' st header [] t.
Proof.
  intros Hid Hmwf Hmid Hgen Hmax Hwf Hres m' Hm Hh Hfwf Hpend Hon Hcur Hsnap Hwal. pose proof Hmwf as (Hlen & Hg & _ & _).
  pose proof (sn_revision _ _ Hwf) as Hrev.
  assert (manifest_wf m') as Hwf'.
  { unfold m', nextManifest, manifest_wf, u64. cbn [MfDatabaseID MfGeneration MfSnapshotRevision MfWALStartRevision].
    rewrite !wrap_u64_small by lia. split_and!; done || lia. }
  assert (MfGeneration m' = MfGeneration m + 1 /\ MfWALStartRevision m' = SnRevision st + 1) as [Hg' Hs'].
  { unfold m', nextManifest. cbn [MfGeneration MfWALStartRevision]. by rewrite !wrap_u64_small by lia. }
  assert (header_wf (manifestHeader m')) as Hhwf.
  { destruct Hwf' as (? & ? & ? & ?). unfold header_wf, u64, manifestHeader in *.
    cbn [WhDatabaseID WhFirstRevision WhGeneration]. split_and!; done || lia. }
  destruct (snapshot_loads limits limits_fine m' st) as [Hload Hval]; try done.
  split; try done.
  - split; try done.
    + exists manifest. split; [done|]. rewrite <- Hmid. change (MfDatabaseID m) with (MfDatabaseID m').
      apply DecodeManifest_encode; [done|done|lia].
    + by exists (snapshotImage (MfDatabaseID m) st).
  - destruct (Hwal (fs_dir t) (or_introl eq_refl)) as (f & -> & Hin). unfold file_in in Hin.
    destruct (fs_dir t !! MfWALFile m') as [i|] eqn:Hi; [|done].
    pose proof (ScanWAL_image limits limits_fine (manifestHeader m') header (len header) (IdReservedEnd id) Hhwf Hh [] []) as Hscan.
    cbn [WhDatabaseID WhFirstRevision manifestHeader] in Hscan. rewrite Hs', Z.add_simpl_r in Hscan.
    unfold log_image, encodedFrames in Hscan. simpl in Hscan. rewrite !app_nil_r in Hscan.
    eexists i, header, _. split; [done|]. split; [exact Hin|]. split.
    { rewrite <- Hmid. apply Hscan; [constructor|done|by right]. }
    split_and!; try done. simpl. unfold log_image, encodedFrames. simpl. by rewrite app_nil_r.
Qed.

(** Installing a generation is atomic: whenever the process stops, the next one
    finds the old generation with every durable commit, or the new one. *)
Lemma install_crash_safe id m state w i header cs fl options rnd s res e rnd' s' t :
  running id m state w i header cs fl s -> install_input m id options s -> MfGeneration m < max_uint64 ->
  InstallSnapshotGeneration options rnd s = (res, e, rnd', s') -> restarts s' t ->
  (e <> None /\ exists found, found_disk id m state header found t /\ found `prefix_of` cs ++ fl /\
     forall c, c ∈ cs -> FrRevision c <= wal_durable w -> c ∈ found) \/
  (match e with None => True | Some err => claims_applied err = true end /\
   exists m' header', found_disk id m' (liveSnapshot (SiState options) (SiAsOf options)) header' [] t /\
     MfGeneration m' = MfGeneration m + 1).
Proof.
  intros Hrun [Hcurrent Hlim Hbar Hrevision Hrecs Hbytes Habs Habw] Hgen Hins Hr.
  pose proof Hrun as [Hwf Hid Hfiles Hlog Hinv Hhead Hwlim Hres].
  destruct (database_files_manifest _ _ _ _ Hfiles) as (Hmwf & Hmid & Hgen1 & Hmax & Hstart & Hwal & Hsnap).
  pose proof Hmwf as (Hlen & Hgu & Hru & _). pose proof Hid as (_ & Hend & _).
  unfold InstallSnapshotGeneration in Hins. rewrite Hbar, Hcurrent in Hins.
  destruct (_ || _) eqn:Hguard in Hins.
  { injection Hins as _ <- _ <-. left. split; [done|]. by eapply running_restart. }
  go_bool. cbv zeta in Hins. rewrite Hlim, defaultLimits_ok in Hins by done.
  set (st := liveSnapshot (SiState options) (SiAsOf options)) in *.
  destruct (EncodeSnapshot _ _ _ _) as [[encoded digest]|err] eqn:Henc.
  2:{ injection Hins as _ <- _ <-. left. split; [done|]. by eapply running_restart. }
  apply EncodeSnapshot_Ok in Henc as (_ & Hstwf & -> & ->); try done; [|unfold u64 in *; lia].
  fold st in Hstwf, Hins. change (SnRevision (SiState options)) with (SnRevision st) in *.
  pose proof Hfiles as [Hon (mb & Hmb & Hdm) (sb & Hsb & Hls) Hval]. unfold u64 in Hru, Hgu, Hend.
  destruct (old_names m (SnRevision st)) as (Hregw & Hregs & Hnw & Hns & Hni); try done; try (unfold u64; lia).
  apply (installGeneration_spec _ _ _ _ _ _ _ _ _ _ _ _ (fun f => f = Some mb)) in Hins
    as (Hwf' & Hk & Hcase); try done; try (unfold u64; lia).
  destruct (keeps_files_named _ _ _ _ _ Hk Hregw Hnw Hlog) as [Hlog' Hino'].
  assert (wal_inv (IdReservedEnd id) i header (w, s') cs fl) as Hinv'
    by (eapply wal_inv_frame; [|done]; unfold inode; by rewrite Hino').
  pose proof (keeps_files_holds _ _ _ _ _ Hk identity_regular Hni Hon) as Hon'.
  pose proof (keeps_files_holds _ _ _ _ _ Hk Hregs Hns Hsb) as Hsb'.
  assert (holds t ManifestFilename (fun f => f = Some mb) -> exists found, found_disk id m state header found t /\
    found `prefix_of` cs ++ fl /\ forall c, c ∈ cs -> FrRevision c <= wal_durable w -> c ∈ found) as Hold.
  { intros Hcur. apply (log_restart id m state w i header cs fl s' t); try done. split; try done; [by apply (restarts_holds s')|by exists mb|].
    exists sb. split; [by apply (restarts_holds s')|done]. }
  destruct Hcase as [[Hcur He]|(manifest & header' & Hm & Hh & Hboth & Hsnap' & Hwal' & He)].
  { left. split; [done|]. apply Hold. by apply (restarts_holds s'). }
  set (m' := nextManifest m (SnRevision st) (Sum256 (snapshotContent (MfDatabaseID m) st))) in *.
  assert (holds t ManifestFilename (fun f => f = Some manifest) -> exists m' header', found_disk id m' st header' [] t /\
    MfGeneration m' = MfGeneration m + 1) as Hnew.
  { intros Hcur. exists m', header'. assert (manifestHeader m' = nextHeader m (SnRevision st)) as Hmh.
    { unfold m', manifestHeader, nextManifest, nextHeader. cbn [MfDatabaseID MfWALStartRevision MfGeneration].
      by rewrite !wrap_u64_small by lia. }
    split; [|unfold m', nextManifest; cbn [MfGeneration]; by rewrite wrap_u64_small by lia].
    apply (new_generation_found id m st manifest); try done; try lia.
    - fold m'. by rewrite Hmh.
    - by apply (restarts_wf s').
    - by destruct Hr as (_ & Hp & _).
    - by apply (restarts_holds s').
    - by apply (restarts_holds s').
    - unfold m', nextManifest. cbn [MfWALFile]. rewrite wrap_u64_small by lia. by apply (restarts_holds s'). }
  destruct e as [err|].
  - pose proof (restarts_holds _ _ _ _ Hboth Hr) as Hcur. apply (restarts_one s') in Hcur as [Hcur|Hcur]; [left|right|done];
      split; auto.
  - right. split; [done|]. apply Hnew. apply (restarts_holds s'); [|done]. by destruct He.
Qed.
End crash.
