(* ===== verification/Compaction.v ===== *)
(** * Compaction (internal/persist/compaction.go)

    [PlanCompaction] lists the generation files that the active manifest has
    left behind, [RunCompaction] removes them.  A running database stays as it
    is, whatever plan it is given and whatever calls fail. *)

From stdpp Require Import base gmap list strings sorting.
From Stdlib Require Import ZArith Lia.
From S2P Require Import Prelude.
From S2P Require Import Bytes.
From S2P Require Import Errors.
From S2P Require Import ApiTypes.
From S2P Require Import FaultFS.
From S2P Require Import StorageErrors.
From S2P Require Import WalCodec.
From S2P Require Import WalScan.
From S2P Require Import WalLog.
From S2P Require Import Storage.
From S2P Require Import Identity.
From S2P Require Import Snapshot.
From S2P Require Import Json.
From S2P Require Import Manifest.
From S2P Require Import FileFrames.
From S2P Require Import Recovery.
From S2P Require Import CrashRestart.

Local Open Scope Z_scope.

Record CompactionPlan := MkCompactionPlan {
  CpDatabaseID : DatabaseID;
  CpGeneration : Z;
  CpThrough : Revision;
  CpRemove : list string;
  CpSkipped : list string
}.

Record CompactionResult := MkCompactionResult {
  CrBefore : Revision;
  CrAfter : Revision;
  CrRemoved : list string;
  CrSkipped : list string
}.

Definition adminPrecondition (reason : string) : goerror :=
  ErrGap (newError CodeAdminPreconditionFailed "Administrative preconditions did not match." RetryAfterReconcile
    [EvReason reason] [ActionStatus; ActionRebuildRequest; ActionAbort]).

Definition compactionNotSafe : goerror :=
  ErrGap (newError CodeCompactionNotSafe "Compaction is not safe at the requested revision." RetryAfterReconcile
    [EvReason "through_revision exceeds the active snapshot revision"]
    [ActionStatus; ActionCreateSnapshot; ActionAbort]).

(** The revision between a prefix and [.gdb], in its one decimal form. *)
Definition numberedFile (prefix : bytes) (name : bytes) : option Revision :=
  if negb (len name =? len prefix + 20 + 4) || negb (has_suffix name (lit ".gdb")) then None
  else
    let value := slice name (len prefix) (len prefix + 20) in
    match parse_uint64 value with
    | Some parsed => if bool_decide (padRevision parsed = value) then Some parsed else None
    | None => None
    end.

Definition generationFileRevision (file : string) : option Revision :=
  let name := lit file in
  if has_prefix name (lit "snapshot-") then numberedFile (lit "snapshot-") name
  else if has_prefix name (lit "wal-") then numberedFile (lit "wal-") name
  else None.

(** [strings.Contains]. *)
Fixpoint contains (s p : bytes) : bool :=
  has_prefix s p || match s with [] => false | _ :: s => contains s p end.

Definition isProtectedStorageName (file : string) : bool :=
  let name := lit file in
  String.eqb file IdentityFilename || String.eqb file ManifestFilename || String.eqb file "LOCK"
  || String.eqb file "audit.jsonl" || has_prefix name (lit "audit.jsonl.") || has_suffix name (lit ".sock")
  || contains name (lit ".tmp-").

(** The loop body of [PlanCompaction]: whether the file is to be removed. *)
Definition isObsolete (active : Manifest) (through : Revision) (file : string) : bool :=
  negb (String.eqb file (MfSnapshotFile active) || String.eqb file (MfWALFile active) || isProtectedStorageName file)
  && match generationFileRevision file with Some revision => revision <=? through | None => false end.

(** The check of [RunCompaction] on each name of the plan. *)
Definition isUnsafeTarget (active : Manifest) (through : Revision) (file : string) : bool :=
  match generationFileRevision file with Some revision => through <? revision | None => true end
  || String.eqb file (MfSnapshotFile active) || String.eqb file (MfWALFile active)
  || negb (String.eqb (filepath_Base file) file).

Section compaction.
Context {E : Type} `{OSEnv E}.

Definition PlanCompaction (directory : string) (active : Manifest) (expectedID : DatabaseID) (through : Revision)
    : fsio E CompactionPlan := fun s =>
  if DatabaseID_IsZero expectedID || negb (bool_decide (expectedID = MfDatabaseID active))
  then (Err (adminPrecondition "database ID does not match active authority"), s)
  else if MfSnapshotRevision active <? through then (Err compactionNotSafe, s)
  else
    let (r, s) := ReadDir PointReadDir s in
    match r with
    | Err e => (Err (ioFailure "compaction_list" (filepath_Base directory) e), s)
    | Ok names =>
        (Ok (MkCompactionPlan expectedID (MfGeneration active) through
               (merge_sort String.le (List.filter (isObsolete active through) names))
               (merge_sort String.le (List.filter (fun n => negb (isObsolete active through n)) names))), s)
    end.

(** The loop of [RunCompaction]; [removed] are the names so far. *)
Fixpoint removeFiles (active : Manifest) (through : Revision) (names removed : list string) (s : FSState E)
    : list string * error * FSState E :=
  match names with
  | [] => (removed, None, s)
  | name :: rest =>
      if isUnsafeTarget active through name
      then (removed, Some (adminPrecondition "compaction plan contains an unsafe target"), s)
      else
        let (e, s) := Remove "compaction.remove" name s in
        match e with
        | Some err =>
            let failure := if bool_decide (removed <> []) || FailedAfter err
                           then ioFailureApplied "compaction_remove" name err
                           else ioFailure "compaction_remove" name err in
            (removed, Some failure, s)
        | None => removeFiles active through rest (removed ++ [name]) s
        end
  end.

Definition RunCompaction (directory : string) (active : Manifest) (plan : CompactionPlan) (s : FSState E)
    : CompactionResult * error * FSState E :=
  if negb (bool_decide (CpDatabaseID plan = MfDatabaseID active)) || negb (CpGeneration plan =? MfGeneration active)
     || (MfSnapshotRevision active <? CpThrough plan)
  then (MkCompactionResult 0 0 [] [], Some (adminPrecondition "compaction plan is stale"), s)
  else
    let result removed := MkCompactionResult (MfSnapshotRevision active) (MfSnapshotRevision active) removed (CpSkipped plan) in
    let '(removed, e, s) := removeFiles active (CpThrough plan) (CpRemove plan) [] s in
    match e with
    | Some err => (result removed, Some err, s)
    | None =>
        if bool_decide (removed = []) then (result removed, None, s)
        else
          let (e, s) := SyncDir "compaction.directory_sync" s in
          (result removed,
           match e with
           | Some err => Some (ioFailureApplied "compaction_directory_sync" (filepath_Base directory) err)
           | None => None
           end, s)
    end.
End compaction.

(** ** Names *)

Lemma numberedFile_spec prefix r n :
  numberedFile prefix (prefix ++ r) = Some n <-> u64 n /\ r = padRevision n ++ lit ".gdb".
Proof.
  unfold numberedFile. rewrite len_app, (slice_skip (len prefix)) by (done || lia).
  replace (len prefix - len prefix) with 0 by lia. replace (len prefix + 20 - len prefix) with 20 by lia. split.
  - destruct (_ || _) eqn:Hg; [done|]. go_bool. destruct (parse_uint64 _) as [m|] eqn:Hp; [|done].
    destruct (bool_decide_reflect (padRevision m = slice r 0 20)) as [Hpad|]; [|done]. intros [= ->].
    apply has_suffix_spec in H0 as [t Ht]. assert (len r = 24) as Hr by lia.
    assert (u64 n) as Hn.
    { unfold parse_uint64 in Hp. destruct (_ || _) eqn:Hb in Hp; [done|]. go_bool. injection Hp as <-.
      split; [|lia]. apply digits_value_nonneg. done. }
    split; [done|]. rewrite Hpad. rewrite <- (slice_full r) at 1. rewrite (slice_split r 0 20 (len r)) by lia. f_equal.
    assert (len t = len prefix + 20) as Hlt.
    { apply (f_equal len) in Ht. rewrite !len_app in Ht. change (len (lit ".gdb")) with 4 in Ht. lia. }
    assert (slice r 20 (len r) = slice (prefix ++ r) (len prefix + 20) (len prefix + 24)) as ->
      by (rewrite slice_app_r by lia; f_equal; lia).
    rewrite Ht, slice_app_r by lia. replace (len prefix + 20 - len t) with 0 by lia.
    by replace (len prefix + 24 - len t) with 4 by lia.
  - intros [Hn ->]. destruct (padRevision_spec n Hn) as (Hlen & Hd & Hv).
    assert (len (padRevision n) = 20) as Hl by (unfold len; lia).
    rewrite len_app, Hl. change (len (lit ".gdb")) with 4.
    replace (len prefix + (20 + 4)) with (len prefix + 20 + 4) by lia. rewrite Z.eqb_refl.
    rewrite (proj2 (has_suffix_spec _ _)) by (exists (prefix ++ padRevision n); by rewrite app_assoc). simpl orb. cbv iota.
    rewrite (slice_here 20) by done. unfold parse_uint64. rewrite Hd, Hv, bool_decide_eq_false_2 by (intros Hnil; by rewrite Hnil in Hl).
    unfold u64 in Hn. rewrite (proj2 (Z.ltb_ge _ _)) by lia. simpl orb. cbv iota. by rewrite bool_decide_eq_true_2.
Qed.

Lemma generationFileRevision_spec file n :
  generationFileRevision file = Some n <-> u64 n /\ (file = snapshotFileName n \/ file = walFileName n).
Proof.
  unfold generationFileRevision. cbv zeta.
  assert (forall p r, lit file = p ++ r -> (u64 n /\ r = padRevision n ++ lit ".gdb" <->
    u64 n /\ file = String.string_of_list_byte (p ++ padRevision n ++ lit ".gdb"))) as Hname.
  { intros p r Hf. split; intros [Hn Heq]; (split; [done|]).
    - rewrite <- Heq, <- Hf. unfold lit. by rewrite String.string_of_list_byte_of_string.
    - rewrite Heq in Hf. rewrite lit_name in Hf. by apply app_inv_head in Hf. }
  destruct (has_prefix (lit file) (lit "snapshot-")) eqn:Hs; [|destruct (has_prefix (lit file) (lit "wal-")) eqn:Hw].
  - apply has_prefix_spec in Hs as [r Hr]. rewrite Hr, numberedFile_spec, (Hname _ _ Hr). fold (snapshotFileName n).
    split; [tauto|]. intros [Hn [->| ->]]; [done|]. unfold walFileName in Hr. by rewrite lit_name in Hr.
  - apply has_prefix_spec in Hw as [r Hr]. rewrite Hr, numberedFile_spec, (Hname _ _ Hr). fold (walFileName n).
    split; [tauto|]. intros [Hn [->| ->]]; [|done]. unfold snapshotFileName in Hr. by rewrite lit_name in Hr.
  - split; [done|]. intros [_ [->| ->]]; [unfold snapshotFileName in Hs|unfold walFileName in Hw];
      rewrite lit_name, has_prefix_app in *; done.
Qed.

(** *** The files of a generation are not protected *)

Lemma contains_spec l p : contains l p = true <-> exists a b, l = a ++ p ++ b.
Proof.
  induction l as [|x l IH]; cbn [contains].
  - rewrite orb_false_r, has_prefix_spec. split.
    + intros [r Hr]. by exists [], r.
    + intros (a & b & Hr). destruct a; [by exists b|done].
  - rewrite orb_true_iff, has_prefix_spec, IH. split.
    + intros [[r Hr]|(a & b & ->)]; [by exists [], r|by exists (x :: a), b].
    + intros (a & b & Hr). destruct a as [|y a]; [left; by exists b|right]. injection Hr as _ ->. by exists a, b.
Qed.

Lemma regular_no_temp file : regular file -> contains (lit file) (lit ".tmp-") = false.
Proof.
  intros Hreg. apply not_true_iff_false. intros (a & b & Heq)%contains_spec. unfold regular in Hreg.
  rewrite Heq in Hreg. change (lit ".tmp-" ++ b) with (chr 46 :: lit "tmp-" ++ b) in Hreg.
  pose proof (from_dot_app a (lit "tmp-" ++ b)) as Hl. rewrite len_app in Hl. change (len (lit "tmp-")) with 4 in Hl.
  pose proof (len_nonneg b). lia.
Qed.

(** A file of a generation, by its name. *)
Definition generation_file (file : string) (n : Revision) : Prop :=
  u64 n /\ (file = snapshotFileName n \/ file = walFileName n).

Lemma generation_regular file n : generation_file file n -> regular file.
Proof. intros [Hn [->| ->]]; auto with gapdb. Qed.

Lemma generation_not_protected file n : generation_file file n -> isProtectedStorageName file = false.
Proof.
  intros Hg. pose proof (regular_no_temp file (generation_regular file n Hg)) as Ht. destruct Hg as [Hn Hf].
  assert (exists p, lit file = p ++ padRevision n ++ lit ".gdb" /\ (p = lit "snapshot-" \/ p = lit "wal-")) as (p & Hl & Hp).
  { destruct Hf as [->| ->]; unfold snapshotFileName, walFileName; rewrite lit_name; eauto. }
  assert (forall name, has_prefix (lit name) (lit "s") = false -> has_prefix (lit name) (lit "w") = false ->
    String.eqb file name = false) as Hne.
  { intros name Hs Hw. apply String.eqb_neq. intros ->. rewrite Hl in Hs, Hw. by destruct Hp as [->| ->]. }
  unfold isProtectedStorageName. cbv zeta. rewrite Ht, !Hne by done. simpl orb. rewrite Hl, orb_false_r. apply orb_false_iff. split.
  - by destruct Hp as [->| ->].
  - unfold has_suffix. rewrite !rev_app_distr. done.
Qed.

Lemma isObsolete_spec active through file :
  isObsolete active through file = true <->
  exists n, generation_file file n /\ n <= through /\ file <> MfSnapshotFile active /\ file <> MfWALFile active.
Proof.
  unfold isObsolete. rewrite andb_true_iff, negb_true_iff, !orb_false_iff, !String.eqb_neq. split.
  - intros (((Hs & Hw) & _) & Hr). destruct (generationFileRevision file) as [n|] eqn:Hn; [|done].
    apply generationFileRevision_spec in Hn. exists n. split_and!; try done. lia.
  - intros (n & Hg & Hle & Hs & Hw). pose proof (generation_not_protected _ _ Hg) as Hp.
    apply generationFileRevision_spec in Hg. rewrite Hg, Hp. split_and!; try done. lia.
Qed.

Lemma isUnsafeTarget_false active through file : isUnsafeTarget active through file = false ->
  exists n, generation_file file n /\ n <= through /\ file <> MfSnapshotFile active /\ file <> MfWALFile active.
Proof.
  unfold isUnsafeTarget. rewrite !orb_false_iff, !String.eqb_neq. intros (((Hr & Hs) & Hw) & _).
  destruct (generationFileRevision file) as [n|] eqn:Hn; [|done]. apply generationFileRevision_spec in Hn.
  exists n. split_and!; try done. lia.
Qed.

Lemma filepath_Base_flat l : l <> [] -> forallb (fun b => negb (bool_decide (b = chr 47))) l = true ->
  filepath_Base (String.string_of_list_byte l) = String.string_of_list_byte l.
Proof.
  intros Hne Hall. unfold filepath_Base, String.string_of_list_byte.
  rewrite String.list_ascii_of_string_of_list_ascii.
  assert (forallb (fun c => negb (is_slash c)) (rev (map Ascii.ascii_of_byte l)) = true) as Hs.
  { rewrite forallb_forall in *. intros c Hc%in_rev. apply in_map_iff in Hc as (b & <- & Hb). specialize (Hall b Hb).
    rewrite negb_true_iff, bool_decide_eq_false in Hall. apply negb_true_iff, Ascii.eqb_neq. intros Heq. apply Hall.
    apply (f_equal Ascii.byte_of_ascii) in Heq. by rewrite Ascii.byte_of_ascii_of_byte in Heq. }
  destruct (map Ascii.ascii_of_byte l) as [|c k] eqn:Hl; [by destruct l|]. rewrite <- Hl in *.
  assert (forall x : list Ascii.ascii, forallb (fun c => negb (is_slash c)) x = true ->
    drop_while is_slash x = x /\ take_while (fun c => negb (is_slash c)) x = x) as Hw.
  { induction x as [|y x IH]; [done|]. cbn. intros [Hy Hx]%andb_true_iff. destruct (IH Hx) as [_ ->].
    rewrite Hy. apply negb_true_iff in Hy. by rewrite Hy. }
  destruct (Hw _ Hs) as [-> ->]. destruct (rev (map Ascii.ascii_of_byte l)) eqn:Hr.
  - apply (f_equal (@rev _)) in Hr. rewrite rev_involutive in Hr. by rewrite Hr in Hl.
  - by rewrite <- Hr, rev_involutive.
Qed.

Lemma generation_Base file n : generation_file file n -> filepath_Base file = file.
Proof.
  intros [Hn Hf]. destruct (padRevision_spec n Hn) as (_ & Hd & _).
  assert (forallb (fun b => negb (bool_decide (b = chr 47))) (padRevision n) = true) as Hp.
  { rewrite forallb_forall in *. intros b Hb. specialize (Hd b Hb). apply negb_true_iff, bool_decide_eq_false. by intros ->. }
  destruct Hf as [->| ->]; (apply filepath_Base_flat; [done|]); by rewrite !forallb_app, Hp.
Qed.

(** ** Removing files *)

Section removal.
Context {E : Type} `{OSEnv E}.
Implicit Types s : FSState E.

Lemma Remove_spec point name s e s' : fs_wf s -> Remove point name s = (e, s') ->
  fs_wf s' /\ keeps_files {[name]} s s' /\
  match e with
  | None => fs_dir s' = delete name (fs_dir s)
  | Some err => fs_dir s' = fs_dir s \/ FailedAfter err = true /\ fs_dir s' = delete name (fs_dir s)
  end.
Proof.
  intros Hwf. unfold Remove, hooked. destruct (visit point Before s) as [[err|] s1] eqn:H1; apply visit_disk in H1.
  { intros [= <- <-]. split_and!; [by eapply wf_disk|by apply keeps_files_disk|]. left. unfold disk in H1. congruence. }
  unfold os_remove. destruct (os_fail SysRemove s1) as [[err|] s2] eqn:H2; apply os_fail_disk in H2; rewrite H1 in H2;
    pose proof H2 as Hd; unfold disk in Hd; injection Hd as Hino Hdir Hpend.
  { intros [= <- <-]. split_and!; [by eapply wf_disk|by apply keeps_files_disk|]. by left. }
  destruct (fs_dir s2 !! name) as [i|] eqn:Hl.
  2:{ intros [= <- <-]. split_and!; [by eapply wf_disk|by apply keeps_files_disk|]. by left. }
  set (s3 := setDir (delete name (fs_dir s2)) s2).
  assert (forall d, crash_dir s3 d -> d = delete name (fs_dir s) \/ crash_dir s d) as Hcd.
  { unfold crash_dir. simpl. rewrite Hdir, Hpend. set_solver. }
  assert (fs_wf s3 /\ keeps_files {[name]} s s3) as [Hwf3 Hk3].
  { split.
    - split; simpl; rewrite ?Hino.
      + intros d m j [->|Hd]%Hcd Hm; [|by apply (wf_inodes _ Hwf d m)]. apply lookup_delete_Some in Hm as [_ Hm].
        by apply (wf_inodes _ Hwf _ m j (or_introl eq_refl)).
      + intros d m m' j [->|Hd]%Hcd Hm Hm'; [|by apply (wf_inj _ Hwf d m m' j)].
        apply lookup_delete_Some in Hm as [_ Hm], Hm' as [_ Hm']. by apply (wf_inj _ Hwf _ m m' j (or_introl eq_refl)).
    - assert (same_files {[name]} s s3 (fs_dir s) (delete name (fs_dir s))) as Hsame.
      { intros n _ Hn. rewrite lookup_delete_ne by set_solver. split; [done|]. intros j _. simpl. by rewrite Hino. }
      split; [|simpl; by rewrite Hdir]. intros d [->|Hd]%Hcd; [exists (fs_dir s); split; [by left|done]|].
      exists d. split; [done|]. intros n _ _. split; [done|]. intros j _. simpl. by rewrite Hino. }
  intros Hv. pose proof Hv as Hd4%visit_disk. split; [by eapply wf_disk|]. split; [eapply keeps_files_trans; [done|by apply keeps_files_disk]|].
  assert (fs_dir s' = delete name (fs_dir s)) as Hd' by (unfold disk in Hd4; injection Hd4 as _ -> _; simpl; by rewrite Hdir).
  unfold visit in Hv. destruct (env_visit _ _) as [[err|] env]; injection Hv as <- _; [right|]; done.
Qed.

(** A running database does not depend on other files. *)
Lemma running_keeps limits id m state w i header cs fl names s s' :
  running limits id m state w i header cs fl s -> fs_wf s' -> keeps_files names s s' ->
  IdentityFilename ∉ names -> ManifestFilename ∉ names -> MfSnapshotFile m ∉ names -> MfWALFile m ∉ names ->
  running limits id m state w i header cs fl s'.
Proof.
  intros [Hwf Hid Hfiles Hlog Hinv Hhead Hlim Hres] Hwf' Hk Hn1 Hn2 Hn3 Hn4.
  destruct (database_files_manifest _ _ _ _ _ Hfiles) as ((_ & _ & Hrev & _) & _ & _ & Hmax & _ & Hwal & Hsnap).
  assert (regular (MfWALFile m)) as Hrw by (rewrite Hwal; apply walFileName_regular; unfold u64 in *; lia).
  assert (regular (MfSnapshotFile m)) as Hrs by (rewrite Hsnap; by apply snapshotFileName_regular).
  destruct (keeps_files_named _ _ _ _ _ Hk Hrw Hn4 Hlog) as [Hlog' Hi].
  destruct Hfiles as [Hon (mb & Hm & Hdm) (sb & Hs & Hls) Hval]. split; try done.
  - split; try done.
    + by apply (keeps_files_holds _ _ _ _ _ Hk); auto with gapdb.
    + exists mb. split; [|done]. by apply (keeps_files_holds _ _ _ _ _ Hk); auto with gapdb.
    + exists sb. split; [|done]. by apply (keeps_files_holds _ _ _ _ _ Hk).
  - eapply wal_inv_frame; [|exact Hinv]. unfold inode. by rewrite Hi.
Qed.

(** A file that compaction may remove. *)
Definition obsolete (m : Manifest) (through : Revision) (file : string) : Prop :=
  exists n, generation_file file n /\ n <= through /\ file <> MfSnapshotFile m /\ file <> MfWALFile m.

Lemma obsolete_spared m through file : obsolete m through file ->
  file <> IdentityFilename /\ file <> ManifestFilename /\ file <> MfSnapshotFile m /\ file <> MfWALFile m.
Proof.
  intros (n & [_ Hf] & _ & Hs & Hw). destruct (snapshot_fixed_name n), (wal_fixed_name n). destruct Hf as [->| ->]; by split_and!.
Qed.

(** What a run of removals has done to the directory. *)
Record removes (m : Manifest) (through : Revision) (names done : list string) (e : error) s s' : Prop := {
  rm_prefix : done `prefix_of` names;
  rm_obsolete : Forall (obsolete m through) done;
  rm_all : e = None -> done = names;
  rm_other : forall f, f ∉ names -> fs_dir s' !! f = fs_dir s !! f;
  rm_gone : e = None -> forall f, f ∈ names -> fs_dir s' !! f = None
}.

Lemma removeFiles_spec limits id m state w i header cs fl through names removed s removed' e s' :
  running limits id m state w i header cs fl s -> removeFiles m through names removed s = (removed', e, s') ->
  running limits id m state w i header cs fl s' /\
  exists done, removed' = removed ++ done /\ removes m through names done e s s'.
Proof.
  revert removed s. induction names as [|name names IH]; intros removed s Hrun; cbn [removeFiles].
  { intros [= <- <- <-]. split; [done|]. exists []. rewrite app_nil_r. split; [done|]. split; try done. by intros _ f ?%not_elem_of_nil. }
  assert (forall e' s1, (forall f, f ∉ name :: names -> fs_dir s1 !! f = fs_dir s !! f) ->
    removes m through (name :: names) [] (Some e') s s1) as Hstop.
  { intros e' s1 Hsame. split; try done. apply prefix_nil. }
  destruct (isUnsafeTarget m through name) eqn:Hsafe.
  { intros [= <- <- <-]. split; [done|]. exists []. rewrite app_nil_r. split; [done|]. by apply Hstop. }
  apply isUnsafeTarget_false in Hsafe. destruct (obsolete_spared _ _ _ Hsafe) as (Hn1 & Hn2 & Hn3 & Hn4).
  destruct (Remove _ name s) as [e1 s1] eqn:Hr. apply Remove_spec in Hr as (Hwf1 & Hk1 & Hd1); [|apply Hrun].
  assert (running limits id m state w i header cs fl s1) as Hrun1
    by (eapply running_keeps; [exact Hrun|done|exact Hk1|by apply not_elem_of_singleton..]).
  assert (forall f, f ∉ name :: names -> fs_dir s1 !! f = fs_dir s !! f) as Hsame1.
  { intros f [Hf _]%not_elem_of_cons. assert (delete name (fs_dir s) !! f = fs_dir s !! f) as Hdel by (by apply lookup_delete_ne).
    destruct e1; [destruct Hd1 as [->|[_ ->]]|rewrite Hd1]; done. }
  destruct e1 as [err|].
  { intros [= <- <- <-]. split; [done|]. exists []. rewrite app_nil_r. split; [done|]. by apply Hstop. }
  intros Hrest. destruct (IH _ _ Hrun1 Hrest) as (Hrun' & l & -> & [Hpre Hobs Hall Hother Hgone]). split; [done|].
  exists (name :: l). rewrite <- app_assoc. split; [done|]. split.
  - by apply prefix_cons.
  - by constructor.
  - intros He. by rewrite (Hall He).
  - intros f Hf. rewrite Hother by set_solver. by apply Hsame1.
  - intros He f [->|Hf]%elem_of_cons; [|by apply Hgone]. destruct (decide (name ∈ names)) as [|Hni]; [by apply Hgone|].
    rewrite Hother, Hd1 by done. apply lookup_delete_eq.
Qed.

Lemma removeFiles_extends m through names removed s removed' e s' :
  removeFiles m through names removed s = (removed', e, s') -> exists l, removed' = removed ++ l.
Proof.
  revert removed s. induction names as [|name names IH]; intros removed s; cbn [removeFiles].
  { intros [= <- _ _]. exists []. by rewrite app_nil_r. }
  destruct (isUnsafeTarget _ _ _); [intros [= <- _ _]; exists []; by rewrite app_nil_r|].
  destruct (Remove _ _ s) as [[err|] s1]; [intros [= <- _ _]; exists []; by rewrite app_nil_r|].
  intros [l ->]%IH. exists (name :: l). by rewrite <- app_assoc.
Qed.

Lemma removeFiles_truthful m through names removed s removed' e s' :
  fs_wf s -> Forall (fun f => isUnsafeTarget m through f = false) names ->
  removeFiles m through names removed s = (removed', Some e, s') -> claims_applied e = false ->
  removed' = [] /\ fs_dir s' = fs_dir s.
Proof.
  revert removed s. induction names as [|name names IH]; intros removed s Hwf Hsafe; cbn [removeFiles]; [done|].
  apply Forall_cons in Hsafe as [-> Hsafe]. destruct (Remove _ name s) as [[err|] s1] eqn:Hr;
    apply Remove_spec in Hr as (Hwf1 & _ & Hd1); try done.
  - intros [= <- <- <-]. destruct (bool_decide_reflect (removed <> [])) as [|Hnil]; [done|]. simpl orb.
    destruct Hd1 as [Hd|[-> _]]; [|done]. intros _. split; [|done]. by destruct removed; [|destruct Hnil].
  - intros Hrest Hclaim. destruct (IH (removed ++ [name]) s1 Hwf1 Hsafe Hrest Hclaim) as [Hnil _].
    apply (removeFiles_extends m through names (removed ++ [name])) in Hrest as [l ->]. by destruct removed.
Qed.

Lemma SyncDir_keeps point s e s' : fs_wf s -> SyncDir point s = (e, s') ->
  fs_wf s' /\ keeps_files ∅ s s' /\ fs_dir s' = fs_dir s /\ (e = None -> fs_pending s' = []).
Proof.
  intros Hwf (Hino & Hdir & Hpend & Hok)%SyncDir_spec.
  assert (forall d, crash_dir s' d -> crash_dir s d) as Hcd.
  { unfold crash_dir. rewrite Hdir. intros d [->|Hd]; [by left|]. destruct Hpend as [Hp|Hp]; rewrite Hp in Hd; [|by right].
    by apply not_elem_of_nil in Hd. }
  assert (forall d, same_files ∅ s s' d d) as Hsame by (intros d n _ _; by rewrite Hino).
  split_and!; try done.
  - split; rewrite ?Hino; intros; by eauto using wf_inodes, wf_inj.
  - split; [eauto|by rewrite Hdir].
Qed.

Lemma PlanCompaction_spec directory m id through s plan s' :
  PlanCompaction directory m id through s = (Ok plan, s') ->
  disk s' = disk s /\ id = MfDatabaseID m /\ through <= MfSnapshotRevision m /\
  CpDatabaseID plan = id /\ CpGeneration plan = MfGeneration m /\ CpThrough plan = through /\
  forall f, f ∈ CpRemove plan <-> is_Some (fs_dir s !! f) /\ obsolete m through f.
Proof.
  unfold PlanCompaction. destruct (_ || _) eqn:Hg; [done|]. go_bool.
  destruct (Z.ltb_spec (MfSnapshotRevision m) through); [done|].
  destruct (ReadDir _ s) as [[names|e] s1] eqn:Hr; [|done]. intros [= <- <-].
  assert (disk s1 = disk s /\ forall f, f ∈ names <-> is_Some (fs_dir s !! f)) as [Hd Hn].
  { unfold ReadDir, hooked_value, os_readdir in Hr. destruct (visit _ Before s) as [[err|] s2] eqn:Hv2; [done|].
    apply visit_disk in Hv2. destruct (os_fail SysReadDir s2) as [[err|] s3] eqn:Hv3; [done|]. apply os_fail_disk in Hv3.
    destruct (visit _ After s3) as [[err|] s4] eqn:Hv4; [done|]. apply visit_disk in Hv4. injection Hr as <- <-.
    split; [congruence|]. intros f. rewrite merge_sort_Permutation, list_elem_of_fmap.
    assert (fs_dir s3 = fs_dir s) as -> by (unfold disk in *; congruence). split.
    - intros ([n i] & -> & Hi%elem_of_map_to_list). eauto.
    - intros [i Hi]. exists (f, i). split; [done|]. by apply elem_of_map_to_list. }
  split_and!; try done. intros f. cbn [CpRemove]. rewrite merge_sort_Permutation.
  rewrite list_elem_of_In, filter_In, <- list_elem_of_In, Hn, isObsolete_spec. done.
Qed.

Lemma obsolete_safe m through file : obsolete m through file -> isUnsafeTarget m through file = false.
Proof.
  intros (n & Hg & Hle & Hs & Hw). unfold isUnsafeTarget. rewrite (generation_Base _ _ Hg), String.eqb_refl.
  apply generationFileRevision_spec in Hg. rewrite Hg, !(proj2 (String.eqb_neq _ _)) by done.
  by rewrite (proj2 (Z.ltb_ge _ _)) by done.
Qed.

(** C19: Compaction removes exactly the obsolete files and never harms the
    database.  The plan lists the generation files of the directory at or below
    the revision that the active generation does not use; whatever calls fail,
    running it leaves every other name alone and the running database, now and
    after a crash, as it was; success means that all planned files are gone for
    good, and an error that denies an application that nothing was removed. *)
Theorem compaction_exact limits id m state w i header cs fl directory dbid through plan s s1 res e s2 :
  running limits id m state w i header cs fl s ->
  PlanCompaction directory m dbid through s = (Ok plan, s1) -> RunCompaction directory m plan s1 = (res, e, s2) ->
  (forall f, f ∈ CpRemove plan <-> is_Some (fs_dir s !! f) /\ obsolete m through f) /\
  through <= MfSnapshotRevision m /\
  running limits id m state w i header cs fl s2 /\
  CrRemoved res `prefix_of` CpRemove plan /\
  (forall f, f ∉ CpRemove plan -> fs_dir s2 !! f = fs_dir s !! f) /\
  match e with
  | None => CrRemoved res = CpRemove plan /\ forall f, f ∈ CpRemove plan -> absent s2 f
  | Some err => claims_applied err = false -> CrRemoved res = [] /\ fs_dir s2 = fs_dir s
  end.
Proof.
  intros Hrun Hplan Hexec. apply PlanCompaction_spec in Hplan as (Hd1 & -> & Hthrough & Hpid & Hpgen & Hpth & Hrem).
  split; [done|]. split; [done|].
  assert (fs_dir s1 = fs_dir s) as Hdir1 by (unfold disk in Hd1; congruence). rewrite <- Hdir1.
  assert (running limits id m state w i header cs fl s1) as Hrun1.
  { eapply running_keeps; [done|eapply wf_disk; [done|apply Hrun]|by apply (keeps_files_disk ∅)|set_solver..]. }
  unfold RunCompaction in Hexec. rewrite Hpid, Hpgen, Hpth, bool_decide_eq_true_2, Z.eqb_refl in Hexec by done.
  rewrite (proj2 (Z.ltb_ge _ _)) in Hexec by done. simpl orb in Hexec. cbv iota zeta in Hexec.
  destruct (removeFiles m through _ _ s1) as [[removed e1] s3] eqn:Hr.
  pose proof (removeFiles_spec _ _ _ _ _ _ _ _ _ _ _ _ _ _ _ _ Hrun1 Hr) as (Hrun3 & l & -> & [Hpre Hobs Hall Hother Hgone]).
  simpl app in *. destruct e1 as [err|].
  { injection Hexec as <- <- <-. cbn [CrRemoved]. split_and!; try done. intros Hclaim.
    eapply removeFiles_truthful; [apply Hrun1| |exact Hr|done]. apply Forall_forall. intros f Hf.
    apply obsolete_safe. by apply Hrem. }
  specialize (Hall eq_refl). subst l. destruct (bool_decide_reflect (CpRemove plan = [])) as [Hnil|Hne].
  { injection Hexec as <- <- <-. cbn [CrRemoved]. split_and!; try done. rewrite Hnil. by intros f ?%not_elem_of_nil. }
  destruct (SyncDir _ s3) as [e4 s4] eqn:Hs. apply SyncDir_keeps in Hs as (Hwf4 & Hk4 & Hdir4 & Hok4); [|apply Hrun3].
  injection Hexec as <- <- <-. cbn [CrRemoved]. split_and!; try done.
  - eapply running_keeps; [done|done|exact Hk4|set_solver..].
  - intros f Hf. rewrite Hdir4. by apply Hother.
  - destruct e4 as [err|]; [done|]. split; [done|]. intros f Hf d [->|Hd]; [rewrite Hdir4; by apply Hgone|].
    rewrite (Hok4 eq_refl) in Hd. by apply not_elem_of_nil in Hd.
Qed.
End removal.
