(* ===== verification/Reopen.v ===== *)
(** * Opening a database again (internal/server/owner.go)

    [recoverRuntime] recovers the files of a database and opens its engine on
    what was found; the owner lock is held by then.  On a disk that a stopped
    process left, it returns a ready database whose records are the snapshot's
    followed by the recovered commits, in the invariant of the engine.  The
    log and the allocator keep their own view of the disk from there on: they
    write to different files. *)

From stdpp Require Import base gmap list strings sorting.
From Stdlib Require Import ZArith Lia.
From S2P Require Import Prelude.
From S2P Require Import Bytes.
From S2P Require Import Errors.
From S2P Require Import ApiTypes.
From S2P Require Import Clock.
From S2P Require Import Allocator.
From S2P Require Import FaultFS.
From S2P Require Import StorageErrors.
From S2P Require Import WalCodec.
From S2P Require Import WalScan.
From S2P Require Import WalLog.
From S2P Require Import OrderedKeys.
From S2P Require Import Engine.
From S2P Require Import Replay.
From S2P Require Import EngineInv.
From S2P Require Import WalEngine.
From S2P Require Import DueExpiry.
From S2P Require Import Restart.
From S2P Require Import Storage.
From S2P Require Import Identity.
From S2P Require Import Snapshot.
From S2P Require Import Manifest.
From S2P Require Import FileFrames.
From S2P Require Import FaultFree.
From S2P Require Import Recovery.
From S2P Require Import CrashRestart.

Local Open Scope Z_scope.
Local Open Scope fsio_scope.

Definition defaultWALBufferBytes : Z := 4096.

Section runtime.
Context {C F E : Type} `{Clock C, OSEnv E}.

(** The engine of an owner process. *)
Definition ownerState : Type := DatabaseState C (RangeAllocator (ReserveState E)) (WAL * FSState E) F.

(** What recovery hands to the engine.  [NewRangeAllocator] does not refuse
    the range that recovery reserved ([recovered_allocator]), so the missing
    allocator of a refusal never reaches the engine. *)
Definition recoveredConfig (limits : Limits) (queueCapacity : Z) (faults : F) (r : RecoveryResult)
    (randomness : Reader) (w : WAL) (s : FSState E) : Config C (RangeAllocator (ReserveState E)) (WAL * FSState E) F :=
  let allocator :=
    match runtimeAllocator (RrIdentity r) (RrCurrent r) (RrAllocation r) randomness s with
    | Ok a => Some a
    | Err _ => None
    end in
  MkConfig limits queueCapacity NilClock None (Some (w, s)) allocator
    (replayRecords (SnRecords (RrSnapshot r)) (RrCommits r)) (RrCurrent r) (RrDurableThrough r)
    (IdDatabaseID (RrIdentity r)) (MfSnapshotRevision (RrManifest r)) (RrCommits r)
    (IdReservedEnd (RrIdentity r)) (MfWALStartRevision (RrManifest r)) faults.

(** [real] is the operating system's clock, [audit] the record that
    [AppendAudit] makes of a torn tail. *)
Definition recoverRuntime (real : C) (directory : string) (limits : Limits) (queueCapacity : Z) (faults : F)
    (audit : TailTruncation -> FSState E -> error * FSState E) (randomness : Reader)
    : fsio E (ownerState * Manifest) :=
  let? recovered := recoverOwned directory
    (MkRecoveryOptions limits defaultRevisionReservation (Some (Load limits)) (Some audit)) randomness in
  let (r, randomness) := recovered in
  let m := RrManifest r in
  let? w := OpenWALForAppend (MfWALFile m)
    (MkWALHeader (IdDatabaseID (RrIdentity r)) (MfWALStartRevision m) (MfGeneration m))
    (RrCurrent r) (RrDurableThrough r) defaultWALBufferBytes limits in
  fun s =>
    match New real (recoveredConfig limits queueCapacity faults r randomness w s) with
    | Ok st => (Ok (st, m), s)
    | Err e => let '(_, (_, s)) := WAL_Close (w, s) in (Err e, s)
    end.
End runtime.
Arguments ownerState : clear implicits.

(** ** The recovered records are those of an engine *)

Section records.
Variable limits : Limits.
Hypothesis limits_fine : limits_ok limits.

Lemma record_ok_later current current' k r :
  current <= current' -> record_ok limits current k r -> record_ok limits current' k r.
Proof. intros Hle (Hk & Hwf & Hrev & Hrest). split_and!; try done; lia || apply Hrest. Qed.

(** A record put by a commit in the log. *)
Lemma effect_record_ok c e : loggable limits c -> e ∈ FrEffects c -> EffKind e = ChangePut ->
  record_ok limits (FrRevision c) (EffKey e)
    (NewRecord (EffKey e) (Some (EffValue e)) (FrRevision c) (EffExpiresAt e)).
Proof.
  intros ([Hrev _] & [Hnz _ _ Heff _] & Hbytes) Hin Hkind. rewrite Forall_forall in Heff.
  destruct (Heff e Hin) as (Hk1 & Hk2 & Hk3 & Hput). rewrite Hkind in Hput. destruct Hput as [Hv Hexp].
  assert (20 + len (EffKey e) <= payload_bytes (FrEffects c)) as Hpay.
  { clear - Hin. pose proof (len_nonneg (EffValue e)). induction (FrEffects c) as [|x l IH]; [by apply elem_of_nil in Hin|].
    pose proof (payload_bytes_nonneg l). pose proof (len_nonneg (EffKey x)). pose proof (len_nonneg (EffValue x)).
    cbn [payload_bytes]. unfold effectHeader. apply elem_of_cons in Hin as [->|Hin]; [lia|]. apply IH in Hin. lia. }
  unfold frame_bytes, frameHeaderSize, frameTrailer in Hbytes. pose proof (lo_batch_frame _ limits_fine).
  unfold record_ok, NewRecord, maximumBytes. simpl. split_and!; try done; try lia.
  destruct (EffExpiresAt e); [|done]. split; [done|lia].
Qed.

Lemma replayCommit_ok base records c : loggable limits c -> base < FrRevision c ->
  map_Forall (record_ok limits base) records ->
  map_Forall (record_ok limits (FrRevision c)) (replayCommit records c).
Proof.
  intros Hlog Hlt Hrec. unfold replayCommit.
  assert (map_Forall (record_ok limits (FrRevision c)) records) as Hrec'
    by (intros k r Hk; apply (record_ok_later base); [lia|by apply Hrec]).
  assert (forall e, e ∈ FrEffects c -> EffKind e = ChangePut -> record_ok limits (FrRevision c) (EffKey e)
    (NewRecord (EffKey e) (Some (EffValue e)) (FrRevision c) (EffExpiresAt e))) as Hput
    by eauto using effect_record_ok.
  clear Hrec Hlog. revert records Hrec' Hput. induction (FrEffects c) as [|e l IH]; intros records Hrec Hput; [done|].
  simpl. apply IH; [|intros e' He'; apply Hput; set_solver]. unfold replayEffect.
  destruct (EffKind e) eqn:Hkind; [|by apply map_Forall_delete..|done].
  apply map_Forall_insert_2; [apply Hput; [set_solver|done]|done].
Qed.

Lemma replay_ok base bound records cs : Forall (loggable limits) cs -> revisions_from base bound cs ->
  map_Forall (record_ok limits base) records ->
  map_Forall (record_ok limits (last_revision base cs)) (replay records cs).
Proof.
  revert base records. induction cs as [|c cs IH]; intros base records Hlog Hrev Hrec; [done|].
  apply Forall_cons in Hlog as [Hc Hlog]. destruct Hrev as [Hlt Hrev].
  change (replay records (c :: cs)) with (replay (replayCommit records c) cs).
  apply (IH (FrRevision c)); try done. by eapply replayCommit_ok; [|apply Hlt|].
Qed.

(** The records of a snapshot, whose expiring records a deletion fits. *)
Definition expiring_fits (records : list DBRecord) : Prop :=
  Forall (fun r => RecExpiresAt r <> None -> 32 + 20 + len (RecKey r) <= maximumBytes limits) records.

Lemma snapshotMap_elem l r k : snapshotMap l !! k = Some r -> r ∈ l /\ RecKey r = k.
Proof.
  unfold snapshotMap. induction l as [|x l IH] using rev_ind; [done|].
  rewrite foldl_snoc. intros [[<- <-]|[_ Hk]]%lookup_insert_Some; [set_solver|]. apply IH in Hk. set_solver.
Qed.

Lemma snapshot_record_ok st : snapshot_wf limits st -> expiring_fits (SnRecords st) ->
  map_Forall (record_ok limits (SnRevision st)) (snapshotMap (SnRecords st)).
Proof.
  intros [_ _ Hrecs _] Hfit k r Hk. apply snapshotMap_elem in Hk as [Hin Hkey].
  unfold expiring_fits in Hfit. rewrite Forall_forall in Hrecs, Hfit.
  destruct (Hrecs r Hin) as (Hwf & Hv & Hrev & Hexp). specialize (Hfit r Hin). rewrite Hkey in Hwf, Hfit.
  split_and!; try done; try lia. destruct (RecExpiresAt r); [|done]. split; [done|by apply Hfit].
Qed.
End records.

(** ** A database opens again *)

Section reopen.
Context {C F E : Type} `{Clock C, Faults F, FaultFree E}.
Variable limits : Limits.
Hypothesis limits_fine : limits_ok limits.
Implicit Types t : FSState E.

Global Instance free_plain : PlainOS E.
Proof. intros e call err e' Hf. pose proof (free_fail e call) as Hn. by rewrite Hf in Hn. Qed.

Abbreviation recovered := (recovered (LS := WAL_LogSpec max_uint64) (AS := RangeAllocator_Spec max_uint64)).
Abbreviation engine_inv := (engine_inv (LS := WAL_LogSpec max_uint64) (AS := RangeAllocator_Spec max_uint64)).

Lemma runtimeReserve_within : reserves_within max_uint64 (Some (runtimeReserve (E := E))).
Proof. intros f s after r s' Hf Hr. by apply (runtimeReserve_u64 _ _ _ _ _ Hf Hr). Qed.

(** The allocator starts behind the reservation that recovery made. *)
Lemma recovered_allocator id id' current rnd s : u64 current -> u64 (IdReservedEnd id) -> current <= IdReservedEnd id ->
  IdReservedEnd id + defaultRevisionReservation <= max_uint64 ->
  exists a, runtimeAllocator id' current
      (MkRevisionRange (IdReservedEnd id + 1) (IdReservedEnd id + defaultRevisionReservation)) rnd s = Ok a /\
    allocOk max_uint64 a.
Proof.
  unfold defaultRevisionReservation, u64. intros Hc Hu Hle Hmax.
  set (range := MkRevisionRange _ _). assert (validateRange range current = None) as Hv
    by (apply validateRange_None; simpl; lia).
  unfold runtimeAllocator, NewRangeAllocator. rewrite Hv. eexists. split; [done|].
  split_and!; [exists current|simpl; lia|apply runtimeReserve_within].
  apply (alloc_inv_new current range (Some runtimeReserve) (id', rnd, s)).
  - done.
  - split; unfold u64; simpl; lia.
  - apply runtimeReserve_u64.
  - unfold NewRangeAllocator. by rewrite Hv.
Qed.

(** What the scan says of the commits it found. *)
Lemma found_commits id m state header found t :
  found_disk limits id m state header found t -> identity_wf id -> DatabaseID_IsZero (IdDatabaseID id) = false ->
  EncodeWALHeader (manifestHeader m) = Ok header /\ header_wf (manifestHeader m) /\ Forall (loggable limits) found /\
  revisions_from (MfSnapshotRevision m) (IdReservedEnd id) found /\
  last_revision (MfSnapshotRevision m) found <= IdReservedEnd id.
Proof.
  intros [_ _ Hfiles (i & b & replay & _ & _ & Hscan & Hh & Hc & Hrec & Hle & Hcut)] Hid Hz.
  destruct (database_files_manifest _ _ _ _ _ Hfiles) as ((Hlen & Hgen & _ & Hstart) & Hmid & _).
  apply ScanWAL_sound in Hscan as (header' & rest & Henc & Hdata & _ & Hlog & Hrev & _ & Hoff & Htail); [|done..].
  simpl in Hdata. rewrite Hh, Hc in *. assert (header' = header) as <-.
  { apply (app_inv_tail (encodedFrames found)). fold (log_image header' found). fold (log_image header found).
    rewrite <- Hcut, Hdata. unfold cut_tail. destruct (RpTail replay) as [tail|]; [|by rewrite Htail, app_nil_r].
    rewrite Htail, Hoff. by rewrite slice_app_l, slice_full by (pose proof (len_nonneg (log_image header' found)); lia). }
  split_and!; try done. congruence.
Qed.

Lemma database_files_snapshot id m state t : database_files limits id m state t ->
  snapshot_wf limits state /\ SnRevision state = MfSnapshotRevision m.
Proof.
  intros [_ _ (encoded & _ & Hload) Hval]. split.
  - unfold loadSnapshot in Hload. rewrite defaultLimits_ok in Hload by done. destruct (_ <? _); [done|].
    destruct (hex_DecodeString _) as [digest|]; [|done]. destruct (negb _); [done|].
    destruct (DecodeSnapshot _ _ _ _) eqn:Hd; [|done]. injection Hload as ->.
    by apply DecodeSnapshot_canonical in Hd as (_ & Hwf & _).
  - unfold validateSnapshotState in Hval. by destruct (Z.eqb_spec (SnRevision state) (MfSnapshotRevision m)).
Qed.

(** A recovered database opens, with exactly the recovered commits. *)
Lemma recoverRuntime_runs real directory queueCapacity (faults : F) audit id m state header found rnd rnd' suffix t :
  let options := MkRecoveryOptions limits defaultRevisionReservation (Some (Load limits)) (Some audit) in
  found_disk limits id m state header found t -> startable options id rnd rnd' suffix t ->
  expiring_fits limits (SnRecords state) -> 0 <= queueCapacity ->
  runs (recoverRuntime (C := C) real directory limits queueCapacity faults audit rnd) t (fun p t' =>
    p.2 = m /\ engine_inv (snapshotMap (SnRecords state)) (MfSnapshotRevision m) found [] p.1 /\
    schedule_complete p.1 /\ st_lifecycle p.1 = LifecycleReady).
Proof.
  intros options Hfound Hst Hfit Hq. pose proof Hst as [Hid Hz _ Hroom _ _ _ _]. pose proof Hid as (_ & Hend & _).
  destruct (found_commits _ _ _ _ _ _ Hfound Hid Hz) as (Henc & Hhwf & Hlog & Hrev & Hcur).
  destruct (database_files_manifest _ _ _ _ _ (fd_files _ _ _ _ _ _ _ Hfound)) as ((_ & _ & Hbase & _) & Hmid & _ & Hmax & Hstart & _).
  destruct (database_files_snapshot _ _ _ _ (fd_files _ _ _ _ _ _ _ Hfound)) as [Hsnwf Hsnrev].
  destruct (revisions_from_ge _ _ _ Hrev) as [Hge _].
  assert (revisions_from (MfSnapshotRevision m) max_uint64 found) as Hrevmax
    by (eapply revisions_from_mono; [|exact Hrev]; unfold u64 in *; lia).
  eapply runs_bind; [eapply (found_recovers limits limits_fine directory options); done|].
  intros [r rnd1] t1 (Hrnd & Hri & Hrm & Hrs & Hrc & Hcu & Hdu & Hal & Hwf1 & Hfiles1 & i & Hi & Hino).
  cbn [fst snd] in *. rewrite Hri, Hrm, Hdu, Hcu. subst rnd1. cbn [IdDatabaseID grow]. rewrite <- Hmid.
  pose proof (OpenWALForAppend_runs limits limits_fine m header found defaultWALBufferBytes i max_uint64 t1
    Hhwf Henc Hlog) as Hopen. cbv zeta in Hopen. rewrite Hstart, Z.add_simpl_r in Hopen.
  destruct Hopen as (w & t2 & Hopen & Hd2 & Hinv & _ & Hwl & Hwd & Hwlast & Herr); try done; [by apply Hi; left| |].
  { unfold inode. by rewrite Hino. }
  eapply (runs_bind _ _ _ (fun a s' => a = w /\ s' = t2)).
  { exists w, t2. split; [|done]. exact Hopen. }
  intros ? ? [-> ->]. 
  set (config := recoveredConfig (C := C) limits queueCapacity faults r rnd' w t2).
  destruct (recovered_allocator id (grow defaultRevisionReservation id) (last_revision (MfSnapshotRevision m) found) rnd' t2)
    as (a & Ha & Haok); try done; [unfold u64 in *; lia|].
  assert (recovered config (snapshotMap (SnRecords state)) (MfSnapshotRevision m) found) as Hrec.
  { split; unfold config, recoveredConfig; cbn -[replay snapshotMap]; rewrite ?Hri, ?Hrm, ?Hrs, ?Hrc, ?Hcu, ?Hdu; try done.
    - exists (w, t2). split; [done|]. split_and!; [by exists i, header|simpl; lia|simpl; by rewrite Herr].
    - exists a. split; [|done]. rewrite Hal. cbn [IdReservedEnd grow RoReservationSize options]. by rewrite Ha.
    - rewrite <- Hsnrev at 1. eapply (replay_ok limits limits_fine _ max_uint64); try done.
      + by rewrite Hsnrev.
      + by apply snapshot_record_ok.
    - unfold u64 in Hbase. split; [lia|done].
    - split_and!; try done. eapply Forall_impl; [exact Hlog|]. by intros c (_ & [] & _).
    - lia. }
  destruct (New_ok real config _ _ _ Hrec) as (st & Hnew & Hinv' & Hsc & Hl).
  exists (st, m), t2. split; [|done]. cbv beta. fold config. by rewrite Hnew.
Qed.
End reopen.
