(* ===== verification/Initialize.v ===== *)
(** * The first start of a database (internal/server/owner.go)

    [initializeRuntime] creates the files of a new database in an empty
    directory: the identity with its first reservation, the empty snapshot,
    the log and last the manifest that names them.  Whatever calls fail on the
    way, the database it returns is complete on the disk, so that a crash
    behind it leaves a database that opens again. *)

From stdpp Require Import base gmap list strings sorting.
From Stdlib Require Import ZArith Lia.
From S2P Require Import Prelude.
From S2P Require Import Bytes.
From S2P Require Import Errors.
From S2P Require Import ApiTypes.
From S2P Require Import Clock.
From S2P Require Import Allocator.
From S2P Require Import FaultFS.
From S2P Require Import StorageErrors.
From S2P Require Import WalCodec.
From S2P Require Import WalScan.
From S2P Require Import WalLog.
From S2P Require Import Engine.
From S2P Require Import Storage.
From S2P Require Import Identity.
From S2P Require Import Sha256.
From S2P Require Import Snapshot.
From S2P Require Import Json.
From S2P Require Import Manifest.
From S2P Require Import FileFrames.
From S2P Require Import Recovery.
From S2P Require Import Generation.
From S2P Require Import CrashRestart.
From S2P Require Import Reopen.

Local Open Scope Z_scope.
Local Open Scope fsio_scope.

(** The configured directory is clean already ([filepath.Clean]). *)
Definition permissionError (path operation : string) (cause : goerror) : goerror :=
  ErrGap (withCause (Some cause)
    (newError CodePermissionDenied "The owner cannot access the configured path." RetryAfterOperator
      [EvPath path; EvOperation operation] [ActionFixPermissions; ActionAbort])).

Definition identityMissing : goerror :=
  ErrGap (newError CodeRecoveryRequired "Storage artifacts exist without database identity authority."
    RetryAfterOperator [EvDetectedCorruption "identity_missing_with_existing_artifacts"; EvProposalAvailable false]
    [ActionRecoverPropose; ActionRestoreBackup; ActionAbort]).

Definition errorsJoin (left right : error) : error := match left with Some e => Some e | None => right end.

Section files.
Context {E : Type} `{OSEnv E}.

Definition createSyncedFile (path : string) (value : bytes) (s : FSState E) : error * FSState E :=
  let (r, s) := os_open (MkFlags true true) path s in
  match r with
  | Err e => (Some e, s)
  | Ok i =>
      let '(_, e, s) := file_Write i value s in
      let (e, s) := match e with None => file_Sync i s | Some err => (Some err, s) end in
      let (c, s) := file_Close i s in
      (errorsJoin e c, s)
  end.

(** The manifest of a new database. *)
Definition firstManifest (id : DatabaseID) (digest : bytes) : Manifest :=
  MkManifest id 1 (snapshotFileName 0) 0 (hex_EncodeToString digest) (walFileName 1) 1.

(** The snapshot, the log and the manifest of a new database. *)
Definition createFiles (limits : Limits) (identity : Identity) (randomness : Reader)
    : fsio E (Manifest * WAL * Reader) :=
  let? encoded := fs_lift (EncodeSnapshot (IdDatabaseID identity) (MkSnapshotState 0 []) 0 limits) in
  let (snapshot, digest) := encoded in
  do? fs_call (fun e => e) (createSyncedFile (snapshotFileName 0) snapshot);
  let? wal := CreateWAL (walFileName 1) (MkWALHeader (IdDatabaseID identity) 1 1) defaultWALBufferBytes limits in
  let manifest := firstManifest (IdDatabaseID identity) digest in
  fun s =>
    let '(r, randomness, s) := InstallManifest manifest 0 randomness s in
    match r with
    | Err e => let '(_, (_, s)) := WAL_Close (wal, s) in (Err e, s)
    | Ok _ => (Ok (manifest, wal, randomness), s)
    end.

(** All files of a new database, in the order of their creation. *)
Definition createDatabase (limits : Limits) (randomness : Reader)
    : fsio E (option (Identity * RevisionRange * Manifest * WAL * Reader)) :=
  let? loaded := fs_random LoadOrCreateIdentity randomness in
  let '((identity, created), randomness) := loaded in
  if negb created then fs_ret None else
  let? reserved := fs_random (ReserveRevisions identity 0 defaultRevisionReservation) randomness in
  let '((identity, allocation), randomness) := reserved in
  let? files := createFiles limits identity randomness in
  let '(manifest, wal, randomness) := files in
  fs_ret (Some (identity, allocation, manifest, wal, randomness)).
End files.

Section runtime.
Context {C F E : Type} `{Clock C, OSEnv E}.

(** [owner.Open] on the new files. *)
Definition firstConfig (limits : Limits) (queueCapacity : Z) (faults : F) (identity : Identity)
    (allocation : RevisionRange) (randomness : Reader) (w : WAL) (s : FSState E)
    : Config C (RangeAllocator (ReserveState E)) (WAL * FSState E) F :=
  let allocator :=
    match runtimeAllocator identity 0 allocation randomness s with Ok a => Some a | Err _ => None end in
  MkConfig limits queueCapacity NilClock None (Some (w, s)) allocator [] 0 0 (IdDatabaseID identity) 0 []
    (IdReservedEnd identity) 1 faults.

(** [initializeRuntime] behind the owner lock.  [None] is the empty
    [openedRuntime] of a start that finds an identity it did not expect.
    [staleSocketName] is the socket's name if it is in the directory. *)
Definition initializeRuntime (real : C) (directory staleSocketName : string) (limits : Limits) (queueCapacity : Z)
    (faults : F) (audit : TailTruncation -> FSState E -> error * FSState E) (randomness : Reader)
    : fsio E (option (ownerState C F E * Manifest)) := fun s =>
  let (r, s) := os_stat IdentityFilename s in
  match r with
  | Ok _ =>
      fs_bind (recoverRuntime real directory limits queueCapacity faults audit randomness)
        (fun p => fs_ret (Some p)) s
  | Err e =>
      if negb (errors_Is e SysNotExist) then (Err (permissionError directory "stat" e), s)
      else
        (let? names := fs_value (permissionError directory "read_directory") os_readdir in
         if existsb (fun n => negb (String.eqb n "LOCK" || String.eqb n staleSocketName)) names
         then fs_throw identityMissing
         else
           let? files := createDatabase limits randomness in
           match files with
           | None => fs_ret None
           | Some (identity, allocation, manifest, w, randomness) => fun s =>
               match New real (firstConfig limits queueCapacity faults identity allocation randomness w s) with
               | Ok st => (Ok (Some (st, manifest)), s)
               | Err e => let '(_, (_, s)) := WAL_Close (w, s) in (Err e, s)
               end
           end) s
  end.
End runtime.

(** ** The created database is complete *)

Section steps.
Context {E : Type} `{OSEnv E}.
Implicit Types s : FSState E.

Lemma Stat_spec point name s r s' : Stat point name s = (r, s') ->
  disk s' = disk s /\ match r with Ok _ => is_Some (fs_dir s !! name) | Err _ => True end.
Proof.
  unfold Stat, hooked_value, os_stat. destruct (visit _ Before s) as [[err|] s1] eqn:H1; apply visit_disk in H1;
    [intros [= <- <-]; by split|].
  destruct (os_fail SysStat s1) as [[err|] s2] eqn:H2; apply os_fail_disk in H2; rewrite H1 in H2;
    [intros [= <- <-]; by split|].
  assert (fs_dir s2 = fs_dir s) as Hdir by (unfold disk in H2; congruence).
  destruct (fs_dir s2 !! name) as [i|] eqn:Hl; [|intros [= <- <-]; by split]. rewrite Hdir in Hl.
  destruct (visit _ After s2) as [[err|] s3] eqn:H3; apply visit_disk in H3; rewrite H2 in H3; intros [= <- <-];
    (split; [done|by eauto]).
Qed.

(** Writing to the file that was created last. *)
Lemma created_write name i s s1 s2 : created name s s1 (Ok i) -> same_but i s1 s2 ->
  fs_wf s2 /\ touches {[name]} s s2 /\ fs_dir s2 !! name = Some i /\ is_Some (fs_inodes s2 !! i).
Proof.
  intros (Hwf & Ht & Hnew & Hi & Hdir) Hsb. pose proof Hsb as (Hdir' & _ & _ & Hi').
  split; [eapply wf_same_but; eauto|]. split; [by eapply touches_new|]. rewrite Hdir'. split; [done|]. apply Hi'. eauto.
Qed.

Lemma createSyncedFile_spec name data s e s' : fs_wf s -> createSyncedFile name data s = (e, s') ->
  fs_wf s' /\ touches {[name]} s s' /\
  (e = None -> exists i, fs_dir s' !! name = Some i /\ inode i s' = MkInode data (len data)).
Proof.
  intros Hwf. unfold createSyncedFile. destruct (os_open _ _ s) as [[i|err] s1] eqn:Ho; apply os_open_new in Ho; try done.
  2:{ intros [= <- <-]. destruct Ho as (? & ? & _). by split_and!. }
  pose proof Ho as (_ & _ & _ & Hi%inode_Some & _).
  destruct (file_Write i data s1) as [[n e1] s2] eqn:H2. pose proof (file_Write_frame _ _ _ _ _ _ H2) as Hs2.
  apply file_Write_spec in H2 as (_ & Hd2 & Hn). rewrite Hi in Hd2. simpl in Hd2.
  destruct (match e1 with None => file_Sync i s2 | Some err => _ end) as [e2 s3] eqn:H3.
  assert (same_but i s1 s3) as Hs3.
  { destruct e1; [by simplify_eq|]. apply file_Sync_frame in H3. by eapply same_but_trans. }
  destruct (file_Close i s3) as [e3 s4] eqn:H4. apply file_Close_disk in H4. intros [= <- <-].
  assert (same_but i s1 s4) as Hs4 by (eapply same_but_trans; [done|by apply same_but_disk]).
  destruct (created_write _ _ _ _ _ Ho Hs4) as (Hwf4 & Ht4 & Hdir4 & _). split_and!; try done.
  intros Hnone. exists i. split; [done|]. rewrite (disk_inode i s3 s4) by done.
  destruct e2; [done|]. destruct e1; [done|]. apply file_Sync_spec in H3 as [Hd3 Hsy3].
  rewrite Hd2, (Hn eq_refl), slice_full in *. destruct (inode i s3). simpl in *. congruence.
Qed.

Lemma CreateWAL_new path header size limits s w s' : fs_wf s -> CreateWAL path header size limits s = (Ok w, s') ->
  fs_wf s' /\ touches {[path]} s s' /\ exists i, wal_file w = Some i /\ fs_dir s' !! path = Some i.
Proof.
  intros Hwf. unfold CreateWAL. destruct (_ <=? _); [done|]. destruct (negb _); [done|].
  destruct (EncodeWALHeader header) as [encoded|]; [|done].
  destruct (OpenFile _ _ _ s) as [[i|] s1] eqn:Ho; [|done]. apply OpenFile_new in Ho; [|done].
  pose proof Ho as (_ & _ & _ & Hi%inode_Some & _).
  destruct (writeFull _ _ _ _) as [e2 [u s2]] eqn:Hw.
  assert (writeAll PointWALHeaderWrite encoded i s1 = (e2, s2)) as Hwa by (unfold writeAll; by rewrite Hw).
  apply writeAll_writes in Hwa as (Hs2 & _ & _); [|done].
  destruct e2; [destruct (file_Close _ _); done|].
  destruct (Sync _ i s2) as [[err|] s3] eqn:Hs; [destruct (file_Close _ _); done|]. apply Sync_frame in Hs.
  intros [= <- <-]. destruct (created_write _ _ _ _ _ Ho (same_but_trans _ _ _ _ Hs2 Hs)) as (Hwf3 & Ht3 & Hdir3 & _).
  split_and!; try done. by exists i.
Qed.

(** A new identity. *)
Lemma LoadOrCreateIdentity_new rnd s r rnd' s' :
  fs_wf s -> absent s IdentityFilename -> LoadOrCreateIdentity rnd s = (r, rnd', s') ->
  fs_wf s' /\ keeps_files {[IdentityFilename]} s s' /\
  match r with
  | Ok (id, created) => created = true /\ identity_wf id /\ DatabaseID_IsZero (IdDatabaseID id) = false /\
      IdReservedEnd id = 0 /\ IdGeneration id = 1 /\ identity_on s' id
  | Err _ => True
  end.
Proof.
  intros Hwf Habs. unfold LoadOrCreateIdentity. destruct (Stat _ _ s) as [st s1] eqn:H1.
  apply Stat_spec in H1 as [Hd1 Hst]. destruct st as [n|e].
  { rewrite (Habs (fs_dir s)) in Hst by by left. by destruct Hst. }
  assert (forall e', fs_wf s1 /\ keeps_files {[IdentityFilename]} s s1 /\
    match (Err e' : result goerror (Identity * bool)) with Ok _ => False | Err _ => True end) as Hfail.
  { intros _. split; [by eapply wf_disk|]. split; [by apply keeps_files_disk|done]. }
  destruct (negb _). { intros [= <- _ <-]. exact (Hfail e). }
  destruct (ReadFull 16 rnd) as [[id [e1|]] rnd1] eqn:Hrnd. { intros [= <- _ <-]. exact (Hfail e). }
  destruct (DatabaseID_IsZero id) eqn:Hz. { intros [= <- _ <-]. exact (Hfail e). }
  apply ReadFull_Ok in Hrnd as (_ & Hlen & _); [|done].
  destruct (EncodeIdentity _) as [encoded|e1] eqn:Henc. 2:{ intros [= <- _ <-]. exact (Hfail e). }
  destruct (installIdentity encoded rnd1 s1) as [[r2 rnd2] s2] eqn:H2.
  apply (installIdentity_spec _ _ _ _ _ _ (fun f => f = None)) in H2 as (Hwf2 & Hrep & _ & Hr2);
    [|by eapply wf_disk|by apply absent_holds; eapply absent_disk].
  intros [= <- _ <-]. split_and!; [done| |].
  - eapply keeps_files_trans; [by apply keeps_files_disk|]. apply (replaces_keeps _ IdentityFilename); [by eapply wf_disk|set_solver|done].
  - destruct r2; [|done]. unfold len in Hlen. split_and!; try done.
    + split; [simpl; lia|by split].
    + eapply holds_impl; [|exact Hr2]. intros f ->. eauto.
Qed.

(** A name that a directory without pending changes has. *)
Lemma holds_settled s name i data : fs_pending s = [] -> fs_dir s !! name = Some i ->
  inode i s = MkInode data (len data) -> holds s name (fun f => f = Some data).
Proof.
  intros Hp Hi Hd d [->|Hin]; [|rewrite Hp in Hin; by apply not_elem_of_nil in Hin].
  exists (Some data). split; [done|]. unfold file_in. by rewrite Hi.
Qed.

Lemma createFiles_spec limits id rnd s m w rnd' s' :
  limits_ok limits -> fs_wf s -> identity_wf id -> 0 <= IdReservedEnd id -> identity_on s id ->
  absent s ManifestFilename ->
  createFiles limits id rnd s = (Ok (m, w, rnd'), s') ->
  exists i header, running limits id m (MkSnapshotState 0 []) w i header [] [] s'.
Proof.
  intros Hl Hwf Hid Hend Hon Ham. unfold createFiles, fs_bind, fs_lift, fs_call.
  destruct (EncodeSnapshot _ _ _ _) as [[snapshot digest]|] eqn:Henc; [|done].
  apply EncodeSnapshot_Ok in Henc as (Hz & Hsnwf & -> & ->); try done.
  change (liveSnapshot (MkSnapshotState 0 []) 0) with (MkSnapshotState 0 []) in *.
  set (dbid := IdDatabaseID id) in *. set (image := snapshotImage dbid _). set (digest := Sum256 _).
  destruct (createSyncedFile _ _ s) as [[e|] s1] eqn:H1; [done|].
  apply createSyncedFile_spec in H1 as (Hwf1 & Ht1 & Hi1); [|done]. destruct (Hi1 eq_refl) as (i1 & Hdir1 & Hino1).
  destruct (CreateWAL _ _ _ _ s1) as [[w2|] s2] eqn:H2; [|done].
  pose proof (CreateWAL_new _ _ _ _ _ _ _ Hwf1 H2) as (Hwf2 & Ht2 & i & Hfile & Hdir2).
  destruct (InstallManifest _ 0 rnd s2) as [[[u|e] rnd3] s3] eqn:H3; [|by destruct (WAL_Close _) as [? [? ?]]].
  intros [= <- <- <- <-]. set (m := firstManifest dbid digest) in *.
  destruct (snapshot_fixed_name 0) as [Hsm Hsi], (wal_fixed_name 1) as [Hwm Hwi].
  pose proof (snapshot_wal_name 0 1) as Hsw.
  assert (regular (snapshotFileName 0) /\ regular (walFileName 1)) as [Hrs Hrw]
    by (split; [apply snapshotFileName_regular|apply walFileName_regular]; done).
  pose proof (touches_keeps _ {[snapshotFileName 0]} _ _ Hwf ltac:(done) Ht1) as Hk1.
  pose proof (touches_keeps _ {[walFileName 1]} _ _ Hwf1 ltac:(done) Ht2) as Hk2.
  assert (holds s2 ManifestFilename (fun f => f = None)) as Hm2.
  { apply absent_holds, (keeps_files_absent _ _ _ _ Hk2), (keeps_files_absent _ _ _ _ Hk1); auto with gapdb; by apply not_elem_of_singleton. }
  apply (InstallManifest_spec _ _ _ _ _ _ _ _ Hwf2 Hm2) in H3 as (Hwf3 & Hk3 & [[_ []]|(mb & Hmb & _ & Hm3 & Hp3)]).
  assert (header_wf (MkWALHeader dbid 1 1)) as Hhwf by (split_and!; done || apply Hid).
  destruct (CreateWAL_inv (IdReservedEnd id) _ _ _ _ _ _ _ Hl Hhwf H2) as (i' & header & Hinv & _ & Hhead & Hwl).
  assert (i' = i) as -> by (pose proof (wi_file _ _ _ _ _ _ Hinv) as Hf; simpl in Hf; congruence).
  destruct (keeps_files_now _ _ _ _ _ Hk2 Hrs ltac:(by apply not_elem_of_singleton) Hdir1) as [Hd2 Hn2].
  destruct (keeps_files_now _ _ _ _ _ Hk3 Hrs ltac:(by apply not_elem_of_singleton) Hd2) as [Hd3 Hn3].
  destruct (keeps_files_now _ _ _ _ _ Hk3 Hrw ltac:(by apply not_elem_of_singleton) Hdir2) as [Hd3w Hn3w].
  destruct (snapshot_loads limits Hl m (MkSnapshotState 0 [])) as [Hload Hval]; try done; [apply Hid|].
  exists i, header. split; try done.
  - split; try done.
    + apply (keeps_files_holds _ _ _ _ _ Hk3), (keeps_files_holds _ _ _ _ _ Hk2), (keeps_files_holds _ _ _ _ _ Hk1);
        auto with gapdb; by apply not_elem_of_singleton.
    + exists mb. split; [done|]. apply (DecodeManifest_encode m mb 1); try done. split_and!; done || apply Hid.
    + exists image. split; [|done]. apply (holds_settled _ _ i1); [done..|]. by rewrite Hn3, Hn2.
  - intros d [->|Hd]; [done|]. rewrite Hp3 in Hd. by apply not_elem_of_nil in Hd.
  - by apply (wal_inv_frame _ _ _ _ s2).
Qed.

(** A directory without a database. *)
Definition vacant s : Prop := absent s IdentityFilename /\ absent s ManifestFilename.

Lemma createDatabase_running limits rnd s r s' :
  limits_ok limits -> fs_wf s -> vacant s -> createDatabase limits rnd s = (Ok r, s') ->
  exists id allocation m w rnd' i header, r = Some (id, allocation, m, w, rnd') /\
    IdReservedEnd id = defaultRevisionReservation /\ allocation = MkRevisionRange 1 (IdReservedEnd id) /\
    DatabaseID_IsZero (IdDatabaseID id) = false /\ running limits id m (MkSnapshotState 0 []) w i header [] [] s'.
Proof.
  intros Hl Hwf [Hai Ham]. unfold createDatabase, fs_bind, fs_random.
  destruct (LoadOrCreateIdentity rnd s) as [[[[id created]|e] rnd1] s1] eqn:H1; [|done].
  apply LoadOrCreateIdentity_new in H1 as (Hwf1 & Hk1 & -> & Hid & Hz & Hend & Hgen & Hon1); try done. cbn [negb]. cbv beta iota.
  destruct (ReserveRevisions id _ _ rnd1 s1) as [[[[id2 allocation]|e] rnd2] s2] eqn:H2; [|done].
  apply (ReserveRevisions_spec id) in H2 as (Hwf2 & Hrep2 & _ & -> & Hid2 & -> & _ & Hon2); try done.
  2:{ eapply holds_impl; [|exact Hon1]. intros f (b & -> & Hb). exists b. auto. }
  pose proof (replaces_keeps {[IdentityFilename]} IdentityFilename _ _ Hwf1 ltac:(set_solver) Hrep2) as Hk2.
  destruct (createFiles _ _ _ s2) as [[[[m w] rnd3]|e] s3] eqn:H3; [|done]. intros [= <- <-].
  apply createFiles_spec in H3 as (i & header & Hrun); try done.
  - exists (grow defaultRevisionReservation id). do 6 eexists. split; [done|].
    cbn [IdReservedEnd IdDatabaseID grow]. rewrite Hend. by split_and!.
  - cbn [IdReservedEnd grow]. by rewrite Hend.
  - apply (keeps_files_absent _ _ _ _ Hk2); [by auto with gapdb|set_solver|].
    apply (keeps_files_absent _ _ _ _ Hk1); [by auto with gapdb|set_solver|done].
Qed.
End steps.
