(* ===== verification/Lifecycle.v ===== *)
(** * Crash, restart and reopening of a database

    The parts of storage together: the process of a database stops at any
    moment, a new one finds what its disk shows after the crash, and
    [recoverRuntime] opens the database on it.  The first process runs in an
    arbitrary environment, the new one in an environment without faults. *)

From stdpp Require Import base gmap list strings sorting.
From Stdlib Require Import ZArith Lia.
From S2P Require Import Prelude.
From S2P Require Import Bytes.
From S2P Require Import Errors.
From S2P Require Import ApiTypes.
From S2P Require Import Clock.
From S2P Require Import Allocator.
From S2P Require Import FaultFS.
From S2P Require Import StorageErrors.
From S2P Require Import WalCodec.
From S2P Require Import WalScan.
From S2P Require Import WalLog.
From S2P Require Import Engine.
From S2P Require Import Replay.
From S2P Require Import EngineInv.
From S2P Require Import WalEngine.
From S2P Require Import Storage.
From S2P Require Import Identity.
From S2P Require Import Snapshot.
From S2P Require Import Manifest.
From S2P Require Import FileFrames.
From S2P Require Import FaultFree.
From S2P Require Import Recovery.
From S2P Require Import Generation.
From S2P Require Import CrashRestart.
From S2P Require Import Compaction.
From S2P Require Import Reopen.
From S2P Require Import Initialize.

Local Open Scope Z_scope.

Section lifecycle.
Context {C F E E' : Type} `{Clock C, Faults F, OSEnv E, FaultFree E'}.
Variable limits : Limits.
Hypothesis limits_fine : limits_ok limits.
Implicit Types (s : FSState E) (t : FSState E').

(** How the new process starts. *)
Record restart := MkRestart {
  rs_clock : C;
  rs_directory : string;
  rs_queue : Z;
  rs_faults : F;
  rs_audit : TailTruncation -> FSState E' -> error * FSState E';
  rs_random : Reader
}.

Definition reopen (r : restart) : fsio E' (ownerState C F E' * Manifest) :=
  recoverRuntime (rs_clock r) (rs_directory r) limits (rs_queue r) (rs_faults r) (rs_audit r) (rs_random r).

(** It can start: there is room in the identity, randomness and an audit. *)
Definition can_start (r : restart) (id : Identity) t : Prop :=
  0 <= rs_queue r /\ exists rnd' suffix,
    startable (MkRecoveryOptions limits defaultRevisionReservation (Some (Load limits)) (Some (rs_audit r)))
      id (rs_random r) rnd' suffix t.

(** The new process is ready, with the records of [snap] at the revision
    [base] followed by the commits [found]. *)
Definition opens (r : restart) t (snap : list DBRecord) (base : Revision) (found : list CommitFrame) : Prop :=
  runs (reopen r) t (fun p _ =>
    engine_inv (LS := WAL_LogSpec max_uint64) (AS := RangeAllocator_Spec max_uint64)
      (snapshotMap snap) base found [] p.1 /\
    st_records p.1 = replay (snapshotMap snap) found /\ st_current p.1 = last_revision base found /\
    st_lifecycle p.1 = LifecycleReady).

Lemma found_opens r id m state header found t :
  found_disk limits id m state header found t -> can_start r id t -> expiring_fits limits (SnRecords state) ->
  opens r t (SnRecords state) (MfSnapshotRevision m) found.
Proof.
  intros Hf [Hq (rnd' & suffix & Hst)] Hfit. eapply runs_mono.
  { exact (recoverRuntime_runs limits limits_fine (rs_clock r) (rs_directory r) (rs_queue r) (rs_faults r) (rs_audit r)
      id m state header found (rs_random r) rnd' suffix t Hf Hst Hfit Hq). }
  intros p t' (_ & Hinv & _ & Hready). destruct (view_healthy _ _ _ _ _ Hinv (or_introl Hready)). by split_and!.
Qed.

(** C2: A database survives a crash of its process.  The database runs on its
    disk with the acknowledged commits [cs] and possibly one whose append
    failed, and stops at any moment; the next process opens it, ready, with
    the records of its snapshot and a prefix of those commits that has every
    commit up to the revision the log reported as durable. *)
Theorem crashed_database_reopens r id m state w i header cs fl s t :
  running limits id m state w i header cs fl s -> restarts s t -> can_start r id t ->
  expiring_fits limits (SnRecords state) ->
  exists found, opens r t (SnRecords state) (MfSnapshotRevision m) found /\ found `prefix_of` cs ++ fl /\
    forall c, c ∈ cs -> FrRevision c <= wal_durable w -> c ∈ found.
Proof.
  intros Hrun Hr Hst Hfit. destruct (running_restart _ _ _ _ _ _ _ _ _ _ _ Hrun Hr) as (found & Hf & Hpre & Hdur).
  exists found. split; [by eapply found_opens|done].
Qed.

(** C3: Installing a snapshot is atomic.  [InstallSnapshotGeneration] runs in
    an arbitrary environment, behind a barrier that has been passed, for a
    revision above that of the current snapshot whose file names are not taken
    ([install_input]), and the process stops, during it or later; the
    next process opens the old generation with every durable commit, which an
    installation without an error rules out, or the new generation, whose
    records are the live ones of the snapshot; then an error said that the
    operation was applied. *)
Theorem snapshot_install_atomic r id m state w i header cs fl options rnd s res e rnd' s' t :
  running limits id m state w i header cs fl s -> install_input limits m id options s -> MfGeneration m < max_uint64 ->
  InstallSnapshotGeneration options rnd s = (res, e, rnd', s') -> restarts s' t -> can_start r id t ->
  let live := liveSnapshot (SiState options) (SiAsOf options) in
  expiring_fits limits (SnRecords state) -> expiring_fits limits (SnRecords live) ->
  (e <> None /\ exists found, opens r t (SnRecords state) (MfSnapshotRevision m) found /\
     found `prefix_of` cs ++ fl /\ forall c, c ∈ cs -> FrRevision c <= wal_durable w -> c ∈ found) \/
  (match e with None => True | Some err => claims_applied err = true end /\
   opens r t (SnRecords live) (SnRevision (SiState options)) []).
Proof.
  intros Hrun Hin Hgen Hins Hr Hst live Hfit Hfit'.
  destruct (install_crash_safe _ limits_fine _ _ _ _ _ _ _ _ _ _ _ _ _ _ _ _ Hrun Hin Hgen Hins Hr)
    as [(He & found & Hf & Hpre & Hdur)|(He & m' & header' & Hf & _)].
  - left. split; [done|]. exists found. split; [by eapply found_opens|done].
  - right. split; [done|]. destruct (database_files_snapshot _ limits_fine _ _ _ _ (fd_files _ _ _ _ _ _ _ Hf)) as [_ Hrev].
    change (SnRevision (SiState options)) with (SnRevision live). unfold live in *. rewrite Hrev. by eapply found_opens.
Qed.

(** C18: A new database survives a crash.  [initializeRuntime] creates the files
    of a database in an empty directory, in an arbitrary environment; from the
    moment they are created, the next process opens the same, empty, database
    whenever this one stops. *)
Theorem new_database_reopens r rnd s files s' t :
  fs_wf s -> vacant s -> createDatabase limits rnd s = (Ok files, s') -> restarts s' t ->
  exists id allocation m w rnd', files = Some (id, allocation, m, w, rnd') /\
    IdReservedEnd id = defaultRevisionReservation /\ allocation = MkRevisionRange 1 defaultRevisionReservation /\
    (can_start r id t -> opens r t [] 0 []).
Proof.
  intros Hwf Hv Hc Hr.
  destruct (createDatabase_running _ _ _ _ _ limits_fine Hwf Hv Hc) as (id & al & m & w & rnd' & i & header & -> & Hend & -> & Hz & Hrun).
  exists id, (MkRevisionRange 1 (IdReservedEnd id)), m, w, rnd'. split_and!; try done; [by rewrite Hend|]. intros Hst.
  destruct (running_restart _ _ _ _ _ _ _ _ _ _ _ Hrun Hr) as (found & Hf & Hpre & _).
  apply prefix_nil_inv in Hpre as ->.
  destruct (database_files_snapshot _ limits_fine _ _ _ _ (fd_files _ _ _ _ _ _ _ Hf)) as [_ Hrev].
  pose proof (found_opens r id m _ header [] t Hf Hst ltac:(constructor)) as Ho. by rewrite <- Hrev in Ho.
Qed.
End lifecycle.
Arguments restart : clear implicits.

(** ** A sample database on its disk *)

#[local] Existing Instance quiet.

(** Every file is synced, and so is the directory. *)
Definition settled {E} (s : FSState E) : bool :=
  bool_decide (fs_pending s = []) &&
  forallb (fun '(_, i) => match (fs_inodes s !! i : option Inode) with
                          | Some n => ino_synced n =? len (ino_data n)
                          | None => false
                          end) (map_to_list (fs_dir s)).

Lemma restarts_settled {E} `{OSEnv E} (s : FSState E) : settled s = true -> restarts s s.
Proof.
  intros [Hp%bool_decide_eq_true Hall]%andb_true_iff. split; [by left|]. split; [done|]. intros name i Hi.
  rewrite forallb_True, Forall_forall in Hall || apply forallb_forall with (x := (name, i)) in Hall.
  - unfold inode. destruct (fs_inodes s !! i) as [[b n]|]; [|done]. apply Z.eqb_eq in Hall. simpl in Hall. subst n.
    exists b. split; [|done]. exists (len b). split; [simpl; lia|]. by rewrite slice_full.
  - by apply list_elem_of_In, elem_of_map_to_list.
Qed.

Lemma absent_settled {E} `{OSEnv E} (s : FSState E) name :
  fs_pending s = [] -> fs_dir s !! name = None -> absent s name.
Proof. intros Hp Hn d [->|Hd]; [done|]. rewrite Hp in Hd. by apply not_elem_of_nil in Hd. Qed.

Module SampleDisk.
Definition entropy : Reader := MkReader (lit "0123456789abcdefghijklmnopqrstuvwxyz0123456789abcdefghijklmnopqr") None.
Definition outcome : result goerror (option (Identity * RevisionRange * Manifest * WAL * Reader)) * FSState unit :=
  createDatabase DefaultOptions entropy empty_fs.
Definition disk : FSState unit := outcome.2.
Definition files : option (Identity * RevisionRange * Manifest * WAL * Reader) := or_default None outcome.1.

Definition start : restart Manual unit unit :=
  MkRestart (NewManual 0) "db" 0 tt (fun _ s => (None, s)) (MkReader (lit "fedcba9876543210") None).

Lemma outcome_ok : createDatabase DefaultOptions entropy empty_fs = (Ok files, disk).
Proof.
  assert (is_ok outcome.1 = true) as Hok by (vm_compute; reflexivity). unfold files, disk, or_default.
  change (createDatabase DefaultOptions entropy empty_fs) with outcome. by destruct outcome as [[f|e] s].
Qed.

Lemma empty_wf : fs_wf empty_fs.
Proof. split; [intros d name i|intros d n n' i]; intros [->|[]%not_elem_of_nil]; done. Qed.

Lemma empty_vacant : vacant empty_fs.
Proof. by split; apply absent_settled. Qed.

Lemma disk_settled : restarts disk disk.
Proof. apply restarts_settled. vm_compute. reflexivity. Qed.

Lemma audit_nothing : audit_fine (fun _ (s : FSState unit) => (None, s)).
Proof. intros t s Hwf. exists s. split_and!; try done. apply keeps_files_refl. Qed.

(** The database that was created. *)
Definition identity : Identity := MkIdentity (lit "0123456789abcdef") defaultRevisionReservation 2.

Lemma starts_on d : fs_dir d !! "IDENTITY.tmp-6665646362613938" = None ->
  can_start (F := unit) DefaultOptions start identity d.
Proof.
  intros Hfree. split; [done|]. exists (MkReader (lit "76543210") None), "6665646362613938". split.
  - by vm_compute.
  - reflexivity.
  - reflexivity.
  - by vm_compute.
  - reflexivity.
  - vm_compute. reflexivity.
  - exact Hfree.
  - exists (fun _ s => (None, s)). split; [done|apply audit_nothing].
Qed.

Lemma disk_starts : can_start (F := unit) DefaultOptions start identity disk.
Proof. apply starts_on. vm_compute. reflexivity. Qed.

Definition manifest : Manifest := default (firstManifest [] []) ((fun f => f.1.1.2) <$> files).

Lemma disk_running : exists w i header, running DefaultOptions identity manifest (MkSnapshotState 0 []) w i header [] [] disk.
Proof.
  destruct (createDatabase_running _ _ _ _ _ DefaultOptions_ok empty_wf empty_vacant outcome_ok)
    as (id & al & m & w & rnd & i & header & Hf & _ & _ & _ & Hrun).
  assert ((fun f => f.1.1.1.1) <$> files = Some identity) as Hid by (vm_compute; reflexivity).
  unfold manifest. rewrite Hf in *. injection Hid as ->. by eauto.
Qed.
End SampleDisk.

Lemma crashed_database_reopens_witness :
  opens DefaultOptions SampleDisk.start SampleDisk.disk [] (MfSnapshotRevision SampleDisk.manifest) [].
Proof.
  destruct SampleDisk.disk_running as (w & i & header & Hrun).
  destruct (crashed_database_reopens (C := Manual) (F := unit) DefaultOptions DefaultOptions_ok SampleDisk.start _ _ _ _ _ _ _ _ _ _
    Hrun SampleDisk.disk_settled SampleDisk.disk_starts (List.Forall_nil _)) as (found & Ho & Hpre & _).
  apply prefix_nil_inv in Hpre as ->. exact Ho.
Defined.

(** A snapshot of two records, one of which has expired. *)
Module SampleInstall.
Definition records : list DBRecord :=
  [MkRecord (lit "jobs/2") (lit "ready") 7 None; MkRecord (lit "jobs/0") (lit "old") 4 (Some 100)].
Definition options : SnapshotInstallOptions unit :=
  MkInstallOptions SampleDisk.manifest (MkSnapshotState 7 records) 1000 DefaultOptions 4096 (Some (fun s => (None, s))).
Definition outcome : SnapshotInstallResult * error * Reader * FSState unit :=
  InstallSnapshotGeneration options SampleDisk.entropy SampleDisk.disk.

Lemma input : install_input DefaultOptions SampleDisk.manifest SampleDisk.identity options SampleDisk.disk.
Proof.
  split; try reflexivity.
  - by vm_compute.
  - repeat constructor; by vm_compute.
  - apply absent_settled; vm_compute; reflexivity.
  - apply absent_settled; vm_compute; reflexivity.
Qed.

Lemma settles : restarts outcome.2 outcome.2.
Proof. apply restarts_settled. vm_compute. reflexivity. Qed.

Lemma starts : can_start (F := unit) DefaultOptions SampleDisk.start SampleDisk.identity outcome.2.
Proof. apply SampleDisk.starts_on. vm_compute. reflexivity. Qed.
End SampleInstall.

Lemma snapshot_install_atomic_witness :
  opens DefaultOptions SampleDisk.start SampleInstall.outcome.2 [MkRecord (lit "jobs/2") (lit "ready") 7 None] 7 [].
Proof.
  destruct SampleDisk.disk_running as (w & i & header & Hrun).
  assert (SampleInstall.outcome.1.1.2 = None) as He by (vm_compute; reflexivity).
  destruct (snapshot_install_atomic (C := Manual) (F := unit) DefaultOptions DefaultOptions_ok SampleDisk.start _ _ _ _ _ _ _ _
    SampleInstall.options SampleDisk.entropy _ SampleInstall.outcome.1.1.1 None SampleInstall.outcome.1.2 SampleInstall.outcome.2
    SampleInstall.outcome.2 Hrun SampleInstall.input) as [[Hne _]|[_ Ho]].
  - vm_compute. reflexivity.
  - rewrite <- He. change (InstallSnapshotGeneration _ _ _) with SampleInstall.outcome. by destruct SampleInstall.outcome as [[[? ?] ?] ?].
  - exact SampleInstall.settles.
  - exact SampleInstall.starts.
  - constructor.
  - repeat constructor. by intros [].
  - exact (False_ind _ (Hne eq_refl)).
  - exact Ho.
Defined.

Lemma new_database_reopens_witness :
  opens DefaultOptions SampleDisk.start SampleDisk.disk [] 0 [].
Proof.
  destruct (new_database_reopens (C := Manual) (F := unit) DefaultOptions DefaultOptions_ok SampleDisk.start _ _ _ _ SampleDisk.disk
    SampleDisk.empty_wf SampleDisk.empty_vacant SampleDisk.outcome_ok SampleDisk.disk_settled)
    as (id & al & m & w & rnd & Hf & _ & _ & Ho).
  apply Ho. assert ((fun f => f.1.1.1.1) <$> SampleDisk.files = Some SampleDisk.identity) as Hid by (vm_compute; reflexivity).
  rewrite Hf in Hid. injection Hid as ->. exact SampleDisk.disk_starts.
Defined.

(** The same database beside the log of a generation before it. *)
Module SampleCompaction.
Definition disk : FSState unit := (createSyncedFile (walFileName 0) (lit "old") SampleDisk.disk).2.
Definition planned : result goerror CompactionPlan * FSState unit :=
  PlanCompaction "db" SampleDisk.manifest (lit "0123456789abcdef") 0 disk.
Definition plan : CompactionPlan := or_default (MkCompactionPlan [] 0 0 [] []) planned.1.
Definition outcome : CompactionResult * error * FSState unit := RunCompaction "db" SampleDisk.manifest plan planned.2.

Lemma compacted_running : exists w i header,
  running DefaultOptions SampleDisk.identity SampleDisk.manifest (MkSnapshotState 0 []) w i header [] [] disk.
Proof.
  destruct SampleDisk.disk_running as (w & i & header & Hrun). exists w, i, header.
  destruct (createSyncedFile (walFileName 0) (lit "old") SampleDisk.disk) as [e s] eqn:Hc.
  assert (disk = s) as -> by (unfold disk; by rewrite Hc).
  apply createSyncedFile_spec in Hc as (Hwf & Ht & _); [|apply Hrun].
  apply (running_keeps _ _ _ _ _ _ _ _ _ {[walFileName 0]} SampleDisk.disk s Hrun Hwf).
  - apply (touches_keeps {[walFileName 0]}); [apply Hrun|done|exact Ht].
  - apply not_elem_of_singleton. by destruct (wal_fixed_name 0).
  - apply not_elem_of_singleton. by destruct (wal_fixed_name 0).
  - apply not_elem_of_singleton. vm_compute. discriminate.
  - apply not_elem_of_singleton. vm_compute. discriminate.
Qed.
End SampleCompaction.

Lemma compaction_exact_witness :
  CrRemoved SampleCompaction.outcome.1.1 = ["wal-00000000000000000000.gdb"] /\
  absent SampleCompaction.outcome.2 "wal-00000000000000000000.gdb".
Proof.
  destruct SampleCompaction.compacted_running as (w & i & header & Hrun).
  assert (is_ok SampleCompaction.planned.1 = true) as Hok by (vm_compute; reflexivity).
  assert (SampleCompaction.outcome.1.2 = None) as He by (vm_compute; reflexivity).
  assert (CpRemove SampleCompaction.plan = ["wal-00000000000000000000.gdb"]) as Hrem by (vm_compute; reflexivity).
  destruct (compaction_exact _ _ _ _ _ _ _ _ _ "db" (lit "0123456789abcdef") 0 SampleCompaction.plan _
    SampleCompaction.planned.2 SampleCompaction.outcome.1.1 None SampleCompaction.outcome.2 Hrun)
    as (_ & _ & _ & _ & _ & Hall & Hgone).
  - change (PlanCompaction _ _ _ _ _) with SampleCompaction.planned. unfold SampleCompaction.plan, or_default.
    destruct SampleCompaction.planned as [[p|e] s]; [reflexivity|discriminate Hok].
  - rewrite <- He. change (RunCompaction _ _ _ _) with SampleCompaction.outcome.
    destruct SampleCompaction.outcome as [[r e] s]. reflexivity.
  - rewrite Hrem in Hall, Hgone. split; [exact Hall|]. apply Hgone. apply list_elem_of_singleton. reflexivity.
Defined.
