(* ===== verification/Database.v ===== *)
(** * Database: the properties of the engine as a whole

    The theorems on commits, runs, liveness and crashes, first for any log and
    allocator that satisfy the laws of EngineInv.v, then for the write-ahead
    log and the range allocator.  [SampleDB] is a small database that the
    witnesses run. *)

From stdpp Require Import base gmap list strings sorting.
From Stdlib Require Import ZArith Lia.
From S2P Require Import Prelude.
From S2P Require Import Bytes.
From S2P Require Import Errors.
From S2P Require Import ApiTypes.
From S2P Require Import Clock.
From S2P Require Import Allocator.
From S2P Require Import FaultFS.
From S2P Require Import StorageErrors.
From S2P Require Import WalCodec.
From S2P Require Import WalScan.
From S2P Require Import WalLog.
From S2P Require Import OrderedKeys.
From S2P Require Import History.
From S2P Require Import Expiry.
From S2P Require Import Watch.
From S2P Require Import Engine.
From S2P Require Import Writer.
From S2P Require Import Commands.
From S2P Require Import Replay.
From S2P Require Import WriterFacts.
From S2P Require Import EngineInv.
From S2P Require Import WalEngine.
From S2P Require Import DueExpiry.
From S2P Require Import EngineRun.
From S2P Require Import Restart.
From S2P Require Import Cursor.
From S2P Require Import Scan.
From S2P Require Import Frame.
From S2P Require Import RecoverySnapshot.
From S2P Require Import ReadMany.

Local Open Scope Z_scope.

Section database.
Context {C A L F : Type} `{Clock C, !RevisionAllocator A, !CommitLog L, !Faults F}.
Context {LS : LogSpec L} {bound : Revision} {AS : AllocatorSpec A bound}.
Hypothesis bound_fits : forall c, 0 <= FrRevision c <= bound -> log_fits c.
Implicit Types st : DatabaseState C A L F.
Implicit Types o : owner C A L F.

(** The states a database reaches from recovered state. *)
Definition reaches (config : Config C A L F) (snap : gmap bytes DBRecord) (base : Revision)
    (cs : list CommitFrame) o : Prop :=
  recovered (bound := bound) config snap base cs /\
  exists real st, New real config = Ok st /\ rtc owner_step (startOwner st) o.

Lemma reaches_inv config snap base cs o :
  reaches config snap base cs o ->
  exists tr, cs `prefix_of` tr /\ owner_inv (bound := bound) snap base tr o.
Proof.
  intros (Hrec & real & st & Hnew & Hrun). destruct (New_ok real _ _ _ _ Hrec) as (st' & Hnew' & Hinv & _ & Hl).
  rewrite Hnew in Hnew'. injection Hnew' as <-. eapply owner_inv_run; [exact bound_fits| |exact Hrun].
  apply startOwner_inv; [exact Hinv|exact Hl].
Qed.

Lemma handleCommand_total snap base tr c depth st :
  traced (bound := bound) snap base tr st -> command_ok c -> physical st ->
  exists r st', handleCommand c depth st = Some (r, st').
Proof.
  intros (old & cs & fl & -> & Ho & Hinv) Hok [Hroom _]. destruct c as [batch single| |watch|id|installer|op]; simpl.
  - destruct (executeSafely batch single st) as [[r|] st'] eqn:Hex; simpl; [eauto|].
    by destruct (executeSafely_leaves bound_fits _ _ _ _ _ _ _ Hinv (conj Hok Hroom) _ _ Hex) as (? & ? & _ & _ & ?).
  - destruct (executeDueExpiriesSafely st) as [[r|] st'] eqn:Hex; simpl; [eauto|].
    destruct (executeDueExpiriesSafely_leaves bound_fits _ _ _ _ _ _ _ Hinv Hroom Hex)
      as (due & st1 & _ & [(_ & ? & _)|[_ (? & ? & _ & _ & ?)]]); done.
  - destruct (registerWatch _ _ _ _ _ _). eauto.
  - destruct (registry_unregister id WatchEndedByClient (st_current st) _ (en_registry _ _ _ _ _ Hinv))
      as (rg & -> & _). simpl. eauto.
  - destruct (executeSnapshot _ _) as [[? ?] ?]. eauto.
  - destruct (executeDurableAdmin _ _). eauto.
Qed.

(** ** Properties *)

(** C5: Commits are atomic and their errors truthful.  Executing a batch in a
    state that satisfies the invariant, with an allocator and a log whose append
    and barrier may fail or panic and hooks that may fail: the writer never blocks, the invariant holds
    again, and what the client is told is what happened.  A result means that
    the batch was accepted, that its frame, under a new and larger revision, is
    the last commit of the log, that the records changed by exactly its
    effects, and that the durability reported is the log's, all of the commit
    for a durable acknowledgement.  An error that denies an application means
    that log and records are as before; any other leaves at most this one
    commit behind. *)
Theorem commit_truthful snap base cs fl st batch single r st' :
  engine_inv (bound := bound) snap base cs fl st -> fits batch st ->
  executeSafely batch single st = (r, st') ->
  exists cs' fl', engine_inv (bound := bound) snap base cs' fl' st' /\
    match r with
    | None => False
    | Some (Ok res) => exists revision durable,
        accepted batch single st /\ st_current st < revision <= bound /\
        cs' = cs ++ [frameOf revision batch single] /\ fl' = [] /\
        res = commit_result batch revision durable (batch_events batch single revision st) /\
        st_records st' = replayCommit (st_records st) (frameOf revision batch single) /\
        st_current st' = revision /\ st_lifecycle st' = st_lifecycle st /\
        durable <= log_DurableThrough (st_log st') /\ (BatchAck batch = AckDurable -> durable = revision)
    | Some (Err e) =>
        if claims_applied e then
          cs' = cs /\ fl' = fl \/
          exists revision, st_current st < revision /\
            (cs' = cs /\ fl' = [frameOf revision batch single] \/
             cs' = cs ++ [frameOf revision batch single] /\ fl' = [])
        else cs' = cs /\ fl' = fl /\ st_records st' = st_records st /\ st_current st' = st_current st
    end.
Proof.
  intros Hinv Hfit Hex.
  destruct (executeSafely_leaves bound_fits _ _ _ _ _ _ _ Hinv Hfit _ _ Hex) as (cs' & fl' & Hinv' & _ & Hout).
  exists cs', fl'. split; [done|]. destruct r as [[res|e]|]; [| |done]; simpl in Hout.
  - destruct Hout as (revision & d & Hout). exists revision, d. naive_solver.
  - destruct Hout as (Hlog & Hdeny & _). destruct (claims_applied e) eqn:He.
    + destruct Hlog as [?|(_ & _ & revision & Hrev & Hl)]; [by left|right]. exists revision. naive_solver.
    + destruct Hlog as [[? ?]|[? _]]; [|done]. destruct (Hdeny eq_refl). done.
Qed.

(** C4: Every run of the database is consistent.  From recovered state, after
    any interleaving of submitted mutations, expiries, snapshots,
    administration, watches, reads, the writer's steps and closing: the commits
    since the start form a trace of increasing revisions that extends the
    recovered one; the records and the current revision are those of the trace,
    or of all but its last commit once the database has degraded; the ordered
    index lists exactly the keys of the records; every admitted command is
    either queued or has its one reply; every successful reply names a commit
    of the trace and calls durable only what the log holds durably. *)
Theorem database_run_consistent config snap base cs o :
  reaches config snap base cs o ->
  exists tr, cs `prefix_of` tr /\ revisions_from base bound tr /\
    (exists seen, st_records (ow_state o) = replay snap seen /\
       st_current (ow_state o) = last_revision base seen /\
       (tr = seen \/ (exists c, tr = seen ++ [c]) /\
        st_lifecycle (ow_state o) = LifecycleDegradedReadOnly)) /\
    strictly_sorted (ks_keys (st_orderedKeys (ow_state o))) /\
    (forall k, k ∈ ks_keys (st_orderedKeys (ow_state o)) <-> is_Some (st_records (ow_state o) !! k)) /\
    (forall t, 0 <= t < ow_next o <->
       (t ∈ (ow_queue o).*1 /\ ow_replies o !! t = None) \/
       (t ∉ (ow_queue o).*1 /\ is_Some (ow_replies o !! t))) /\
    map_Forall (fun _ r => reply_ok tr (durable (ow_state o)) r) (ow_replies o).
Proof.
  intros (tr & Hpre & Hinv)%reaches_inv. exists tr. pose proof Hinv as [Ht _ _ _ _ Htk Hw Hr].
  pose proof (traced_ordered _ _ _ _ Ht) as Hord. destruct Ht as (old & cs' & fl & -> & _ & He).
  destruct (ci_index _ (en_core _ _ _ _ _ He)) as (Hs & Hin & _). split_and!; try done.
  - destruct (en_view _ _ _ _ _ He) as (seen & Hrec & Hcur & Hseen). exists (old ++ seen).
    rewrite replay_app. split_and!; [done|by rewrite Hcur; unfold last_revision; rewrite foldl_app|].
    destruct Hseen as [->|[[c ->] Hd]]; [by left|right]. split; [|done]. exists c. by rewrite app_assoc.
  - intros t. rewrite Htk. specialize (Hw t). destruct (decide (t ∈ (ow_queue o).*1)) as [Hin'|Hin'].
    + specialize (Hw Hin'). tauto.
    + tauto.
Qed.

(** C11: The writer makes progress.  In every reachable state, the command at
    the head of the queue is executed, answered under its ticket and removed,
    whatever fails; and once the queue is closed and empty, the writer
    finishes, unless the last barrier of the log panics. *)
Theorem writer_progress config snap base cs o :
  reaches config snap base cs o -> physical (ow_state o) ->
  (forall ticket c rest, ow_queue o = (ticket, c) :: rest ->
     exists r o', runCommand o = Some o' /\ ow_queue o' = rest /\
       ow_replies o' = <[ticket := r]> (ow_replies o)) /\
  (ow_closed o = true -> ow_done o = false -> ow_queue o = [] ->
     (exists v, (log_Barrier (st_log (ow_state o))).1 = Panicked v) \/
     exists o', runClosed o = Some o' /\ ow_done o' = true).
Proof.
  intros (tr & _ & Hinv)%reaches_inv Hph. split.
  - intros ticket c rest Hq. unfold runCommand. rewrite Hq.
    pose proof (oi_commands _ _ _ _ Hinv) as Hc. rewrite Hq in Hc. apply Forall_cons in Hc as [Hc _].
    destruct (handleCommand_total _ _ _ c (len rest) _ (oi_traced _ _ _ _ Hinv) Hc Hph) as (r & st' & ->). eauto.
  - intros Hcl Hd Hq. unfold runClosed. rewrite Hcl, Hd, Hq. cbn [negb orb st_current st_registry set_timer].
    rewrite bool_decide_eq_true_2 by done. cbn [negb].
    destruct (oi_traced _ _ _ _ Hinv) as (old & cs' & fl & _ & _ & He).
    destruct (registry_shutdown (st_current (ow_state o)) _ (en_registry _ _ _ _ _ He)) as (rg & -> & _).
    cbn [st_log set_registry set_timer]. destruct (log_Barrier _) as [[err|v] l]; simpl; eauto.
Qed.

(** C13: No caller crashes the process by sending on the closed queue: in every
    reachable state, also while the database drains and after it has closed,
    each admission returns a ticket or an error. *)
Theorem admission_returns config snap base cs o ctx :
  reaches config snap base cs o ->
  (forall batch single, exists x, (prepareAndSubmit ctx batch single o).1 = Returned x) /\
  (exists x, (ProcessDueExpiries ctx o).1 = Returned x) /\
  (forall prefix after, exists x, (Watch ctx prefix after o).1 = Returned x) /\
  (forall installer, exists x, (Snapshot ctx installer o).1 = Returned x) /\
  (forall operation, exists x, (DurableAdmin ctx operation o).1 = Returned x).
Proof.
  intros (tr & _ & Hinv)%reaches_inv. pose proof (oi_closed _ _ _ _ Hinv) as Hcl. split_and!.
  - intros batch single. unfold prepareAndSubmit. destruct (Nondecreasing_Now _) as [t c].
    destruct (validateBatchAt _ _ _); simpl; [eauto|]. unfold submit. destruct (ctx_entry ctx); simpl; [eauto|].
    by apply admitReady_returns.
  - unfold ProcessDueExpiries. destruct (ctx_entry ctx); simpl; [eauto|]. by apply admitReady_returns.
  - intros prefix after. unfold Watch. destruct (validatePrefix _ _); simpl; [eauto|].
    destruct (ctx_entry ctx); simpl; [eauto|]. destruct (ow_closed o) eqn:Hc; simpl; [eauto|].
    destruct (_ || _); simpl; [eauto|]. by apply admit_returns.
  - intros [installer|]; simpl; [by apply admitReady_returns|eauto].
  - intros [operation|]; simpl; [by apply admitReady_returns|eauto].
Qed.
End database.

(** ** The write-ahead log behind the engine *)

(** The commits behind a snapshot are those after its revision. *)
Lemma filter_after bound base old cs : revisions_from base bound old -> revisions_from (last_revision base old) bound cs ->
  filter (fun c => last_revision base old < FrRevision c) (old ++ cs) = cs.
Proof.
  intros Ho Hc. destruct (revisions_from_ge _ _ _ Ho) as [_ Hold]. destruct (revisions_from_ge _ _ _ Hc) as [_ Hnew].
  set (P := fun c => _). assert (forall l, Forall (fun c => ~ P c) l -> filter P l = []) as Hnone.
  { induction 1; [done|]. by rewrite filter_cons_False. }
  assert (forall l, Forall P l -> filter P l = l) as Hall by (induction 1 as [|c l Hp _ IH]; [done|by rewrite filter_cons_True, IH]).
  rewrite filter_app, Hnone, Hall; [done|..]; apply Forall_forall; intros c Hin; [by apply Hnew|].
  specialize (Hold c Hin). unfold P. lia.
Qed.

Section durability.
Context {C F E R : Type} `{Clock C, !Faults F, OSEnv E} {P : PlainOS E}.
Variable bound : Revision.
Hypothesis bound_u64 : bound <= max_uint64.
Implicit Types o : owner C (RangeAllocator R) (WAL * FSState E) F.

(** The states of a database on the write-ahead log and the range allocator,
    within the reserved revisions. *)
Definition storage_reaches (config : Config C (RangeAllocator R) (WAL * FSState E) F)
    (snap : gmap bytes DBRecord) (base : Revision) (cs : list CommitFrame) o : Prop :=
  reaches (LS := WAL_LogSpec bound) (AS := RangeAllocator_Spec bound) config snap base cs o.

(** C1: Acknowledged durable commits survive a crash.  A database runs on the
    write-ahead log in an environment whose system calls and hooks may fail or
    transfer fewer bytes at any point, and stops at any moment; the restart
    finds the synced bytes of the log file and any number of those written
    after them.  Let [tr] be the commits of the run: their revisions increase,
    the records and the current revision are those behind them (or behind all but
    the last, once the database has degraded), and every successful reply reports
    one of them, with its revision and changes.  The scan of the file succeeds
    and returns, in order, an initial part of the commits after the revision of
    the last installed snapshot, possibly followed by one whose append failed in
    a degraded database; all those that the log calls durable are among them.  So
    every commit that a client was told is durable is recovered from the log with
    exactly the changes it was told, or is covered by the installed snapshot. *)
Theorem durable_commits_survive config snap base cs o i found size :
  storage_reaches config snap base cs o ->
  wal_file (st_log (ow_state o)).1 = Some i -> crash_inode (inode i (st_log (ow_state o)).2) found ->
  let st := ow_state o in let w := (st_log st).1 in
  exists tr inflight scanned,
    cs `prefix_of` tr /\ revisions_from base bound tr /\
    (exists seen, st_records st = replay snap seen /\ st_current st = last_revision base seen /\
       (tr = seen \/ (exists c, tr = seen ++ [c]) /\ st_lifecycle st = LifecycleDegradedReadOnly)) /\
    (forall t res, ow_replies o !! t = Some (replyCommit (Ok res)) -> res <> zeroCommitResult ->
       exists c, c ∈ tr /\ reports res c) /\
    ScanWAL (MkReader found None) size (WhDatabaseID (wal_header w)) (WhFirstRevision (wal_header w) - 1)
      bound (wal_limits w) = Ok scanned /\
    (length inflight <= 1)%nat /\ (healthy st -> inflight = []) /\
    RpCommits scanned `prefix_of` filter (fun c => st_snapshotRevision st < FrRevision c) tr ++ inflight /\
    (forall c, c ∈ tr -> st_snapshotRevision st < FrRevision c <= wal_durable w -> c ∈ RpCommits scanned) /\
    (forall t res, ow_replies o !! t = Some (replyCommit (Ok res)) -> res <> zeroCommitResult ->
       ResRevision (CrResult res) <= ResDurableThrough (CrResult res) ->
       st_snapshotRevision st < ResRevision (CrResult res) -> exists c, c ∈ RpCommits scanned /\ reports res c).
Proof.
  intros Hreach Hf Hcrash st w.
  destruct (reaches_inv (LS := WAL_LogSpec bound) (AS := RangeAllocator_Spec bound)
    (fun c => wal_bound_fits bound c bound_u64) _ _ _ _ _ Hreach) as (tr & Hpre & Hinv).
  pose proof (traced_ordered _ _ _ _ (oi_traced _ _ _ _ Hinv)) as Hord.
  destruct (oi_traced _ _ _ _ Hinv) as (old & cs' & fl & -> & Ho & He).
  destruct (en_log _ _ _ _ _ He) as ((i' & header & Hw) & _ & _). pose proof (en_snapshot _ _ _ _ _ He) as Hsnap.
  pose proof (wi_file _ _ _ _ _ _ Hw) as Hf'. rewrite Hf in Hf'. injection Hf' as <-.
  destruct (wal_inv_crash _ _ _ _ _ _ _ size Hw Hcrash) as (scanned & Hscan & _ & _ & Hpref & _ & Hdur).
  assert (Hafter : forall c, c ∈ old ++ cs' -> st_snapshotRevision st < FrRevision c -> c ∈ cs').
  { intros c Hc Hlt. rewrite <- (filter_after bound base old cs' Ho (en_ordered _ _ _ _ _ He)). apply list_elem_of_filter.
    unfold st in Hlt. rewrite Hsnap in Hlt. done. }
  assert (Hreply : forall t res, ow_replies o !! t = Some (replyCommit (Ok res)) -> res <> zeroCommitResult ->
    (exists c, c ∈ old ++ cs' /\ reports res c) /\ ResDurableThrough (CrResult res) <= wal_durable w).
  { intros t res Ht Hz. pose proof (oi_replies _ _ _ _ Hinv t _ Ht) as Hr. simpl in Hr. destruct Hr as [?|[? ?]]; [done|by split]. }
  exists (old ++ cs'), fl, scanned. split_and!; try done.
  - destruct (en_view _ _ _ _ _ He) as (seen & Hrec & Hcur & Hseen). exists (old ++ seen). rewrite replay_app.
    split_and!; [done|unfold st; rewrite Hcur; unfold last_revision; by rewrite foldl_app|].
    destruct Hseen as [->|[[c ->] Hd]]; [by left|right]. split; [|done]. exists c. by rewrite app_assoc.
  - intros t res Ht Hz. apply (Hreply t res Ht Hz).
  - apply (wi_one _ _ _ _ _ _ Hw).
  - apply (en_healthy _ _ _ _ _ He).
  - unfold st. rewrite Hsnap, (filter_after bound base old cs' Ho (en_ordered _ _ _ _ _ He)). done.
  - intros c Hc [Hlt Hle]. apply Hdur; [by apply Hafter|done].
  - intros t res Ht Hz Hd Hlt. destruct (Hreply t res Ht Hz) as [(c & Hc & Hrep) Hle]. exists c. split; [|done].
    pose proof (proj1 Hrep). apply Hdur; [apply Hafter; [done|lia]|]. unfold w, st in *. lia.
Qed.
End durability.

(** ** A sample database *)

#[local] Existing Instance quiet.

Global Instance quiet_plain : PlainOS (H := quiet) unit.
Proof. by intros ? ? ? ?. Qed.

(** No hook is configured. *)
Global Instance no_hook : Faults unit := fun _ _ f => (None, f).

Module SampleDB.
Definition log : WAL * FSState unit := (SampleLog.opened, SampleLog.created.2).
Definition allocator : RangeAllocator unit := MkRangeAllocator 1 1000 false None tt.
Definition config : Config Manual (RangeAllocator unit) (WAL * FSState unit) unit :=
  MkConfig DefaultOptions 0 (OtherClock (NewManual 5000)) (Some StoppedTimer) (Some log) (Some allocator) [] 0 0
    Sample.id 0 [] 1000 1 tt.
Definition unready : DatabaseState Manual (RangeAllocator unit) (WAL * FSState unit) unit :=
  MkState ∅ (MkKeySlice [] 0) 0 0 LifecycleInspectionOnly DefaultOptions (NewNondecreasing (NewManual 0)) log
    allocator tt Sample.id 0 0 0 no_expiries DormantTimer (history_initialize DefaultOptions 0) no_watches 1.
Definition opened : DatabaseState Manual (RangeAllocator unit) (WAL * FSState unit) unit :=
  match New (NewManual 0) config with Ok st => st | Err _ => unready end.

(** Two records, one of which expires, behind a durable acknowledgement. *)
Definition batch : Batch := MkBatch AckDurable []
  [NewPutMutation (lit "jobs/1") (Some (lit "queued")) SampleBatch.unconditional (Some 6000);
   NewPutMutation (lit "jobs/2") (Some (lit "ready")) SampleBatch.unconditional None].
Definition committed : option (result goerror CommitResult) * DatabaseState Manual (RangeAllocator unit) (WAL * FSState unit) unit :=
  executeSafely batch operationBatch opened.
Definition submitted : owner Manual (RangeAllocator unit) (WAL * FSState unit) unit :=
  (prepareAndSubmit background batch operationBatch (startOwner opened)).2.
Definition answered : owner Manual (RangeAllocator unit) (WAL * FSState unit) unit :=
  default submitted (runCommand submitted).

Lemma log_fresh bound : walRep bound log [] [].
Proof.
  destruct (CreateWAL_inv bound "wal-00000000000000000001.gdb" Sample.header 16 DefaultOptions empty_fs
    SampleLog.opened SampleLog.created.2 DefaultOptions_ok Sample.header_fine) as (i & header & Hinv & Hd & _).
  - vm_compute. reflexivity.
  - split_and!; [by exists i, header|done|]. vm_compute. exact I.
Qed.

Lemma allocator_fresh : allocOk 1000 allocator.
Proof.
  split_and!; [exists 0|done|by intros f].
  split; simpl; unfold u64, max_uint64; try lia. by intros f.
Qed.

Lemma recovered_fresh :
  recovered (LS := WAL_LogSpec 1000) (AS := RangeAllocator_Spec 1000) config ∅ 0 [].
Proof.
  split; simpl; try done; try lia.
  - apply DefaultOptions_ok.
  - exists log. split; [done|apply log_fresh].
  - exists allocator. split; [done|apply allocator_fresh].
Qed.

Lemma opened_ok : New (NewManual 0) config = Ok opened.
Proof. vm_compute. reflexivity. Qed.

Lemma opened_inv :
  engine_inv (LS := WAL_LogSpec 1000) (AS := RangeAllocator_Spec 1000) ∅ 0 [] [] opened.
Proof.
  destruct (New_ok (LS := WAL_LogSpec 1000) (AS := RangeAllocator_Spec 1000) (NewManual 0) _ _ _ _ recovered_fresh)
    as (st & Hnew & Hinv & _). rewrite opened_ok in Hnew. by injection Hnew as <-.
Qed.

Lemma submitted_reached :
  storage_reaches 1000 config ∅ 0 [] submitted.
Proof.
  split; [exact recovered_fresh|]. exists (NewManual 0), opened. split; [exact opened_ok|]. apply rtc_once.
  eapply (os_submit _ background batch operationBatch); [by vm_compute|apply surjective_pairing].
Qed.

Lemma physical_submitted : physical (ow_state submitted).
Proof. split; [by vm_compute|]. split; by vm_compute. Qed.

Lemma answered_reached : storage_reaches 1000 config ∅ 0 [] answered.
Proof.
  destruct submitted_reached as (Hrec & real & st & Hnew & Hrun). split; [exact Hrec|].
  exists real, st. split; [exact Hnew|]. eapply rtc_r; [exact Hrun|]. apply os_command; [exact physical_submitted|].
  assert (bool_decide (is_Some (runCommand submitted)) = true) as Hs by (vm_compute; reflexivity).
  apply bool_decide_eq_true in Hs as [o Ho]. unfold answered. by rewrite Ho.
Qed.

Lemma fits_batch : fits batch opened.
Proof. split; by vm_compute. Qed.

(** The database after the commit, when the first record has expired. *)
Definition later : DatabaseState Manual (RangeAllocator unit) (WAL * FSState unit) unit :=
  set_clock (MkNondecreasing (NewManual 7000) true 5000) committed.2.
Definition expired : option (result goerror CommitResult) * DatabaseState Manual (RangeAllocator unit) (WAL * FSState unit) unit :=
  executeDueExpiriesSafely later.

Lemma fits_1000 c : 0 <= FrRevision c <= 1000 -> walFits 1000 c.
Proof. by apply wal_bound_fits. Qed.

Lemma later_inv : exists cs fl,
  engine_inv (LS := WAL_LogSpec 1000) (AS := RangeAllocator_Spec 1000) ∅ 0 cs fl later.
Proof.
  destruct (executeSafely_leaves (C := Manual) (A := RangeAllocator unit) (F := unit) (LS := WAL_LogSpec 1000)
    (AS := RangeAllocator_Spec 1000) fits_1000 ∅ 0 [] [] opened batch operationBatch opened_inv fits_batch
    _ _ (surjective_pairing committed)) as (cs & fl & Hinv & _).
  exists cs, fl. unfold later. by apply engine_inv_clock.
Qed.

Lemma later_scannable : scannable later.
Proof.
  destruct later_inv as (cs & fl & Hinv). split.
  - exact (en_core _ _ _ _ _ Hinv).
  - vm_compute. reflexivity.
  - vm_compute. reflexivity.
  - vm_compute. discriminate.
Qed.

Lemma later_request : scan_request (lit "jobs/") 1 later.
Proof. split; [vm_compute; reflexivity|]. vm_compute. split; discriminate. Qed.
End SampleDB.

(** ** Witnesses *)

Lemma answered_ok {E X} (r : option (result E X)) :
  match r with Some r => is_ok r | None => false end = true -> exists x, r = Some (Ok x).
Proof. destruct r as [[x|]|]; naive_solver. Qed.

Lemma commit_truthful_witness :
  exists revision, st_current SampleDB.opened < revision /\
    st_records SampleDB.committed.2 =
      replayCommit (st_records SampleDB.opened) (frameOf revision SampleDB.batch operationBatch).
Proof.
  assert (is_Some SampleDB.committed.1) as Hsome by (by vm_compute; eauto).
  assert (forall e, SampleDB.committed.1 <> Some (Err e)) as Hok by (intros e; by vm_compute).
  destruct (commit_truthful (C := Manual) (A := RangeAllocator unit) (F := unit) (LS := WAL_LogSpec 1000)
    (AS := RangeAllocator_Spec 1000) SampleDB.fits_1000 ∅ 0 [] []
    SampleDB.opened SampleDB.batch operationBatch SampleDB.committed.1 SampleDB.committed.2
    SampleDB.opened_inv SampleDB.fits_batch (surjective_pairing SampleDB.committed)) as (cs' & fl' & _ & Hc).
  destruct Hsome as [[res|e] Hs]; [|by destruct (Hok e)]. rewrite Hs in Hc.
  destruct Hc as (revision & d & _ & [Hrev _] & _ & _ & _ & Hrec & _). exists revision. split; [exact Hrev|exact Hrec].
Defined.

Lemma database_run_consistent_witness :
  exists tr, revisions_from 0 1000 tr /\
    map_Forall (fun _ r => reply_ok tr (durable (ow_state SampleDB.answered)) r) (ow_replies SampleDB.answered).
Proof.
  destruct (database_run_consistent (LS := WAL_LogSpec 1000) (AS := RangeAllocator_Spec 1000) SampleDB.fits_1000
    _ _ _ _ _ SampleDB.answered_reached) as (tr & _ & Hord & _ & _ & _ & _ & Hr).
  exists tr. split; [exact Hord|exact Hr].
Defined.

Lemma writer_progress_witness :
  exists r o', runCommand SampleDB.submitted = Some o' /\
    ow_replies o' = <[0 := r]> (ow_replies SampleDB.submitted).
Proof.
  destruct (writer_progress (LS := WAL_LogSpec 1000) (AS := RangeAllocator_Spec 1000) SampleDB.fits_1000
    _ _ _ _ _ SampleDB.submitted_reached SampleDB.physical_submitted) as [Hrun _].
  assert (ow_queue SampleDB.submitted = [(0, commandMutation SampleDB.batch operationBatch)]) as Hq
    by (vm_compute; reflexivity).
  destruct (Hrun _ _ _ Hq) as (r & o' & H1 & _ & H3). exists r, o'. split; [exact H1|exact H3].
Defined.

Lemma admission_returns_witness :
  exists x, (ProcessDueExpiries background SampleDB.answered).1 = Returned x.
Proof.
  destruct (admission_returns (LS := WAL_LogSpec 1000) (AS := RangeAllocator_Spec 1000) SampleDB.fits_1000
    _ _ _ _ _ background SampleDB.answered_reached) as (_ & Hx & _).
  exact Hx.
Defined.

(** A reply that is a successful commit. *)
Lemma replied_commit (r : option reply) m :
  (match r with Some (replyCommit (Ok res)) => Some (CrResult res) | _ => None end) = Some m ->
  exists res, r = Some (replyCommit (Ok res)) /\ CrResult res = m.
Proof. destruct r as [[[res|e]| | | |]|]; try done. intros [= <-]. by exists res. Qed.

(** The crash leaves the synced bytes alone; the client was told that revision 1
    is durable. *)
Lemma durable_commits_survive_witness :
  let w := (st_log (ow_state SampleDB.answered)).1 in let file := inode 1 (st_log (ow_state SampleDB.answered)).2 in
  exists scanned c,
    ScanWAL (MkReader (slice (ino_data file) 0 (ino_synced file)) None) 0 (WhDatabaseID (wal_header w))
      (WhFirstRevision (wal_header w) - 1) 1000 (wal_limits w) = Ok scanned /\
    c ∈ RpCommits scanned /\ FrRevision c = 1.
Proof.
  intros w file.
  assert (exists res, ow_replies SampleDB.answered !! 0 = Some (replyCommit (Ok res)) /\
    CrResult res = MkMutationResult 1 AckDurable 1 2 0) as (res & Hres & Hm)
    by (apply replied_commit; vm_compute; reflexivity).
  destruct (durable_commits_survive (C := Manual) (F := unit) (R := unit) 1000 ltac:(by vm_compute) _ _ _ _ SampleDB.answered 1
    (slice (ino_data file) 0 (ino_synced file)) 0 SampleDB.answered_reached)
    as (tr & inflight & scanned & _ & _ & _ & _ & Hscan & _ & _ & _ & _ & Hdur).
  - vm_compute. reflexivity.
  - exists (ino_synced file). split; [split; vm_compute; discriminate|reflexivity].
  - destruct (Hdur 0 res Hres) as (c & Hc & Hrev & _).
    + intros Hz. rewrite Hz in Hm. discriminate Hm.
    + rewrite Hm. vm_compute. discriminate.
    + rewrite Hm. vm_compute. reflexivity.
    + exists scanned, c. split; [exact Hscan|]. split; [exact Hc|]. rewrite Hrev, Hm. reflexivity.
Defined.

Lemma expiry_round_exact_witness :
  exists removed : list bytes, removed <> [] /\
    forall k, st_records SampleDB.expired.2 !! k =
      if decide (k ∈ removed) then None else st_records SampleDB.later !! k.
Proof.
  destruct SampleDB.later_inv as (cs & fl & Hinv).
  assert (match SampleDB.expired.1 with Some r => is_ok r | None => false end = true) as Hok
    by (vm_compute; reflexivity).
  assert (healthy SampleDB.later) as Hh by (left; vm_compute; reflexivity).
  assert (bool_decide (scheduled (st_expiries SampleDB.later) = expiring (st_records SampleDB.later)) = true)
    as Hs%bool_decide_eq_true by (vm_compute; reflexivity).
  assert (len (ks_keys (st_orderedKeys SampleDB.later)) < 2 ^ 63) as Hroom by (vm_compute; reflexivity).
  assert (exists k r, st_records SampleDB.later !! k = Some r /\
    recordExpired r (Nondecreasing_Now (st_clock SampleDB.later)).1 = true) as Hx.
  { exists (lit "jobs/1"), (NewRecord (lit "jobs/1") (Some (lit "queued")) 1 (Some 6000)).
    split; vm_compute; reflexivity. }
  destruct (answered_ok SampleDB.expired.1 Hok) as [res Hres].
  assert (executeDueExpiriesSafely SampleDB.later = (Some (Ok res), SampleDB.expired.2)) as Hex.
  { rewrite <- Hres. exact (surjective_pairing SampleDB.expired). }
  destruct (expiry_round_exact (LS := WAL_LogSpec 1000) (AS := RangeAllocator_Spec 1000) SampleDB.fits_1000 ∅ 0 cs fl SampleDB.later
    res _ Hinv Hh Hs Hroom Hex) as (removed & _ & Hrec & _ & Hne & _).
  exists removed. split; [exact (Hne Hx)|exact Hrec].
Defined.

Lemma recovered_database_opens_witness :
  exists st, New (NewManual 0) SampleDB.config = Ok st /\ st_lifecycle st = LifecycleReady.
Proof.
  destruct (recovered_database_opens (LS := WAL_LogSpec 1000) (AS := RangeAllocator_Spec 1000) (NewManual 0)
    _ _ _ _ SampleDB.recovered_fresh) as (st & Hnew & _ & _ & Hl).
  exists st. split; [exact Hnew|exact Hl].
Defined.

Lemma scan_page_exact_witness :
  page_spec (lit "jobs/") 1 7000 SampleDB.later (live_records (lit "jobs/") 7000 SampleDB.later)
    (ScanPrefix (lit "jobs/") 1 [] SampleDB.later).1.
Proof.
  destruct (scan_page_exact (lit "jobs/") 1 SampleDB.later SampleDB.later_scannable SampleDB.later_request) as [H _].
  assert ((Nondecreasing_Now (st_clock SampleDB.later)).1 = 7000) as Ht by (vm_compute; reflexivity).
  cbv zeta in H. rewrite Ht in H. exact H.
Defined.

Lemma scan_session_complete_witness :
  session_ok (live_records (lit "jobs/") (Nondecreasing_Now (st_clock SampleDB.later)).1 SampleDB.later) 2
    (scan_session (lit "jobs/") 1 [] [SampleDB.later; SampleDB.later]).
Proof.
  apply (scan_session_complete SampleDB.later [SampleDB.later] (lit "jobs/") 1 SampleDB.later_scannable
    SampleDB.later_request).
  - vm_compute. split; [discriminate|reflexivity].
  - apply (bool_decide_unpack _). vm_compute. exact I.
  - constructor; [|constructor]. split; [exact SampleDB.later_scannable|]. repeat split.
Defined.

Lemma recovery_snapshot_exact_witness :
  let request := MkRecoveryRequest (lit "jobs/") (st_current SampleDB.later) 10 4096 in
  exists r payload, (ReadRecoverySnapshot request SampleDB.later).1 = Ok r /\
    EncodeRecoverySnapshot (for_request (lit "go-1") r) request = Ok payload /\
    decodeRecoverySnapshot payload (lit "go-1") request = Ok (for_request (lit "go-1") r).
Proof.
  intros request.
  pose proof (recovery_snapshot_exact (W := SampleConn.conn) request SampleDB.later SampleDB.later_scannable
    ltac:(vm_compute; reflexivity)) as H. cbv zeta in H.
  assert ((Nondecreasing_Now (st_clock SampleDB.later)).1 = 7000) as Ht by (vm_compute; reflexivity). rewrite Ht in H.
  assert (is_ok (ReadRecoverySnapshot request SampleDB.later).1 = true) as Hok by (vm_compute; reflexivity).
  destruct (ReadRecoverySnapshot request SampleDB.later).1 as [r|e]; [|discriminate Hok].
  destruct H as (_ & _ & _ & _ & _ & H). destruct (H (lit "go-1")) as (payload & He & _ & _ & _ & Hd).
  - vm_compute. reflexivity.
  - vm_compute. discriminate.
  - split; [discriminate|reflexivity].
  - vm_compute. discriminate.
  - exists r, payload. split; [reflexivity|]. split; [exact He|exact Hd].
Defined.

Lemma read_many_exact_witness :
  let keys := [lit "jobs/2"; lit "jobs/1"] in
  exists r, (ReadMany keys SampleDB.later).1 = Ok r /\ EntryKey <$> ManyEntries r = keys.
Proof.
  intros keys.
  pose proof (read_many_exact keys SampleDB.later (sc_core _ SampleDB.later_scannable) (sc_current _ SampleDB.later_scannable)) as H.
  destruct H as (_ & _ & H); [vm_compute; split; [discriminate|reflexivity]|vm_compute; discriminate|].
  destruct H as (r & encoded & _ & _ & [Hkeys _] & _ & Hread).
  - discriminate.
  - vm_compute. discriminate.
  - repeat (constructor; [split; [discriminate|split; vm_compute; [reflexivity|discriminate]]|]). constructor.
  - apply (bool_decide_unpack _). vm_compute. exact I.
  - exists r. split; [|exact Hkeys]. assert (is_ok (ReadMany keys SampleDB.later).1 = true) as Hok by (vm_compute; reflexivity).
    rewrite Hread in *. cbn [fst] in *. destruct (_ <? _); [discriminate Hok|reflexivity].
Defined.
