(* ===== verification/Refusals.v ===== *)
(** * Refusals of a batch

    A batch that its own expiries, assertions and conditions refuse: which error
    the writer answers ([refusal]), and that a response carries every such error
    as it is. *)

From stdpp Require Import base gmap list strings.
From Stdlib Require Import ZArith Lia.
From S2P Require Import Prelude.
From S2P Require Import Bytes.
From S2P Require Import Errors.
From S2P Require Import ApiTypes.
From S2P Require Import Clock.
From S2P Require Import Allocator.
From S2P Require Import FaultFS.
From S2P Require Import WalCodec.
From S2P Require Import Engine.
From S2P Require Import Writer.
From S2P Require Import WriterFacts.
From S2P Require Import EngineInv.
From S2P Require Import Json.
From S2P Require Import GoTime.
From S2P Require Import GoJson.
From S2P Require Import Frame.
From S2P Require Import Envelope.
From S2P Require Import Requests.
From S2P Require Import WireErrors.
From S2P Require Import Responses.
From S2P Require Import ResultCodec.
From S2P Require Import ResponseCodec.
From S2P Require Import ClientCodec.
From S2P Require Import Client.
From S2P Require Import Server.
From S2P Require Import ServerFacts.

Local Open Scope Z_scope.
Local Open Scope go_scope.

(** ** Keys that are cut *)

Lemma trimToValid_valid key n : utf8_valid (take (trimToValid key n) key) = true.
Proof. induction n as [|n IH]; [done|]. cbn [trimToValid]. by destruct (utf8_valid (take (S n) key)) eqn:Hv. Qed.

Lemma trimToValid_le key n : (trimToValid key n <= n)%nat.
Proof. induction n as [|n IH]; [done|]. cbn [trimToValid]. destruct (utf8_valid _); lia. Qed.

Lemma trimToValid_most key n m : (m <= n)%nat -> utf8_valid (take m key) = true -> (m <= trimToValid key n)%nat.
Proof.
  induction n as [|n IH]; [simpl; lia|]. intros Hm Hv. cbn [trimToValid]. destruct (utf8_valid (take (S n) key)) eqn:Hn; [done|].
  apply IH; [|done]. destruct (decide (m = S n)) as [->|]; [congruence|lia].
Qed.

(** A key begins with a whole rune, so something of it is left. *)
Lemma first_rune key : utf8_valid key = true -> key <> [] -> exists m, (1 <= m <= 4)%nat /\ utf8_valid (take m key) = true.
Proof.
  intros Hv Hne. destruct key as [|b s]; [done|]. destruct (Z.ltb_spec (b2z b) 128) as [Hb|Hb].
  { exists 1%nat. split; [lia|]. cbn. by replace (b2z b <? 128) with true by lia. }
  destruct (utf8_rune b s Hv Hb) as (k & Hk & _ & Hr). exists k. split; [|].
  - specialize (Hr []). rewrite <- Hr. unfold rune_length in *. repeat case_match; lia.
  - destruct k as [|k]; [lia|]. specialize (Hr (drop (S k) (b :: s))). rewrite take_drop in Hr. by apply rune_length_valid.
Qed.

Lemma boundedPredicateKey_wire key : utf8_valid key = true -> key <> [] ->
  utf8_valid (boundedPredicateKey key) = true /\ boundedPredicateKey key <> [] /\ len (boundedPredicateKey key) <= 256.
Proof.
  intros Hv Hne. unfold boundedPredicateKey. destruct (Z.leb_spec (len key) 256); [done|].
  pose proof (trimToValid_le key 256) as Hle. destruct (first_rune key Hv Hne) as (m & Hm & Hp).
  pose proof (trimToValid_most key 256 m ltac:(lia) Hp) as Hpos. split_and!; [apply trimToValid_valid| |].
  - intros Hnil. apply (f_equal length) in Hnil. unfold len in *. rewrite length_take in Hnil. change (length (@nil Init.Byte.byte)) with 0%nat in Hnil. lia.
  - unfold len. rewrite length_take. lia.
Qed.

Lemma bounded_short key : len key <= 256 -> boundedAssertionDiagnosticKey key = key.
Proof. intros Hl. unfold boundedAssertionDiagnosticKey. rewrite bool_decide_true; [done|]. unfold maxAssertionDiagnosticKeyBytes, len in *. lia. Qed.

(** ** Errors that a response carries *)

(** An error that a response carries as it is: one of the catalog, with the
    evidence of its code; if it is about an assertion, small. *)
Definition carried (e : Error) : Prop :=
  reportable e /\ boundedError e = e /\ (asserted e -> len (raw_text (json_of ErrorType (errorValue e))) <= 2300).

Lemma carried_plain e : reportable e -> evidenceOf e "assertion_index" = None -> carried e.
Proof. intros Hr Ha. split; [done|]. unfold boundedError, asserted. by rewrite Ha. Qed.

(** Evidence, kind by kind. *)
Lemma wire_key k : utf8_valid k = true -> k <> [] -> wire_evidence (EvKey k).
Proof. intros Hu Hne. split; [change (evidenceType _) with TString; by apply roundtrips_string|]. cbn. by rewrite bool_decide_false. Qed.

Lemma wire_revision ev z : evidenceType ev = TPtr TRevision -> evidenceValue ev = GPtr (Some (GNum z)) -> u64 z -> wire_evidence ev.
Proof. intros Ht Hv Hz. split; rewrite Hv; [rewrite Ht; apply roundtrips_ptr; [done|by apply roundtrips_revision]|done]. Qed.

Lemma wire_index ev z : evidenceType ev = TPtr TInt -> evidenceValue ev = GPtr (Some (GNum z)) -> i64 z -> wire_evidence ev.
Proof. intros Ht Hv Hz. split; rewrite Hv; [rewrite Ht; apply roundtrips_ptr; [done|by apply roundtrips_int]|done]. Qed.

Lemma wire_instant ev t : evidenceType ev = TString -> evidenceValue ev = GString (FormatRFC3339Nano t) -> rfc3339_range t -> wire_evidence ev.
Proof.
  intros Ht Hv Hr. split; rewrite Hv; [rewrite Ht; apply roundtrips_string, plain_utf8; by apply time_plain|].
  change (bool_decide (FormatRFC3339Nano t = []) = false). apply bool_decide_eq_false. intros Hnil. pose proof (parse_format_time t Hr) as Hp. rewrite Hnil in Hp. done.
Qed.

Lemma wire_known ev s : evidenceType ev = TString -> evidenceValue ev = GString (lit s) -> utf8_valid (lit s) = true ->
  s <> ""%string -> wire_evidence ev.
Proof.
  intros Ht Hv Hu Hs. split; rewrite Hv; [rewrite Ht; by apply roundtrips_string|]. cbn. apply bool_decide_eq_false. by destruct s.
Qed.

Definition conditionName (k : ConditionKind) : string :=
  match k with ConditionAny => "any" | ConditionAbsent => "absent" | _ => "revision" end.

Lemma wire_kind k : (if k is ConditionUnknown _ then False else True) -> wire_evidence (EvCondition k).
Proof. intros Hk. apply (wire_known _ (conditionName k)); destruct k; done. Qed.

Ltac evidence :=
  lazymatch goal with
  | |- wire_evidence (EvKey _) => by apply wire_key
  | |- wire_evidence (EvCondition _) => by apply wire_kind
  | |- wire_evidence (EvActualState _) => by apply (wire_known _ "absent")
  | |- wire_evidence (EvMutationIndex ?z) => by apply (wire_index (EvMutationIndex z) z eq_refl eq_refl)
  | |- wire_evidence (EvAssertionIndex ?z) => by apply (wire_index (EvAssertionIndex z) z eq_refl eq_refl)
  | |- wire_evidence (EvActualRevision ?z) => by apply (wire_revision (EvActualRevision z) z eq_refl eq_refl)
  | |- wire_evidence (EvExpectedRevision ?z) => by apply (wire_revision (EvExpectedRevision z) z eq_refl eq_refl)
  | |- wire_evidence (EvSuppliedExpiry ?t) => by apply (wire_instant (EvSuppliedExpiry t) t eq_refl eq_refl)
  | |- wire_evidence (EvEffectiveTime ?t) => by apply (wire_instant (EvEffectiveTime t) t eq_refl eq_refl)
  | |- Forall wire_evidence [] => apply Forall_nil_2
  end.

(** *** An expiry that has passed *)

Lemma expiry_carried supplied effective : rfc3339_range supplied -> rfc3339_range effective ->
  exists g, expiryNotFuture supplied effective = ErrGap g /\ carried g.
Proof.
  intros Hs He. eexists. split; [reflexivity|]. apply carried_plain; [|done]. split_and!; [|done|done|done].
  split; [done|apply (bool_decide_unpack _); vm_compute; done| |by repeat constructor].
  repeat (apply Forall_cons; split); evidence.
Qed.

(** *** A condition that does not hold *)

Lemma condition_carried m record live index : utf8_valid (MutKey m) = true -> MutKey m <> [] -> i64 index -> u64 (RecRevision record) ->
  (if CondKind (MutCondition m) is ConditionUnknown _ then False else True) ->
  exists g, batchConditionError m record live index = ErrGap g /\ carried g.
Proof.
  intros Hu Hne Hi Hr Hk. eexists. split; [reflexivity|]. destruct live; (apply carried_plain; [|done]); (split_and!; [|done|done|done]);
    (split; [done|apply (bool_decide_unpack _); vm_compute; done| |by destruct (CondKind (MutCondition m)); repeat constructor]);
    (repeat (apply Forall_cons; split)); evidence.
Qed.

(** *** An assertion that does not hold *)

Section assertion.
Variables (key : bytes) (kind : ConditionKind) (expected actual : option Revision) (index : Z).
Hypothesis key_ok : utf8_valid key = true /\ key <> [] /\ len key <= 256.
Hypothesis kind_ok : kind = ConditionAbsent /\ expected = None \/ kind = ConditionRevision /\ exists z, expected = Some z /\ z <> 0 /\ u64 z.
Hypothesis index_ok : 0 <= index /\ i64 index.
Hypothesis actual_ok : from_option u64 True actual.

Definition assertionFailure : Error :=
  newError CodeConditionFailed "Atomic batch assertion failed." RetryAfterReconcile
    ([EvKey key; EvAssertionIndex index; EvCondition kind] ++ from_option (fun z => [EvExpectedRevision z]) [] expected
     ++ [match actual with Some z => EvActualRevision z | None => EvActualState "absent" end])
    [ActionGet; ActionRebuildBatch; ActionAbort].

Lemma assertion_members : errorMembers assertionFailure =
  [(lit "code", jstring (lit "CONDITION_FAILED")); (lit "message", jstring (lit "Atomic batch assertion failed."));
   (lit "retry", jstring (lit "after_reconcile")); (lit "key", jstring key)]
  ++ from_option (fun z => [(lit "expected_revision", JNumber (FormatUint z))]) [] expected
  ++ from_option (fun z => [(lit "actual_revision", JNumber (FormatUint z))]) [] actual
  ++ [(lit "assertion_index", JNumber (FormatInt index)); (lit "condition", jstring (conditionText kind))]
  ++ (if actual then [] else [(lit "actual_state", jstring (lit "absent"))])
  ++ [(lit "safe_actions", jarray [jstring (lit "get"); jstring (lit "rebuild_batch"); jstring (lit "abort")])].
Proof.
  unfold assertionFailure. destruct key_ok as (_ & Hne & _). clear key_ok. destruct key as [|b key']; [done|].
  destruct kind_ok as [[-> ->]|(-> & z & -> & Hz)]; destruct actual as [a|]; reflexivity.
Qed.

Lemma assertion_length : len (raw_text (json_of ErrorType (errorValue assertionFailure))) <= 2300.
Proof.
  change (json_of ErrorType (errorValue assertionFailure)) with (jobject (errorMembers assertionFailure)).
  etransitivity; [apply object_text_length|]. rewrite assertion_members. destruct key_ok as (_ & _ & Hl), index_ok as [_ Hi].
  pose proof (string_text_length key). pose proof (FormatInt_length index Hi).
  destruct kind_ok as [[-> ->]|(-> & z & -> & _ & Hz)]; destruct actual as [a|]; cbn [from_option app members_length foldr fst snd conditionText] in *;
    try pose proof (FormatUint_length _ Hz); try pose proof (FormatUint_length _ actual_ok); change (raw_text (JNumber ?x)) with x; closed_lengths; lia.
Qed.

Lemma assertion_carried : carried assertionFailure.
Proof.
  destruct key_ok as (Hu & Hne & Hl), index_ok as [Hpos Hi]. pose proof assertion_length as Hlen.
  assert (boundedError assertionFailure = assertionFailure) as Hb.
  { unfold boundedError. change (evidenceOf assertionFailure "assertion_index") with (Some (EvAssertionIndex index)). cbv iota.
    unfold assertionFailure, newError. cbn [Code Message Retry Evidences OperationApplied SafeActions Cause app fmap list_fmap boundedEvidence].
    rewrite bounded_short by done. by destruct expected, actual. }
  split; [|done]. clear Hb. split_and!.
  - clear Hlen. unfold assertionFailure. split; [done| | |];
      (destruct kind_ok as [[-> ->]|(-> & z & -> & _ & Hz)]; destruct actual; cbn -[wire_evidence]);
      first [by repeat (constructor; [set_solver|]); constructor|by repeat (apply Forall_cons; split); evidence|by repeat constructor].
  - done.
  - clear Hlen. unfold assertionFailure. destruct kind_ok as [[-> ->]|(-> & z & -> & Hz & _)]; destruct actual; try done;
      (apply Z.eqb_neq in Hz; vm_compute; vm_compute in Hz; by rewrite Hz).
  - unfold diagnostic_bounded. change (evidenceOf assertionFailure "assertion_index") with (Some (EvAssertionIndex index)). cbv iota.
    split_and!; [done|change maxAssertionDiagnosticBytes with 4096; lia|]. by apply bounded_short.
Qed.
End assertion.

(** ** The predicates of a batch *)

Section refusal.
Context {C A L F : Type} `{Clock C, !RevisionAllocator A, !CommitLog L, !Faults F}.
Implicit Types st : DatabaseState C A L F.

(** The error of a batch that its own predicates refuse at the instant [t]: of an
    expiry that has passed, of the first assertion that fails, or of the first
    mutation whose condition does. *)
Definition refusal (batch : Batch) (single : singleOperation) (t : Time) st : error :=
  try validateBatchAt batch (st_limits st) t ;;
  try assertionsError (st_records st) t (BatchAssertions batch) 0 ;;
  conditionsError (st_records st) t (st_current st) single (BatchMutations batch) 0.

Lemma accepted_refusal batch single st : accepted batch single st ->
  refusal batch single (Nondecreasing_Now (st_clock st)).1 st = None.
Proof. intros (_ & Hv & Ha & Hc). unfold refusal. by rewrite Hv, Ha. Qed.

Lemma refusal_denies batch single t st e : refusal batch single t st = Some e -> claims_applied e = false.
Proof.
  unfold refusal. destruct (validateBatchAt _ _ _) eqn:Hv; [intros [= <-]; by eapply validateBatchAt_denies|].
  destruct (assertionsError _ _ _ _) eqn:Ha; [intros [= <-]; by eapply assertionsError_denies|]. apply conditionsError_denies.
Qed.

Section carried.
Variables (st : DatabaseState C A L F) (batch : Batch) (t : Time).
Hypothesis invariant : core_inv st.
Hypothesis revisions : st_current st <= max_uint64.
Hypothesis batch_int : batch_fits_int batch.
Hypothesis shape : batch_wf (st_limits st) batch.
Hypothesis expiries : Forall expiry_ok (BatchMutations batch).
Hypothesis assertions_wire : Forall wire_assertion (BatchAssertions batch).
Hypothesis instant : rfc3339_range t.

(** A well-formed batch is refused for its expiries only. *)
Lemma validate_late e : validateBatchAt batch (st_limits st) t = Some e ->
  exists m supplied, m ∈ BatchMutations batch /\ MutExpiresAt m = Some supplied /\ e = expiryNotFuture supplied t.
Proof.
  intros Hv. destruct (validateMutationsAt (st_limits st) t (BatchMutations batch)) as [e'|] eqn:He.
  - assert (e' = e) as <-.
    { unfold validateBatchAt, Batch_ValidateAt in Hv. rewrite (proj2 (Batch_Validate_None _ _ batch_int) shape), He in Hv. by injection Hv. }
    clear Hv expiries. pose proof (bwf_mutations _ _ shape) as Hm. induction Hm as [|m l Hm _ IH]; [done|]. cbn [validateMutationsAt] in He.
    unfold Mutation_ValidateAt in He. rewrite (proj2 (Mutation_Validate_None _ m) Hm) in He.
    destruct (MutExpiresAt m) as [supplied|] eqn:Hs; [destruct (time_After supplied t)|].
    + destruct (IH He) as (m' & s & ? & ?). exists m', s. split; [by right|done].
    + injection He as <-. exists m, supplied. split; [by left|done].
    + destruct (IH He) as (m' & s & ? & ?). exists m', s. split; [by right|done].
  - rewrite validateBatchAt_accepts in Hv; [done|apply invariant|done|done|]. apply Forall_and. split; [done|].
    apply validateMutationsAt_None in He. eapply Forall_impl; [exact He|]. intros m. unfold Mutation_ValidateAt, time_After.
    destruct (Mutation_Validate _ m); [done|]. destruct (MutExpiresAt m) as [s|]; [|done]. destruct (Z.ltb_spec t s); done.
Qed.

Lemma live_revision key record live : lookup_live (st_records st) key t = (record, live) -> u64 (RecRevision record).
Proof.
  unfold lookup_live. pose proof (ci_current _ invariant). destruct (st_records st !! key) as [r|] eqn:Hr; intros [= <- _]; [|done].
  destruct (ci_records _ invariant _ _ Hr) as (_ & _ & Hrev & _). unfold u64. lia.
Qed.

Lemma conditions_carried l i e : Forall (mutation_wf (st_limits st)) l -> 0 <= i -> i + len l < 2 ^ 63 ->
  conditionsError (st_records st) t (st_current st) operationBatch l i = Some e -> exists g, e = ErrGap g /\ carried g.
Proof.
  intros Hl. revert i. induction Hl as [|m l (Hk & Hc & _) _ IH]; intros i Hi Hlen; [done|]. cbn [conditionsError].
  destruct (lookup_live _ _ _) as [record live] eqn:Hr. pose proof (len_nonneg l). unfold len in *. cbn [length] in Hlen.
  destruct (conditionError _ _ _ _ _ _) as [err|] eqn:He; [|apply IH; lia]. intros [= <-].
  assert (err = batchConditionError m record live i) as ->.
  { unfold conditionError, condition_wf in *. cbn in He. destruct (CondKind (MutCondition m)); try done; by repeat case_match; simplify_eq. }
  destruct Hk as (Hne & Hu & _). apply condition_carried; try done; [unfold i64, max_int64; lia|by eapply live_revision|].
  unfold condition_wf in Hc. by destruct (CondKind (MutCondition m)).
Qed.

Lemma assertions_carried l i e : Forall (assertion_wf (st_limits st)) l -> Forall wire_assertion l -> 0 <= i -> i + len l < 2 ^ 63 ->
  assertionsError (st_records st) t l i = Some e -> exists g, e = ErrGap g /\ carried g.
Proof.
  intros Hl Hw. revert i. induction Hl as [|a l (Hk & Hc) _ IH]; intros i Hi Hlen; [done|]. apply Forall_cons in Hw as [(_ & _ & Hx) Hw].
  cbn [assertionsError]. destruct (lookup_live _ _ _) as [record live] eqn:Hr. pose proof (len_nonneg l). unfold len in *. cbn [length] in Hlen.
  destruct (assertionConditionError _ _ _ _) as [err|] eqn:He; [|apply IH; [done|lia..]]. intros [= <-].
  destruct Hk as (Hne & Hu & _). destruct (boundedPredicateKey_wire _ Hu Hne) as (Hbu & Hbne & Hbl). apply live_revision in Hr.
  exists (assertionFailure (boundedPredicateKey (AssKey a)) (CondKind (AssCondition a))
    (if bool_decide (CondKind (AssCondition a) = ConditionRevision) then Some (CondExpected (AssCondition a)) else None)
    (if live then Some (RecRevision record) else None) i).
  split.
  - unfold assertionConditionError in He. unfold assertionFailure. destruct (CondKind (AssCondition a)), live; try done; cbn in He;
      repeat case_match; by simplify_eq.
  - apply assertion_carried; [done| |split; [done|unfold i64, max_int64; lia]|by destruct live].
    destruct (CondKind (AssCondition a)); try done; [by left|right]. split; [done|]. eauto.
Qed.

Lemma refusal_carried e : refusal batch operationBatch t st = Some e -> exists g, e = ErrGap g /\ carried g.
Proof.
  unfold refusal. destruct (validateBatchAt _ _ _) as [e'|] eqn:Hv.
  { intros [= <-]. destruct (validate_late e' Hv) as (m & s & Hm & Hs & ->). apply expiry_carried; [|done].
    rewrite Forall_forall in expiries. specialize (expiries m Hm). unfold expiry_ok in expiries. rewrite Hs in expiries.
    unfold rfc3339_range, nanosecond. lia. }
  pose proof (len_nonneg (BatchMutations batch)). pose proof (len_nonneg (BatchAssertions batch)). unfold batch_fits_int in batch_int.
  destruct (assertionsError _ _ _ _) as [e'|] eqn:Ha.
  - intros [= <-]. eapply assertions_carried; [apply (bwf_assertions _ _ shape)|done| | |exact Ha]; lia.
  - intros Hc. eapply conditions_carried; [apply (bwf_mutations _ _ shape)| | |exact Hc]; lia.
Qed.
End carried.

(** *** The writer refuses

    What the fault hooks answer when no fault is injected. *)
Definition silent : Prop := forall point phase (f : F), (fault_Checkpoint point phase f).1 = None.

Lemma guard_silent id point phase st p : silent -> exists f, guard id point phase (st, p) = (Done (Ok tt), (set_faults f st, p)).
Proof.
  intros Hs. specialize (Hs point phase (st_faults st)). unfold guard, exec_bind, checkpoint. cbn [fst snd].
  destruct (fault_Checkpoint _ _ _) as [e f]. cbn in Hs. subst e. by exists f.
Qed.

Lemma asserting_silent (b : bool) id point phase st p : silent ->
  exists f, (if b then guard id point phase else exec_ret tt) (st, p) = (Done (Ok tt), (set_faults f st, p)).
Proof. intros Hs. destruct b; [by apply guard_silent|]. exists (st_faults st). by destruct st. Qed.

Lemma predicates_refuse batch single t st p e : silent ->
  (try assertionsError (st_records st) t (BatchAssertions batch) 0 ;;
   conditionsError (st_records st) t (st_current st) single (BatchMutations batch) 0) = Some e ->
  exists f, predicatePhase batch single t (st, p) = (Done (Err e), (set_faults f st, p)).
Proof.
  intros Hs He. unfold predicatePhase. unfold exec_bind at 1.
  destruct (asserting_silent (negb (len (BatchAssertions batch) =? 0)) "engine-assertion-evaluation" FaultPointAssertionEvaluation Before st p Hs) as [f1 ->].
  unfold exec_bind at 1, get. cbn [fst snd set_faults st_records st_current].
  destruct (assertionsError _ _ _ _) as [e'|]; [injection He as ->; by exists f1|]. unfold exec_bind at 1. cbn [exec_check exec_ret].
  unfold exec_bind at 1.
  destruct (asserting_silent (negb (len (BatchAssertions batch) =? 0)) "engine-assertion-evaluation" FaultPointAssertionEvaluation After (set_faults f1 st) p Hs) as [f2 ->].
  unfold exec_bind at 1.
  destruct (guard_silent "engine-mutation-condition-evaluation" FaultPointMutationConditionEvaluation Before (set_faults f2 (set_faults f1 st)) p Hs) as [f3 ->].
  unfold exec_bind at 1. rewrite He. by exists f3.
Qed.

Lemma execute_refused batch single st e : silent -> st_lifecycle st = LifecycleReady ->
  refusal batch single (Nondecreasing_Now (st_clock st)).1 st = Some e -> (executeSafely batch single st).1 = Some (Err e).
Proof.
  intros Hs Hl He. unfold executeSafely, execute. unfold exec_bind at 1, get at 1. cbn [fst snd]. rewrite bool_decide_eq_true_2 by done. cbn [orb negb].
  unfold exec_bind at 1, now at 1. cbn [fst snd]. destruct (Nondecreasing_Now (st_clock st)) as [t c]. cbn [fst] in He.
  unfold refusal in He. unfold exec_bind at 1. destruct (validateBatchAt _ _ _) as [e'|]; [by injection He as ->|].
  cbn [exec_check exec_ret]. unfold exec_bind at 1.
  destruct (predicates_refuse batch single t (set_clock c st) false e Hs He) as [f ->]. done.
Qed.
End refusal.

(** ** A failure is never taken for a success

    The last member of a response that fails is its error, whatever it holds: a
    client that reads the members before it finds it there, and accepts no
    success. *)

Lemma parse_members_last n depth raws vs fuel name text tail ms r :
  Forall2 (reads_member n) raws vs -> (n <= depth)%nat -> forallb plain name = true ->
  parse_members (parse_value depth) fuel (marshal_members (raws ++ [(name, text)]) ++ tail) = Some (ms, r) ->
  exists v ms' r', ms = vs ++ (name, v) :: ms' /\ parse_value depth (text ++ tail) = Some (v, r').
Proof.
  intros Hr Hn Hname. revert fuel ms. induction Hr as [|raw v raws vs Hm Hms IH]; intros [|fuel] ms; cbn [app]; try done.
  - cbn [marshal_members]. unfold marshal_member. cbn [fst snd]. rewrite marshal_string_plain by done. rewrite <- !app_assoc.
    cbn [parse_members app skip_space]. change (is_space (chr 34)) with false. cbv iota.
    change (b2z (chr 34) =? 34) with true. cbn [negb]. change (chr 34 :: chr 58 :: text ++ tail) with ([chr 34] ++ chr 58 :: text ++ tail).
    rewrite parse_string_plain by (done || rewrite length_app; simpl; lia). cbn [mbind option_bind skip_space].
    change (is_space (chr 58)) with false. cbv iota. change (b2z (chr 58) =? 58) with true. cbn [negb].
    destruct (parse_value depth (text ++ tail)) as [[v r']|]; [|done]. cbn [mbind option_bind]. intros Hp. exists v.
    destruct (skip_space r') as [|c r'']; [done|]. destruct (b2z c =? 125); [injection Hp as <- _; eauto|]. destruct (b2z c =? 44); [|done].
    destruct (parse_members _ _ _) as [[ms' ?]|]; [|done]. injection Hp as <- _. eauto.
  - destruct (raws ++ [(name, text)]) as [|m l] eqn:Hl; [by destruct raws|]. cbn [marshal_members]. rewrite <- !app_assoc.
    change ([chr 44] ++ ?x) with (chr 44 :: x). rewrite (parse_member n _ _ _ v) by (done || by left).
    change (b2z (chr 44) =? 125) with false. cbv iota.
    destruct (parse_members _ _ _) as [[ms' r']|] eqn:Hp; [|done]. intros [= <- <-].
    destruct (IH fuel ms' Hp) as (x & ms'' & r'' & -> & Hx). by exists x, ms'', r''.
Qed.

Lemma object_read depth l v r : parse_value depth (chr 123 :: l) = Some (v, r) -> exists ms raw, v = JObject ms raw.
Proof.
  destruct depth as [|depth]; [done|]. cbn [parse_value skip_space]. change (is_space (chr 123)) with false. cbv iota.
  change (b2z (chr 123) =? 34) with false. change (b2z (chr 123) =? 123) with true. cbv iota.
  destruct (skip_space l) as [|e t]; [done|]. destruct (b2z e =? 125); [intros [= <- _]; eauto|].
  destruct (parse_members _ _ _) as [[ms t']|]; [|done]. intros [= <- _]. eauto.
Qed.

(** The text of a response that fails. *)
Definition failing (payload : bytes) : Prop := exists raws vs t,
  payload = marshal_object (raws ++ [(lit "error", chr 123 :: t)]) /\ Forall2 (reads_member 0) raws vs /\ lit "error" ∉ vs.*1.

Lemma failing_error payload v rest : failing payload -> json_decode payload = Some (v, rest) -> objectHasNonNullField v "error" = true.
Proof.
  intros (raws & vs & t & -> & Hr & Hnot). unfold json_decode, marshal_object. rewrite <- (app_nil_r (_ ++ _ ++ _)), <- !app_assoc.
  destruct maxNestingDepth as [|depth] eqn:Hd; [done|]. clear Hd. cbn [app]. intros Hp. destruct (object_read _ _ _ _ Hp) as (ms & raw & ->).
  cbn [parse_value skip_space] in Hp. change (is_space (chr 123)) with false in Hp. cbv iota in Hp.
  change (b2z (chr 123) =? 34) with false in Hp. change (b2z (chr 123) =? 123) with true in Hp. cbv iota in Hp.
  assert (exists l, marshal_members (raws ++ [(lit "error", chr 123 :: t)]) ++ [chr 125] = chr 34 :: l) as [l Hl].
  { destruct raws as [|m [|m' raws]]; cbn [app marshal_members]; unfold marshal_member, marshal_string; eauto. }
  rewrite Hl in Hp. cbn [skip_space] in Hp. change (is_space (chr 34)) with false in Hp. cbv iota in Hp.
  change (b2z (chr 34) =? 125) with false in Hp. cbv iota in Hp. rewrite <- Hl in Hp.
  destruct (parse_members _ _ _) as [[ms' r']|] eqn:Hm; [|done]. injection Hp as <- _ _.
  destruct (parse_members_last 0 depth raws vs _ (lit "error") _ _ _ _ Hr ltac:(lia) eq_refl Hm) as (x & ms'' & r'' & -> & Hx).
  destruct (object_read _ _ _ _ Hx) as (xs & xraw & ->). unfold objectHasNonNullField, objectMember, member.
  assert (list_find (fun m => m.1 = lit "error") vs = None) as Hnone.
  { apply list_find_None, Forall_forall. intros m Hin Heq. apply Hnot. rewrite <- Heq. by apply list_elem_of_fmap_2. }
  rewrite list_find_app_r by done. cbn [list_find fst].
  rewrite decide_True by done. done.
Qed.

(** Two decoders of structs agree on a field that they decode alike. *)
Lemma store_members_agree names ds1 ds2 k ms vals1 vals2 out1 out2 : ds1 !! k = ds2 !! k -> vals1 !! k = vals2 !! k ->
  store_members names ds1 ms vals1 = Some out1 -> store_members names ds2 ms vals2 = Some out2 -> out1 !! k = out2 !! k.
Proof.
  intros Hd. revert vals1 vals2. induction ms as [|[key v] ms IH]; intros vals1 vals2 Hv; cbn [store_members]; [by intros [= <-] [= <-]|].
  destruct (find_field names key) as [i|]; [|done]. cbn [mbind option_bind].
  destruct (ds1 !! i) as [d1|] eqn:H1; [|done]. destruct (ds2 !! i) as [d2|] eqn:H2; [|done]. cbn [mbind option_bind].
  destruct (vals1 !! i) as [o1|] eqn:E1; [|done]. destruct (vals2 !! i) as [o2|] eqn:E2; [|done]. cbn [mbind option_bind].
  destruct (d1 v o1) as [x1|] eqn:X1; [|done]. destruct (d2 v o2) as [x2|] eqn:X2; [|done]. cbn [mbind option_bind]. apply IH.
  destruct (decide (i = k)) as [->|Hne]; [|by rewrite !list_lookup_insert_ne].
  assert (d1 = d2) as -> by congruence. assert (o1 = o2) as -> by congruence. assert (x1 = x2) as -> by congruence.
  rewrite !list_lookup_insert_eq; [done|by eapply lookup_lt_Some..].
Qed.

Lemma envelope_agree a b c a' b' c' v l l' :
  go_decode (responseEnvelope a b c) v (zero_value (responseEnvelope a b c)) = Some (GStruct l) ->
  go_decode (responseEnvelope a' b' c') v (zero_value (responseEnvelope a' b' c')) = Some (GStruct l') -> l !! 1%nat = l' !! 1%nat.
Proof.
  unfold responseEnvelope. cbn [go_decode zero_value]. destruct v; try done; [by intros [= <-] [= <-]|].
  intros H1 H2. apply fmap_Some in H1 as (l1 & H1 & [= ->]), H2 as (l2 & H2 & [= ->]).
  eapply store_members_agree; [| |exact H1|exact H2]; reflexivity.
Qed.

Lemma failing_validated limits payload v rest : failing payload -> json_decode payload = Some (v, rest) ->
  validateClientResponse payload limits = None ->
  exists l, go_decode (responseEnvelope TRaw TRaw TRaw) v (zero_value (responseEnvelope TRaw TRaw TRaw)) = Some (GStruct l) /\
    l !! 1%nat = Some (GPtr (Some (GBool false))).
Proof.
  intros Hf Hj. pose proof (failing_error _ _ _ Hf Hj) as Herr. unfold validateClientResponse, clientDecodeStrict. rewrite Hj.
  destruct (_ || _); [done|]. destruct (negb (duplicateFree v) || _); [done|]. cbv zeta. rewrite Herr.
  destruct (go_decode _ v _) as [g|]; [|done]. destruct g; try done. intros Hv. exists l. split; [done|]. clear Herr.
  do 2 (destruct l as [|[] l]; try done). unfold fails in Hv.
  repeat case_match; simplify_eq; match goal with Hb : Bool.eqb ?b true = false |- _ => by destruct b end.
Qed.

Lemma received_ok g response : wireResponseOf g = Some response ->
  exists l, g = GStruct l /\ (l !! 1%nat = Some (GPtr (Some (GBool false))) -> WrOK response = Some false).
Proof.
  destruct g; try done. intros Hw. exists l. split; [done|]. intros Hok. unfold wireResponseOf in Hw.
  do 2 (destruct l as [|? l]; try done). injection Hok as ->. repeat case_match; try done.
  repeat (apply bind_Some in Hw as (? & ? & Hw)). simplify_eq. by match goal with Hb : pointerOf boolOf _ = Some _ |- _ => injection Hb as <- end.
Qed.

Lemma failing_refused limits o id payload : failing payload -> o <> OperationWatch -> exists e, acceptResponse limits o id payload = Err e.
Proof.
  intros Hf Ho. unfold acceptResponse. destruct (validateClientResponse payload limits) eqn:Hv; [by eauto|].
  destruct (json_decode payload) as [[v rest]|] eqn:Hj; [|by eauto]. destruct (failing_validated _ _ _ _ Hf Hj Hv) as (l & Hl & Hok).
  destruct (go_decode wireResponseType v _) as [g|] eqn:Hg; [|by eauto]. cbn [mbind option_bind].
  destruct (wireResponseOf g) as [response|] eqn:Hw; [|by eauto]. destruct (received_ok _ _ Hw) as (l' & -> & Hresp).
  rewrite (envelope_agree _ _ _ _ _ _ _ _ _ Hl Hg) in Hok. rewrite (Hresp Hok), (bool_decide_false _ Ho). cbn [andb].
  repeat case_match; eauto.
Qed.

(** What the encoder makes of a response that fails. *)
Definition failedResponse (id database : bytes) (o : Operation) (e : Error) : Response :=
  MkResponse SchemaVersion false id database o None [] 0 None [] (Some (errorValue e)).

Lemma failed_text id database o e :
  go_encode (responseType (failedResponse id database o e)) (responseValue (failedResponse id database o e) None) =
  failure ← go_encode ErrorType (boundDiagnostic (errorValue e));
  Some (marshal_object (([(lit "schema_version", FormatUint 1); (lit "ok", marshal_bool false)]
    ++ (if bool_decide (id = []) then [] else [(lit "request_id", marshal_string id)])
    ++ [(lit "database_id", marshal_string database); (lit "operation", marshal_string (operationName o))]) ++ [(lit "error", failure)])).
Proof.
  unfold responseType, responseEnvelope, responseValue, failedResponse.
  cbn [go_encode fmap list_fmap option_fmap option_map marshal_fields RspSchemaVersion RspRequestID RspError RspOK RspResult RspDatabaseID
    RspOperation RspStream RspEvent RspEndReason RspRegistrationRevision field omitempty fst snd andb is_empty from_option].
  change (bool_decide (([] : bytes) = [])) with true. change (bool_decide ([] = StreamStarted)) with false. cbv iota.
  destruct (go_encode ErrorType _) as [failure|]; [|done]. cbn [mbind option_bind].
  by case_bool_decide.
Qed.

Lemma encoded_failing id database o e payload : utf8_valid id = true -> forallb plain database = true ->
  EncodeResponse (failedResponse id database o e) = Ok payload -> failing payload.
Proof.
  intros Hid Hdb. unfold EncodeResponse. cbn [failedResponse RspSchemaVersion RspRequestID RspError RspOK RspResult fmap option_fmap option_map].
  fold (failedResponse id database o e).
  change (negb (SchemaVersion =? SchemaVersion)) with false. cbv iota. destruct (256 <? len id); [done|]. cbn [andb negb].
  rewrite failed_text, boundDiagnostic_value. destruct (go_encode ErrorType _) as [failure|] eqn:He; [|done]. cbn [mbind option_bind].
  set (text := marshal_object _). intros Hp.
  assert (payload = text) as ->.
  { destruct (_ <? len text); [done|]. destruct (if errorAssertionIndex _ then _ else _); [done|]. destruct (DecodeResponse _ _); [by injection Hp|done]. }
  assert (exists t, failure = chr 123 :: t) as [t ->].
  { unfold ErrorType, errorValue in He. cbn [go_encode] in He. apply fmap_Some in He as (ms & _ & ->). unfold marshal_object. eauto. }
  eexists _, ([(lit "schema_version", JNumber (FormatUint 1)); (lit "ok", JBool false)]
    ++ (if bool_decide (id = []) then [] else [(lit "request_id", jstring id)])
    ++ [(lit "database_id", jstring database); (lit "operation", jstring (operationName o))]), t. split; [reflexivity|].
  assert (Hop : utf8_valid (operationName o) = true) by (by destruct o). apply plain_utf8 in Hdb.
  split; [|case_bool_decide; cbn [app fmap list_fmap fst]; apply (bool_decide_unpack _); by vm_compute].
  repeat apply Forall2_app; [| |]; try case_bool_decide; repeat (apply Forall2_cons; split); try apply Forall2_nil_2;
    (split; [done|]; split; [done|]); first [by apply reads_uint64|apply reads_bool|by apply reads_string].
Qed.

Lemma framed_failing limits id database o e payload : utf8_valid id = true -> forallb plain database = true ->
  encodeResponseForFrame limits (failedResponse id database o e) = Ok payload -> failing payload /\ 0 < len payload <= MaxFrameBytes limits.
Proof.
  intros Hid Hdb Hp. assert (failing payload /\ len payload <= MaxFrameBytes limits) as [Hf Hl].
  { assert (Hfall : forall received, encodeFallback limits received (failedResponse id database o e) = Ok payload ->
      failing payload /\ len payload <= MaxFrameBytes limits).
    { intros received. unfold encodeFallback.
      change (fallbackResponse ?a ?b (failedResponse id database o e)) with (failedResponse id database o (responseTooLarge a b)).
      destruct (EncodeResponse _) as [text|] eqn:He; [|done]. cbn [mbind result_bind]. apply encoded_failing in He; [|done..].
      destruct (Z.ltb_spec (MaxFrameBytes limits) (len text)); [done|]. by intros [= <-]. }
    unfold encodeResponseForFrame in Hp. destruct (EncodeResponse _) as [text|err] eqn:He.
    - apply encoded_failing in He; [|done..]. destruct (Z.ltb_spec (MaxFrameBytes limits) (len text)); [by eauto|]. by injection Hp as <-.
    - destruct (asError err); [|done]. destruct (bool_decide _); [by eauto|done]. }
  split; [done|]. split; [|done]. destruct Hf as (raws & vs & t & -> & _). unfold marshal_object, len. cbn [app length]. lia.
Qed.
