(* ===== verification/Session.v ===== *)
(** * A client and a server

    Both ends of the protocol over a connection that loses nothing: what a call
    of the client returns is what the engine of the server answered. *)

From stdpp Require Import base gmap list strings.
From Stdlib Require Import ZArith Lia.
From S2P Require Import Prelude.
From S2P Require Import Bytes.
From S2P Require Import Errors.
From S2P Require Import ApiTypes.
From S2P Require Import Clock.
From S2P Require Import Allocator.
From S2P Require Import FaultFS.
From S2P Require Import WalCodec.
From S2P Require Import WalScan.
From S2P Require Import WalLog.
From S2P Require Import Engine.
From S2P Require Import Writer.
From S2P Require Import Commands.
From S2P Require Import WriterFacts.
From S2P Require Import Replay.
From S2P Require Import EngineInv.
From S2P Require Import WalEngine.
From S2P Require Import EngineRun.
From S2P Require Import Json.
From S2P Require Import GoTime.
From S2P Require Import GoJson.
From S2P Require Import StorageErrors.
From S2P Require Import Manifest.
From S2P Require Import Frame.
From S2P Require Import Envelope.
From S2P Require Import Requests.
From S2P Require Import ReadMany.
From S2P Require Import AdminResults.
From S2P Require Import WireErrors.
From S2P Require Import Responses.
From S2P Require Import ResultCodec.
From S2P Require Import ResponseCodec.
From S2P Require Import ClientCodec.
From S2P Require Import ClientAccept.
From S2P Require Import Client.
From S2P Require Import ClientFacts.
From S2P Require Import Server.
From S2P Require Import ServerFacts.
From S2P Require Import Refusals.
From S2P Require Import Scan.
From S2P Require Import Database.

Local Open Scope Z_scope.
Local Open Scope go_scope.

(** ** The connection *)

(** What has been written is what can be read. *)
#[local] Instance buffer : Writer bytes := fun v w => (len v, None, w ++ v).
(** No hook is configured. *)
#[local] Instance unhooked : Faults unit := fun _ _ f => (None, f).

Section session.
Context {C A L F G : Type} `{Clock C, !RevisionAllocator A, !CommitLog L, !Faults F, !Administration (C := C) (A := A) (L := L) (F := F) (G := G)}.

(** The server with the bytes that its connections have received and sent;
    [lp_round] is what the next round meets. *)
Record Loop := MkLoop {
  lp_server : Server C A L F G;
  lp_round : Round;
  lp_next : Z;
  lp_in : gmap Z bytes;
  lp_out : gmap Z bytes
}.

(** A write; the server runs as soon as a frame is complete. *)
Definition loop_Write (conn : Z) (v : bytes) (x : Loop) : Z * error * Loop :=
  match (lp_in x !! conn : option bytes), (lp_out x !! conn : option bytes) with
  | Some pending, Some out =>
      let data := pending ++ v in
      let stored := MkLoop (lp_server x) (lp_round x) (lp_next x) (<[conn := data]> (lp_in x)) (lp_out x) in
      match ReadFrame (MkReader data None) (MaxFrameBytes (sv_limits (lp_server x))) with
      | (Ok payload, rest) =>
          match serveFrame (lp_round x) payload (lp_server x) out tt with
          | Some (_, sv, out, _) =>
              (len v, None, MkLoop sv (lp_round x) (lp_next x) (<[conn := rd_data rest]> (lp_in x)) (<[conn := out]> (lp_out x)))
          | None => (len v, None, stored)
          end
      | (Err _, _) => (len v, None, stored)
      end
  | _, _ => (0, Some (ErrSys SysClosed), x)
  end.

#[local] Instance Loopback : Network Loop := {
  net_dial x := (Ok (lp_next x), MkLoop (lp_server x) (lp_round x) (lp_next x + 1) (<[lp_next x := []]> (lp_in x))
                                   (<[lp_next x := []]> (lp_out x)));
  net_Write := loop_Write;
  net_receive conn x := MkReader (default [] (lp_out x !! conn)) None;
  net_consume conn reader x := MkLoop (lp_server x) (lp_round x) (lp_next x) (lp_in x) (<[conn := rd_data reader]> (lp_out x));
  net_close conn x := MkLoop (lp_server x) (lp_round x) (lp_next x) (delete conn (lp_in x)) (delete conn (lp_out x))
}.

(** ** One call *)

Lemma writeAll_whole {W} `{Writer W} value (w w' : W) : value <> [] -> writer_Write value w = (len value, None, w') ->
  writeAll value w = (None, w').
Proof.
  intros Hne Hw. unfold writeAll. destruct value as [|b value]; [done|]. cbn [length writeAll_loop].
  assert (0 < len (b :: value)) by (unfold len; cbn [length]; lia). replace (len (b :: value) =? 0) with false by lia.
  rewrite Hw. replace (_ || _) with false by lia. replace (len (b :: value) =? 0) with false by lia.
  assert (slice (b :: value) (len (b :: value)) (len (b :: value)) = []) as -> by (unfold slice; rewrite Z.sub_diag; done).
  by destruct (length value).
Qed.

Section exchange.
Variables (sv sv' : Server C A L F G) (round : Round) (request : Request) (sent : bytes).
Let limits := sv_limits sv.
Hypothesis limits_valid : Options_Validate limits = None.
Hypothesis request_wire : wire_request request.
Hypothesis request_sent : clientSends (RqOperation request) = true /\ normalizeRequestArguments (RqArguments request) = RqArguments request.
Hypothesis request_fits : len (requestText request) <= MaxFrameBytes limits.
(** What the server sends for the request. *)
Hypothesis served : forall out, exists open, serveFrame round (requestText request) sv out tt = Some (open, sv', out ++ sent, tt).

(** The text of the request, byte by byte: first its length, then the frame is
    complete. *)
Lemma request_written (x : Loop) conn : lp_server x = sv -> lp_round x = round ->
  lp_in x !! conn = Some [] -> lp_out x !! conn = Some [] ->
  exists x', writeClientFrame (H := connWriter conn) (requestText request) x = (None, x') /\
    lp_server x' = sv' /\ lp_out x' !! conn = Some sent.
Proof.
  intros Hsv Hround Hin Hout. pose proof (frame_bounds limits limits_valid) as Hb. change (MaxFrameBytes HardLimits) with 67108864 in Hb.
  set (text := requestText request) in *. assert (0 < len text) as Hpos.
  { pose proof (len_nonneg text). enough (text <> []) by (destruct text; [done|unfold len; cbn [length]; lia]). done. }
  set (x1 := MkLoop sv round (lp_next x) (<[conn := be_encode 4 (len text)]> (lp_in x)) (lp_out x)).
  set (x2 := MkLoop sv' round (lp_next x) (<[conn := []]> (lp_in x1)) (<[conn := sent]> (lp_out x))).
  exists x2. split; [|split; [done|unfold x2; cbn [lp_out]; by rewrite lookup_insert_eq]].
  unfold writeClientFrame.
  rewrite (writeAll_whole (H0 := connWriter conn) _ x x1); [|done|].
  - apply (writeAll_whole (H0 := connWriter conn)); [intros Ht; rewrite Ht in Hpos; by cbn in Hpos|].
    unfold writer_Write, connWriter. cbn [net_Write Loopback]. unfold loop_Write. unfold x1 at 1 2. cbn [lp_in lp_out lp_server lp_round].
    rewrite lookup_insert_eq, Hout. fold limits.
    change (be_encode 4 (len text) ++ text) with (frame text). rewrite <- (app_nil_r (frame text)).
    rewrite ReadFrame_frame; [|split; [done|exact request_fits]|apply Hb].
    change (serveFrame (lp_round x1) text (lp_server x1) [] tt) with (serveFrame round text sv [] tt). destruct (served []) as [open ->]. cbn [rd_data]. done.
  - unfold writer_Write, connWriter. cbn [net_Write Loopback]. unfold loop_Write. rewrite Hin, Hout. rewrite Hsv, Hround. fold limits.
    rewrite app_nil_l.
    assert (is_ok (ReadFrame (MkReader (be_encode 4 (len text)) None) (MaxFrameBytes limits)).1 = false) as Hno.
    { replace (be_encode 4 (len text)) with (slice (frame text) 0 4); [apply ReadFrame_torn; [|unfold max_uint32; lia]|].
      - unfold frame. rewrite len_app, len_be_encode. lia.
      - unfold frame. apply (slice_prefix 4); [apply len_be_encode|done]. }
    destruct (ReadFrame _ _) as [[payload|e] rest]; [done|]. done.
Qed.

Lemma unary_exchanged given c (x : Loop) : lp_server x = sv -> lp_round x = round -> ClClosed c = false -> ClReuseUnary c = false ->
  (requestID given c).1 = RqRequestID request -> MaxFrameBytes limits <= MaxFrameBytes (ClLimits c) ->
  exists x', unary given (RqOperation request) (RqArguments request) c x =
    (match (readClientFrame (MkReader sent None) (MaxFrameBytes (ClLimits c))).1 with
     | Err e => Err (TransportError (operationName (RqOperation request)) true e)
     | Ok payload => acceptResponse (ClLimits c) (RqOperation request) (RqRequestID request) payload
     end, (requestID given c).2, x') /\ lp_server x' = sv'.
Proof.
  intros Hsv Hround Hclosed Hreuse Hid Hframe. unfold unary. rewrite Hreuse. unfold Client_dial. rewrite Hclosed. cbn [net_dial Loopback].
  set (x0 := MkLoop _ _ _ _ _). destruct (requestID given c) as [id c'] eqn:Hreq. cbn [fst snd] in *. subst id.
  assert (Hlim : ClLimits c' = ClLimits c) by (unfold requestID in Hreq; by destruct given; injection Hreq as _ <-).
  destruct (request_written x0 (lp_next x)) as (x1 & Hw & Hsv1 & Hout1); [done|done|unfold x0; cbn [lp_in lp_out]; by rewrite lookup_insert_eq..|].
  unfold writeRequest. destruct request_sent as [Hs Hn].
  assert (request = MkRequest SchemaVersion (RqRequestID request) (RqOperation request) (RqArguments request)) as Hrq
    by (rewrite <- (wr_version _ request_wire); by destruct request).
  rewrite client_request_text by (first [done|by rewrite <- Hrq]). rewrite <- Hrq, Hlim.
  replace (MaxFrameBytes (ClLimits c) <? len (requestText request)) with false by lia. rewrite Hw.
  unfold readResponse. cbn [net_receive net_consume net_close Loopback]. rewrite Hout1, Hlim. change (default [] (Some sent)) with sent.
  destruct (readClientFrame _ _) as [[payload|e] reader]; by eexists.
Qed.
End exchange.

(** A response that is encoded is sent. *)
Lemma response_written limits r payload out : Options_Validate limits = None -> encodeResponseForFrame limits r = Ok payload ->
  0 < len payload <= MaxFrameBytes limits -> writeResponse limits r out tt = (None, out ++ frame payload, tt).
Proof.
  intros Hl He Hfit. pose proof (frame_bounds limits Hl) as Hb. change (MaxFrameBytes HardLimits) with 67108864 in Hb.
  unfold writeResponse. rewrite He. cbn [fault_Checkpoint unhooked]. unfold WriteFrame, writeFrame. change (MaxFrameBytes HardLimits) with 67108864.
  replace (_ || _) with false by lia. replace (len payload =? 0) with false by lia.
  replace (_ || _) with false by (unfold max_uint32; lia).
  rewrite (writeAll_whole _ out (out ++ be_encode 4 (len payload))); [|done|done].
  rewrite (writeAll_whole _ _ ((out ++ be_encode 4 (len payload)) ++ payload)); [|intros Ha; rewrite Ha in Hfit; change (len []) with 0 in Hfit; lia|done].
  unfold frame. by rewrite <- app_assoc.
Qed.

Section dispatched.
Variables (sv sv' : Server C A L F G) (round : Round) (request : Request) (resp : Response).
Let limits := sv_limits sv.
Hypothesis limits_valid : Options_Validate limits = None.
Hypothesis request_wire : wire_request request.
Hypothesis request_sent : clientSends (RqOperation request) = true /\ normalizeRequestArguments (RqArguments request) = RqArguments request.
Hypothesis request_unary : RqOperation request <> OperationWatch.
Hypothesis request_ok : acceptable limits (RqOperation request) (RqArguments request) (len (argumentsText request)).
Hypothesis request_fits : len (requestText request) <= MaxFrameBytes limits.
Hypothesis answered : dispatch (ro_context round) (ro_now round) request sv = Some (Returned resp, sv').
Hypothesis limits_kept : sv_limits sv' = limits.

Lemma request_decoded : DecodeRequest (requestText request) limits = Ok request.
Proof.
  destruct request_sent as [_ Hn]. rewrite DecodeRequest_text, Hn by done.
  rewrite decodeArguments_arrived; [by destruct request| | | |].
  - apply Options_Validate_iff, limits_ok_fields in limits_valid. lia.
  - apply (wr_type _ request_wire).
  - rewrite <- Hn. apply (wr_arguments _ request_wire).
  - unfold argumentsText in request_ok. by rewrite Hn in request_ok.
Qed.

Lemma dispatch_served out : serveFrame round (requestText request) sv out tt =
  let '(e, w, h) := writeResponse limits resp out tt in Some (match e with Some _ => false | None => true end, sv', w, h).
Proof.
  unfold serveFrame. fold limits. rewrite request_decoded. pose proof (wr_type _ request_wire) as Ht. destruct request_sent as [Hs _].
  destruct (RqArguments request); try (rewrite answered; cbn [mbind option_bind]; by rewrite limits_kept); destruct (RqOperation request); done.
Qed.
End dispatched.

Section call.
Variables (sv sv' : Server C A L F G) (round : Round) (request : Request) (resp : Response) (err : option Error).
Let limits := sv_limits sv.
Hypothesis limits_valid : Options_Validate limits = None.
Hypothesis request_wire : wire_request request.
Hypothesis request_sent : clientSends (RqOperation request) = true /\ normalizeRequestArguments (RqArguments request) = RqArguments request.
Hypothesis request_unary : RqOperation request <> OperationWatch.
Hypothesis request_ok : acceptable limits (RqOperation request) (RqArguments request) (len (argumentsText request)).
Hypothesis request_fits : len (requestText request) <= MaxFrameBytes limits.
Hypothesis answered : dispatch (ro_context round) (ro_now round) request sv = Some (Returned resp, sv').
Hypothesis limits_kept : sv_limits sv' = limits.
Hypothesis Hwire : wire_response resp err.
Hypothesis Hcoherent : coherent resp err.
Hypothesis correlated : RspOperation resp = RqOperation request /\ RspRequestID resp = RqRequestID request.
Hypothesis database_ok : forallb plain (RspDatabaseID resp) = true /\ len (RspDatabaseID resp) <= 64.
Hypothesis memory : len (responseText resp) < 2 ^ 63.

Let answer := responseText (framed limits resp).

Lemma answer_fits : 0 < len answer <= MaxFrameBytes limits.
Proof.
  destruct (framed_ok limits resp err limits_valid Hwire Hcoherent database_ok ltac:(by rewrite (proj1 correlated)) memory) as (_ & _ & Hlen).
  split; [|done]. pose proof (len_nonneg answer). enough (answer <> []) by (destruct answer; [done|unfold len; cbn [length]; lia]).
  unfold answer, responseText, responseJson. done.
Qed.

Lemma answer_written out : serveFrame round (requestText request) sv out tt = Some (true, sv', out ++ frame answer, tt).
Proof.
  rewrite (dispatch_served sv sv' round request resp) by done.
  rewrite (response_written limits resp answer); [done|done| |exact answer_fits].
  exact (encode_framed limits resp err limits_valid Hwire Hcoherent database_ok ltac:(by rewrite (proj1 correlated)) memory).
Qed.

(** What a caller learns from the answer. *)
Definition learned : result clientError wireResponse :=
  match sentError (framedError limits resp err) with
  | Some e => Err (RemoteError (errorValue e))
  | None => Ok (receivedResponse resp err)
  end.

Lemma answer_accepted (client : Limits) : (forall x, RspResult resp = Some x -> client_result_ok client x) ->
  acceptResponse client (RqOperation request) (RqRequestID request) answer = learned.
Proof.
  intros Hok.
  destruct (framed_ok limits resp err limits_valid Hwire Hcoherent database_ok ltac:(by rewrite (proj1 correlated)) memory) as (Hw & Hc & _).
  pose proof (acceptResponse_exact (framed limits resp) _ client Hw Hc) as Hacc. unfold learned.
  destruct correlated as [Hop Hid].
  assert (RspOperation (framed limits resp) = RqOperation request /\ RspRequestID (framed limits resp) = RqRequestID request) as [Ho Hi]
    by (unfold framed; by destruct (_ <? _)).
  rewrite Ho, Hi, bool_decide_false in Hacc by done. unfold answer. rewrite Hacc.
  - cbn [andb]. unfold framedError, framed. destruct (_ <? _); [done|]. by destruct (sentError err).
  - intros x. unfold framed. destruct (_ <? _); [done|]. apply Hok.
Qed.

Lemma unary_answered given c (x : Loop) : lp_server x = sv -> lp_round x = round -> ClClosed c = false -> ClReuseUnary c = false ->
  (requestID given c).1 = RqRequestID request -> MaxFrameBytes limits <= MaxFrameBytes (ClLimits c) ->
  (forall x, RspResult resp = Some x -> client_result_ok (ClLimits c) x) ->
  exists x', unary given (RqOperation request) (RqArguments request) c x = (learned, (requestID given c).2, x') /\ lp_server x' = sv'.
Proof.
  intros Hsv Hround Hclosed Hreuse Hid Hframe Hok.
  destruct (unary_exchanged sv sv' round request (frame answer)) with (given := given) (c := c) (x := x) as (x' & Hun & Hsv'); try done.
  { intros out. rewrite answer_written. by exists true. }
  exists x'. split; [|done]. rewrite Hun. f_equal. f_equal.
  pose proof answer_fits as Hfit. pose proof (frame_bounds limits limits_valid) as Hb. change (MaxFrameBytes HardLimits) with 67108864 in Hb.
  rewrite <- (app_nil_r (frame answer)), readClientFrame_frame by (unfold max_uint32; lia). by apply answer_accepted.
Qed.
End call.

(** ** A call that fails *)

Section failed.
Variables (sv sv' : Server C A L F G) (round : Round) (request : Request) (e : Error).
Let limits := sv_limits sv.
Hypothesis limits_valid : Options_Validate limits = None.
Hypothesis request_wire : wire_request request.
Hypothesis request_sent : clientSends (RqOperation request) = true /\ normalizeRequestArguments (RqArguments request) = RqArguments request.
Hypothesis request_unary : RqOperation request <> OperationWatch.
Hypothesis request_ok : acceptable limits (RqOperation request) (RqArguments request) (len (argumentsText request)).
Hypothesis request_fits : len (requestText request) <= MaxFrameBytes limits.
Hypothesis answered : dispatch (ro_context round) (ro_now round) request sv =
  Some (Returned (unaryResponse false (RqRequestID request) (RqOperation request) None (Some e) sv), sv').
Hypothesis limits_kept : sv_limits sv' = limits.
Hypothesis id_utf8 : utf8_valid (RqRequestID request) = true.
Hypothesis database_plain_text : forallb plain (databaseID sv) = true.

(** Whatever the error is, the caller learns of no success. *)
Lemma unary_failed given c (x : Loop) : lp_server x = sv -> lp_round x = round -> ClClosed c = false -> ClReuseUnary c = false ->
  (requestID given c).1 = RqRequestID request -> MaxFrameBytes limits <= MaxFrameBytes (ClLimits c) ->
  exists failure x', unary given (RqOperation request) (RqArguments request) c x = (Err failure, (requestID given c).2, x') /\ lp_server x' = sv'.
Proof.
  intros Hsv Hround Hclosed Hreuse Hid Hframe. pose proof (frame_bounds limits limits_valid) as Hb. change (MaxFrameBytes HardLimits) with 67108864 in Hb.
  destruct (encodeResponseForFrame limits (failedResponse (RqRequestID request) (databaseID sv) (RqOperation request) e)) as [payload|err] eqn:He.
  - destruct (framed_failing _ _ _ _ _ _ id_utf8 database_plain_text He) as [Hf Hfit].
    destruct (unary_exchanged sv sv' round request (frame payload)) with (given := given) (c := c) (x := x) as (x' & Hun & Hsv'); try done.
    { intros out. erewrite dispatch_served by done. erewrite response_written; [by exists true|done|exact He|done]. }
    rewrite <- (app_nil_r (frame payload)), readClientFrame_frame in Hun by (unfold max_uint32; lia). cbn [fst] in Hun.
    destruct (failing_refused (ClLimits c) (RqOperation request) (RqRequestID request) payload Hf request_unary) as [failure Hr].
    rewrite Hr in Hun. by exists failure, x'.
  - destruct (unary_exchanged sv sv' round request []) with (given := given) (c := c) (x := x) as (x' & Hun & Hsv'); try done.
    { intros out. erewrite dispatch_served by done. unfold writeResponse. fold limits.
      change (unaryResponse false (RqRequestID request) (RqOperation request) None (Some e) sv)
        with (failedResponse (RqRequestID request) (databaseID sv) (RqOperation request) e). rewrite He. exists false. by rewrite app_nil_r. }
    eexists _, x'. split; [exact Hun|done].
Qed.
End failed.

(** ** Answers of the engine *)

Section answers.
Variables (sv : Server C A L F G) (id : bytes) (o : Operation).
Hypothesis database_id : length (st_databaseID (ow_state (sv_owner sv))) = 16%nat.
Hypothesis id_ok : utf8_valid id = true /\ len id <= 256.
Hypothesis unary : o <> OperationWatch.

Lemma database_plain : forallb plain (databaseID sv) = true /\ databaseID sv <> [] /\ len (databaseID sv) = 32.
Proof.
  unfold databaseID, RunningStatus. cbn. destruct (hex_Decode_Encode (st_databaseID (ow_state (sv_owner sv)))) as (_ & Hp & _ & Hl).
  unfold DatabaseID_String. unfold len in Hl at 2. rewrite database_id in Hl. split_and!; [done| |done].
  intros Hn. rewrite Hn in Hl. done.
Qed.

Lemma result_response x : wire_result x -> result_for o x -> result_ok o x ->
  wire_response (unaryResponse true id o (Some x) None sv) None /\ coherent (unaryResponse true id o (Some x) None sv) None.
Proof.
  intros Hw Hfor Hok. destruct database_plain as (Hp & Hne & _). apply plain_utf8 in Hp. split; split; try done.
  - cbn. tauto.
  - by intros ? [= <-].
  - cbn. tauto.
  - rewrite decide_False by done. done.
  - by intros ? [= <-].
Qed.

(** An error is carried as it is. *)
Lemma failure_response e : carried e -> (asserted e -> o = OperationAtomicBatch) ->
  wire_response (unaryResponse false id o None (Some e) sv) (Some e) /\ coherent (unaryResponse false id o None (Some e) sv) (Some e).
Proof.
  intros ((Hw & Hc & Hs & Hb) & Hbe & Hsmall) Ho. destruct database_plain as (Hp & Hne & Hlen). pose proof (plain_utf8 _ Hp) as Hu.
  assert (Hwire : wire_response (unaryResponse false id o None (Some e) sv) (Some e)).
  { split; try done; [cbn; tauto|]. unfold sentError. cbn [fmap option_fmap option_map]. rewrite Hbe. split; [done|]. by intros ? [= <-]. }
  split; [done|]. split; try done.
  - cbn. tauto.
  - rewrite decide_False by done. done.
  - unfold sentError. cbn [fmap option_fmap option_map]. rewrite Hbe. intros ? [= <-]. split_and!; try done. intros Ha. split; [by apply Ho|].
    assert (Hj : responseJson (unaryResponse false id o None (Some e) sv) =
      jobject (envelopeMembers false id (databaseID sv) o "error" (json_of ErrorType (errorValue e)))).
    { rewrite (responseJson_raw _ _ Hwire). unfold sentEnvelope, sentFailure, sentError. cbn [fmap option_fmap option_map]. rewrite Hbe. reflexivity. }
    unfold responseText. rewrite Hj. eapply Z.le_lt_trans; [apply envelope_length; [tauto|done|lia]|]. specialize (Hsmall Ha).
    change (len (marshal_string (lit "error"))) with 7. change maxAssertionDiagnosticBytes with 4096. lia.
Qed.
End answers.

(** The error that a call reports: its actions are those of the catalog. *)
Lemma structured_same now e o status : conforms e -> structuredError now (ErrGap e) o status = e.
Proof.
  unfold conforms, structuredError. cbn [asError]. intros Hc.
  assert (match list_find (fun d => d.1.1 = Code e) ErrorDefinitions with Some (_, (_, actions)) => actions | None => SafeActions e end = SafeActions e) as ->;
    [|by destruct e].
  destruct e as [c m r ev ap acts cause]. cbn [Code SafeActions Retry] in *. destruct c; vm_compute in Hc; by injection Hc as _ <-.
Qed.

Lemma notFound_reportable key current : utf8_valid key = true -> key <> [] -> u64 current ->
  exists e, notFound key current = ErrGap e /\ reportable e /\ evidenceOf e "assertion_index" = None.
Proof.
  intros Hu Hne Hc. eexists. split; [reflexivity|]. split; [|done]. split_and!; [|done|done|done].
  split; [done|apply (bool_decide_unpack _); vm_compute; done| |repeat (apply Forall_cons; split; [exact I|]); by apply Forall_nil].
  repeat (apply Forall_cons; split); [| |by apply Forall_nil].
  - split; [change (evidenceType _) with TString; by apply roundtrips_string|]. cbn. by rewrite bool_decide_false.
  - split; [change (evidenceType _) with (TPtr TRevision); apply roundtrips_ptr; [done|by apply roundtrips_revision]|done].
Qed.

(** ** Reading a record *)

Section get.
Variables (sv : Server C A L F G) (x : Loop) (c : Client) (given : option bytes) (key : bytes).
Let st := ow_state (sv_owner sv).
Let limits := sv_limits sv.
Let id := (requestID given c).1.
Let request := MkRequest SchemaVersion id OperationGet (GetArguments key).
(** The server after the read. *)
Definition getAfter : Server C A L F G := with_owner (with_state (Get key st).2 (sv_owner sv)) sv.

(** The response of the server, and its error. *)
Definition getFailure (e : goerror) : Error := structuredError (ro_now (lp_round x)) e OperationGet (RvStatus (RunningStatus getAfter)).
Definition getResponse : Response :=
  match (Get key st).1 with
  | Ok record => unaryResponse true id OperationGet (Some (GetResult record)) None sv
  | Err e => unaryResponse false id OperationGet None (Some (getFailure e)) sv
  end.
Definition getError : option Error := match (Get key st).1 with Ok _ => None | Err e => Some (getFailure e) end.

Lemma get_dispatch : dispatch (ro_context (lp_round x)) (ro_now (lp_round x)) request sv = Some (Returned getResponse, getAfter).
Proof.
  unfold dispatch, execRequest, getResponse, getFailure, getAfter. cbn [RqArguments request RqRequestID RqOperation]. unfold reading. fold st.
  destruct (Get key st) as [[record|e] st'] eqn:Hg; reflexivity.
Qed.

Hypothesis invariant : core_inv st.
Hypothesis revisions : st_current st <= max_uint64.
Hypothesis same_limits : st_limits st = limits.
Hypothesis database_id : length (st_databaseID st) = 16%nat.
Hypothesis id_ok : utf8_valid id = true /\ len id <= 256.
Hypothesis key_ok : key_wf limits key.

Lemma get_failure e : (Get key st).1 = Err e -> e = notFound key (st_current st).
Proof.
  unfold Get. assert (engineValidateKey key (st_limits st) = None) as -> by (apply engineValidateKey_None; by rewrite same_limits).
  destruct (Nondecreasing_Now (st_clock st)) as [now clock]. cbn [set_clock st_records st_current].
  destruct (st_records st !! key) as [record|]; cbn [fst]; [destruct (recordExpired record now)|]; by intros [= <-].
Qed.

Lemma get_success record : (Get key st).1 = Ok record -> st_records st !! key = Some record.
Proof.
  unfold Get. destruct (engineValidateKey key (st_limits st)); [done|]. destruct (Nondecreasing_Now (st_clock st)) as [now clock].
  cbn [set_clock st_records st_current]. destruct (st_records st !! key) as [r|]; cbn [fst]; [|done].
  destruct (recordExpired r now); [done|]. by intros [= <-].
Qed.

Lemma get_response : wire_response getResponse getError /\ coherent getResponse getError.
Proof.
  pose proof (limits_ok_fields _ (ci_limits _ invariant)) as Hlim. unfold getResponse, getError. destruct (Get key st).1 as [record|e] eqn:Hg.
  - apply get_success in Hg. destruct (ci_records _ invariant _ _ Hg) as (Hk & Hwf & Hrev & Hval & Hexp). rewrite same_limits in *.
    apply result_response; try done.
    + destruct key_ok as (_ & Hu & _). split_and!; [by rewrite Hk|unfold u64; lia|]. unfold wire_time.
      destruct (RecExpiresAt record) as [t|]; [|done]. unfold rfc3339_range, nanosecond. lia.
    + destruct key_ok as (Hne & Hu & Hlen). cbn [result_ok]. split_and!; [rewrite Hk; split_and!; [done|done|]| |].
      * change (MaxKeyBytes HardLimits) with 65536. lia.
      * change (MaxValueBytes HardLimits) with 67108864. lia.
      * lia.
  - apply get_failure in Hg as ->. destruct key_ok as (Hne & Hu & _). pose proof (ci_current _ invariant).
    destruct (notFound_reportable key (st_current st) Hu Hne ltac:(unfold u64; lia)) as (e & He & Hr & Ha). unfold getFailure. rewrite He.
    rewrite structured_same by apply Hr. apply failure_response; try done. by apply carried_plain.
Qed.

Hypothesis connected : lp_server x = sv /\ ClClosed c = false /\ ClReuseUnary c = false /\ ClLimits c = limits.
Hypothesis request_fits : len (requestText request) <= MaxFrameBytes limits.
Hypothesis memory : len (responseText getResponse) < 2 ^ 63.

Lemma get_finished : (Get key st).1 = Err (notFound key (st_current st)) \/ exists record, (Get key st).1 = Ok record /\
  finishGet (sentResult getResponse) = Ok record.
Proof.
  destruct get_response as [Hw Hc]. destruct (Get key st).1 as [record|e] eqn:Hg; [right|left; by rewrite (get_failure e)].
  exists record. split; [done|]. unfold getResponse in *. rewrite Hg in *.
  destruct (wp_result _ _ Hw _ eq_refl) as [Hwr _]. pose proof (co_result _ _ Hc _ eq_refl) as (_ & _ & Hrev).
  destruct (result_roundtrip _ Hwr) as (_ & _ & Hd & _). unfold finishGet, unmarshal, sentResult.
  cbn [unaryResponse RspResult fmap option_fmap option_map mbind option_bind resultType normalizeResult] in *. rewrite Hd. cbn [mbind option_bind getOf].
  rewrite recordOf_value. by replace (RecRevision record =? 0) with false by lia.
Qed.

(** C15: a read through the client is a read of the engine.  Over a connection
    that loses nothing, a client's read of a valid key returns exactly what the
    engine of the server answers: the live record with its value, revision and
    expiry, or the error that the key is not present; a record whose response
    exceeds the frame limit is reported as that error.  The server's state
    changes only by the engine's read. *)
Theorem client_get_exact : exists x',
  Client_Get given key c x =
    (if MaxFrameBytes limits <? len (responseText getResponse)
     then Err (RemoteError (errorValue (responseTooLarge (len (responseText getResponse)) (MaxFrameBytes limits))))
     else match (Get key st).1 with
     | Ok record => Ok record
     | Err e => Err (RemoteError (errorValue (getFailure e)))
     end, (requestID given c).2, x') /\
  lp_server x' = getAfter.
Proof.
  destruct connected as (Hsv & Hclosed & Hreuse & Hlim), get_response as [Hw Hc].
  assert (Hvalid : Options_Validate limits = None) by (apply Options_Validate_iff; rewrite <- same_limits; apply invariant).
  assert (Hplain : forallb plain (RspDatabaseID getResponse) = true /\ len (RspDatabaseID getResponse) <= 64).
  { destruct (database_plain sv database_id) as (Hp & _ & Hl).
    assert (RspDatabaseID getResponse = databaseID sv) as -> by (unfold getResponse; by destruct (Get key st).1). split; [done|lia]. }
  assert (Hcor : RspOperation getResponse = OperationGet /\ RspRequestID getResponse = id)
    by (unfold getResponse; by destruct (Get key st).1).
  destruct (unary_answered sv getAfter (lp_round x) request getResponse getError) with (given := given) (c := c) (x := x) as (x' & Hun & Hsv');
    try done; [|exact get_dispatch|rewrite Hlim; fold limits; lia| |].
  { destruct key_ok as (_ & Hu & _), id_ok. by split. }
  { intros r. unfold getResponse. destruct (Get key st).1; [|done]. by intros [= <-]. }
  exists x'. split; [|done]. unfold Client_Get.
  assert (Mutation_Validate (ClLimits c) (MkMutation MutationPut key anyCondition None None) = None) as ->.
  { apply Mutation_Validate_None. rewrite Hlim. split; [done|]. split; [done|]. apply Options_Validate_iff, limits_ok_fields in Hvalid.
    change (0 <= MaxValueBytes limits). lia. }
  unfold call. cbn [request RqOperation RqArguments] in Hun. rewrite Hun. unfold learned. fold limits. f_equal. f_equal.
  unfold framedError. destruct (MaxFrameBytes limits <? len (responseText getResponse)); [done|].
  destruct get_finished as [Hg|(record & Hg & Hf)]; unfold getError; rewrite Hg.
  - destruct key_ok as (Hne & Hu & _). pose proof (ci_current _ invariant).
    destruct (notFound_reportable key (st_current st) Hu Hne ltac:(unfold u64; lia)) as (e & He & Hr & Ha). unfold getFailure. rewrite He.
    rewrite structured_same by apply Hr. destruct (carried_plain e Hr Ha) as (_ & Hb & _).
    unfold sentError. cbn [fmap option_fmap option_map mbind result_bind]. by rewrite Hb.
  - exact Hf.
Qed.
End get.

(** ** Committing a batch *)

Lemma Mutation_Clone_wire m : wire_mutation m -> Mutation_Clone m = m.
Proof.
  intros (_ & _ & _ & [_ Hv] & _). unfold Mutation_Clone. destruct m as [[| |k] key cond [v|] expiry]; try done. by destruct Hv.
Qed.

Lemma Batch_Clone_wire batch : wire_arguments (BatchArguments batch) -> Batch_Clone batch = batch.
Proof.
  intros (_ & _ & Hm). unfold Batch_Clone. destruct batch as [ack assertions mutations]. cbn [BatchMutations BatchAck BatchAssertions] in *.
  f_equal. induction Hm as [|m ms Hm _ IH]; [done|]. rewrite fmap_cons, IH. by rewrite Mutation_Clone_wire.
Qed.

Lemma normalize_batch batch : wire_arguments (BatchArguments batch) -> AckMode_Valid (BatchAck batch) = true ->
  normalizeRequestArguments (BatchArguments batch) = BatchArguments batch.
Proof.
  intros Hw%Batch_Clone_wire Hack. unfold normalizeRequestArguments.
  assert (MkBatch (defaultAck (BatchAck batch)) (BatchAssertions batch) (BatchMutations batch) = batch) as -> by (by destruct batch as [[] ? ?]).
  by rewrite Hw.
Qed.

(** The response to a commit is short. *)
Lemma mutation_length m : wire_result (MutationRes m) -> len (raw_text (json_of MutationResultType (mutationResultValue m))) <= 250.
Proof.
  intros (Hr & Hd & Hm & Ha & Hack).
  assert (json_of MutationResultType (mutationResultValue m) = jobject
    ([(lit "revision", JNumber (FormatUint (ResRevision m))); (lit "ack", jstring (ackText (ResAck m)));
      (lit "durable_through_revision", JNumber (FormatUint (ResDurableThrough m)))]
     ++ (if ResMutationCount m =? 0 then [] else [(lit "mutation_count", JNumber (FormatInt (ResMutationCount m)))])
     ++ (if ResAssertionCount m =? 0 then [] else [(lit "assertion_count", JNumber (FormatInt (ResAssertionCount m)))]))) as ->.
  { cbn. destruct (ResMutationCount m =? 0), (ResAssertionCount m =? 0); reflexivity. }
  etransitivity; [apply object_text_length|].
  assert (len (raw_text (jstring (ackText (ResAck m)))) <= 9)
    by (destruct (ResAck m); first [done|by apply (bool_decide_unpack _); vm_compute]).
  pose proof (FormatUint_length _ Hr). pose proof (FormatUint_length _ Hd). pose proof (FormatInt_length _ Hm). pose proof (FormatInt_length _ Ha).
  destruct (ResMutationCount m =? 0), (ResAssertionCount m =? 0); cbn [app members_length foldr fst snd]; 
    change (raw_text (JNumber ?x)) with x; closed_lengths; lia.
Qed.

Lemma commit_fits (sv : Server C A L F G) id m : length (st_databaseID (ow_state (sv_owner sv))) = 16%nat ->
  utf8_valid id = true -> len id <= 256 -> wire_result (MutationRes m) ->
  len (responseText (unaryResponse true id OperationAtomicBatch (Some (MutationRes m)) None sv)) <= MinimumMaxFrameBytes.
Proof.
  intros Hdb Hu Hid Hw. destruct (database_plain sv Hdb) as (Hp & _ & Hl).
  assert (Hj : responseJson (unaryResponse true id OperationAtomicBatch (Some (MutationRes m)) None sv) =
    jobject (envelopeMembers true id (databaseID sv) OperationAtomicBatch "result" (json_of MutationResultType (mutationResultValue m)))).
  { unfold responseJson, responseValue, responseType, envelopeMembers. cbn. by case_bool_decide. }
  unfold responseText. rewrite Hj. etransitivity; [apply envelope_length; [done|done|lia]|].
  pose proof (mutation_length m Hw). closed_lengths. change MinimumMaxFrameBytes with 2048. lia.
Qed.

Section commit.
Context {LS : LogSpec L} {bound : Revision} {AS : AllocatorSpec A bound}.
Hypothesis bound_fits : forall c, 0 <= FrRevision c <= bound -> log_fits c.
Hypothesis bound_u64 : bound <= max_uint64.
Variables (snap : gmap bytes DBRecord) (base : Revision) (cs fl : list CommitFrame).
Variables (sv : Server C A L F G) (x : Loop) (c : Client) (given : option bytes) (batch : Batch).
Let o := sv_owner sv.
Let st := ow_state o.
Let limits := sv_limits sv.
Let id := (requestID given c).1.
Let request := MkRequest SchemaVersion id OperationAtomicBatch (BatchArguments batch).
(** The state in which the writer takes the command. *)
Definition commitStart : DatabaseState C A L F := set_clock (Nondecreasing_Now (st_clock st)).2 st.

Variables (r : result goerror CommitResult) (st' : DatabaseState C A L F).
Hypothesis executed : executeSafely batch operationBatch commitStart = (Some r, st').

(** The server behind the commit, its response, and its error. *)
Definition commitAfter : Server C A L F G :=
  with_owner (MkOwner (resetExpiryTimer st') [] (ow_next o + 1) (<[ow_next o := replyCommit r]> (ow_replies o)) (ow_closed o)
    (ow_done o) (ow_closeErr o)) sv.
Definition commitFailure (e : goerror) : Error :=
  structuredError (ro_now (lp_round x)) e OperationAtomicBatch (RvStatus (RunningStatus commitAfter)).
Definition commitResponse : Response :=
  match r with
  | Ok res => unaryResponse true id OperationAtomicBatch (Some (MutationRes (CrResult res))) None sv
  | Err e => unaryResponse false id OperationAtomicBatch None (Some (commitFailure e)) sv
  end.
Definition commitError : option Error := match r with Ok _ => None | Err e => Some (commitFailure e) end.

(** The timeout has not passed at the admission, the writer is idle and the
    database ready. *)
Hypothesis in_time : ctx_entry (ro_context (lp_round x)) = None /\ ctx_select (ro_context (lp_round x)) = None.
Hypothesis ready : st_lifecycle st = LifecycleReady /\ ow_queue o = [] /\ ow_closed o = false /\ 0 < st_queueCapacity st.
Hypothesis ticket_free : ow_replies o !! ow_next o = None.
Hypothesis timely : validateBatchAt batch (st_limits st) (Nondecreasing_Now (st_clock st)).1 = None.

Lemma commit_dispatch : dispatch (ro_context (lp_round x)) (ro_now (lp_round x)) request sv = Some (Returned commitResponse, commitAfter).
Proof.
  destruct ready as (Hl & Hq & Hcl & Hcap). unfold dispatch, execRequest. cbn [RqArguments request RqRequestID RqOperation].
  assert (AtomicBatch (ro_context (lp_round x)) batch (sv_owner sv) =
    (Returned (Ok (ow_next o)), pushCommand (commandMutation batch operationBatch) (with_state commitStart o))) as ->.
  { unfold AtomicBatch, prepareAndSubmit. fold o. change (st_clock (ow_state o)) with (st_clock st).
    rewrite (surjective_pairing (Nondecreasing_Now (st_clock st))). cbv beta iota zeta. fold st. fold commitStart.
    cbn [with_state ow_state]. change (st_limits commitStart) with (st_limits st). rewrite timely. unfold submit. destruct in_time as [-> Hsel].
    unfold admitReady. cbn [with_state ow_state]. change (st_lifecycle commitStart) with (st_lifecycle st). rewrite bool_decide_eq_true_2 by done. cbn [negb].
    unfold admitCommand. rewrite Hsel. cbn [with_state ow_closed ow_state ow_next]. rewrite Hcl. unfold queueDepth. cbn [with_state ow_queue].
    rewrite Hq. change (st_queueCapacity commitStart) with (st_queueCapacity st). change (len []) with 0. by replace (0 <? st_queueCapacity st) with true by lia. }
  unfold mutation. cbn [pushCommand with_state ow_queue]. rewrite Hq. cbn [app length awaitReply]. unfold pushCommand. cbn [ow_replies with_state].
  rewrite ticket_free. unfold runCommand. cbn [ow_queue with_state]. rewrite Hq. cbn [app ow_state with_state handleCommand]. rewrite executed.
  cbn [fmap option_fmap option_map mbind option_bind ow_replies ow_next with_state]. rewrite lookup_insert_eq.
  unfold commitResponse, commitFailure, commitAfter. clear executed. by destruct r.
Qed.
Hypothesis invariant : engine_inv (bound := bound) snap base cs fl st.
Hypothesis durable_known : 0 <= st_durableThrough st.
Hypothesis revisions : st_current st <= max_uint64.
Hypothesis room : fits batch st.
Hypothesis same_limits : st_limits st = limits.
Hypothesis database_id : length (st_databaseID st) = 16%nat.
Hypothesis id_ok : utf8_valid id = true /\ len id <= 256.
Hypothesis batch_wire : wire_arguments (BatchArguments batch).
Hypothesis batch_ok : acceptable limits OperationAtomicBatch (BatchArguments batch) (len (argumentsText request)).
(** The instant at which the writer executes the batch is one that a text has. *)
Hypothesis instant : rfc3339_range (Nondecreasing_Now (st_clock commitStart)).1.

Lemma commit_leaves : leaves (bound := bound) snap base cs fl commitStart batch operationBatch (Some r) st'.
Proof. apply (executeSafely_leaves bound_fits); [by apply engine_inv_clock|exact room|exact executed]. Qed.

Lemma batch_shape : batch_wf limits batch.
Proof. apply Batch_Validate_None; [apply room|apply batch_ok]. Qed.

Lemma commit_success res : r = Ok res -> wire_result (MutationRes (CrResult res)) /\
  result_ok OperationAtomicBatch (MutationRes (CrResult res)) /\
  ResMutationCount (CrResult res) = len (BatchMutations batch) /\ ResAssertionCount (CrResult res) = len (BatchAssertions batch).
Proof.
  intros Hr. destruct commit_leaves as (cs' & fl' & _ & _ & Hout). rewrite Hr in Hout.
  destruct Hout as (revision & durable & _ & Hcur & Hrev & _ & _ & _ & -> & _ & _ & _ & _ & [Hdur Hack] & _).
  pose proof (ci_current _ (en_core _ _ _ _ _ invariant)). change (st_current commitStart) with (st_current st) in *.
  change (st_durableThrough commitStart) with (st_durableThrough st) in *.
  destruct room as [Hfit _]. unfold batch_fits_int in Hfit. pose proof (bwf_ack _ _ batch_shape).
  assert (len (BatchMutations batch) <> 0) by (pose proof (bwf_nonempty _ _ batch_shape); destruct (BatchMutations batch); done).
  pose proof (len_nonneg (BatchMutations batch)). pose proof (len_nonneg (BatchAssertions batch)).
  cbn [commit_result CrResult wire_result result_ok ResRevision ResDurableThrough ResMutationCount ResAssertionCount ResAck].
  unfold mutation_ok. rewrite decide_True by done. cbn [ResRevision ResDurableThrough ResMutationCount ResAssertionCount ResAck].
  unfold u64, i64, max_int64 in *. split_and!; try done; try lia.
Qed.

Lemma commit_cases : (exists res, r = Ok res) \/ (exists e, r = Err e).
Proof. clear. destruct r; eauto. Qed.

(** A commit, or an error that a response carries. *)
Definition sendable : Prop := forall e, r = Err e -> exists g, e = ErrGap g /\ carried g.

Lemma failure_carried g : carried g -> commitFailure (ErrGap g) = g.
Proof. intros Hg. unfold commitFailure. by rewrite structured_same by apply Hg. Qed.

Lemma commit_response : sendable -> wire_response commitResponse commitError /\ coherent commitResponse commitError.
Proof.
  intros Hsend. unfold commitResponse, commitError. destruct commit_cases as [[res Hr]|[e Hr]]; rewrite Hr.
  - destruct (commit_success res Hr) as (Hw & Hok & _). by apply result_response.
  - destruct (Hsend e Hr) as (g & -> & Hg). rewrite failure_carried by done. by apply failure_response.
Qed.

Lemma commit_finished res : r = Ok res ->
  (finishMutation OperationAtomicBatch (sentResult commitResponse) ≫= countsMatch batch) = Ok (CrResult res).
Proof.
  intros Hr. destruct (commit_success res Hr) as (Hw & (Hrev & _) & Hm & Ha). unfold commitResponse. rewrite Hr.
  destruct (result_roundtrip _ Hw) as (_ & _ & Hd & _). unfold finishMutation, unmarshal, sentResult.
  cbn [unaryResponse RspResult fmap option_fmap option_map mbind option_bind resultType normalizeResult] in *. rewrite Hd.
  cbn [mbind option_bind]. destruct Hw as (_ & _ & _ & _ & Hack). rewrite mutationResultOf_value, Hack by done.
  replace (ResRevision (CrResult res) =? 0) with false by lia. cbn [orb negb].
  change (countsMatch batch (CrResult res) = Ok (CrResult res)). unfold countsMatch. by rewrite Hm, Ha, !Z.eqb_refl.
Qed.

Hypothesis connected : lp_server x = sv /\ ClClosed c = false /\ ClReuseUnary c = false /\ ClLimits c = limits.
Hypothesis request_fits : len (requestText request) <= MaxFrameBytes limits.
Hypothesis memory : len (responseText commitResponse) < 2 ^ 63.

(** What the client is told of an error. *)
Definition told (g : Error) : result clientError MutationResult :=
  Err (RemoteError (errorValue
    (if MaxFrameBytes limits <? len (responseText commitResponse)
     then responseTooLarge (len (responseText commitResponse)) (MaxFrameBytes limits) else g))).
Definition commitAnswer : result clientError MutationResult :=
  match r with Ok res => Ok (CrResult res) | Err e => told (commitFailure e) end.

Lemma commit_learned : sendable ->
  (response ← learned sv commitResponse commitError; finishMutation OperationAtomicBatch (WrResult response)) ≫= countsMatch batch = commitAnswer.
Proof.
  intros Hsend. unfold learned, framedError, commitAnswer, told. fold limits. destruct commit_cases as [[res Hr]|[e Hr]].
  - destruct (commit_success res Hr) as (Hw & _ & _). destruct id_ok as [Hu Hid].
    pose proof (commit_fits sv id _ database_id Hu Hid Hw) as Hfit.
    assert (Hvalid : limits_ok limits) by (rewrite <- same_limits; apply invariant). pose proof (lo_frame_min _ Hvalid).
    replace (MaxFrameBytes limits <? len (responseText commitResponse)) with false by (unfold commitResponse; rewrite Hr; lia).
    unfold commitError at 1. rewrite Hr. cbn [sentError fmap option_fmap option_map]. exact (commit_finished res Hr).
  - rewrite Hr. destruct (MaxFrameBytes limits <? len (responseText commitResponse)); [done|]. unfold commitError. rewrite Hr.
    destruct (Hsend e Hr) as (g & -> & Hg). rewrite failure_carried by done. destruct Hg as (_ & Hb & _).
    unfold sentError. cbn [fmap option_fmap option_map]. by rewrite Hb.
Qed.

Lemma commit_request : wire_request request /\ Options_Validate limits = None /\
  normalizeRequestArguments (BatchArguments batch) = BatchArguments batch.
Proof.
  assert (Hvalid : Options_Validate limits = None) by (apply Options_Validate_iff; rewrite <- same_limits; apply invariant).
  pose proof (normalize_batch _ batch_wire (bwf_ack _ _ batch_shape)) as Hnorm.
  destruct id_ok. split_and!; [|done|done]. split; [done|done|done|]. cbn [request RqArguments]. by rewrite Hnorm.
Qed.

(** The call, once the exchange is over. *)
Lemma commit_client response x' : unary given OperationAtomicBatch (BatchArguments batch) c x = (response, (requestID given c).2, x') ->
  Client_AtomicBatch given batch c x =
    ((response ← response; finishMutation OperationAtomicBatch (WrResult response)) ≫= countsMatch batch, (requestID given c).2, x').
Proof.
  intros Hun. destruct connected as (_ & _ & _ & Hlim). unfold Client_AtomicBatch. rewrite (Batch_Clone_wire _ batch_wire), Hlim. destruct batch_ok as [-> _].
  unfold mutate. cbn [acknowledgementOf]. rewrite (bwf_ack _ _ batch_shape). unfold call. by rewrite Hun.
Qed.

Lemma commit_called : sendable -> exists x', Client_AtomicBatch given batch c x = (commitAnswer, (requestID given c).2, x') /\
  lp_server x' = commitAfter.
Proof.
  intros Hsend. destruct connected as (Hsv & Hclosed & Hreuse & Hlim), (commit_response Hsend) as [Hw Hc], id_ok as [Hu Hid].
  destruct commit_request as (Hwire & Hvalid & Hnorm), (database_plain sv database_id) as (Hp & _ & Hl).
  assert (Hfields : RspDatabaseID commitResponse = databaseID sv /\ RspOperation commitResponse = OperationAtomicBatch /\
    RspRequestID commitResponse = id /\ forall y, RspResult commitResponse = Some y -> exists m, y = MutationRes m).
  { unfold commitResponse. destruct commit_cases as [[res Hr]|[e Hr]]; rewrite Hr; split_and!; try done. intros y [= <-]. eauto. }
  destruct Hfields as (Hdb & Hop & Hrid & Hres).
  destruct (unary_answered sv commitAfter (lp_round x) request commitResponse commitError) with (given := given) (c := c) (x := x)
    as (x' & Hun & Hsv'); try done.
  - exact commit_dispatch.
  - rewrite Hdb. split; [done|lia].
  - rewrite Hlim. fold limits. lia.
  - intros y Hy. by destruct (Hres y Hy) as [m ->].
  - exists x'. split; [|done]. rewrite (commit_client _ _ Hun). by rewrite commit_learned.
Qed.

(** Whatever the error of the engine is, the call fails. *)
Lemma commit_failed e : r = Err e -> exists failure x', Client_AtomicBatch given batch c x = (Err failure, (requestID given c).2, x') /\
  lp_server x' = commitAfter.
Proof.
  intros Hr. destruct connected as (Hsv & Hclosed & Hreuse & Hlim), id_ok as [Hu Hid].
  destruct commit_request as (Hwire & Hvalid & Hnorm), (database_plain sv database_id) as (Hp & _ & _).
  destruct (unary_failed sv commitAfter (lp_round x) request (commitFailure e)) with (given := given) (c := c) (x := x)
    as (failure & x' & Hun & Hsv'); try done.
  - rewrite commit_dispatch. unfold commitResponse. by rewrite Hr.
  - rewrite Hlim. fold limits. lia.
  - exists failure, x'. split; [|done]. by rewrite (commit_client _ _ Hun).
Qed.

(** What the batch's own predicates say at the instant of its execution. *)
Definition commitRefusal : error := refusal batch operationBatch (Nondecreasing_Now (st_clock commitStart)).1 commitStart.

Lemma commit_refused e : commitRefusal = Some e -> exists g, e = ErrGap g /\ carried g.
Proof.
  pose proof (en_core _ _ _ _ _ (engine_inv_clock (bound := bound) _ _ _ _ _ (Nondecreasing_Now (st_clock st)).2 invariant)) as Hcore.
  destruct room as [Hfit _], batch_wire as (_ & Ha & _), (validateBatchAt_wf _ _ _ Hfit timely) as [Hwf Hexp].
  by apply refusal_carried.
Qed.

(** C14: what a client is told of a batch is what happened to it.  A client sends
    a valid batch to a ready server over a connection that loses nothing; the
    engine may commit it or fail in any way.  If it commits, the call returns the
    result of the commit, its revision and durability among it, never an error;
    the batch's own predicates held, it is the last commit of the log under that
    revision, and durable if a durable acknowledgement was asked for.  If it does
    not, the call never returns a success; an error of the engine that denies the
    application left the log as it was, and an error that a response can carry is
    the one that the caller gets, or the error that it exceeds the frame limit.
    Such is every refusal of the batch by its own predicates (an expiry that has
    passed, an assertion or a condition that fails), and when no fault is injected
    the engine answers exactly that refusal. *)
Theorem client_commit_exact : exists answer x' cs' fl',
  Client_AtomicBatch given batch c x = (answer, (requestID given c).2, x') /\
  engine_inv (bound := bound) snap base cs' fl' (ow_state (sv_owner (lp_server x'))) /\
  match r with
  | Ok res =>
      answer = Ok (CrResult res) /\ commitRefusal = None /\
      cs' = cs ++ [frameOf (ResRevision (CrResult res)) batch operationBatch] /\ st_current st < ResRevision (CrResult res) /\
      (BatchAck batch = AckDurable -> ResRevision (CrResult res) <= log_DurableThrough (st_log (ow_state (sv_owner (lp_server x')))))
  | Err e =>
      (exists failure, answer = Err failure) /\ (claims_applied e = false -> cs' = cs /\ fl' = fl) /\
      (forall g, e = ErrGap g -> carried g -> answer = told g) /\
      (commitRefusal = Some e -> claims_applied e = false /\ exists g, e = ErrGap g /\ carried g) /\
      (silent (F := F) -> forall refused, commitRefusal = Some refused -> e = refused)
  end.
Proof.
  destruct commit_leaves as (cs' & fl' & Hinv & _ & Hout). destruct commit_cases as [[res Hr]|[e Hr]].
  - destruct commit_called as (x' & Hcall & Hsv'); [by intros e He; rewrite Hr in He|]. unfold commitAnswer in Hcall. rewrite Hr in Hcall, Hout.
    exists (Ok (CrResult res)), x', cs', fl'. rewrite Hr, Hsv'. split; [done|]. split; [by apply engine_inv_resetTimer|].
    destruct Hout as (revision & durable & Hacc & Hcur & _ & Hcs & _ & _ & -> & _ & _ & _ & Hlog & [_ Hack] & _).
    split_and!; [done|by apply accepted_refusal|done|done|].
    intros Ha. cbn. specialize (Hack Ha). destruct (resetTimer_fields st') as [_ Hd]. unfold EngineRun.durable in Hd. rewrite Hd. lia.
  - destruct (commit_failed e Hr) as (failure & x' & Hcall & Hsv'). exists (Err failure), x', cs', fl'. rewrite Hr in Hout.
    destruct Hout as (Hlog & _). rewrite Hsv'. split; [done|]. split; [by apply engine_inv_resetTimer|]. rewrite Hr. split_and!.
    + eauto.
    + intros He. rewrite He in Hlog. destruct Hlog as [?|[? _]]; done.
    + intros g -> Hg. destruct commit_called as (x2 & Hcall2 & _); [intros e He; rewrite Hr in He; injection He as <-; eauto|].
      rewrite Hcall in Hcall2. injection Hcall2 as Hans _. rewrite Hans. unfold commitAnswer. rewrite Hr. by rewrite failure_carried.
    + intros He. split; [by eapply refusal_denies|by apply commit_refused].
    + intros Hs e' He. destruct ready as [Hready _].
      pose proof (execute_refused batch operationBatch commitStart e' Hs Hready He) as Hex. rewrite executed in Hex.
      cbn [fst] in Hex. rewrite Hr in Hex. by injection Hex.
Qed.
End commit.
End session.
Arguments Loop : clear implicits.

(** ** A session *)

Module SampleSession.
#[local] Existing Instance quiet.

(** An administration that does nothing. *)
#[local] Instance idle : Administration (C := Manual) (A := RangeAllocator unit) (L := WAL * FSState unit) (F := unit) (G := unit) := {|
  administer := fun _ _ _ sv => Some (Returned (Err (invalidRequest "operation" "operation is not implemented by the owner")), sv)
|}.

Definition controller : Controller :=
  MkController (MkManifest Sample.id 1 "snapshot-00000000000000000000.gds" 0 [] "wal-00000000000000000001.gdb" 1) 4096
    (MkAuditOptions 0 0 0) 64.
Definition server : Server Manual (RangeAllocator unit) (WAL * FSState unit) unit unit :=
  MkServer (startOwner SampleDB.later) controller DefaultOptions 1 false 0 false 4711 5000 tt.
Definition network : Loop Manual (RangeAllocator unit) (WAL * FSState unit) unit unit :=
  MkLoop server (MkRound 7000 background (Ok 0) []) 1 ∅ ∅.
Definition client : Client := MkClient DefaultOptions 0 0 false ∅ false None.

(** The same process on the fresh database. *)
Definition fresh : Server Manual (RangeAllocator unit) (WAL * FSState unit) unit unit :=
  MkServer (startOwner SampleDB.opened) controller DefaultOptions 1 false 0 false 4711 5000 tt.
Definition freshNetwork : Loop Manual (RangeAllocator unit) (WAL * FSState unit) unit unit :=
  MkLoop fresh (MkRound 7000 background (Ok 0) []) 1 ∅ ∅.

Lemma batch_wire : wire_arguments (BatchArguments SampleDB.batch).
Proof.
  split; [by vm_compute|]. split; [by apply Forall_nil|]. repeat (apply Forall_cons; split); [..|by apply Forall_nil];
    (split; [by vm_compute|]); (split; [by vm_compute|]); (split; [by vm_compute|]); (split; [by vm_compute|by vm_compute]).
Qed.

(** A batch that asks for a revision of a key that is not there. *)
Definition guarded : Batch := MkBatch AckDurable [MkAssertion (lit "jobs/9") (MkCondition ConditionRevision 5)]
  [NewPutMutation (lit "jobs/1") (Some (lit "queued")) SampleBatch.unconditional None].
Definition failure : Error := assertionFailure (lit "jobs/9") ConditionRevision (Some 5) None 0.

Lemma guarded_wire : wire_arguments (BatchArguments guarded).
Proof.
  split; [by vm_compute|]. split; (apply Forall_cons; split; [|by apply Forall_nil]).
  - split; [by vm_compute|]. split; by vm_compute.
  - (split; [by vm_compute|]); (split; [by vm_compute|]); (split; [by vm_compute|]); (split; [by vm_compute|by vm_compute]).
Qed.

Lemma fits_guarded : fits guarded SampleDB.opened.
Proof. split; by vm_compute. Qed.

(** The record that is there, and the one that has expired. *)
Lemma reads : (Client_Get (H := Loopback) None (lit "jobs/2") client network).1.1 = Ok (MkRecord (lit "jobs/2") (lit "ready") 1 None).
Proof. vm_compute. reflexivity. Qed.
End SampleSession.

#[local] Existing Instance quiet.
#[local] Existing Instance SampleSession.idle.

Lemma client_get_exact_witness :
  exists x', Client_Get (H := Loopback) None (lit "jobs/2") SampleSession.client SampleSession.network =
    (Ok (MkRecord (lit "jobs/2") (lit "ready") 1 None), setRequests 1 SampleSession.client, x').
Proof.
  destruct (client_get_exact SampleSession.server SampleSession.network SampleSession.client None (lit "jobs/2")) as (x' & Hget & _).
  - exact (sc_core _ SampleDB.later_scannable).
  - exact (sc_current _ SampleDB.later_scannable).
  - reflexivity.
  - reflexivity.
  - split; vm_compute; [reflexivity|discriminate].
  - split; [discriminate|]. split; vm_compute; [reflexivity|discriminate].
  - by split_and!.
  - vm_compute. discriminate.
  - vm_compute. reflexivity.
  - exists x'. rewrite Hget. vm_compute. reflexivity.
Defined.

Lemma committed_result {X} (p : option (result goerror CommitResult) * X) m :
  fmap (M := option) (fun r => r ← r; Ok (CrResult r)) p.1 = Some (Ok m) -> exists res st', p = (Some (Ok res), st') /\ CrResult res = m.
Proof. destruct p as [[[res|e]|] st']; try done. intros [= Hm]. by exists res, st'. Qed.

Lemma refused_result {X} (p : option (result goerror CommitResult) * X) e : p.1 = Some (Err e) -> p = (Some (Err e), p.2).
Proof. destruct p. by intros [= ->]. Qed.

Lemma client_commit_exact_witness :
  (exists x' fl', Client_AtomicBatch (H := Loopback) None SampleDB.batch SampleSession.client SampleSession.freshNetwork =
     (Ok (MkMutationResult 1 AckDurable 1 2 0), setRequests 1 SampleSession.client, x') /\
     engine_inv (LS := WAL_LogSpec 1000) (AS := RangeAllocator_Spec 1000) ∅ 0 [frameOf 1 SampleDB.batch operationBatch] fl'
       (ow_state (sv_owner (lp_server x')))) /\
  (exists x', Client_AtomicBatch (H := Loopback) None SampleSession.guarded SampleSession.client SampleSession.freshNetwork =
     (Err (RemoteError (errorValue SampleSession.failure)), setRequests 1 SampleSession.client, x') /\
     engine_inv (LS := WAL_LogSpec 1000) (AS := RangeAllocator_Spec 1000) ∅ 0 [] [] (ow_state (sv_owner (lp_server x')))).
Proof.
  split.
  - assert (fmap (M := option) (fun r => r ← r; Ok (CrResult r)) (executeSafely SampleDB.batch operationBatch (commitStart SampleSession.fresh)).1 =
      Some (Ok (MkMutationResult 1 AckDurable 1 2 0))) as Hrun by (vm_compute; reflexivity).
    apply committed_result in Hrun as (res & st' & Hex & Hres).
    destruct (client_commit_exact (LS := WAL_LogSpec 1000) (AS := RangeAllocator_Spec 1000) SampleDB.fits_1000 ltac:(vm_compute; discriminate)
      ∅ 0 [] [] SampleSession.fresh SampleSession.freshNetwork SampleSession.client None SampleDB.batch (Ok res) st')
      as (answer & x' & cs' & fl' & Hcall & Hinv & Hans & _ & Hcs & _).
    + exact Hex.
    + split; reflexivity.
    + clear. vm_compute. split_and!; reflexivity.
    + reflexivity.
    + vm_compute. reflexivity.
    + exact SampleDB.opened_inv.
    + vm_compute. discriminate.
    + vm_compute. discriminate.
    + exact SampleDB.fits_batch.
    + vm_compute. reflexivity.
    + vm_compute. reflexivity.
    + vm_compute. split; [reflexivity|discriminate].
    + exact SampleSession.batch_wire.
    + vm_compute. split; [reflexivity|discriminate].
    + vm_compute. split; [discriminate|reflexivity].
    + clear. split_and!; reflexivity.
    + vm_compute. discriminate.
    + unfold commitResponse. rewrite Hres. vm_compute. reflexivity.
    + exists x', fl'. split; [|rewrite Hcs, Hres in Hinv; exact Hinv]. rewrite Hcall, Hans, Hres. reflexivity.
  - assert ((executeSafely SampleSession.guarded operationBatch (commitStart SampleSession.fresh)).1 = Some (Err (ErrGap SampleSession.failure))) as Hrun
      by (vm_compute; reflexivity).
    apply refused_result in Hrun as Hex.
    destruct (client_commit_exact (LS := WAL_LogSpec 1000) (AS := RangeAllocator_Spec 1000) SampleDB.fits_1000 ltac:(vm_compute; discriminate)
      ∅ 0 [] [] SampleSession.fresh SampleSession.freshNetwork SampleSession.client None SampleSession.guarded (Err (ErrGap SampleSession.failure))
      (executeSafely SampleSession.guarded operationBatch (commitStart SampleSession.fresh)).2)
      as (answer & x' & cs' & fl' & Hcall & Hinv & _ & Hcs & Hans & Href & _).
    + exact Hex.
    + split; reflexivity.
    + clear. vm_compute. split_and!; reflexivity.
    + reflexivity.
    + vm_compute. reflexivity.
    + exact SampleDB.opened_inv.
    + vm_compute. discriminate.
    + vm_compute. discriminate.
    + exact SampleSession.fits_guarded.
    + vm_compute. reflexivity.
    + vm_compute. reflexivity.
    + vm_compute. split; [reflexivity|discriminate].
    + exact SampleSession.guarded_wire.
    + vm_compute. split; [reflexivity|discriminate].
    + vm_compute. split; [discriminate|reflexivity].
    + clear. split_and!; reflexivity.
    + vm_compute. discriminate.
    + vm_compute. reflexivity.
    + destruct Href as (Hclaims & g & Hg & Hcar); [vm_compute; reflexivity|]. destruct (Hcs Hclaims) as [-> ->].
      exists x'. split; [|exact Hinv]. rewrite Hcall, (Hans g Hg Hcar). injection Hg as <-. vm_compute. reflexivity.
Defined.
